(* ===== verification/_CoqProject ===== *)
-Q . S2P
Prelude.v
TimeUtils.v
ThreadUtils.v
CircList.v
MemPool.v
Types.v
LFQueue.v
Double.v
Logging.v
LoggerThread.v
LatencyHistogram.v
Wire.v
TcpLink.v
SocketUtils.v
BookCore.v
BookSpec.v
BookRep.v
BookRemove.v
BookRefine.v
BookDump.v
MarketOrderBook.v
MarketBookClear.v
MarketBookQty.v
MEOrderBook.v
MESpec.v
MERefine.v
MEInv.v
MatchingEngine.v
Requests.v
OrderServer.v
ServerStreams.v
OrderGateway.v
GatewayRuns.v
Binance.v
MarketData.v
Mirror.v
Snapshot.v
System.v
MarketDataConsumer.v
Position.v
RunEvents.v
Exchange.v
OrderManager.v
Features.v
Reports.v
Strategy.v
Session.v
FeedPath.v
EngineRuns.v
Measured.v
Client.v
ClientRuns.v
Connected.v
StrategySafety.v
Parse.v
Tape.v
TapeProofs.v
Lobster.v
LobsterProofs.v
Backtest.v
BacktestProofs.v
BacktestBook.v
BacktestFills.v
BacktestLobster.v
BacktestMain.v
TradingMain.v
Benchmarks.v
Shutdown.v
Lifecycle.v
CommonTheorems.v
NetTheorems.v
ExchangeTheorems.v
FeedTheorems.v
SessionTheorems.v
ClientTheorems.v
TradingTheorems.v
BacktestTheorems.v
ExchangeRunTheorems.v
ConnectedTheorems.v
ClientRunTheorems.v
