(* ===== verification/Prelude.v ===== *)
(** * A low-latency electronic trading ecosystem: verification.

    The program is a stock exchange and its trading clients.  The exchange: an
    order server accepts the clients' requests over TCP and puts them in arrival
    order, the matching engine keeps a limit order book per ticker and matches,
    a publisher sends the public updates by multicast and a synthesizer publishes
    snapshots for recovery.  The client: a market data consumer rebuilds the
    books, the trade engine computes features, runs a market maker or a liquidity
    taker under risk limits, and an order gateway talks to the exchange.  A
    backtest replays recorded tapes against the same trade engine.  The threads
    of a process communicate through lock-free queues; the processes through
    packed structs on sockets.

    ** Files and sources

    Shared parts (src/common).
    - Prelude.v: the error monad, machine integers, notations, tactics.
    - CircList.v: circular doubly linked lists, as the books thread them.
    - MemPool.v: mem_pool.h and opt_mem_pool.h.  LFQueue.v: lf_queue.h, also
      with a producer and a consumer interleaved at the atomic members.
    - TimeUtils.v: time_utils.h.  ThreadUtils.v: thread_utils.h.
    - Types.v: types.h and the messages.  Wire.v: their bytes, tcp_socket.cpp.
      TcpLink.v: two such sockets and the bytes between them.  SocketUtils.v:
      socket_utils.h and the start of tcp_server.cpp, over a class of system calls.
    - Double.v: the [double] arithmetic, as a class with a binary64 and an exact
      instance.
    - Logging.v: logging.h, opt_logging.h.  LoggerThread.v: their background
      thread, constructor and destructor.  LatencyHistogram.v:
      latency_histogram.h.

    Order books.
    - BookCore.v: the pointer structure both books share (pools, rings of levels
      and of orders, index arrays); BookSpec.v: the abstract book, two priority
      lists; BookRep.v, BookRemove.v: the representation invariant and that the
      list surgery preserves it; BookRefine.v: the interface [rep] the two books
      program against; BookDump.v: their textual dump.
    - MEOrderBook.v: src/exchange/matcher/me_order_book.{h,cpp}; MESpec.v: what
      it promises; MERefine.v: that it does; MEInv.v: the invariant of its runs.
    - MarketOrderBook.v: src/trading/strategy/market_order_book.{h,cpp};
      MarketBookClear.v: its CLEAR; MarketBookQty.v: its quantities.

    Exchange (src/exchange).
    - MatchingEngine.v: matcher/matching_engine.{h,cpp}.  Requests.v: a condition
      on the requests alone under which the engine serves all of them.
    - OrderServer.v: order_server/order_server.{h,cpp}, fifo_sequencer.h,
      src/common/tcp_server.cpp.
    - MarketData.v: market_data/market_data_publisher.cpp,
      snapshot_synthesizer.cpp, src/common/mcast_socket.cpp.
    - Mirror.v, Snapshot.v, System.v: the composition of the matching engine,
      the feed, the snapshots and a client's books.
    - ServerStreams.v: the byte streams of the order server's connections and the
      sequence numbers on them.  RunEvents.v: the private and public events of a
      run.  Exchange.v: exchange_main.cpp, that is the queues, the components on
      them and their threads interleaved, with the invariant of its runs.

    Client (src/trading).
    - OrderGateway.v: order_gw/order_gateway.{h,cpp}, and a session with the
      order server.  GatewayRuns.v: what a turn of it reads and sends.
      MarketDataConsumer.v: market_data/market_data_consumer.cpp.  Binance.v:
      order_gw/binance/, a skeleton without a transport.
    - Position.v, OrderManager.v, Features.v, Strategy.v: strategy/, that is
      position_keeper.h, order_manager.{h,cpp}, risk_manager.{h,cpp},
      feature_engine.h, vpin.h, market_maker.cpp, liquidity_taker.cpp and
      trade_engine.{h,cpp}.  StrategySafety.v: what the algorithms ask of the
      order manager.  Reports.v: the texts of orders, positions and parameters.
      Measured.v: the trade engine with its latency measurements (perf_utils.h).
    - Session.v, FeedPath.v: a response and an update on their way from the
      matching engine to the trade engine.  EngineRuns.v: turns of the trade
      engine.  Client.v: trading_main.cpp's queues, components and threads;
      ClientRuns.v: the invariant of its runs, and its runs on any input once the
      consumer is in recovery.  Connected.v: the client connected to the exchange.
    - TradingMain.v: trading_main.cpp up to the wait for a quiet market, with the
      orders of the RANDOM strategy.  Shutdown.v: the wait and the end, and a RANDOM
      client from start to end.
    - Lifecycle.v: how both processes start and stop their components: the [start]
      and [stop] members and the destructors, the two [main] functions from that
      side, and their signal handlers.

    Backtest (src/backtest).
    - Parse.v: the text input of the C++ library that the readers use.
    - Tape.v, TapeProofs.v: binance_tape_reader.{h,cpp}.  Lobster.v,
      LobsterProofs.v: lobster_tape_reader.{h,cpp}.
    - Backtest.v: backtest_engine.{h,cpp}; BacktestProofs.v: the simulator and
      the trade engine stay in step; BacktestBook.v: the replayed book;
      BacktestFills.v: the fills; BacktestLobster.v: the LOBSTER run.
    - BacktestMain.v: backtest_main.cpp, and the files a run writes.

    Benchmarks (src/benchmarks).
    - Benchmarks.v: the four programs.

    ** How the code is modelled

    A class is a record of its members, a method a function on it that returns
    the new record; failure is a value of [result] ([error] below), so an
    assertion, an exception, a null dereference and undefined behaviour are
    distinguished.  Pointers into a pool are block indices, and a freed block
    keeps its content, as in the code.  Integers are [Z] with the wrap-around of
    their width written out ([wrap], [swrap]); signed overflow is undefined.
    Loops whose recursion is not structural run on fuel; each is started with a
    bound the code's data gives (the size of a pool, of a queue or of a text),
    and the theorems say that it is enough.  The clock, the kernel's answers on
    sockets, [std::sort], the order of a hash table's entries, [log], [log1p] and
    the texts of doubles are arguments with the documented laws; that of [std::sort]
    is for any comparison that is a strict weak order ([StdSort], OrderServer.v), and
    the comparison it is called with is the source's.

    Members without an initialiser contain what the memory contained.  For the index
    arrays of both books (me_order_book.h, market_order_book.h), which no constructor
    sets although the first order reads them, that is the argument [IndexMemory]
    (BookCore.v) of the constructors, and with the cost arrays of the positions the
    argument [EngineMemory] (Strategy.v) of the trade engine's.  Theorems that start
    from the constructors and say that operations succeed or what a book contains
    assume zeroed memory ([zeroed], [all_zeroed]); [stale_index_stops_first_order]
    (ExchangeTheorems.v) is what happens otherwise.  The position limits and what
    holds of any represented book do not depend on it.

    ** Theorems

    The properties, numbered C1 to C40 in the order of importance, are in the
    files whose names end in Theorems, each with an instance that applies it to
    concrete data.
    - ConnectedTheorems.v: a client process and the exchange process, each in any
      state its threads reach, connected by streams of which each side has read a
      beginning (for the multicast, up to a failed send): the requests that
      arrive, the responses and positions, and the client's books against the
      exchange's; and what the client process guarantees on its own.
    - ExchangeRunTheorems.v: the exchange process, its threads interleaved; and that
      neither process frees what a thread still uses, whenever the signal comes, but
      for the last lines of the client.
    - SessionTheorems.v: complete sessions: when everything has arrived, the
      client's books and positions are those of the exchange.
    - NetTheorems.v: the TCP link, and how the sockets are configured.
    - ExchangeTheorems.v: the matching engine implements the specification of
      the book; price-time priority, conservation of quantity and limit prices;
      the book invariant on every run; what the order server accepts, in which
      order, and how it answers.
    - FeedTheorems.v: the numbered feed, the snapshots, and that a client's books
      mirror the exchange's.
    - ClientTheorems.v: the client's book follows the updates; the consumer
      forwards in sequence and merges a snapshot with the buffered updates; the
      gateway's session.
    - TradingTheorems.v: position limits, requests that pass the risk checks,
      passive quotes, the killswitch, the accounting identity, the features, the
      latency measurements.
    - BacktestTheorems.v: what the readers deliver, the fill simulator, the
      replayed book, and the position limit of the command line through the
      whole program.
    - ClientRunTheorems.v: that the program of a RANDOM client ends while the
      exchange's messages reach it in any pieces, what it sends, and that the matching
      engine serves many of them in whatever order their requests arrive; why a
      client never leaves recovery, and what its books are from then on.
    - CommonTheorems.v: pools, queues (also under concurrency), the wire format,
      the loggers with their threads and the histogram.

    Some statements say what the code does not achieve: what CLEAR leaves behind and
    the consumer's recovery are properties; smaller ones are lemmas beside their
    component (an unchecked client id, the 32-bit fill id, equal receive times,
    the missing argument of the backtest).

    ** Interleaving

    The queues are proved correct with a producer and a consumer at the granularity
    of their atomic members (LFQueue.v), and the loggers' thread at that of its
    statements.  In Exchange.v and Client.v a step is a whole turn of a thread's loop
    on the shared queues.  A failed multicast [send], which drops the publisher's
    buffer, is a step like any other and is recorded in the history ([h_sends]).  The
    steps assume that no queue is overrun, which the code
    does not check; the statements of the theorems name the other assumptions, as
    conditions on the requests, the incoming bytes and the sequence numbers.

    In Lifecycle.v time passes: a component's thread looks at its [run_] flag again
    within a bound below the shortest sleep of a destructor, one second, and the
    main thread executes its instructions at any time after its sleeps.

    ** Not modelled

    The kernel's side of sockets, which answers through the class of system calls in
    SocketUtils.v; sleeps other than those of the starts and shutdowns, which only
    delay; a thread that hangs in one turn for a second or more; the delivery of the
    log lines of the handlers, which change no state (the loggers themselves are
    modelled); that a turn of the trade engine with an algorithm returns, which is
    proved for the RANDOM client only; stale index pointers that point outside the
    pools; the scripts and notebooks, but for the layout of the tape that
    src/scripts/merge_binance.py writes ([print_tape], TapeProofs.v). *)

From stdpp Require Import gmap list sorting strings.

(** ** Failure modes of the C++ code, as values.

    [ASSERT] and [FATAL] (src/common/macros.h) terminate the process, an
    [std::array::at] out of range throws inside a [noexcept] function and so
    terminates too, a null dereference and an out-of-bounds raw access are
    undefined.  [Thrown] is an exception that leaves the function and that
    nobody catches.  [OutOfFuel] is not a behaviour of the code: it marks a loop
    bound that the termination theorems prove to be sufficient. *)
Inductive error :=
| AssertFailed
| FatalError
| OutOfRange
| NullDeref
| Undefined
| Thrown
| OutOfFuel.

Inductive result (A : Type) :=
| Ok (a : A)
| Err (e : error).
Arguments Ok {A} a.
Arguments Err {A} e.

#[export] Instance error_eq_dec : EqDecision error.
Proof. solve_decision. Defined.

#[export] Instance result_eq_dec `{EqDecision A} : EqDecision (result A).
Proof. solve_decision. Defined.

(** Sequencing of fallible code, with a notation in a scope of its own. *)
Definition rbind {A B} (m : result A) (f : A → result B) : result B :=
  match m with Ok a => f a | Err e => Err e end.

Declare Scope result_scope.
Delimit Scope result_scope with result.
Open Scope result_scope.
Notation "'let*' x := m 'in' k" := (rbind m (λ x, k))
  (at level 10, x pattern, m at level 100, k at level 200) : result_scope.

Definition is_ok {A} (r : result A) : Prop := ∃ a, r = Ok a.

(** [ASSERT(cond, msg)] and [FATAL(msg)] of src/common/macros.h. *)
Definition ASSERT (cond : bool) : result unit :=
  if cond then Ok tt else Err AssertFailed.
Definition FATAL {A} : result A := Err FatalError.

(** ** Machine integers: values in [Z], the wrap-around written out. *)
Definition wrap (w z : Z) : Z := z `mod` 2 ^ w.
Definition swrap (w z : Z) : Z := wrap w (z + 2 ^ (w - 1)) - 2 ^ (w - 1).
Abbreviation u32 := (wrap 32).
Abbreviation u64 := (wrap 64).
Abbreviation i32 := (swrap 32).
Abbreviation i64 := (swrap 64).

Lemma bind_ok {A B} (m : result A) (f : A → result B) b :
  rbind m f = Ok b ↔ ∃ a, m = Ok a ∧ f a = Ok b.
Proof. destruct m; naive_solver. Qed.

(** Code without a bounded loop does not run out of fuel. *)
Definition fueled {A} (m : result A) : Prop := m ≠ Err OutOfFuel.

Lemma fueled_bind {A B} (m : result A) (f : A → result B) :
  fueled m → (∀ a, m = Ok a → fueled (f a)) → fueled (rbind m f).
Proof. unfold fueled. destruct m; naive_solver. Qed.

Create HintDb fuel.

(** Splits a computation into its primitive parts. *)
Ltac fuel_step :=
  repeat first
    [ progress auto with fuel
    | apply fueled_bind; [|intros ? ?]
    | case_match
    | unfold fueled; discriminate ].

(** ** Lists *)

Lemma Forall_sublist {A} (P : A → Prop) (l1 l2 : list A) :
  sublist l1 l2 → Forall P l2 → Forall P l1.
Proof. induction 1; [done|..]; intros []%Forall_cons; [constructor|]; auto. Qed.

Lemma filter_all {A} (P : A → Prop) `{!∀ a, Decision (P a)} (l : list A) : Forall P l → filter P l = l.
Proof. induction 1 as [|a l Ha _ IH]; [done|]. rewrite filter_cons, decide_True by done. by rewrite IH. Qed.

Lemma filter_none {A} (P : A → Prop) `{!∀ a, Decision (P a)} (l : list A) : Forall (λ a, ¬ P a) l → filter P l = [].
Proof. induction 1 as [|a l Ha _ IH]; [done|]. by rewrite filter_cons, decide_False. Qed.

Lemma StronglySorted_sublist {A} (R : relation A) (l1 l2 : list A) :
  sublist l1 l2 → StronglySorted R l2 → StronglySorted R l1.
Proof.
  induction 1; [done|..]; intros [??]%StronglySorted_inv; [|auto].
  constructor; [by auto|]. by eapply Forall_sublist.
Qed.

Lemma StronglySorted_impl_elem {A} (R1 R2 : relation A) (l : list A) :
  (∀ x y, x ∈ l → y ∈ l → R1 x y → R2 x y) → StronglySorted R1 l → StronglySorted R2 l.
Proof.
  intros Himp. induction 1 as [|x l Hs IH Hx]; constructor; [set_solver|].
  rewrite Forall_forall in Hx |- *. intros y Hy. apply Himp; [set_solver..|by apply Hx].
Qed.

Lemma Forall_impl_elem {A} (P Q : A → Prop) (l : list A) :
  (∀ x, x ∈ l → P x → Q x) → Forall P l → Forall Q l.
Proof. rewrite !Forall_forall. eauto. Qed.

(** Injectivity of a function on the elements of a list with distinct images. *)
Lemma NoDup_fmap_inj_elem {A B} (f : A → B) (l : list A) x y :
  NoDup (f <$> l) → x ∈ l → y ∈ l → f x = f y → x = y.
Proof.
  intros Hnd [i Hi]%list_elem_of_lookup_1 [j Hj]%list_elem_of_lookup_1 E.
  assert (i = j) as ->; [|congruence].
  apply (NoDup_lookup (f <$> l) i j (f x)); [done|..]; rewrite list_lookup_fmap, ?Hi, ?Hj; simpl; congruence.
Qed.

(** A list sorted by an asymmetric order is determined by its elements. *)
Lemma StronglySorted_unique_strict {A} (R : relation A) (l1 l2 : list A) :
  (∀ x y, R x y → R y x → False) →
  StronglySorted R l1 → StronglySorted R l2 → l1 ≡ₚ l2 → l1 = l2.
Proof.
  intros Has Hs1. revert l2. induction Hs1 as [|x l1 Hs1 IH Hx]; intros l2 Hs2 Hp.
  - by apply Permutation_nil in Hp.
  - destruct l2 as [|y l2]; [symmetry in Hp; by apply Permutation_nil_cons in Hp|].
    apply StronglySorted_inv in Hs2 as [Hs2 Hy]. rewrite Forall_forall in Hx, Hy.
    assert (x = y) as ->.
    { assert (x ∈ y :: l2) as [->|Hx2]%elem_of_cons by (rewrite <- Hp; set_solver); [done|].
      assert (y ∈ x :: l1) as [->|Hy2]%elem_of_cons by (rewrite Hp; set_solver); [done|].
      exfalso. apply (Has x y); auto. }
    f_equal. apply IH; [done|]. by apply Permutation_cons_inv in Hp.
Qed.
