(* ===== verification/TimeUtils.v ===== *)
(** * Time stamps.

    src/common/time_utils.h: the constants and the text of a time stamp.  The
    clock is an argument: its reading in nanoseconds and the text of [ctime]. *)

From stdpp Require Import numbers strings pretty list.
From S2P Require Import Prelude.

Open Scope Z_scope.
Local Coercion Z.of_nat : nat >-> Z.

Definition NANO_TO_MICROS : Z := 1000.
Definition MICROS_TO_MILLIS : Z := 1000.
Definition MILLIS_TO_SECS : Z := 1000.
Definition NANOS_TO_MILLIS : Z := NANO_TO_MICROS * MICROS_TO_MILLIS.
Definition NANOS_TO_SECS : Z := NANOS_TO_MILLIS * MILLIS_TO_SECS.

(** [%09lld]: at least nine characters, zeros in front. *)
Fixpoint zeros (n : nat) : string := match n with O => "" | S n => "0" +:+ zeros n end.

Definition pad_zeros (width : nat) (z : Z) : string :=
  let s := pretty z in zeros (width - String.length s) +:+ s.

(** [snprintf] into 24 characters with the terminator. *)
Definition snprintf_24 (s : string) : string := String.substring 0 23 s.

(** The eight characters from offset 11 of "Day Mon DD HH:MM:SS YYYY". *)
Definition getCurrentTimeStr (ctime : string) (nanos : Z) : string :=
  snprintf_24 (String.substring 11 8 ctime +:+ "." +:+ pad_zeros 9 (Z.rem nanos NANOS_TO_SECS)).

(** ** The text fits *)

Lemma length_app_string s1 s2 : String.length (s1 +:+ s2) = (String.length s1 + String.length s2)%nat.
Proof. induction s1 as [|c s1 IH]; [done|]. simpl. by rewrite IH. Qed.

Lemma length_zeros n : String.length (zeros n) = n.
Proof. induction n as [|n IH]; [done|]. cbn [zeros]. by rewrite length_app_string, IH. Qed.

Lemma substring_all s n : (String.length s ≤ n)%nat → String.substring 0 n s = s.
Proof.
  revert n. induction s as [|c s IH]; intros n Hn; [by destruct n|]. destruct n as [|n]; simpl in Hn; [lia|].
  simpl. by rewrite IH by lia.
Qed.

(** A natural number below [10 ^ n] has at most [n] digits. *)
Lemma pretty_N_go_length n x acc :
  (x < 10 ^ N.of_nat n)%N → (String.length (pretty_N_go x acc) ≤ n + String.length acc)%nat.
Proof.
  revert x acc. induction n as [|n IH]; intros x acc Hx.
  - assert (x = 0%N) as -> by (simpl in Hx; lia). by rewrite pretty_N_go_0.
  - destruct (decide (0 < x)%N) as [Hp|Hz].
    + rewrite pretty_N_go_step by done. etrans; [apply IH|simpl; lia].
      rewrite Nat2N.inj_succ, N.pow_succ_r' in Hx. apply N.Div0.div_lt_upper_bound. lia.
    + assert (x = 0%N) as -> by lia. rewrite pretty_N_go_0. lia.
Qed.

Lemma pretty_length (z : Z) (n : nat) :
  0 ≤ z < 10 ^ n → (0 < n)%nat → (String.length (pretty z) ≤ n)%nat.
Proof.
  intros Hz Hn. destruct z as [|p|p]; [simpl; lia| |lia].
  assert (pretty (Z.pos p) = pretty_N_go (N.pos p) "") as -> by reflexivity.
  etrans; [apply (pretty_N_go_length n)|simpl; lia].
  apply N2Z.inj_lt. rewrite N2Z.inj_pow, nat_N_Z. simpl. lia.
Qed.

Lemma length_substring n m s : String.length (String.substring n m s) = Nat.min m (String.length s - n)%nat.
Proof.
  revert n m. induction s as [|c s IH]; intros [|n] [|m]; simpl; try done; [by rewrite IH, Nat.sub_0_r|by rewrite IH..].
Qed.

(** The stamp of a proper [ctime] text is HH:MM:SS, a dot and nine digits: nothing is
    cut off. *)
Lemma getCurrentTimeStr_length ctime nanos :
  (19 ≤ String.length ctime)%nat → 0 ≤ nanos → String.length (getCurrentTimeStr ctime nanos) = 18%nat.
Proof.
  intros Hc Hn. unfold getCurrentTimeStr, snprintf_24, pad_zeros.
  pose proof (Z.rem_bound_pos nanos NANOS_TO_SECS Hn ltac:(done)) as Hr.
  set (r := Z.rem nanos _) in *. assert (String.length (pretty r) ≤ 9)%nat as Hp by (apply pretty_length; [exact Hr|lia]).
  rewrite length_substring, !length_app_string, length_zeros, length_substring. change (String.length ".") with 1%nat. lia.
Qed.
