(* ===== verification/ThreadUtils.v ===== *)
(** * Starting threads.

    src/common/thread_utils.h: what a new thread does before it runs its function.
    The platform and the system calls are arguments: [pthread_setaffinity_np] for
    the mask of one core and [thread_policy_set] for one tag, which return an error
    number. *)

From stdpp Require Import strings pretty numbers list.
From S2P Require Import Prelude.

Open Scope Z_scope.

Inductive platform := Linux | Darwin | OtherPlatform.

Section ThreadUtils.
Context (os : platform) (pthread_setaffinity_np thread_policy_set : Z → Z).

(** [CPU_SET] of a negative core is out of range. *)
Definition setThreadCore (core_id : Z) : result bool :=
  match os with
  | Linux => if core_id <? 0 then Err Undefined else Ok (pthread_setaffinity_np core_id =? 0)
  | _ => Ok true
  end.

Definition pinCurrentThreadDarwinHint (affinity_tag : Z) : bool :=
  match os with
  | Darwin => thread_policy_set affinity_tag =? 0
  | _ => true
  end.

(** How the new thread ends up, with what it printed. *)
Inductive thread_fate :=
| ThreadRuns (cerr : string)
| ThreadExits (cerr : string).

Definition createAndStartThread (core_id : Z) (name : string) (pthread_self : Z) : result thread_fate :=
  let whom := name +:+ " " +:+ pretty pthread_self +:+ " to " +:+ pretty core_id in
  let* failed := (if 0 <=? core_id then let* ok := setThreadCore core_id in Ok (negb ok) else Ok false) in
  Ok (if failed : bool then ThreadExits ("Failed to set core affinity for " +:+ whom)
      else ThreadRuns ("Set core affinity for " +:+ whom)).

(** The callers pass core -1: the thread always runs, and the system is never asked
    for an affinity, although the line it prints says that it was set. *)
Lemma createAndStartThread_unpinned name self :
  createAndStartThread (-1) name self
  = Ok (ThreadRuns ("Set core affinity for " +:+ name +:+ " " +:+ pretty self +:+ " to -1")).
Proof. reflexivity. Qed.

(** With a core the call is defined, and the thread runs exactly when the affinity
    could be set. *)
Lemma createAndStartThread_pinned core_id name self :
  0 ≤ core_id → ∃ fate, createAndStartThread core_id name self = Ok fate
    ∧ ((∃ s, fate = ThreadRuns s) ↔ setThreadCore core_id = Ok true).
Proof.
  intros Hc. unfold createAndStartThread, setThreadCore. rewrite (proj2 (Z.leb_le _ _)), (proj2 (Z.ltb_ge _ _)) by done.
  destruct os; cbn [rbind]; eexists; (split; [done|]); [destruct (_ =? 0)|..]; cbn; naive_solver.
Qed.
End ThreadUtils.
