(* ===== verification/CircList.v ===== *)
(** * Circular doubly linked lists.

    Both the price levels of a side and the orders of a level are kept by the
    code as circular lists threaded through [prev]/[next] members.  [cyc] says
    that a list of pointers is such a ring, read from its first element; the
    lemmas give its neighbours, rotate it, and splice a node in or out. *)

From stdpp Require Import gmap list.
From S2P Require Import Prelude.

Open Scope Z_scope.

Section Ring.
Context (nxt prv : Z → option Z).

Definition link (x y : Z) : Prop := nxt x = Some y ∧ prv y = Some x.

(** The links from [x] through the nodes [l] to [y]. *)
Fixpoint path (x : Z) (l : list Z) (y : Z) : Prop :=
  match l with
  | [] => link x y
  | z :: l' => link x z ∧ path z l' y
  end.

Definition cyc (l : list Z) : Prop :=
  match l with [] => True | x :: l' => path x l' x end.

Lemma path_app x l1 z l2 y : path x (l1 ++ z :: l2) y ↔ path x l1 z ∧ path z l2 y.
Proof.
  revert x. induction l1 as [|w l1 IH]; intros x; simpl; [done|]. rewrite IH. tauto.
Qed.

Lemma cyc_rotate1 x l : cyc (x :: l) ↔ cyc (l ++ [x]).
Proof.
  destruct l as [|y l]; simpl; [done|]. rewrite path_app. simpl. tauto.
Qed.

Lemma cyc_rotate l1 l2 : cyc (l1 ++ l2) ↔ cyc (l2 ++ l1).
Proof.
  revert l2. induction l1 as [|x l1 IH]; intros l2; [by rewrite app_nil_r|].
  change ((x :: l1) ++ l2) with (x :: (l1 ++ l2)).
  rewrite cyc_rotate1, <- (assoc_L (++)), IH, <- (assoc_L (++)). done.
Qed.

Lemma path_next x l y : path x l y → nxt x = Some (default y (head l)).
Proof. destruct l; simpl; unfold link; tauto. Qed.

Lemma path_prev x l y : path x l y → prv y = Some (default x (last l)).
Proof.
  destruct l as [|z l _] using rev_ind; [by intros [_ ?]|].
  rewrite path_app, last_snoc. by intros [_ [_ ?]].
Qed.

Lemma cyc_next l1 x l2 :
  cyc (l1 ++ x :: l2) → nxt x = Some (default x (head (l2 ++ l1))).
Proof. rewrite cyc_rotate. apply path_next. Qed.

Lemma cyc_prev l1 x l2 :
  cyc (l1 ++ x :: l2) → prv x = Some (default x (last (l2 ++ l1))).
Proof. rewrite cyc_rotate. apply path_prev. Qed.

(** The two ends are neighbours. *)
Lemma cyc_head_prev l h a : cyc l → head l = Some h → last l = Some a → prv h = Some a.
Proof.
  intros Hc Hh Ha. destruct l as [|x l]; [done|]. injection Hh as ->. rewrite (cyc_prev [] h l Hc), app_nil_r. f_equal.
  rewrite last_cons in Ha. destruct (last l); by simplify_eq.
Qed.

Lemma cyc_last_next l h a : cyc l → head l = Some h → last l = Some a → nxt a = Some h.
Proof.
  intros Hc Hh [m ->]%last_Some. rewrite (cyc_next m a [] Hc). simpl. by destruct m; simplify_eq.
Qed.
End Ring.

Lemma path_frame nxt prv nxt' prv' x l y :
  (∀ i, i ∈ x :: l → nxt' i = nxt i) → (∀ i, i ∈ l ++ [y] → prv' i = prv i) →
  path nxt prv x l y → path nxt' prv' x l y.
Proof.
  revert x. induction l as [|z l IH]; intros x Hn Hp; simpl; unfold link.
  - by rewrite Hn, Hp by set_solver.
  - rewrite Hn, Hp by set_solver. intros [? ?]; split; [done|].
    apply IH; [set_solver..|done].
Qed.

Lemma cyc_frame nxt prv nxt' prv' l :
  (∀ i, i ∈ l → nxt' i = nxt i) → (∀ i, i ∈ l → prv' i = prv i) →
  cyc nxt prv l → cyc nxt' prv' l.
Proof.
  intros Hn Hp. destruct l as [|x l]; [done|]. apply path_frame; [done|].
  intros i Hi. apply Hp. set_solver.
Qed.

Lemma cyc_singleton nxt prv x : cyc nxt prv [x] ↔ nxt x = Some x ∧ prv x = Some x.
Proof. done. Qed.

(** Splicing [n] in after the last node of a ring. *)
Lemma cyc_snoc nxt prv nxt' prv' l n a b :
  cyc nxt prv l → NoDup l → n ∉ l → last l = Some a → head l = Some b →
  nxt' a = Some n → nxt' n = Some b → prv' b = Some n → prv' n = Some a →
  (∀ i, i ≠ a → i ≠ n → nxt' i = nxt i) → (∀ i, i ≠ b → i ≠ n → prv' i = prv i) →
  cyc nxt' prv' (l ++ [n]).
Proof.
  intros Hc Hnd Hn Ha Hb Ha' Hn' Hb' Hp' Hnx Hpx.
  destruct l as [|x m]; [done|]. simpl in Hb. simplify_eq.
  change (path nxt' prv' b (m ++ [n]) b). rewrite path_app. split; [|done].
  destruct m as [|z m _] using rev_ind; [simpl in *; simplify_eq; done|].
  assert (z = a) as -> by (rewrite app_comm_cons, last_snoc in Ha; by simplify_eq).
  simpl in Hc. rewrite path_app in Hc. destruct Hc as [Hc _].
  rewrite path_app. split; [|done].
  apply NoDup_cons in Hnd as [Hbm [_ [Hma _]]%NoDup_app].
  eapply path_frame, Hc; intros i Hi; [apply Hnx|apply Hpx]; set_solver.
Qed.

Lemma cyc_insert nxt prv nxt' prv' l1 l2 n a b :
  cyc nxt prv (l1 ++ l2) → NoDup (l1 ++ l2) → n ∉ l1 ++ l2 →
  last (l2 ++ l1) = Some a → head (l2 ++ l1) = Some b →
  nxt' a = Some n → nxt' n = Some b → prv' b = Some n → prv' n = Some a →
  (∀ i, i ≠ a → i ≠ n → nxt' i = nxt i) → (∀ i, i ≠ b → i ≠ n → prv' i = prv i) →
  cyc nxt' prv' (l1 ++ n :: l2).
Proof.
  intros Hc Hnd Hn Ha Hb ? ? ? ? Hnx Hpx. apply cyc_rotate. change ((n :: l2) ++ l1) with (n :: (l2 ++ l1)).
  rewrite cyc_rotate1. eapply cyc_snoc; try done.
  - by apply cyc_rotate.
  - by rewrite (comm (++)).
  - set_solver.
Qed.

(** Unlinking the first node of a ring with at least one other node. *)
Lemma cyc_unlink_head nxt prv nxt' prv' l n a b :
  cyc nxt prv (n :: l) → NoDup (n :: l) → last l = Some a → head l = Some b →
  nxt' a = Some b → prv' b = Some a →
  (∀ i, i ≠ a → i ≠ n → nxt' i = nxt i) → (∀ i, i ≠ b → i ≠ n → prv' i = prv i) →
  cyc nxt' prv' l.
Proof.
  intros Hc [Hn Hnd]%NoDup_cons Ha Hb Ha' Hb' Hnx Hpx.
  destruct l as [|x m]; [done|]. simpl in Hb. simplify_eq. simpl in Hc.
  destruct Hc as [_ Hc]. simpl.
  destruct m as [|z m _] using rev_ind; [simpl in *; by simplify_eq|].
  assert (z = a) as -> by (rewrite app_comm_cons, last_snoc in Ha; by simplify_eq).
  rewrite path_app in Hc |- *. destruct Hc as [Hc _]. split; [|done].
  apply NoDup_cons in Hnd as [Hbm [_ [Hma _]]%NoDup_app].
  eapply path_frame, Hc; intros i Hi; [apply Hnx|apply Hpx]; set_solver.
Qed.

Lemma cyc_unlink nxt prv nxt' prv' l1 l2 n a b :
  cyc nxt prv (l1 ++ n :: l2) → NoDup (l1 ++ n :: l2) →
  last (l2 ++ l1) = Some a → head (l2 ++ l1) = Some b →
  nxt' a = Some b → prv' b = Some a →
  (∀ i, i ≠ a → i ≠ n → nxt' i = nxt i) → (∀ i, i ≠ b → i ≠ n → prv' i = prv i) →
  cyc nxt' prv' (l1 ++ l2).
Proof.
  intros Hc Hnd Ha Hb ? ? ? ?. apply cyc_rotate.
  apply (cyc_unlink_head nxt prv nxt' prv' (l2 ++ l1) n a b); try done.
  - by apply cyc_rotate in Hc.
  - rewrite (comm (++)) in Hnd. done.
Qed.
