(* ===== verification/MemPool.v ===== *)
(** * Fixed-capacity object pools.

    [MemPool] is [Common::MemPool] of src/common/mem_pool.h, [OptMemPool] its
    assertion-free clone of src/common/opt_mem_pool.h.  A pointer into a pool
    is the index of its block.  The backing vector is a finite map whose absent
    entries are the blocks the constructor creates ([{T(), true}]), so pools of
    the real capacity evaluate. *)

From stdpp Require Import gmap list.
From S2P Require Import Prelude.

Open Scope Z_scope.
Local Coercion Z.of_nat : nat >-> Z.

(** The default constructor [T()] of the pooled type. *)
Class DefaultCtor (T : Type) := default_ctor : T.

Record ObjectBlock (T : Type) := mkObjectBlock { object_ : T; is_free_ : bool }.
Arguments mkObjectBlock {T} _ _.
Arguments object_ {T} _.
Arguments is_free_ {T} _.

Record MemPool (T : Type) := mkMemPool {
  store_size : Z;
  store_ : gmap Z (ObjectBlock T);
  next_free_index_ : Z }.
Arguments mkMemPool {T} _ _ _.
Arguments store_size {T} _.
Arguments store_ {T} _.
Arguments next_free_index_ {T} _.

Section MemPool.
Context {T : Type} `{DefaultCtor T}.
Implicit Types (p : MemPool T) (x : T) (i j : Z).

Definition MemPool_new (num_elems : Z) : MemPool T := mkMemPool num_elems ∅ 0.

(** [store_[i]]. *)
Definition block p i : ObjectBlock T :=
  default (mkObjectBlock default_ctor true) (store_ p !! i).
Definition set_block p i (b : ObjectBlock T) : MemPool T :=
  mkMemPool (store_size p) (<[i := b]> (store_ p)) (next_free_index_ p).

(** [*ptr] and [*ptr = f( *ptr)] through a pointer the pool handed out. *)
Definition obj p i : T := object_ (block p i).
Definition pool_modify p i (f : T → T) : MemPool T :=
  set_block p i (mkObjectBlock (f (obj p i)) (is_free_ (block p i))).
Definition in_use p i : Prop := is_free_ (block p i) = false.

(** The [while] loop; [fuel] bounds the number of increments. *)
Fixpoint updateNextFreeIndex_loop (fuel : nat) p (initial next : Z) : result Z :=
  if is_free_ (block p next) then Ok next
  else match fuel with
  | O => Err OutOfFuel
  | S fuel' =>
      let next1 := next + 1 in
      let next2 := if next1 =? store_size p then 0 else next1 in
      let* _ := ASSERT (negb (initial =? next2)) in
      updateNextFreeIndex_loop fuel' p initial next2
  end.

Definition updateNextFreeIndex p : result (MemPool T) :=
  let* n := updateNextFreeIndex_loop (Z.to_nat (store_size p)) p
        (next_free_index_ p) (next_free_index_ p) in
  Ok (mkMemPool (store_size p) (store_ p) n).

(** [allocate(args...)]; [x] is the object [T(args...)] placed in the block. *)
Definition allocate x p : result (Z * MemPool T) :=
  let i := next_free_index_ p in
  let* _ := ASSERT (is_free_ (block p i)) in
  let* p' := updateNextFreeIndex (set_block p i (mkObjectBlock x false)) in
  Ok (i, p').

Definition deallocate (elem : Z) p : result (MemPool T) :=
  let* _ := ASSERT ((0 <=? elem) && (elem <? store_size p)) in
  let* _ := ASSERT (negb (is_free_ (block p elem))) in
  Ok (set_block p elem (mkObjectBlock (obj p elem) true)).

(** [OptMemPool] built with [-DNDEBUG]: the same without the assertions; an
    index outside the vector is undefined there. *)
Fixpoint opt_updateNextFreeIndex_loop (fuel : nat) p (initial next : Z) : result Z :=
  if is_free_ (block p next) then Ok next
  else match fuel with
  | O => Err OutOfFuel
  | S fuel' =>
      let next1 := next + 1 in
      let next2 := if next1 =? store_size p then 0 else next1 in
      if initial =? next2 then FATAL
      else opt_updateNextFreeIndex_loop fuel' p initial next2
  end.

Definition opt_updateNextFreeIndex p : result (MemPool T) :=
  let* n := opt_updateNextFreeIndex_loop (Z.to_nat (store_size p)) p
        (next_free_index_ p) (next_free_index_ p) in
  Ok (mkMemPool (store_size p) (store_ p) n).

Definition opt_allocate x p : result (Z * MemPool T) :=
  let i := next_free_index_ p in
  let* p' := opt_updateNextFreeIndex (set_block p i (mkObjectBlock x false)) in
  Ok (i, p').

Definition opt_deallocate (elem : Z) p : result (MemPool T) :=
  if (0 <=? elem) && (elem <? store_size p)
  then Ok (set_block p elem (mkObjectBlock (obj p elem) true))
  else Err Undefined.

(** ** Reading after writing *)

Lemma block_set_block p i b j :
  block (set_block p i b) j = if decide (i = j) then b else block p j.
Proof.
  unfold block, set_block; simpl. rewrite lookup_insert.
  by case_decide.
Qed.

Lemma obj_pool_modify p i f j :
  obj (pool_modify p i f) j = if decide (i = j) then f (obj p i) else obj p j.
Proof. unfold obj at 1, pool_modify. rewrite block_set_block. by case_decide. Qed.

Lemma in_use_pool_modify p i f j : in_use (pool_modify p i f) j ↔ in_use p j.
Proof.
  unfold in_use, pool_modify. rewrite block_set_block. case_decide; [by subst|done].
Qed.

(** ** The invariant *)

Record pool_wf p : Prop := {
  wf_size : 0 < store_size p;
  wf_next : 0 ≤ next_free_index_ p < store_size p;
  wf_next_free : is_free_ (block p (next_free_index_ p)) = true;
  wf_range : ∀ i, in_use p i → 0 ≤ i < store_size p }.

Lemma pool_wf_new n : 0 < n → pool_wf (MemPool_new n).
Proof. intros; split; simpl; [done|lia|done|]. by intros i [=]. Qed.

Lemma in_use_new n i : ¬ in_use (MemPool_new n) i.
Proof. by intros [=]. Qed.

Lemma pool_wf_modify p i f : pool_wf p → pool_wf (pool_modify p i f).
Proof.
  intros [? ? Hf Hr]. split; simpl; try done.
  - unfold pool_modify. rewrite block_set_block. by case_decide; subst.
  - intros j Hj. apply Hr. by eapply in_use_pool_modify.
Qed.

(** The position [k] steps after [i] on the ring of block indices. *)
Definition ring_add p i k : Z := (i + k) `mod` store_size p.

Lemma ring_next p i k :
  0 < store_size p → 0 ≤ i →
  (let n := ring_add p i k + 1 in if n =? store_size p then 0 else n) = ring_add p i (k + 1).
Proof.
  intros Hs Hi. unfold ring_add; simpl. set (s := store_size p) in *.
  pose proof (Z.mod_pos_bound (i + k) s Hs).
  replace (i + (k + 1)) with (i + k + 1) by lia.
  rewrite (Z.add_mod (i + k) 1) by lia.
  destruct (decide (s = 1)) as [E|].
  { rewrite E in *. rewrite !Z.mod_1_r in *. done. }
  rewrite (Z.mod_small 1 s) by lia.
  destruct (Z.eqb_spec ((i + k) `mod` s + 1) s) as [->|].
  - by rewrite Z.mod_same by lia.
  - rewrite (Z.mod_small (_ + 1)); lia.
Qed.

(** The search stops at the first free block on the ring after [initial]. *)
Lemma updateNextFreeIndex_loop_found (fuel : nat) p i k (d : nat) :
  0 < store_size p → 0 ≤ i < store_size p → 0 ≤ k → (d ≤ fuel)%nat →
  k + d < store_size p →
  (∀ e, 0 ≤ e < d → is_free_ (block p (ring_add p i (k + e))) = false) →
  is_free_ (block p (ring_add p i (k + d))) = true →
  updateNextFreeIndex_loop fuel p i (ring_add p i k) = Ok (ring_add p i (k + d)).
Proof.
  intros Hs Hi. revert k d. induction fuel as [|fuel IH]; intros k d Hk Hd Hkd Hbusy Hfree.
  - assert (d = 0%nat) as -> by lia. rewrite Z.add_0_r in *. simpl. by rewrite Hfree.
  - destruct d as [|d].
    { rewrite Z.add_0_r in *. simpl. by rewrite Hfree. }
    simpl. pose proof (Hbusy 0 ltac:(lia)) as H0. rewrite Z.add_0_r in H0. rewrite H0.
    rewrite ring_next by lia.
    assert (i ≠ ring_add p i (k + 1)).
    { unfold ring_add. intros E.
      destruct (decide (i + (k + 1) < store_size p)).
      - rewrite Z.mod_small in E; lia.
      - rewrite <- (Z.mod_unique_pos (i + (k + 1)) (store_size p) 1 (i + (k + 1) - store_size p))
          in E; lia. }
    destruct (Z.eqb_spec i (ring_add p i (k + 1))); [done|]. simpl.
    replace (k + S d) with ((k + 1) + d) in * by lia.
    apply IH; try lia; [|done].
    intros e He. replace (k + 1 + e) with (k + (e + 1)) by lia. apply Hbusy. lia.
Qed.

(** With every other block in use the search comes back to [initial]. *)
Lemma updateNextFreeIndex_loop_full (fuel : nat) p i k :
  0 < store_size p → 0 ≤ i < store_size p → 0 ≤ k < store_size p →
  store_size p - k ≤ fuel →
  (∀ j, 0 ≤ j < store_size p → is_free_ (block p j) = false) →
  updateNextFreeIndex_loop fuel p i (ring_add p i k) = Err AssertFailed.
Proof.
  intros Hs Hi. revert k. induction fuel as [|fuel IH]; intros k Hk Hf Hall; [lia|].
  assert (∀ k', 0 ≤ ring_add p i k' < store_size p) by
    (intros; unfold ring_add; apply Z.mod_pos_bound; lia).
  simpl. rewrite Hall by done. rewrite ring_next by lia.
  destruct (Z.eqb_spec i (ring_add p i (k + 1))) as [|Hne]; [done|]. simpl.
  apply IH; try lia; [|done].
  assert (k + 1 ≠ store_size p); [|lia].
  intros E. apply Hne. unfold ring_add. rewrite E.
  rewrite <- Z.add_mod_idemp_r, Z.mod_same, Z.add_0_r, Z.mod_small; lia.
Qed.

Lemma ring_add_0 p i : 0 ≤ i < store_size p → ring_add p i 0 = i.
Proof. intros. unfold ring_add. rewrite Z.add_0_r, Z.mod_small; lia. Qed.

(** Any index is a number of steps away from [i]. *)
Lemma ring_add_surj p i j :
  0 ≤ i < store_size p → 0 ≤ j < store_size p →
  ∃ k : nat, k < store_size p ∧ ring_add p i k = j.
Proof.
  intros Hi Hj. exists (Z.to_nat ((j - i) `mod` store_size p)).
  pose proof (Z.mod_pos_bound (j - i) (store_size p) ltac:(lia)).
  rewrite Z2Nat.id by lia. split; [lia|].
  unfold ring_add. rewrite Z.add_mod_idemp_r by lia.
  replace (i + (j - i)) with j by lia. apply Z.mod_small; lia.
Qed.

Lemma least_nat (P : nat → Prop) `{∀ n, Decision (P n)} n :
  P n → ∃ m, (m ≤ n)%nat ∧ P m ∧ ∀ k, (k < m)%nat → ¬ P k.
Proof.
  induction n as [n IH] using lt_wf_ind. intros Hn.
  destruct (decide (Exists P (seq 0 n))) as [(k & Hk & Pk)%Exists_exists|HE].
  - apply elem_of_seq in Hk. destruct (IH k) as (m & ? & ? & ?); [lia|done|].
    exists m; split_and!; [lia|done|done].
  - exists n; split_and!; [lia|done|]. intros k Hk Pk. apply HE, Exists_exists.
    exists k; split; [apply elem_of_seq; lia|done].
Qed.

Lemma updateNextFreeIndex_loop_some p i j :
  0 ≤ i < store_size p → 0 ≤ j < store_size p → is_free_ (block p j) = true →
  ∃ n, updateNextFreeIndex_loop (Z.to_nat (store_size p)) p i i = Ok n
     ∧ 0 ≤ n < store_size p ∧ is_free_ (block p n) = true.
Proof.
  intros Hi Hj Hfree. destruct (ring_add_surj p i j) as (k & Hk & <-); [done..|].
  destruct (least_nat (λ k : nat, is_free_ (block p (ring_add p i k)) = true) k)
    as (d & Hd & Hfd & Hlt); [done|].
  exists (ring_add p i d). split_and!; [|unfold ring_add; apply Z.mod_pos_bound; lia..|done].
  pose proof (updateNextFreeIndex_loop_found (Z.to_nat (store_size p)) p i 0 d) as Hloop.
  rewrite ring_add_0, Z.add_0_l in Hloop by done. apply Hloop; try lia; try done.
  intros e He. specialize (Hlt (Z.to_nat e) ltac:(lia)).
  rewrite Z2Nat.id in Hlt by lia. rewrite Z.add_0_l. by apply not_true_is_false.
Qed.

(** ** [allocate] and [deallocate] on a well-formed pool *)

(** What a successful [allocate] does. *)
Record allocated x p i p' : Prop := {
  al_ptr : i = next_free_index_ p;
  al_fresh : ¬ in_use p i;
  al_range : 0 ≤ i < store_size p;
  al_size : store_size p' = store_size p;
  al_block : ∀ j, block p' j = if decide (i = j) then mkObjectBlock x false else block p j;
  al_wf : pool_wf p' }.

Lemma allocate_ok x p j :
  pool_wf p → 0 ≤ j < store_size p → j ≠ next_free_index_ p → ¬ in_use p j →
  ∃ p', allocate x p = Ok (next_free_index_ p, p') ∧ allocated x p (next_free_index_ p) p'.
Proof.
  intros [Hs Hn Hf Hr] Hj Hji Hfree. unfold allocate. rewrite Hf. simpl.
  set (i := next_free_index_ p) in *. set (p1 := set_block p i _).
  destruct (updateNextFreeIndex_loop_some p1 i j) as (n & Hl & Hnr & Hnf); [done|done|..].
  { unfold p1. rewrite block_set_block. rewrite decide_False by done.
    unfold in_use in Hfree. by apply not_false_is_true. }
  unfold updateNextFreeIndex.
  replace (store_size p1) with (store_size p) in * by done.
  replace (next_free_index_ p1) with i by done. rewrite Hl. simpl.
  eexists; split; [done|]. split; simpl; try done.
  - unfold in_use. by rewrite Hf.
  - intros k. unfold block at 1. simpl. rewrite lookup_insert. by case_decide.
  - split; simpl; try done. intros k. unfold in_use, block. simpl.
    rewrite lookup_insert. case_decide; [by subst|]. apply Hr.
Qed.

Lemma allocate_full x p :
  pool_wf p → (∀ j, 0 ≤ j < store_size p → j ≠ next_free_index_ p → in_use p j) →
  allocate x p = Err AssertFailed.
Proof.
  intros [Hs Hn Hf Hr] Hall. unfold allocate. rewrite Hf. simpl.
  unfold updateNextFreeIndex. simpl. set (i := next_free_index_ p) in *.
  set (p1 := set_block p i _). change (store_size p) with (store_size p1).
  pose proof (updateNextFreeIndex_loop_full (Z.to_nat (store_size p1)) p1 i 0) as Hloop.
  rewrite ring_add_0 in Hloop by done. rewrite Hloop; try done; try (simpl; lia).
  intros j Hj. unfold p1. rewrite block_set_block. case_decide; [done|]. by apply Hall.
Qed.

Lemma allocate_inv x p i p' :
  pool_wf p → allocate x p = Ok (i, p') → allocated x p i p'.
Proof.
  intros Hwf E.
  destruct (decide (Exists (λ j, j ≠ next_free_index_ p ∧ is_free_ (block p j) = true)
              (seqZ 0 (store_size p)))) as [(j & Hj & Hji & Hf)%Exists_exists|HE].
  - apply elem_of_seqZ in Hj.
    destruct (allocate_ok x p j) as (p'' & E' & ?); try done; [unfold in_use; congruence|].
    rewrite E in E'. by simplify_eq.
  - rewrite allocate_full in E; [done..|]. intros j Hj Hji. unfold in_use.
    destruct is_free_ eqn:Ef; [|done]. destruct HE. apply Exists_exists. exists j.
    split; [apply elem_of_seqZ; lia|done].
Qed.

Lemma allocated_in_use x p i p' j :
  allocated x p i p' → in_use p' j ↔ j = i ∨ in_use p j.
Proof.
  intros [? Hfr _ _ Hb _]. unfold in_use in *. rewrite Hb. case_decide; naive_solver.
Qed.

Lemma allocated_obj x p i p' j :
  allocated x p i p' → obj p' j = if decide (i = j) then x else obj p j.
Proof. intros [_ _ _ _ Hb _]. unfold obj. rewrite Hb. by case_decide. Qed.

(** What [deallocate] does to a block in use. *)
Lemma deallocate_ok p i :
  pool_wf p → in_use p i →
  ∃ p', deallocate i p = Ok p' ∧ pool_wf p' ∧ store_size p' = store_size p
      ∧ (∀ j, in_use p' j ↔ j ≠ i ∧ in_use p j) ∧ (∀ j, obj p' j = obj p j).
Proof.
  intros [Hs Hn Hf Hr] Hu. pose proof (Hr i Hu). unfold deallocate.
  rewrite (proj2 (Z.leb_le _ _)), (proj2 (Z.ltb_lt _ _)) by lia. simpl.
  unfold in_use in *. rewrite Hu. simpl. eexists; split; [done|].
  assert (∀ j, is_free_ (block (set_block p i (mkObjectBlock (obj p i) true)) j) = false
            ↔ j ≠ i ∧ is_free_ (block p j) = false) as Hiff.
  { intros j. rewrite block_set_block. case_decide; naive_solver. }
  split_and!; [split|..]; simpl; try done.
  - rewrite block_set_block. by case_decide.
  - intros j [_ Hj]%Hiff. by apply Hr.
  - intros j. unfold obj at 1. rewrite block_set_block. by case_decide; subst.
Qed.
(** ** Capacity *)

Definition used p : gset Z :=
  dom (filter (λ kb : Z * ObjectBlock T, is_free_ kb.2 = false) (store_ p)).

Lemma elem_of_used p i : i ∈ used p ↔ in_use p i.
Proof.
  unfold used, in_use, block. rewrite elem_of_dom. split.
  - intros [b (Hb & ?)%map_lookup_filter_Some]. by rewrite Hb.
  - intros Hu. destruct (store_ p !! i) as [b|] eqn:E; [|done].
    exists b. by apply map_lookup_filter_Some.
Qed.

Lemma size_used p (l : list Z) :
  NoDup l → (∀ i, in_use p i ↔ i ∈ l) → size (used p) = length l.
Proof.
  intros Hnd Hl. rewrite <- (size_list_to_set (C := gset Z)) by done. f_equal.
  apply set_eq. intros i. by rewrite elem_of_used, elem_of_list_to_set.
Qed.

Definition indices p : gset Z := list_to_set (seqZ 0 (store_size p)).

Lemma elem_of_indices p i : i ∈ indices p ↔ 0 ≤ i < store_size p.
Proof. unfold indices. rewrite elem_of_list_to_set, elem_of_seqZ. lia. Qed.

Lemma size_indices p : 0 < store_size p → size (indices p) = Z.to_nat (store_size p).
Proof.
  intros. unfold indices. rewrite size_list_to_set by apply NoDup_seqZ.
  by rewrite length_seqZ.
Qed.

Lemma used_next_disjoint p : pool_wf p → next_free_index_ p ∉ used p.
Proof. intros [_ _ Hf _]. rewrite elem_of_used. unfold in_use. congruence. Qed.

Lemma used_subseteq p : pool_wf p → {[next_free_index_ p]} ∪ used p ⊆ indices p.
Proof.
  intros [? ? ? Hr] i. rewrite elem_of_union, elem_of_singleton, elem_of_used, elem_of_indices.
  intros [->|?%Hr]; lia.
Qed.

Lemma size_used_next p :
  pool_wf p → size ({[next_free_index_ p]} ∪ used p) = S (size (used p)).
Proof.
  intros Hwf. rewrite size_union by (by pose proof (used_next_disjoint p Hwf); set_solver).
  by rewrite size_singleton.
Qed.

(** A pool with [k] blocks in use still allocates when [k + 1 < size]. *)
Lemma allocate_some x p :
  pool_wf p → size (used p) + 1 < store_size p →
  ∃ p', allocate x p = Ok (next_free_index_ p, p') ∧ allocated x p (next_free_index_ p) p'.
Proof.
  intros Hwf Hsz. pose proof (wf_size _ Hwf).
  destruct (decide (indices p ⊆ {[next_free_index_ p]} ∪ used p)) as [Hsub|Hne].
  - apply subseteq_size in Hsub. rewrite size_used_next, size_indices in Hsub by done. lia.
  - assert (∃ j, j ∈ indices p ∧ j ∉ {[next_free_index_ p]} ∪ used p) as (j & Hj & Hnj).
    { destruct (set_choose_or_empty (indices p ∖ ({[next_free_index_ p]} ∪ used p)))
        as [[j Hj]|He]; [exists j; set_solver|]. destruct Hne. intros j Hj.
      destruct (decide (j ∈ {[next_free_index_ p]} ∪ used p)); [done|]. set_solver. }
    apply elem_of_indices in Hj. apply (allocate_ok x p j); [done..| |].
    + set_solver.
    + rewrite <- elem_of_used. set_solver.
Qed.

(** The allocation that would fill the last block aborts instead. *)
Lemma allocate_last x p :
  pool_wf p → size (used p) + 1 = store_size p → allocate x p = Err AssertFailed.
Proof.
  intros Hwf Hsz. pose proof (wf_size _ Hwf). apply allocate_full; [done|].
  intros j Hj Hji.
  assert ({[next_free_index_ p]} ∪ used p = indices p) as Heq.
  { apply set_eq. intros k. pose proof (used_subseteq p Hwf) as Hsub.
    pose proof (set_subseteq_size_equiv _ _ Hsub) as Hse.
    rewrite size_used_next, size_indices in Hse by done. specialize (Hse ltac:(lia)). apply Hse. }
  apply elem_of_used. apply elem_of_indices in Hj. rewrite <- Heq in Hj. set_solver.
Qed.

Lemma used_allocated x p i p' : allocated x p i p' → used p' = {[i]} ∪ used p.
Proof.
  intros Ha. apply set_eq. intros j.
  rewrite elem_of_union, elem_of_singleton, !elem_of_used. by eapply allocated_in_use.
Qed.

Lemma used_bound p : pool_wf p → size (used p) < store_size p.
Proof.
  intros Hwf. pose proof (subseteq_size _ _ (used_subseteq p Hwf)) as Hs.
  pose proof (wf_size _ Hwf).
  rewrite size_used_next, size_indices in Hs by done. lia.
Qed.

(** ** The assertion-free clone *)

Lemma opt_loop_equiv fuel p i n :
  opt_updateNextFreeIndex_loop fuel p i n =
  match updateNextFreeIndex_loop fuel p i n with
  | Err AssertFailed => Err FatalError
  | r => r
  end.
Proof.
  revert n. induction fuel as [|fuel IH]; intros n; simpl; [by case_match|].
  case_match; [done|].
  set (n2 := if n + 1 =? store_size p then 0 else n + 1).
  destruct (i =? n2); simpl; [done|]. apply IH.
Qed.

Lemma opt_allocate_equiv x p :
  pool_wf p →
  opt_allocate x p = match allocate x p with Err AssertFailed => Err FatalError | r => r end.
Proof.
  intros Hwf. unfold opt_allocate, allocate, opt_updateNextFreeIndex, updateNextFreeIndex.
  rewrite (wf_next_free _ Hwf). simpl. rewrite opt_loop_equiv.
  by destruct (updateNextFreeIndex_loop _ _ _ _) as [?|[]].
Qed.

Lemma opt_deallocate_equiv i p :
  in_use p i → 0 ≤ i < store_size p → opt_deallocate i p = deallocate i p.
Proof.
  intros Hu Hi. unfold opt_deallocate, deallocate.
  rewrite (proj2 (Z.leb_le _ _)), (proj2 (Z.ltb_lt _ _)) by lia. simpl.
  unfold in_use in Hu. by rewrite Hu.
Qed.

(** ** Reachable pools *)

Inductive pool_step : MemPool T → MemPool T → Prop :=
| step_allocate x p i p' : allocate x p = Ok (i, p') → pool_step p p'
| step_write p i f : pool_step p (pool_modify p i f)
| step_deallocate p i p' : deallocate i p = Ok p' → pool_step p p'.

Lemma deallocate_inv i p p' : deallocate i p = Ok p' → in_use p i.
Proof.
  unfold deallocate, in_use. intros (? & _ & (? & Hd & _)%bind_ok)%bind_ok.
  revert Hd. unfold ASSERT. by destruct is_free_.
Qed.

Lemma pool_wf_step p p' : pool_step p p' → pool_wf p → pool_wf p'.
Proof.
  intros [x q i q' E|q i f|q i q' E] Hwf.
  - by eapply al_wf, allocate_inv.
  - by apply pool_wf_modify.
  - destruct (deallocate_ok q i Hwf (deallocate_inv _ _ _ E)) as (? & E' & ? & _).
    rewrite E in E'. by simplify_eq.
Qed.

Lemma pool_wf_reachable n p : 0 < n → rtc pool_step (MemPool_new n) p → pool_wf p.
Proof.
  intros Hn Hs. assert (pool_wf (MemPool_new n)) as Hwf by by apply pool_wf_new.
  revert Hwf. induction Hs; eauto using pool_wf_step.
Qed.
End MemPool.
