(* ===== verification/Types.v ===== *)
(** * Common types and the messages of the two processes.

    Sizing constants, identifier sentinels, [Side] and [AlgoType] of
    src/common/types.h, then the packed message structs of
    src/exchange/order_server/client_request.h, client_response.h and
    src/exchange/market_data/market_update.h, with their texts.  Identifiers,
    prices and quantities are [Z]; the operations that wrap say so, and the
    widths of the messages on the wire are the predicates of Wire.v. *)

From stdpp Require Import gmap list strings pretty.
From S2P Require Import Prelude.

Open Scope Z_scope.

(** ** src/common/types.h *)

Definition ME_MAX_TICKERS : Z := 8.
Definition ME_MAX_CLIENT_UPDATES : Z := 256 * 1024.
Definition ME_MAX_MARKET_UPDATES : Z := 256 * 1024.
Definition ME_MAX_NUM_CLIENTS : Z := 256.
Definition ME_MAX_ORDER_IDS : Z := 1024 * 1024.
Definition ME_MAX_PRICE_LEVELS : Z := 131072.

Definition OrderId_INVALID : Z := 2 ^ 64 - 1.
Definition TickerId_INVALID : Z := 2 ^ 32 - 1.
Definition ClientId_INVALID : Z := 2 ^ 32 - 1.
Definition Price_INVALID : Z := 2 ^ 63 - 1.
Definition Qty_INVALID : Z := 2 ^ 32 - 1.
Definition Priority_INVALID : Z := 2 ^ 64 - 1.

(** [std::to_string] on an integer is the decimal printer. *)
Definition to_string (z : Z) : string := pretty z.

Definition orderIdToString (id : Z) : string :=
  if id =? OrderId_INVALID then "INVALID" else to_string id.
Definition tickerIdToString (id : Z) : string :=
  if id =? TickerId_INVALID then "INVALID" else to_string id.
Definition clientIdToString (id : Z) : string :=
  if id =? ClientId_INVALID then "INVALID" else to_string id.
Definition priceToString (p : Z) : string :=
  if p =? Price_INVALID then "INVALID" else to_string p.
Definition qtyToString (q : Z) : string :=
  if q =? Qty_INVALID then "INVALID" else to_string q.
Definition priorityToString (p : Z) : string :=
  if p =? Priority_INVALID then "INVALID" else to_string p.

Inductive Side := Side_INVALID | BUY | SELL | Side_MAX.

#[export] Instance Side_eq_dec : EqDecision Side.
Proof. solve_decision. Defined.

Definition sideToString (side : Side) : string :=
  match side with
  | BUY => "BUY"
  | SELL => "SELL"
  | Side_INVALID => "INVALID"
  | Side_MAX => "MAX"
  end.

Definition sideToValue (side : Side) : Z :=
  match side with Side_INVALID => 0 | BUY => 1 | SELL => -1 | Side_MAX => 2 end.

Definition sideToIndex (side : Side) : Z := u64 (sideToValue side + 1).

(** [side == Side::BUY] and [side == Side::SELL]. *)
Definition is_buy (s : Side) : bool := bool_decide (s = BUY).
Definition is_sell (s : Side) : bool := bool_decide (s = SELL).

Inductive AlgoType := Algo_INVALID | RANDOM | MAKER | TAKER | Algo_MAX.

#[export] Instance AlgoType_eq_dec : EqDecision AlgoType.
Proof. solve_decision. Defined.

Definition algoTypeToString (type : AlgoType) : string :=
  match type with
  | RANDOM => "RANDOM"
  | MAKER => "MAKER"
  | TAKER => "TAKER"
  | Algo_INVALID => "INVALID"
  | Algo_MAX => "MAX"
  end.

(** The loop of [stringToAlgoType] runs over the enumerators in value order. *)
Definition algoTypes : list AlgoType := [Algo_INVALID; RANDOM; MAKER; TAKER; Algo_MAX].

Definition stringToAlgoType (str : string) : AlgoType :=
  match list_find (λ t, algoTypeToString t = str) algoTypes with
  | Some (_, t) => t
  | None => Algo_INVALID
  end.

(** ** src/exchange/order_server/client_request.h *)

Inductive ClientRequestType := Req_INVALID | Req_NEW | Req_CANCEL.

#[export] Instance ClientRequestType_eq_dec : EqDecision ClientRequestType.
Proof. solve_decision. Defined.

Definition clientRequestTypeToString (type : ClientRequestType) : string :=
  match type with Req_NEW => "NEW" | Req_CANCEL => "CANCEL" | Req_INVALID => "INVALID" end.

Record MEClientRequest := mkMEClientRequest {
  req_type_ : ClientRequestType;
  req_client_id_ : Z;
  req_ticker_id_ : Z;
  req_order_id_ : Z;
  req_side_ : Side;
  req_price_ : Z;
  req_qty_ : Z }.

#[export] Instance MEClientRequest_eq_dec : EqDecision MEClientRequest.
Proof. solve_decision. Defined.

Definition MEClientRequest_default : MEClientRequest :=
  mkMEClientRequest Req_INVALID ClientId_INVALID TickerId_INVALID OrderId_INVALID
    Side_INVALID Price_INVALID Qty_INVALID.

Definition MEClientRequest_toString (r : MEClientRequest) : string :=
  "MEClientRequest ["
  +:+ "type:" +:+ clientRequestTypeToString (req_type_ r)
  +:+ " client:" +:+ clientIdToString (req_client_id_ r)
  +:+ " ticker:" +:+ tickerIdToString (req_ticker_id_ r)
  +:+ " oid:" +:+ orderIdToString (req_order_id_ r)
  +:+ " side:" +:+ sideToString (req_side_ r)
  +:+ " qty:" +:+ qtyToString (req_qty_ r)
  +:+ " price:" +:+ priceToString (req_price_ r)
  +:+ "]".

Record OMClientRequest := mkOMClientRequest {
  omreq_seq_num_ : Z;
  me_client_request_ : MEClientRequest }.

#[export] Instance OMClientRequest_eq_dec : EqDecision OMClientRequest.
Proof. solve_decision. Defined.

Definition OMClientRequest_toString (r : OMClientRequest) : string :=
  "OMClientRequest [" +:+ "seq:" +:+ to_string (omreq_seq_num_ r)
  +:+ " " +:+ MEClientRequest_toString (me_client_request_ r) +:+ "]".

(** ** src/exchange/order_server/client_response.h *)

Inductive ClientResponseType :=
| Resp_INVALID | ACCEPTED | CANCELED | FILLED | CANCEL_REJECTED.

#[export] Instance ClientResponseType_eq_dec : EqDecision ClientResponseType.
Proof. solve_decision. Defined.

Definition clientResponseTypeToString (type : ClientResponseType) : string :=
  match type with
  | ACCEPTED => "ACCEPTED"
  | CANCELED => "CANCELED"
  | FILLED => "FILLED"
  | CANCEL_REJECTED => "CANCEL_REJECTED"
  | Resp_INVALID => "INVALID"
  end.

Record MEClientResponse := mkMEClientResponse {
  resp_type_ : ClientResponseType;
  resp_client_id_ : Z;
  resp_ticker_id_ : Z;
  resp_client_order_id_ : Z;
  resp_market_order_id_ : Z;
  resp_side_ : Side;
  resp_price_ : Z;
  resp_exec_qty_ : Z;
  resp_leaves_qty_ : Z }.

#[export] Instance MEClientResponse_eq_dec : EqDecision MEClientResponse.
Proof. solve_decision. Defined.

Definition MEClientResponse_default : MEClientResponse :=
  mkMEClientResponse Resp_INVALID ClientId_INVALID TickerId_INVALID OrderId_INVALID
    OrderId_INVALID Side_INVALID Price_INVALID Qty_INVALID Qty_INVALID.

Definition MEClientResponse_toString (r : MEClientResponse) : string :=
  "MEClientResponse ["
  +:+ "type:" +:+ clientResponseTypeToString (resp_type_ r)
  +:+ " client:" +:+ clientIdToString (resp_client_id_ r)
  +:+ " ticker:" +:+ tickerIdToString (resp_ticker_id_ r)
  +:+ " coid:" +:+ orderIdToString (resp_client_order_id_ r)
  +:+ " moid:" +:+ orderIdToString (resp_market_order_id_ r)
  +:+ " side:" +:+ sideToString (resp_side_ r)
  +:+ " exec_qty:" +:+ qtyToString (resp_exec_qty_ r)
  +:+ " leaves_qty:" +:+ qtyToString (resp_leaves_qty_ r)
  +:+ " price:" +:+ priceToString (resp_price_ r)
  +:+ "]".

Record OMClientResponse := mkOMClientResponse {
  omresp_seq_num_ : Z;
  me_client_response_ : MEClientResponse }.

#[export] Instance OMClientResponse_eq_dec : EqDecision OMClientResponse.
Proof. solve_decision. Defined.

Definition OMClientResponse_toString (r : OMClientResponse) : string :=
  "OMClientResponse [" +:+ "seq:" +:+ to_string (omresp_seq_num_ r)
  +:+ " " +:+ MEClientResponse_toString (me_client_response_ r) +:+ "]".

(** ** src/exchange/market_data/market_update.h *)

Inductive MarketUpdateType :=
| MU_INVALID | MU_CLEAR | MU_ADD | MU_MODIFY | MU_CANCEL | MU_TRADE
| MU_SNAPSHOT_START | MU_SNAPSHOT_END.

#[export] Instance MarketUpdateType_eq_dec : EqDecision MarketUpdateType.
Proof. solve_decision. Defined.

Definition marketUpdateTypeToString (type : MarketUpdateType) : string :=
  match type with
  | MU_CLEAR => "CLEAR"
  | MU_ADD => "ADD"
  | MU_MODIFY => "MODIFY"
  | MU_CANCEL => "CANCEL"
  | MU_TRADE => "TRADE"
  | MU_SNAPSHOT_START => "SNAPSHOT_START"
  | MU_SNAPSHOT_END => "SNAPSHOT_END"
  | MU_INVALID => "INVALID"
  end.

Record MEMarketUpdate := mkMEMarketUpdate {
  mu_type_ : MarketUpdateType;
  mu_order_id_ : Z;
  mu_ticker_id_ : Z;
  mu_side_ : Side;
  mu_price_ : Z;
  mu_qty_ : Z;
  mu_priority_ : Z }.

#[export] Instance MEMarketUpdate_eq_dec : EqDecision MEMarketUpdate.
Proof. solve_decision. Defined.

Definition MEMarketUpdate_default : MEMarketUpdate :=
  mkMEMarketUpdate MU_INVALID OrderId_INVALID TickerId_INVALID Side_INVALID
    Price_INVALID Qty_INVALID Priority_INVALID.

Definition MEMarketUpdate_toString (u : MEMarketUpdate) : string :=
  "MEMarketUpdate ["
  +:+ " type:" +:+ marketUpdateTypeToString (mu_type_ u)
  +:+ " ticker:" +:+ tickerIdToString (mu_ticker_id_ u)
  +:+ " oid:" +:+ orderIdToString (mu_order_id_ u)
  +:+ " side:" +:+ sideToString (mu_side_ u)
  +:+ " qty:" +:+ qtyToString (mu_qty_ u)
  +:+ " price:" +:+ priceToString (mu_price_ u)
  +:+ " priority:" +:+ priorityToString (mu_priority_ u)
  +:+ "]".

Record MDPMarketUpdate := mkMDPMarketUpdate {
  mdp_seq_num_ : Z;
  me_market_update_ : MEMarketUpdate }.

#[export] Instance MDPMarketUpdate_eq_dec : EqDecision MDPMarketUpdate.
Proof. solve_decision. Defined.

Definition MDPMarketUpdate_toString (u : MDPMarketUpdate) : string :=
  "MDPMarketUpdate [" +:+ " seq:" +:+ to_string (mdp_seq_num_ u)
  +:+ " " +:+ MEMarketUpdate_toString (me_market_update_ u) +:+ "]".

(** ** Properties *)

Lemma stringToAlgoType_algoTypeToString t : stringToAlgoType (algoTypeToString t) = t.
Proof. by destruct t. Qed.

Lemma stringToAlgoType_unknown str :
  (∀ t, algoTypeToString t ≠ str) → stringToAlgoType str = Algo_INVALID.
Proof.
  intros H. unfold stringToAlgoType.
  destruct (list_find _ algoTypes) as [[i t]|] eqn:E; [|done].
  apply list_find_Some in E as (_ & Ht & _). by destruct (H t).
Qed.
