(* ===== verification/LFQueue.v ===== *)
(** * The lock-free single-producer single-consumer ring buffer.

    [Common::LFQueue] of src/common/lf_queue.h.  The first section is the queue
    as one thread sees it: [enqueue] and [updateReadIndex] act on the abstract contents
    [lfq_rep q l] as on a FIFO list, and writing to a full queue silently
    overwrites the oldest unread element.  The second section interleaves a
    producer and a consumer at the granularity of the atomic members
    ([spsc_step]) and proves that the consumer receives the values in the order
    they were written, whatever the interleaving. *)

From stdpp Require Import gmap list relations.
From S2P Require Import Prelude MemPool.

Open Scope Z_scope.
Local Coercion Z.of_nat : nat >-> Z.

Record LFQueue (T : Type) := mkLFQueue {
  q_size : Z;
  q_store_ : gmap Z T;
  next_write_index_ : Z;
  next_read_index_ : Z;
  num_elements_ : Z }.
Arguments mkLFQueue {T} _ _ _ _ _.
Arguments q_size {T} _.
Arguments q_store_ {T} _.
Arguments next_write_index_ {T} _.
Arguments next_read_index_ {T} _.
Arguments num_elements_ {T} _.

Section LFQueue.
Context {T : Type} `{DefaultCtor T}.
Implicit Types (q : LFQueue T) (v x : T) (l : list T).

Definition LFQueue_new (num_elems : Z) : LFQueue T := mkLFQueue num_elems ∅ 0 0 0.

(** [store_[i]]; the constructor fills the vector with [T()]. *)
Definition slot q (i : Z) : T := default default_ctor (q_store_ q !! i).

(** [*getNextToWriteTo() = v]. *)
Definition getNextToWriteTo_assign v q : LFQueue T :=
  mkLFQueue (q_size q) (<[next_write_index_ q := v]> (q_store_ q))
    (next_write_index_ q) (next_read_index_ q) (num_elements_ q).

(** The two atomic updates of [updateWriteIndex], and their sequence. *)
Definition bump_write q : LFQueue T :=
  mkLFQueue (q_size q) (q_store_ q) ((next_write_index_ q + 1) `mod` q_size q)
    (next_read_index_ q) (num_elements_ q).
Definition inc_elements q : LFQueue T :=
  mkLFQueue (q_size q) (q_store_ q) (next_write_index_ q) (next_read_index_ q)
    (u64 (num_elements_ q + 1)).
Definition updateWriteIndex q : LFQueue T := inc_elements (bump_write q).

Definition size_ q : Z := num_elements_ q.

Definition getNextToRead q : option T :=
  if size_ q =? 0 then None else Some (slot q (next_read_index_ q)).

(** The steps of [updateReadIndex]: the index moves before the assertion. *)
Definition bump_read q : LFQueue T :=
  mkLFQueue (q_size q) (q_store_ q) (next_write_index_ q)
    ((next_read_index_ q + 1) `mod` q_size q) (num_elements_ q).
Definition dec_elements q : result (LFQueue T) :=
  let* _ := ASSERT (negb (num_elements_ q =? 0)) in
  Ok (mkLFQueue (q_size q) (q_store_ q) (next_write_index_ q) (next_read_index_ q)
        (u64 (num_elements_ q - 1))).
Definition updateReadIndex q : result (LFQueue T) := dec_elements (bump_read q).

(** The idiom of every producer of the system. *)
Definition enqueue v q : LFQueue T := updateWriteIndex (getNextToWriteTo_assign v q).

(** ** Logical positions

    [r] elements have been read and [w] written since the start; the members
    are these counts modulo the capacity.  [vals] is the list of everything
    ever written. *)

Record positions q (r w : nat) (vals : list T) : Prop := {
  ps_size : 0 < q_size q < 2 ^ 64;
  ps_order : (r ≤ w)%nat;
  ps_bound : w - r ≤ q_size q;
  ps_vals : ∀ k : nat, (r ≤ k < w)%nat → vals !! k = Some (slot q (k `mod` q_size q)) }.

Lemma ring_inj (n : Z) (j k : nat) :
  0 < n → (j ≤ k)%nat → k - j < n → j `mod` n = k `mod` n → j = k.
Proof.
  intros Hn Hjk Hd E. rewrite (Z.div_mod j n), (Z.div_mod k n) in Hd by lia.
  pose proof (Z.div_mod j n ltac:(lia)) as Ej. pose proof (Z.div_mod k n ltac:(lia)) as Ek.
  rewrite E in Hd, Ej. assert (k `div` n = j `div` n) as Eq by nia. rewrite Eq in Ek. lia.
Qed.

Lemma slot_assign q v i :
  slot (getNextToWriteTo_assign v q) i = if decide (next_write_index_ q = i) then v else slot q i.
Proof. unfold slot. simpl. rewrite lookup_insert. by case_decide. Qed.

(** Writing the next free slot does not disturb the unread ones. *)
Lemma positions_assign q r w vals v :
  positions q r w vals → w - r < q_size q → next_write_index_ q = w `mod` q_size q →
  positions (getNextToWriteTo_assign v q) r w vals.
Proof.
  intros [Hs Ho Hb Hv] Hlt Hw. split; try done.
  intros k Hk. rewrite slot_assign. simpl. rewrite Hw, decide_False; [by apply Hv|].
  intros E. symmetry in E. apply ring_inj in E; lia.
Qed.

(** ** The queue as a list *)

(** [l] is the unread contents, oldest first. *)
Definition lfq_rep q l : Prop :=
  ∃ (r w : nat) vals, positions q r w vals ∧ length vals = w ∧ l = drop r vals
    ∧ next_write_index_ q = w `mod` q_size q ∧ next_read_index_ q = r `mod` q_size q
    ∧ num_elements_ q = w - r.

Lemma lfq_rep_new n : 0 < n < 2 ^ 64 → lfq_rep (LFQueue_new n) [].
Proof.
  intros Hn. exists 0%nat, 0%nat, []. split_and!; try done; simpl.
  split; simpl; try lia. 
Qed.

Lemma lfq_rep_size q l : lfq_rep q l → size_ q = length l ∧ length l ≤ q_size q.
Proof.
  intros (r & w & vals & [Hs Ho Hb _] & Hl & -> & _ & _ & Hn).
  rewrite length_drop. unfold size_. lia.
Qed.

(** The contents are determined by the members. *)
Lemma lfq_rep_lookup q l (i : nat) v :
  lfq_rep q l → l !! i = Some v → v = slot q ((next_read_index_ q + i) `mod` q_size q).
Proof.
  intros (r & w & vals & [Hs Ho Hb Hv] & Hl & -> & Hw & Hr & Hn) Hi. rewrite lookup_drop in Hi.
  pose proof (lookup_lt_Some _ _ _ Hi) as Hlt. rewrite (Hv (r + i)%nat ltac:(lia)) in Hi. injection Hi as <-.
  rewrite Hr, Z.add_mod_idemp_l, Nat2Z.inj_add by lia. done.
Qed.

Lemma lfq_rep_det q l1 l2 : lfq_rep q l1 → lfq_rep q l2 → l1 = l2.
Proof.
  intros H1 H2. destruct (lfq_rep_size _ _ H1) as [E1 _], (lfq_rep_size _ _ H2) as [E2 _].
  apply (list_eq_same_length _ _ (length l1)); [lia|done|]. intros i x y _ Hx Hy.
  by rewrite (lfq_rep_lookup _ _ _ _ H1 Hx), (lfq_rep_lookup _ _ _ _ H2 Hy).
Qed.

Lemma enqueue_ok q l v :
  lfq_rep q l → length l < q_size q →
  lfq_rep (enqueue v q) (l ++ [v]) ∧ q_size (enqueue v q) = q_size q.
Proof.
  intros (r & w & vals & Hp & Hl & -> & Hw & Hr & Hn) Hlt. split; [|done].
  pose proof Hp as [Hs Ho Hb _]. rewrite length_drop in Hlt.
  pose proof (positions_assign q r w vals v Hp ltac:(lia) Hw) as Hp'.
  exists r, (S w), (vals ++ [v]). split_and!; simpl.
  - split; simpl; try lia. intros k Hk. destruct (decide (k = w)) as [->|].
    + rewrite lookup_app_r, Hl, Nat.sub_diag by lia. simpl. f_equal.
      change (v = slot (getNextToWriteTo_assign v q) (w `mod` q_size q)).
      by rewrite slot_assign, decide_True.
    + rewrite lookup_app_l by lia. rewrite (ps_vals _ _ _ _ Hp' k) by lia. done.
  - rewrite length_app. simpl. lia.
  - by rewrite drop_app_le by lia.
  - rewrite Hw, Z.add_mod_idemp_l by lia. f_equal. lia.
  - done.
  - rewrite Hn. unfold wrap. rewrite Z.mod_small; lia.
Qed.

Lemma getNextToRead_ok q l : lfq_rep q l → getNextToRead q = head l.
Proof.
  intros (r & w & vals & [Hs Ho Hb Hv] & Hl & -> & Hw & Hr & Hn).
  unfold getNextToRead, size_. rewrite Hn. destruct (Z.eqb_spec (w - r) 0) as [E|E].
  - assert (r = w) as -> by lia. by rewrite <- Hl, drop_all.
  - rewrite Hr. specialize (Hv r ltac:(lia)). by rewrite (drop_S vals _ r Hv).
Qed.

Lemma updateReadIndex_ok q x l :
  lfq_rep q (x :: l) →
  ∃ q', updateReadIndex q = Ok q' ∧ lfq_rep q' l ∧ q_size q' = q_size q.
Proof.
  intros (r & w & vals & [Hs Ho Hb Hv] & Hl & Hd & Hw & Hr & Hn).
  assert (r < w)%nat as Hrw.
  { pose proof (f_equal length Hd) as E. rewrite length_drop in E. simpl in E. lia. }
  unfold updateReadIndex, dec_elements. simpl.
  rewrite (proj2 (Z.eqb_neq _ _)) by lia. simpl. eexists; split; [done|]. split; [|done].
  exists (S r), w, vals. split_and!; simpl; try done.
  - split; simpl; try lia. intros k Hk. apply Hv. lia.
  - specialize (Hv r ltac:(lia)). rewrite (drop_S vals _ r Hv) in Hd. by simplify_eq.
  - rewrite Hr, Z.add_mod_idemp_l by lia. f_equal. lia.
  - rewrite Hn. unfold wrap. rewrite Z.mod_small; lia.
Qed.

(** Reading an empty queue is caught by the assertion. *)
Lemma updateReadIndex_empty q : lfq_rep q [] → updateReadIndex q = Err AssertFailed.
Proof.
  intros Hq. apply lfq_rep_size in Hq as [Hn _]. unfold updateReadIndex, dec_elements. simpl.
  unfold size_ in Hn. simpl in Hn. by rewrite Hn.
Qed.

(** There is no check against overrun: the write to a full queue replaces the
    element the consumer is about to read, and the count exceeds the capacity. *)
Lemma enqueue_full q l v :
  lfq_rep q l → Z.of_nat (length l) = q_size q → q_size q + 1 < 2 ^ 64 →
  getNextToRead (enqueue v q) = Some v ∧ size_ (enqueue v q) = q_size q + 1.
Proof.
  intros (r & w & vals & [Hs Ho Hb Hv] & Hl & -> & Hw & Hr & Hn) Hfull Hlt.
  rewrite length_drop in Hfull.
  assert (num_elements_ (enqueue v q) = q_size q + 1) as En.
  { simpl. rewrite Hn. unfold wrap. rewrite Z.mod_small; lia. }
  split; [|done]. unfold getNextToRead, size_. rewrite En.
  rewrite (proj2 (Z.eqb_neq _ _)) by lia. f_equal.
  change (slot (getNextToWriteTo_assign v q) (next_read_index_ q) = v).
  rewrite slot_assign, decide_True; [done|]. rewrite Hw, Hr.
  replace (Z.of_nat w) with (r + 1 * q_size q) by lia. apply Z.mod_add. lia.
Qed.
End LFQueue.

(** Several writes in a row. *)
Definition enqueue_all {T} `{!DefaultCtor T} (vs : list T) (q : LFQueue T) : LFQueue T :=
  foldl (λ q v, enqueue v q) q vs.

(** A queue has room for [n] more elements; the code does not check. *)
Definition room_for {T} (q : LFQueue T) (n : nat) : Prop := size_ q + n ≤ q_size q.

Lemma enqueue_all_ok {T} `{!DefaultCtor T} (vs : list T) (q : LFQueue T) l :
  lfq_rep q l → length l + length vs ≤ q_size q →
  lfq_rep (enqueue_all vs q) (l ++ vs) ∧ q_size (enqueue_all vs q) = q_size q.
Proof.
  revert q l. induction vs as [|v vs IH]; intros q l Hq Hlen; simpl in *.
  { by rewrite app_nil_r. }
  destruct (enqueue_ok q l v Hq ltac:(lia)) as [Hq' Hs].
  destruct (IH (enqueue v q) (l ++ [v]) Hq') as [Hr Hs'].
  - rewrite Hs, length_app. simpl. lia.
  - rewrite <- (assoc_L (++)) in Hr. split; [done|congruence].
Qed.

(** ** Two threads

    A producer runs [*getNextToWriteTo() = v; updateWriteIndex()] and a consumer
    runs [x = getNextToRead(); ... *x ...; updateReadIndex()], each atomic member
    access being one step.  The producer writes only when the counter shows room:
    the queue itself does not check this ([enqueue_full]). *)
Section SPSC.
Context {T : Type} `{DefaultCtor T}.

Inductive producer_pc := PIdle | PWritten (v : T) | PIndexed (v : T).
Inductive consumer_pc := CIdle | CHolding (ptr : Z) | CAdvanced (x : T).

Record spsc := mkSPSC {
  s_queue : LFQueue T;
  s_prod : producer_pc;
  s_cons : consumer_pc;
  pushed : list T;     (** values whose [updateWriteIndex] has returned *)
  popped : list T }.   (** values whose [updateReadIndex] has returned *)

Definition spsc_init (n : Z) : spsc := mkSPSC (LFQueue_new n) PIdle CIdle [] [].

Inductive spsc_step : spsc → spsc → Prop :=
| p_write q c ps pp v :
    num_elements_ q < q_size q →
    spsc_step (mkSPSC q PIdle c ps pp)
              (mkSPSC (getNextToWriteTo_assign v q) (PWritten v) c ps pp)
| p_index q c ps pp v :
    spsc_step (mkSPSC q (PWritten v) c ps pp) (mkSPSC (bump_write q) (PIndexed v) c ps pp)
| p_count q c ps pp v :
    spsc_step (mkSPSC q (PIndexed v) c ps pp) (mkSPSC (inc_elements q) PIdle c (ps ++ [v]) pp)
| c_peek q p ps pp :
    size_ q ≠ 0 →
    spsc_step (mkSPSC q p CIdle ps pp) (mkSPSC q p (CHolding (next_read_index_ q)) ps pp)
| c_index q p ps pp ptr :
    spsc_step (mkSPSC q p (CHolding ptr) ps pp)
              (mkSPSC (bump_read q) p (CAdvanced (slot q ptr)) ps pp)
| c_count q q' p ps pp x :
    dec_elements q = Ok q' →
    spsc_step (mkSPSC q p (CAdvanced x) ps pp) (mkSPSC q' p CIdle ps (pp ++ [x])).

Definition prod_extra (p : producer_pc) : nat := match p with PIndexed _ => 1 | _ => 0 end.
Definition cons_extra (c : consumer_pc) : nat := match c with CAdvanced _ => 1 | _ => 0 end.

Record spsc_inv (s : spsc) : Prop := {
  si_prefix : popped s = take (length (popped s)) (pushed s);
  si_pos : positions (s_queue s) (length (popped s)) (length (pushed s)) (pushed s);
  si_num : num_elements_ (s_queue s) = length (pushed s) - length (popped s);
  si_write : next_write_index_ (s_queue s)
             = (length (pushed s) + prod_extra (s_prod s))%nat `mod` q_size (s_queue s);
  si_read : next_read_index_ (s_queue s)
            = (length (popped s) + cons_extra (s_cons s))%nat `mod` q_size (s_queue s);
  si_prod : match s_prod s with
            | PIdle => True
            | PWritten v | PIndexed v =>
                length (pushed s) - length (popped s) < q_size (s_queue s)
                ∧ slot (s_queue s) (length (pushed s) `mod` q_size (s_queue s)) = v
            end;
  si_cons : match s_cons s with
            | CIdle => True
            | CHolding ptr => ptr = length (popped s) `mod` q_size (s_queue s)
                              ∧ (length (popped s) < length (pushed s))%nat
            | CAdvanced x => pushed s !! length (popped s) = Some x
            end }.

Lemma spsc_inv_init n : 0 < n < 2 ^ 64 → spsc_inv (spsc_init n).
Proof. intros Hn. split; simpl; try done. split; simpl; lia. Qed.

Lemma spsc_inv_step s s' : spsc_step s s' → spsc_inv s → spsc_inv s'.
Proof.
  intros Hst [Hpre Hpos Hnum Hw Hr Hp Hc].
  destruct Hst as [q c ps pp v Hroom|q c ps pp v|q c ps pp v|q p ps pp Hne|q p ps pp ptr|q q' p ps pp x Hdec];
    simpl in *; pose proof Hpos as [Hs Ho Hb Hv].
  - rewrite Nat.add_0_r in Hw. split; simpl; try done.
    + apply positions_assign; [done|lia|done].
    + by rewrite Nat.add_0_r.
    + split; [lia|]. by rewrite slot_assign, decide_True.
  - destruct Hp as [Hlt Hsl]. rewrite Nat.add_0_r in Hw. split; simpl; try done.
    rewrite Hw, Z.add_mod_idemp_l by lia. f_equal. lia.
  - destruct Hp as [Hlt Hsl]. split; simpl; rewrite ?length_app; simpl; try done.
    + rewrite take_app_le by lia. done.
    + split; simpl; try lia. intros k Hk. destruct (decide (k = length ps)) as [->|].
      * rewrite lookup_app_r, Nat.sub_diag by lia. simpl. by rewrite <- Hsl.
      * rewrite lookup_app_l by lia. apply Hv. lia.
    + rewrite Hnum. unfold wrap. rewrite Z.mod_small; lia.
    + by rewrite Nat.add_0_r.
    + destruct c as [|ptr|x]; [done|destruct Hc; split; [done|lia]|].
      by apply lookup_app_l_Some.
  - rewrite Nat.add_0_r in Hr. split; simpl; rewrite ?Nat.add_0_r; try done.
    split; [done|]. unfold size_ in Hne. lia.
  - destruct Hc as [-> Hlt]. rewrite Nat.add_0_r in Hr. split; simpl; try done.
    + rewrite Hr, Z.add_mod_idemp_l by lia. f_equal. lia.
    + apply Hv. lia.
  - unfold dec_elements in Hdec. destruct (Z.eqb_spec (num_elements_ q) 0); [done|].
    simpl in Hdec. simplify_eq. split; simpl; rewrite ?length_app; simpl; try done.
    + rewrite Nat.add_1_r. erewrite take_S_r by done. by rewrite <- Hpre.
    + split; simpl; try lia. intros k Hk. apply Hv. lia.
    + rewrite Hnum. unfold wrap. rewrite Z.mod_small; lia.
    + by rewrite Nat.add_0_r.
    + destruct p as [|v|v]; [done|..]; destruct Hp; (split; [lia|done]).
Qed.

Lemma spsc_inv_reachable n s : 0 < n < 2 ^ 64 → rtc spsc_step (spsc_init n) s → spsc_inv s.
Proof.
  intros Hn Hs. pose proof (spsc_inv_init n Hn) as Hi.
  revert Hi. induction Hs; eauto using spsc_inv_step.
Qed.
End SPSC.
Arguments spsc T : clear implicits.
