(* ===== verification/Double.v ===== *)
(** * The [double] of the trading components.

    The strategy code computes with IEEE binary64.  Its operations are a class
    with two instances: the machine's floats (Rocq's primitive [float], so that
    concrete runs are the code's runs, rounding and NaN included) and the exact
    rationals [Qc], for which the accounting identities are proved.  [int32] and
    [int64] are C++ signed arithmetic, where overflow is undefined. *)

From Stdlib Require Import Floats QArith Qcanon ZArith Lqa.
From stdpp Require Import base numbers.
From S2P Require Import Prelude.

Open Scope Z_scope.

Class Double (F : Type) := {
  d_of_Z : Z → F;
  d_add : F → F → F;
  d_sub : F → F → F;
  d_mul : F → F → F;
  d_div : F → F → F;
  d_opp : F → F;
  d_abs : F → F;
  d_ltb : F → F → bool;
  d_eqb : F → F → bool }.

Declare Scope double_scope.
Delimit Scope double_scope with D.
Infix "+" := d_add : double_scope.
Infix "-" := d_sub : double_scope.
Infix "*" := d_mul : double_scope.
Infix "/" := d_div : double_scope.
Infix "<?" := d_ltb : double_scope.
Infix "=?" := d_eqb : double_scope.

(** Integer to binary64, rounded to nearest. *)
Definition float_of_Z (z : Z) : float := SF2Prim (SpecFloat.binary_normalize prec emax z 0 false).

#[export] Instance float_Double : Double float := {
  d_of_Z := float_of_Z;
  d_add := PrimFloat.add;
  d_sub := PrimFloat.sub;
  d_mul := PrimFloat.mul;
  d_div := PrimFloat.div;
  d_opp := PrimFloat.opp;
  d_abs := PrimFloat.abs;
  d_ltb := PrimFloat.ltb;
  d_eqb := PrimFloat.eqb }.

Definition Qc_of_Z (z : Z) : Qc := Q2Qc (inject_Z z).

Definition Qc_ltb (x y : Qc) : bool := match (x ?= y)%Qc with Lt => true | _ => false end.

Definition Qc_abs (x : Qc) : Qc := if Qc_ltb x 0%Qc then Qcopp x else x.

#[export] Instance Qc_Double : Double Qc := {
  d_of_Z := Qc_of_Z;
  d_add := Qcplus;
  d_sub := Qcminus;
  d_mul := Qcmult;
  d_div := Qcdiv;
  d_opp := Qcopp;
  d_abs := Qc_abs;
  d_ltb := Qc_ltb;
  d_eqb := Qc_eq_bool }.

(** *** What the strategies use beyond arithmetic

    NaN and the functions of [<cmath>]; and the conversion to integers: [std::round],
    and [d_to_Z], which truncates and has no value on NaN and infinities. *)
Class DoubleMath (F : Type) := {
  d_nan : F;
  d_isnan : F → bool;
  d_sqrt : F → F;
  d_log1p : F → F;
  d_floor : F → F;
  d_ceil : F → F }.

Class DoubleCast (F : Type) := {
  d_round : F → F;
  d_to_Z : F → option Z }.

(** The exact value of a finite binary64 as [m * 2 ^ e]. *)
Definition float_parts (x : float) : option (Z * Z) :=
  match Prim2SF x with
  | S754_zero _ => Some (0, 0)
  | S754_finite s m e => Some (if s then Zneg m else Zpos m, e)
  | S754_infinity _ | S754_nan => None
  end.

(** Rounding to an integer: values of magnitude [2 ^ 52] and more are integers.
    (A zero result loses its sign, which no caller observes.) *)
Definition float_integral (round : Z → Z → Z) (x : float) : float :=
  match float_parts x with
  | Some (m, e) => if e <? 0 then float_of_Z (round m (2 ^ (- e))) else x
  | None => x
  end.

Definition float_to_Z (x : float) : option Z :=
  (λ '(m, e), if e <? 0 then Z.quot m (2 ^ (- e)) else m * 2 ^ e) <$> float_parts x.

(** [std::round]: halves away from zero. *)
Definition div_round (m d : Z) : Z := Z.sgn m * ((2 * Z.abs m + d) `div` (2 * d)).

(** The machine's doubles; [log1p] of the C library is an argument. *)
Definition float_math (log1p : float → float) : DoubleMath float := {|
  d_nan := PrimFloat.nan;
  d_isnan := λ x, negb (PrimFloat.eqb x x);
  d_sqrt := PrimFloat.sqrt;
  d_log1p := log1p;
  d_floor := float_integral Z.div;
  d_ceil := float_integral (λ m d, - ((- m) `div` d)) |}.

#[export] Instance float_Cast : DoubleCast float := {
  d_round := float_integral div_round;
  d_to_Z := float_to_Z }.

#[export] Instance Qc_Cast : DoubleCast Qc := {
  d_round := λ x, Qc_of_Z (div_round (Qnum (this x)) (Zpos (Qden (this x))));
  d_to_Z := λ x, Some (Z.quot (Qnum (this x)) (Zpos (Qden (this x)))) }.

Section Ordering.
Context {F : Type} `{!Double F}.

Definition d_leb (x y : F) : bool := (d_ltb x y || d_eqb x y).
(** [std::min], [std::max] and [std::clamp]: their arguments' order matters for NaN. *)
Definition d_min (x y : F) : F := if d_ltb y x then y else x.
Definition d_max (x y : F) : F := if d_ltb x y then y else x.
Definition d_clamp (v lo hi : F) : F := if d_ltb v lo then lo else if d_ltb hi v then hi else v.
End Ordering.
Infix "<=?" := d_leb : double_scope.

(** ** Signed integers: overflow is undefined *)

Definition int32 (z : Z) : result Z :=
  if (- 2 ^ 31 <=? z) && (z <? 2 ^ 31) then Ok z else Err Undefined.
Definition int64 (z : Z) : result Z :=
  if (- 2 ^ 63 <=? z) && (z <? 2 ^ 63) then Ok z else Err Undefined.

(** Conversion of a double to an integer type: undefined if the truncated value
    does not fit. *)
Definition cast_int64 {F} `{!DoubleCast F} (x : F) : result Z :=
  match d_to_Z x with Some z => int64 z | None => Err Undefined end.
(** [std::llround]. *)
Definition llround {F} `{!DoubleCast F} (x : F) : result Z := cast_int64 (d_round x).
Definition cast_uint64 {F} `{!DoubleCast F} (x : F) : result Z :=
  match d_to_Z x with
  | Some z => if (0 <=? z) && (z <? 2 ^ 64) then Ok z else Err Undefined
  | None => Err Undefined
  end.
Definition cast_uint32 {F} `{!DoubleCast F} (x : F) : result Z :=
  match d_to_Z x with
  | Some z => if (0 <=? z) && (z <? 2 ^ 32) then Ok z else Err Undefined
  | None => Err Undefined
  end.

Lemma int32_ok z : - 2 ^ 31 ≤ z < 2 ^ 31 → int32 z = Ok z.
Proof. intros [H1 H2]. unfold int32. by rewrite (proj2 (Z.leb_le _ _)), (proj2 (Z.ltb_lt _ _)) by lia. Qed.

Lemma int64_ok z : - 2 ^ 63 ≤ z < 2 ^ 63 → int64 z = Ok z.
Proof. intros [H1 H2]. unfold int64. by rewrite (proj2 (Z.leb_le _ _)), (proj2 (Z.ltb_lt _ _)) by lia. Qed.

Lemma int32_overflow z : z < - 2 ^ 31 ∨ 2 ^ 31 ≤ z → int32 z = Err Undefined.
Proof.
  intros H. unfold int32. destruct (Z.leb_spec (- 2 ^ 31) z); [|done].
  destruct (Z.ltb_spec z (2 ^ 31)); [lia|done].
Qed.

(** ** Exact arithmetic on integers *)

Lemma Qc_of_Z_add x y : Qc_of_Z (x + y) = (Qc_of_Z x + Qc_of_Z y)%Qc.
Proof. apply Qc_is_canon. simpl. rewrite !Qred_correct, inject_Z_plus. reflexivity. Qed.

Lemma Qc_of_Z_mul x y : Qc_of_Z (x * y) = (Qc_of_Z x * Qc_of_Z y)%Qc.
Proof. apply Qc_is_canon. simpl. rewrite !Qred_correct, inject_Z_mult. reflexivity. Qed.

Lemma Qc_of_Z_opp x : Qc_of_Z (- x) = (- Qc_of_Z x)%Qc.
Proof. apply Qc_is_canon. simpl. rewrite !Qred_correct, inject_Z_opp. reflexivity. Qed.

Lemma Qc_of_Z_0 : Qc_of_Z 0 = 0%Qc.
Proof. by apply Qc_is_canon. Qed.

Lemma Qc_of_Z_1 : Qc_of_Z 1 = 1%Qc.
Proof. by apply Qc_is_canon. Qed.

Lemma Qc_of_Z_m1 : Qc_of_Z (-1) = (- (1))%Qc.
Proof. by apply Qc_is_canon. Qed.

Lemma Qc_of_Z_inj x y : Qc_of_Z x = Qc_of_Z y → x = y.
Proof.
  intros E. assert (Qeq (inject_Z x) (inject_Z y)) as H.
  { rewrite <- (Qred_correct (inject_Z x)), <- (Qred_correct (inject_Z y)).
    change (Qeq (this (Qc_of_Z x)) (this (Qc_of_Z y))). by rewrite E. }
  unfold Qeq in H. simpl in H. lia.
Qed.

Lemma Qc_of_Z_nonzero x : x ≠ 0 → Qc_of_Z x ≠ 0%Qc.
Proof. intros Hx E. apply Hx, Qc_of_Z_inj. by rewrite Qc_of_Z_0. Qed.

(** ** Linear arithmetic on [Qc], through [Q] *)

Lemma Qc_this_add x y : (this (x + y)%Qc == this x + this y)%Q.
Proof. apply Qred_correct. Qed.

Lemma Qc_this_opp x : (this (- x)%Qc == - this x)%Q.
Proof. apply Qred_correct. Qed.

Lemma Qc_this_sub x y : (this (x - y)%Qc == this x - this y)%Q.
Proof. unfold Qcminus. rewrite Qc_this_add, Qc_this_opp. reflexivity. Qed.

Lemma Qc_eq_this x y : x = y ↔ (this x == this y)%Q.
Proof. split; [by intros ->|apply Qc_is_canon]. Qed.

Ltac qc_lra :=
  repeat match goal with
  | H : @eq Qc _ _ |- _ => rewrite Qc_eq_this in H
  | |- @eq Qc _ _ => rewrite Qc_eq_this
  | H : Qcle _ _ |- _ => unfold Qcle in H
  | H : Qclt _ _ |- _ => unfold Qclt in H
  | |- Qcle _ _ => unfold Qcle
  | |- Qclt _ _ => unfold Qclt
  | H : context [this (Qcminus _ _)] |- _ => rewrite Qc_this_sub in H
  | H : context [this (Qcplus _ _)] |- _ => rewrite Qc_this_add in H
  | H : context [this (Qcopp _)] |- _ => rewrite Qc_this_opp in H
  | |- context [this (Qcminus _ _)] => rewrite Qc_this_sub
  | |- context [this (Qcplus _ _)] => rewrite Qc_this_add
  | |- context [this (Qcopp _)] => rewrite Qc_this_opp
  end;
  change (this 0%Qc) with 0%Q in *; change (this 1%Qc) with 1%Q in *; lra.

Lemma Qc_ltb_spec (x y : Qc) : BoolSpec (x < y)%Qc (y <= x)%Qc (Qc_ltb x y).
Proof.
  unfold Qc_ltb. destruct (x ?= y)%Qc eqn:E; constructor.
  - apply Qceq_alt in E. subst. apply Qcle_refl.
  - by apply Qclt_alt.
  - apply Qcgt_alt in E. by apply Qclt_le_weak.
Qed.

Lemma Qc_leb_spec (x y : Qc) : BoolSpec (x <= y)%Qc (y < x)%Qc (d_leb x y).
Proof.
  unfold d_leb. cbn [d_ltb Qc_Double]. destruct (Qc_ltb_spec x y) as [H|H]; [constructor; by apply Qclt_le_weak|].
  cbn [orb d_eqb Qc_Double]. unfold Qc_eq_bool. destruct (Qcanon.Qc_eq_dec x y) as [->|Hne]; constructor.
  - apply Qcle_refl.
  - apply Qcle_lt_or_eq in H as [H|H]; [done|by symmetry in H].
Qed.

Lemma Qc_of_Z_le x y : x ≤ y → (Qc_of_Z x <= Qc_of_Z y)%Qc.
Proof. intros H. unfold Qcle. simpl. rewrite !Qred_correct. by rewrite <- Zle_Qle. Qed.

Lemma Qc_of_Z_lt x y : x < y → (Qc_of_Z x < Qc_of_Z y)%Qc.
Proof. intros H. unfold Qclt. simpl. rewrite !Qred_correct. by rewrite <- Zlt_Qlt. Qed.

Lemma Qc_div_between (x d : Qc) : (0 < d)%Qc → (0 <= x <= d)%Qc → (0 <= x / d <= 1)%Qc.
Proof.
  intros Hd [H0 H1]. assert (d ≠ 0%Qc) as Hne by (intros ->; by apply Qclt_not_eq in Hd).
  assert (0 < / d)%Qc as Hi.
  { apply Qcnot_le_lt. intros Hle. apply (Qcmult_le_compat_r _ _ d) in Hle; [|by apply Qclt_le_weak].
    rewrite Qcmult_0_l, Qcmult_inv_l in Hle by done. by apply Hle. }
  apply Qclt_le_weak in Hi. split.
  - apply (Qcmult_le_compat_r _ _ (/ d)) in H0; [|done]. by rewrite Qcmult_0_l in H0.
  - apply (Qcmult_le_compat_r _ _ (/ d)) in H1; [|done]. by rewrite Qcmult_inv_r in H1.
Qed.

Lemma Qc_mul_between (x d : Qc) : (0 <= d)%Qc → (0 <= x <= 1)%Qc → (0 <= x * d <= d)%Qc.
Proof.
  intros Hd [H0 H1]. split.
  - apply (Qcmult_le_compat_r _ _ d) in H0; [|done]. by rewrite Qcmult_0_l in H0.
  - apply (Qcmult_le_compat_r _ _ d) in H1; [|done]. by rewrite Qcmult_1_l in H1.
Qed.

(** Truncation of a value between integer bounds stays between them. *)
Lemma Qc_trunc (x : Qc) a b :
  (0 <= x)%Qc → (Qc_of_Z a <= x)%Qc → (x <= Qc_of_Z b)%Qc → ∃ z, d_to_Z x = Some z ∧ a ≤ z ≤ b.
Proof.
  unfold Qcle. cbn [this Qc_of_Z Q2Qc]. rewrite !Qred_correct. unfold d_to_Z, Qc_Cast.
  destruct (this x) as [n d]. unfold Qle. simpl. intros H0 Ha Hb. eexists. split; [done|].
  rewrite Z.quot_div_nonneg by lia. split.
  - apply Z.div_le_lower_bound; lia.
  - apply Z.div_le_upper_bound; lia.
Qed.

(** Integers convert back exactly. *)
Lemma Qc_of_Z_parts z : this (Qc_of_Z z) = inject_Z z.
Proof. apply Qred_identity. simpl. apply Z.gcd_1_r. Qed.

Lemma d_to_Z_of_Z z : d_to_Z (Qc_of_Z z) = Some z.
Proof. cbn [d_to_Z Qc_Cast]. rewrite Qc_of_Z_parts. simpl. by rewrite Z.quot_1_r. Qed.

Lemma d_round_of_Z z : d_round (Qc_of_Z z) = Qc_of_Z z.
Proof.
  cbn [d_round Qc_Cast]. rewrite Qc_of_Z_parts. simpl. f_equal. unfold div_round.
  replace (2 * Z.abs z + 1) with (Z.abs z * 2 + 1) by lia. change (2 * 1) with 2.
  rewrite Z.div_add_l by lia. change (1 `div` 2) with 0. rewrite Z.add_0_r, Z.mul_comm. apply Z.abs_sgn.
Qed.

Lemma llround_of_Z z : - 2 ^ 63 ≤ z < 2 ^ 63 → llround (Qc_of_Z z) = Ok z.
Proof. intros Hz. unfold llround, cast_int64. rewrite d_round_of_Z, d_to_Z_of_Z. by apply int64_ok. Qed.

Lemma Qc_max_spec (x y : Qc) : (x <= d_max x y)%Qc ∧ ∀ c, (x <= c)%Qc → (y <= c)%Qc → (d_max x y <= c)%Qc.
Proof.
  unfold d_max. cbn [d_ltb Qc_Double]. destruct (Qc_ltb_spec x y) as [H|H]; [|split; [apply Qcle_refl|done]].
  split; [by apply Qclt_le_weak|done].
Qed.
