(* ===== verification/Logging.v ===== *)
(** * The loggers.

    [Common::Logger] (src/common/logging.h) and [OptCommon::OptLogger]
    (src/common/opt_logging.h): the variadic [log], which interprets a format
    string and pushes typed elements to a queue, and the background loop
    [flushQueue], which prints the elements to the file.  A failing [log] ends
    the process.  The text of floating-point values is the C++ stream's, an
    argument ([DoubleText]).  A [const char *] is modelled by the characters up
    to its terminator.  The flag [running_] is true during a drain: only the
    destructor resets it.

    The specification splits the format into characters and holes
    ([parse_format]) and fills the holes in order ([fill_holes]). *)

From Stdlib Require Import Ascii String.
From stdpp Require Import numbers gmap strings pretty list.
From S2P Require Import Prelude Types MemPool LFQueue.

Open Scope Z_scope.

(** Printing and parsing of doubles by the standard library: [operator<<], and
    [std::stod], which throws where this has no value. *)
Class DoubleText (F : Type) := {
  d_show : F → string;
  d_parse : string → option F }.

(** [LogType] and the union of [LogElement], together. *)
Inductive LogElement (F : Type) :=
| LCHAR (c : ascii)
| LINTEGER (z : Z)
| LLONG_INTEGER (z : Z)
| LLONG_LONG_INTEGER (z : Z)
| LUNSIGNED_INTEGER (z : Z)
| LUNSIGNED_LONG_INTEGER (z : Z)
| LUNSIGNED_LONG_LONG_INTEGER (z : Z)
| LFLOAT (f : F)
| LDOUBLE (f : F).
Arguments LCHAR {F} c.
Arguments LINTEGER {F} z.
Arguments LLONG_INTEGER {F} z.
Arguments LLONG_LONG_INTEGER {F} z.
Arguments LUNSIGNED_INTEGER {F} z.
Arguments LUNSIGNED_LONG_INTEGER {F} z.
Arguments LUNSIGNED_LONG_LONG_INTEGER {F} z.
Arguments LFLOAT {F} f.
Arguments LDOUBLE {F} f.

(** The element of [OptLogger] has one more case: the block of up to 255
    characters. *)
Inductive OptLogElement (F : Type) :=
| OPlain (e : LogElement F)
| OSTRING (s : string).
Arguments OPlain {F} e.
Arguments OSTRING {F} s.

(** What [log] accepts: a value of one of the element types, or a string. *)
Inductive log_arg (F : Type) :=
| ArgValue (e : LogElement F)
| ArgString (s : string).
Arguments ArgValue {F} e.
Arguments ArgString {F} s.

Definition LOG_QUEUE_SIZE : Z := 8 * 1024 * 1024.
Definition OPT_LOG_QUEUE_SIZE : Z := 1024 * 1024.

Definition NUL : ascii := "000"%char.
Definition PERCENT : ascii := "%"%char.

(** The characters up to the terminator, as [c_str()] passes them on. *)
Fixpoint c_str (s : string) : string :=
  match s with
  | EmptyString => EmptyString
  | String c s => if bool_decide (c = NUL) then EmptyString else String c (c_str s)
  end.

(** [strncpy] into 256 characters, the last one set to the terminator. *)
Fixpoint str_take (n : nat) (s : string) : string :=
  match n, s with
  | S n, String c s => String c (str_take n s)
  | _, _ => EmptyString
  end.

#[export] Instance LogElement_default F : DefaultCtor (LogElement F) := LCHAR NUL.
#[export] Instance OptLogElement_default F : DefaultCtor (OptLogElement F) := OPlain (LCHAR NUL).

(** ** The two overloads of [log], without and with an argument left

    The code is the same text in both loggers; [push_char] and [push] are the
    overloads of [pushValue] it resolves to. *)
Section log_with.
Context {E A : Type} `{!DefaultCtor E} (push_char : ascii → LFQueue E → LFQueue E).
Context (push : A → LFQueue E → LFQueue E).

Fixpoint log_with (s : string) (args : list A) (q : LFQueue E) : result (LFQueue E) :=
  match s with
  | EmptyString => match args with [] => Ok q | _ :: _ => FATAL end
  | String c s1 =>
      let consume := match args with
                     | [] => FATAL
                     | a :: args => log_with s1 args (push a q)
                     end in
      if bool_decide (c = PERCENT) then
        match s1 with
        | String c1 s2 =>
            if bool_decide (c1 = PERCENT) then log_with s2 args (push_char c1 q) else consume
        | EmptyString => consume
        end
      else log_with s1 args (push_char c q)
  end.

(** The inner loop of [flushQueue] until the queue is empty; [n] bounds its
    iterations. *)
Fixpoint flush_with (show : E → string) (n : nat) (q : LFQueue E) (file : string)
    : result (LFQueue E * string) :=
  match getNextToRead q with
  | None => Ok (q, file)
  | Some e =>
      match n with
      | O => Err OutOfFuel
      | S n =>
          let file := file +:+ show e in
          let* q := updateReadIndex q in
          flush_with show n q file
      end
  end.
End log_with.

Section Logger.
Context {F : Type} `{!DoubleText F}.
Implicit Types (q : LFQueue (LogElement F)) (args : list (log_arg F)).

(** [pushValue(const LogElement &)] and the overloads that wrap it. *)
Definition pushElement (e : LogElement F) q : LFQueue (LogElement F) := enqueue e q.
Definition pushChar (c : ascii) q : LFQueue (LogElement F) := pushElement (LCHAR c) q.

(** [pushValue(const char * )]: one element per character. *)
Fixpoint pushString (s : string) q : LFQueue (LogElement F) :=
  match s with
  | EmptyString => q
  | String c s => pushString s (pushChar c q)
  end.

Definition pushValue (a : log_arg F) q : LFQueue (LogElement F) :=
  match a with
  | ArgValue e => pushElement e q
  | ArgString s => pushString (c_str s) q
  end.

Definition log (s : string) args q : result (LFQueue (LogElement F)) :=
  log_with pushChar pushValue s args q.

(** One [file_ << next->u_...]. *)
Definition show_element (e : LogElement F) : string :=
  match e with
  | LCHAR c => String c EmptyString
  | LINTEGER z | LLONG_INTEGER z | LLONG_LONG_INTEGER z
  | LUNSIGNED_INTEGER z | LUNSIGNED_LONG_INTEGER z | LUNSIGNED_LONG_LONG_INTEGER z => pretty z
  | LFLOAT f | LDOUBLE f => d_show f
  end.

Definition flushQueue (n : nat) q (file : string) : result (LFQueue (LogElement F) * string) :=
  flush_with show_element n q file.
End Logger.

Section OptLogger.
Context {F : Type} `{!DoubleText F}.
Implicit Types (q : LFQueue (OptLogElement F)) (args : list (log_arg F)).

Definition opt_pushElement (e : OptLogElement F) q : LFQueue (OptLogElement F) := enqueue e q.
Definition opt_pushChar (c : ascii) q : LFQueue (OptLogElement F) := opt_pushElement (OPlain (LCHAR c)) q.

(** [OptLogger::pushValue(const char * )]: the whole string as one element. *)
Definition opt_pushValue (a : log_arg F) q : LFQueue (OptLogElement F) :=
  match a with
  | ArgValue e => opt_pushElement (OPlain e) q
  | ArgString s => opt_pushElement (OSTRING (str_take 255 (c_str s))) q
  end.

Definition opt_log (s : string) args q : result (LFQueue (OptLogElement F)) :=
  log_with opt_pushChar opt_pushValue s args q.

Definition opt_show_element (e : OptLogElement F) : string :=
  match e with OPlain e => show_element e | OSTRING s => s end.

Definition opt_flushQueue (n : nat) q (file : string) : result (LFQueue (OptLogElement F) * string) :=
  flush_with opt_show_element n q file.
End OptLogger.

(** ** Specification *)

(** A format is a sequence of characters and holes; a doubled percent sign is a
    character. *)
Fixpoint parse_format (s : string) : list (option ascii) :=
  match s with
  | EmptyString => []
  | String c s1 =>
      if bool_decide (c = PERCENT) then
        match s1 with
        | String c1 s2 =>
            if bool_decide (c1 = PERCENT) then Some PERCENT :: parse_format s2 else None :: parse_format s1
        | EmptyString => None :: parse_format s1
        end
      else Some c :: parse_format s1
  end.

Definition holes (f : list (option ascii)) : nat := length (filter (λ p, p = None) f).

(** Holes are replaced by the arguments, in order. *)
Fixpoint fill_holes {A B} (on_char : ascii → B) (on_arg : A → B) (f : list (option ascii)) (args : list A) : list B :=
  match f, args with
  | Some c :: f, _ => on_char c :: fill_holes on_char on_arg f args
  | None :: f, a :: args => on_arg a :: fill_holes on_char on_arg f args
  | _, _ => []
  end.

Definition concat_strings (l : list string) : string := foldr String.append EmptyString l.

Section LogSpec.
Context {F : Type} `{!DoubleText F}.

(** The text of an argument, and what a call adds to the file. *)
Definition show_arg (limit : option nat) (a : log_arg F) : string :=
  match a with
  | ArgValue e => show_element e
  | ArgString s => match limit with None => c_str s | Some n => str_take n (c_str s) end
  end.

Definition log_text (limit : option nat) (s : string) (args : list (log_arg F)) : string :=
  concat_strings (fill_holes (λ c, String c EmptyString) (show_arg limit) (parse_format s) args).

(** The queue elements an argument and a call take. *)
Definition arg_elems (a : log_arg F) : list (LogElement F) :=
  match a with ArgValue e => [e] | ArgString s => LCHAR <$> String.list_ascii_of_string (c_str s) end.
Definition opt_arg_elems (a : log_arg F) : list (OptLogElement F) :=
  match a with ArgValue e => [OPlain e] | ArgString s => [OSTRING (str_take 255 (c_str s))] end.

Definition log_elems (s : string) (args : list (log_arg F)) : list (LogElement F) :=
  concat (fill_holes (λ c, [LCHAR c]) arg_elems (parse_format s) args).
Definition opt_log_elems (s : string) (args : list (log_arg F)) : list (OptLogElement F) :=
  concat (fill_holes (λ c, [OPlain (LCHAR c)]) opt_arg_elems (parse_format s) args).
End LogSpec.

(** ** Proofs *)

Lemma holes_Some c f : holes (Some c :: f) = holes f.
Proof. unfold holes. by rewrite filter_cons_False by done. Qed.

Lemma holes_None f : holes (None :: f) = S (holes f).
Proof. unfold holes. by rewrite filter_cons_True by done. Qed.

#[export] Instance string_app_assoc : Assoc (=) String.append.
Proof. intros s1 s2 s3. induction s1 as [|c s1 IH]; [done|]. exact (f_equal (String c) IH). Qed.

Lemma string_app_empty_r s : s +:+ EmptyString = s.
Proof. induction s as [|c s IH]; [done|]. exact (f_equal (String c) IH). Qed.

Lemma concat_strings_app l1 l2 : concat_strings (l1 ++ l2) = concat_strings l1 +:+ concat_strings l2.
Proof. induction l1 as [|s l1 IH]; [done|]. simpl. by rewrite IH, (assoc_L String.append). Qed.

Lemma enqueue_all_app {T} `{!DefaultCtor T} (l1 l2 : list T) q :
  enqueue_all (l1 ++ l2) q = enqueue_all l2 (enqueue_all l1 q).
Proof. apply foldl_app. Qed.

(** Strong induction on strings, as [log] looks one character ahead. *)
Lemma string_two_ind (P : string → Prop) :
  P EmptyString → (∀ c, P (String c EmptyString)) →
  (∀ c1 c2 s, P s → P (String c2 s) → P (String c1 (String c2 s))) → ∀ s, P s.
Proof.
  intros H0 H1 H2 s. cut (P s ∧ ∀ c, P (String c s)); [by intros []|].
  induction s as [|c s [IH1 IH2]]; auto.
Qed.

Lemma parse_format_cons2 c1 c2 s :
  parse_format (String c1 (String c2 s))
  = if bool_decide (c1 = PERCENT) then
      if bool_decide (c2 = PERCENT) then Some PERCENT :: parse_format s
      else None :: parse_format (String c2 s)
    else Some c1 :: parse_format (String c2 s).
Proof. done. Qed.

Section log_with_ok.
Context {E A : Type} `{!DefaultCtor E} (push_char : ascii → LFQueue E → LFQueue E).
Context (push : A → LFQueue E → LFQueue E) (ch : ascii → E) (elems : A → list E).
Hypothesis push_char_ok : ∀ c q, push_char c q = enqueue (ch c) q.
Hypothesis push_ok : ∀ a q, push a q = enqueue_all (elems a) q.

Lemma log_with_cons2 c1 c2 s args q :
  log_with push_char push (String c1 (String c2 s)) args q
  = if bool_decide (c1 = PERCENT) then
      if bool_decide (c2 = PERCENT) then log_with push_char push s args (push_char c2 q)
      else match args with
           | [] => FATAL
           | a :: args => log_with push_char push (String c2 s) args (push a q)
           end
    else log_with push_char push (String c2 s) args (push_char c1 q).
Proof. by destruct args. Qed.

(** [log] succeeds exactly when there are as many holes as arguments, and then
    has written the elements of the filled format. *)
Lemma log_with_ok s args q :
  log_with push_char push s args q
  = if decide (holes (parse_format s) = length args)
    then Ok (enqueue_all (concat (fill_holes (λ c, [ch c]) elems (parse_format s) args)) q)
    else FATAL.
Proof.
  revert args q. induction s as [|c|c1 c2 s IH1 IH2] using string_two_ind; intros args q.
  - by destruct args.
  - simpl. case_bool_decide.
    + destruct args as [|a [|]]; simpl; [done| |done]. by rewrite push_ok, app_nil_r.
    + by destruct args; simpl; rewrite ?push_char_ok.
  - rewrite log_with_cons2, parse_format_cons2. case_bool_decide as Hc1; [case_bool_decide as Hc2|].
    + rewrite IH1, holes_Some, push_char_ok. subst. done.
    + rewrite holes_None. destruct args as [|a args]; [done|]. simpl length. cbn [fill_holes concat].
      rewrite IH2, enqueue_all_app, push_ok. do 2 case_decide; try done; lia.
    + cbn [fill_holes concat]. by rewrite IH2, holes_Some, enqueue_all_app, push_char_ok.
Qed.

(** Draining writes the contents in order and leaves the queue empty. *)
Lemma flush_with_ok (show : E → string) n q l file :
  lfq_rep q l → (length l ≤ n)%nat →
  ∃ q', flush_with show n q file = Ok (q', file +:+ concat_strings (show <$> l)) ∧ lfq_rep q' [].
Proof.
  revert q l file. induction n as [|n IH]; intros q l file Hq Hn.
  all: pose proof (getNextToRead_ok q l Hq) as Hg; destruct l as [|x l]; simpl in *; rewrite Hg; try lia.
  1,2: exists q; by rewrite string_app_empty_r.
  destruct (updateReadIndex_ok q x l Hq) as (q' & -> & Hq' & _). simpl.
  destruct (IH q' l (file +:+ show x) Hq' ltac:(lia)) as (q2 & -> & H2).
  exists q2. by rewrite (assoc_L String.append).
Qed.
End log_with_ok.

Lemma concat_strings_chars s :
  concat_strings ((λ c, String c EmptyString) <$> String.list_ascii_of_string s) = s.
Proof. induction s as [|c s IH]; [done|]. exact (f_equal (String c) IH). Qed.

Lemma str_take_all n s : (String.length s ≤ n)%nat → str_take n s = s.
Proof. revert s. induction n as [|n IH]; intros [|c s] Hs; simpl in *; [done|lia|done|]. by rewrite IH by lia. Qed.

Section LoggerOk.
Context {F : Type} `{!DoubleText F}.
Implicit Types (s file : string) (args : list (log_arg F)).

Lemma pushString_ok s (q : LFQueue (LogElement F)) :
  pushString s q = enqueue_all (LCHAR <$> String.list_ascii_of_string s) q.
Proof. revert q. induction s as [|c s IH]; intros q; [done|]. simpl. apply IH. Qed.

Lemma pushValue_ok (a : log_arg F) q : pushValue a q = enqueue_all (arg_elems a) q.
Proof. destruct a; [done|]. apply pushString_ok. Qed.

Lemma opt_pushValue_ok (a : log_arg F) q : opt_pushValue a q = enqueue_all (opt_arg_elems a) q.
Proof. by destruct a. Qed.

Lemma log_ok s args q :
  log s args q
  = if decide (holes (parse_format s) = length args) then Ok (enqueue_all (log_elems s args) q) else FATAL.
Proof. apply log_with_ok; [done|apply pushValue_ok]. Qed.

Lemma opt_log_ok s args q :
  opt_log s args q
  = if decide (holes (parse_format s) = length args) then Ok (enqueue_all (opt_log_elems s args) q) else FATAL.
Proof. apply log_with_ok; [done|apply opt_pushValue_ok]. Qed.

(** Printing the elements of a filled format is filling it with the printed
    arguments. *)
Lemma show_fill {E} (show : E → string) (ch : ascii → E) (elems : log_arg F → list E) limit f args :
  (∀ c, show (ch c) = String c EmptyString) →
  (∀ a, concat_strings (show <$> elems a) = show_arg limit a) →
  concat_strings (show <$> concat (fill_holes (λ c, [ch c]) elems f args))
  = concat_strings (fill_holes (λ c, String c EmptyString) (show_arg limit) f args).
Proof.
  intros Hc Ha. revert args. induction f as [|[c|] f IH]; intros args; [done|..].
  - simpl. by rewrite Hc, <- IH.
  - destruct args as [|a args]; [done|]. simpl. by rewrite fmap_app, concat_strings_app, Ha, IH.
Qed.

Lemma show_log_elems s args : concat_strings (show_element <$> log_elems s args) = log_text None s args.
Proof.
  apply show_fill; [done|]. intros [e|t]; simpl; [by rewrite string_app_empty_r|].
  rewrite <- list_fmap_compose. apply concat_strings_chars.
Qed.

Lemma show_opt_log_elems s args :
  concat_strings (opt_show_element <$> opt_log_elems s args) = log_text (Some 255%nat) s args.
Proof. apply show_fill; [done|]. by intros [e|t]; simpl; rewrite string_app_empty_r. Qed.

(** A call with room in the queue, followed by a drain. *)
Lemma log_flush_ok s args q l file :
  lfq_rep q l → holes (parse_format s) = length args →
  Z.of_nat (length l) + Z.of_nat (length (log_elems s args)) ≤ q_size q →
  ∃ q1 q2, log s args q = Ok q1
    ∧ flushQueue (length l + length (log_elems s args)) q1 file
      = Ok (q2, file +:+ concat_strings (show_element <$> l) +:+ log_text None s args)
    ∧ lfq_rep q2 [].
Proof.
  intros Hq Hh Hroom. destruct (enqueue_all_ok (log_elems s args) q l Hq Hroom) as [H1 _].
  destruct (flush_with_ok show_element (length l + length (log_elems s args)) _ _ file H1) as (q2 & Hf & H2).
  { by rewrite length_app. }
  eexists _, q2. rewrite log_ok, decide_True by done. split_and!; [done| |done].
  by rewrite fmap_app, concat_strings_app, show_log_elems in Hf.
Qed.

Lemma opt_log_flush_ok s args q l file :
  lfq_rep q l → holes (parse_format s) = length args →
  Z.of_nat (length l) + Z.of_nat (length (opt_log_elems s args)) ≤ q_size q →
  ∃ q1 q2, opt_log s args q = Ok q1
    ∧ opt_flushQueue (length l + length (opt_log_elems s args)) q1 file
      = Ok (q2, file +:+ concat_strings (opt_show_element <$> l) +:+ log_text (Some 255%nat) s args)
    ∧ lfq_rep q2 [].
Proof.
  intros Hq Hh Hroom. destruct (enqueue_all_ok (opt_log_elems s args) q l Hq Hroom) as [H1 _].
  destruct (flush_with_ok opt_show_element (length l + length (opt_log_elems s args)) _ _ file H1)
    as (q2 & Hf & H2).
  { by rewrite length_app. }
  eexists _, q2. rewrite opt_log_ok, decide_True by done. split_and!; [done| |done].
  by rewrite fmap_app, concat_strings_app, show_opt_log_elems in Hf.
Qed.

(** The block copy loses nothing on strings of at most 255 characters. *)
Definition short_arg (a : log_arg F) : Prop :=
  match a with ArgValue _ => True | ArgString s => (String.length (c_str s) ≤ 255)%nat end.

Lemma log_text_short s args : Forall short_arg args → log_text (Some 255%nat) s args = log_text None s args.
Proof.
  intros Hs. unfold log_text. f_equal. generalize (parse_format s) as f.
  induction Hs as [|a args Ha Hs IH]; intros f; induction f as [|[c|] f IHf]; simpl; try done.
  1,2: by rewrite IHf.
  rewrite IH. f_equal. destruct a; [done|]. by apply str_take_all.
Qed.
End LoggerOk.
