(* ===== verification/LoggerThread.v ===== *)
(** * The loggers' threads.

    src/common/logging.h and src/common/opt_logging.h: the constructor, the
    background thread [flushQueue] statement by statement, and the destructor,
    interleaved with the pushes of the thread that logs in any order.

    The two classes differ in two places, the flags of the section: [Logger] also
    tests [running_] in its inner loop and caps the wait of its destructor, and
    [OptLogger] does neither.  A step carries the elements pushed so far. *)

From Stdlib Require Import Ascii String.
From stdpp Require Import numbers gmap strings pretty list relations.
From S2P Require Import Prelude Types MemPool LFQueue Logging.

Open Scope Z_scope.
Local Coercion Z.of_nat : nat >-> Z.

(** Where [flushQueue] is: at the outer test, at [getNextToRead], at the inner
    test with its result, at the [switch], at [updateReadIndex], or returned. *)
Inductive flush_pc (E : Type) :=
| FOuter
| FNext
| FTest (next : option E)
| FPrint (next : E)
| FAdvance
| FExit.
Arguments FOuter {E}.
Arguments FNext {E}.
Arguments FTest {E} next.
Arguments FPrint {E} next.
Arguments FAdvance {E}.
Arguments FExit {E}.

(** Where the destructor is: not called, waiting for the queue, joining, done. *)
Inductive dtor_pc := DNone | DWait | DJoin | DClosed.

Record logger (E : Type) := mkLogger {
  lg_queue_ : LFQueue E;
  lg_file_ : string;
  lg_running_ : bool;
  lg_flush : flush_pc E;
  lg_dtor : dtor_pc }.
Arguments mkLogger {E} _ _ _ _ _.
Arguments lg_queue_ {E} _.
Arguments lg_file_ {E} _.
Arguments lg_running_ {E} _.
Arguments lg_flush {E} _.
Arguments lg_dtor {E} _.

Section LoggerThread.
Context {E : Type} `{!DefaultCtor E} (show : E → string) (checks_running capped : bool).
Implicit Types (g : logger E) (q : LFQueue E) (l : list E).

(** The constructor: an empty file, an empty queue and a thread in [flushQueue]. *)
Definition logger_new (queue_size : Z) : logger E := mkLogger (LFQueue_new queue_size) "" true FOuter DNone.

Definition at_pc (pc : flush_pc E) g : logger E := mkLogger (lg_queue_ g) (lg_file_ g) (lg_running_ g) pc (lg_dtor g).

(** One statement of [flushQueue].  A failed inner test goes on with
    [file_.flush()] and the sleep, which do not change what is written. *)
Definition flusher_step g : result (logger E) :=
  match lg_flush g with
  | FOuter => Ok (at_pc (if lg_running_ g then FNext else FExit) g)
  | FNext => Ok (at_pc (FTest (getNextToRead (lg_queue_ g))) g)
  | FTest next =>
      let go := (negb checks_running || lg_running_ g) && negb (size_ (lg_queue_ g) =? 0) in
      Ok (at_pc (match next with Some e => if go then FPrint e else FOuter | None => FOuter end) g)
  | FPrint e => Ok (mkLogger (lg_queue_ g) (lg_file_ g +:+ show e) (lg_running_ g) FAdvance (lg_dtor g))
  | FAdvance =>
      let* q := updateReadIndex (lg_queue_ g) in
      Ok (mkLogger q (lg_file_ g) (lg_running_ g) FNext (lg_dtor g))
  | FExit => Ok g
  end.

Fixpoint flusher_steps (n : nat) g : result (logger E) :=
  match n with
  | O => Ok g
  | S n => let* g := flusher_step g in flusher_steps n g
  end.

(** One statement of the destructor; [expired] is whether the clock has passed the
    deadline, and [None] is a join that has to wait. *)
Definition dtor_step (expired : bool) g : option (logger E) :=
  match lg_dtor g with
  | DNone => Some (mkLogger (lg_queue_ g) (lg_file_ g) (lg_running_ g) (lg_flush g) DWait)
  | DWait =>
      if negb (size_ (lg_queue_ g) =? 0) && negb (capped && expired) then Some g
      else Some (mkLogger (lg_queue_ g) (lg_file_ g) false (lg_flush g) DJoin)
  | DJoin =>
      match lg_flush g with
      | FExit => Some (mkLogger (lg_queue_ g) (lg_file_ g) (lg_running_ g) (lg_flush g) DClosed)
      | _ => None
      end
  | DClosed => None
  end.

(** [pushValue] of one element. *)
Definition logger_push (e : E) g : logger E :=
  mkLogger (enqueue e (lg_queue_ g)) (lg_file_ g) (lg_running_ g) (lg_flush g) (lg_dtor g).

Inductive logger_step : list E * logger E → list E * logger E → Prop :=
| ls_push e pushed g : lg_dtor g = DNone → room_for (lg_queue_ g) 1 → logger_step (pushed, g) (pushed ++ [e], logger_push e g)
| ls_flush pushed g g' : flusher_step g = Ok g' → logger_step (pushed, g) (pushed, g')
| ls_dtor expired pushed g g' : dtor_step expired g = Some g' → logger_step (pushed, g) (pushed, g').

(** ** Invariant *)

(** [printed] is what the file has, [l] what the queue holds. *)
Definition flush_ok (pc : flush_pc E) (pushed printed l : list E) : Prop :=
  match pc with
  | FAdvance => ∃ p e l', l = e :: l' ∧ printed = p ++ [e] ∧ pushed = p ++ l
  | FTest (Some e) | FPrint e => head l = Some e ∧ pushed = printed ++ l
  | _ => pushed = printed ++ l
  end.

Record logger_at (pushed printed l : list E) g : Prop := {
  la_queue : lfq_rep (lg_queue_ g) l;
  la_file : lg_file_ g = concat_strings (show <$> printed);
  la_flush : flush_ok (lg_flush g) pushed printed l;
  la_running : lg_running_ g = match lg_dtor g with DNone | DWait => true | _ => false end;
  la_exit : lg_flush g = FExit → lg_running_ g = false;
  la_drained : capped = false → lg_running_ g = false → l = [];
  la_closed : lg_dtor g = DClosed → lg_flush g = FExit }.

Definition logger_inv (s : list E * logger E) : Prop := ∃ printed l, logger_at s.1 printed l s.2.

Lemma logger_inv_new n : 0 < n < 2 ^ 64 → logger_inv ([], logger_new n).
Proof. intros Hn. exists [], []. split; try done. by apply lfq_rep_new. Qed.

Lemma concat_show_snoc p e : concat_strings (show <$> p ++ [e]) = concat_strings (show <$> p) +:+ show e.
Proof. rewrite fmap_app, concat_strings_app. simpl. by rewrite string_app_empty_r. Qed.

(** Statements of [flushQueue] up to its return when [running_] is off, and up to
    an empty queue when it is on, at most. *)
Definition flush_left (pc : flush_pc E) (running : bool) l : nat :=
  4 * length l
  + match pc with
    | FTest None => if running then 5 else 2
    | FOuter => if running then 4 else 1
    | FNext => 3
    | FTest (Some _) => 2
    | FPrint _ => 1
    | FAdvance | FExit => 0
    end.

(** A statement of [flushQueue] never fails, keeps the invariant and gets closer. *)
Lemma flusher_step_ok pushed printed l g :
  logger_at pushed printed l g →
  ∃ g' printed' l', flusher_step g = Ok g' ∧ logger_at pushed printed' l' g'
    ∧ lg_running_ g' = lg_running_ g ∧ lg_dtor g' = lg_dtor g
    ∧ (lg_flush g ≠ FExit → lg_running_ g = false ∨ l ≠ [] →
       (flush_left (lg_flush g') (lg_running_ g') l' < flush_left (lg_flush g) (lg_running_ g) l)%nat).
Proof.
  intros [Hq Hf Hp Hr He Hd Hc]. destruct g as [q f r pc d]. cbn in *. unfold flusher_step. cbn. destruct pc as [| |next|e| |].
  - eexists _, printed, l. split; [done|]. split; [split; cbn; try done; destruct r; try done; intros H; by specialize (Hc H)|].
    split_and!; [done|done|]. cbn. destruct r; lia.
  - eexists _, printed, l. rewrite (getNextToRead_ok _ _ Hq). split; [done|]. split; [|split_and!; [done|done|]].
    + split; cbn; try done; [by destruct l|intros H; by specialize (Hc H)].
    + cbn. intros _ Hl. destruct l as [|e l]; cbn; [|lia]. destruct Hl as [->|]; [lia|done].
  - eexists _, printed, l. split; [done|]. rewrite (proj1 (lfq_rep_size _ _ Hq)). destruct next as [e|].
    + destruct Hp as [Hh Hp]. destruct l as [|e' l]; [done|]. rewrite (proj2 (Z.eqb_neq _ _)) by (cbn; lia). rewrite andb_true_r.
      split; [|split_and!; [done|done|]].
      * split; cbn; try done; [by destruct (_ || _)|by destruct (_ || _)|intros H; by specialize (Hc H)].
      * cbn. intros _ _. destruct checks_running, r; cbn; lia.
    + split; [split; cbn; try done; intros H; by specialize (Hc H)|]. split_and!; [done|done|]. cbn. destruct r; lia.
  - destruct Hp as [Hh Hp]. destruct l as [|e' l']; [done|]. injection Hh as ->. eexists _, (printed ++ [e]), (e :: l').
    split; [done|]. split; [|split_and!; [done|done|cbn; lia]].
    split; cbn; try done; [by rewrite concat_show_snoc, Hf|by exists printed, e, l'|intros H; by specialize (Hc H)].
  - destruct Hp as (p & e & l' & -> & -> & ->). destruct (updateReadIndex_ok _ _ _ Hq) as (q' & -> & Hq' & _). cbn.
    eexists _, (p ++ [e]), l'. split; [done|]. split; [|split_and!; [done|done|cbn; lia]].
    split; cbn; try done; [by rewrite <- app_assoc|intros H1 H2; by specialize (Hd H1 H2)|intros H; by specialize (Hc H)].
  - eexists _, printed, l. split; [done|]. by split.
Qed.

(** [flushQueue] alone empties the queue while [running_] is on, and returns once it
    is off. *)
Lemma flusher_steps_end pushed printed l g :
  logger_at pushed printed l g →
  ∃ (n : nat) g' printed' l', (n ≤ flush_left (lg_flush g) (lg_running_ g) l)%nat ∧ flusher_steps n g = Ok g'
    ∧ logger_at pushed printed' l' g' ∧ lg_running_ g' = lg_running_ g ∧ lg_dtor g' = lg_dtor g
    ∧ (if lg_running_ g then l' = [] else lg_flush g' = FExit).
Proof.
  remember (flush_left (lg_flush g) (lg_running_ g) l) as m eqn:Em. revert printed l g Em.
  induction (lt_wf m) as [m _ IH]. intros printed l g -> Hi.
  set (over := if lg_running_ g then l = [] else lg_flush g = FExit).
  assert (over ∨ ¬ over) as [He|He] by (unfold over; destruct (lg_running_ g); [destruct l; auto|destruct (lg_flush g); auto]).
  - exists O, g, printed, l. split_and!; [lia|done|done|done|done|done].
  - destruct (flusher_step_ok _ _ _ _ Hi) as (g1 & p1 & l1 & E1 & H1 & Hr1 & Hd1 & Hm).
    assert (flush_left (lg_flush g1) (lg_running_ g1) l1 < flush_left (lg_flush g) (lg_running_ g) l)%nat as Hlt.
    { unfold over in He. destruct (lg_running_ g) eqn:Er; apply Hm; auto. intros Hx. by rewrite (la_exit _ _ _ _ Hi Hx) in Er. }
    destruct (IH _ Hlt p1 l1 g1 eq_refl H1) as (n & g' & p' & l' & Hn & En & Hi' & Hr & Hd & Hend).
    exists (S n), g', p', l'. cbn [flusher_steps]. rewrite E1. cbn [rbind]. rewrite Hr1 in Hend.
    split_and!; [lia|done|done|congruence|congruence|done].
Qed.

Lemma dtor_step_ok expired pushed printed l g g' :
  logger_at pushed printed l g → dtor_step expired g = Some g' → logger_at pushed printed l g'.
Proof.
  intros Hi. destruct g as [q f r pc d]. unfold dtor_step. cbn. destruct d; cbn.
  - intros [= <-]. destruct Hi; by split.
  - destruct (_ && _) eqn:Ew; intros [= <-]; [done|]. destruct Hi as [Hq Hf Hp Hr He Hd Hc]. split; cbn in *; try done.
    intros Ec _. rewrite Ec, andb_true_r in Ew. apply negb_false_iff, Z.eqb_eq in Ew. rewrite (proj1 (lfq_rep_size _ _ Hq)) in Ew. destruct l; [done|]. cbn in Ew. lia.
  - destruct pc; try done. intros [= <-]. destruct Hi; by split.
  - done.
Qed.

Lemma logger_push_ok pushed printed l g e :
  logger_at pushed printed l g → lg_dtor g = DNone → room_for (lg_queue_ g) 1 →
  logger_at (pushed ++ [e]) printed (l ++ [e]) (logger_push e g).
Proof.
  intros [Hq Hf Hp Hr He Hd Hc] Hn Hroom. destruct g as [q f r pc d]. cbn in *. subst d r.
  pose proof (lfq_rep_size _ _ Hq) as [Hs _]. unfold room_for in Hroom. rewrite Hs in Hroom.
  destruct (enqueue_ok q l e Hq ltac:(lia)) as [Hq' _]. split; cbn; try done.
  destruct pc as [| |[e'|]|e'| |]; cbn in *; try (by rewrite Hp, app_assoc).
  1,2: destruct Hp as [Hh ->]; split; [by destruct l|by rewrite app_assoc].
  destruct Hp as (p & e0 & l' & -> & -> & ->). exists p, e0, (l' ++ [e]). by rewrite <- app_assoc.
Qed.

Lemma logger_inv_step s s' : logger_step s s' → logger_inv s → logger_inv s'.
Proof.
  intros H (printed & l & Hi). destruct H as [e pushed g H1 H2|pushed g g' H|expired pushed g g' H]; cbn in Hi.
  - exists printed, (l ++ [e]). by apply logger_push_ok.
  - destruct (flusher_step_ok _ _ _ _ Hi) as (g1 & p' & l' & E1 & Hi' & _). rewrite E1 in H. injection H as <-. by exists p', l'.
  - exists printed, l. by eapply dtor_step_ok.
Qed.

Lemma logger_inv_reachable n s : 0 < n < 2 ^ 64 → rtc logger_step ([], logger_new n) s → logger_inv s.
Proof.
  intros Hn Hr. pose proof (logger_inv_new n Hn) as Hi. revert Hi. induction Hr as [|s1 s2 s3 H _ IH]; [done|].
  intros Hi. by apply IH, (logger_inv_step s1).
Qed.

(** What the file has in a reachable state: a beginning of the text of the pushed
    elements, all of it when the queue is empty; and what [flushQueue] alone goes
    on to do. *)
Lemma logger_run_text n pushed g :
  0 < n < 2 ^ 64 → rtc logger_step ([], logger_new n) (pushed, g) →
  let text := concat_strings (show <$> pushed) in
  (∃ rest, text = lg_file_ g +:+ rest)
  ∧ (size_ (lg_queue_ g) = 0 → lg_file_ g = text)
  ∧ (capped = false → lg_dtor g = DClosed → lg_file_ g = text)
  ∧ ∃ (k : nat) g', k ≤ 4 * size_ (lg_queue_ g) + 5 ∧ flusher_steps k g = Ok g'
      ∧ if lg_running_ g then size_ (lg_queue_ g') = 0 ∧ lg_file_ g' = text else lg_flush g' = FExit.
Proof.
  intros Hn Hr text. destruct (logger_inv_reachable n _ Hn Hr) as (printed & l & Hi). cbn in Hi.
  assert (∀ g1 p1 l1, logger_at pushed p1 l1 g1 → l1 = [] → lg_file_ g1 = text) as Hall.
  { intros g1 p1 l1 H1 ->. rewrite (la_file _ _ _ _ H1). pose proof (la_flush _ _ _ _ H1) as Hp. unfold text. do 2 f_equal.
    destruct (lg_flush g1) as [| |[]| | |]; cbn in Hp; try (destruct Hp as (? & ? & ? & ? & _)); try done; try (by destruct Hp); by rewrite app_nil_r in Hp. }
  pose proof (proj1 (lfq_rep_size _ _ (la_queue _ _ _ _ Hi))) as Hs. split_and!.
  - rewrite (la_file _ _ _ _ Hi). unfold text. pose proof (la_flush _ _ _ _ Hi) as Hp.
    assert (∃ later, pushed = printed ++ later) as [later ->].
    { destruct (lg_flush g) as [| |[]| | |]; cbn in Hp; try (by eexists); try (by destruct Hp as [_ Hp]; eexists). destruct Hp as (p & e & l' & -> & -> & ->). exists l'. by rewrite <- app_assoc. }
    exists (concat_strings (show <$> later)). by rewrite fmap_app, concat_strings_app.
  - intros H0. apply (Hall _ _ _ Hi). destruct l; [done|]. rewrite Hs in H0. cbn in H0. lia.
  - intros Hc Hd. apply (Hall _ _ _ Hi). apply (la_drained _ _ _ _ Hi Hc). by rewrite (la_running _ _ _ _ Hi), Hd.
  - destruct (flusher_steps_end _ _ _ _ Hi) as (k & g' & p' & l' & Hk & Ek & Hi' & _ & _ & Hend). exists k, g'. split; [|split; [done|]].
    + rewrite Hs. unfold flush_left in Hk. destruct (lg_flush g) as [| |[]| | |], (lg_running_ g); lia.
    + destruct (lg_running_ g); [|done]. subst l'. split; [by rewrite (proj1 (lfq_rep_size _ _ (la_queue _ _ _ _ Hi')))|by eapply Hall].
Qed.

(** A call is a run of pushes. *)
Lemma pushes_run es pushed l g :
  lg_dtor g = DNone → lfq_rep (lg_queue_ g) l → length l + length es ≤ q_size (lg_queue_ g) →
  rtc logger_step (pushed, g) (pushed ++ es, mkLogger (enqueue_all es (lg_queue_ g)) (lg_file_ g) (lg_running_ g) (lg_flush g) (lg_dtor g)).
Proof.
  revert pushed l g. induction es as [|e es IH]; intros pushed l g Hd Hq Hroom; [rewrite app_nil_r; by destruct g|].
  cbn [length] in Hroom. destruct (enqueue_ok (lg_queue_ g) l e Hq ltac:(lia)) as [Hq' Hs'].
  eapply rtc_l; [apply (ls_push e); [done|unfold room_for; rewrite (proj1 (lfq_rep_size _ _ Hq)); lia]|].
  replace (pushed ++ e :: es) with ((pushed ++ [e]) ++ es) by by rewrite <- app_assoc.
  apply (IH _ (l ++ [e]) (logger_push e g) Hd Hq'). cbn [lg_queue_ logger_push]. rewrite Hs', length_app. cbn. lia.
Qed.

Lemma flusher_steps_run n pushed g g' : flusher_steps n g = Ok g' → rtc logger_step (pushed, g) (pushed, g').
Proof.
  revert g. induction n as [|n IH]; intros g; cbn [flusher_steps]; [by intros [= ->]|].
  intros (g1 & E1 & H)%bind_ok. eapply rtc_l; [by apply ls_flush|by apply IH].
Qed.
End LoggerThread.

(** The two classes. *)
Section Loggers.
Context {F : Type} `{!DoubleText F}.

Definition Logger_new : logger (LogElement F) := logger_new LOG_QUEUE_SIZE.
Definition Logger_step := logger_step (E := LogElement F) show_element true true.
Definition OptLogger_new : logger (OptLogElement F) := logger_new OPT_LOG_QUEUE_SIZE.
Definition OptLogger_step := logger_step (E := OptLogElement F) opt_show_element false false.

Definition OptLogger_dtor (g : logger (OptLogElement F)) : option (logger (OptLogElement F)) := dtor_step false false g.

(** The elements and the text of a sequence of calls. *)
Definition calls_elems (calls : list (string * list (log_arg F))) : list (LogElement F) :=
  concat ((λ '(s, args), log_elems s args) <$> calls).
Definition opt_calls_elems (calls : list (string * list (log_arg F))) : list (OptLogElement F) :=
  concat ((λ '(s, args), opt_log_elems s args) <$> calls).
Definition calls_text (limit : option nat) (calls : list (string * list (log_arg F))) : string :=
  concat_strings ((λ '(s, args), log_text limit s args) <$> calls).

Lemma show_calls calls : concat_strings (show_element <$> calls_elems calls) = calls_text None calls.
Proof.
  induction calls as [|[s args] calls IH]; [done|]. unfold calls_elems, calls_text in *. cbn.
  by rewrite fmap_app, concat_strings_app, show_log_elems, IH.
Qed.

Lemma opt_show_calls calls : concat_strings (opt_show_element <$> opt_calls_elems calls) = calls_text (Some 255%nat) calls.
Proof.
  induction calls as [|[s args] calls IH]; [done|]. unfold opt_calls_elems, calls_text in *. cbn.
  by rewrite fmap_app, concat_strings_app, show_opt_log_elems, IH.
Qed.

Lemma calls_text_short calls :
  Forall (λ '(_, args), Forall short_arg args) calls → calls_text (Some 255%nat) calls = calls_text None calls.
Proof.
  unfold calls_text. intros H. f_equal. induction H as [|[s args] calls Ha H IH]; [done|]. cbn. by rewrite log_text_short, IH.
Qed.
End Loggers.
