(* ===== verification/LatencyHistogram.v ===== *)
(** * The latency histogram.

    [Common::LatencyHistogram] of src/common/latency_histogram.h: 64 buckets of
    doubling width, the running count, sum, minimum and maximum, the percentile
    with linear interpolation inside a bucket, and the CSV dump.

    [hist_rep h vs] relates the members to the list [vs] of the values recorded
    since construction; [rank_value] is the reference definition of a
    percentile, the element of a given rank in the sorted list. *)

From Stdlib Require Import Ascii String QArith Qcanon Lqa.
From stdpp Require Import numbers gmap sorting strings pretty list.
From S2P Require Import Prelude Double Logging.

Open Scope Z_scope.
Local Coercion Z.of_nat : nat >-> Z.

Record LatencyHistogram := mkLatencyHistogram {
  lh_name_ : string;
  buckets_ : list Z;
  lh_count_ : Z;
  lh_sum_ : Z;
  lh_min_ : Z;
  lh_max_ : Z }.

Definition INT64_MAX : Z := 2 ^ 63 - 1.

Definition LatencyHistogram_new (name : string) : LatencyHistogram :=
  mkLatencyHistogram name (replicate 64 0) 0 0 INT64_MAX 0.

(** Leading zeros of a nonzero 64-bit word. *)
Definition builtin_clzll (v : Z) : Z := 63 - Z.log2 v.

(** [++buckets_[i]]; the index is not checked. *)
Definition bump_bucket (i : Z) (bs : list Z) : result (list Z) :=
  if i <? 0 then Err Undefined
  else match bs !! Z.to_nat i with
       | Some n => Ok (<[Z.to_nat i := u64 (n + 1)]> bs)
       | None => Err Undefined
       end.

Definition record (value : Z) (h : LatencyHistogram) : result LatencyHistogram :=
  let value := if value <? 0 then 0 else value in
  let max' := if lh_max_ h <? value then value else lh_max_ h in
  let min' := if value <? lh_min_ h then value else lh_min_ h in
  let sum' := u64 (lh_sum_ h + u64 value) in
  let count' := u64 (lh_count_ h + 1) in
  let bucket := if value =? 0 then 0 else 63 - builtin_clzll (u64 value) in
  let* buckets' := bump_bucket bucket (buckets_ h) in
  Ok (mkLatencyHistogram (lh_name_ h) buckets' count' sum' min' max').

Definition count (h : LatencyHistogram) : Z := lh_count_ h.
Definition min_of (h : LatencyHistogram) : Z := if lh_count_ h =? 0 then 0 else lh_min_ h.
Definition max_of (h : LatencyHistogram) : Z := lh_max_ h.

Section Percentile.
Context {F : Type} `{!Double F} `{!DoubleCast F}.
Implicit Types (h : LatencyHistogram).

Definition mean h : F :=
  if lh_count_ h =? 0 then d_of_Z 0 else (d_of_Z (lh_sum_ h) / d_of_Z (lh_count_ h))%D.

(** The value reported for the bucket [i] that holds the rank; shifting a 64-bit
    word by 64 is undefined. *)
Definition interpolate (i target cumulative b : Z) : result Z :=
  if i =? 0 then Ok 0
  else if 63 <=? i then Err Undefined
  else
    let low := u64 (Z.shiftl 1 i) in
    let high := u64 (Z.shiftl 1 (i + 1)) in
    let prev := u64 (cumulative - b) in
    let frac : F := if 0 <? b then (d_of_Z (u64 (target - prev)) / d_of_Z b)%D else d_of_Z 0 in
    cast_int64 (d_of_Z low + frac * d_of_Z (u64 (high - low)))%D.

Fixpoint percentile_scan (max_value target : Z) (bs : list Z) (i cumulative : Z) : result Z :=
  match bs with
  | [] => Ok max_value
  | b :: bs =>
      let cumulative := u64 (cumulative + b) in
      if target <=? cumulative then interpolate i target cumulative b
      else percentile_scan max_value target bs (i + 1) cumulative
  end.

Definition percentile (p : F) h : result Z :=
  if lh_count_ h =? 0 then Ok 0 else
  let p := if (p <? d_of_Z 0)%D then d_of_Z 0 else p in
  let p := if (d_of_Z 1 <? p)%D then d_of_Z 1 else p in
  let* target := cast_uint64 (p * d_of_Z (lh_count_ h))%D in
  percentile_scan (lh_max_ h) target (buckets_ h) 0 0.

(** [dumpCsv] into a file that could be opened. *)
Definition newline : string := String (ascii_of_nat 10) EmptyString.

Definition ratio (n d : Z) : F := (d_of_Z n / d_of_Z d)%D.

(** The loop over the nonempty buckets: low, high and count of each.  Bucket 63,
    whose upper end a 64-bit word does not hold, stays empty: a recorded value is
    below 2^63. *)
Fixpoint bucket_rows (bs : list Z) (i : Z) : list (Z * Z * Z) :=
  match bs with
  | [] => []
  | b :: bs =>
      if b =? 0 then bucket_rows bs (i + 1)
      else (if i =? 0 then 0 else u64 (Z.shiftl 1 i), u64 (Z.shiftl 1 (i + 1)), b) :: bucket_rows bs (i + 1)
  end.

Definition show_row '((low, high, b) : Z * Z * Z) : string :=
  pretty low +:+ "," +:+ pretty high +:+ "," +:+ pretty b +:+ newline.

Definition dumpCsv `{!DoubleText F} h : result string :=
  let* p50 := percentile (ratio 50 100) h in
  let* p90 := percentile (ratio 90 100) h in
  let* p99 := percentile (ratio 99 100) h in
  let* p999 := percentile (ratio 999 1000) h in
  let* p9999 := percentile (ratio 9999 10000) h in
  Ok (concat_strings
        [ "# tag," +:+ lh_name_ h +:+ newline;
          "# count," +:+ pretty (lh_count_ h) +:+ newline;
          "# min," +:+ pretty (min_of h) +:+ newline;
          "# max," +:+ pretty (lh_max_ h) +:+ newline;
          "# mean," +:+ d_show (mean h) +:+ newline;
          "# p50," +:+ pretty p50 +:+ newline;
          "# p90," +:+ pretty p90 +:+ newline;
          "# p99," +:+ pretty p99 +:+ newline;
          "# p999," +:+ pretty p999 +:+ newline;
          "# p9999," +:+ pretty p9999 +:+ newline;
          "bucket_low,bucket_high,count" +:+ newline;
          concat_strings (show_row <$> bucket_rows (buckets_ h) 0) ]).

(** [TradeEngine::dumpLatencyHistograms]: one file per histogram. *)
Definition dumpLatencyHistograms `{!DoubleText F} (client_id : Z) (hists : list LatencyHistogram)
    : list (string * result string) :=
  (λ h, ("latency_" +:+ pretty client_id +:+ "_" +:+ lh_name_ h +:+ ".hgrm", dumpCsv h)) <$> hists.
End Percentile.

(** A history of observations. *)
Fixpoint record_all (vs : list Z) (h : LatencyHistogram) : result LatencyHistogram :=
  match vs with
  | [] => Ok h
  | v :: vs => let* h := record v h in record_all vs h
  end.

(** ** Reference definitions *)

(** The bucket of a value: bucket 0 holds 0 and 1, bucket [i] the values in
    [2 ^ i, 2 ^ (i + 1)). *)
Definition bucket_of (v : Z) : Z := Z.log2 v.
Definition in_bucket (i : Z) (vs : list Z) : nat := length (filter (λ v, bucket_of v = i) vs).
Definition up_to_bucket (i : Z) (vs : list Z) : nat := length (filter (λ v, bucket_of v ≤ i) vs).

Definition list_max (vs : list Z) : Z := foldr Z.max 0 vs.
Definition list_min (vs : list Z) : Z := foldr Z.min INT64_MAX vs.
Definition list_sum (vs : list Z) : Z := foldr Z.add 0 vs.

(** [v] is the [k]-th smallest of [vs], counting from 1. *)
Definition rank_value (vs : list Z) (k : Z) (v : Z) : Prop :=
  ∃ ws, ws ≡ₚ vs ∧ StronglySorted Z.le ws ∧ 0 < k ∧ ws !! Z.to_nat (k - 1) = Some v.

Record hist_rep (h : LatencyHistogram) (vs : list Z) : Prop := {
  hr_range : Forall (λ v, 0 ≤ v < 2 ^ 63) vs;
  hr_few : length vs < 2 ^ 64;
  hr_count : lh_count_ h = length vs;
  hr_sum : lh_sum_ h = u64 (list_sum vs);
  hr_min : lh_min_ h = list_min vs;
  hr_max : lh_max_ h = list_max vs;
  hr_length : length (buckets_ h) = 64%nat;
  hr_buckets : ∀ i : nat, (i < 64)%nat → buckets_ h !! i = Some (Z.of_nat (in_bucket i vs)) }.

(** ** The members follow the history *)

Lemma in_bucket_cons i v vs :
  in_bucket i (v :: vs) = ((if decide (bucket_of v = i) then 1 else 0) + in_bucket i vs)%nat.
Proof. unfold in_bucket. rewrite filter_cons. by case_decide. Qed.

Lemma in_bucket_le i vs : (in_bucket i vs ≤ length vs)%nat.
Proof. apply length_filter. Qed.

Lemma bucket_of_range v : 0 ≤ v < 2 ^ 63 → 0 ≤ bucket_of v < 63.
Proof.
  intros [H0 H1]. split; [apply Z.log2_nonneg|]. destruct (decide (v = 0)) as [->|]; [done|].
  apply Z.log2_lt_pow2; lia.
Qed.

Lemma record_bucket v : 0 ≤ v < 2 ^ 63 → (if v =? 0 then 0 else 63 - builtin_clzll (u64 v)) = bucket_of v.
Proof.
  intros Hv. unfold builtin_clzll, wrap, bucket_of. rewrite Z.mod_small by lia.
  destruct (Z.eqb_spec v 0) as [->|]; [done|]. lia.
Qed.

Lemma bump_bucket_ok i bs n :
  0 ≤ i → bs !! Z.to_nat i = Some n → bump_bucket i bs = Ok (<[Z.to_nat i := u64 (n + 1)]> bs).
Proof. intros Hi Hn. unfold bump_bucket. by rewrite (proj2 (Z.ltb_ge _ _)), Hn by done. Qed.

Lemma hist_rep_new name : hist_rep (LatencyHistogram_new name) [].
Proof. split; try done. intros i Hi. by apply lookup_replicate_2. Qed.

Lemma record_ok h vs v :
  hist_rep h vs → - 2 ^ 63 ≤ v < 2 ^ 63 → length vs + 1 < 2 ^ 64 →
  ∃ h', record v h = Ok h' ∧ hist_rep h' (Z.max 0 v :: vs) ∧ lh_name_ h' = lh_name_ h.
Proof.
  intros [Hr Hf Hc Hs Hmin Hmax Hl Hb] Hv Hn. unfold record.
  replace (if v <? 0 then 0 else v) with (Z.max 0 v) by (destruct (Z.ltb_spec v 0); lia).
  assert (0 ≤ Z.max 0 v < 2 ^ 63) as Hw by lia. revert Hw. generalize (Z.max 0 v). clear v Hv.
  intros v Hv. cbv zeta. rewrite record_bucket by done. pose proof (bucket_of_range v Hv) as Hbk.
  pose proof (Hb (Z.to_nat (bucket_of v)) ltac:(lia)) as Hlk.
  rewrite (bump_bucket_ok _ _ _ (proj1 Hbk) Hlk). cbn [rbind]. eexists. split; [done|]. split; [|done].
  pose proof (in_bucket_le (bucket_of v) vs) as Hle. rewrite Z2Nat.id by lia.
  split; simpl; rewrite ?length_insert; try done.
  - by constructor.
  - lia.
  - rewrite Hc. unfold wrap. rewrite Z.mod_small; lia.
  - rewrite Hs. unfold wrap. rewrite Zplus_mod_idemp_l, Zplus_mod_idemp_r. f_equal. lia.
  - rewrite Hmin. unfold list_min. simpl. destruct (Z.ltb_spec v (foldr Z.min INT64_MAX vs)); lia.
  - rewrite Hmax. unfold list_max. simpl. destruct (Z.ltb_spec (foldr Z.max 0 vs) v); lia.
  - intros i Hi. rewrite in_bucket_cons. destruct (decide (i = Z.to_nat (bucket_of v))) as [->|Hne].
    + rewrite list_lookup_insert_eq by lia. rewrite Z2Nat.id, decide_True by lia.
      f_equal. unfold wrap. rewrite Z.mod_small; lia.
    + rewrite list_lookup_insert_ne by done. rewrite decide_False by lia. by apply Hb.
Qed.

Lemma record_all_ok vs ws h :
  hist_rep h ws → Forall (λ v, - 2 ^ 63 ≤ v < 2 ^ 63) vs → length ws + length vs < 2 ^ 64 →
  ∃ h', record_all vs h = Ok h' ∧ hist_rep h' (reverse (Z.max 0 <$> vs) ++ ws).
Proof.
  intros Hh Hvs. revert h ws Hh. induction Hvs as [|v vs Hv Hvs IH]; intros h ws Hh Hn; simpl in *.
  { by exists h. }
  destruct (record_ok h ws v Hh Hv ltac:(lia)) as (h1 & -> & H1 & _). cbn [rbind].
  destruct (IH h1 _ H1 ltac:(simpl; lia)) as (h2 & -> & H2). exists h2. split; [done|].
  rewrite reverse_cons, <- (assoc_L (++)). exact H2.
Qed.

(** The order of the observations does not matter. *)
Lemma hist_rep_perm h vs ws : vs ≡ₚ ws → hist_rep h vs → hist_rep h ws.
Proof.
  intros Hp [H1 H2 H3 H4 H5 H6 H7 H8].
  assert (list_sum vs = list_sum ws ∧ list_min vs = list_min ws ∧ list_max vs = list_max ws) as (E1 & E2 & E3).
  { clear - Hp. unfold list_sum, list_min, list_max. induction Hp; simpl in *; lia. }
  split; rewrite <- ?Hp, <- ?E1, <- ?E2, <- ?E3; try done.
  intros i Hi. rewrite H8 by done. do 2 f_equal. unfold in_bucket. by rewrite Hp.
Qed.

(** ** Ranks and cumulative counts *)

Lemma up_to_bucket_succ i vs : up_to_bucket (i + 1) vs = (up_to_bucket i vs + in_bucket (i + 1) vs)%nat.
Proof.
  unfold up_to_bucket, in_bucket. induction vs as [|v vs IH]; [done|].
  rewrite !filter_cons. repeat case_decide; simpl; lia.
Qed.

Lemma up_to_bucket_neg vs : up_to_bucket (-1) vs = 0%nat.
Proof.
  unfold up_to_bucket. induction vs as [|v vs IH]; [done|]. rewrite filter_cons, decide_False; [done|].
  unfold bucket_of. pose proof (Z.log2_nonneg v). lia.
Qed.

Lemma up_to_bucket_all vs i : Forall (λ v, bucket_of v ≤ i) vs → up_to_bucket i vs = length vs.
Proof.
  intros Hv. unfold up_to_bucket. induction Hv as [|v vs Hv _ IH]; [done|].
  rewrite filter_cons_True by done. simpl. lia.
Qed.

(** In a sorted list the elements of the first [i] buckets come first. *)
Lemma sorted_rank i ws (k : nat) v :
  StronglySorted Z.le ws → ws !! k = Some v → (k < up_to_bucket i ws)%nat ↔ bucket_of v ≤ i.
Proof.
  intros Hs. revert k. induction Hs as [|w ws Hs IH Hw]; intros k Hk; [done|].
  unfold up_to_bucket in *. rewrite filter_cons. destruct k as [|k]; simpl in Hk.
  - simplify_eq. case_decide as Hd; simpl; split; intros H; try lia.
    assert (filter (λ v, bucket_of v ≤ i) ws = []) as E.
    { rewrite Forall_forall in Hw. destruct (filter _ ws) as [|x xs] eqn:Ef; [done|].
      assert (x ∈ filter (λ v, bucket_of v ≤ i) ws) as [Hbx Hx]%list_elem_of_filter by (rewrite Ef; left).
      destruct Hd. etrans; [|exact Hbx]. by apply Z.log2_le_mono, Hw. }
    rewrite E in H. simpl in H. lia.
  - specialize (IH k Hk). case_decide as Hd; simpl; [rewrite <- IH; lia|].
    rewrite <- IH. split; intros H; [lia|]. apply IH in H. destruct Hd. etrans; [|exact H].
    rewrite Forall_forall in Hw. apply Z.log2_le_mono, Hw. by eapply list_elem_of_lookup_2.
Qed.

Lemma rank_bucket vs k v i :
  rank_value vs k v → up_to_bucket (i - 1) vs < k ≤ up_to_bucket i vs → bucket_of v = i.
Proof.
  intros (ws & Hp & Hs & Hk0 & Hk) Hi.
  assert (∀ j, up_to_bucket j vs = up_to_bucket j ws) as E.
  { intros j. unfold up_to_bucket. by rewrite Hp. }
  rewrite !E in Hi. pose proof (sorted_rank i ws _ v Hs Hk). pose proof (sorted_rank (i - 1) ws _ v Hs Hk). lia.
Qed.

(** Every rank from 1 to the number of values has its value. *)
Lemma rank_value_exists vs k : 0 < k ≤ length vs → ∃ v, rank_value vs k v.
Proof.
  intros Hk. pose proof (merge_sort_Permutation Z.le vs) as Hp.
  destruct (lookup_lt_is_Some_2 (merge_sort Z.le vs) (Z.to_nat (k - 1))) as [v Hv].
  { rewrite Hp. lia. }
  exists v, (merge_sort Z.le vs). split_and!; [done|apply (StronglySorted_merge_sort Z.le)|lia|done].
Qed.

(** ** The percentile, in exact arithmetic *)

(** [p] as [percentile] uses it, and the rank it asks for. *)
Definition clamp01 (p : Qc) : Qc :=
  let p := if Qc_ltb p 0 then 0%Qc else p in if Qc_ltb 1 p then 1%Qc else p.
Definition rank_of (p : Qc) (n : Z) : Z :=
  let x := (clamp01 p * Qc_of_Z n)%Qc in Z.quot (Qnum (this x)) (Zpos (Qden (this x))).

Lemma clamp01_unit (p : Qc) : (0 <= clamp01 p <= 1)%Qc.
Proof.
  unfold clamp01. destruct (Qc_ltb_spec p 0) as [H|H]; cbv zeta; [by split|].
  destruct (Qc_ltb_spec 1 p) as [H1|H1]; [by split|by split].
Qed.

Lemma rank_of_bounds p n : 0 ≤ n → 0 ≤ rank_of p n ≤ n.
Proof.
  intros Hn. destruct (clamp01_unit p) as [H0 H1].
  pose proof (Qc_mul_between (clamp01 p) (Qc_of_Z n) ltac:(rewrite <- Qc_of_Z_0; by apply Qc_of_Z_le) (conj H0 H1)) as [H2 H3].
  destruct (Qc_trunc (clamp01 p * Qc_of_Z n)%Qc 0 n) as (z & Hz & Hb); [done|by rewrite Qc_of_Z_0|done|].
  unfold d_to_Z, Qc_Cast in Hz. injection Hz as <-. exact Hb.
Qed.

(** The scan stops in the bucket where the cumulative count reaches the rank. *)
Lemma percentile_scan_ok vs max_value target (m : nat) :
  length vs < 2 ^ 64 → target ≤ up_to_bucket m vs →
  ∀ bs i, 0 ≤ i → i ≤ m → m < i + length bs →
  (∀ k : nat, (k < length bs)%nat → bs !! k = Some (Z.of_nat (in_bucket (i + k) vs))) →
  up_to_bucket (i - 1) vs < target →
  ∃ j, i ≤ j ≤ m ∧ up_to_bucket (j - 1) vs < target ≤ up_to_bucket j vs
    ∧ percentile_scan (F:=Qc) max_value target bs i (up_to_bucket (i - 1) vs)
      = interpolate (F:=Qc) j target (up_to_bucket j vs) (in_bucket j vs).
Proof.
  intros Hn Hm bs. induction bs as [|b bs IH]; intros i Hi Him Hlen Hbs Ht; simpl in Hlen; [lia|].
  pose proof (Hbs 0%nat ltac:(simpl; lia)) as Hb. simpl in Hb. rewrite Z.add_0_r in Hb. injection Hb as ->.
  pose proof (up_to_bucket_succ (i - 1) vs) as Hsucc. replace (i - 1 + 1) with i in Hsucc by lia.
  assert (up_to_bucket i vs ≤ length vs)%nat by apply length_filter.
  assert (u64 (up_to_bucket (i - 1) vs + in_bucket i vs) = up_to_bucket i vs) as Hc.
  { unfold wrap. rewrite Z.mod_small; lia. }
  cbn [percentile_scan]. cbv zeta. rewrite Hc. destruct (Z.leb_spec target (up_to_bucket i vs)) as [Hle|Hgt].
  - exists i. split_and!; try done; lia.
  - assert (i ≠ m) by (intros ->; lia).
    destruct (IH (i + 1)) as (j & Hj & Hup & Hsc); try lia.
    + intros k Hk. specialize (Hbs (S k) ltac:(simpl; lia)). simpl in Hbs. rewrite Hbs. do 3 f_equal. lia.
    + replace (i + 1 - 1) with i by lia. lia.
    + replace (i + 1 - 1) with i in Hsc by lia. exists j. split_and!; [lia..|exact Hsc].
Qed.

(** Inside bucket [j] the result stays between its bounds. *)
Lemma interpolate_ok j target cumulative b :
  0 ≤ j < 62 → 0 < b → cumulative - b < target ≤ cumulative → b ≤ cumulative < 2 ^ 64 →
  ∃ r, interpolate (F:=Qc) j target cumulative b = Ok r
    ∧ if j =? 0 then r = 0 else 2 ^ j ≤ r ≤ 2 ^ (j + 1).
Proof.
  intros Hj Hb Ht Hc. unfold interpolate. destruct (Z.eqb_spec j 0) as [|Hj0]; [by exists 0|].
  rewrite (proj2 (Z.leb_gt 63 j)) by lia. cbv zeta. rewrite (proj2 (Z.ltb_lt 0 b)) by done.
  rewrite !Z.shiftl_1_l. pose proof (Z.pow_pos_nonneg 2 j ltac:(lia) ltac:(lia)) as Hpos.
  pose proof (Z.pow_le_mono_r 2 j 61 ltac:(lia) ltac:(lia)) as Hlt. rewrite (Z.pow_add_r 2 j 1) by lia.
  set (w := 2 ^ j) in *. change (2 ^ 61) with 2305843009213693952 in Hlt.
  unfold wrap. rewrite (Z.mod_small w), (Z.mod_small (w * 2 ^ 1)), (Z.mod_small (cumulative - b)) by lia.
  rewrite (Z.mod_small (target - _)), (Z.mod_small (_ - w)) by lia. replace (w * 2 ^ 1 - w) with w by lia.
  replace (target - (cumulative - b)) with (target - cumulative + b) by lia.
  cbn [d_add d_mul d_div d_of_Z Qc_Double].
  assert (0 <= Qc_of_Z (target - cumulative + b) / Qc_of_Z b <= 1)%Qc as Hf.
  { apply Qc_div_between; rewrite <- ?Qc_of_Z_0; [by apply Qc_of_Z_lt|split; apply Qc_of_Z_le; lia]. }
  set (f := (_ / _)%Qc) in *. assert (0 <= Qc_of_Z w)%Qc as Hw by (rewrite <- Qc_of_Z_0; apply Qc_of_Z_le; lia).
  pose proof (Qc_mul_between f (Qc_of_Z w) Hw Hf) as [Hm0 Hm1].
  destruct (Qc_trunc (Qc_of_Z w + f * Qc_of_Z w)%Qc w (w * 2 ^ 1)) as (r & Hr & Hrb).
  1,2: qc_lra.
  { replace (w * 2 ^ 1) with (w + w) by lia. rewrite Qc_of_Z_add. qc_lra. }
  exists r. unfold cast_int64. rewrite Hr, int64_ok by lia. done.
Qed.

Lemma percentile_rank h vs (p : Qc) :
  hist_rep h vs → vs ≠ [] →
  percentile p h = percentile_scan (F:=Qc) (lh_max_ h) (rank_of p (length vs)) (buckets_ h) 0 0.
Proof.
  intros [_ Hf Hc _ _ _ _ _] Hne. assert (0 < length vs) as Hpos by (destruct vs; simpl; [done|lia]).
  pose proof (rank_of_bounds p (length vs) ltac:(lia)) as Hk.
  unfold percentile. rewrite Hc, (proj2 (Z.eqb_neq _ _)) by lia. set (k := rank_of p (length vs)) in *.
  change (rbind (if (0 <=? k) && (k <? 2 ^ 64) then Ok k else Err Undefined)
      (λ target, percentile_scan (F:=Qc) (lh_max_ h) target (buckets_ h) 0 0)
            = percentile_scan (F:=Qc) (lh_max_ h) k (buckets_ h) 0 0).
  by rewrite (proj2 (Z.leb_le _ _)), (proj2 (Z.ltb_lt _ _)) by lia.
Qed.

(** The reported percentile is within a factor of two of the value of its rank,
    values 0 and 1 being reported as 0. *)
Lemma percentile_ok h vs (p : Qc) :
  hist_rep h vs → vs ≠ [] → Forall (λ v, v < 2 ^ 62) vs →
  let k := rank_of p (length vs) in
  ∃ r, percentile p h = Ok r ∧ (k = 0 → r = 0)
    ∧ ∀ v, rank_value vs k v → if v <=? 1 then r = 0 else v < 2 * r ∧ r ≤ 2 * v.
Proof.
  intros Hh Hne Hsmall k. pose proof Hh as [Hr Hf _ _ _ _ Hl Hb].
  assert (0 < length vs) as Hpos by (destruct vs; simpl; [done|lia]).
  pose proof (rank_of_bounds p (length vs) ltac:(lia)) as Hk. fold k in Hk.
  rewrite (percentile_rank h vs p) by done. fold k.
  destruct (decide (k = 0)) as [Hk0|Hk0].
  { exists 0. split_and!; [|done|intros v (ws & _ & _ & ? & _); lia]. rewrite Hk0.
    destruct (buckets_ h) as [|b bs]; [done|]. cbn [percentile_scan]. cbv zeta.
    rewrite (proj2 (Z.leb_le _ _)); [done|]. unfold wrap. apply Z.mod_pos_bound. lia. }
  assert (up_to_bucket 61%nat vs = length vs) as Hall.
  { apply up_to_bucket_all. eapply Forall_impl; [exact (proj2 (Forall_and _ _) (conj Hr Hsmall))|].
    intros v [Hv1 Hv2]. unfold bucket_of. destruct (decide (v = 0)) as [->|]; [done|].
    enough (Z.log2 v < 62) by lia. apply Z.log2_lt_pow2; lia. }
  destruct (percentile_scan_ok vs (lh_max_ h) k 61 Hf ltac:(lia) (buckets_ h) 0) as (j & Hj & Hup & Hsc); try lia.
  { intros i Hi. rewrite Hb by lia. done. }
  { change (0 - 1) with (-1). rewrite up_to_bucket_neg. lia. }
  change (0 - 1) with (-1) in Hsc. rewrite up_to_bucket_neg in Hsc. change (Z.of_nat 0) with 0 in Hsc. rewrite Hsc.
  pose proof (up_to_bucket_succ (j - 1) vs) as Hsucc. replace (j - 1 + 1) with j in Hsucc by lia.
  assert (up_to_bucket j vs ≤ length vs)%nat by apply length_filter.
  destruct (interpolate_ok j k (up_to_bucket j vs) (in_bucket j vs)) as (r & -> & Hres); try lia.
  exists r. split_and!; [done|done|]. intros v Hv. rewrite <- (rank_bucket vs k v j Hv Hup) in Hres.
  unfold bucket_of in Hres. destruct (Z.leb_spec v 1) as [Hv1|Hv1].
  { by rewrite (proj2 (Z.log2_null v) Hv1) in Hres. }
  pose proof (Z.log2_pos v Hv1). rewrite (proj2 (Z.eqb_neq _ _)) in Hres by lia.
  pose proof (Z.log2_spec v ltac:(lia)) as Hlog. rewrite <- Z.add_1_r in Hlog.
  rewrite Z.pow_add_r in Hlog, Hres by lia. lia.
Qed.

(** ** The dump *)

Lemma bucket_bounds v i :
  0 ≤ v < 2 ^ 63 → 0 ≤ i < 63 → bucket_of v = i ↔ (if i =? 0 then 0 else 2 ^ i) ≤ v < 2 ^ (i + 1).
Proof.
  intros Hv Hi. unfold bucket_of. destruct (Z.eqb_spec i 0) as [->|Hne]; [rewrite Z.log2_null; lia|].
  pose proof (Z.pow_pos_nonneg 2 i ltac:(lia) ltac:(lia)).
  destruct (decide (v = 0)) as [->|]; [change (Z.log2 0) with 0; lia|].
  split; [intros <-; rewrite Z.add_1_r; apply Z.log2_spec; lia|].
  rewrite Z.add_1_r. intros H1. apply Z.log2_unique; lia.
Qed.

Lemma list_sum_cons v vs : list_sum (v :: vs) = v + list_sum vs.
Proof. done. Qed.

Lemma bucket_rows_ok vs : Forall (λ v, 0 ≤ v < 2 ^ 63) vs → ∀ bs i,
  0 ≤ i → i + length bs = 64 →
  (∀ k : nat, (k < length bs)%nat → bs !! k = Some (Z.of_nat (in_bucket (i + k) vs))) →
  Forall (λ '(low, high, b), 0 < b ∧ b = length (filter (λ v, low ≤ v < high) vs)) (bucket_rows bs i)
  ∧ up_to_bucket (i - 1) vs + list_sum (snd <$> bucket_rows bs i) = up_to_bucket 63 vs.
Proof.
  intros Hvs bs. induction bs as [|b bs IH]; intros i Hi Hlen Hbs; simpl in Hlen.
  { split; [constructor|]. assert (i = 64) as -> by lia. change (64 - 1) with 63. cbn. lia. }
  pose proof (Hbs 0%nat ltac:(simpl; lia)) as Hb. simpl in Hb. rewrite Z.add_0_r in Hb. injection Hb as ->.
  destruct (IH (i + 1)) as [IH1 IH2]; [lia..| |].
  { intros k Hk. specialize (Hbs (S k) ltac:(simpl; lia)). simpl in Hbs. rewrite Hbs. do 3 f_equal. lia. }
  pose proof (up_to_bucket_succ (i - 1) vs) as Hsucc. replace (i - 1 + 1) with i in Hsucc by lia.
  replace (i + 1 - 1) with i in IH2 by lia. cbn [bucket_rows].
  destruct (Z.eqb_spec (in_bucket i vs) 0) as [E|E]; [split; [done|lia]|].
  split; [|rewrite fmap_cons, list_sum_cons; cbn [snd]; lia]. constructor; [|done]. split; [lia|].
  assert (i < 63) as Hi63.
  { destruct (decide (i = 63)) as [->|]; [|lia]. destruct E. unfold in_bucket.
    destruct (filter _ vs) as [|x xs] eqn:Ef; [done|].
    assert (x ∈ filter (λ v, bucket_of v = 63) vs) as [Hbx Hx]%list_elem_of_filter by (rewrite Ef; left).
    rewrite Forall_forall in Hvs. pose proof (bucket_of_range x (Hvs x Hx)). lia. }
  unfold in_bucket. do 2 f_equal. rewrite !Z.shiftl_1_l.
  pose proof (Z.pow_le_mono_r 2 (i + 1) 63 ltac:(lia) ltac:(lia)). pose proof (Z.pow_pos_nonneg 2 (i + 1) ltac:(lia) ltac:(lia)).
  pose proof (Z.pow_le_mono_r 2 i 63 ltac:(lia) ltac:(lia)). pose proof (Z.pow_pos_nonneg 2 i ltac:(lia) ltac:(lia)).
  unfold wrap. rewrite !(Z.mod_small _ (2 ^ 64)) by lia.
  clear -Hvs Hi Hi63. induction Hvs as [|v vs Hv Hvs IH]; [done|]. rewrite !filter_cons, IH.
  pose proof (bucket_bounds v i Hv ltac:(lia)). do 2 case_decide; tauto.
Qed.

(** The rows of the dump partition the observations. *)
Lemma dump_rows_ok h vs :
  hist_rep h vs →
  Forall (λ '(low, high, b), 0 < b ∧ b = length (filter (λ v, low ≤ v < high) vs)) (bucket_rows (buckets_ h) 0)
  ∧ list_sum (snd <$> bucket_rows (buckets_ h) 0) = length vs.
Proof.
  intros [Hr Hf _ _ _ _ Hl Hb]. destruct (bucket_rows_ok vs Hr (buckets_ h) 0) as [H1 H2]; [done|lia| |].
  { intros k Hk. rewrite Hb by lia. done. }
  split; [done|]. change (0 - 1) with (-1) in H2. rewrite up_to_bucket_neg in H2.
  rewrite (up_to_bucket_all vs 63) in H2; [lia|]. eapply Forall_impl; [exact Hr|].
  intros v Hv. pose proof (bucket_of_range v Hv). lia.
Qed.

Lemma percentile_total h vs (p : Qc) : hist_rep h vs → Forall (λ v, v < 2 ^ 62) vs → ∃ r, percentile p h = Ok r.
Proof.
  intros Hh Hs. destruct (decide (vs = [])) as [->|Hne].
  - exists 0. unfold percentile. by rewrite (hr_count _ _ Hh).
  - destruct (percentile_ok h vs p Hh Hne Hs) as (r & Hr & _). by exists r.
Qed.

Lemma dumpCsv_total `{!DoubleText Qc} h vs :
  hist_rep h vs → Forall (λ v, v < 2 ^ 62) vs → is_ok (dumpCsv (F:=Qc) h).
Proof.
  intros Hh Hs. unfold dumpCsv.
  do 5 (match goal with |- context [percentile ?p h] => destruct (percentile_total h vs p Hh Hs) as [? ->]; cbn [rbind] end). by eexists.
Qed.
