(* ===== verification/Wire.v ===== *)
(** * The packed wire format and the byte buffers of the sockets.

    The messages travel as their in-memory representation: [#pragma pack(1)]
    structs of little-endian integers (src/exchange/order_server/client_request.h,
    client_response.h, src/exchange/market_data/market_update.h), written with
    [send(&msg, sizeof(msg))] and read with [reinterpret_cast].  [Wire] is the
    interface a message type offers; [parse_stream] is the receive loop shared by
    the order server, the order gateway and the market data consumer, which
    leaves a partial trailing message in the buffer.  [TCPSocket] is the buffer
    logic of src/common/tcp_socket.cpp. *)

From stdpp Require Import gmap list.
From S2P Require Import Prelude Types.

Open Scope Z_scope.
Local Coercion Z.of_nat : nat >-> Z.

(** A byte is a [Z] in [0, 256). *)
Abbreviation bytes := (list Z).

(** ** Little-endian integers *)

Fixpoint le_encode (n : nat) (z : Z) : bytes :=
  match n with O => [] | S n => z `mod` 256 :: le_encode n (z `div` 256) end.

Fixpoint le_decode (bs : bytes) : Z :=
  match bs with [] => 0 | b :: bs => b + 256 * le_decode bs end.

Lemma length_le_encode n z : length (le_encode n z) = n.
Proof. revert z. induction n as [|n IH]; intros z; simpl; [done|]. by rewrite IH. Qed.

Lemma le_decode_encode (n : nat) z : 0 ≤ z < 256 ^ n → le_decode (le_encode n z) = z.
Proof.
  revert z. induction n as [|n IH]; intros z Hz; simpl.
  - change (256 ^ 0%nat) with 1 in Hz. lia.
  - rewrite Nat2Z.inj_succ, Z.pow_succ_r in Hz by lia. rewrite IH.
    + pose proof (Z.div_mod z 256). lia.
    + split; [apply Z.div_pos; lia|]. apply Z.div_lt_upper_bound; lia.
Qed.

(** Every width the structs use. *)
Definition u8_enc (z : Z) : bytes := le_encode 1 z.
Definition u32_enc (z : Z) : bytes := le_encode 4 z.
Definition u64_enc (z : Z) : bytes := le_encode 8 z.
(** Two's complement. *)
Definition i64_enc (z : Z) : bytes := le_encode 8 (u64 z).
Definition i64_dec (bs : bytes) : Z := i64 (le_decode bs).

Lemma i64_roundtrip z : - 2 ^ 63 ≤ z < 2 ^ 63 → i64_dec (i64_enc z) = z.
Proof.
  intros Hz. unfold i64_dec, i64_enc. rewrite le_decode_encode.
  - unfold swrap, wrap. rewrite Zplus_mod_idemp_l, Z.mod_small; lia.
  - unfold wrap. change (256 ^ 8%nat) with (2 ^ 64). apply Z.mod_pos_bound. lia.
Qed.

(** ** Enumerations, by their underlying values

    A byte that names no enumerator is carried as [INVALID]: the code tests such
    values only against the proper enumerators. *)

Definition ClientRequestType_enc (t : ClientRequestType) : Z :=
  match t with Req_INVALID => 0 | Req_NEW => 1 | Req_CANCEL => 2 end.
Definition ClientRequestType_dec (z : Z) : ClientRequestType :=
  if z =? 1 then Req_NEW else if z =? 2 then Req_CANCEL else Req_INVALID.

Definition ClientResponseType_enc (t : ClientResponseType) : Z :=
  match t with
  | Resp_INVALID => 0 | ACCEPTED => 1 | CANCELED => 2 | FILLED => 3 | CANCEL_REJECTED => 4
  end.
Definition ClientResponseType_dec (z : Z) : ClientResponseType :=
  if z =? 1 then ACCEPTED else if z =? 2 then CANCELED else if z =? 3 then FILLED
  else if z =? 4 then CANCEL_REJECTED else Resp_INVALID.

Definition MarketUpdateType_enc (t : MarketUpdateType) : Z :=
  match t with
  | MU_INVALID => 0 | MU_CLEAR => 1 | MU_ADD => 2 | MU_MODIFY => 3 | MU_CANCEL => 4
  | MU_TRADE => 5 | MU_SNAPSHOT_START => 6 | MU_SNAPSHOT_END => 7
  end.
Definition MarketUpdateType_dec (z : Z) : MarketUpdateType :=
  if z =? 1 then MU_CLEAR else if z =? 2 then MU_ADD else if z =? 3 then MU_MODIFY
  else if z =? 4 then MU_CANCEL else if z =? 5 then MU_TRADE else if z =? 6 then MU_SNAPSHOT_START
  else if z =? 7 then MU_SNAPSHOT_END else MU_INVALID.

(** [Side] has underlying type [int8_t]: [SELL] is the byte 255. *)
Definition Side_enc (s : Side) : Z :=
  match s with Side_INVALID => 0 | BUY => 1 | SELL => 255 | Side_MAX => 2 end.
Definition Side_dec (z : Z) : Side :=
  if z =? 1 then BUY else if z =? 255 then SELL else if z =? 2 then Side_MAX else Side_INVALID.

(** ** Messages *)

Class Wire (M : Type) := {
  wire_size : nat;
  encode : M → bytes;
  decode : bytes → M;
  wire_wf : M → Prop }.

Class WireLaws (M : Type) `{!Wire M} := {
  wire_size_pos : (0 < wire_size)%nat;
  length_encode (m : M) : length (encode m) = wire_size;
  decode_encode (m : M) : wire_wf m → decode (encode m) = m }.

(** The bytes [i .. i + n) of a message. *)
Definition field (i n : nat) (bs : bytes) : bytes := take n (drop i bs).

Definition req_wf (r : MEClientRequest) : Prop :=
  0 ≤ req_client_id_ r < 2 ^ 32 ∧ 0 ≤ req_ticker_id_ r < 2 ^ 32 ∧ 0 ≤ req_order_id_ r < 2 ^ 64
  ∧ - 2 ^ 63 ≤ req_price_ r < 2 ^ 63 ∧ 0 ≤ req_qty_ r < 2 ^ 32.

Definition encode_request (r : MEClientRequest) : bytes :=
  u8_enc (ClientRequestType_enc (req_type_ r)) ++ u32_enc (req_client_id_ r)
  ++ u32_enc (req_ticker_id_ r) ++ u64_enc (req_order_id_ r) ++ u8_enc (Side_enc (req_side_ r))
  ++ i64_enc (req_price_ r) ++ u32_enc (req_qty_ r).

Definition decode_request (bs : bytes) : MEClientRequest :=
  mkMEClientRequest (ClientRequestType_dec (le_decode (field 0 1 bs))) (le_decode (field 1 4 bs))
    (le_decode (field 5 4 bs)) (le_decode (field 9 8 bs)) (Side_dec (le_decode (field 17 1 bs)))
    (i64_dec (field 18 8 bs)) (le_decode (field 26 4 bs)).

#[export] Instance OMClientRequest_wire : Wire OMClientRequest := {
  wire_size := 38;
  encode r := u64_enc (omreq_seq_num_ r) ++ encode_request (me_client_request_ r);
  decode bs := mkOMClientRequest (le_decode (field 0 8 bs)) (decode_request (drop 8 bs));
  wire_wf r := 0 ≤ omreq_seq_num_ r < 2 ^ 64 ∧ req_wf (me_client_request_ r) }.

Definition resp_wf (r : MEClientResponse) : Prop :=
  0 ≤ resp_client_id_ r < 2 ^ 32 ∧ 0 ≤ resp_ticker_id_ r < 2 ^ 32
  ∧ 0 ≤ resp_client_order_id_ r < 2 ^ 64 ∧ 0 ≤ resp_market_order_id_ r < 2 ^ 64
  ∧ - 2 ^ 63 ≤ resp_price_ r < 2 ^ 63 ∧ 0 ≤ resp_exec_qty_ r < 2 ^ 32
  ∧ 0 ≤ resp_leaves_qty_ r < 2 ^ 32.

Definition encode_response (r : MEClientResponse) : bytes :=
  u8_enc (ClientResponseType_enc (resp_type_ r)) ++ u32_enc (resp_client_id_ r)
  ++ u32_enc (resp_ticker_id_ r) ++ u64_enc (resp_client_order_id_ r)
  ++ u64_enc (resp_market_order_id_ r) ++ u8_enc (Side_enc (resp_side_ r))
  ++ i64_enc (resp_price_ r) ++ u32_enc (resp_exec_qty_ r) ++ u32_enc (resp_leaves_qty_ r).

Definition decode_response (bs : bytes) : MEClientResponse :=
  mkMEClientResponse (ClientResponseType_dec (le_decode (field 0 1 bs))) (le_decode (field 1 4 bs))
    (le_decode (field 5 4 bs)) (le_decode (field 9 8 bs)) (le_decode (field 17 8 bs))
    (Side_dec (le_decode (field 25 1 bs))) (i64_dec (field 26 8 bs)) (le_decode (field 34 4 bs))
    (le_decode (field 38 4 bs)).

#[export] Instance OMClientResponse_wire : Wire OMClientResponse := {
  wire_size := 50;
  encode r := u64_enc (omresp_seq_num_ r) ++ encode_response (me_client_response_ r);
  decode bs := mkOMClientResponse (le_decode (field 0 8 bs)) (decode_response (drop 8 bs));
  wire_wf r := 0 ≤ omresp_seq_num_ r < 2 ^ 64 ∧ resp_wf (me_client_response_ r) }.

Definition update_wf (u : MEMarketUpdate) : Prop :=
  0 ≤ mu_order_id_ u < 2 ^ 64 ∧ 0 ≤ mu_ticker_id_ u < 2 ^ 32
  ∧ - 2 ^ 63 ≤ mu_price_ u < 2 ^ 63 ∧ 0 ≤ mu_qty_ u < 2 ^ 32 ∧ 0 ≤ mu_priority_ u < 2 ^ 64.

Definition encode_update (u : MEMarketUpdate) : bytes :=
  u8_enc (MarketUpdateType_enc (mu_type_ u)) ++ u64_enc (mu_order_id_ u)
  ++ u32_enc (mu_ticker_id_ u) ++ u8_enc (Side_enc (mu_side_ u)) ++ i64_enc (mu_price_ u)
  ++ u32_enc (mu_qty_ u) ++ u64_enc (mu_priority_ u).

Definition decode_update (bs : bytes) : MEMarketUpdate :=
  mkMEMarketUpdate (MarketUpdateType_dec (le_decode (field 0 1 bs))) (le_decode (field 1 8 bs))
    (le_decode (field 9 4 bs)) (Side_dec (le_decode (field 13 1 bs))) (i64_dec (field 14 8 bs))
    (le_decode (field 22 4 bs)) (le_decode (field 26 8 bs)).

#[export] Instance MDPMarketUpdate_wire : Wire MDPMarketUpdate := {
  wire_size := 42;
  encode u := u64_enc (mdp_seq_num_ u) ++ encode_update (me_market_update_ u);
  decode bs := mkMDPMarketUpdate (le_decode (field 0 8 bs)) (decode_update (drop 8 bs));
  wire_wf u := 0 ≤ mdp_seq_num_ u < 2 ^ 64 ∧ update_wf (me_market_update_ u) }.

(** ** Round trips *)

Lemma field_here n z bs : field 0 n (le_encode n z ++ bs) = le_encode n z.
Proof. unfold field. rewrite drop_0. apply take_app_length'. by rewrite length_le_encode. Qed.

Lemma field_last n z : field 0 n (le_encode n z) = le_encode n z.
Proof. rewrite <- (app_nil_r (le_encode n z)) at 1. apply field_here. Qed.

Lemma field_skip m z i n bs : field (m + i) n (le_encode m z ++ bs) = field i n bs.
Proof.
  unfold field. f_equal. rewrite <- drop_drop. f_equal. apply drop_app_length'.
  by rewrite length_le_encode.
Qed.

Lemma enum_byte z : 0 ≤ z < 256 → le_decode (u8_enc z) = z.
Proof. intros. by apply le_decode_encode. Qed.

Lemma Side_roundtrip s : Side_dec (le_decode (u8_enc (Side_enc s))) = s.
Proof. by destruct s. Qed.
Lemma ClientRequestType_roundtrip t : ClientRequestType_dec (le_decode (u8_enc (ClientRequestType_enc t))) = t.
Proof. by destruct t. Qed.
Lemma ClientResponseType_roundtrip t : ClientResponseType_dec (le_decode (u8_enc (ClientResponseType_enc t))) = t.
Proof. by destruct t. Qed.
Lemma MarketUpdateType_roundtrip t : MarketUpdateType_dec (le_decode (u8_enc (MarketUpdateType_enc t))) = t.
Proof. by destruct t. Qed.

(** Skipping the fields before the one wanted, width by width. *)
Ltac skip_field :=
  match goal with
  | |- context [field ?i ?n (le_encode ?m ?z ++ ?bs)] =>
      let i' := eval cbv in (i - m)%nat in
      change (field i n (le_encode m z ++ bs)) with (field (m + i') n (le_encode m z ++ bs));
      rewrite (field_skip m z i' n bs)
  end.
Ltac get_fields :=
  repeat (rewrite field_here || rewrite field_last || skip_field).

Lemma decode_encode_request r : req_wf r → decode_request (encode_request r) = r.
Proof.
  intros (H1 & H2 & H3 & H4 & H5). unfold decode_request, encode_request, i64_dec.
  unfold u8_enc, u32_enc, u64_enc, i64_enc. get_fields.
  fold (u8_enc (ClientRequestType_enc (req_type_ r))) (u8_enc (Side_enc (req_side_ r))).
  fold (i64_enc (req_price_ r)). fold (i64_dec (i64_enc (req_price_ r))).
  rewrite ClientRequestType_roundtrip, Side_roundtrip, i64_roundtrip, !le_decode_encode by done.
  by destruct r.
Qed.

Lemma decode_encode_response r : resp_wf r → decode_response (encode_response r) = r.
Proof.
  intros (H1 & H2 & H3 & H4 & H5 & H6 & H7). unfold decode_response, encode_response, i64_dec.
  unfold u8_enc, u32_enc, u64_enc, i64_enc. get_fields.
  fold (u8_enc (ClientResponseType_enc (resp_type_ r))) (u8_enc (Side_enc (resp_side_ r))).
  fold (i64_enc (resp_price_ r)). fold (i64_dec (i64_enc (resp_price_ r))).
  rewrite ClientResponseType_roundtrip, Side_roundtrip, i64_roundtrip, !le_decode_encode by done.
  by destruct r.
Qed.

Lemma decode_encode_update u : update_wf u → decode_update (encode_update u) = u.
Proof.
  intros (H1 & H2 & H3 & H4 & H5). unfold decode_update, encode_update, i64_dec.
  unfold u8_enc, u32_enc, u64_enc, i64_enc. get_fields.
  fold (u8_enc (MarketUpdateType_enc (mu_type_ u))) (u8_enc (Side_enc (mu_side_ u))).
  fold (i64_enc (mu_price_ u)). fold (i64_dec (i64_enc (mu_price_ u))).
  rewrite MarketUpdateType_roundtrip, Side_roundtrip, i64_roundtrip, !le_decode_encode by done.
  by destruct u.
Qed.

Lemma drop_u64_enc z bs : drop 8 (u64_enc z ++ bs) = bs.
Proof. apply drop_app_length'. unfold u64_enc. by rewrite length_le_encode. Qed.

#[export] Instance OMClientRequest_laws : WireLaws OMClientRequest.
Proof.
  split; cbn [wire_size encode decode wire_wf OMClientRequest_wire]; [lia|..].
  - intros m. unfold encode_request, u8_enc, u32_enc, u64_enc, i64_enc. by rewrite !length_app, !length_le_encode.
  - intros [seq r] [Hs Hr]. cbn [omreq_seq_num_ me_client_request_ omresp_seq_num_ me_client_response_ mdp_seq_num_ me_market_update_] in *.
    rewrite drop_u64_enc, decode_encode_request by done.
    unfold u64_enc. by rewrite field_here, le_decode_encode.
Qed.

#[export] Instance OMClientResponse_laws : WireLaws OMClientResponse.
Proof.
  split; cbn [wire_size encode decode wire_wf OMClientResponse_wire]; [lia|..].
  - intros m. unfold encode_response, u8_enc, u32_enc, u64_enc, i64_enc. by rewrite !length_app, !length_le_encode.
  - intros [seq r] [Hs Hr]. cbn [omreq_seq_num_ me_client_request_ omresp_seq_num_ me_client_response_ mdp_seq_num_ me_market_update_] in *.
    rewrite drop_u64_enc, decode_encode_response by done.
    unfold u64_enc. by rewrite field_here, le_decode_encode.
Qed.

#[export] Instance MDPMarketUpdate_laws : WireLaws MDPMarketUpdate.
Proof.
  split; cbn [wire_size encode decode wire_wf MDPMarketUpdate_wire]; [lia|..].
  - intros m. unfold encode_update, u8_enc, u32_enc, u64_enc, i64_enc. by rewrite !length_app, !length_le_encode.
  - intros [seq r] [Hs Hr]. cbn [omreq_seq_num_ me_client_request_ omresp_seq_num_ me_client_response_ mdp_seq_num_ me_market_update_] in *.
    rewrite drop_u64_enc, decode_encode_update by done.
    unfold u64_enc. by rewrite field_here, le_decode_encode.
Qed.

(** ** The receive loop *)

Section Stream.
Context {M : Type} `{!Wire M} `{!WireLaws M}.
Implicit Types (ms : list M) (bs r : bytes).

(** [for (; i + sizeof(M) <= next_rcv_valid_index_; i += sizeof(M))] and the
    [memmove] of the remainder to the front of the buffer. *)
Fixpoint parse_loop (fuel : nat) bs : list M * bytes :=
  match fuel with
  | O => ([], bs)
  | S fuel =>
      if (wire_size (M := M) <=? length bs)%nat then
        let '(ms, r) := parse_loop fuel (drop (wire_size (M := M)) bs) in
        (decode (take (wire_size (M := M)) bs) :: ms, r)
      else ([], bs)
  end.
Definition parse_stream bs : list M * bytes := parse_loop (length bs) bs.

Lemma parse_loop_fuel fuel bs :
  (length bs ≤ fuel)%nat → parse_loop fuel bs = parse_stream bs.
Proof.
  unfold parse_stream. pose proof (wire_size_pos (M := M)) as Hpos.
  assert (∀ f g cs, (length cs ≤ f)%nat → (length cs ≤ g)%nat → parse_loop f cs = parse_loop g cs) as Heq.
  { induction f as [|f IH]; intros g cs Hf Hg.
    - destruct cs; [|simpl in Hf; lia]. destruct g; simpl; [done|].
      destruct (Nat.leb_spec (wire_size (M := M)) 0); [lia|done].
    - destruct g as [|g].
      + destruct cs; [|simpl in Hg; lia]. simpl.
        destruct (Nat.leb_spec (wire_size (M := M)) 0); [lia|done].
      + simpl. destruct (Nat.leb_spec (wire_size (M := M)) (length cs)); [|done].
        rewrite (IH g); [done|rewrite length_drop; lia..]. }
  intros Hf. by apply Heq.
Qed.

Lemma parse_stream_unfold bs :
  parse_stream bs =
  if (wire_size (M := M) <=? length bs)%nat then
    let '(ms, r) := parse_stream (drop (wire_size (M := M)) bs) in
    (decode (take (wire_size (M := M)) bs) :: ms, r)
  else ([], bs).
Proof.
  pose proof (wire_size_pos (M := M)). unfold parse_stream at 1.
  destruct (length bs) as [|n] eqn:E.
  - simpl. destruct (Nat.leb_spec (wire_size (M := M)) 0); [lia|done].
  - simpl. rewrite parse_loop_fuel; [by rewrite E|]. rewrite length_drop. lia.
Qed.

(** The remainder is always shorter than a message. *)
Lemma parse_stream_rest bs : (length (parse_stream bs).2 < wire_size (M := M))%nat.
Proof.
  induction bs as [bs IH] using (induction_ltof1 _ length). unfold ltof in IH.
  rewrite parse_stream_unfold. pose proof (wire_size_pos (M := M)).
  destruct (Nat.leb_spec (wire_size (M := M)) (length bs)); [|done].
  specialize (IH (drop (wire_size (M := M)) bs)). rewrite length_drop in IH.
  destruct (parse_stream (drop _ bs)) as [ms r]. simpl in *. apply IH. lia.
Qed.

(** What is taken from the buffer. *)
Lemma parse_stream_consumed bs ms r :
  parse_stream bs = (ms, r) →
  length bs = (wire_size (M := M) * length ms + length r)%nat ∧ drop (wire_size (M := M) * length ms) bs = r.
Proof.
  revert ms. induction bs as [bs IH] using (induction_ltof1 _ length). unfold ltof in IH. intros ms.
  rewrite parse_stream_unfold. pose proof (wire_size_pos (M := M)).
  destruct (Nat.leb_spec (wire_size (M := M)) (length bs)) as [Hle|_].
  - destruct (parse_stream (drop _ bs)) as [ms1 r1] eqn:E. intros [= <- <-].
    destruct (IH (drop (wire_size (M := M)) bs) ltac:(rewrite length_drop; lia) ms1 E) as [H1 H2].
    rewrite length_drop in H1. rewrite drop_drop in H2. cbn [length]. split; [lia|].
    rewrite <- H2. f_equal. lia.
  - intros [= <- <-]. rewrite Nat.mul_0_r. done.
Qed.

(** More bytes arriving: the messages already extracted stay the same. *)
Lemma parse_stream_app bs bs' :
  parse_stream (bs ++ bs') =
  let '(ms, r) := parse_stream bs in
  let '(ms', r') := parse_stream (r ++ bs') in (ms ++ ms', r').
Proof.
  induction bs as [bs IH] using (induction_ltof1 _ length). unfold ltof in IH.
  pose proof (wire_size_pos (M := M)). rewrite (parse_stream_unfold bs).
  destruct (Nat.leb_spec (wire_size (M := M)) (length bs)) as [Hle|Hlt].
  - rewrite parse_stream_unfold. rewrite (proj2 (Nat.leb_le _ _)) by (rewrite length_app; lia).
    rewrite drop_app_le, take_app_le by lia.
    rewrite IH by (rewrite length_drop; lia).
    destruct (parse_stream (drop _ bs)) as [ms r]. by destruct (parse_stream (r ++ bs')).
  - by destruct (parse_stream (bs ++ bs')).
Qed.

(** What a sender encoded is what the receiver decodes. *)
Lemma parse_stream_encode ms r :
  Forall wire_wf ms → (length r < wire_size (M := M))%nat →
  parse_stream (concat (encode <$> ms) ++ r) = (ms, r).
Proof.
  intros Hms Hr. induction Hms as [|m ms Hm _ IH].
  - simpl. rewrite parse_stream_unfold. destruct (Nat.leb_spec (wire_size (M := M)) (length r)); [lia|done].
  - rewrite fmap_cons. cbn [concat]. rewrite parse_stream_unfold, <- (assoc_L (++)).
    rewrite (proj2 (Nat.leb_le _ _)) by (rewrite length_app, length_encode; lia).
    rewrite drop_app_length', take_app_length' by (by rewrite length_encode).
    by rewrite IH, decode_encode.
Qed.

(** A connection's bytes arriving in arbitrary chunks, each followed by one run
    of the receive loop. *)
Fixpoint feed_chunks (rest : bytes) (chunks : list bytes) : list M * bytes :=
  match chunks with
  | [] => ([], rest)
  | c :: cs => let '(ms, r) := parse_stream (rest ++ c) in
               let '(ms', r') := feed_chunks r cs in (ms ++ ms', r')
  end.

Lemma feed_chunks_concat rest chunks :
  (length rest < wire_size (M := M))%nat →
  feed_chunks rest chunks = parse_stream (rest ++ concat chunks).
Proof.
  revert rest. induction chunks as [|c cs IH]; intros rest Hr; simpl.
  - rewrite app_nil_r, parse_stream_unfold.
    destruct (Nat.leb_spec (wire_size (M := M)) (length rest)); [lia|done].
  - rewrite (assoc_L (++)), (parse_stream_app (rest ++ c)).
    pose proof (parse_stream_rest (rest ++ c)) as Hr'.
    destruct (parse_stream (rest ++ c)) as [ms r]. by rewrite IH.
Qed.
End Stream.

(** ** src/common/tcp_socket.cpp *)

Definition TCPBufferSize : Z := 64 * 1024 * 1024.

(** The valid prefixes of the two buffers. *)
Record TCPSocket := mkTCPSocket { outbound_data_ : bytes; inbound_data_ : bytes }.

Definition TCPSocket_new : TCPSocket := mkTCPSocket [] [].

Definition tcp_send (data : bytes) (s : TCPSocket) : result TCPSocket :=
  if TCPBufferSize <? length (outbound_data_ s) + length data then FATAL
  else Ok (mkTCPSocket (outbound_data_ s ++ data) (inbound_data_ s)).

(** The read half of [sendAndRecv]: [avail] is what the kernel has for us; the
    call takes at most the free space of the buffer.  The result says whether
    the receive callback fires. *)
Definition tcp_recv (avail : bytes) (s : TCPSocket) : bool * bytes * TCPSocket :=
  let room := Z.to_nat (TCPBufferSize - length (inbound_data_ s)) in
  let got := take room avail in
  (negb (length got =? 0)%nat, drop room avail,
   mkTCPSocket (outbound_data_ s) (inbound_data_ s ++ got)).

(** The write half: the kernel accepts [n] bytes (an error is [n <= 0]). *)
Definition tcp_flush (n : Z) (s : TCPSocket) : bytes * TCPSocket :=
  if 0 <? n then
    (take (Z.to_nat n) (outbound_data_ s),
     mkTCPSocket (drop (Z.to_nat n) (outbound_data_ s)) (inbound_data_ s))
  else ([], s).

(** Bytes that fit the buffer are all taken. *)
Lemma tcp_recv_fits avail s :
  length (inbound_data_ s) + length avail ≤ TCPBufferSize →
  tcp_recv avail s = (negb (length avail =? 0)%nat, [], mkTCPSocket (outbound_data_ s) (inbound_data_ s ++ avail)).
Proof. intros Hl. unfold tcp_recv. by rewrite take_ge, drop_ge by lia. Qed.

(** No byte is lost, duplicated or reordered by partial writes. *)
Lemma tcp_flush_stream n s :
  let '(sent, s') := tcp_flush n s in sent ++ outbound_data_ s' = outbound_data_ s.
Proof. unfold tcp_flush. destruct (0 <? n); simpl; [apply take_drop|done]. Qed.

Lemma tcp_send_stream data s s' :
  tcp_send data s = Ok s' → outbound_data_ s' = outbound_data_ s ++ data.
Proof. unfold tcp_send. case_match; [done|]. by intros [= <-]. Qed.

Lemma tcp_recv_stream avail s :
  let '(_, rest, s') := tcp_recv avail s in
  inbound_data_ s' ++ rest = inbound_data_ s ++ avail.
Proof. simpl. by rewrite <- (assoc_L (++)), take_drop. Qed.
