(* ===== verification/TcpLink.v ===== *)
(** * A TCP connection between two sockets.

    The two ends of a connection as the system uses them
    (src/common/tcp_socket.cpp): one side stages whole messages in its outbound
    buffer, [sendAndRecv] hands the kernel as much as it takes, the kernel
    delivers the stream in pieces, and the receive callback of the other side
    decodes the whole messages of its inbound buffer and keeps the rest.  The
    steps in any order are a relation; [link_inv] is its invariant. *)

From stdpp Require Import gmap list relations.
From S2P Require Import Prelude Types Wire.

Open Scope Z_scope.
Local Coercion Z.of_nat : nat >-> Z.

Section Link.
Context {M : Type} `{!Wire M} `{!WireLaws M}.

(** The sockets, the bytes the kernel holds, the messages staged and decoded. *)
Record link := mkLink {
  lk_tx : TCPSocket; lk_wire : bytes; lk_rx : TCPSocket; lk_sent : list M; lk_got : list M }.

Definition link_new : link := mkLink TCPSocket_new [] TCPSocket_new [] [].

(** The callback of the receiving side. *)
Definition take_messages (s : TCPSocket) : list M * TCPSocket :=
  let '(ms, rest) := parse_stream (M := M) (inbound_data_ s) in (ms, mkTCPSocket (outbound_data_ s) rest).

Inductive link_step : link → link → Prop :=
| link_send m tx tx' wire rx sent got :
    wire_wf m → tcp_send (encode m) tx = Ok tx' →
    link_step (mkLink tx wire rx sent got) (mkLink tx' wire rx (sent ++ [m]) got)
| link_flush n tx out tx' wire rx sent got :
    tcp_flush n tx = (out, tx') →
    link_step (mkLink tx wire rx sent got) (mkLink tx' (wire ++ out) rx sent got)
| link_deliver avail later tx rx fired rest rx' ms rx2 sent got :
    tcp_recv avail rx = (fired, rest, rx') →
    (if fired then take_messages rx' else ([], rx')) = (ms, rx2) →
    link_step (mkLink tx (avail ++ later) rx sent got) (mkLink tx (rest ++ later) rx2 sent (got ++ ms)).

(** Decoding a prefix of a stream of whole messages. *)
Lemma parse_prefix (bs later : bytes) (pend : list M) ms rest :
  Forall wire_wf pend → bs ++ later = concat (encode <$> pend) → parse_stream bs = (ms, rest) →
  ∃ pend', pend = ms ++ pend' ∧ rest ++ later = concat (encode <$> pend').
Proof.
  intros Hwf. revert bs ms. induction Hwf as [|m pend Hm _ IH]; intros bs ms Hbs; rewrite parse_stream_unfold;
    pose proof (wire_size_pos (M := M)) as Hpos.
  { cbn in Hbs. apply app_nil in Hbs as [-> ->]. destruct (Nat.leb_spec (wire_size (M := M)) (@length Z [])) as [Hle|_];
      [simpl in Hle; lia|]. intros [= <- <-]. by exists []. }
  rewrite fmap_cons in Hbs. cbn [concat] in Hbs. destruct (Nat.leb_spec (wire_size (M := M)) (length bs)) as [Hle|_].
  - rewrite <- (take_drop (wire_size (M := M)) bs), <- (assoc_L (++)) in Hbs.
    apply app_inj_1 in Hbs as [Ht Hd]; [|rewrite length_take, length_encode; lia].
    destruct (parse_stream (drop _ bs)) as [ms1 r1] eqn:E. intros [= <- <-].
    destruct (IH _ ms1 Hd E) as (pend' & -> & Hr). exists pend'. by rewrite Ht, decode_encode.
  - intros [= <- <-]. exists (m :: pend). by rewrite fmap_cons.
Qed.

(** Everything staged is decoded or on its way, in order. *)
Definition link_inv (l : link) : Prop :=
  ∃ pend, lk_sent l = lk_got l ++ pend ∧ Forall wire_wf pend
    ∧ inbound_data_ (lk_rx l) ++ lk_wire l ++ outbound_data_ (lk_tx l) = concat (encode <$> pend)
    ∧ (length (inbound_data_ (lk_rx l)) < wire_size (M := M))%nat.

Lemma link_inv_new : link_inv link_new.
Proof. exists []. split_and!; [done|constructor|done|apply wire_size_pos]. Qed.

Lemma link_inv_step l l' : link_step l l' → link_inv l → link_inv l'.
Proof.
  intros Hs (pend & Hsent & Hwf & Hb & Hlt).
  destruct Hs as [m tx tx' wire rx sent got Hm Hsend|n tx out tx' wire rx sent got Hf|avail later tx rx fired rest rx' ms rx2 sent got Hr Hms];
    unfold link_inv in *; cbn [lk_sent lk_got lk_rx lk_tx lk_wire] in *.
  - exists (pend ++ [m]). rewrite Hsent, <- (assoc_L (++)). split_and!; [done| | |done].
    + apply Forall_app. split; [done|by apply Forall_singleton].
    + rewrite (tcp_send_stream _ _ _ Hsend), fmap_app, concat_app, <- Hb. cbn [fmap list_fmap concat]. by rewrite app_nil_r, !(assoc_L (++)).
  - exists pend. split_and!; [done..| |done]. pose proof (tcp_flush_stream n tx) as Hfs. rewrite Hf in Hfs.
    rewrite <- Hb, <- Hfs. by rewrite !(assoc_L (++)).
  - pose proof (tcp_recv_stream avail rx) as Hrs. rewrite Hr in Hrs.
    assert (inbound_data_ rx' ++ (rest ++ later ++ outbound_data_ tx) = concat (encode <$> pend)) as Hall.
    { rewrite (assoc_L (++)), Hrs, <- Hb. by rewrite !(assoc_L (++)). }
    destruct fired.
    + unfold take_messages in Hms. destruct (parse_stream (inbound_data_ rx')) as [ms1 left] eqn:E. injection Hms as -> <-.
      destruct (parse_prefix _ _ _ _ _ Hwf Hall E) as (pend' & -> & Hp). exists pend'. cbn [inbound_data_].
      apply Forall_app in Hwf as [_ Hwf'].
      split_and!; [by rewrite Hsent, (assoc_L (++))|done|by rewrite <- Hp, !(assoc_L (++))|].
      pose proof (parse_stream_rest (M := M) (inbound_data_ rx')) as Hrest. by rewrite E in Hrest.
    + injection Hms as <- <-. exists pend. rewrite app_nil_r. split_and!; [done..|by rewrite <- Hall, !(assoc_L (++))|].
      unfold tcp_recv in Hr. injection Hr as Hf _ <-. apply negb_false_iff, Nat.eqb_eq, nil_length_inv in Hf.
      cbn [inbound_data_]. by rewrite Hf, app_nil_r.
Qed.

Lemma link_inv_reachable l : rtc link_step link_new l → link_inv l.
Proof.
  revert l. apply rtc_ind_r; [apply link_inv_new|]. intros x y _ Hs Hx. by eapply link_inv_step.
Qed.
End Link.
Arguments link M : clear implicits.
