(* ===== verification/SocketUtils.v ===== *)
(** * Creating sockets.

    src/common/socket_utils.h, and its callers [TCPSocket::connect]
    (src/common/tcp_socket.cpp), [McastSocket::init], [join] and [leave]
    (src/common/mcast_socket.cpp) and [TCPServer::listen] and [poll]
    (src/common/tcp_server.cpp).

    The operating system is a parameter: the class [Kernel] has one function for
    the system calls, with a state of any type, and the queries of libc the code
    makes.  What the calls do to sockets is a table of descriptors, [effect] says
    how each call changes it, and [KernelLaws] states that the kernel keeps such a
    table.  [createSocket_spec] and [poll_spec] follow, by a weakest precondition
    [wp] for code that runs system calls and aborts on a failed assertion. *)

From stdpp Require Import numbers strings pretty gmap list.
From S2P Require Import Prelude.

Open Scope Z_scope.

(** ** The interface of the system *)

Inductive sa_family := AF_INET | AF_OTHER.
Inductive sock_type := SOCK_STREAM | SOCK_DGRAM.
Inductive ipproto := IPPROTO_TCP | IPPROTO_UDP.

(** [INADDR_ANY] is [None]. *)
Record sockaddr_in := mkSockaddr { sin_addr : option string; sin_port : Z }.

Record ifaddrs := mkIfaddrs { ifa_name : string; ifa_addr : option (sa_family * string) }.

Record addrinfo := mkAddrinfo {
  ai_family : sa_family; ai_socktype : sock_type; ai_protocol : ipproto; ai_addr : sockaddr_in }.

Record ai_hints := mkHints {
  hint_passive : bool; hint_family : sa_family; hint_socktype : sock_type; hint_protocol : ipproto }.

(** The options the code sets; the membership options carry the group. *)
Inductive sockopt :=
| TCP_NODELAY | SO_TIMESTAMP | SO_REUSEADDR | SO_REUSEPORT
| IP_ADD_MEMBERSHIP (group : string) | IP_DROP_MEMBERSHIP (group : string).

#[export] Instance sockopt_eq_dec : EqDecision sockopt.
Proof. solve_decision. Defined.

Inductive syscall :=
| Sys_socket (family : sa_family) (type : sock_type) (protocol : ipproto)
| Sys_getfl (fd : Z)
| Sys_setfl (fd flags : Z)
| Sys_setsockopt (fd : Z) (opt : sockopt)
| Sys_connect (fd : Z) (addr : sockaddr_in)
| Sys_bind (fd : Z) (addr : sockaddr_in)
| Sys_listen (fd backlog : Z)
| Sys_accept (fd : Z)
| Sys_close (fd : Z).

(** [getaddrinfo] returns a code and a list of addresses; [getnameinfo] is the
    numeric form of the address.  The last three are fixed by the platform. *)
Class Kernel (K : Type) := {
  sys : syscall → K → Z * K;
  getifaddrs : K → option (list ifaddrs);
  getaddrinfo : string → string → ai_hints → K → Z * list addrinfo;
  O_NONBLOCK : Z;
  is_linux : bool;
  has_reuseport : bool }.

Arguments O_NONBLOCK K {_}.
Arguments is_linux K {_}.
Arguments has_reuseport K {_}.

(** ** Code that runs system calls *)

Section Monad.
Context {K : Type} `{!Kernel K}.

Definition sysm (A : Type) : Type := K → result (A * K).

Definition sret {A} (a : A) : sysm A := λ k, Ok (a, k).
Definition sbind {A B} (m : sysm A) (f : A → sysm B) : sysm B := λ k, let* (a, k) := m k in f a k.
Definition scall (c : syscall) : sysm Z := λ k, Ok (sys c k).
Definition sassert (b : bool) : sysm unit := λ k, let* _ := ASSERT b in Ok (tt, k).
Definition squery {A} (f : K → A) : sysm A := λ k, Ok (f k, k).

(** What holds of the value and the state if the code returns, when the only way
    to fail is an assertion. *)
Definition wp {A} (m : sysm A) (Φ : A → K → Prop) (k : K) : Prop :=
  match m k with Ok (a, k) => Φ a k | Err e => e = AssertFailed end.

Lemma wp_ret {A} (a : A) Φ k : Φ a k → wp (sret a) Φ k.
Proof. done. Qed.

Lemma wp_bind {A B} (m : sysm A) (f : A → sysm B) Φ k : wp m (λ a k, wp (f a) Φ k) k → wp (sbind m f) Φ k.
Proof. unfold wp, sbind. by destruct (m k) as [[a k']|e]. Qed.

Lemma wp_call c Φ k : Φ (sys c k).1 (sys c k).2 → wp (scall c) Φ k.
Proof. unfold wp, scall. by destruct (sys c k). Qed.

Lemma wp_assert b Φ k : (b = true → Φ tt k) → wp (sassert b) Φ k.
Proof. unfold wp, sassert, ASSERT. destruct b; [intros H; by apply H|done]. Qed.

Lemma wp_query {A} (f : K → A) Φ k : Φ (f k) k → wp (squery f) Φ k.
Proof. done. Qed.

Lemma wp_mono {A} (m : sysm A) (Φ Ψ : A → K → Prop) k : wp m Φ k → (∀ a k, Φ a k → Ψ a k) → wp m Ψ k.
Proof. unfold wp. destruct (m k) as [[a k']|e]; eauto. Qed.

Lemma wp_and {A} (m : sysm A) (Φ Ψ : A → K → Prop) k : wp m Φ k → wp m Ψ k → wp m (λ a k, Φ a k ∧ Ψ a k) k.
Proof. unfold wp. by destruct (m k) as [[a k']|e]. Qed.
End Monad.
Arguments sysm K A : clear implicits.

Declare Scope sys_scope.
Delimit Scope sys_scope with sys.
Notation "'let!' x := m 'in' k" := (sbind m (λ x, k))
  (at level 10, x pattern, m at level 100, k at level 200) : sys_scope.
Open Scope sys_scope.

(** Runs through the code, one goal per return. *)
Ltac wp_step :=
  lazymatch goal with
  | |- wp (sbind _ _) _ _ => apply wp_bind
  | |- wp (sret _) _ _ => apply wp_ret
  | |- wp (scall _) _ _ => apply wp_call
  | |- wp (squery _) _ _ => apply wp_query
  | |- wp (sassert _) _ _ => apply wp_assert; intros ?
  | |- wp (if ?b then _ else _) _ _ => destruct b eqn:?
  end; cbn beta.

(** ** socket_utils.h *)

Record SocketCfg := mkSocketCfg {
  ip_ : string; iface_ : string; port_ : Z; is_udp_ : bool; is_listening_ : bool; needs_so_timestamp_ : bool }.

Definition show_bool (b : bool) : string := if b then "1" else "0".

Definition SocketCfg_toString (cfg : SocketCfg) : string :=
  "SocketCfg[ip:" +:+ ip_ cfg +:+ " iface:" +:+ iface_ cfg +:+ " port:" +:+ pretty (port_ cfg)
  +:+ " is_udp:" +:+ show_bool (is_udp_ cfg) +:+ " is_listening:" +:+ show_bool (is_listening_ cfg)
  +:+ " needs_SO_timestamp:" +:+ show_bool (needs_so_timestamp_ cfg) +:+ "]".

Definition MaxTCPServerBacklog : Z := 1024.

Section Calls.
Context {K : Type} `{!Kernel K}.

(** The first IPv4 address of the interface, or the empty string. *)
Fixpoint find_iface (iface : string) (l : list ifaddrs) : string :=
  match l with
  | [] => ""
  | ifa :: l =>
      match ifa_addr ifa with
      | Some (AF_INET, host) => if String.eqb iface (ifa_name ifa) then host else find_iface iface l
      | _ => find_iface iface l
      end
  end.

Definition getIfaceIP (iface : string) : sysm K string :=
  squery (λ k, match getifaddrs k with None => ""%string | Some l => find_iface iface l end).

(** The flags are tested without a check for -1. *)
Definition setNonBlocking (fd : Z) : sysm K bool :=
  let! flags := scall (Sys_getfl fd) in
  if negb (Z.land flags (O_NONBLOCK K) =? 0) then sret true
  else let! r := scall (Sys_setfl fd (Z.lor flags (O_NONBLOCK K))) in sret (negb (r =? -1)).

Definition disableNagle (fd : Z) : sysm K bool :=
  let! r := scall (Sys_setsockopt fd TCP_NODELAY) in sret (negb (r =? -1)).

Definition setSOTimestamp (fd : Z) : sysm K bool :=
  if is_linux K then let! r := scall (Sys_setsockopt fd SO_TIMESTAMP) in sret (negb (r =? -1)) else sret true.

Definition join (fd : Z) (ip : string) : sysm K bool :=
  let! r := scall (Sys_setsockopt fd (IP_ADD_MEMBERSHIP ip)) in sret (negb (r =? -1)).

(** The two branches of the loop body on [is_listening_].  The result of
    [connect] is not used. *)
Definition bind_listener (cfg : SocketCfg) (rp : addrinfo) (fd : Z) : sysm K unit :=
  let! r := scall (Sys_setsockopt fd SO_REUSEADDR) in
  let! _ := sassert (r =? 0) in
  let! _ := (if has_reuseport K && is_udp_ cfg then let! _ := scall (Sys_setsockopt fd SO_REUSEPORT) in sret tt else sret tt) in
  let! r := scall (Sys_bind fd (if is_udp_ cfg then mkSockaddr None (wrap 16 (port_ cfg)) else ai_addr rp)) in
  sassert (r =? 0).

(** The body of the loop over the addresses. *)
Definition open_address (cfg : SocketCfg) (rp : addrinfo) : sysm K Z :=
  let! fd := scall (Sys_socket (ai_family rp) (ai_socktype rp) (ai_protocol rp)) in
  let! _ := sassert (negb (fd =? -1)) in
  let! ok := setNonBlocking fd in
  let! _ := sassert ok in
  let! _ := (if negb (is_udp_ cfg) then let! ok := disableNagle fd in sassert ok else sret tt) in
  let! _ := (if negb (is_listening_ cfg) then let! _ := scall (Sys_connect fd (ai_addr rp)) in sret tt else sret tt) in
  let! _ := (if is_listening_ cfg then bind_listener cfg rp fd else sret tt) in
  let! _ := (if negb (is_udp_ cfg) && is_listening_ cfg
   then let! r := scall (Sys_listen fd MaxTCPServerBacklog) in sassert (r =? 0) else sret tt) in
  let! _ := (if needs_so_timestamp_ cfg then let! ok := setSOTimestamp fd in sassert ok else sret tt) in
  sret fd.

(** The loop: every address gets a socket, the last one is returned. *)
Fixpoint open_addresses (cfg : SocketCfg) (rps : list addrinfo) (socket_fd : Z) : sysm K Z :=
  match rps with
  | [] => sret socket_fd
  | rp :: rps => let! fd := open_address cfg rp in open_addresses cfg rps fd
  end.

Definition hints_of (cfg : SocketCfg) : ai_hints :=
  mkHints (is_listening_ cfg) AF_INET (if is_udp_ cfg then SOCK_DGRAM else SOCK_STREAM)
    (if is_udp_ cfg then IPPROTO_UDP else IPPROTO_TCP).

Definition createSocket (cfg : SocketCfg) : sysm K Z :=
  let! ip := (if String.eqb (ip_ cfg) "" then getIfaceIP (iface_ cfg) else sret (ip_ cfg)) in
  let! answer := squery (getaddrinfo ip (pretty (port_ cfg)) (hints_of cfg)) in
  let! _ := sassert (fst answer =? 0) in
  open_addresses cfg (snd answer) (-1).

(** ** The callers *)

(** [TCPSocket::connect]: the descriptor and [socket_attrib_]. *)
Definition tcp_connect (ip iface : string) (port : Z) (is_listening : bool) : sysm K (Z * sockaddr_in) :=
  let! fd := createSocket (mkSocketCfg ip iface port false is_listening true) in
  sret (fd, mkSockaddr None (wrap 16 port)).

(** [McastSocket::init]. *)
Definition mcast_init (ip iface : string) (port : Z) (is_listening : bool) : sysm K Z :=
  createSocket (mkSocketCfg ip iface port true is_listening false).

(** [McastSocket::leave] on the descriptor; nothing when it is closed. *)
Definition mcast_leave_calls (fd : Z) (ip : string) : sysm K Z :=
  if fd <? 0 then sret fd
  else let! _ := scall (Sys_setsockopt fd (IP_DROP_MEMBERSHIP ip)) in let! _ := scall (Sys_close fd) in sret (-1).

(** [TCPServer]: the descriptors of the listener and of the two vectors of
    connections. *)
Record TCPServer := mkTCPServer {
  listener_socket_ : Z; receive_sockets_ : list Z; send_sockets_ : list Z }.

Definition TCPServer_new : TCPServer := mkTCPServer (-1) [] [].

Definition server_listen (iface : string) (port : Z) (s : TCPServer) : sysm K TCPServer :=
  let! fd := tcp_connect "" iface port true in
  sret (mkTCPServer (fst fd) (receive_sockets_ s) (send_sockets_ s)).

(** The results of [setNonBlocking] and [disableNagle] are ignored. *)
Fixpoint server_poll (n : nat) (s : TCPServer) : sysm K TCPServer :=
  let! client_fd := scall (Sys_accept (listener_socket_ s)) in
  if client_fd <? 0 then sret s else
  let! _ := setNonBlocking client_fd in
  let! _ := disableNagle client_fd in
  let s := mkTCPServer (listener_socket_ s) (receive_sockets_ s ++ [client_fd]) (send_sockets_ s ++ [client_fd]) in
  match n with O => λ _, Err OutOfFuel | S n => server_poll n s end.
End Calls.

(** ** What the calls do *)

(** A descriptor of the socket table. *)
Record SockState := mkSockState {
  st_nonblocking : bool; st_opts : list sockopt; st_bound : option sockaddr_in; st_backlog : option Z }.

Definition fresh_socket : SockState := mkSockState false [] None None.
Definition set_nonblocking (b : bool) (st : SockState) : SockState :=
  mkSockState b (st_opts st) (st_bound st) (st_backlog st).
Definition add_opt (o : sockopt) (st : SockState) : SockState :=
  mkSockState (st_nonblocking st) (o :: st_opts st) (st_bound st) (st_backlog st).
Definition set_bound (a : sockaddr_in) (st : SockState) : SockState :=
  mkSockState (st_nonblocking st) (st_opts st) (Some a) (st_backlog st).
Definition set_backlog (n : Z) (st : SockState) : SockState :=
  mkSockState (st_nonblocking st) (st_opts st) (st_bound st) (Some n).

Abbreviation sock_table := (gmap Z SockState).

(** A call with result [r] takes the table [T] to [T'].  Errors are -1 and change
    nothing; an accepted connection may inherit flags of the listener. *)
Definition effect (nonblock : Z) (c : syscall) (r : Z) (T T' : sock_table) : Prop :=
  match c with
  | Sys_socket _ _ _ => if r =? -1 then T' = T else 0 ≤ r ∧ T !! r = None ∧ T' = <[r := fresh_socket]> T
  | Sys_getfl fd =>
      T' = T ∧ ∀ st, T !! fd = Some st → 0 ≤ r ∧ negb (Z.land r nonblock =? 0) = st_nonblocking st
  | Sys_setfl fd flags =>
      T' = if r =? -1 then T else alter (set_nonblocking (negb (Z.land flags nonblock =? 0))) fd T
  | Sys_setsockopt fd o => (r = 0 ∧ T' = alter (add_opt o) fd T) ∨ (r = -1 ∧ T' = T)
  | Sys_connect _ _ => T' = T
  | Sys_bind fd a => (r = 0 ∧ T' = alter (set_bound a) fd T) ∨ (r = -1 ∧ T' = T)
  | Sys_listen fd n => (r = 0 ∧ T' = alter (set_backlog n) fd T) ∨ (r = -1 ∧ T' = T)
  | Sys_accept _ => if r <? 0 then T' = T else T !! r = None ∧ ∃ st, T' = <[r := st]> T
  | Sys_close fd => T' = if r =? -1 then T else delete fd T
  end.

Class KernelLaws (K : Type) `{!Kernel K} := {
  table : K → sock_table;
  sys_effect c k : effect (O_NONBLOCK K) c (sys c k).1 (table k) (table (sys c k).2);
  O_NONBLOCK_pos : 0 < (O_NONBLOCK K) }.

Section Specs.
Context {K : Type} `{!Kernel K} `{!KernelLaws K}.
Implicit Types (k : K) (cfg : SocketCfg) (T : sock_table).

(** The table is [T] and one more socket. *)
Definition adds (fd : Z) (st : SockState) T k : Prop := T !! fd = None ∧ table k = <[fd := st]> T.

Lemma adds_alter fd st T (f : SockState → SockState) : alter f fd (<[fd := st]> T) = <[fd := f st]> T.
Proof. apply alter_insert_eq. Qed.

(** A call with the two outcomes 0 and -1 on the new socket. *)
Lemma wp_option fd st T k o Φ :
  adds fd st T k → (∀ r k, adds fd (if r =? 0 then add_opt o st else st) T k → (r = 0 ∨ r = -1) → Φ r k) →
  wp (scall (Sys_setsockopt fd o)) Φ k.
Proof.
  intros [Hf Ht] HΦ. apply wp_call. pose proof (sys_effect (Sys_setsockopt fd o) k) as He. cbn in He. rewrite Ht in He.
  rewrite adds_alter in He.
  apply HΦ; [|tauto]. destruct He as [[-> He]|[-> He]]; by split.
Qed.

Lemma wp_setNonBlocking fd st T k Φ :
  adds fd st T k → (∀ (b : bool) k, adds fd (if b then set_nonblocking true st else st) T k → Φ b k) → wp (setNonBlocking fd) Φ k.
Proof.
  intros [Hf Ht] HΦ. unfold setNonBlocking. do 2 wp_step.
  pose proof (sys_effect (Sys_getfl fd) k) as [He Hg]. rewrite Ht in He, Hg.
  destruct (Hg st (lookup_insert_eq _ _ _)) as [H0 Hb]. set (r := (sys (Sys_getfl fd) k).1) in *.
  set (k1 := (sys (Sys_getfl fd) k).2) in *. rewrite Hb. destruct (st_nonblocking st) eqn:En.
  - apply wp_ret, HΦ. split; [done|]. rewrite He. f_equal. destruct st; cbn in *. by subst.
  - do 3 wp_step. apply HΦ. split; [done|]. pose proof (sys_effect (Sys_setfl fd (Z.lor r (O_NONBLOCK K))) k1) as Hs. cbn in Hs.
    rewrite Hs, He, adds_alter. destruct (_ =? -1); cbn [negb]; [done|].
    replace (Z.land (Z.lor r (O_NONBLOCK K)) (O_NONBLOCK K) =? 0) with false; [done|]. symmetry. apply Z.eqb_neq.
    rewrite Z.land_lor_distr_l, Z.land_diag, Z.lor_eq_0_iff. pose proof (O_NONBLOCK_pos (K:=K)). lia.
Qed.

Lemma wp_disableNagle fd st T k Φ :
  adds fd st T k → (∀ (b : bool) k, adds fd (if b then add_opt TCP_NODELAY st else st) T k → Φ b k) → wp (disableNagle fd) Φ k.
Proof.
  intros Ha HΦ. unfold disableNagle. wp_step. eapply wp_option; [done|]. intros r k' Ha' Hr. wp_step. apply HΦ.
  by destruct Hr as [-> | ->].
Qed.

(** A failing [fcntl] counts as success: every bit of -1 is set. *)
Lemma setNonBlocking_hides_error fd k :
  (sys (Sys_getfl fd) k).1 = -1 → setNonBlocking fd k = Ok (true, (sys (Sys_getfl fd) k).2).
Proof.
  intros E. unfold setNonBlocking, sbind, scall. cbn [rbind]. destruct (sys (Sys_getfl fd) k) as [r k1]. simpl in E. subst r.
  rewrite Z.land_m1_l. pose proof (O_NONBLOCK_pos (K:=K)). cbn [snd]. by rewrite (proj2 (Z.eqb_neq _ _)) by lia.
Qed.

(** What the configuration asks of a socket for the address [rp]. *)
Record configured cfg (rp : addrinfo) (st : SockState) : Prop := {
  cf_nonblocking : st_nonblocking st = true;
  cf_nodelay : is_udp_ cfg = false → TCP_NODELAY ∈ st_opts st;
  cf_reuse : is_listening_ cfg = true → SO_REUSEADDR ∈ st_opts st;
  cf_bound : st_bound st = if is_listening_ cfg
    then Some (if is_udp_ cfg then mkSockaddr None (wrap 16 (port_ cfg)) else ai_addr rp) else None;
  cf_backlog : st_backlog st = if negb (is_udp_ cfg) && is_listening_ cfg then Some MaxTCPServerBacklog else None;
  cf_timestamp : needs_so_timestamp_ cfg = true → is_linux K = true → SO_TIMESTAMP ∈ st_opts st }.

Lemma wp_sys_bind fd st T k a Φ :
  adds fd st T k → (∀ r k, adds fd (if r =? 0 then set_bound a st else st) T k → Φ r k) → wp (scall (Sys_bind fd a)) Φ k.
Proof.
  intros [Hf Ht] HΦ. apply wp_call. pose proof (sys_effect (Sys_bind fd a) k) as He. cbn in He. rewrite Ht, adds_alter in He.
  apply HΦ. destruct He as [[-> He]|[-> He]]; by split.
Qed.

Lemma wp_sys_listen fd st T k n Φ :
  adds fd st T k → (∀ r k, adds fd (if r =? 0 then set_backlog n st else st) T k → Φ r k) → wp (scall (Sys_listen fd n)) Φ k.
Proof.
  intros [Hf Ht] HΦ. apply wp_call. pose proof (sys_effect (Sys_listen fd n) k) as He. cbn in He. rewrite Ht, adds_alter in He.
  apply HΦ. destruct He as [[-> He]|[-> He]]; by split.
Qed.

Lemma wp_sys_connect fd st T k a Φ :
  adds fd st T k → (∀ r k, adds fd st T k → Φ r k) → wp (scall (Sys_connect fd a)) Φ k.
Proof.
  intros [Hf Ht] HΦ. apply wp_call. pose proof (sys_effect (Sys_connect fd a) k) as He. cbn in He. rewrite Ht in He.
  apply HΦ. by split.
Qed.

Lemma wp_setSOTimestamp fd st T k Φ :
  adds fd st T k → (∀ (b : bool) k, adds fd (if b && is_linux K then add_opt SO_TIMESTAMP st else st) T k → Φ b k) →
  wp (setSOTimestamp fd) Φ k.
Proof.
  intros Ha HΦ. unfold setSOTimestamp. destruct (is_linux K); [|by apply wp_ret, HΦ]. wp_step.
  eapply wp_option; [done|]. intros r k' Ha' Hr. wp_step. apply HΦ. by destruct Hr as [-> | ->].
Qed.

(** Runs through code that works on the new socket. *)
Ltac wp_run :=
  repeat first
    [ eapply wp_option; [eassumption|]; intros ? ? ? ?
    | eapply wp_sys_bind; [eassumption|]; intros ? ? ?
    | eapply wp_sys_listen; [eassumption|]; intros ? ? ?
    | eapply wp_sys_connect; [eassumption|]; intros ? ? ?
    | eapply wp_setNonBlocking; [eassumption|]; intros ? ? ?
    | eapply wp_disableNagle; [eassumption|]; intros ? ? ?
    | eapply wp_setSOTimestamp; [eassumption|]; intros ? ? ?
    | wp_step ];
  repeat match goal with
    | H : ?b = true |- _ => is_var b; subst b
    | H : (?r =? 0) = true |- _ => rewrite H in *; clear H
    end.

Lemma open_address_spec cfg rp k :
  wp (open_address cfg rp) (λ fd k', 0 ≤ fd ∧ ∃ st, adds fd st (table k) k' ∧ configured cfg rp st) k.
Proof.
  unfold open_address. do 2 wp_step. pose proof (sys_effect (Sys_socket (ai_family rp) (ai_socktype rp) (ai_protocol rp)) k) as Hs.
  cbn in Hs. set (fd := (sys _ k).1) in *. set (k1 := (sys _ k).2) in *. do 2 wp_step.
  destruct (fd =? -1) eqn:Efd; [done|]. destruct Hs as (H0 & Hnew & Ht).
  assert (adds fd fresh_socket (table k) k1) as Ha by done. clearbody fd k1. clear Ht.
  destruct cfg as [ip iface port udp listening stamp]. unfold bind_listener. cbn [is_udp_ is_listening_ needs_so_timestamp_ port_].
  destruct udp, listening, stamp; cbn [negb andb]; rewrite ?andb_true_r, ?andb_false_r; wp_run;
    (split; [done|]; eexists; split; [eassumption|]);
    (split; cbn; try done; try discriminate; intros; repeat case_match; set_solver).
Qed.

(** Every address adds one socket; the last one is configured for its address. *)
Definition opened cfg (rps : list addrinfo) (default_fd : Z) (T : sock_table) (fd : Z) k : Prop :=
  T ⊆ table k ∧ size (table k) = (size T + length rps)%nat
  ∧ match last rps with
    | None => fd = default_fd
    | Some rp => 0 ≤ fd ∧ T !! fd = None ∧ ∃ st, table k !! fd = Some st ∧ configured cfg rp st
    end.

Lemma open_addresses_spec cfg rps fd0 k : wp (open_addresses cfg rps fd0) (opened cfg rps fd0 (table k)) k.
Proof.
  revert fd0 k. induction rps as [|rp rps IH]; intros fd0 k; cbn [open_addresses].
  { apply wp_ret. split_and!; [done|simpl; lia|done]. }
  apply wp_bind. eapply wp_mono; [apply open_address_spec|]. intros fd k1 (H0 & st & (Hnew & Ht) & Hc).
  eapply wp_mono; [apply IH|]. intros fd2 k2 (Hsub & Hsize & Hlast). rewrite Ht in Hsub, Hsize, Hlast.
  rewrite map_size_insert_None in Hsize by done. split_and!; [|simpl; lia|].
  - etrans; [|exact Hsub]. by apply insert_subseteq.
  - rewrite last_cons. destruct (last rps) as [rp2|]; [|subst fd2].
    + destruct Hlast as (H2 & Hn & Hx). apply lookup_insert_None in Hn as [Hn _]. done.
    + split_and!; [done..|]. exists st. split; [|done]. eapply lookup_weaken; [|exact Hsub]. apply lookup_insert_eq.
Qed.

Definition address_of cfg k : string :=
  if String.eqb (ip_ cfg) "" then match getifaddrs k with None => ""%string | Some l => find_iface (iface_ cfg) l end
  else ip_ cfg.

Definition answer_of cfg k : Z * list addrinfo :=
  getaddrinfo (address_of cfg k) (pretty (port_ cfg)) (hints_of cfg) k.

Lemma createSocket_spec cfg k :
  wp (createSocket cfg) (λ fd k', (answer_of cfg k).1 = 0 ∧ opened cfg (answer_of cfg k).2 (-1) (table k) fd k') k.
Proof.
  unfold createSocket. wp_step.
  assert (∀ Φ, Φ (address_of cfg k) k →
    wp (if String.eqb (ip_ cfg) "" then getIfaceIP (iface_ cfg) else sret (ip_ cfg)) Φ k) as Hip.
  { intros Φ HΦ. unfold address_of in HΦ. by destruct (String.eqb _ _); unfold getIfaceIP; wp_step. }
  apply Hip. do 4 wp_step. fold (answer_of cfg k) in *. eapply wp_mono; [apply open_addresses_spec|].
  intros fd k' Ho. split; [lia|done].
Qed.

(** ** Accepting connections *)

(** The table [T'] has the new connections [fds] on top of [T]. *)
Definition accepted (fds : list Z) (T T' : sock_table) : Prop :=
  T ⊆ T' ∧ NoDup fds ∧ dom T' = dom T ∪ list_to_set fds ∧ Forall (λ fd, T !! fd = None) fds.

Lemma accepted_cons fd fds T st T' :
  T !! fd = None → accepted fds (<[fd := st]> T) T' → accepted (fd :: fds) T T'.
Proof.
  intros Hn (Hs & Hnd & Hd & Hf). split_and!.
  - etrans; [by apply insert_subseteq|exact Hs].
  - constructor; [|done]. intros Hin. rewrite Forall_forall in Hf. specialize (Hf fd Hin). by rewrite lookup_insert_eq in Hf.
  - rewrite Hd. set_solver.
  - constructor; [done|]. eapply Forall_impl; [exact Hf|]. by intros x [? _]%lookup_insert_None.
Qed.

(** The loop of [poll] when the kernel has [waiting] connections queued and gets
    no more meanwhile. *)
Section Poll.
Context (waiting : K → nat).
Context (waiting_accept : ∀ fd k, 0 ≤ (sys (Sys_accept fd) k).1 → waiting k = S (waiting (sys (Sys_accept fd) k).2)).
Context (waiting_getfl : ∀ fd k, waiting (sys (Sys_getfl fd) k).2 = waiting k).
Context (waiting_setfl : ∀ fd fl k, waiting (sys (Sys_setfl fd fl) k).2 = waiting k).
Context (waiting_setsockopt : ∀ fd o k, waiting (sys (Sys_setsockopt fd o) k).2 = waiting k).

Lemma wp_waiting_setup fd k :
  wp (setNonBlocking fd) (λ _ k', waiting k' = waiting k) k ∧ wp (disableNagle fd) (λ _ k', waiting k' = waiting k) k.
Proof.
  split; [unfold setNonBlocking|unfold disableNagle]; repeat wp_step;
    by rewrite ?waiting_setfl, ?waiting_getfl, ?waiting_setsockopt.
Qed.

Lemma server_poll_spec n s k :
  (waiting k ≤ n)%nat →
  wp (server_poll n s) (λ s' k', ∃ fds,
    s' = mkTCPServer (listener_socket_ s) (receive_sockets_ s ++ fds) (send_sockets_ s ++ fds)
    ∧ Forall (λ fd, 0 ≤ fd) fds ∧ accepted fds (table k) (table k')) k.
Proof.
  revert s k. induction n as [|n IH]; intros s k Hw; cbn [server_poll]; do 2 wp_step;
    pose proof (waiting_accept (listener_socket_ s) k) as Hwa; pose proof (sys_effect (Sys_accept (listener_socket_ s)) k) as He;
    cbn in He; set (fd := (sys (Sys_accept _) k).1) in *; set (k1 := (sys (Sys_accept _) k).2) in *;
    destruct (Z.ltb_spec fd 0) as [Hlt|Hge].
  1, 3: apply wp_ret; exists []; rewrite !app_nil_r, He; split_and!; [by destruct s|constructor|];
    split_and!; [done|constructor|set_solver|constructor].
  { specialize (Hwa Hge). lia. }
  specialize (Hwa Hge). destruct He as (Hnew & st & Ht).
  assert (adds fd st (table k) k1) as Ha by done. clearbody fd k1. clear Ht. wp_step.
  eapply wp_mono; [apply wp_and; [eapply (wp_setNonBlocking fd st (table k)); [done|]|apply (wp_waiting_setup fd k1)]|].
  { intros b k2 Ha2. exact (ex_intro (λ st, adds fd st (table k) k2) _ Ha2). }
  intros _ k2 [[st2 Ha2] Hw2]. wp_step.
  eapply wp_mono; [apply wp_and; [eapply (wp_disableNagle fd st2 (table k)); [done|]|apply (wp_waiting_setup fd k2)]|].
  { intros b k3 Ha3. exact (ex_intro (λ st, adds fd st (table k) k3) _ Ha3). }
  intros _ k3 [[st3 [_ Ht3]] Hw3]. eapply wp_mono; [apply IH; lia|]. intros s' k' (fds & -> & Hpos & Hacc).
  rewrite Ht3 in Hacc. exists (fd :: fds). cbn [listener_socket_ receive_sockets_ send_sockets_].
  rewrite <- !(assoc_L (++)). split_and!; [done|by constructor|by eapply accepted_cons].
Qed.
End Poll.
End Specs.
