(* ===== verification/BookCore.v ===== *)
(** * The pointer structure shared by the two limit order books.

    [Exchange::MEOrderBook] (src/exchange/matcher/me_order_book.h) and
    [Trading::MarketOrderBook] (src/trading/strategy/market_order_book.h) keep
    the same structure with the same code: pools of orders and of price levels,
    a circular list of levels per side, a circular list of orders per level, a
    price index and an order index.  The operations are written here once, over
    the interface [OrderNode] that both [MEOrder] and [MarketOrder] implement;
    MEOrderBook.v and MarketOrderBook.v instantiate them.  Pointers are pool
    indices ([MemPool.v]), [nullptr] is [None], and reading through a freed
    pointer yields the stale block, as in the code. *)

From stdpp Require Import gmap list.
From S2P Require Import Prelude CircList MemPool Types.

Open Scope Z_scope.
Local Coercion Z.of_nat : nat >-> Z.

(** [MEOrdersAtPrice] / [MarketOrdersAtPrice]: one price level. *)
Record OrdersAtPrice := mkOrdersAtPrice {
  lvl_side_ : Side;
  lvl_price_ : Z;
  first_order_ : option Z;
  prev_entry_ : option Z;
  next_entry_ : option Z }.

#[export] Instance OrdersAtPrice_default : DefaultCtor OrdersAtPrice :=
  mkOrdersAtPrice Side_INVALID Price_INVALID None None None.

Definition set_first_order (v : option Z) (l : OrdersAtPrice) : OrdersAtPrice :=
  mkOrdersAtPrice (lvl_side_ l) (lvl_price_ l) v (prev_entry_ l) (next_entry_ l).
Definition set_prev_entry (v : option Z) (l : OrdersAtPrice) : OrdersAtPrice :=
  mkOrdersAtPrice (lvl_side_ l) (lvl_price_ l) (first_order_ l) v (next_entry_ l).
Definition set_next_entry (v : option Z) (l : OrdersAtPrice) : OrdersAtPrice :=
  mkOrdersAtPrice (lvl_side_ l) (lvl_price_ l) (first_order_ l) (prev_entry_ l) v.

(** What the book needs of an order type [Ord] whose index key is [K]: the
    members it reads and writes, and the bounds check of the index array. *)
Class OrderNode (Ord K : Type) := {
  ord_default :: DefaultCtor Ord;
  ord_side : Ord → Side;
  ord_price : Ord → Z;
  ord_key : Ord → K;
  key_in_range : K → bool;
  ord_prev : Ord → option Z;
  ord_next : Ord → option Z;
  set_prev : option Z → Ord → Ord;
  set_next : option Z → Ord → Ord }.

(** The order without its links: what the abstract book stores. *)
Definition erase `{OrderNode Ord K} (o : Ord) : Ord := set_prev None (set_next None o).

Class OrderNodeLaws (Ord K : Type) `{OrderNode Ord K} := {
  prev_set_prev v o : ord_prev (set_prev v o) = v;
  next_set_prev v o : ord_next (set_prev v o) = ord_next o;
  prev_set_next v o : ord_prev (set_next v o) = ord_prev o;
  next_set_next v o : ord_next (set_next v o) = v;
  side_set_prev v o : ord_side (set_prev v o) = ord_side o;
  side_set_next v o : ord_side (set_next v o) = ord_side o;
  price_set_prev v o : ord_price (set_prev v o) = ord_price o;
  price_set_next v o : ord_price (set_next v o) = ord_price o;
  key_set_prev v o : ord_key (set_prev v o) = ord_key o;
  key_set_next v o : ord_key (set_next v o) = ord_key o;
  erase_set_prev v o : erase (set_prev v o) = erase o;
  erase_set_next v o : erase (set_next v o) = erase o }.

Record Book (Ord K : Type) `{Countable K} := mkBook {
  orders_at_price_pool_ : MemPool OrdersAtPrice;
  order_pool_ : MemPool Ord;
  bids_by_price_ : option Z;
  asks_by_price_ : option Z;
  price_orders_at_price_ : gmap Z Z;
  order_index_ : gmap K Z }.
Arguments mkBook {Ord K _ _} _ _ _ _ _ _.
Arguments orders_at_price_pool_ {Ord K _ _} _.
Arguments order_pool_ {Ord K _ _} _.
Arguments bids_by_price_ {Ord K _ _} _.
Arguments asks_by_price_ {Ord K _ _} _.
Arguments price_orders_at_price_ {Ord K _ _} _.
Arguments order_index_ {Ord K _ _} _.

(** What the memory of the two index arrays holds when a book is created.  The
    arrays have no initialiser and the constructors do not fill them, so the
    pointers in them are whatever the memory contained: null where the map has no
    entry, else a stale pointer to a block of the pool (one that points elsewhere
    is beyond the model). *)
Record IndexMemory (K : Type) `{Countable K} := mkIndexMemory {
  mem_prices : gmap Z Z;
  mem_orders : gmap K Z }.
Arguments mkIndexMemory {K _ _} _ _.
Arguments mem_prices {K _ _} _.
Arguments mem_orders {K _ _} _.

(** Memory of zeros, as the system hands out for objects of this size: all pointers
    are null. *)
Definition zeroed {K} `{Countable K} : IndexMemory K := mkIndexMemory ∅ ∅.

Definition all_zeroed {K} `{Countable K} (mem : Z → IndexMemory K) : Prop := ∀ t, mem t = zeroed.

(** Following a pointer. *)
Definition deref (p : option Z) : result Z :=
  match p with Some i => Ok i | None => Err NullDeref end.

(** [price % ME_MAX_PRICE_LEVELS]: the signed price is converted to [size_t]. *)
Definition priceToIndex (price : Z) : Z := u64 price `mod` ME_MAX_PRICE_LEVELS.

Section Book.
Context {Ord K : Type} `{Countable K} `{!OrderNode Ord K}.
Implicit Types (b : Book Ord K).

Definition level b (i : Z) : OrdersAtPrice := obj (orders_at_price_pool_ b) i.
Definition order b (i : Z) : Ord := obj (order_pool_ b) i.

Definition set_level_pool p b : Book Ord K :=
  mkBook p (order_pool_ b) (bids_by_price_ b) (asks_by_price_ b)
    (price_orders_at_price_ b) (order_index_ b).
Definition set_order_pool p b : Book Ord K :=
  mkBook (orders_at_price_pool_ b) p (bids_by_price_ b) (asks_by_price_ b)
    (price_orders_at_price_ b) (order_index_ b).
Definition with_level (i : Z) (f : OrdersAtPrice → OrdersAtPrice) b : Book Ord K :=
  set_level_pool (pool_modify (orders_at_price_pool_ b) i f) b.
Definition with_order (i : Z) (f : Ord → Ord) b : Book Ord K :=
  set_order_pool (pool_modify (order_pool_ b) i f) b.
Definition set_price_index (m : gmap Z Z) b : Book Ord K :=
  mkBook (orders_at_price_pool_ b) (order_pool_ b) (bids_by_price_ b) (asks_by_price_ b)
    m (order_index_ b).
Definition set_order_index (m : gmap K Z) b : Book Ord K :=
  mkBook (orders_at_price_pool_ b) (order_pool_ b) (bids_by_price_ b) (asks_by_price_ b)
    (price_orders_at_price_ b) m.

(** [(side == Side::BUY ? bids_by_price_ : asks_by_price_)], read and assigned. *)
Definition side_head b (side : Side) : option Z :=
  if is_buy side then bids_by_price_ b else asks_by_price_ b.
Definition set_side_head (side : Side) (v : option Z) b : Book Ord K :=
  if is_buy side
  then mkBook (orders_at_price_pool_ b) (order_pool_ b) v (asks_by_price_ b)
         (price_orders_at_price_ b) (order_index_ b)
  else mkBook (orders_at_price_pool_ b) (order_pool_ b) (bids_by_price_ b) v
         (price_orders_at_price_ b) (order_index_ b).

Definition getOrdersAtPrice b (price : Z) : option Z :=
  price_orders_at_price_ b !! priceToIndex price.

(** The condition [add_after] of [addOrdersAtPrice]. *)
Definition goes_after (new target : OrdersAtPrice) : bool :=
  (is_sell (lvl_side_ new) && (lvl_price_ target <? lvl_price_ new))
  || (is_buy (lvl_side_ new) && (lvl_price_ new <? lvl_price_ target)).

(** [while (add_after && target != best)]. *)
Fixpoint addOrdersAtPrice_walk (fuel : nat) b (new : OrdersAtPrice) (best target : Z)
    (add_after : bool) : result (Z * bool) :=
  if add_after && negb (target =? best) then
    match fuel with
    | O => Err OutOfFuel
    | S fuel' =>
        let add_after' := goes_after new (level b target) in
        let* target' := (if add_after' then deref (next_entry_ (level b target)) else Ok target) in
        addOrdersAtPrice_walk fuel' b new best target' add_after'
    end
  else Ok (target, add_after).

(** "Walk the list to find the insertion point": the two tests before the loop
    and the loop. *)
Definition addOrdersAtPrice_find b (new : OrdersAtPrice) (best : Z) : result (Z * bool) :=
  let* (target, add_after) :=
    (if goes_after new (level b best) then
       let* t := deref (next_entry_ (level b best)) in
       Ok (t, goes_after new (level b t))
     else Ok (best, false)) in
  addOrdersAtPrice_walk (Z.to_nat (store_size (orders_at_price_pool_ b)))
    b new best target add_after.

(** The two link-ins at the end of [addOrdersAtPrice]. *)
Definition insert_level_after (new target : Z) b : result (Book Ord K) :=
  let b := with_level new (set_prev_entry (Some target)) b in
  let* t := deref (next_entry_ (level b target)) in
  let b := with_level t (set_prev_entry (Some new)) b in
  let b := with_level new (set_next_entry (next_entry_ (level b target))) b in
  Ok (with_level target (set_next_entry (Some new)) b).

Definition insert_level_before (new target : Z) b : result (Book Ord K) :=
  let b := with_level new (set_prev_entry (prev_entry_ (level b target))) b in
  let b := with_level new (set_next_entry (Some target)) b in
  let* t := deref (prev_entry_ (level b target)) in
  let b := with_level t (set_next_entry (Some new)) b in
  Ok (with_level target (set_prev_entry (Some new)) b).

Definition beats (new best : OrdersAtPrice) : bool :=
  (is_buy (lvl_side_ new) && (lvl_price_ best <? lvl_price_ new))
  || (is_sell (lvl_side_ new) && (lvl_price_ new <? lvl_price_ best)).

Definition addOrdersAtPrice (new : Z) b : result (Book Ord K) :=
  let n := level b new in
  let b := set_price_index
             (<[priceToIndex (lvl_price_ n) := new]> (price_orders_at_price_ b)) b in
  match side_head b (lvl_side_ n) with
  | None =>
      Ok (with_level new (λ l, set_prev_entry (Some new) (set_next_entry (Some new) l))
            (set_side_head (lvl_side_ n) (Some new) b))
  | Some best =>
      let* (target, add_after) := addOrdersAtPrice_find b n best in
      if add_after then
        let* target := (if target =? best then deref (prev_entry_ (level b best)) else Ok target) in
        insert_level_after new target b
      else
        let* b := insert_level_before new target b in
        if beats n (level b best) then
          let b := with_level target
            (λ l, set_next_entry
                    (if bool_decide (next_entry_ l = Some best) then Some new else next_entry_ l) l) b in
          Ok (set_side_head (lvl_side_ n) (Some new) b)
        else Ok b
  end.

Definition removeOrdersAtPrice (side : Side) (price : Z) b : result (Book Ord K) :=
  let best := side_head b side in
  let* lp := deref (getOrdersAtPrice b price) in
  let* b := (if bool_decide (next_entry_ (level b lp) = Some lp) then
         Ok (set_side_head side None b)
       else
         let* before := deref (prev_entry_ (level b lp)) in
         let b := with_level before (set_next_entry (next_entry_ (level b lp))) b in
         let* after := deref (next_entry_ (level b lp)) in
         let b := with_level after (set_prev_entry (prev_entry_ (level b lp))) b in
         let b := if bool_decide (Some lp = best)
                  then set_side_head side (next_entry_ (level b lp)) b else b in
         Ok (with_level lp (λ l, set_prev_entry None (set_next_entry None l)) b)) in
  let b := set_price_index (delete (priceToIndex price) (price_orders_at_price_ b)) b in
  let* p := deallocate lp (orders_at_price_pool_ b) in
  Ok (set_level_pool p b).

Definition removeOrder (optr : Z) b : result (Book Ord K) :=
  let o := order b optr in
  let orders_at_price := getOrdersAtPrice b (ord_price o) in
  let* b := (if bool_decide (ord_prev o = Some optr) then
         removeOrdersAtPrice (ord_side o) (ord_price o) b
       else
         let* before := deref (ord_prev o) in
         let* after := deref (ord_next o) in
         let b := with_order before (set_next (Some after)) b in
         let b := with_order after (set_prev (Some before)) b in
         let* lp := deref orders_at_price in
         let b := if bool_decide (first_order_ (level b lp) = Some optr)
                  then with_level lp (set_first_order (Some after)) b else b in
         Ok (with_order optr (λ o, set_prev None (set_next None o)) b)) in
  let k := ord_key (order b optr) in
  if negb (key_in_range k) then Err OutOfRange else
  let b := set_order_index (delete k (order_index_ b)) b in
  let* p := deallocate optr (order_pool_ b) in
  Ok (set_order_pool p b).

Definition addOrder (optr : Z) b : result (Book Ord K) :=
  let o := order b optr in
  let* b := match getOrdersAtPrice b (ord_price o) with
      | None =>
          let b := with_order optr (λ o, set_next (Some optr) (set_prev (Some optr) o)) b in
          let* (new_level, p) := allocate
             (mkOrdersAtPrice (ord_side o) (ord_price o) (Some optr) None None)
             (orders_at_price_pool_ b) in
          addOrdersAtPrice new_level (set_level_pool p b)
      | Some lp =>
          let* first := deref (first_order_ (level b lp)) in
          let* fprev := deref (ord_prev (order b first)) in
          let b := with_order fprev (set_next (Some optr)) b in
          let b := with_order optr (set_prev (ord_prev (order b first))) b in
          let b := with_order optr (set_next (Some first)) b in
          Ok (with_order first (set_prev (Some optr)) b)
      end in
  let k := ord_key (order b optr) in
  if negb (key_in_range k) then Err OutOfRange else
  Ok (set_order_index (<[k := optr]> (order_index_ b)) b).
End Book.
