(* ===== verification/BookSpec.v ===== *)
(** * Abstract specification of one side of an order book.

    A side is the list of its resting orders in execution priority: best price
    first, first come first served within a price.  [insert_order] queues a new
    order behind every order of the same or a better price, [remove_order]
    deletes by key.  BookRep.v proves that the pointer structure of BookCore.v
    implements these lists. *)

From stdpp Require Import gmap list sorting.
From S2P Require Import Prelude MemPool Types BookCore.

Open Scope Z_scope.

(** [p] is a strictly better price than [q] for a resting order of side [s]. *)
Definition better (s : Side) (p q : Z) : bool :=
  if is_buy s then q <? p else p <? q.

Definition opposite (s : Side) : Side := if is_buy s then SELL else BUY.

Definition proper_side (s : Side) : Prop := s = BUY ∨ s = SELL.

#[export] Instance proper_side_dec s : Decision (proper_side s).
Proof. unfold proper_side. apply _. Defined.

Section Spec.
Context {Ord K : Type} `{Countable K} `{!OrderNode Ord K}.
Implicit Types (o x : Ord) (q : list Ord) (s : Side).

Fixpoint insert_order s o q : list Ord :=
  match q with
  | [] => [o]
  | x :: q' =>
      if better s (ord_price o) (ord_price x) then o :: x :: q'
      else x :: insert_order s o q'
  end.

Definition remove_order (k : K) q : list Ord := filter (λ x, ord_key x ≠ k) q.

Definition price_sorted s q : Prop :=
  StronglySorted (λ x y, better s (ord_price y) (ord_price x) = false) q.

Lemma better_irrefl s p : better s p p = false.
Proof. unfold better. case_match; lia. Qed.

Lemma better_trans s p r t : better s p r = true → better s r t = true → better s p t = true.
Proof. unfold better. case_match; lia. Qed.

Lemma better_asym s p r : better s p r = true → better s r p = false.
Proof. unfold better. case_match; lia. Qed.

Lemma better_total s p r : p ≠ r → better s p r = false → better s r p = true.
Proof. unfold better. case_match; lia. Qed.

Lemma better_neg_trans s p r t :
  better s r p = false → better s t r = false → better s t p = false.
Proof. unfold better. case_match; lia. Qed.

Lemma insert_order_app s o q1 q2 :
  (∀ x, x ∈ q1 → better s (ord_price o) (ord_price x) = false) →
  (∀ x, x ∈ q2 → better s (ord_price o) (ord_price x) = true) →
  insert_order s o (q1 ++ q2) = q1 ++ o :: q2.
Proof.
  intros H1 H2. induction q1 as [|x q1 IH]; simpl.
  - destruct q2 as [|y q2]; [done|]. simpl. by rewrite H2 by set_solver.
  - rewrite H1 by set_solver. by rewrite IH by set_solver.
Qed.

Lemma insert_order_perm s o q : insert_order s o q ≡ₚ o :: q.
Proof.
  induction q as [|x q IH]; simpl; [done|]. case_match; [done|].
  rewrite IH. apply Permutation_swap.
Qed.

Lemma price_sorted_insert s o q : price_sorted s q → price_sorted s (insert_order s o q).
Proof.
  unfold price_sorted. induction 1 as [|x q Hs IH Hx]; simpl.
  - repeat constructor.
  - destruct (better s (ord_price o) (ord_price x)) eqn:E.
    + constructor; [by constructor|]. constructor; [by apply better_asym|].
      eapply Forall_impl; [exact Hx|]. intros y Hy. simpl in Hy.
      destruct (better s (ord_price y) (ord_price o)) eqn:E'; [|done].
      by rewrite (better_trans s _ _ _ E' E) in Hy.
    + constructor; [done|]. rewrite insert_order_perm. by constructor.
Qed.

Lemma price_sorted_sublist s q q' : sublist q' q → price_sorted s q → price_sorted s q'.
Proof. apply StronglySorted_sublist. Qed.

Lemma remove_order_sublist k q : sublist (remove_order k q) q.
Proof. apply sublist_filter. Qed.

(** Where [insert_order] puts the order. *)
Lemma insert_order_split s o q :
  price_sorted s q →
  ∃ q1 q2, q = q1 ++ q2 ∧ insert_order s o q = q1 ++ o :: q2
    ∧ (∀ x, x ∈ q1 → better s (ord_price o) (ord_price x) = false)
    ∧ (∀ x, x ∈ q2 → better s (ord_price o) (ord_price x) = true).
Proof.
  induction 1 as [|x q Hs IH Hx]; simpl; [by exists [], []; set_solver|].
  destruct (better s (ord_price o) (ord_price x)) eqn:E.
  - exists [], (x :: q). split_and!; [done..|set_solver|].
    intros y [->|Hy]%elem_of_cons; [done|]. rewrite Forall_forall in Hx. specialize (Hx y Hy).
    unfold better in *. destruct (is_buy s); lia.
  - destruct IH as (q1 & q2 & -> & -> & H1 & H2). exists (x :: q1), q2. set_solver.
Qed.

Lemma insert_order_sorted (R : relation Ord) s o q :
  price_sorted s q → StronglySorted R q →
  (∀ x, x ∈ q → better s (ord_price o) (ord_price x) = false → R x o) →
  (∀ x, x ∈ q → better s (ord_price o) (ord_price x) = true → R o x) →
  StronglySorted R (insert_order s o q).
Proof.
  intros Hp Hs H1 H2. destruct (insert_order_split s o q Hp) as (q1 & q2 & -> & -> & Hb1 & Hb2).
  apply StronglySorted_app in Hs as (S12 & S1 & S2). apply StronglySorted_app. split_and!.
  - intros x y Hx [->|Hy]%elem_of_cons; [|by apply S12]. apply H1; [set_solver|by apply Hb1].
  - done.
  - constructor; [done|]. apply Forall_forall. intros y Hy. apply H2; [set_solver|by apply Hb2].
Qed.
End Spec.
