(* ===== verification/BookRep.v ===== *)
(** * The pointer structure implements the abstract book.

    [book_ok b g extra] is the representation invariant: the ghost state [g]
    gives, per side, the level pointers in price order and the order pointers
    of each level in time order; [extra] are orders allocated but not yet
    linked.  The theorems [addOrder_ok] and [removeOrder_ok] say that the code
    of BookCore.v succeeds, re-establishes the invariant, and acts on the
    flattened sides as [insert_order] and [remove_order] of BookSpec.v. *)

From stdpp Require Import gmap list sorting.
From S2P Require Import Prelude CircList MemPool Types BookCore BookSpec.

Open Scope Z_scope.
Local Coercion Z.of_nat : nat >-> Z.

Section Rep.
Context {Ord K : Type} `{Countable K} `{!OrderNode Ord K} `{!OrderNodeLaws Ord K}.
Implicit Types (b : Book Ord K) (s : Side) (i j lp : Z).

(** ** Reading after writing *)

Lemma level_with_level b i f j :
  level (with_level i f b) j = if decide (i = j) then f (level b i) else level b j.
Proof. unfold level, with_level. simpl. apply obj_pool_modify. Qed.

Lemma order_with_order b i f j :
  order (with_order i f b) j = if decide (i = j) then f (order b i) else order b j.
Proof. unfold order, with_order. simpl. apply obj_pool_modify. Qed.

Lemma side_head_set_side_head s s' v b :
  proper_side s → proper_side s' →
  side_head (set_side_head s v b) s' = if decide (s = s') then v else side_head b s'.
Proof. by intros [->| ->] [->| ->]. Qed.

Lemma level_set_side_head s v b i : level (set_side_head s v b) i = level b i.
Proof. unfold set_side_head. by case_match. Qed.
Lemma order_set_side_head s v b i : order (set_side_head s v b) i = order b i.
Proof. unfold set_side_head. by case_match. Qed.
Lemma level_pool_set_side_head s v b :
  orders_at_price_pool_ (set_side_head s v b) = orders_at_price_pool_ b.
Proof. unfold set_side_head. by case_match. Qed.
Lemma order_pool_set_side_head s v b : order_pool_ (set_side_head s v b) = order_pool_ b.
Proof. unfold set_side_head. by case_match. Qed.
Lemma price_index_set_side_head s v b :
  price_orders_at_price_ (set_side_head s v b) = price_orders_at_price_ b.
Proof. unfold set_side_head. by case_match. Qed.
Lemma order_index_set_side_head s v b : order_index_ (set_side_head s v b) = order_index_ b.
Proof. unfold set_side_head. by case_match. Qed.

(** ** Level updates that keep side, price and first order *)

Definition lvl_data (l : OrdersAtPrice) := (lvl_side_ l, lvl_price_ l, first_order_ l).

(** [b'] differs from [b] in level links only. *)
Record relinked b b' : Prop := {
  rl_order_pool : order_pool_ b' = order_pool_ b;
  rl_price_index : price_orders_at_price_ b' = price_orders_at_price_ b;
  rl_order_index : order_index_ b' = order_index_ b;
  rl_data : ∀ i, lvl_data (level b' i) = lvl_data (level b i);
  rl_in_use : ∀ i, in_use (orders_at_price_pool_ b') i ↔ in_use (orders_at_price_pool_ b) i;
  rl_wf : pool_wf (orders_at_price_pool_ b) → pool_wf (orders_at_price_pool_ b');
  rl_size : store_size (orders_at_price_pool_ b') = store_size (orders_at_price_pool_ b) }.

Lemma relinked_refl b : relinked b b.
Proof. by split. Qed.

Lemma relinked_trans b1 b2 b3 : relinked b1 b2 → relinked b2 b3 → relinked b1 b3.
Proof. intros [] []. split; intros; try etrans; eauto. Qed.

Lemma relinked_with_level b i f :
  (∀ l, lvl_data (f l) = lvl_data l) → relinked b (with_level i f b).
Proof.
  intros Hf. split; try done.
  - intros j. rewrite level_with_level. case_decide; [by subst|done].
  - intros j. apply in_use_pool_modify.
  - apply pool_wf_modify.
Qed.

Lemma relinked_set_side_head s v b : relinked b (set_side_head s v b).
Proof.
  split; intros; rewrite ?order_pool_set_side_head, ?price_index_set_side_head,
    ?order_index_set_side_head, ?level_set_side_head, ?level_pool_set_side_head in *; done.
Qed.

Lemma relinked_side b b' i : relinked b b' → lvl_side_ (level b' i) = lvl_side_ (level b i).
Proof. intros Hr. pose proof (rl_data _ _ Hr i) as E. unfold lvl_data in E. by simplify_eq. Qed.
Lemma relinked_price b b' i : relinked b b' → lvl_price_ (level b' i) = lvl_price_ (level b i).
Proof. intros Hr. pose proof (rl_data _ _ Hr i) as E. unfold lvl_data in E. by simplify_eq. Qed.
Lemma relinked_first b b' i :
  relinked b b' → first_order_ (level b' i) = first_order_ (level b i).
Proof. intros Hr. pose proof (rl_data _ _ Hr i) as E. unfold lvl_data in E. by simplify_eq. Qed.

Lemma goes_after_better (n t : OrdersAtPrice) :
  proper_side (lvl_side_ n) → goes_after n t = better (lvl_side_ n) (lvl_price_ t) (lvl_price_ n).
Proof. unfold goes_after, better. intros [->| ->]; simpl; by rewrite ?orb_false_r. Qed.

Lemma beats_better (n t : OrdersAtPrice) :
  proper_side (lvl_side_ n) → beats n t = better (lvl_side_ n) (lvl_price_ n) (lvl_price_ t).
Proof. unfold beats, better. intros [->| ->]; simpl; by rewrite ?orb_false_r. Qed.

(** ** Splicing a level into the ring of its side *)

Abbreviation lnext b := (λ i, next_entry_ (level b i)).
Abbreviation lprev b := (λ i, prev_entry_ (level b i)).

(** Node [n] has been linked between [a] and [c]. *)
Record spliced b b' a n c : Prop := {
  sp_next : ∀ i, lnext b' i = if decide (i = a) then Some n
                              else if decide (i = n) then Some c else lnext b i;
  sp_prev : ∀ i, lprev b' i = if decide (i = c) then Some n
                              else if decide (i = n) then Some a else lprev b i;
  sp_relinked : relinked b b';
  sp_frame : ∀ i, i ≠ a → i ≠ n → i ≠ c → level b' i = level b i;
  sp_heads : ∀ s, side_head b' s = side_head b s }.

Ltac solve_links :=
  intros; rewrite ?level_with_level; repeat (case_decide; subst; simpl in *; try done);
  rewrite ?level_with_level; repeat (case_decide; subst; simpl in *; try done); try congruence.

Lemma insert_level_after_spec b n a c :
  n ≠ a → n ≠ c → lnext b a = Some c →
  ∃ b', insert_level_after n a b = Ok b' ∧ spliced b b' a n c.
Proof.
  intros Hna Hnc Hac. unfold insert_level_after.
  rewrite level_with_level, decide_False by done. rewrite Hac. simpl.
  eexists; split; [done|].
  rewrite !level_with_level. rewrite (decide_False (P := n = a)) by done.
  assert (next_entry_ (if decide (c = a) then
                         set_prev_entry (Some n) (if decide (n = c) then
                           set_prev_entry (Some a) (level b n) else level b c)
                       else level b a) = Some c) as ->.
  { case_decide; subst; [|done]. by rewrite decide_False. }
  split; [solve_links|solve_links|..].
  - repeat (eapply relinked_trans; [|by apply relinked_with_level]). apply relinked_refl.
  - solve_links.
  - done.
Qed.

Lemma insert_level_before_spec b n a c :
  n ≠ a → n ≠ c → lprev b c = Some a →
  ∃ b', insert_level_before n c b = Ok b' ∧ spliced b b' a n c.
Proof.
  intros Hna Hnc Hac. unfold insert_level_before.
  rewrite !level_with_level, !(decide_False (P := n = c)) by done. rewrite Hac. simpl.
  eexists; split; [done|].
  split; [solve_links|solve_links|..].
  - repeat (eapply relinked_trans; [|by apply relinked_with_level]). apply relinked_refl.
  - solve_links.
  - done.
Qed.

Lemma spliced_cyc b b' l1 l2 a n c :
  spliced b b' a n c → cyc (lnext b) (lprev b) (l1 ++ l2) → NoDup (l1 ++ l2) → n ∉ l1 ++ l2 →
  last (l2 ++ l1) = Some a → head (l2 ++ l1) = Some c →
  cyc (lnext b') (lprev b') (l1 ++ n :: l2).
Proof.
  intros [Hn Hp _ _ _] Hc Hnd Hnl Ha Hcc.
  assert (n ≠ a) by (apply last_Some_elem_of in Ha; set_solver).
  assert (n ≠ c) by (apply head_Some_elem_of in Hcc; set_solver).
  eapply cyc_insert with (a := a) (b := c); try done; simpl; intros;
    rewrite ?Hn, ?Hp; repeat case_decide; congruence.
Qed.

(** ** The walk to the insertion point *)

Section Walk.
Context b (n best : Z) (l1 l2 : list Z).
Abbreviation N := (level b n).
Context (Hring : cyc (lnext b) (lprev b) (l1 ++ l2)).
Context (Hnd : NoDup (l1 ++ l2)).
Context (Hbest : head (l1 ++ l2) = Some best).
Context (H1 : ∀ i, i ∈ l1 → goes_after N (level b i) = true).
Context (H2 : ∀ i, i ∈ l2 → goes_after N (level b i) = false).

(** Where the walk stops: at the first level that does not precede the new
    one, or back at [best]. *)
Definition stop : Z * bool :=
  match head l2 with Some t => (t, false) | None => (best, true) end.

Lemma walk_ok fuel m r :
  l1 = m ++ r → m ≠ [] → (length r < fuel)%nat →
  addOrdersAtPrice_walk fuel b N best (default best (head (r ++ l2))) true = Ok stop.
Proof.
  revert m fuel. induction r as [|x r IH]; intros m fuel Hm Hm0 Hfuel.
  all: destruct fuel as [|fuel]; [simpl in Hfuel; lia|].
  - rewrite app_nil_r in Hm. subst m. simpl. unfold stop.
    destruct l2 as [|t l2']; simpl.
    { by rewrite Z.eqb_refl. }
    assert (t ≠ best).
    { intros ->. destruct l1 as [|y l1']; [done|]. simpl in *. simplify_eq.
      apply NoDup_cons in Hnd as [? _]. set_solver. }
    destruct (Z.eqb_spec t best); [done|]. simpl.
    rewrite H2 by set_solver. simpl. by destruct fuel.
  - destruct m as [|y m]; [done|].
    assert (y = best) as -> by (subst l1; simpl in Hbest; by simplify_eq).
    assert (x ≠ best).
    { intros ->. subst l1. simpl in Hnd. apply NoDup_cons in Hnd as [? _]. set_solver. }
    simpl. destruct (Z.eqb_spec x best); [done|]. simpl.
    rewrite H1 by (subst l1; set_solver). simpl.
    assert (next_entry_ (level b x) = Some (default best (head (r ++ l2)))) as ->.
    { subst l1.
      assert (((best :: m) ++ x :: r) ++ l2 = (best :: m) ++ x :: (r ++ l2)) as E
        by by rewrite <- (assoc_L (++)).
      rewrite E in Hring. apply cyc_next in Hring. simpl in Hring. rewrite Hring.
      f_equal. by destruct (r ++ l2). }
    simpl. apply (IH ((best :: m) ++ [x])); [|done|simpl in Hfuel; lia].
    by rewrite <- (assoc_L (++)).
Qed.

End Walk.

(** The same from the first test of the code, outside the loop. *)
Lemma find_ok b n best l1 l2 :
  cyc (lnext b) (lprev b) (l1 ++ l2) → NoDup (l1 ++ l2) → head (l1 ++ l2) = Some best →
  (∀ i, i ∈ l1 → goes_after (level b n) (level b i) = true) →
  (∀ i, i ∈ l2 → goes_after (level b n) (level b i) = false) →
  length (l1 ++ l2) < store_size (orders_at_price_pool_ b) →
  addOrdersAtPrice_find b (level b n) best = Ok (stop best l2).
Proof.
  intros Hring Hnd Hbest H1 H2 Hsz. unfold addOrdersAtPrice_find.
  set (fuel := Z.to_nat _).
  assert (length l1 < fuel)%nat as Hfuel by (rewrite length_app in Hsz; lia).
  clearbody fuel. destruct l1 as [|x r].
  - simpl in Hbest. unfold stop.
    assert (best ∈ l2) as Hin by by apply head_Some_elem_of.
    rewrite (H2 best Hin), Hbest. simpl. by destruct fuel.
  - simpl in Hbest. simplify_eq.
    rewrite H1 by set_solver.
    assert (next_entry_ (level b best) = Some (default best (head (r ++ l2)))) as ->.
    { apply (cyc_next _ _ [] best (r ++ l2)) in Hring. by rewrite app_nil_r in Hring. }
    simpl.
    pose proof (walk_ok b n best (best :: r) l2 Hring Hnd eq_refl H1 H2 fuel [best] r
      eq_refl ltac:(done) ltac:(simpl in Hfuel; lia)) as Hw.
    destruct (head (r ++ l2)) as [t|] eqn:Et; simpl in *.
    + destruct (goes_after (level b n) (level b t)) eqn:Eg; [done|].
      assert (r = []) as ->.
      { destruct r; [done|]. simpl in Et. simplify_eq.
        by rewrite H1 in Eg by set_solver. }
      simpl in Et. unfold stop. rewrite Et. by destruct fuel.
    + by rewrite H1 by set_solver.
Qed.

(** ** [addOrdersAtPrice] *)

Lemma split_sorted {A} s (pr : A → Z) (p : Z) (l : list A) :
  StronglySorted (λ x y, better s (pr x) (pr y) = true) l → (∀ x, x ∈ l → pr x ≠ p) →
  ∃ l1 l2, l = l1 ++ l2 ∧ (∀ x, x ∈ l1 → better s (pr x) p = true)
         ∧ (∀ x, x ∈ l2 → better s p (pr x) = true).
Proof.
  induction 1 as [|x l Hl IH Hx]; intros Hne; [by exists [], []; set_solver|].
  destruct (better s (pr x) p) eqn:E.
  - destruct IH as (l1 & l2 & -> & H1 & H2); [set_solver|].
    exists (x :: l1), l2. split_and!; [done| |done]. set_solver.
  - exists [], (x :: l). split_and!; [done|set_solver|].
    assert (better s p (pr x) = true) as Hpx.
    { apply better_total; [|done]. by apply Hne; set_solver. }
    intros y [->|Hi]%elem_of_cons; [done|].
    rewrite Forall_forall in Hx. by eapply better_trans; [|apply Hx].
Qed.

Record level_added b b' s n l1 l2 : Prop := {
  la_ring : cyc (lnext b') (lprev b') (l1 ++ n :: l2);
  la_head : side_head b' s = head (l1 ++ n :: l2);
  la_other : ∀ s', proper_side s' → s' ≠ s → side_head b' s' = side_head b s';
  la_frame : ∀ i, i ∉ n :: l1 ++ l2 → level b' i = level b i;
  la_relinked : relinked (set_price_index
    (<[priceToIndex (lvl_price_ (level b n)) := n]> (price_orders_at_price_ b)) b) b' }.

(** The promotion of a new best level rewrites [target->next_entry_] with the
    value it already has. *)
Lemma promote_noop b target best n i :
  lnext b target ≠ Some best →
  level (with_level target (λ l, set_next_entry
    (if bool_decide (next_entry_ l = Some best) then Some n else next_entry_ l) l) b) i
  = level b i.
Proof.
  intros Hne. rewrite level_with_level. case_decide; [subst|done].
  rewrite bool_decide_eq_false_2 by done. by destruct (level b i).
Qed.

Lemma level_added_spliced b b0 b1 b' s n l1 l2 a c :
  b0 = set_price_index
    (<[priceToIndex (lvl_price_ (level b n)) := n]> (price_orders_at_price_ b)) b →
  spliced b0 b1 a n c → cyc (lnext b) (lprev b) (l1 ++ l2) → NoDup (l1 ++ l2) → n ∉ l1 ++ l2 →
  last (l2 ++ l1) = Some a → head (l2 ++ l1) = Some c →
  (∀ i, level b' i = level b1 i) → relinked b1 b' →
  side_head b' s = head (l1 ++ n :: l2) →
  (∀ s', proper_side s' → s' ≠ s → side_head b' s' = side_head b1 s') →
  level_added b b' s n l1 l2.
Proof.
  intros -> Hsp Hring Hnd Hn Ha Hc Hl Hr Hh Ho. split.
  - eapply cyc_frame; [..|by eapply (spliced_cyc _ _ l1 l2)]; simpl; intros; by rewrite Hl.
  - done.
  - intros s' Hs' Hne. rewrite Ho by done. by rewrite (sp_heads _ _ _ _ _ Hsp).
  - intros i Hi. rewrite Hl, (sp_frame _ _ _ _ _ Hsp); [done|..].
    + apply last_Some_elem_of in Ha. set_solver.
    + set_solver.
    + apply head_Some_elem_of in Hc. set_solver.
  - eapply relinked_trans; [by apply (sp_relinked _ _ _ _ _ Hsp)|done].
Qed.

(** The successor of the head of a ring of two or more nodes is another node. *)
Lemma ring_next_ne b t l a :
  cyc (lnext b) (lprev b) (t :: l) → NoDup (t :: l) → last (t :: l) = Some a → t ≠ a →
  lnext b t ≠ Some t.
Proof.
  intros Hring [Ht _]%NoDup_cons Ha Hne.
  rewrite (cyc_next _ _ [] t l Hring), app_nil_r.
  destruct l as [|x l]; simpl in *; [by simplify_eq|]. intros [= ->]. set_solver.
Qed.

(** The three places of a new level [n]. *)
Section Place.
Context b (n : Z).
Let s := lvl_side_ (level b n).
Let b0 := set_price_index (<[priceToIndex (lvl_price_ (level b n)) := n]> (price_orders_at_price_ b)) b.
Hypothesis Hs : proper_side s.

(** An empty side. *)
Lemma add_level_alone :
  level_added b (with_level n (λ l, set_prev_entry (Some n) (set_next_entry (Some n) l)) (set_side_head s (Some n) b0)) s n [] [].
Proof.
  set (b1 := set_side_head s (Some n) b0). split.
  - simpl. unfold link. rewrite !level_with_level. by rewrite decide_True.
  - change (side_head b1 s = Some n). unfold b1. rewrite side_head_set_side_head by done. by rewrite decide_True.
  - intros s' Hs' Hne. change (side_head b1 s' = side_head b s').
    unfold b1. rewrite side_head_set_side_head by done. by rewrite decide_False.
  - intros i Hi. rewrite level_with_level, decide_False by set_solver. unfold b1. by rewrite level_set_side_head.
  - eapply relinked_trans; [apply relinked_set_side_head|]. by apply relinked_with_level.
Qed.

(** Behind all levels. *)
Lemma add_level_last best l :
  side_head b s = Some best → cyc (lnext b) (lprev b) (best :: l) → NoDup (best :: l) → n ∉ best :: l →
  ∃ b', (let* target := deref (prev_entry_ (level b0 best)) in insert_level_after n target b0) = Ok b'
    ∧ level_added b b' s n (best :: l) [].
Proof.
  intros Hhead Hring Hnd Hn. destruct (last (best :: l)) as [a|] eqn:Ha; [|by apply last_None in Ha].
  assert (lprev b0 best = Some a) as Hprev by exact (cyc_head_prev _ _ _ best a Hring eq_refl Ha).
  assert (lnext b0 a = Some best) as Hnext by exact (cyc_last_next _ _ _ best a Hring eq_refl Ha).
  rewrite Hprev. simpl. destruct (insert_level_after_spec b0 n a best) as (b1 & -> & Hsp); [..|done|].
  { apply last_Some_elem_of in Ha. set_solver. }
  { set_solver. }
  eexists; split; [done|].
  eapply level_added_spliced with (b0 := b0) (b1 := b1) (l2 := []); try done; rewrite ?app_nil_r; try done.
  by rewrite (sp_heads _ _ _ _ _ Hsp).
Qed.

(** Before level [t]; without levels before it the new one is the best. *)
Lemma add_level_before best l1 t l2 :
  side_head b s = Some best → head (l1 ++ t :: l2) = Some best →
  cyc (lnext b) (lprev b) (l1 ++ t :: l2) → NoDup (l1 ++ t :: l2) → n ∉ l1 ++ t :: l2 →
  (∀ i, i ∈ l1 → better s (lvl_price_ (level b i)) (lvl_price_ (level b n)) = true) →
  better s (lvl_price_ (level b n)) (lvl_price_ (level b t)) = true →
  ∃ b', (let* b := insert_level_before n t b0 in
         if beats (level b0 n) (level b best) then
           let b := with_level t
             (λ l, set_next_entry (if bool_decide (next_entry_ l = Some best) then Some n else next_entry_ l) l) b in
           Ok (set_side_head s (Some n) b)
         else Ok b) = Ok b'
    ∧ level_added b b' s n l1 (t :: l2).
Proof.
  intros Hhead Hbest Hring Hnd Hn H1 H2. destruct (last ((t :: l2) ++ l1)) as [a|] eqn:Ha; [|by apply last_None in Ha].
  assert (lprev b0 t = Some a) as Hprev.
  { simpl. change (level b0 t) with (level b t). rewrite (cyc_prev _ _ _ _ _ Hring).
    f_equal. rewrite <- app_comm_cons, last_cons in Ha. destruct (last (l2 ++ l1)); by simplify_eq. }
  destruct (insert_level_before_spec b0 n a t) as (b1 & -> & Hsp); [..|done|].
  { apply last_Some_elem_of in Ha. set_solver. }
  { set_solver. }
  assert (n ≠ t) as Hnt by set_solver. simpl. rewrite beats_better by done. change (level b0 n) with (level b n).
  rewrite (relinked_price _ _ _ (sp_relinked _ _ _ _ _ Hsp)). change (level b0 best) with (level b best). fold s.
  destruct l1 as [|best' l1]; simpl in Hbest; simplify_eq.
  - rewrite H2. rewrite app_nil_r in *. eexists; split; [done|]. simpl in Hring, Hnd.
    assert (lnext b1 best ≠ Some best) as Hno.
    { rewrite (sp_next _ _ _ _ _ Hsp). case_decide; [congruence|]. rewrite decide_False by done. by apply (ring_next_ne b best l2 a). }
    eapply level_added_spliced with (b0 := b0) (b1 := b1) (l1 := []) (l2 := best :: l2); try done; rewrite ?app_nil_r; try done.
    + intros i. rewrite level_set_side_head. by apply promote_noop.
    + eapply relinked_trans; [|apply relinked_set_side_head]. by apply relinked_with_level.
    + rewrite side_head_set_side_head by done. by rewrite decide_True.
    + intros s' Hs' Hne. rewrite side_head_set_side_head by done. by rewrite decide_False.
  - rewrite better_asym by (apply H1; set_solver). eexists; split; [done|].
    eapply level_added_spliced with (b0 := b0) (b1 := b1); try done. by rewrite (sp_heads _ _ _ _ _ Hsp).
Qed.
End Place.

Lemma addOrdersAtPrice_split b s n l1 l2 :
  proper_side s → lvl_side_ (level b n) = s → side_head b s = head (l1 ++ l2) →
  cyc (lnext b) (lprev b) (l1 ++ l2) → NoDup (l1 ++ l2) → n ∉ l1 ++ l2 →
  (∀ i, i ∈ l1 → better s (lvl_price_ (level b i)) (lvl_price_ (level b n)) = true) →
  (∀ i, i ∈ l2 → better s (lvl_price_ (level b n)) (lvl_price_ (level b i)) = true) →
  length (l1 ++ l2) < store_size (orders_at_price_pool_ b) →
  ∃ b', addOrdersAtPrice n b = Ok b' ∧ level_added b b' s n l1 l2.
Proof.
  intros Hs <- Hhead Hring Hnd Hn H1 H2 Hsz. unfold addOrdersAtPrice.
  set (b0 := set_price_index _ b). change (side_head b0 ?s) with (side_head b s).
  rewrite Hhead. destruct (head (l1 ++ l2)) as [best|] eqn:Hbest.
  2: { apply head_None, app_nil in Hbest as [-> ->]. eexists; split; [done|]. by apply add_level_alone. }
  assert (G1 : ∀ i, i ∈ l1 → goes_after (level b0 n) (level b0 i) = true)
    by (intros i Hi; rewrite goes_after_better by done; by apply H1).
  assert (G2 : ∀ i, i ∈ l2 → goes_after (level b0 n) (level b0 i) = false)
    by (intros i Hi; rewrite goes_after_better by done; by apply better_asym, H2).
  change (level b n) with (level b0 n) at 1.
  rewrite (find_ok b0 n best l1 l2) by done. simpl. unfold stop. destruct l2 as [|t l2]; simpl.
  - rewrite app_nil_r in *. rewrite Z.eqb_refl. destruct l1 as [|best' l1]; [done|]. injection Hbest as ->. by apply add_level_last.
  - apply add_level_before; try done. apply H2. set_solver.
Qed.
(** ** The representation invariant *)

Abbreviation onext b := (λ i, ord_next (order b i)).
Abbreviation oprev b := (λ i, ord_prev (order b i)).

(** A ghost level: its pointer and the pointers of its orders, oldest first. *)
Abbreviation glevel := (Z * list Z)%type.

Record ghost := mkGhost { g_bids : list glevel; g_asks : list glevel }.

Definition g_side (g : ghost) s : list glevel := if is_buy s then g_bids g else g_asks g.
Definition set_g_side (g : ghost) s (ls : list glevel) : ghost :=
  if is_buy s then mkGhost ls (g_asks g) else mkGhost (g_bids g) ls.
Definition g_all (g : ghost) : list glevel := g_bids g ++ g_asks g.
Definition orders_of (ls : list glevel) : list Z := concat ls.*2.

Record level_ok b s (gl : glevel) : Prop := {
  lo_side : lvl_side_ (level b gl.1) = s;
  lo_first : first_order_ (level b gl.1) = head gl.2;
  lo_nonempty : gl.2 ≠ [];
  lo_ring : cyc (onext b) (oprev b) gl.2;
  lo_orders : ∀ i, i ∈ gl.2 → ord_side (order b i) = s
                            ∧ ord_price (order b i) = lvl_price_ (level b gl.1) }.

Record side_ok b s (ls : list glevel) : Prop := {
  so_head : side_head b s = head ls.*1;
  so_ring : cyc (lnext b) (lprev b) ls.*1;
  so_sorted : StronglySorted
    (λ i j, better s (lvl_price_ (level b i)) (lvl_price_ (level b j)) = true) ls.*1;
  so_levels : Forall (level_ok b s) ls }.

Record book_ok b (g : ghost) (extra : list Z) : Prop := {
  bo_side : ∀ s, proper_side s → side_ok b s (g_side g s);
  bo_level_pool : pool_wf (orders_at_price_pool_ b);
  bo_order_pool : pool_wf (order_pool_ b);
  bo_levels : ∀ i, in_use (orders_at_price_pool_ b) i ↔ i ∈ (g_all g).*1;
  bo_orders : ∀ i, in_use (order_pool_ b) i ↔ i ∈ orders_of (g_all g) ++ extra;
  bo_levels_nodup : NoDup (g_all g).*1;
  bo_orders_nodup : NoDup (orders_of (g_all g) ++ extra);
  bo_price_index : ∀ k lp, price_orders_at_price_ b !! k = Some lp
    ↔ lp ∈ (g_all g).*1 ∧ priceToIndex (lvl_price_ (level b lp)) = k;
  bo_order_index : ∀ k i, order_index_ b !! k = Some i
    ↔ i ∈ orders_of (g_all g) ∧ ord_key (order b i) = k }.

(** The abstract side: its orders in priority, links erased. *)
Definition flat b (ls : list glevel) : list Ord := (λ i, erase (order b i)) <$> orders_of ls.
Definition book_side b (g : ghost) s : list Ord := flat b (g_side g s).

(** ** Ghost-state bookkeeping *)

Lemma g_side_set_g_side g s s' ls :
  proper_side s → proper_side s' →
  g_side (set_g_side g s ls) s' = if decide (s = s') then ls else g_side g s'.
Proof. by intros [->| ->] [->| ->]. Qed.

Lemma proper_opposite s : proper_side (opposite s).
Proof. unfold opposite. case_match; [by right|by left]. Qed.

Lemma opposite_ne s : s ≠ opposite s.
Proof. by destruct s. Qed.

Lemma not_opposite s s' : proper_side s → proper_side s' → s ≠ s' → s' = opposite s.
Proof. by intros [->| ->] [->| ->]. Qed.

Lemma g_all_split g s : proper_side s → g_all g ≡ₚ g_side g s ++ g_side g (opposite s).
Proof. intros [->| ->]; simpl; [done|]. unfold g_all. by rewrite (comm (++)). Qed.

Lemma g_all_set g s ls : proper_side s → g_all (set_g_side g s ls) ≡ₚ ls ++ g_side g (opposite s).
Proof. intros [->| ->]; simpl; [done|]. unfold g_all. simpl. by rewrite (comm (++)). Qed.

Lemma orders_of_app ls1 ls2 : orders_of (ls1 ++ ls2) = orders_of ls1 ++ orders_of ls2.
Proof. unfold orders_of. by rewrite fmap_app, concat_app. Qed.

Lemma orders_of_cons gl ls : orders_of (gl :: ls) = gl.2 ++ orders_of ls.
Proof. done. Qed.

#[global] Instance orders_of_perm : Proper ((≡ₚ) ==> (≡ₚ)) orders_of.
Proof. intros ls1 ls2 Hp. unfold orders_of. by rewrite Hp. Qed.

Lemma elem_of_orders_of i ls : i ∈ orders_of ls ↔ ∃ gl, gl ∈ ls ∧ i ∈ gl.2.
Proof.
  unfold orders_of. rewrite list_elem_of_In, in_concat. setoid_rewrite <- list_elem_of_In.
  split.
  - intros (os & (gl & -> & ?)%list_elem_of_fmap & ?). eauto.
  - intros (gl & ? & ?). exists gl.2. split; [by apply list_elem_of_fmap_2|done].
Qed.

Lemma flat_app b ls1 ls2 : flat b (ls1 ++ ls2) = flat b ls1 ++ flat b ls2.
Proof. unfold flat. by rewrite orders_of_app, fmap_app. Qed.

Lemma erase_side (o o' : Ord) : erase o = erase o' → ord_side o = ord_side o'.
Proof.
  intros E. apply (f_equal ord_side) in E. unfold erase in E.
  by rewrite !side_set_prev, !side_set_next in E.
Qed.
Lemma erase_price (o o' : Ord) : erase o = erase o' → ord_price o = ord_price o'.
Proof.
  intros E. apply (f_equal ord_price) in E. unfold erase in E.
  by rewrite !price_set_prev, !price_set_next in E.
Qed.
Lemma erase_key (o o' : Ord) : erase o = erase o' → ord_key o = ord_key o'.
Proof.
  intros E. apply (f_equal ord_key) in E. unfold erase in E.
  by rewrite !key_set_prev, !key_set_next in E.
Qed.
Lemma price_erase (o : Ord) : ord_price (erase o) = ord_price o.
Proof. unfold erase. by rewrite price_set_prev, price_set_next. Qed.
Lemma key_erase (o : Ord) : ord_key (erase o) = ord_key o.
Proof. unfold erase. by rewrite key_set_prev, key_set_next. Qed.
Lemma side_erase (o : Ord) : ord_side (erase o) = ord_side o.
Proof. unfold erase. by rewrite side_set_prev, side_set_next. Qed.

(** ** Frames *)

Lemma level_ok_frame b b' s gl :
  lvl_data (level b' gl.1) = lvl_data (level b gl.1) →
  (∀ i, i ∈ gl.2 → order b' i = order b i) →
  level_ok b s gl → level_ok b' s gl.
Proof.
  unfold lvl_data. intros Hl Ho [Hs Hf Hne Hr Hos]. injection Hl as E1 E2 E3.
  split; [congruence|congruence|done|..].
  - eapply cyc_frame; [..|done]; intros i Hi; simpl; by rewrite Ho.
  - intros i Hi. rewrite Ho, E2 by done. by apply Hos.
Qed.

Lemma side_ok_frame b b' s ls :
  side_head b' s = side_head b s →
  (∀ i, i ∈ ls.*1 → level b' i = level b i) →
  (∀ i, i ∈ orders_of ls → order b' i = order b i) →
  side_ok b s ls → side_ok b' s ls.
Proof.
  intros Hh Hl Ho [H1 H2 H3 H4]. split.
  - congruence.
  - eapply cyc_frame; [..|done]; intros i Hi; simpl; by rewrite Hl.
  - eapply StronglySorted_impl_elem; [|exact H3]. intros i j Hi Hj. simpl. by rewrite !Hl.
  - rewrite Forall_forall in H4 |- *. intros gl Hgl. eapply level_ok_frame; [..|by apply H4].
    + by rewrite Hl by by apply list_elem_of_fmap_2.
    + intros i Hi. apply Ho. apply elem_of_orders_of. eauto.
Qed.

(** ** Order updates that keep everything but the links *)

Record orders_relinked b b' : Prop := {
  or_level_pool : orders_at_price_pool_ b' = orders_at_price_pool_ b;
  or_heads : ∀ s, side_head b' s = side_head b s;
  or_price_index : price_orders_at_price_ b' = price_orders_at_price_ b;
  or_order_index : order_index_ b' = order_index_ b;
  or_erase : ∀ i, erase (order b' i) = erase (order b i);
  or_in_use : ∀ i, in_use (order_pool_ b') i ↔ in_use (order_pool_ b) i;
  or_wf : pool_wf (order_pool_ b) → pool_wf (order_pool_ b');
  or_size : store_size (order_pool_ b') = store_size (order_pool_ b) }.

Lemma orders_relinked_refl b : orders_relinked b b.
Proof. by split. Qed.

Lemma orders_relinked_trans b1 b2 b3 :
  orders_relinked b1 b2 → orders_relinked b2 b3 → orders_relinked b1 b3.
Proof. intros [] []. split; intros; try etrans; eauto. Qed.

Lemma orders_relinked_with b i f :
  (∀ o, erase (f o) = erase o) → orders_relinked b (with_order i f b).
Proof.
  intros Hf. split; try done.
  - intros j. rewrite order_with_order. case_decide; [by subst|done].
  - intros j. apply in_use_pool_modify.
  - apply pool_wf_modify.
Qed.

Hint Resolve erase_set_prev erase_set_next orders_relinked_refl : core.

Lemma orders_relinked_level b b' i : orders_relinked b b' → level b' i = level b i.
Proof. intros Hr. unfold level. by rewrite (or_level_pool _ _ Hr). Qed.

Ltac solve_olinks :=
  intros; simpl; rewrite ?order_with_order;
  repeat (case_decide; subst; rewrite ?prev_set_prev, ?prev_set_next, ?next_set_prev,
            ?next_set_next, ?order_with_order in *; try done); try congruence.

(** Appending an order to the ring of a level. *)
Definition enqueued b (optr first fprev : Z) : Book Ord K :=
  with_order first (set_prev (Some optr))
    (with_order optr (set_next (Some first))
      (with_order optr (set_prev (Some fprev))
        (with_order fprev (set_next (Some optr)) b))).

Lemma enqueued_relinked b optr first fprev : orders_relinked b (enqueued b optr first fprev).
Proof.
  repeat (eapply orders_relinked_trans; [|apply orders_relinked_with; auto]). auto.
Qed.

Lemma enqueued_frame b optr first fprev i :
  i ≠ optr → i ≠ first → i ≠ fprev → order (enqueued b optr first fprev) i = order b i.
Proof. intros. unfold enqueued. solve_olinks. Qed.

Lemma enqueued_cyc b optr first fprev os :
  cyc (onext b) (oprev b) os → NoDup os → optr ∉ os →
  last os = Some fprev → head os = Some first →
  cyc (onext (enqueued b optr first fprev)) (oprev (enqueued b optr first fprev)) (os ++ [optr]).
Proof.
  intros Hc Hnd Ho Hl Hh.
  assert (optr ≠ fprev) by (apply last_Some_elem_of in Hl; set_solver).
  assert (optr ≠ first) by (apply head_Some_elem_of in Hh; set_solver).
  eapply cyc_snoc with (a := fprev) (b := first); try done; unfold enqueued; solve_olinks.
Qed.

(** ** [addOrder] on an existing level *)

Lemma side_ok_update_level b b' s ls1 lp os os' ls2 :
  side_ok b s (ls1 ++ (lp, os) :: ls2) →
  NoDup (ls1 ++ (lp, os) :: ls2).*1 →
  side_head b' s = side_head b s →
  (∀ i, i ≠ lp → level b' i = level b i) →
  set_first_order None (level b' lp) = set_first_order None (level b lp) →
  (∀ i, i ∈ orders_of (ls1 ++ ls2) → order b' i = order b i) →
  level_ok b' s (lp, os') →
  side_ok b' s (ls1 ++ (lp, os') :: ls2).
Proof.
  intros [H1 H2 H3 H4] Hnd Hh Hl Hlp Ho Hok.
  assert ((ls1 ++ (lp, os') :: ls2).*1 = (ls1 ++ (lp, os) :: ls2).*1) as Hf
    by by rewrite !fmap_app.
  assert (∀ i, lvl_price_ (level b' i) = lvl_price_ (level b i)
             ∧ next_entry_ (level b' i) = next_entry_ (level b i)
             ∧ prev_entry_ (level b' i) = prev_entry_ (level b i)) as Hlinks.
  { intros i. destruct (decide (i = lp)) as [->|]; [|by rewrite Hl].
    unfold set_first_order in Hlp. by simplify_eq. }
  split; rewrite ?Hf.
  - congruence.
  - eapply cyc_frame; [..|done]; intros i Hi; apply Hlinks.
  - eapply StronglySorted_impl_elem; [|exact H3]. intros i j _ _. simpl.
    by rewrite !(proj1 (Hlinks _)).
  - rewrite Forall_app, Forall_cons in H4 |- *. destruct H4 as (F1 & _ & F2).
    rewrite fmap_app in Hnd. simpl in Hnd.
    apply NoDup_app in Hnd as (_ & Hd1 & [Hd2 _]%NoDup_cons).
    split_and!; [|done|]; (eapply Forall_impl_elem; [|done]); intros gl Hgl Hgk;
      (eapply level_ok_frame; [..|exact Hgk]).
    1, 3: rewrite Hl; [done|]; intros E.
    + apply (Hd1 gl.1); [by apply list_elem_of_fmap_2|]. rewrite E. set_solver.
    + apply Hd2. rewrite <- E. by apply list_elem_of_fmap_2.
    + intros i Hi. apply Ho. rewrite orders_of_app. apply elem_of_app. left.
      apply elem_of_orders_of. eauto.
    + intros i Hi. apply Ho. rewrite orders_of_app. apply elem_of_app. right.
      apply elem_of_orders_of. eauto.
Qed.

Lemma index_insert `{Countable Ix} (m : gmap Ix Z) (key : Z → Ix) (X : list Z) optr :
  (∀ k i, m !! k = Some i ↔ i ∈ X ∧ key i = k) → m !! key optr = None →
  ∀ k i, <[key optr := optr]> m !! k = Some i ↔ i ∈ optr :: X ∧ key i = k.
Proof.
  intros Hm Hn k i. rewrite lookup_insert, elem_of_cons. case_decide as E.
  - split; [intros [= <-]; auto|]. intros [[->|Hi] Hk]; [done|].
    assert (m !! k = Some i) as Hc by by apply Hm. congruence.
  - rewrite Hm. split; [tauto|]. intros [[->|Hi] Hk]; [done|tauto].
Qed.

(** What replacing a side by one with an order more does to all levels and orders. *)
Lemma ghost_appended g s ls1 lp os ls2 o :
  proper_side s → g_side g s = ls1 ++ (lp, os) :: ls2 →
  let g' := set_g_side g s (ls1 ++ (lp, os ++ [o]) :: ls2) in
  (g_all g').*1 ≡ₚ (g_all g).*1 ∧ orders_of (g_all g') ≡ₚ o :: orders_of (g_all g).
Proof.
  intros Hs Hg. cbv zeta. rewrite g_all_set, (g_all_split g s Hs), Hg by done. split; [by rewrite !fmap_app|].
  rewrite !orders_of_app, !orders_of_cons. simpl. solve_Permutation.
Qed.

Lemma ghost_new_level g s ls1 ls2 n o :
  proper_side s → g_side g s = ls1 ++ ls2 →
  let g' := set_g_side g s (ls1 ++ (n, [o]) :: ls2) in
  (g_all g').*1 ≡ₚ n :: (g_all g).*1 ∧ orders_of (g_all g') ≡ₚ o :: orders_of (g_all g).
Proof.
  intros Hs Hg. cbv zeta. rewrite g_all_set, (g_all_split g s Hs), Hg by done. split.
  - rewrite !fmap_app. simpl. solve_Permutation.
  - rewrite !orders_of_app, !orders_of_cons. simpl. solve_Permutation.
Qed.

(** The code on a price that has a level. *)
Lemma addOrder_enqueues b optr lp first fprev :
  getOrdersAtPrice b (ord_price (order b optr)) = Some lp → first_order_ (level b lp) = Some first → oprev b first = Some fprev →
  key_in_range (ord_key (order b optr)) = true →
  addOrder optr b = Ok (set_order_index (<[ord_key (order b optr) := optr]> (order_index_ b)) (enqueued b optr first fprev)).
Proof.
  intros Hget Lf Hprev Hkey. unfold addOrder. rewrite Hget. rewrite Lf. simpl. rewrite Hprev. simpl.
  assert (ord_prev (order (with_order fprev (set_next (Some optr)) b) first) = Some fprev) as ->.
  { rewrite order_with_order. case_decide; [subst; by rewrite prev_set_next|done]. }
  change (with_order first _ _) with (enqueued b optr first fprev).
  by rewrite (erase_key _ _ (or_erase _ _ (enqueued_relinked b optr first fprev) optr)), Hkey.
Qed.

(** The level and the sides with the order in its place. *)
Lemma enqueued_level b optr first fprev s lp os :
  level_ok b s (lp, os) → NoDup os → optr ∉ os → head os = Some first → last os = Some fprev →
  ord_side (order b optr) = s → lvl_price_ (level b lp) = ord_price (order b optr) →
  level_ok (enqueued b optr first fprev) s (lp, os ++ [optr]).
Proof.
  intros [Ls Lf Lne Lr Lo] Hnd Ho Hhd Hlast Hside Hprice. pose proof (enqueued_relinked b optr first fprev) as Hr.
  split; simpl in *; rewrite ?(orders_relinked_level _ _ lp Hr); try done.
  - rewrite Lf. by destruct os.
  - by destruct os.
  - by apply enqueued_cyc.
  - intros i Hi. rewrite (erase_side _ _ (or_erase _ _ Hr i)), (erase_price _ _ (or_erase _ _ Hr i)).
    apply elem_of_app in Hi as [Hi|Hi%list_elem_of_singleton]; [by apply Lo|by subst].
Qed.

Lemma enqueued_sides b g extra optr s ls1 lp os ls2 first fprev :
  book_ok b g (optr :: extra) → proper_side s → ord_side (order b optr) = s → g_side g s = ls1 ++ (lp, os) :: ls2 →
  lvl_price_ (level b lp) = ord_price (order b optr) → head os = Some first → last os = Some fprev →
  ∀ s', proper_side s' → side_ok (enqueued b optr first fprev) s' (g_side (set_g_side g s (ls1 ++ (lp, os ++ [optr]) :: ls2)) s').
Proof.
  intros Hb Hs Hside Hg Hprice Hhd Hlast s' Hs'. pose proof (enqueued_relinked b optr first fprev) as Hr.
  pose proof (bo_side _ _ _ Hb s Hs) as Hso. rewrite Hg in Hso.
  assert (Hperm : g_all g ≡ₚ (ls1 ++ (lp, os) :: ls2) ++ g_side g (opposite s)) by (rewrite (g_all_split g s Hs); by rewrite Hg).
  pose proof (bo_orders_nodup _ _ _ Hb) as Hnd. rewrite Hperm, !orders_of_app, orders_of_cons in Hnd. simpl in Hnd.
  assert (NoDup os ∧ (optr ∉ os) ∧ (∀ i, i ∈ orders_of (ls1 ++ ls2) ++ orders_of (g_side g (opposite s)) → ¬ i ∈ optr :: os))
    as (Hos & Hoptr & Hother) by (rewrite orders_of_app; clear -Hnd; rewrite !NoDup_app, NoDup_cons in Hnd; set_solver).
  assert (Hlev : ∀ i, level (enqueued b optr first fprev) i = level b i) by (intros i; apply (orders_relinked_level _ _ i Hr)).
  assert (Hfr : ∀ i, i ∉ optr :: os → order (enqueued b optr first fprev) i = order b i).
  { apply head_Some_elem_of in Hhd. apply last_Some_elem_of in Hlast. intros i Hi. apply enqueued_frame; set_solver. }
  rewrite g_side_set_g_side by done. case_decide as Es.
  - subst s'. eapply (side_ok_update_level b); [exact Hso|..].
    + pose proof (bo_levels_nodup _ _ _ Hb) as Hn. rewrite Hperm, fmap_app in Hn. by apply NoDup_app in Hn as [? _].
    + apply (or_heads _ _ Hr).
    + intros i _. apply Hlev.
    + by rewrite Hlev.
    + intros i Hi. apply Hfr, Hother. set_solver.
    + pose proof (so_levels _ _ _ Hso) as Hlv. rewrite Forall_app, Forall_cons in Hlv. by apply enqueued_level; [apply Hlv|..].
  - apply not_opposite in Es; [|done..]. subst s'. apply (side_ok_frame b); [apply (or_heads _ _ Hr)|auto|..].
    + intros i Hi. apply Hfr, Hother. set_solver.
    + apply (bo_side _ _ _ Hb). apply proper_opposite.
Qed.

Lemma addOrder_existing b g extra optr s ls1 lp os ls2 :
  book_ok b g (optr :: extra) → proper_side s → ord_side (order b optr) = s →
  g_side g s = ls1 ++ (lp, os) :: ls2 →
  lvl_price_ (level b lp) = ord_price (order b optr) →
  key_in_range (ord_key (order b optr)) = true →
  order_index_ b !! ord_key (order b optr) = None →
  ∃ b', addOrder optr b = Ok b'
      ∧ book_ok b' (set_g_side g s (ls1 ++ (lp, os ++ [optr]) :: ls2)) extra
      ∧ (∀ i, erase (order b' i) = erase (order b i))
      ∧ orders_at_price_pool_ b' = orders_at_price_pool_ b
      ∧ store_size (order_pool_ b') = store_size (order_pool_ b).
Proof.
  intros Hb Hs Hside Hg Hprice Hkey Hfresh.
  pose proof (so_levels _ _ _ (bo_side _ _ _ Hb s Hs)) as Hlv. rewrite Hg, Forall_app, Forall_cons in Hlv.
  destruct Hlv as (_ & [Ls Lf Lne Lr Lo] & _). simpl in *.
  destruct (head os) as [first|] eqn:Hhd; [|by apply head_None in Hhd].
  destruct (last os) as [fprev|] eqn:Hlast; [|by apply last_None in Hlast].
  assert (getOrdersAtPrice b (ord_price (order b optr)) = Some lp) as Hget.
  { apply (bo_price_index _ _ _ Hb). split; [|by rewrite Hprice]. rewrite (g_all_split g s Hs), Hg, !fmap_app. simpl. set_solver. }
  rewrite (addOrder_enqueues b optr lp first fprev Hget Lf (cyc_head_prev _ _ _ _ _ Lr Hhd Hlast) Hkey).
  pose proof (enqueued_relinked b optr first fprev) as Hr.
  pose proof (enqueued_sides b g extra optr s ls1 lp os ls2 first fprev Hb Hs Hside Hg Hprice Hhd Hlast) as Hsides.
  destruct (ghost_appended g s ls1 lp os ls2 optr Hs Hg) as [Hall Hord].
  eexists. split_and!; [done| |apply (or_erase _ _ Hr)|apply (or_level_pool _ _ Hr)|apply (or_size _ _ Hr)]. split.
  - intros s' Hs'. by apply (side_ok_frame (enqueued b optr first fprev)), Hsides.
  - apply (bo_level_pool _ _ _ Hb).
  - apply (or_wf _ _ Hr), (bo_order_pool _ _ _ Hb).
  - intros i. rewrite Hall. apply (bo_levels _ _ _ Hb).
  - intros i. rewrite Hord. etrans; [apply (or_in_use _ _ Hr)|]. rewrite (bo_orders _ _ _ Hb). set_solver.
  - rewrite Hall. apply (bo_levels_nodup _ _ _ Hb).
  - rewrite Hord. pose proof (bo_orders_nodup _ _ _ Hb) as Hn. by rewrite <- Permutation_middle in Hn.
  - intros k lp'. rewrite Hall. change (level (set_order_index _ ?b1) lp') with (level b1 lp'). rewrite (orders_relinked_level _ _ lp' Hr). apply (bo_price_index _ _ _ Hb).
  - intros k i. rewrite Hord. change (order (set_order_index _ ?b1) i) with (order b1 i). rewrite (erase_key _ _ (or_erase _ _ Hr i)).
    apply (index_insert _ (λ i, ord_key (order b i))); [|done]. apply (bo_order_index _ _ _ Hb).
Qed.

(** ** [addOrder] on a price with no level yet *)

Lemma allocate_level b g extra l :
  book_ok b g extra → length (g_all g) + 1 < store_size (orders_at_price_pool_ b) →
  ∃ n p', allocate l (orders_at_price_pool_ b) = Ok (n, p')
        ∧ allocated l (orders_at_price_pool_ b) n p' ∧ (n ∉ (g_all g).*1).
Proof.
  intros Hb Hsz.
  destruct (allocate_some l (orders_at_price_pool_ b)) as (p' & -> & Ha).
  - apply (bo_level_pool _ _ _ Hb).
  - rewrite (size_used _ (g_all g).*1); [by rewrite length_fmap|..];
      [apply (bo_levels_nodup _ _ _ Hb)|apply (bo_levels _ _ _ Hb)].
  - do 2 eexists; split_and!; [done|done|].
    rewrite <- (bo_levels _ _ _ Hb). apply (al_fresh _ _ _ _ Ha).
Qed.

Lemma fresh_level_ok b g extra s ls1 ls2 l :
  book_ok b g extra → proper_side s → g_side g s = ls1 ++ ls2 → lvl_side_ l = s →
  (∀ gl, gl ∈ ls1 → better s (lvl_price_ (level b gl.1)) (lvl_price_ l) = true) →
  (∀ gl, gl ∈ ls2 → better s (lvl_price_ l) (lvl_price_ (level b gl.1)) = true) →
  length (g_all g) + 1 < store_size (orders_at_price_pool_ b) →
  ∃ n p' b', allocate l (orders_at_price_pool_ b) = Ok (n, p')
    ∧ allocated l (orders_at_price_pool_ b) n p' ∧ (n ∉ (g_all g).*1)
    ∧ addOrdersAtPrice n (set_level_pool p' b) = Ok b'
    ∧ level_added (set_level_pool p' b) b' s n ls1.*1 ls2.*1
    ∧ (∀ i, level (set_level_pool p' b) i = if decide (n = i) then l else level b i).
Proof.
  intros Hb Hs Hg Hside H1 H2 Hsz.
  destruct (allocate_level b g extra l Hb Hsz) as (n & p' & Eal & Hal & Hn).
  set (b2 := set_level_pool p' b).
  assert (Hl2 : ∀ i, level b2 i = if decide (n = i) then l else level b i)
    by (intros i; exact (allocated_obj l _ n p' i Hal)).
  pose proof (bo_side _ _ _ Hb s Hs) as [Hh Hr Hso _]. rewrite Hg in Hh, Hr, Hso.
  rewrite fmap_app in Hh, Hr, Hso.
  assert (Hperm : (g_all g).*1 ≡ₚ (ls1.*1 ++ ls2.*1) ++ (g_side g (opposite s)).*1)
    by (rewrite (g_all_split g s Hs), Hg; by rewrite !fmap_app).
  assert (Hnl : n ∉ ls1.*1 ++ ls2.*1) by (rewrite Hperm in Hn; set_solver).
  assert (Hlp : ∀ i, i ∈ ls1.*1 ++ ls2.*1 → level b2 i = level b i).
  { intros i Hi. rewrite Hl2, decide_False; [done|]. set_solver. }
  destruct (addOrdersAtPrice_split b2 s n ls1.*1 ls2.*1) as (b' & Eadd & Hadd); try done.
  - by rewrite Hl2, decide_True.
  - eapply cyc_frame; [..|done]; intros i Hi; simpl; by rewrite Hlp.
  - pose proof (bo_levels_nodup _ _ _ Hb) as Hnd. rewrite Hperm in Hnd.
    by apply NoDup_app in Hnd as [? _].
  - intros i Hi. rewrite (Hlp i), (Hl2 n), decide_True by (done || apply elem_of_app; auto).
    apply list_elem_of_fmap in Hi as (gl & -> & ?). by apply H1.
  - intros i Hi. rewrite (Hlp i), (Hl2 n), decide_True by (done || apply elem_of_app; auto).
    apply list_elem_of_fmap in Hi as (gl & -> & ?). by apply H2.
  - simpl. rewrite (al_size _ _ _ _ Hal).
    pose proof (Permutation_length Hperm) as Hlen.
    rewrite length_app, length_fmap in Hlen. lia.
  - exists n, p', b'. done.
Qed.

(** Changing the links of orders that are not in the book. *)
Lemma book_ok_extra_links b b' g extra :
  orders_relinked b b' → (∀ i, i ∈ orders_of (g_all g) → order b' i = order b i) →
  book_ok b g extra → book_ok b' g extra.
Proof.
  intros Hr Ho Hb.
  assert (Hlev : ∀ i, level b' i = level b i)
    by (intros i; apply (orders_relinked_level _ _ i Hr)).
  split; intros; rewrite ?(or_level_pool _ _ Hr), ?(or_in_use _ _ Hr), ?(or_price_index _ _ Hr),
    ?(or_order_index _ _ Hr), ?Hlev, ?(erase_key _ _ (or_erase _ _ Hr _));
    try apply Hb; try done.
  - apply (side_ok_frame b); [apply (or_heads _ _ Hr)|auto|..|by apply Hb].
    intros i Hi. apply Ho. rewrite (g_all_split g s) by done. rewrite orders_of_app. set_solver.
  - apply (or_wf _ _ Hr), Hb.
Qed.

(** A side after a level has been spliced in. *)
Lemma side_ok_level_added b b2 b' s ls1 ls2 n o l :
  side_ok b s (ls1 ++ ls2) → proper_side s →
  (∀ i, level b2 i = if decide (n = i) then l else level b i) →
  (∀ i, order b' i = order b i) →
  level_added b2 b' s n ls1.*1 ls2.*1 → n ∉ (ls1 ++ ls2).*1 →
  (∀ gl, gl ∈ ls1 → better s (lvl_price_ (level b gl.1)) (lvl_price_ l) = true) →
  (∀ gl, gl ∈ ls2 → better s (lvl_price_ l) (lvl_price_ (level b gl.1)) = true) →
  level_ok b' s (n, [o]) →
  side_ok b' s (ls1 ++ (n, [o]) :: ls2).
Proof.
  intros [_ _ Hsorted Hlv] Hs Hl2 Ho Hadd Hn H1 H2 Hnew.
  assert (Hdata : ∀ i, i ∈ (ls1 ++ ls2).*1 → lvl_data (level b' i) = lvl_data (level b i)).
  { intros i Hi. rewrite (rl_data _ _ (la_relinked _ _ _ _ _ _ Hadd) i).
    change (lvl_data (level b2 i) = lvl_data (level b i)).
    rewrite Hl2, decide_False; [done|]. intros ->. done. }
  assert (Hpr : ∀ i, i ∈ (ls1 ++ ls2).*1 → lvl_price_ (level b' i) = lvl_price_ (level b i)).
  { intros i Hi. pose proof (Hdata i Hi) as E. unfold lvl_data in E. congruence. }
  assert (Hprn : lvl_price_ (level b' n) = lvl_price_ l).
  { rewrite (relinked_price _ _ _ (la_relinked _ _ _ _ _ _ Hadd)).
    change (lvl_price_ (level b2 n) = lvl_price_ l). by rewrite Hl2, decide_True. }
  split.
  - rewrite (la_head _ _ _ _ _ _ Hadd). by rewrite fmap_app.
  - rewrite fmap_app. apply (la_ring _ _ _ _ _ _ Hadd).
  - rewrite fmap_app in *. simpl. apply StronglySorted_app in Hsorted as (S12 & S1 & S2).
    apply StronglySorted_app. split_and!.
    + intros i j Hi [->|Hj]%elem_of_cons.
      * rewrite Hprn, Hpr by (apply elem_of_app; auto).
        apply list_elem_of_fmap in Hi as (gl & -> & ?). by apply H1.
      * rewrite !Hpr by (apply elem_of_app; auto). by apply S12.
    + eapply StronglySorted_impl_elem; [|exact S1]. intros i j Hi Hj.
      by rewrite !Hpr by (apply elem_of_app; auto).
    + constructor.
      * eapply StronglySorted_impl_elem; [|exact S2]. intros i j Hi Hj.
        by rewrite !Hpr by (apply elem_of_app; auto).
      * apply Forall_forall. intros i Hi. rewrite Hprn, Hpr by (apply elem_of_app; auto).
        apply list_elem_of_fmap in Hi as (gl & -> & ?). by apply H2.
  - assert (Forall (level_ok b' s) (ls1 ++ ls2)) as HF.
    { eapply Forall_impl_elem; [|exact Hlv]. intros gl Hgl. apply level_ok_frame; [|done].
      apply Hdata. by apply list_elem_of_fmap_2. }
    rewrite Forall_app in HF |- *. rewrite Forall_cons. tauto.
Qed.

(** The order as the only one of its level. *)
Definition self_linked b optr : Book Ord K := with_order optr (λ o, set_next (Some optr) (set_prev (Some optr) o)) b.

Lemma self_linked_relinked b optr : orders_relinked b (self_linked b optr).
Proof. apply orders_relinked_with. intros o. by rewrite erase_set_next, erase_set_prev. Qed.

Lemma self_linked_ok b g extra optr : book_ok b g (optr :: extra) → book_ok (self_linked b optr) g (optr :: extra).
Proof.
  intros Hb. apply (book_ok_extra_links b); [apply self_linked_relinked| |done]. intros i Hi.
  unfold self_linked. rewrite order_with_order, decide_False; [done|]. intros <-.
  pose proof (bo_orders_nodup _ _ _ Hb) as Hnd. apply NoDup_app in Hnd as (_ & Hd & _). apply (Hd optr Hi). set_solver.
Qed.

(** A level [n] for [optr] has been allocated and spliced in: [b2] and [b3]. *)
Section NewLevel.
Context b (g : ghost) (extra : list Z) (optr : Z) s (ls1 ls2 : list glevel) (n : Z) (p' : MemPool OrdersAtPrice) (b3 : Book Ord K).
Let o := order b optr.
Let l := mkOrdersAtPrice s (ord_price o) (Some optr) None None.
Let b1 := self_linked b optr.
Let b2 := set_level_pool p' b1.
Hypothesis Hb0 : book_ok b g (optr :: extra).
Hypothesis Hs : proper_side s.
Hypothesis Hside : ord_side o = s.
Hypothesis Hg : g_side g s = ls1 ++ ls2.
Hypothesis Hn : n ∉ (g_all g).*1.
Hypothesis Hadd : level_added b2 b3 s n ls1.*1 ls2.*1.
Hypothesis Hl2 : ∀ i, level b2 i = if decide (n = i) then l else level b1 i.

Lemma new_level_order i : order b3 i = order b1 i.
Proof. unfold order. by rewrite (rl_order_pool _ _ (la_relinked _ _ _ _ _ _ Hadd)). Qed.

Lemma new_level_erase i : erase (order b3 i) = erase (order b i).
Proof. rewrite new_level_order. apply (or_erase _ _ (self_linked_relinked b optr)). Qed.

Lemma new_level_data : lvl_data (level b3 n) = lvl_data l.
Proof.
  etrans; [apply (rl_data _ _ (la_relinked _ _ _ _ _ _ Hadd) n)|].
  change (lvl_data (level b2 n) = lvl_data l). by rewrite Hl2, decide_True.
Qed.

Lemma new_level_price i : i ∈ (g_all g).*1 → lvl_price_ (level b3 i) = lvl_price_ (level b i).
Proof.
  intros Hi. etrans; [apply (relinked_price _ _ i (la_relinked _ _ _ _ _ _ Hadd))|].
  change (lvl_price_ (level b2 i) = lvl_price_ (level b i)). rewrite Hl2, decide_False; [done|]. by intros ->.
Qed.

Lemma new_level_ok : level_ok b3 s (n, [optr]).
Proof.
  pose proof new_level_data as Hd. unfold lvl_data in Hd. injection Hd as En1 En2 En3.
  assert (order b3 optr = set_next (Some optr) (set_prev (Some optr) o)) as Hself
    by (rewrite new_level_order; unfold b1, self_linked; by rewrite order_with_order, decide_True).
  split; simpl; try done.
  - unfold link. rewrite Hself. by rewrite next_set_next, prev_set_next, prev_set_prev.
  - intros i ->%list_elem_of_singleton. by rewrite (erase_side _ _ (new_level_erase optr)), (erase_price _ _ (new_level_erase optr)).
Qed.

Lemma new_level_sides :
  (∀ gl, gl ∈ ls1 → better s (lvl_price_ (level b gl.1)) (ord_price o) = true) →
  (∀ gl, gl ∈ ls2 → better s (ord_price o) (lvl_price_ (level b gl.1)) = true) →
  ∀ s', proper_side s' → side_ok b3 s' (g_side (set_g_side g s (ls1 ++ (n, [optr]) :: ls2)) s').
Proof.
  intros H1 H2 s' Hs'. pose proof (self_linked_ok _ _ _ _ Hb0) as Hb. fold b1 in Hb.
  pose proof Hn as Hn'. pose proof (bo_levels_nodup _ _ _ Hb) as Hnl.
  rewrite (g_all_split g s Hs), Hg, fmap_app in Hn', Hnl.
  rewrite g_side_set_g_side by done. case_decide as Es.
  - subst s'. apply (side_ok_level_added b1 b2 _ _ _ _ _ _ l); try done.
    + rewrite <- Hg. by apply (bo_side _ _ _ Hb).
    + apply new_level_order.
    + intros Hin. apply Hn'. by apply elem_of_app; left.
    + apply new_level_ok.
  - apply not_opposite in Es; [|done..]. subst s'. apply (side_ok_frame b1); [..|by apply (bo_side _ _ _ Hb)].
    + apply (la_other _ _ _ _ _ _ Hadd); [done|]. by apply not_eq_sym, opposite_ne.
    + intros i Hi. apply NoDup_app in Hnl as (_ & Hd & _). etrans; [apply (la_frame _ _ _ _ _ _ Hadd)|].
      * rewrite <- fmap_app. intros [->|Hi']%elem_of_cons; [|by destruct (Hd i Hi')]. apply Hn'. by apply elem_of_app; right.
      * rewrite Hl2, decide_False; [done|]. intros ->. apply Hn'. by apply elem_of_app; right.
    + intros i _. apply new_level_order.
Qed.

Lemma new_level_index :
  getOrdersAtPrice b (ord_price o) = None →
  ∀ k lp, price_orders_at_price_ b3 !! k = Some lp ↔ lp ∈ n :: (g_all g).*1 ∧ priceToIndex (lvl_price_ (level b3 lp)) = k.
Proof.
  intros Hget. pose proof new_level_data as Hd. unfold lvl_data in Hd. injection Hd as _ En2 _.
  assert (price_orders_at_price_ b3 = <[priceToIndex (lvl_price_ (level b3 n)) := n]> (price_orders_at_price_ b)) as ->.
  { etrans; [apply (rl_price_index _ _ (la_relinked _ _ _ _ _ _ Hadd))|]. simpl. by rewrite Hl2, decide_True, En2 by done. }
  intros k lp. apply (index_insert _ (λ i, priceToIndex (lvl_price_ (level b3 i)))).
  - intros k' i. rewrite (bo_price_index _ _ _ Hb0). split; intros [Hi Hk]; split; try done; by rewrite new_level_price in * by done.
  - rewrite En2. done.
Qed.
End NewLevel.

Lemma addOrder_fresh b g extra optr s ls1 ls2 :
  book_ok b g (optr :: extra) → proper_side s → ord_side (order b optr) = s →
  g_side g s = ls1 ++ ls2 →
  getOrdersAtPrice b (ord_price (order b optr)) = None →
  (∀ gl, gl ∈ ls1 → better s (lvl_price_ (level b gl.1)) (ord_price (order b optr)) = true) →
  (∀ gl, gl ∈ ls2 → better s (ord_price (order b optr)) (lvl_price_ (level b gl.1)) = true) →
  length (g_all g) + 1 < store_size (orders_at_price_pool_ b) →
  key_in_range (ord_key (order b optr)) = true →
  order_index_ b !! ord_key (order b optr) = None →
  ∃ b' n, addOrder optr b = Ok b'
      ∧ book_ok b' (set_g_side g s (ls1 ++ (n, [optr]) :: ls2)) extra
      ∧ (∀ i, erase (order b' i) = erase (order b i))
      ∧ store_size (orders_at_price_pool_ b') = store_size (orders_at_price_pool_ b)
      ∧ store_size (order_pool_ b') = store_size (order_pool_ b).
Proof.
  intros Hb0 Hs Hside Hg Hget H1 H2 Hsz Hkey Hfresh. pose proof (self_linked_ok _ _ _ _ Hb0) as Hb.
  set (l := mkOrdersAtPrice s (ord_price (order b optr)) (Some optr) None None).
  destruct (fresh_level_ok (self_linked b optr) g (optr :: extra) s ls1 ls2 l) as (n & p' & b3 & Eal & Hal & Hn & Eadd & Hadd & Hl2); try done.
  pose proof (la_relinked _ _ _ _ _ _ Hadd) as Hr. pose proof (new_level_erase b optr s ls1 ls2 n p' b3 Hadd) as Her.
  assert (addOrder optr b = Ok (set_order_index (<[ord_key (order b optr) := optr]> (order_index_ b)) b3)) as ->.
  { unfold addOrder. rewrite Hget, Hside. fold l. change (with_order optr _ b) with (self_linked b optr).
    rewrite Eal. cbn [rbind]. rewrite Eadd. cbn [rbind].
    rewrite (erase_key _ _ (Her optr)), Hkey. cbn [negb]. by rewrite (rl_order_index _ _ Hr). }
  destruct (ghost_new_level g s ls1 ls2 n optr Hs Hg) as [Hall Hord].
  pose proof (rl_in_use _ _ Hr) as Huse. pose proof (rl_wf _ _ Hr) as Hwf. pose proof (rl_size _ _ Hr) as Hsize. simpl in Huse, Hwf, Hsize.
  assert (order_pool_ b3 = order_pool_ (self_linked b optr)) as Eop by apply (rl_order_pool _ _ Hr).
  eexists _, n. split_and!; [done| |done|by rewrite (al_size _ _ _ _ Hal) in Hsize|by simpl; rewrite Eop]. split.
  - intros s' Hs'. apply (side_ok_frame b3); [done..|]. by apply (new_level_sides b g extra optr s ls1 ls2 n p' b3).
  - apply Hwf, (al_wf _ _ _ _ Hal).
  - simpl. rewrite Eop. apply (bo_order_pool _ _ _ Hb).
  - intros i. rewrite Hall, elem_of_cons. etrans; [apply Huse|]. by rewrite (allocated_in_use _ _ _ _ _ Hal), (bo_levels _ _ _ Hb).
  - intros i. rewrite Hord. simpl. rewrite Eop, (bo_orders _ _ _ Hb). set_solver.
  - rewrite Hall. apply NoDup_cons; split; [done|]. apply (bo_levels_nodup _ _ _ Hb).
  - rewrite Hord. pose proof (bo_orders_nodup _ _ _ Hb0) as Hnd. by rewrite <- Permutation_middle in Hnd.
  - intros k lp. rewrite Hall. by apply (new_level_index b g extra optr s ls1 ls2 n p' b3).
  - intros k i. rewrite Hord. change (order (set_order_index _ b3) i) with (order b3 i). rewrite (erase_key _ _ (Her i)).
    apply (index_insert _ (λ i, ord_key (order b i))); [|done]. apply (bo_order_index _ _ _ Hb0).
Qed.

(** ** [addOrder] refines [insert_order] *)

Lemma flat_price b s ls x :
  Forall (level_ok b s) ls → x ∈ flat b ls →
  ∃ gl, gl ∈ ls ∧ ord_price x = lvl_price_ (level b gl.1).
Proof.
  intros Hok (i & -> & (gl & Hgl & Hi)%elem_of_orders_of)%list_elem_of_fmap.
  exists gl. split; [done|]. rewrite Forall_forall in Hok.
  rewrite price_erase. by apply (lo_orders _ _ _ (Hok gl Hgl)).
Qed.

Lemma level_price_flat b s ls gl :
  Forall (level_ok b s) ls → gl ∈ ls →
  ∃ x, x ∈ flat b ls ∧ ord_price x = lvl_price_ (level b gl.1).
Proof.
  intros Hok Hgl. rewrite Forall_forall in Hok.
  destruct (Hok gl Hgl) as [_ _ Hne _ Ho]. destruct gl as [lp [|i os]]; [done|].
  exists (erase (order b i)). split.
  - apply (list_elem_of_fmap_2 (λ i, erase (order b i))), elem_of_orders_of.
    exists (lp, i :: os). set_solver.
  - rewrite price_erase. apply Ho. set_solver.
Qed.

Lemma flat_erase b b' ls :
  (∀ i, erase (order b' i) = erase (order b i)) → flat b' ls = flat b ls.
Proof. intros He. unfold flat. apply list_fmap_ext. intros ? i _. apply He. Qed.

Lemma level_count b g extra : book_ok b g extra → (length (g_all g) ≤ length (orders_of (g_all g)))%nat.
Proof.
  intros Hb.
  assert (Forall (λ gl : glevel, gl.2 ≠ []) (g_all g)) as HF.
  { unfold g_all. rewrite Forall_app.
    split; [apply (Forall_impl (level_ok b BUY))|apply (Forall_impl (level_ok b SELL))];
      try (intros ?; apply lo_nonempty).
    - exact (so_levels _ _ _ (bo_side _ _ _ Hb BUY (or_introl eq_refl))).
    - exact (so_levels _ _ _ (bo_side _ _ _ Hb SELL (or_intror eq_refl))). }
  induction HF as [|gl ls Hne _ IH]; [done|].
  rewrite orders_of_cons, length_app. simpl. destruct gl as [? [|]]; [done|]. simpl. lia.
Qed.

(** Every resting order that shares the price index of [p] is on side [s] at
    price [p]: the price index of the code is not confused. *)
Definition no_collision (side : Side → list Ord) s (p : Z) : Prop :=
  ∀ s' x, proper_side s' → x ∈ side s' →
    priceToIndex (ord_price x) = priceToIndex p → s' = s ∧ ord_price x = p.

Lemma insert_flat b s ls1 ls2 os lp o :
  side_ok b s (ls1 ++ (lp, os) :: ls2) → ord_price o = lvl_price_ (level b lp) →
  insert_order s o (flat b (ls1 ++ (lp, os) :: ls2))
  = flat b ls1 ++ flat b [(lp, os)] ++ o :: flat b ls2.
Proof.
  intros [_ _ Hso Hlv] Hp.
  change (ls1 ++ (lp, os) :: ls2) with (ls1 ++ [(lp, os)] ++ ls2) in *.
  rewrite !flat_app, !(assoc_L (++)). rewrite !fmap_app in Hso.
  rewrite !Forall_app in Hlv. destruct Hlv as (F1 & F0 & F2).
  apply StronglySorted_app in Hso as (S1 & _ & (S2 & _ & _)%StronglySorted_app).
  apply insert_order_app.
  - intros x [Hx|Hx]%elem_of_app; rewrite Hp.
    + destruct (flat_price b s ls1 x F1 Hx) as (gl & Hgl & ->). apply better_asym.
      apply S1; [by apply list_elem_of_fmap_2|set_solver].
    + destruct (flat_price b s _ x F0 Hx) as (gl & ->%list_elem_of_singleton & ->).
      apply better_irrefl.
  - intros x Hx. rewrite Hp. destruct (flat_price b s ls2 x F2 Hx) as (gl & Hgl & ->).
    apply S2; [set_solver|by apply list_elem_of_fmap_2].
Qed.

Lemma insert_flat_fresh b s ls1 ls2 o :
  Forall (level_ok b s) (ls1 ++ ls2) →
  (∀ gl, gl ∈ ls1 → better s (lvl_price_ (level b gl.1)) (ord_price o) = true) →
  (∀ gl, gl ∈ ls2 → better s (ord_price o) (lvl_price_ (level b gl.1)) = true) →
  insert_order s o (flat b (ls1 ++ ls2)) = flat b ls1 ++ o :: flat b ls2.
Proof.
  intros [F1 F2]%Forall_app H1 H2. rewrite flat_app. apply insert_order_app.
  - intros x Hx. destruct (flat_price b s ls1 x F1 Hx) as (gl & Hgl & ->).
    by apply better_asym, H1.
  - intros x Hx. destruct (flat_price b s ls2 x F2 Hx) as (gl & Hgl & ->). by apply H2.
Qed.

Lemma book_side_set b g s ls s' :
  proper_side s → proper_side s' →
  book_side b (set_g_side g s ls) s' = if decide (s = s') then flat b ls else book_side b g s'.
Proof. intros. unfold book_side. rewrite g_side_set_g_side by done. by case_decide. Qed.

(** Without collisions the price index finds the level of that side and price. *)
Lemma level_of_price b g extra s p lp :
  book_ok b g extra → no_collision (book_side b g) s p → getOrdersAtPrice b p = Some lp →
  ∃ os ls1 ls2, g_side g s = ls1 ++ (lp, os) :: ls2 ∧ lvl_price_ (level b lp) = p.
Proof.
  intros Hb Hnc [Hin Hidx]%(bo_price_index _ _ _ Hb).
  assert (∃ s' gl, proper_side s' ∧ gl ∈ g_side g s' ∧ gl.1 = lp) as (s' & gl & Hs' & Hgl & <-).
  { rewrite (g_all_split g BUY), fmap_app in Hin by by left.
    apply elem_of_app in Hin as [Hin|Hin]; apply list_elem_of_fmap in Hin as (gl & -> & ?);
      [exists BUY, gl|exists SELL, gl]; (split_and!; [|done|done]); [by left|by right]. }
  destruct (level_price_flat b s' (g_side g s') gl) as (x & Hx & Hxp);
    [apply (so_levels _ _ _ (bo_side _ _ _ Hb s' Hs'))|done|].
  destruct (Hnc s' x Hs' Hx) as [-> Hpx]; [by rewrite Hxp|].
  apply list_elem_of_split in Hgl as (ls1 & ls2 & Hg). destruct gl as [lp os].
  exists os, ls1, ls2. split; [done|]. simpl in *. congruence.
Qed.

Lemma addOrder_ok b g extra optr s :
  book_ok b g (optr :: extra) → proper_side s → ord_side (order b optr) = s →
  no_collision (book_side b g) s (ord_price (order b optr)) →
  length (g_all g) + 1 < store_size (orders_at_price_pool_ b) →
  key_in_range (ord_key (order b optr)) = true →
  order_index_ b !! ord_key (order b optr) = None →
  ∃ b' g', addOrder optr b = Ok b' ∧ book_ok b' g' extra
    ∧ (∀ i, erase (order b' i) = erase (order b i))
    ∧ store_size (orders_at_price_pool_ b') = store_size (orders_at_price_pool_ b)
    ∧ store_size (order_pool_ b') = store_size (order_pool_ b)
    ∧ ∀ s', proper_side s' → book_side b' g' s' =
        if decide (s = s') then insert_order s (erase (order b optr)) (book_side b g s)
        else book_side b g s'.
Proof.
  intros Hb Hs Hside Hnc Hsz Hkey Hfresh. set (p := ord_price (order b optr)) in *.
  pose proof (bo_side _ _ _ Hb s Hs) as Hso.
  destruct (getOrdersAtPrice b p) as [lp|] eqn:Hget.
  - (* the level exists *)
    destruct (level_of_price b g (optr :: extra) s p lp) as (os & ls1 & ls2 & Hg & Hp); [done..|].
    destruct (addOrder_existing b g extra optr s ls1 lp os ls2)
      as (b' & -> & Hb' & Her & Hlp & Hop); try done.
    do 2 eexists. split_and!; [done|done|done|by rewrite Hlp|done|].
    intros s' Hs'. rewrite book_side_set by done. case_decide.
    + rewrite (flat_erase b b') by done. unfold book_side. rewrite Hg.
      rewrite Hg in Hso. rewrite (insert_flat b s ls1 ls2 os lp) by (by rewrite ?price_erase).
      rewrite !flat_app. unfold flat. rewrite !orders_of_cons. simpl.
      rewrite !fmap_app. simpl. by rewrite <- !(assoc_L (++)).
    + by apply flat_erase.
  - (* a new level *)
    assert (∀ gl, gl ∈ g_side g s → lvl_price_ (level b gl.1) ≠ p) as Hne.
    { intros gl Hgl Hp. assert (getOrdersAtPrice b p = Some gl.1) as Hc; [|congruence].
      apply (bo_price_index _ _ _ Hb). split; [|by rewrite Hp].
      rewrite (g_all_split g s Hs), fmap_app. apply elem_of_app; left.
      by apply list_elem_of_fmap_2. }
    destruct (split_sorted s (λ gl : glevel, lvl_price_ (level b gl.1)) p (g_side g s))
      as (ls1 & ls2 & Hg & H1 & H2); [|done|].
    { pose proof (so_sorted _ _ _ Hso) as Hsrt. clear -Hsrt.
      induction (g_side g s) as [|gl ls IH]; [constructor|]. simpl in Hsrt.
      apply StronglySorted_inv in Hsrt as [? HF]. constructor; [by apply IH|].
      rewrite Forall_fmap in HF. exact HF. }
    destruct (addOrder_fresh b g extra optr s ls1 ls2)
      as (b' & n & -> & Hb' & Her & Hlp & Hop); try done.
    do 2 eexists. split_and!; [done|done|done|done|done|].
    intros s' Hs'. rewrite book_side_set by done. case_decide.
    + rewrite (flat_erase b b') by done. unfold book_side. rewrite Hg.
      rewrite insert_flat_fresh; rewrite ?price_erase; try done.
      * by rewrite flat_app.
      * rewrite <- Hg. apply (so_levels _ _ _ Hso).
    + by apply flat_erase.
Qed.
End Rep.
