(* ===== verification/BookRemove.v ===== *)
(** * Removing an order from the pointer structure.

    [removeOrder] unlinks the order, drops its level when it was the last order
    there, clears the index entry and returns the blocks to the pools.  The
    theorem [removeOrder_ok] says that it succeeds on every resting order, keeps
    the representation invariant of BookRep.v and acts as [remove_order] of
    BookSpec.v.  [with_order_ok] is the frame for in-place changes of an order
    (its quantity). *)

From stdpp Require Import gmap list sorting.
From S2P Require Import Prelude CircList MemPool Types BookCore BookSpec BookRep.

Open Scope Z_scope.
Local Coercion Z.of_nat : nat >-> Z.

Lemma index_delete `{Countable Ix} (m : gmap Ix Z) (key : Z → Ix) (X X' : list Z) optr :
  (∀ k i, m !! k = Some i ↔ i ∈ X ∧ key i = k) → X ≡ₚ optr :: X' → NoDup X →
  ∀ k i, delete (key optr) m !! k = Some i ↔ i ∈ X' ∧ key i = k.
Proof.
  intros Hm HX Hnd k i. rewrite HX in Hnd. apply NoDup_cons in Hnd as [Ho _].
  rewrite lookup_delete. case_decide as E.
  - split; [done|]. intros [Hi Hk]. exfalso.
    assert (m !! k = Some i) as H1 by (apply Hm; rewrite HX; set_solver).
    assert (m !! k = Some optr) as H2 by (apply Hm; rewrite HX; set_solver).
    congruence.
  - rewrite Hm, HX, elem_of_cons. split; [|tauto]. intros [[->|Hi] Hk]; [done|tauto].
Qed.

Section Remove.
Context {Ord K : Type} `{Countable K} `{!OrderNode Ord K} `{!OrderNodeLaws Ord K}.
Implicit Types (b : Book Ord K) (s : Side) (i j lp : Z).

Abbreviation lnext b := (λ i, next_entry_ (level b i)).
Abbreviation lprev b := (λ i, prev_entry_ (level b i)).
Abbreviation onext b := (λ i, ord_next (order b i)).
Abbreviation oprev b := (λ i, ord_prev (order b i)).

(** ** Unlinking a level *)

(** The first half of [removeOrdersAtPrice]: level [n] is out of the ring. *)
Record level_unlinked b b' s n l1 l2 : Prop := {
  lu_ring : cyc (lnext b') (lprev b') (l1 ++ l2);
  lu_head : side_head b' s = head (l1 ++ l2);
  lu_other : ∀ s', proper_side s' → s' ≠ s → side_head b' s' = side_head b s';
  lu_frame : ∀ i, i ∉ l1 ++ n :: l2 → level b' i = level b i;
  lu_relinked : relinked b b' }.

Definition unlink_level b s (n a c : Z) : Book Ord K :=
  let b2 := with_level c (set_prev_entry (Some a))
              (with_level a (set_next_entry (Some c)) b) in
  let b3 := if bool_decide (Some n = side_head b s) then set_side_head s (Some c) b2 else b2 in
  with_level n (λ l, set_prev_entry None (set_next_entry None l)) b3.

Lemma level_unlink_level b s n a c i :
  level (unlink_level b s n a c) i =
  let b2 := with_level c (set_prev_entry (Some a)) (with_level a (set_next_entry (Some c)) b) in
  if decide (n = i) then set_prev_entry None (set_next_entry None (level b2 n)) else level b2 i.
Proof.
  unfold unlink_level. rewrite level_with_level. simpl.
  case_bool_decide; by rewrite ?level_set_side_head.
Qed.

Lemma unlink_level_ok b s n l1 l2 a c :
  proper_side s → side_head b s = head (l1 ++ n :: l2) →
  cyc (lnext b) (lprev b) (l1 ++ n :: l2) → NoDup (l1 ++ n :: l2) →
  last (l2 ++ l1) = Some a → head (l2 ++ l1) = Some c →
  level_unlinked b (unlink_level b s n a c) s n l1 l2.
Proof.
  intros Hs Hh Hc Hnd Ha Hcc.
  assert (a ∈ l1 ++ l2) as Hain by (apply last_Some_elem_of in Ha; set_solver).
  assert (c ∈ l1 ++ l2) as Hcin by (apply head_Some_elem_of in Hcc; set_solver).
  assert (n ∉ l1 ++ l2) as Hn
    by (by rewrite <- Permutation_middle in Hnd; apply NoDup_cons in Hnd as [? _]).
  assert (n ≠ a) by (intros ->; done). assert (n ≠ c) by (intros ->; done).
  split.
  - eapply cyc_unlink with (a := a) (b := c) (nxt := lnext b) (prv := lprev b) (n := n); try done;
      cbv beta; intros; rewrite level_unlink_level; simpl; rewrite !level_with_level;
      repeat (case_decide; subst; simpl; try done).
  - unfold side_head at 1, unlink_level. simpl.
    change (side_head (if bool_decide (Some n = side_head b s)
      then set_side_head s (Some c) (with_level c (set_prev_entry (Some a))
              (with_level a (set_next_entry (Some c)) b))
      else with_level c (set_prev_entry (Some a))
              (with_level a (set_next_entry (Some c)) b)) s = head (l1 ++ l2)).
    rewrite Hh. destruct l1 as [|x l1]; simpl in *.
    + rewrite bool_decide_eq_true_2 by done. rewrite side_head_set_side_head by done.
      rewrite decide_True by done. by rewrite app_nil_r in Hcc.
    + rewrite bool_decide_eq_false_2; [done|]. intros [= ->]. set_solver.
  - intros s' Hs' Hne. unfold side_head at 1, unlink_level. simpl.
    case_bool_decide; [|done].
    change (side_head (set_side_head s (Some c) (with_level c (set_prev_entry (Some a))
              (with_level a (set_next_entry (Some c)) b))) s' = side_head b s').
    rewrite side_head_set_side_head by done. by rewrite decide_False.
  - intros i Hi. rewrite level_unlink_level. simpl. rewrite !level_with_level.
    rewrite !decide_False; [done|..]; intros <-; set_solver.
  - unfold unlink_level. repeat (eapply relinked_trans; [|by apply relinked_with_level]).
    case_bool_decide; [eapply relinked_trans; [|apply relinked_set_side_head]|];
    repeat (eapply relinked_trans; [|by apply relinked_with_level]); apply relinked_refl.
Qed.

(** A ring's node points at itself exactly when it is alone. *)
Lemma ring_self b n l1 l2 :
  cyc (lnext b) (lprev b) (l1 ++ n :: l2) → NoDup (l1 ++ n :: l2) →
  lnext b n = Some n ↔ l1 ++ l2 = [].
Proof.
  intros Hc Hnd. pose proof (cyc_next _ _ _ _ _ Hc) as E. simpl in E |- *. rewrite E. clear E.
  rewrite <- Permutation_middle in Hnd. apply NoDup_cons in Hnd as [Hn _].
  destruct (l2 ++ l1) as [|x l] eqn:E; simpl.
  - apply app_nil in E as [-> ->]. done.
  - split; [|intros [-> ->]%app_nil; done]. intros [= ->].
    assert (n ∈ l2 ++ l1) by (rewrite E; set_solver). set_solver.
Qed.

Record level_removed b b' s n l1 l2 : Prop := {
  lr_ring : cyc (lnext b') (lprev b') (l1 ++ l2);
  lr_head : side_head b' s = head (l1 ++ l2);
  lr_other : ∀ s', proper_side s' → s' ≠ s → side_head b' s' = side_head b s';
  lr_frame : ∀ i, i ∉ l1 ++ n :: l2 → level b' i = level b i;
  lr_data : ∀ i, lvl_data (level b' i) = lvl_data (level b i);
  lr_order_pool : order_pool_ b' = order_pool_ b;
  lr_order_index : order_index_ b' = order_index_ b;
  lr_price_index : price_orders_at_price_ b' =
    delete (priceToIndex (lvl_price_ (level b n))) (price_orders_at_price_ b);
  lr_in_use : ∀ i, in_use (orders_at_price_pool_ b') i
                 ↔ i ≠ n ∧ in_use (orders_at_price_pool_ b) i;
  lr_wf : pool_wf (orders_at_price_pool_ b');
  lr_size : store_size (orders_at_price_pool_ b') = store_size (orders_at_price_pool_ b) }.

Lemma free_level b b1 s n l1 l2 :
  level_unlinked b b1 s n l1 l2 → pool_wf (orders_at_price_pool_ b) →
  in_use (orders_at_price_pool_ b) n →
  ∃ p b', deallocate n (orders_at_price_pool_ b1) = Ok p
    ∧ b' = set_level_pool p (set_price_index
             (delete (priceToIndex (lvl_price_ (level b n))) (price_orders_at_price_ b1)) b1)
    ∧ level_removed b b' s n l1 l2.
Proof.
  intros [Hring Hh Ho Hf Hr] Hwf Hu.
  destruct (deallocate_ok (orders_at_price_pool_ b1) n) as (p & -> & Hwf' & Hsz & Huse & Hobj).
  { by apply (rl_wf _ _ Hr). }
  { by apply (rl_in_use _ _ Hr). }
  exists p. eexists. split_and!; [done..|].
  split; try done; unfold level; simpl.
  - eapply cyc_frame; [..|done]; intros i Hi; simpl; by rewrite Hobj.
  - intros i Hi. rewrite Hobj. by apply Hf.
  - intros i. rewrite Hobj. apply (rl_data _ _ Hr).
  - apply (rl_order_pool _ _ Hr).
  - apply (rl_order_index _ _ Hr).
  - by rewrite (rl_price_index _ _ Hr).
  - intros i. rewrite Huse. by rewrite (rl_in_use _ _ Hr).
  - rewrite Hsz. apply (rl_size _ _ Hr).
Qed.

Lemma removeOrdersAtPrice_ok b s n l1 l2 :
  proper_side s → getOrdersAtPrice b (lvl_price_ (level b n)) = Some n →
  side_head b s = head (l1 ++ n :: l2) →
  cyc (lnext b) (lprev b) (l1 ++ n :: l2) → NoDup (l1 ++ n :: l2) →
  pool_wf (orders_at_price_pool_ b) → in_use (orders_at_price_pool_ b) n →
  ∃ b', removeOrdersAtPrice s (lvl_price_ (level b n)) b = Ok b' ∧ level_removed b b' s n l1 l2.
Proof.
  intros Hs Hget Hh Hc Hnd Hwf Hu. unfold removeOrdersAtPrice. rewrite Hget. simpl.
  pose proof (ring_self b n l1 l2 Hc Hnd) as Hself. simpl in Hself.
  case_bool_decide as Hsing.
  - apply Hself in Hsing as [-> ->]%app_nil. simpl.
    destruct (free_level b (set_side_head s None b) s n [] []) as (p & b' & -> & Hb' & Hlr);
      [|done..|].
    + split; try done.
      * rewrite side_head_set_side_head by done. by rewrite decide_True.
      * intros s' Hs' Hne. rewrite side_head_set_side_head by done. by rewrite decide_False.
      * intros i _. apply level_set_side_head.
      * apply relinked_set_side_head.
    + eexists; split; [done|]. by subst b'.
  - destruct (last (l2 ++ l1)) as [a|] eqn:Ha.
    2: { apply last_None, app_nil in Ha as [-> ->]. by destruct Hsing; apply Hself. }
    destruct (head (l2 ++ l1)) as [c|] eqn:Hcc.
    2: { apply head_None, app_nil in Hcc as [-> ->]. by destruct Hsing; apply Hself. }
    assert (prev_entry_ (level b n) = Some a) as Hpa
      by (pose proof (cyc_prev _ _ _ _ _ Hc) as E; simpl in E; by rewrite E, Ha).
    assert (next_entry_ (level b n) = Some c) as Hnc
      by (pose proof (cyc_next _ _ _ _ _ Hc) as E; simpl in E; by rewrite E, Hcc).
    assert (n ≠ a) as Hna.
    { intros ->. rewrite <- Permutation_middle in Hnd. apply NoDup_cons in Hnd as [Hn _].
      apply last_Some_elem_of in Ha. set_solver. }
    rewrite Hpa, Hnc. simpl. rewrite !level_with_level, !(decide_False (P := a = n)) by done.
    rewrite Hnc, Hpa. simpl.
    assert (next_entry_ (level (with_level c (set_prev_entry (Some a))
              (with_level a (set_next_entry (Some c)) b)) n) = Some c) as ->.
    { rewrite !level_with_level. case_decide; [by subst|]. by rewrite decide_False. }
    fold (unlink_level b s n a c).
    destruct (free_level b (unlink_level b s n a c) s n l1 l2) as (p & b' & E & Hb' & Hlr);
      [by apply unlink_level_ok|done..|].
    simpl in E. rewrite E. eexists; split; [done|]. by subst b'.
Qed.

Lemma side_ok_level_removed b b' s ls1 lp os ls2 :
  side_ok b s (ls1 ++ (lp, os) :: ls2) → level_removed b b' s lp ls1.*1 ls2.*1 →
  side_ok b' s (ls1 ++ ls2).
Proof.
  intros [_ _ Hso Hlv] Hlr.
  assert (Hpr : ∀ i, lvl_price_ (level b' i) = lvl_price_ (level b i)).
  { intros i. pose proof (lr_data _ _ _ _ _ _ Hlr i) as E. unfold lvl_data in E. congruence. }
  assert (Hord : ∀ i, order b' i = order b i)
    by (intros i; unfold order; by rewrite (lr_order_pool _ _ _ _ _ _ Hlr)).
  assert (sublist (ls1 ++ ls2) (ls1 ++ (lp, os) :: ls2)) as Hsub
    by (apply sublist_app; [done|by apply sublist_cons]).
  split; rewrite ?fmap_app.
  - apply (lr_head _ _ _ _ _ _ Hlr).
  - apply (lr_ring _ _ _ _ _ _ Hlr).
  - apply (StronglySorted_sublist _ _ (ls1 ++ (lp, os) :: ls2).*1).
    + rewrite fmap_app. apply sublist_app; [done|by apply sublist_cons].
    + eapply StronglySorted_impl_elem; [|exact Hso]. intros i j _ _. by rewrite !Hpr.
  - apply (Forall_sublist _ _ _ Hsub). eapply Forall_impl; [exact Hlv|].
    intros gl Hgl. eapply level_ok_frame; [..|done]; [apply (lr_data _ _ _ _ _ _ Hlr)|auto].
Qed.

(** Both sides after the level of a single order is gone. *)
Lemma level_removed_sides b b' g extra s ls1 lp os ls2 s' :
  book_ok b g extra → proper_side s → proper_side s' →
  g_side g s = ls1 ++ (lp, os) :: ls2 → level_removed b b' s lp ls1.*1 ls2.*1 →
  side_ok b' s' (g_side (set_g_side g s (ls1 ++ ls2)) s').
Proof.
  intros Hb Hs Hs' Hg Hlr. pose proof (bo_side _ _ _ Hb s Hs) as Hso. rewrite Hg in Hso.
  rewrite g_side_set_g_side by done. case_decide as Es.
  - subst s'. by eapply side_ok_level_removed.
  - apply not_opposite in Es; [|done..]. subst s'.
    apply (side_ok_frame b); [..|by apply (bo_side _ _ _ Hb)].
    + apply (lr_other _ _ _ _ _ _ Hlr); [done|]. by apply not_eq_sym, opposite_ne.
    + intros i Hi. apply (lr_frame _ _ _ _ _ _ Hlr). intros Hin.
      pose proof (bo_levels_nodup _ _ _ Hb) as Hnd.
      rewrite (g_all_split g s Hs), Hg, !fmap_app in Hnd.
      apply NoDup_app in Hnd as (_ & Hd & _). by apply (Hd i).
    + intros i _. unfold order. by rewrite (lr_order_pool _ _ _ _ _ _ Hlr).
Qed.

(** Removing the only order of a level. *)
Lemma remove_only_order b g extra s ls1 lp optr ls2 :
  book_ok b g extra → proper_side s → g_side g s = ls1 ++ (lp, [optr]) :: ls2 →
  ∃ b', removeOrdersAtPrice s (lvl_price_ (level b lp)) b = Ok b'
    ∧ order_pool_ b' = order_pool_ b ∧ order_index_ b' = order_index_ b
    ∧ store_size (orders_at_price_pool_ b') = store_size (orders_at_price_pool_ b)
    ∧ book_ok (set_order_index (delete (ord_key (order b optr)) (order_index_ b)) b')
        (set_g_side g s (ls1 ++ ls2)) (optr :: extra).
Proof.
  intros Hb Hs Hg. pose proof (bo_side _ _ _ Hb s Hs) as Hso. rewrite Hg in Hso.
  assert (Hperm : g_all g ≡ₚ (lp, [optr]) :: (ls1 ++ ls2) ++ g_side g (opposite s)).
  { rewrite (g_all_split g s Hs), Hg. solve_Permutation. }
  pose proof (bo_levels_nodup _ _ _ Hb) as Hnl. pose proof (bo_orders_nodup _ _ _ Hb) as Hno.
  assert (lp ∈ (g_all g).*1) as Hlp by (rewrite Hperm; simpl; set_solver).
  pose proof (so_ring _ _ _ Hso) as Hring. pose proof (so_head _ _ _ Hso) as Hhead.
  rewrite fmap_app in Hring, Hhead. simpl in Hring, Hhead.
  destruct (removeOrdersAtPrice_ok b s lp ls1.*1 ls2.*1) as (b' & -> & Hlr); try done.
  { apply (bo_price_index _ _ _ Hb). done. }
  { rewrite (g_all_split g s Hs), Hg, !fmap_app in Hnl. by apply NoDup_app in Hnl as [? _]. }
  { apply (bo_level_pool _ _ _ Hb). }
  { by apply (bo_levels _ _ _ Hb). }
  pose proof (λ s' Hs', level_removed_sides _ _ _ _ _ _ _ _ _ s' Hb Hs Hs' Hg Hlr) as Hsides.
  destruct Hlr as [_ _ _ _ Hdata Hop Hoi Hpi Huse Hwf Hsz].
  exists b'. split_and!; [done..|].
  set (g' := set_g_side g s (ls1 ++ ls2)).
  assert (Hall : g_all g ≡ₚ (lp, [optr]) :: g_all g')
    by (unfold g'; rewrite g_all_set by done; done).
  assert (Hallo : orders_of (g_all g) ≡ₚ optr :: orders_of (g_all g'))
    by by rewrite Hall.
  rewrite Hall in Hnl. simpl in Hnl. apply NoDup_cons in Hnl as [Hlpn Hnl].
  split; simpl; try done.
  - intros s' Hs'. apply (side_ok_frame b'); [done..|]. by apply Hsides.
  - rewrite Hop. apply (bo_order_pool _ _ _ Hb).
  - intros i. rewrite Huse, (bo_levels _ _ _ Hb), Hall. cbn. rewrite elem_of_cons.
    split; [intros [? [?|?]]; done|]. intros Hi. split; [|by right]. intros ->. done.
  - intros i. rewrite Hop, (bo_orders _ _ _ Hb), Hallo. set_solver.
  - by rewrite <- Permutation_middle, app_comm_cons, <- Hallo.
  - intros k i. rewrite Hpi.
    assert (∀ j, lvl_price_ (level b' j) = lvl_price_ (level b j)) as Hpr.
    { intros j. pose proof (Hdata j) as E. unfold lvl_data in E. congruence. }
    change (level (set_order_index _ b') i) with (level b' i). rewrite Hpr.
    apply (index_delete _ (λ j, priceToIndex (lvl_price_ (level b j))) (g_all g).*1).
    + apply (bo_price_index _ _ _ Hb).
    + by rewrite Hall.
    + apply (bo_levels_nodup _ _ _ Hb).
  - intros k i. unfold order at 2. simpl. rewrite Hop.
    apply (index_delete _ (λ j, ord_key (order b j)) (orders_of (g_all g))).
    + apply (bo_order_index _ _ _ Hb).
    + done.
    + by apply NoDup_app in Hno as [? _].
Qed.

(** ** Unlinking an order from a level that keeps others *)

Definition unlink_order b (optr before after lp : Z) : Book Ord K :=
  let b2 := with_order after (set_prev (Some before))
              (with_order before (set_next (Some after)) b) in
  let b3 := if bool_decide (first_order_ (level b2 lp) = Some optr)
            then with_level lp (set_first_order (Some after)) b2 else b2 in
  with_order optr (λ o, set_prev None (set_next None o)) b3.

Lemma level_unlink_order b optr before after lp i :
  level (unlink_order b optr before after lp) i =
  if bool_decide (i = lp ∧ first_order_ (level b lp) = Some optr)
  then set_first_order (Some after) (level b lp) else level b i.
Proof.
  unfold unlink_order. simpl.
  change (first_order_ (level (with_order _ _ _) lp)) with (first_order_ (level b lp)).
  set (b2 := with_order after _ _). assert (∀ j, level b2 j = level b j) as Hl by done.
  destruct (decide (first_order_ (level b lp) = Some optr)) as [E|E].
  - rewrite bool_decide_eq_true_2 by done.
    change (level (with_order optr _ ?x) i) with (level x i). rewrite level_with_level, !Hl.
    destruct (decide (lp = i)) as [->|].
    + by rewrite bool_decide_eq_true_2.
    + rewrite bool_decide_eq_false_2 by naive_solver. done.
  - rewrite bool_decide_eq_false_2 by done.
    rewrite bool_decide_eq_false_2 by naive_solver. done.
Qed.

Lemma order_unlink_order b optr before after lp i :
  order (unlink_order b optr before after lp) i =
  let b2 := with_order after (set_prev (Some before))
              (with_order before (set_next (Some after)) b) in
  if decide (optr = i) then set_prev None (set_next None (order b2 optr)) else order b2 i.
Proof.
  unfold unlink_order. rewrite order_with_order. simpl. by case_bool_decide.
Qed.

Lemma erase_unlink_order b optr before after lp i :
  erase (order (unlink_order b optr before after lp) i) = erase (order b i).
Proof.
  rewrite order_unlink_order. simpl. rewrite !order_with_order.
  repeat (case_decide; subst; rewrite ?erase_set_prev, ?erase_set_next); done.
Qed.

Lemma unlink_order_pools b optr before after lp :
  let b' := unlink_order b optr before after lp in
  (∀ i, in_use (order_pool_ b') i ↔ in_use (order_pool_ b) i)
  ∧ (pool_wf (order_pool_ b) → pool_wf (order_pool_ b'))
  ∧ store_size (order_pool_ b') = store_size (order_pool_ b)
  ∧ (∀ i, in_use (orders_at_price_pool_ b') i ↔ in_use (orders_at_price_pool_ b) i)
  ∧ (pool_wf (orders_at_price_pool_ b) → pool_wf (orders_at_price_pool_ b'))
  ∧ store_size (orders_at_price_pool_ b') = store_size (orders_at_price_pool_ b)
  ∧ (∀ s, side_head b' s = side_head b s)
  ∧ price_orders_at_price_ b' = price_orders_at_price_ b
  ∧ order_index_ b' = order_index_ b.
Proof.
  unfold unlink_order. simpl. case_bool_decide; simpl; split_and!; intros;
    rewrite ?in_use_pool_modify; auto using pool_wf_modify.
Qed.

Lemma unlink_order_ring b optr before after lp os1 os2 :
  cyc (onext b) (oprev b) (os1 ++ optr :: os2) → NoDup (os1 ++ optr :: os2) →
  last (os2 ++ os1) = Some before → head (os2 ++ os1) = Some after →
  let b' := unlink_order b optr before after lp in
  cyc (onext b') (oprev b') (os1 ++ os2)
  ∧ ∀ i, i ∉ os1 ++ optr :: os2 → order b' i = order b i.
Proof.
  intros Hc Hnd Ha Hcc. simpl.
  assert (before ∈ os1 ++ os2) as Hain by (apply last_Some_elem_of in Ha; set_solver).
  assert (after ∈ os1 ++ os2) as Hcin by (apply head_Some_elem_of in Hcc; set_solver).
  pose proof Hnd as Hn. rewrite <- Permutation_middle in Hn. apply NoDup_cons in Hn as [Hn _].
  assert (optr ≠ before) by (intros ->; done). assert (optr ≠ after) by (intros ->; done).
  split.
  - eapply cyc_unlink with (a := before) (b := after) (nxt := onext b) (prv := oprev b) (n := optr);
      try done; cbv beta; intros; rewrite order_unlink_order; simpl; rewrite !order_with_order;
      repeat (case_decide; subst; rewrite ?prev_set_prev, ?next_set_prev, ?prev_set_next,
        ?next_set_next; try done).
  - intros i Hi. rewrite order_unlink_order. simpl. rewrite !order_with_order.
    rewrite !decide_False; [done|..]; intros <-; set_solver.
Qed.

(** Only the first-order pointer of the level itself may change. *)
Lemma unlink_order_level_data b optr before after lp i :
  set_first_order None (level (unlink_order b optr before after lp) i)
  = set_first_order None (level b i).
Proof. rewrite level_unlink_order. case_bool_decide as E; [by destruct E as [-> _]|done]. Qed.

Lemma unlink_order_level_price b optr before after lp i :
  lvl_price_ (level (unlink_order b optr before after lp) i) = lvl_price_ (level b i).
Proof.
  pose proof (unlink_order_level_data b optr before after lp i) as E.
  unfold set_first_order in E. by simplify_eq.
Qed.

Lemma unlink_order_other_level b optr before after lp i :
  i ≠ lp → level (unlink_order b optr before after lp) i = level b i.
Proof. intros Hi. rewrite level_unlink_order. by rewrite bool_decide_eq_false_2 by naive_solver. Qed.

Lemma unlink_order_level_ok b s lp os1 optr os2 before after :
  level_ok b s (lp, os1 ++ optr :: os2) → NoDup (os1 ++ optr :: os2) →
  last (os2 ++ os1) = Some before → head (os2 ++ os1) = Some after →
  level_ok (unlink_order b optr before after lp) s (lp, os1 ++ os2).
Proof.
  intros [Ls Lf Lne Lr Lo] Hos Hla Hhd. cbn [fst snd] in *.
  pose proof (erase_unlink_order b optr before after lp) as Her.
  destruct (unlink_order_ring b optr before after lp os1 os2) as [Hring _]; [done..|].
  split; cbn [fst snd].
  - pose proof (unlink_order_level_data b optr before after lp lp) as E.
    unfold set_first_order in E. by simplify_eq.
  - rewrite level_unlink_order. case_bool_decide as E.
    + destruct E as [_ E]. rewrite Lf in E. simpl. rewrite <- Hhd.
      destruct os1 as [|x os1]; simpl in *; [by rewrite app_nil_r|].
      simplify_eq. apply NoDup_cons in Hos as [[] _]. apply elem_of_app. by right; left.
    + rewrite Lf. destruct os1 as [|x os1]; [|done]. destruct E. by rewrite Lf.
  - intros [-> ->]%app_nil. done.
  - done.
  - intros i Hi. rewrite (erase_side _ _ (Her i)), (erase_price _ _ (Her i)).
    rewrite unlink_order_level_price. apply Lo. clear -Hi. set_solver.
Qed.

(** The ghost state with one order taken out of its level. *)
Lemma ghost_unlinked_levels g s ls1 lp os os' ls2 :
  proper_side s → g_side g s = ls1 ++ (lp, os) :: ls2 →
  (g_all (set_g_side g s (ls1 ++ (lp, os') :: ls2))).*1 ≡ₚ (g_all g).*1.
Proof. intros Hs Hg. rewrite g_all_set, (g_all_split g s), Hg by done. by rewrite !fmap_app. Qed.

Lemma ghost_level_orders g s ls1 lp os ls2 :
  proper_side s → g_side g s = ls1 ++ (lp, os) :: ls2 →
  orders_of (g_all g) ≡ₚ os ++ orders_of (ls1 ++ ls2) ++ orders_of (g_side g (opposite s)).
Proof.
  intros Hs Hg. rewrite (g_all_split g s Hs), Hg, !orders_of_app, orders_of_cons.
  simpl. solve_Permutation.
Qed.

Lemma ghost_unlinked_orders g s ls1 lp os1 optr os2 ls2 :
  proper_side s → g_side g s = ls1 ++ (lp, os1 ++ optr :: os2) :: ls2 →
  orders_of (g_all g)
  ≡ₚ optr :: orders_of (g_all (set_g_side g s (ls1 ++ (lp, os1 ++ os2) :: ls2))).
Proof.
  intros Hs Hg. rewrite g_all_set, (ghost_level_orders _ _ _ _ _ _ Hs Hg) by done.
  rewrite !orders_of_app, orders_of_cons. simpl. solve_Permutation.
Qed.

Lemma unlink_order_sides b g extra s ls1 lp os1 optr os2 ls2 before after s' :
  book_ok b g extra → proper_side s → proper_side s' →
  g_side g s = ls1 ++ (lp, os1 ++ optr :: os2) :: ls2 →
  last (os2 ++ os1) = Some before → head (os2 ++ os1) = Some after →
  side_ok (unlink_order b optr before after lp) s'
    (g_side (set_g_side g s (ls1 ++ (lp, os1 ++ os2) :: ls2)) s').
Proof.
  intros Hb Hs Hs' Hg Hla Hhd. pose proof (bo_side _ _ _ Hb s Hs) as Hso. rewrite Hg in Hso.
  pose proof (so_levels _ _ _ Hso) as Hlv. rewrite Forall_app, Forall_cons in Hlv.
  destruct Hlv as (_ & Hlo & _). pose proof (lo_ring _ _ _ Hlo) as Lr. cbn [fst snd] in Lr.
  pose proof (bo_orders_nodup _ _ _ Hb) as Hno.
  rewrite (ghost_level_orders _ _ _ _ _ _ Hs Hg) in Hno.
  apply NoDup_app in Hno as ((Hos & Hd & _)%NoDup_app & _ & _).
  pose proof (bo_levels_nodup _ _ _ Hb) as Hn.
  rewrite (g_all_split g s Hs), Hg, fmap_app in Hn. apply NoDup_app in Hn as (Hnl & Hn & _).
  destruct (unlink_order_ring b optr before after lp os1 os2) as [_ Hframe]; [done..|].
  destruct (unlink_order_pools b optr before after lp) as (_ & _ & _ & _ & _ & _ & Hh & _ & _).
  rewrite g_side_set_g_side by done. destruct (decide (s = s')) as [Es|Es].
  - subst s'. eapply (side_ok_update_level b); [exact Hso|..]; try done.
    + apply unlink_order_other_level.
    + apply unlink_order_level_data.
    + intros i Hi. apply Hframe. intros Hin. apply (Hd i Hin), elem_of_app. by left.
    + by apply unlink_order_level_ok.
  - apply not_opposite in Es; [|done..]. subst s'.
    apply (side_ok_frame b); [apply Hh|..|by apply (bo_side _ _ _ Hb)].
    + intros i Hi. apply unlink_order_other_level. intros ->.
      apply (Hn lp); [|done]. rewrite fmap_app. clear. set_solver.
    + intros i Hi. apply Hframe. intros Hin. apply (Hd i Hin), elem_of_app. by right.
Qed.

Lemma unlink_order_ok b g extra s ls1 lp os1 optr os2 ls2 before after :
  book_ok b g extra → proper_side s →
  g_side g s = ls1 ++ (lp, os1 ++ optr :: os2) :: ls2 →
  last (os2 ++ os1) = Some before → head (os2 ++ os1) = Some after →
  book_ok (set_order_index (delete (ord_key (order b optr)) (order_index_ b))
             (unlink_order b optr before after lp))
    (set_g_side g s (ls1 ++ (lp, os1 ++ os2) :: ls2)) (optr :: extra).
Proof.
  intros Hb Hs Hg Hla Hhd.
  pose proof (ghost_unlinked_levels g s ls1 lp _ (os1 ++ os2) ls2 Hs Hg) as Hall.
  pose proof (ghost_unlinked_orders g s ls1 lp os1 optr os2 ls2 Hs Hg) as Hord.
  pose proof (λ s' Hs', unlink_order_sides _ _ _ _ _ _ _ _ _ _ _ _ s' Hb Hs Hs' Hg Hla Hhd) as Hsides.
  destruct (unlink_order_pools b optr before after lp) as (Hu & Hw & _ & Hlu & Hlw & _ & _ & Hpi & _).
  pose proof (erase_unlink_order b optr before after lp) as Her.
  pose proof (unlink_order_level_price b optr before after lp) as Hprice.
  set (b' := unlink_order b optr before after lp) in *. clearbody b'.
  set (g' := set_g_side g s _) in *. clearbody g'.
  split; simpl; try done.
  - intros s' Hs'. apply (side_ok_frame b'); [done..|]. by apply Hsides.
  - apply Hlw, (bo_level_pool _ _ _ Hb).
  - apply Hw, (bo_order_pool _ _ _ Hb).
  - intros i. rewrite Hlu, Hall. apply (bo_levels _ _ _ Hb).
  - intros i. rewrite Hu, (bo_orders _ _ _ Hb), Hord. clear. set_solver.
  - rewrite Hall. apply (bo_levels_nodup _ _ _ Hb).
  - rewrite <- Permutation_middle, app_comm_cons, <- Hord. apply (bo_orders_nodup _ _ _ Hb).
  - intros k i. change (level (set_order_index _ b') i) with (level b' i).
    rewrite Hpi, Hall, Hprice. apply (bo_price_index _ _ _ Hb).
  - intros k i. change (order (set_order_index _ b') i) with (order b' i).
    rewrite (erase_key _ _ (Her i)).
    apply (index_delete _ (λ j, ord_key (order b j)) (orders_of (g_all g))); [|done|].
    + apply (bo_order_index _ _ _ Hb).
    + pose proof (bo_orders_nodup _ _ _ Hb) as Hn. by apply NoDup_app in Hn as [? _].
Qed.

(** ** Freeing an unlinked order *)

Lemma free_order b g extra optr :
  book_ok b g (optr :: extra) →
  ∃ p, deallocate optr (order_pool_ b) = Ok p ∧ book_ok (set_order_pool p b) g extra
     ∧ (∀ i, obj p i = obj (order_pool_ b) i) ∧ store_size p = store_size (order_pool_ b).
Proof.
  intros Hb. destruct (deallocate_ok (order_pool_ b) optr) as (p & -> & Hwf & Hsz & Hu & Hobj).
  { apply (bo_order_pool _ _ _ Hb). }
  { apply (bo_orders _ _ _ Hb). set_solver. }
  exists p. split_and!; [done| |done|done].
  pose proof (bo_orders_nodup _ _ _ Hb) as Hn. rewrite <- Permutation_middle in Hn.
  apply NoDup_cons in Hn as [Hn Hnd].
  split; simpl; try apply Hb; try done.
  - intros s Hs. apply (side_ok_frame b); [done|done| |by apply Hb].
    intros i _. apply Hobj.
  - intros i. rewrite Hu, (bo_orders _ _ _ Hb). rewrite !elem_of_app, elem_of_cons.
    split; [tauto|]. intros Hi. split; [|tauto]. intros ->. apply Hn. by apply elem_of_app.
  - intros k i. unfold order. simpl. rewrite Hobj. apply (bo_order_index _ _ _ Hb).
Qed.

(** ** [removeOrder] refines [remove_order] *)

Lemma remove_order_app (k : K) (q1 q2 : list Ord) :
  remove_order k (q1 ++ q2) = remove_order k q1 ++ remove_order k q2.
Proof. apply filter_app. Qed.

Lemma remove_order_id (k : K) (q : list Ord) :
  (∀ x, x ∈ q → ord_key x ≠ k) → remove_order k q = q.
Proof.
  induction q as [|x q IH]; intros Hq; [done|].
  unfold remove_order. rewrite filter_cons_True by (apply Hq; set_solver). f_equal.
  apply IH. set_solver.
Qed.

Lemma remove_order_hit (o : Ord) : remove_order (ord_key o) [o] = [].
Proof. unfold remove_order. by rewrite filter_cons_False by naive_solver. Qed.

(** Resting orders have distinct keys. *)
Lemma book_key_inj b g extra i j :
  book_ok b g extra → i ∈ orders_of (g_all g) → j ∈ orders_of (g_all g) →
  ord_key (order b i) = ord_key (order b j) → i = j.
Proof.
  intros Hb Hi Hj E.
  assert (order_index_ b !! ord_key (order b i) = Some i) as E1 by by apply (bo_order_index _ _ _ Hb).
  assert (order_index_ b !! ord_key (order b i) = Some j) as E2 by by apply (bo_order_index _ _ _ Hb).
  congruence.
Qed.

Lemma remove_order_ptrs b g extra optr (l : list Z) :
  book_ok b g extra → optr ∈ orders_of (g_all g) → (∀ i, i ∈ l → i ∈ orders_of (g_all g)) →
  optr ∉ l →
  remove_order (ord_key (order b optr)) ((λ i, erase (order b i)) <$> l)
  = (λ i, erase (order b i)) <$> l.
Proof.
  intros Hb Ho Hl Hn. apply remove_order_id. intros x (i & -> & Hi)%list_elem_of_fmap.
  rewrite key_erase. intros E. apply (book_key_inj b g extra) in E; [|by auto..]. by subst.
Qed.

(** The order is somewhere in a level of its own side and price. *)
Lemma locate_order b g extra optr :
  book_ok b g extra → optr ∈ orders_of (g_all g) →
  ∃ s ls1 lp os1 os2 ls2, proper_side s ∧ g_side g s = ls1 ++ (lp, os1 ++ optr :: os2) :: ls2
    ∧ ord_side (order b optr) = s ∧ ord_price (order b optr) = lvl_price_ (level b lp)
    ∧ getOrdersAtPrice b (ord_price (order b optr)) = Some lp.
Proof.
  intros Hb Ho.
  assert (∃ s, proper_side s ∧ optr ∈ orders_of (g_side g s)) as (s & Hs & Hin).
  { rewrite (g_all_split g BUY), orders_of_app in Ho by by left.
    apply elem_of_app in Ho as [Ho|Ho]; [exists BUY|exists SELL]; (split; [|done]);
      [by left|by right]. }
  apply elem_of_orders_of in Hin as ([lp os] & Hgl & Hos). simpl in Hos.
  pose proof (so_levels _ _ _ (bo_side _ _ _ Hb s Hs)) as Hlv. rewrite Forall_forall in Hlv.
  destruct (lo_orders _ _ _ (Hlv _ Hgl) optr Hos) as [Hside Hp]. simpl in Hp.
  assert (lp ∈ (g_all g).*1) as Hlp.
  { rewrite (g_all_split g s Hs), fmap_app. apply elem_of_app. left.
    by apply (list_elem_of_fmap_2 fst _ (lp, os)). }
  apply list_elem_of_split in Hos as (os1 & os2 & ->).
  apply list_elem_of_split in Hgl as (ls1 & ls2 & Hg).
  exists s, ls1, lp, os1, os2, ls2. split_and!; try done.
  apply (bo_price_index _ _ _ Hb). split; [done|]. by rewrite Hp.
Qed.

(** Both ways of unlinking leave a book in which only the block of [optr]
    remains to be freed. *)
Lemma removeOrder_unlinks b g extra optr :
  book_ok b g extra → optr ∈ orders_of (g_all g) →
  key_in_range (ord_key (order b optr)) = true →
  ∃ s A B g' b1 b2, proper_side s ∧ orders_of (g_side g s) = A ++ optr :: B
    ∧ orders_of (g_side g' s) = A ++ B
    ∧ (∀ s', proper_side s' → s' ≠ s → g_side g' s' = g_side g s')
    ∧ b2 = set_order_index (delete (ord_key (order b optr)) (order_index_ b)) b1
    ∧ removeOrder optr b = (let* p := deallocate optr (order_pool_ b1) in
                            Ok (set_order_pool p b2))
    ∧ book_ok b2 g' (optr :: extra) ∧ (∀ i, erase (order b1 i) = erase (order b i))
    ∧ store_size (orders_at_price_pool_ b1) = store_size (orders_at_price_pool_ b)
    ∧ store_size (order_pool_ b1) = store_size (order_pool_ b).
Proof.
  intros Hb Ho Hkey.
  destruct (locate_order b g extra optr Hb Ho)
    as (s & ls1 & lp & os1 & os2 & ls2 & Hs & Hg & Hside & Hp & Hget).
  pose proof (bo_side _ _ _ Hb s Hs) as Hso. rewrite Hg in Hso.
  pose proof (so_levels _ _ _ Hso) as Hlv. rewrite Forall_app, Forall_cons in Hlv.
  destruct Hlv as (_ & [_ _ _ Hring _] & _). cbn [fst snd] in Hring.
  assert (NoDup (os1 ++ optr :: os2)) as Hnd.
  { pose proof (bo_orders_nodup _ _ _ Hb) as Hno.
    rewrite (g_all_split g s Hs), Hg, !orders_of_app, orders_of_cons in Hno.
    apply NoDup_app in Hno as ((( _ & _ & (? & _)%NoDup_app)%NoDup_app & _)%NoDup_app & _). done. }
  pose proof (cyc_prev _ _ _ _ _ Hring) as Hprev. pose proof (cyc_next _ _ _ _ _ Hring) as Hnext.
  cbv beta in Hprev, Hnext. rewrite <- Permutation_middle in Hnd. apply NoDup_cons in Hnd as [Hn _].
  exists s, (orders_of ls1 ++ os1), (os2 ++ orders_of ls2).
  destruct (os2 ++ os1) as [|x os] eqn:Eos.
  - apply app_nil in Eos as [-> ->]. simpl in Hprev.
    destruct (remove_only_order b g extra s ls1 lp optr ls2) as (b1 & E & Hop & Hoi & Hsz & Hb2);
      [done..|].
    exists (set_g_side g s (ls1 ++ ls2)), b1. eexists. split_and!; try exact Hb2; try done.
    + rewrite Hg, orders_of_app, orders_of_cons. by rewrite app_nil_r.
    + rewrite g_side_set_g_side, decide_True, orders_of_app by done. by rewrite app_nil_r.
    + intros s' Hs' Hne. by rewrite g_side_set_g_side, decide_False by done.
    + unfold removeOrder. rewrite Hprev, bool_decide_eq_true_2, Hside, Hp, E by done. cbn [rbind].
      assert (order b1 optr = order b optr) as -> by (unfold order; by rewrite Hop).
      by rewrite Hkey, Hoi.
    + intros i. unfold order. by rewrite Hop.
    + by rewrite Hop.
  - destruct (last (os2 ++ os1)) as [before|] eqn:Hla; [|by rewrite Eos in Hla; apply last_None in Hla].
    rewrite <- Eos, Hla in Hprev. simpl in Hprev, Hnext.
    assert (head (os2 ++ os1) = Some x) as Hhd by by rewrite Eos.
    pose proof (unlink_order_ok b g extra s ls1 lp os1 optr os2 ls2 before x Hb Hs Hg Hla Hhd) as Hb2.
    destruct (unlink_order_pools b optr before x lp) as (_ & _ & Hsz & _ & _ & Hlsz & _ & _ & Hoi).
    pose proof (erase_unlink_order b optr before x lp) as Her.
    exists (set_g_side g s (ls1 ++ (lp, os1 ++ os2) :: ls2)), (unlink_order b optr before x lp).
    eexists. split_and!; try exact Hb2; try done.
    + rewrite Hg, orders_of_app, orders_of_cons. simpl. by rewrite <- !(assoc_L (++)).
    + rewrite g_side_set_g_side, decide_True, orders_of_app, orders_of_cons by done.
      simpl. by rewrite <- !(assoc_L (++)).
    + intros s' Hs' Hne. by rewrite g_side_set_g_side, decide_False by done.
    + unfold removeOrder. rewrite Hprev, bool_decide_eq_false_2, Hnext, Hget.
      2: { intros [= ->]. apply last_Some_elem_of in Hla. apply Hn. clear -Hla. set_solver. }
      cbn [rbind deref]. fold (unlink_order b optr before x lp).
      rewrite (erase_key _ _ (Her optr)), Hkey, Hoi. done.
Qed.

Lemma removeOrder_ok b g extra optr :
  book_ok b g extra → optr ∈ orders_of (g_all g) →
  key_in_range (ord_key (order b optr)) = true →
  ∃ b' g', removeOrder optr b = Ok b' ∧ book_ok b' g' extra
    ∧ (∀ i, erase (order b' i) = erase (order b i))
    ∧ store_size (orders_at_price_pool_ b') = store_size (orders_at_price_pool_ b)
    ∧ store_size (order_pool_ b') = store_size (order_pool_ b)
    ∧ ∀ s, proper_side s →
        book_side b' g' s = remove_order (ord_key (order b optr)) (book_side b g s).
Proof.
  intros Hb Ho Hkey.
  destruct (removeOrder_unlinks b g extra optr Hb Ho Hkey)
    as (s & A & B & g' & b1 & b2 & Hs & HA & HA' & Hoth & -> & -> & Hb2 & Her & Hlsz & Hsz).
  destruct (free_order _ _ _ _ Hb2) as (p & Hd & Hb' & Hobj & Hpsz). simpl in Hd, Hobj, Hpsz.
  rewrite Hd. cbn [rbind]. do 2 eexists. split; [done|]. split; [exact Hb'|].
  assert (Her' : ∀ i, erase (order (set_order_pool p (set_order_index
      (delete (ord_key (order b optr)) (order_index_ b)) b1)) i) = erase (order b i)).
  { intros i. unfold order at 1. simpl. rewrite Hobj. apply Her. }
  split_and!; [done|done|by etrans|].
  assert (Hin : ∀ s' i, proper_side s' → i ∈ orders_of (g_side g s') → i ∈ orders_of (g_all g)).
  { intros s' i Hs' Hi. rewrite (g_all_split g s' Hs'), orders_of_app. by apply elem_of_app; left. }
  pose proof (bo_orders_nodup _ _ _ Hb) as [Hnd _]%NoDup_app.
  rewrite (g_all_split g s Hs), orders_of_app, HA in Hnd.
  intros s' Hs'. unfold book_side. rewrite (flat_erase b) by done. unfold flat.
  destruct (decide (s' = s)) as [->|Hne].
  - rewrite HA', HA, !fmap_app, fmap_cons. apply NoDup_app in Hnd as (Hnd & _ & _).
    rewrite <- Permutation_middle in Hnd. apply NoDup_cons in Hnd as [Hnd _].
    change (erase (order b optr) :: ?q) with ([erase (order b optr)] ++ q).
    rewrite !remove_order_app.
    assert (∀ i, i ∈ A ++ B → i ∈ orders_of (g_all g)) as HAB.
    { intros i Hi. apply (Hin s); [done|]. rewrite HA. clear -Hi. set_solver. }
    rewrite (remove_order_ptrs b g extra optr A), (remove_order_ptrs b g extra optr B); try done;
      try (intros; apply HAB, elem_of_app; tauto); try (intros Hi; apply Hnd, elem_of_app; tauto).
    rewrite <- (key_erase (order b optr)) at 1. by rewrite remove_order_hit.
  - rewrite Hoth by done. symmetry. apply (remove_order_ptrs b g extra); [done..|by eauto|].
    apply NoDup_app in Hnd as (_ & Hd' & _).
    rewrite (not_opposite s s') by (done || by apply not_eq_sym).
    apply Hd'. clear. set_solver.
Qed.

(** ** Changing an order in place *)

(** [f] changes neither the key, the side and the price nor the links. *)
Record data_update (f : Ord → Ord) : Prop := {
  du_side o : ord_side (f o) = ord_side o;
  du_price o : ord_price (f o) = ord_price o;
  du_key o : ord_key (f o) = ord_key o;
  du_prev o : ord_prev (f o) = ord_prev o;
  du_next o : ord_next (f o) = ord_next o;
  du_erase o : erase (f o) = f (erase o) }.

Lemma with_order_ok b g extra i f :
  data_update f → book_ok b g extra → book_ok (with_order i f b) g extra.
Proof.
  intros Hf Hb. set (b' := with_order i f b).
  assert (Ho : ∀ j, ord_side (order b' j) = ord_side (order b j)
    ∧ ord_price (order b' j) = ord_price (order b j) ∧ ord_key (order b' j) = ord_key (order b j)
    ∧ ord_prev (order b' j) = ord_prev (order b j) ∧ ord_next (order b' j) = ord_next (order b j)).
  { intros j. unfold b'. rewrite order_with_order. case_decide; [subst|done].
    by rewrite (du_side _ Hf), (du_price _ Hf), (du_key _ Hf), (du_prev _ Hf), (du_next _ Hf). }
  split; try apply Hb.
  - intros s Hs. destruct (bo_side _ _ _ Hb s Hs) as [H1 H2 H3 H4]. split; try done.
    eapply Forall_impl; [exact H4|]. intros gl [L1 L2 L3 L4 L5]. split; try done.
    + eapply cyc_frame; [..|exact L4]; intros j _; apply Ho.
    + intros j Hj. destruct (Ho j) as (-> & -> & _). by apply L5.
  - apply pool_wf_modify, Hb.
  - intros j. etrans; [apply in_use_pool_modify|]. apply (bo_orders _ _ _ Hb).
  - intros k j. destruct (Ho j) as (_ & _ & -> & _). apply (bo_order_index _ _ _ Hb).
Qed.

(** Its effect on the abstract side. *)
Definition update_order (k : K) (f : Ord → Ord) (q : list Ord) : list Ord :=
  (λ x, if decide (ord_key x = k) then f x else x) <$> q.

Lemma with_order_side b g extra i f s :
  data_update f → book_ok b g extra → i ∈ orders_of (g_all g) → proper_side s →
  book_side (with_order i f b) g s = update_order (ord_key (order b i)) f (book_side b g s).
Proof.
  intros Hf Hb Hi Hs. unfold book_side, flat, update_order. rewrite <- list_fmap_compose.
  apply list_fmap_ext. intros n j Hj%list_elem_of_lookup_2. simpl. rewrite order_with_order, key_erase.
  assert (j ∈ orders_of (g_all g)).
  { rewrite (g_all_split g s Hs), orders_of_app. by apply elem_of_app; left. }
  destruct (decide (i = j)) as [->|Hne].
  - rewrite decide_True by done. apply (du_erase _ Hf).
  - rewrite decide_False; [done|]. intros E. apply Hne. symmetry.
    by apply (book_key_inj b g extra).
Qed.
End Remove.
