(* ===== verification/BookRefine.v ===== *)
(** * The interface the two order books program against.

    [rep b ab] hides the ghost state: the pointer structure [b] stores exactly
    the abstract book [ab], two lists of orders in priority.  The lemmas
    [rep_*] are what MEOrderBook.v and MarketOrderBook.v use of BookRep.v and
    BookRemove.v; no client looks below them. *)

From stdpp Require Import gmap list sorting.
From S2P Require Import Prelude CircList MemPool Types BookCore BookSpec BookRep BookRemove.

Open Scope Z_scope.
Local Coercion Z.of_nat : nat >-> Z.

Record absbook (Ord : Type) := mkAbs { ab_bids : list Ord; ab_asks : list Ord }.
Arguments mkAbs {Ord} _ _.
Arguments ab_bids {Ord} _.
Arguments ab_asks {Ord} _.

Definition ab_side {Ord} (ab : absbook Ord) (s : Side) : list Ord :=
  if is_buy s then ab_bids ab else ab_asks ab.
Definition set_ab_side {Ord} (ab : absbook Ord) (s : Side) (q : list Ord) : absbook Ord :=
  if is_buy s then mkAbs q (ab_asks ab) else mkAbs (ab_bids ab) q.
Definition ab_all {Ord} (ab : absbook Ord) : list Ord := ab_bids ab ++ ab_asks ab.
Definition ab_map {Ord} (f : list Ord → list Ord) (ab : absbook Ord) : absbook Ord :=
  mkAbs (f (ab_bids ab)) (f (ab_asks ab)).

Lemma ab_side_set {Ord} (ab : absbook Ord) s s' q :
  proper_side s → proper_side s' →
  ab_side (set_ab_side ab s q) s' = if decide (s = s') then q else ab_side ab s'.
Proof. by intros [->| ->] [->| ->]. Qed.

Lemma set_ab_side_same {Ord} (ab : absbook Ord) s : set_ab_side ab s (ab_side ab s) = ab.
Proof. unfold set_ab_side, ab_side. destruct ab. by destruct (is_buy s). Qed.

Lemma set_ab_side_twice {Ord} (ab : absbook Ord) s q q' :
  set_ab_side (set_ab_side ab s q) s q' = set_ab_side ab s q'.
Proof. unfold set_ab_side. by destruct (is_buy s). Qed.

Lemma ab_side_map {Ord} f (ab : absbook Ord) s : ab_side (ab_map f ab) s = f (ab_side ab s).
Proof. unfold ab_side. by case_match. Qed.

Lemma ab_eq {Ord} (ab ab' : absbook Ord) :
  (∀ s, proper_side s → ab_side ab s = ab_side ab' s) → ab = ab'.
Proof.
  intros Hs. pose proof (Hs BUY (or_introl eq_refl)) as H1.
  pose proof (Hs SELL (or_intror eq_refl)) as H2.
  unfold ab_side in *. destruct ab, ab'. simpl in *. by subst.
Qed.

Lemma elem_of_ab_all {Ord} (ab : absbook Ord) x :
  x ∈ ab_all ab ↔ ∃ s, proper_side s ∧ x ∈ ab_side ab s.
Proof.
  unfold ab_all. rewrite elem_of_app. split.
  - intros [?|?]; [exists BUY|exists SELL]; (split; [|done]); [by left|by right].
  - intros (s & [->| ->] & ?); auto.
Qed.

Lemma ab_all_split {Ord} (ab : absbook Ord) s :
  proper_side s → ab_all ab ≡ₚ ab_side ab s ++ ab_side ab (opposite s).
Proof. intros [->| ->]; unfold ab_all, ab_side; simpl; [done|]. by rewrite (comm (++)). Qed.

Section Refine.
Context {Ord K : Type} `{Countable K} `{!OrderNode Ord K} `{!OrderNodeLaws Ord K}.
Implicit Types (b : Book Ord K) (ab : absbook Ord) (s : Side) (o x : Ord).

(** The book the constructors create in memory [mem]. *)
Definition Book_new (mem : IndexMemory K) : Book Ord K :=
  mkBook (MemPool_new ME_MAX_PRICE_LEVELS) (MemPool_new ME_MAX_ORDER_IDS) None None
    (mem_prices mem) (mem_orders mem).

Definition rep b ab : Prop :=
  ∃ g, book_ok b g []
     ∧ (∀ s, proper_side s → book_side b g s = ab_side ab s)
     ∧ store_size (orders_at_price_pool_ b) = ME_MAX_PRICE_LEVELS
     ∧ store_size (order_pool_ b) = ME_MAX_ORDER_IDS
     ∧ ∀ i, i ∈ orders_of (g_all g) → key_in_range (ord_key (order b i)) = true.

Lemma rep_new : rep (Book_new zeroed) (mkAbs [] []).
Proof.
  exists (mkGhost [] []). split_and!; [|by intros s [->| ->]|done|done|].
  - split; simpl; try (by apply pool_wf_new); try done.
    + intros s [->| ->]; split; simpl; try done; constructor.
    + intros i. split; [by intros ?%in_use_new|by intros ?%elem_of_nil].
    + intros i. split; [by intros ?%in_use_new|by intros ?%elem_of_nil].
    + constructor.
    + constructor.
    + intros k lp. rewrite lookup_empty. split; [done|by intros [?%elem_of_nil _]].
    + intros k i. rewrite lookup_empty. split; [done|by intros [?%elem_of_nil _]].
  - by intros i ?%elem_of_nil.
Qed.

Lemma book_side_all b g ab :
  (∀ s, proper_side s → book_side b g s = ab_side ab s) →
  (λ i, erase (order b i)) <$> orders_of (g_all g) = ab_all ab.
Proof.
  intros Hs. unfold g_all, ab_all. rewrite orders_of_app, fmap_app.
  pose proof (Hs BUY (or_introl eq_refl)) as H1.
  pose proof (Hs SELL (or_intror eq_refl)) as H2. by f_equal.
Qed.

(** Resting orders have distinct keys, all within the index array. *)
Lemma rep_keys b ab : rep b ab → NoDup (ord_key <$> ab_all ab).
Proof.
  intros (g & Hb & Hs & _ & _ & _). rewrite <- (book_side_all b g ab Hs), <- list_fmap_compose.
  apply NoDup_fmap_2_strong.
  - intros i j Hi Hj E. simpl in E. rewrite !key_erase in E. by apply (book_key_inj b g []).
  - pose proof (bo_orders_nodup _ _ _ Hb) as Hn. by rewrite app_nil_r in Hn.
Qed.

Lemma rep_key_range b ab x : rep b ab → x ∈ ab_all ab → key_in_range (ord_key x) = true.
Proof.
  intros (g & Hb & Hs & _ & _ & Hk). rewrite <- (book_side_all b g ab Hs).
  intros (i & -> & Hi)%list_elem_of_fmap. rewrite key_erase. by apply Hk.
Qed.

(** The index finds exactly the resting orders. *)
Lemma rep_lookup b ab k i :
  rep b ab → order_index_ b !! k = Some i →
  erase (order b i) ∈ ab_all ab ∧ ord_key (order b i) = k.
Proof.
  intros (g & Hb & Hs & _). rewrite (bo_order_index _ _ _ Hb). intros [Hi Hk]. split; [|done].
  rewrite <- (book_side_all b g ab Hs). by apply (list_elem_of_fmap_2 (λ i, erase (order b i))).
Qed.

Lemma rep_lookup_None b ab k :
  rep b ab → order_index_ b !! k = None ↔ k ∉ ord_key <$> ab_all ab.
Proof.
  intros (g & Hb & Hs & _). rewrite <- (book_side_all b g ab Hs), <- list_fmap_compose.
  rewrite eq_None_not_Some. split.
  - intros Hn (i & -> & Hi)%list_elem_of_fmap. apply Hn. exists i.
    apply (bo_order_index _ _ _ Hb). simpl. by rewrite key_erase.
  - intros Hn [i [Hi <-]%(bo_order_index _ _ _ Hb)]. apply Hn.
    apply list_elem_of_fmap. exists i. simpl. by rewrite key_erase.
Qed.

Lemma rep_lookup_Some b ab x :
  rep b ab → x ∈ ab_all ab →
  ∃ i, order_index_ b !! ord_key x = Some i ∧ erase (order b i) = x.
Proof.
  intros (g & Hb & Hs & _). rewrite <- (book_side_all b g ab Hs).
  intros (i & -> & Hi)%list_elem_of_fmap. exists i. split; [|done].
  apply (bo_order_index _ _ _ Hb). by rewrite key_erase.
Qed.

(** The resting orders are where their members say they are. *)
Lemma rep_sides b ab s x : rep b ab → proper_side s → x ∈ ab_side ab s → ord_side x = s.
Proof.
  intros (g & Hb & Hs & _) Hp. rewrite <- (Hs s Hp).
  intros (i & -> & (gl & Hgl & Hi)%elem_of_orders_of)%list_elem_of_fmap.
  pose proof (so_levels _ _ _ (bo_side _ _ _ Hb s Hp)) as Hlv. rewrite Forall_forall in Hlv.
  rewrite side_erase. by apply (lo_orders _ _ _ (Hlv gl Hgl) i Hi).
Qed.

Lemma erase_erase o : erase (erase o) = erase o.
Proof. unfold erase at 2. by rewrite erase_set_prev, erase_set_next. Qed.

Lemma rep_erased b ab x : rep b ab → x ∈ ab_all ab → erase x = x.
Proof.
  intros (g & Hb & Hs & _). rewrite <- (book_side_all b g ab Hs).
  intros (i & -> & _)%list_elem_of_fmap. apply erase_erase.
Qed.

(** The head of a side's ring is its best order. *)
Lemma rep_best b ab s :
  rep b ab → proper_side s →
  match ab_side ab s with
  | [] => side_head b s = None
  | x :: _ => ∃ lp i, side_head b s = Some lp ∧ first_order_ (level b lp) = Some i
                    ∧ erase (order b i) = x ∧ order_index_ b !! ord_key x = Some i
  end.
Proof.
  intros (g & Hb & Hs & _) Hp. rewrite <- (Hs s Hp). unfold book_side, flat.
  destruct (bo_side _ _ _ Hb s Hp) as [Hh _ _ Hlv].
  assert (∀ i, i ∈ orders_of (g_side g s) → i ∈ orders_of (g_all g)) as Hin.
  { intros i Hi. rewrite (g_all_split g s Hp), orders_of_app. by apply elem_of_app; left. }
  destruct (g_side g s) as [|[lp os] ls] eqn:Eg; simpl; [done|].
  apply Forall_cons in Hlv as [[_ Hf Hne _ _] _]. cbn [fst snd] in Hf, Hne.
  destruct os as [|i os]; [done|]. simpl. exists lp, i. split_and!; try done.
  apply (bo_order_index _ _ _ Hb). rewrite key_erase. split; [|done].
  apply Hin. rewrite orders_of_cons. set_solver.
Qed.

(** Each side is in price priority. *)
Lemma rep_sorted b ab s : rep b ab → proper_side s → price_sorted s (ab_side ab s).
Proof.
  intros (g & Hb & Hs & _) Hp. rewrite <- (Hs s Hp). unfold book_side, flat, price_sorted.
  destruct (bo_side _ _ _ Hb s Hp) as [_ _ Hso Hlv].
  induction (g_side g s) as [|gl ls IH]; simpl; [constructor|].
  apply Forall_cons in Hlv as [Hgl Hlv]. apply StronglySorted_inv in Hso as [Hso Hhd].
  rewrite orders_of_cons, fmap_app. apply StronglySorted_app. split_and!; [|..|by apply IH].
  - intros x y (i & -> & Hi)%list_elem_of_fmap Hy.
    destruct (flat_price b s ls y Hlv Hy) as (gl' & Hgl' & ->). rewrite price_erase.
    rewrite (proj2 (lo_orders _ _ _ Hgl i Hi)). apply better_asym.
    rewrite Forall_forall in Hhd. by apply Hhd, list_elem_of_fmap_2.
  - pose proof (lo_orders _ _ _ Hgl) as Ho. clear -Ho OrderNodeLaws0.
    induction (gl.2) as [|i os IH]; simpl; constructor; [apply IH; set_solver|].
    apply Forall_fmap, Forall_forall. intros j Hj. simpl. rewrite !price_erase.
    destruct (Ho i ltac:(set_solver)) as [_ ->], (Ho j ltac:(set_solver)) as [_ ->].
    apply better_irrefl.
Qed.

(** The resting orders of a price, oldest first. *)
Definition at_price (p : Z) (q : list Ord) : list Ord := filter (λ x, ord_price x = p) q.

Lemma at_price_none p q : (∀ x, x ∈ q → ord_price x ≠ p) → at_price p q = [].
Proof.
  intros Hq. destruct (at_price p q) as [|x l] eqn:E; [done|].
  assert (x ∈ at_price p q) as [Hp Hx]%list_elem_of_filter by (rewrite E; set_solver).
  by destruct (Hq x Hx).
Qed.

Lemma at_price_all p q : (∀ x, x ∈ q → ord_price x = p) → at_price p q = q.
Proof.
  induction q as [|x q IH]; intros Hq; [done|]. unfold at_price.
  rewrite filter_cons_True by (apply Hq; set_solver). f_equal. apply IH. set_solver.
Qed.

Lemma at_price_flat b s ls1 lp os ls2 :
  side_ok b s (ls1 ++ (lp, os) :: ls2) →
  at_price (lvl_price_ (level b lp)) (flat b (ls1 ++ (lp, os) :: ls2)) =
  (λ i, erase (order b i)) <$> os.
Proof.
  intros [_ _ Hso Hlv]. rewrite Forall_app, Forall_cons in Hlv. destruct Hlv as (F1 & F0 & F2).
  rewrite fmap_app in Hso. apply StronglySorted_app in Hso as (S1 & _ & [_ S2]%StronglySorted_inv).
  rewrite flat_app. unfold at_price. rewrite filter_app.
  fold (at_price (lvl_price_ (level b lp)) (flat b ls1)).
  rewrite (at_price_none _ (flat b ls1)).
  2: { intros x (gl & Hgl & ->)%(flat_price b s ls1 x F1) E.
       assert (better s (lvl_price_ (level b gl.1)) (lvl_price_ (level b lp)) = true) as Hbt.
       { apply S1; [by apply list_elem_of_fmap_2|set_solver]. }
       by rewrite E, better_irrefl in Hbt. }
  unfold flat. rewrite orders_of_cons, fmap_app, filter_app. cbn [snd].
  change (filter _ ?q) with (at_price (lvl_price_ (level b lp)) q).
  rewrite (at_price_none _ ((λ i, erase (order b i)) <$> orders_of ls2)).
  2: { intros x (gl & Hgl & ->)%(flat_price b s ls2 x F2) E.
       rewrite Forall_forall in S2.
       assert (better s (lvl_price_ (level b lp)) (lvl_price_ (level b gl.1)) = true) as Hbt.
       { apply S2. by apply (list_elem_of_fmap_2 fst). }
       by rewrite E, better_irrefl in Hbt. }
  rewrite at_price_all; [by rewrite app_nil_r|].
  intros x (i & -> & Hi)%list_elem_of_fmap. rewrite price_erase. by apply (lo_orders _ _ _ F0).
Qed.

(** The price index leads to the ring of the price, whose last node is the
    youngest order there. *)
Lemma rep_last_at_price b ab s p :
  rep b ab → proper_side s → no_collision (ab_side ab) s p →
  match last (at_price p (ab_side ab s)) with
  | None => getOrdersAtPrice b p = None
  | Some x => ∃ lp first prv, getOrdersAtPrice b p = Some lp ∧ first_order_ (level b lp) = Some first
                ∧ ord_prev (order b first) = Some prv ∧ erase (order b prv) = x
  end.
Proof.
  intros (g & Hb & Hs & _) Hp Hnc.
  assert (no_collision (book_side b g) s p) as Hnc'.
  { intros s' x Hs' Hx. apply Hnc; [done|]. by rewrite <- Hs. }
  rewrite <- (Hs s Hp). pose proof (bo_side _ _ _ Hb s Hp) as Hso.
  destruct (getOrdersAtPrice b p) as [lp|] eqn:Hget.
  - destruct (level_of_price b g [] s p lp) as (os & ls1 & ls2 & Hg & Hlp); [done..|].
    unfold book_side. rewrite Hg in Hso |- *. subst p. rewrite (at_price_flat b s) by done.
    pose proof (so_levels _ _ _ Hso) as Hlv. rewrite Forall_app, Forall_cons in Hlv.
    destruct Hlv as (_ & [_ Hf Hne Hr _] & _). cbn [fst snd] in *.
    rewrite fmap_last. destruct (last os) as [prv|] eqn:Hla; [|by apply last_None in Hla].
    destruct os as [|first os]; [done|]. simpl. exists lp, first, prv. split_and!; try done.
    pose proof (cyc_prev _ _ [] _ _ Hr) as E. cbv beta in E. rewrite E, app_nil_r. f_equal.
    rewrite last_cons in Hla. destruct (last os); by simplify_eq.
  - rewrite at_price_none; [done|]. intros x (gl & Hgl & ->)%(flat_price b s); [|by apply Hso].
    intros E. assert (getOrdersAtPrice b p = Some gl.1); [|congruence].
    apply (bo_price_index _ _ _ Hb). split; [|by rewrite E].
    rewrite (g_all_split g s Hp), fmap_app. apply elem_of_app; left. by apply list_elem_of_fmap_2.
Qed.

(** ** The operations *)

Lemma rep_update b ab k i f :
  rep b ab → data_update f → order_index_ b !! k = Some i →
  rep (with_order i f b) (ab_map (update_order k f) ab).
Proof.
  intros (g & Hb & Hs & Hl & Ho & Hk) Hf Hi. apply (bo_order_index _ _ _ Hb) in Hi as [Hi <-].
  exists g. split_and!; [by apply with_order_ok|..|done|done|].
  - intros s Hp. rewrite (with_order_side b g []) by done. by rewrite ab_side_map, Hs.
  - intros j Hj. rewrite order_with_order. case_decide; [subst; rewrite (du_key _ Hf)|]; by apply Hk.
Qed.

Lemma rep_remove b ab k i :
  rep b ab → order_index_ b !! k = Some i →
  ∃ b', removeOrder i b = Ok b' ∧ rep b' (ab_map (remove_order k) ab)
      ∧ (∀ j, erase (order b' j) = erase (order b j)).
Proof.
  intros (g & Hb & Hs & Hl & Ho & Hk) Hi. apply (bo_order_index _ _ _ Hb) in Hi as [Hi <-].
  destruct (removeOrder_ok b g [] i Hb Hi (Hk i Hi)) as (b' & g' & -> & Hb' & Her & Hl' & Ho' & Hs').
  exists b'. split_and!; [done| |done]. exists g'. split_and!; [done|..|congruence|congruence|].
  - intros s Hp. rewrite Hs', Hs by done. by rewrite ab_side_map.
  - intros j Hj. rewrite (erase_key _ _ (Her j)).
    assert (erase (order b' j) ∈ ab_all (ab_map (remove_order (ord_key (order b i))) ab)) as Hin.
    { rewrite <- (book_side_all b' g').
      - by apply (list_elem_of_fmap_2 (λ i, erase (order b' i))).
      - intros s Hp. rewrite Hs', Hs by done. by rewrite ab_side_map. }
    rewrite <- key_erase, <- Her. apply elem_of_ab_all in Hin as (s & Hp & Hin).
    rewrite ab_side_map in Hin. apply list_elem_of_filter in Hin as [_ Hin].
    apply (rep_key_range b ab); [by exists g|]. apply elem_of_ab_all. eauto.
Qed.

(** The number of price levels of a side, from its orders. *)
Definition num_levels (q : list Ord) : nat := length (remove_dups (ord_price <$> q)).

Lemma side_levels_bound b s ls :
  side_ok b s ls → (length ls ≤ num_levels (flat b ls))%nat.
Proof.
  intros [_ _ Hso Hlv]. unfold num_levels.
  rewrite <- (length_fmap (λ gl : Z * list Z, lvl_price_ (level b gl.1)) ls).
  apply submseteq_length, NoDup_submseteq.
  - clear Hlv. induction ls as [|gl ls IH]; simpl; [constructor|].
    apply StronglySorted_inv in Hso as [Hso Hx]. apply NoDup_cons. split; [|by apply IH].
    intros (gl' & E & Hgl')%list_elem_of_fmap. rewrite Forall_forall in Hx.
    assert (better s (lvl_price_ (level b gl.1)) (lvl_price_ (level b gl'.1)) = true) as Hbt
      by by apply Hx, list_elem_of_fmap_2.
    by rewrite E, better_irrefl in Hbt.
  - intros p (gl & -> & Hgl)%list_elem_of_fmap. rewrite elem_of_remove_dups.
    destruct (level_price_flat b s ls gl Hlv Hgl) as (x & Hx & <-). by apply list_elem_of_fmap_2.
Qed.

Lemma rep_levels b ab g :
  book_ok b g [] → (∀ s, proper_side s → book_side b g s = ab_side ab s) →
  (length (g_all g) ≤ num_levels (ab_bids ab) + num_levels (ab_asks ab))%nat.
Proof.
  intros Hb Hs. unfold g_all. rewrite length_app.
  pose proof (side_levels_bound _ _ _ (bo_side _ _ _ Hb BUY (or_introl eq_refl))) as H1.
  pose proof (side_levels_bound _ _ _ (bo_side _ _ _ Hb SELL (or_intror eq_refl))) as H2.
  change (flat b (g_side g BUY)) with (book_side b g BUY) in H1.
  change (flat b (g_side g SELL)) with (book_side b g SELL) in H2.
  rewrite Hs in H1 by by left. rewrite Hs in H2 by by right. simpl in *. unfold g_side in *.
  simpl in *. unfold ab_side in *. simpl in *. lia.
Qed.

(** Room for one more order and one more level. *)
Definition has_room ab : Prop :=
  length (ab_all ab) + 1 < ME_MAX_ORDER_IDS
  ∧ num_levels (ab_bids ab) + num_levels (ab_asks ab) + 1 < ME_MAX_PRICE_LEVELS.

Lemma book_ok_allocated b g o optr p' :
  book_ok b g [] → allocated o (order_pool_ b) optr p' →
  book_ok (set_order_pool p' b) g [optr] ∧ (optr ∉ orders_of (g_all g)).
Proof.
  intros Hb Ha.
  assert (optr ∉ orders_of (g_all g)) as Hn.
  { intros Hin. apply (al_fresh _ _ _ _ Ha), (bo_orders _ _ _ Hb). by rewrite app_nil_r. }
  assert (∀ i, i ∈ orders_of (g_all g) → order (set_order_pool p' b) i = order b i) as Hfr.
  { intros i Hi. unfold order at 1. simpl. rewrite (allocated_obj _ _ _ _ i Ha).
    rewrite decide_False; [done|]. by intros <-. }
  split; [|done]. split; try apply Hb.
  - intros s Hs. apply (side_ok_frame b); [done|done| |by apply Hb].
    intros i Hi. apply Hfr. rewrite (g_all_split g s Hs), orders_of_app. by apply elem_of_app; left.
  - apply (al_wf _ _ _ _ Ha).
  - intros i. etrans; [apply (allocated_in_use _ _ _ _ _ Ha)|]. rewrite (bo_orders _ _ _ Hb).
    rewrite app_nil_r, elem_of_app, list_elem_of_singleton. tauto.
  - pose proof (bo_orders_nodup _ _ _ Hb) as Hnd. rewrite app_nil_r in Hnd.
    rewrite <- Permutation_cons_append. by apply NoDup_cons.
  - intros k i. rewrite (bo_order_index _ _ _ Hb). split; intros [Hi Hk]; (split; [done|]);
      by rewrite (Hfr i Hi) in *.
Qed.

Lemma rep_add b ab o s :
  rep b ab → proper_side s → ord_side o = s → erase o = o → no_collision (ab_side ab) s (ord_price o) →
  has_room ab → key_in_range (ord_key o) = true → ord_key o ∉ ord_key <$> ab_all ab →
  ∃ optr p b', allocate o (order_pool_ b) = Ok (optr, p)
    ∧ addOrder optr (set_order_pool p b) = Ok b'
    ∧ rep b' (set_ab_side ab s (insert_order s o (ab_side ab s))).
Proof.
  intros Hr Hp Hside Her Hnc [Hro Hrl] Hkr Hkf. pose proof (rep_lookup_None b ab (ord_key o) Hr) as Hidx.
  destruct Hr as (g & Hb & Hs & Hl & Ho & Hk).
  assert (Hno : length (orders_of (g_all g)) = length (ab_all ab))
    by (rewrite <- (book_side_all b g ab Hs); by rewrite length_fmap).
  destruct (allocate_some o (order_pool_ b)) as (p & Eal & Ha).
  { apply Hb. }
  { rewrite (size_used _ (orders_of (g_all g))).
    - rewrite Ho. lia.
    - pose proof (bo_orders_nodup _ _ _ Hb) as Hn. by rewrite app_nil_r in Hn.
    - intros i. rewrite (bo_orders _ _ _ Hb). by rewrite app_nil_r. }
  set (optr := next_free_index_ (order_pool_ b)) in *.
  destruct (book_ok_allocated b g o optr p Hb Ha) as [Hb1 Hoptr].
  assert (order (set_order_pool p b) optr = o) as Eo.
  { unfold order. simpl. rewrite (allocated_obj _ _ _ _ optr Ha). by rewrite decide_True. }
  assert (∀ i, i ∈ orders_of (g_all g) → order (set_order_pool p b) i = order b i) as Hfr.
  { intros i Hi. unfold order at 1. simpl. rewrite (allocated_obj _ _ _ _ i Ha).
    rewrite decide_False; [done|]. by intros <-. }
  assert (∀ s', proper_side s' → book_side (set_order_pool p b) g s' = ab_side ab s') as Hs1.
  { intros s' Hs'. rewrite <- Hs by done. unfold book_side, flat. apply list_fmap_ext.
    intros n i Hi%list_elem_of_lookup_2. f_equal. apply Hfr.
    rewrite (g_all_split g s' Hs'), orders_of_app. by apply elem_of_app; left. }
  destruct (addOrder_ok (set_order_pool p b) g [] optr s) as (b' & g' & Ead & Hb' & Her' & Hl' & Ho' & Hs').
  { done. } { done. } { by rewrite Eo. }
  { rewrite Eo. intros s' x Hs' Hx. apply Hnc; [done|]. by rewrite <- Hs1. }
  { simpl. pose proof (rep_levels b ab g Hb Hs). lia. }
  { by rewrite Eo. }
  { rewrite Eo. by apply Hidx. }
  exists optr, p, b'. split_and!; [done..|]. exists g'.
  assert (∀ s', proper_side s' → book_side b' g' s' =
            ab_side (set_ab_side ab s (insert_order s o (ab_side ab s))) s') as Hs2.
  { intros s' Hp'. rewrite Hs', ab_side_set, Eo, Her, !Hs1 by done. by case_decide. }
  split_and!; [done|done|simpl in *; congruence| |].
  - rewrite Ho'. simpl. rewrite (al_size _ _ _ _ Ha). done.
  - intros i Hi. rewrite <- key_erase.
    assert (erase (order b' i) ∈ ab_all (set_ab_side ab s (insert_order s o (ab_side ab s)))) as Hin.
    { rewrite <- (book_side_all b' g' _ Hs2).
      by apply (list_elem_of_fmap_2 (λ i, erase (order b' i))). }
    apply elem_of_ab_all in Hin as (s' & Hp' & Hin). rewrite ab_side_set in Hin by done.
    assert (∀ x, x ∈ ab_side ab s' → key_in_range (ord_key x) = true) as Hold.
    { intros x Hx. apply (rep_key_range b ab); [by exists g|]. apply elem_of_ab_all. eauto. }
    case_decide; [subst s'|by apply Hold].
    rewrite insert_order_perm, elem_of_cons in Hin. destruct Hin as [->|Hin]; [done|by apply Hold].
Qed.

(** ** Changing or removing the best order *)

Lemma update_order_id (k : K) f (q : list Ord) :
  (∀ x, x ∈ q → ord_key x ≠ k) → update_order k f q = q.
Proof.
  intros Hq. unfold update_order. rewrite <- (list_fmap_id q) at 2. apply list_fmap_ext.
  intros n x Hx%list_elem_of_lookup_2. by rewrite decide_False by auto.
Qed.

Lemma head_key_unique ab s x q :
  proper_side s → NoDup (ord_key <$> ab_all ab) → ab_side ab s = x :: q →
  (∀ y, y ∈ q → ord_key y ≠ ord_key x)
  ∧ (∀ s' y, proper_side s' → s' ≠ s → y ∈ ab_side ab s' → ord_key y ≠ ord_key x).
Proof.
  intros Hp Hnd Hq. rewrite (ab_all_split ab s Hp), Hq in Hnd. simpl in Hnd.
  apply NoDup_cons in Hnd as [Hn _]. split.
  - intros y Hy E. apply Hn. rewrite <- E. apply list_elem_of_fmap_2, elem_of_app. by left.
  - intros s' y Hp' Hne Hy E. apply Hn. rewrite <- E. apply list_elem_of_fmap_2, elem_of_app.
    right. by rewrite <- (not_opposite s s') by (done || by apply not_eq_sym).
Qed.

Lemma ab_update_head ab s x q f :
  proper_side s → NoDup (ord_key <$> ab_all ab) → ab_side ab s = x :: q →
  ab_map (update_order (ord_key x) f) ab = set_ab_side ab s (f x :: q).
Proof.
  intros Hp Hnd Hq. destruct (head_key_unique ab s x q Hp Hnd Hq) as [H1 H2].
  apply ab_eq. intros s' Hp'. rewrite ab_side_map, ab_side_set by done. case_decide as Es.
  - subst s'. rewrite Hq. unfold update_order. simpl. rewrite decide_True by done. f_equal.
    by apply update_order_id.
  - apply update_order_id. intros y. by apply H2, not_eq_sym.
Qed.

Lemma ab_remove_head ab s x q :
  proper_side s → NoDup (ord_key <$> ab_all ab) → ab_side ab s = x :: q →
  ab_map (remove_order (ord_key x)) ab = set_ab_side ab s q.
Proof.
  intros Hp Hnd Hq. destruct (head_key_unique ab s x q Hp Hnd Hq) as [H1 H2].
  apply ab_eq. intros s' Hp'. rewrite ab_side_map, ab_side_set by done. case_decide as Es.
  - subst s'. rewrite Hq. change (x :: q) with ([x] ++ q).
    rewrite remove_order_app, remove_order_hit. by apply remove_order_id.
  - apply remove_order_id. intros y. by apply H2, not_eq_sym.
Qed.

Lemma rep_length b ab : rep b ab → length (ab_all ab) < ME_MAX_ORDER_IDS.
Proof.
  intros (g & Hb & Hs & _ & Ho & _). rewrite <- (book_side_all b g ab Hs), length_fmap.
  rewrite <- (size_used (order_pool_ b) (orders_of (g_all g))).
  - rewrite <- Ho. apply used_bound, Hb.
  - pose proof (bo_orders_nodup _ _ _ Hb) as Hn. by rewrite app_nil_r in Hn.
  - intros i. rewrite (bo_orders _ _ _ Hb). by rewrite app_nil_r.
Qed.

Lemma num_levels_mono (q q' : list Ord) :
  (∀ p, p ∈ ord_price <$> q' → p ∈ ord_price <$> q) → (num_levels q' ≤ num_levels q)%nat.
Proof.
  intros Hp. apply submseteq_length, NoDup_submseteq; [apply NoDup_remove_dups|].
  intros p. rewrite !elem_of_remove_dups. apply Hp.
Qed.

(** Shrinking a side keeps the room. *)
Lemma has_room_shrink ab s q :
  proper_side s → (length q ≤ length (ab_side ab s))%nat →
  (∀ p, p ∈ ord_price <$> q → p ∈ ord_price <$> ab_side ab s) →
  has_room ab → has_room (set_ab_side ab s q).
Proof.
  intros Hp Hl Hpr%num_levels_mono. unfold has_room, ab_all.
  destruct Hp as [-> | ->]; unfold set_ab_side, ab_side in *; simpl in *; rewrite !length_app; lia.
Qed.

(** The best level: its ring holds the orders at the best price. *)
Lemma rep_best_level b ab s x q :
  rep b ab → proper_side s → ab_side ab s = x :: q →
  ∃ lp i os, side_head b s = Some lp ∧ first_order_ (level b lp) = Some i
    ∧ lvl_price_ (level b lp) = ord_price x
    ∧ cyc (λ i, ord_next (order b i)) (λ i, ord_prev (order b i)) (i :: os) ∧ NoDup (i :: os)
    ∧ (λ i, erase (order b i)) <$> i :: os = at_price (ord_price x) (x :: q)
    ∧ length (i :: os) < ME_MAX_ORDER_IDS.
Proof.
  intros Hr Hp Hq. pose proof (rep_length b ab Hr) as Hlen.
  destruct Hr as (g & Hb & Hs & _ & Ho & _). specialize (Hs s Hp).
  pose proof (bo_side _ _ _ Hb s Hp) as Hso. unfold book_side in Hs.
  destruct (g_side g s) as [|[lp os] ls] eqn:Eg; [by rewrite Hq in Hs|].
  pose proof (so_levels _ _ _ Hso) as [[_ Hf Hne Hring Hor] _]%Forall_cons. cbn [fst snd] in *.
  destruct os as [|i os]; [done|]. exists lp, i, os.
  pose proof (at_price_flat b s [] lp (i :: os) ls Hso) as Hat. cbn [app] in Hat.
  rewrite Hs, Hq in Hat.
  assert (lvl_price_ (level b lp) = ord_price x) as Ep.
  { rewrite Hq in Hs. unfold flat in Hs. rewrite orders_of_cons in Hs. cbn in Hs.
    injection Hs as <- _. rewrite price_erase. symmetry. apply Hor. set_solver. }
  rewrite Ep in Hat. split_and!; try done.
  - apply (so_head _ _ _ Hso).
  - pose proof (bo_orders_nodup _ _ _ Hb) as Hnd.
    rewrite (g_all_split g s Hp), Eg, !orders_of_app, orders_of_cons in Hnd.
    by apply NoDup_app in Hnd as [[[? _]%NoDup_app _]%NoDup_app _].
  - assert (length (i :: os) ≤ length (ab_all ab))%nat; [|lia].
    rewrite (Permutation_length (ab_all_split ab s Hp)), Hq, length_app.
    rewrite <- (length_fmap (λ i, erase (order b i)) (i :: os)), <- Hat.
    unfold at_price. pose proof (length_filter (λ y, ord_price y = ord_price x) (x :: q)). lia.
Qed.

(** Resting orders that share a price index share side and price. *)
Lemma rep_no_alias b ab s s' x y :
  rep b ab → proper_side s → proper_side s' → x ∈ ab_side ab s → y ∈ ab_side ab s' →
  priceToIndex (ord_price x) = priceToIndex (ord_price y) → s' = s ∧ ord_price x = ord_price y.
Proof.
  intros (g & Hb & Hs & _) Hp Hp' Hx Hy E.
  rewrite <- (Hs s Hp) in Hx. rewrite <- (Hs s' Hp') in Hy.
  destruct (flat_price b s _ x (so_levels _ _ _ (bo_side _ _ _ Hb s Hp)) Hx) as (gl & Hgl & Ex).
  destruct (flat_price b s' _ y (so_levels _ _ _ (bo_side _ _ _ Hb s' Hp')) Hy) as (gl' & Hgl' & Ey).
  assert (∀ t h, proper_side t → h ∈ g_side g t → h.1 ∈ (g_all g).*1 ∧ lvl_side_ (level b h.1) = t) as Hin.
  { intros t h Ht Hh. pose proof (so_levels _ _ _ (bo_side _ _ _ Hb t Ht)) as Hlv.
    rewrite Forall_forall in Hlv. split; [|by apply Hlv].
    apply list_elem_of_fmap_2. rewrite (g_all_split g t Ht). by apply elem_of_app; left. }
  destruct (Hin s gl Hp Hgl) as [H1 S1], (Hin s' gl' Hp' Hgl') as [H2 S2].
  assert (gl.1 = gl'.1) as El.
  { assert (price_orders_at_price_ b !! priceToIndex (ord_price x) = Some gl.1) as E1
      by (apply (bo_price_index _ _ _ Hb); by rewrite Ex).
    assert (price_orders_at_price_ b !! priceToIndex (ord_price x) = Some gl'.1) as E2
      by (apply (bo_price_index _ _ _ Hb); by rewrite E, Ey).
    congruence. }
  split; [|congruence]. by rewrite <- S2, <- El.
Qed.
End Refine.
