(* ===== verification/BookDump.v ===== *)
(** * The textual dump of the order books.

    [MEOrderBook::toString] (src/exchange/matcher/me_order_book.cpp) and
    [MarketOrderBook::toString] (src/trading/strategy/market_order_book.cpp)
    repeat one printer on their two order types; it is written here once, over
    the interface [DumpNode].  Called by the destructors with the validity check,
    which ends the process when the levels of a side are not sorted.  [snprintf]
    has room for 4095 characters, more than a line takes.

    [dump_ok]: on a pointer structure that stores an abstract book the check
    passes and the text is the abstract book, grouped by price ([group]) with
    the neighbours in the rings ([around]). *)

From Stdlib Require Import Ascii String.
From stdpp Require Import numbers gmap sorting strings pretty list.
From S2P Require Import Prelude CircList MemPool Types Logging LatencyHistogram BookCore BookSpec BookRep BookRefine.

Open Scope Z_scope.

(** ** Text *)

Fixpoint spaces (n : nat) : string := match n with O => EmptyString | S n => String " "%char (spaces n) end.

(** [%ns] and [%-ns]. *)
Definition pad_left (n : nat) (s : string) : string := spaces (n - String.length s) +:+ s.
Definition pad_right (n : nat) (s : string) : string := s +:+ spaces (n - String.length s).

Definition level_line (price prv nxt qty num : Z) : string :=
  concat_strings
    [" <px:"; pad_left 3 (priceToString price); " p:"; pad_left 3 (priceToString prv); " n:";
     pad_left 3 (priceToString nxt); "> "; pad_right 3 (priceToString price); " @ "; pad_right 5 (qtyToString qty);
     "("; pad_right 4 (pretty num); ")"].

Definition order_line (oid qty prv nxt : Z) : string :=
  concat_strings ["[oid:"; orderIdToString oid; " q:"; qtyToString qty; " p:"; orderIdToString prv; " n:";
                  orderIdToString nxt; "] "].

Definition separator : string := newline +:+ "                          X" +:+ newline +:+ newline.

(** What the printer reads of an order. *)
Class DumpNode (Ord : Type) := { dump_id : Ord → Z; dump_qty : Ord → Z }.

Class DumpNodeLaws (Ord K : Type) `{OrderNode Ord K} `{!DumpNode Ord} := {
  dump_id_erase (o : Ord) : dump_id (erase o) = dump_id o;
  dump_qty_erase (o : Ord) : dump_qty (erase o) = dump_qty o }.

(** ** The printer *)

Section Dump.
Context {Ord K : Type} `{Countable K} `{!OrderNode Ord K} `{!DumpNode Ord}.
Implicit Types (b : Book Ord K).

(** The orders [for (o = first;; o = o->next_order_)] visits until the next one is
    the first again. *)
Fixpoint ring_orders (fuel : nat) b (first o : Z) : result (list Z) :=
  match fuel with
  | O => Err OutOfFuel
  | S fuel =>
      if bool_decide (ord_next (order b o) = Some first) then Ok [o] else
      let* nxt := deref (ord_next (order b o)) in
      let* os := ring_orders fuel b first nxt in
      Ok (o :: os)
  end.

Definition link_id b (p : option Z) : Z := match p with Some i => dump_id (order b i) | None => OrderId_INVALID end.

Definition print_order b (o : Z) : string :=
  order_line (dump_id (order b o)) (dump_qty (order b o)) (link_id b (ord_prev (order b o)))
    (link_id b (ord_next (order b o))).

(** [printer] but its check. *)
Definition print_level (detailed : bool) b (itr : Z) : result string :=
  let l := level b itr in
  let* first := deref (first_order_ l) in
  let* os := ring_orders (Z.to_nat (store_size (order_pool_ b))) b first first in
  let* prv := deref (prev_entry_ l) in
  let* nxt := deref (next_entry_ l) in
  let qty := foldl (λ q o, u32 (q + dump_qty (order b o))) 0 os in
  Ok (level_line (lvl_price_ l) (lvl_price_ (level b prv)) (lvl_price_ (level b nxt)) qty (Z.of_nat (length os))
      +:+ (if detailed then concat_strings (print_order b <$> os) else EmptyString) +:+ newline).

Definition unsorted (side : Side) (last_price price : Z) : bool :=
  (is_sell side && (price <=? last_price)) || (is_buy side && (last_price <=? price)).

(** The loop over the levels of a side. *)
Fixpoint print_side (fuel : nat) (detailed check : bool) (side : Side) b (itr : option Z) (count last_price : Z)
    : result string :=
  match itr with
  | None => Ok EmptyString
  | Some i =>
      match fuel with
      | O => Err OutOfFuel
      | S fuel =>
          let next := if bool_decide (next_entry_ (level b i) = side_head b side) then None
                      else next_entry_ (level b i) in
          let* text := print_level detailed b i in
          let price := lvl_price_ (level b i) in
          let* last_price := (if check then if unsorted side last_price price then FATAL else Ok price
                              else Ok last_price) in
          let* rest := print_side fuel detailed check side b next (count + 1) last_price in
          Ok ((if is_buy side then "BIDS L:" else "ASKS L:") +:+ pretty count +:+ " => " +:+ text +:+ rest)
      end
  end.

Definition dump (ticker_id : Z) (detailed check : bool) b : result string :=
  let fuel := Z.to_nat (store_size (orders_at_price_pool_ b)) in
  let* asks := print_side fuel detailed check SELL b (asks_by_price_ b) 0 (- 2 ^ 63) in
  let* bids := print_side fuel detailed check BUY b (bids_by_price_ b) 0 (2 ^ 63 - 1) in
  Ok ("Ticker:" +:+ tickerIdToString ticker_id +:+ newline +:+ asks +:+ separator +:+ bids).
End Dump.

(** ** The text of an abstract book *)

(** The elements of a ring with their neighbours. *)
Fixpoint around_from {A} (l1 l2 : list A) : list (A * A * A) :=
  match l2 with
  | [] => []
  | x :: l2' => (default x (last (l2' ++ l1)), x, default x (head (l2' ++ l1))) :: around_from (l1 ++ [x]) l2'
  end.
Definition around {A} (l : list A) : list (A * A * A) := around_from [] l.

Lemma around_from_fmap {A B} (f : A → B) l1 l2 :
  around_from (f <$> l1) (f <$> l2) = (λ '(p, x, n), (f p, f x, f n)) <$> around_from l1 l2.
Proof.
  assert (∀ l : list A, head (f <$> l) = f <$> head l) as Hh by by intros [].
  revert l1. induction l2 as [|x l2 IH]; intros l1; [done|]. cbn [fmap list_fmap around_from]. f_equal.
  - change (list_fmap A B f l2) with (f <$> l2). rewrite <- fmap_app, fmap_last, Hh. destruct (last (l2 ++ l1)), (head (l2 ++ l1)); done.
  - rewrite <- (IH (l1 ++ [x])), fmap_app. done.
Qed.

Lemma around_fmap {A B} (f : A → B) l : around (f <$> l) = (λ '(p, x, n), (f p, f x, f n)) <$> around l.
Proof. exact (around_from_fmap f [] l). Qed.

Section Spec.
Context {Ord K : Type} `{OrderNode Ord K} `{!DumpNode Ord}.

(** The orders of each price, in order. *)
Fixpoint group (q : list Ord) : list (list Ord) :=
  match q with
  | [] => []
  | x :: q =>
      match group q with
      | (y :: g) :: gs => if decide (ord_price x = ord_price y) then (x :: y :: g) :: gs else [x] :: (y :: g) :: gs
      | gs => [x] :: gs
      end
  end.

Definition group_price (g : list Ord) : Z := match g with x :: _ => ord_price x | [] => Price_INVALID end.

Definition spec_order '((p, x, n) : Ord * Ord * Ord) : string :=
  order_line (dump_id x) (dump_qty x) (dump_id p) (dump_id n).

Definition spec_level (detailed : bool) '((p, g, n) : list Ord * list Ord * list Ord) : string :=
  level_line (group_price g) (group_price p) (group_price n) (foldl (λ q x, u32 (q + dump_qty x)) 0 g)
    (Z.of_nat (length g))
  +:+ (if detailed then concat_strings (spec_order <$> around g) else EmptyString) +:+ newline.

Fixpoint spec_levels (detailed : bool) (side : Side) (count : Z) (l : list (list Ord * list Ord * list Ord)) : string :=
  match l with
  | [] => EmptyString
  | c :: l => (if is_buy side then "BIDS L:" else "ASKS L:") +:+ pretty count +:+ " => " +:+ spec_level detailed c
              +:+ spec_levels detailed side (count + 1) l
  end.

Definition spec_dump (ticker_id : Z) (detailed : bool) (ab : absbook Ord) : string :=
  "Ticker:" +:+ tickerIdToString ticker_id +:+ newline
  +:+ spec_levels detailed SELL 0 (around (group (ab_side ab SELL)))
  +:+ separator +:+ spec_levels detailed BUY 0 (around (group (ab_side ab BUY))).

Lemma group_level g q (p : Z) :
  g ≠ [] → (∀ x, x ∈ g → ord_price x = p) → (∀ y, head q = Some y → ord_price y ≠ p) → group (g ++ q) = g :: group q.
Proof.
  intros Hne Hg Hq. induction g as [|x g IH]; [done|]. destruct g as [|y g].
  - simpl. destruct q as [|z q]; [done|]. specialize (Hq z eq_refl). specialize (Hg x ltac:(left)).
    destruct (group (z :: q)) as [|[|z' g'] gs] eqn:E; try done. rewrite decide_False; [done|].
    assert (z' = z) as ->; [|congruence]. simpl in E. destruct (group q) as [|[|w h] hs]; try congruence. case_decide; congruence.
  - change (group ((x :: y :: g) ++ q)) with (match group ((y :: g) ++ q) with
      | (z :: h) :: gs => if decide (ord_price x = ord_price z) then (x :: z :: h) :: gs else [x] :: (z :: h) :: gs
      | gs => [x] :: gs end).
    rewrite IH; [|done|intros z Hz; apply Hg; by right]. rewrite decide_True; [done|].
    rewrite (Hg x), (Hg y); [done|by right; left|left].
Qed.
End Spec.

(** ** The printer prints the abstract book *)

Lemma NoDup_part {A} (l k : list A) : l ⊆+ k → NoDup k → NoDup l.
Proof. intros [k' ->]%submseteq_Permutation Hk. by apply NoDup_app in Hk as [? _]. Qed.

Section Correct.
Context {Ord K : Type} `{Countable K} `{!OrderNode Ord K} `{!OrderNodeLaws Ord K} `{!DumpNode Ord} `{!DumpNodeLaws Ord K}.
Implicit Types (b : Book Ord K).

Lemma ring_orders_ok fuel b first rest m o r :
  cyc (λ i, ord_next (order b i)) (λ i, ord_prev (order b i)) (first :: rest) → NoDup (first :: rest) →
  first :: rest = m ++ o :: r → (length r < fuel)%nat → ring_orders fuel b first o = Ok (o :: r).
Proof.
  intros Hc Hnd. revert m o fuel. induction r as [|y r IH]; intros m o fuel Hm Hf; (destruct fuel as [|fuel]; [simpl in Hf; lia|]);
    cbn [ring_orders]; rewrite Hm in Hc; pose proof (cyc_next _ _ m o _ Hc) as E; cbv beta in E; rewrite E.
  - assert (default o (head ([] ++ m)) = first) as -> by (destruct m; by injection Hm).
    by rewrite bool_decide_true.
  - change (default o (head ((y :: r) ++ m))) with y. rewrite bool_decide_false.
    + cbn [deref rbind]. rewrite <- Hm in Hc. rewrite (IH (m ++ [o]) y fuel); [done| |simpl in Hf; lia].
      rewrite Hm, <- (assoc_L (++)). done.
    + intros [= ->]. rewrite Hm in Hnd. destruct m as [|z m].
      * injection Hm as -> _. apply NoDup_cons in Hnd as [Hn _]. apply Hn. left.
      * injection Hm as -> _. apply NoDup_cons in Hnd as [Hn _]. apply Hn. apply elem_of_app. right. right. left.
Qed.

(** The orders of a level with the neighbours the links name. *)
Lemma print_orders_ok b m r :
  cyc (λ i, ord_next (order b i)) (λ i, ord_prev (order b i)) (m ++ r) →
  print_order b <$> r = spec_order <$> around_from ((λ i, erase (order b i)) <$> m) ((λ i, erase (order b i)) <$> r).
Proof.
  rewrite around_from_fmap. revert m. induction r as [|o r IH]; intros m Hc; [done|]. cbn [fmap list_fmap around_from]. f_equal.
  - unfold print_order, spec_order. pose proof (cyc_next _ _ m o r Hc) as E1. pose proof (cyc_prev _ _ m o r Hc) as E2.
    cbv beta in E1, E2. rewrite E1, E2. unfold link_id. by rewrite !dump_id_erase, dump_qty_erase.
  - apply (IH (m ++ [o])). by rewrite <- (assoc_L (++)).
Qed.

Lemma foldl_dump_qty b os q :
  foldl (λ q o, u32 (q + dump_qty (order b o))) q os
  = foldl (λ q x, u32 (q + dump_qty x)) q ((λ i, erase (order b i)) <$> os).
Proof. revert q. induction os as [|o os IH]; intros q; [done|]. cbn. by rewrite IH, dump_qty_erase. Qed.

Definition level_orders b (gl : Z * list Z) : list Ord := (λ i, erase (order b i)) <$> gl.2.

Lemma group_price_level b s gl : level_ok b s gl → group_price (level_orders b gl) = lvl_price_ (level b gl.1).
Proof.
  intros [_ _ Hne _ Ho]. unfold level_orders. destruct gl as [lp [|o os]]; [done|]. simpl.
  rewrite (price_erase (order b o)). apply Ho. left.
Qed.

Lemma print_level_ok b s detailed m gl r :
  Forall (level_ok b s) (m ++ gl :: r) → cyc (λ i, next_entry_ (level b i)) (λ i, prev_entry_ (level b i)) (m ++ gl :: r).*1 → NoDup gl.2 →
  Z.of_nat (length gl.2) ≤ store_size (order_pool_ b) →
  print_level detailed b gl.1
  = Ok (spec_level detailed (level_orders b (default gl (last (r ++ m))), level_orders b gl,
                             level_orders b (default gl (head (r ++ m))))).
Proof.
  intros Hlv Hc Hnd Hlen. rewrite fmap_app, fmap_cons in Hc.
  pose proof (proj1 (Forall_forall _ _) Hlv) as Hall. assert (level_ok b s gl) as Hgl by (apply Hall; set_solver).
  pose proof (cyc_next _ _ _ _ _ Hc) as E1. pose proof (cyc_prev _ _ _ _ _ Hc) as E2. cbv beta in E1, E2.
  rewrite <- fmap_app in E1, E2. rewrite fmap_last in E2.
  assert (next_entry_ (level b gl.1) = Some (default gl (head (r ++ m))).1) as E1' by (rewrite E1; by destruct (r ++ m)).
  assert (prev_entry_ (level b gl.1) = Some (default gl (last (r ++ m))).1) as E2' by (rewrite E2; by destruct (last (r ++ m))).
  assert (∀ x, x ∈ r ++ m → level_ok b s x) as Hin by (intros x Hx; apply Hall; set_solver).
  assert (level_ok b s (default gl (head (r ++ m)))) as Hn by (destruct (r ++ m); [done|apply Hin; left]).
  assert (level_ok b s (default gl (last (r ++ m)))) as Hp.
  { destruct (last (r ++ m)) eqn:El; [|done]. apply Hin. apply last_Some in El as [l' ->]. apply elem_of_app. right. left. }
  unfold print_level. cbv zeta. pose proof Hgl as [_ Hf Hne Hring _]. rewrite Hf.
  destruct (gl.2) as [|o os] eqn:Eos; [done|]. cbn [head deref rbind].
  rewrite (ring_orders_ok _ b o os [] o os Hring Hnd eq_refl) by (simpl in Hlen; lia). cbn [rbind].
  rewrite E2', E1'. cbn [deref rbind]. unfold spec_level.
  rewrite !(group_price_level b s) by done. rewrite foldl_dump_qty.
  assert (level_orders b gl = (λ i, erase (order b i)) <$> o :: os) as El by (unfold level_orders; by rewrite Eos).
  rewrite <- El at 1. do 3 f_equal.
  - unfold level_orders. by rewrite length_fmap, Eos.
  - destruct detailed; [|done]. rewrite El. rewrite (print_orders_ok b [] (o :: os)) by done. done.
Qed.

Lemma unsorted_better s last price : proper_side s → unsorted s last price = negb (better s last price).
Proof.
  unfold unsorted, better. intros [-> | ->]; simpl; rewrite ?orb_false_r; apply Z.leb_antisym.
Qed.

Lemma print_side_ok b s detailed check ls m r fuel count lastp :
  proper_side s → side_ok b s ls → NoDup ls.*1 →
  Forall (λ gl : Z * list Z, NoDup gl.2 ∧ Z.of_nat (length gl.2) ≤ store_size (order_pool_ b)) ls →
  ls = m ++ r → (length r ≤ fuel)%nat →
  (∀ gl, gl ∈ r → check = true → better s lastp (lvl_price_ (level b gl.1)) = true) →
  print_side fuel detailed check s b (head r.*1) count lastp
  = Ok (spec_levels detailed s count (around_from (level_orders b <$> m) (level_orders b <$> r))).
Proof.
  intros Hs Hside Hnd Hlv. revert m fuel count lastp. induction r as [|gl r IH]; intros m fuel count lastp Hm Hf Hlast.
  { by destruct fuel. }
  destruct fuel as [|fuel]; [simpl in Hf; lia|]. cbn [fmap list_fmap head print_side].
  pose proof Hside as [Hh Hring Hsort Hok]. rewrite Hh, Hm in *.
  rewrite Forall_app, Forall_cons in Hlv. destruct Hlv as (_ & [Hn Hl] & _).
  rewrite (print_level_ok b s detailed m gl r Hok Hring Hn Hl). cbn [rbind].
  pose proof Hring as Hc. rewrite fmap_app, fmap_cons in Hc. pose proof (cyc_next _ _ _ _ _ Hc) as E. cbv beta in E. rewrite E.
  assert ((if bool_decide (Some (default gl.1 (head (r.*1 ++ m.*1))) = head (m ++ gl :: r).*1) then None
           else Some (default gl.1 (head (r.*1 ++ m.*1)))) = head r.*1) as ->.
  { destruct r as [|gl' r].
    - rewrite bool_decide_true; [done|]. by destruct m.
    - cbn [fmap list_fmap app head]. rewrite bool_decide_false; [done|]. intros Heq.
      rewrite fmap_app, !fmap_cons in Hnd. destruct m as [|g0 m]; injection Heq as Heq; simpl in Hnd; apply NoDup_cons in Hnd as [Hx _];
        apply Hx; rewrite <- Heq; set_solver. }
  assert (better s lastp (lvl_price_ (level b gl.1)) = true ∨ check = false) as Hb
    by (destruct check; [left; apply Hlast; [left|done]|by right]).
  assert ((if check then if unsorted s lastp (lvl_price_ (level b gl.1)) then FATAL else Ok (lvl_price_ (level b gl.1)) else Ok lastp)
    = Ok (if check then lvl_price_ (level b gl.1) else lastp)) as ->.
  { destruct check; [|done]. destruct Hb as [Hb|]; [|done]. by rewrite unsorted_better, Hb. }
  cbn [rbind]. rewrite <- Hm in *. rewrite (IH (m ++ [gl]) fuel).
  - cbn [rbind around_from spec_levels]. do 5 f_equal; [|by rewrite fmap_app].
    rewrite <- fmap_app, fmap_last. do 3 f_equal; [by destruct (last (r ++ m)) eqn:El|].
    by destruct (r ++ m).
  - rewrite Hm, <- (assoc_L (++)). done.
  - simpl in Hf. lia.
  - intros gl' Hgl' ->. rewrite Hm, fmap_app, fmap_cons in Hsort. apply StronglySorted_app_1_r in Hsort.
    apply StronglySorted_inv in Hsort as [_ Hall]. rewrite Forall_fmap, Forall_forall in Hall. exact (Hall gl' Hgl').
Qed.

(** The levels of a side are the price groups of its orders. *)
Lemma group_flat b s ls :
  proper_side s → Forall (level_ok b s) ls →
  StronglySorted (λ i j, better s (lvl_price_ (level b i)) (lvl_price_ (level b j)) = true) ls.*1 →
  group (flat b ls) = level_orders b <$> ls.
Proof.
  intros Hs Hlv Hsort. induction ls as [|gl ls IH]; [done|]. apply Forall_cons in Hlv as [Hgl Hlv].
  rewrite fmap_cons in Hsort. apply StronglySorted_inv in Hsort as [Hsort Hall].
  change (flat b (gl :: ls)) with (flat b ([gl] ++ ls)). rewrite flat_app.
  assert (flat b [gl] = level_orders b gl) as -> by (unfold flat, level_orders, orders_of; simpl; by rewrite app_nil_r).
  rewrite (group_level _ _ (lvl_price_ (level b gl.1))); [by rewrite IH|..].
  - intros E%fmap_nil_inv. by destruct Hgl.
  - intros x (i & -> & Hi)%list_elem_of_fmap. rewrite price_erase. by apply Hgl.
  - intros y Hy Ep. assert (y ∈ flat b ls) as Hin by (destruct (flat b ls); [done|injection Hy as ->; left]).
    destruct (flat_price b s ls y Hlv Hin) as (gl' & Hgl' & E'). rewrite Forall_fmap, Forall_forall in Hall.
    specialize (Hall gl' Hgl'). cbv beta in Hall. unfold compose in Hall. rewrite <- E', Ep in Hall.
    unfold better in Hall. destruct (is_buy s); apply Z.ltb_lt in Hall; lia.
Qed.

(** Prices the check tells from its start values. *)
Definition printable_price (x : Ord) : Prop := - 2 ^ 63 < ord_price x < 2 ^ 63 - 1.

Lemma dump_side_ok b g ab s detailed check :
  proper_side s → book_ok b g [] → book_side b g s = ab_side ab s → (check = true → Forall printable_price (ab_side ab s)) →
  print_side (Z.to_nat (store_size (orders_at_price_pool_ b))) detailed check s b (side_head b s) 0
    (if is_buy s then 2 ^ 63 - 1 else - 2 ^ 63)
  = Ok (spec_levels detailed s 0 (around (group (ab_side ab s)))).
Proof.
  intros Hs Hb Hab Hpr. pose proof (bo_side _ _ _ Hb s Hs) as Hside. pose proof Hside as [Hh _ Hsort Hlv].
  assert ((g_side g s).*1 ⊆+ (g_all g).*1 ∧ orders_of (g_side g s) ⊆+ orders_of (g_all g)) as [Hsub1 Hsub2].
  { rewrite (g_all_split g s Hs), fmap_app, orders_of_app. split; apply submseteq_inserts_r; done. }
  pose proof (bo_levels_nodup _ _ _ Hb) as Hnd. pose proof (bo_orders_nodup _ _ _ Hb) as Hno. rewrite app_nil_r in Hno.
  assert (Z.of_nat (length (g_all g).*1) < store_size (orders_at_price_pool_ b)) as Hl1.
  { rewrite <- (size_used (orders_at_price_pool_ b) (g_all g).*1 Hnd (bo_levels _ _ _ Hb)). apply used_bound, Hb. }
  assert (Z.of_nat (length (orders_of (g_all g))) < store_size (order_pool_ b)) as Hl2.
  { rewrite <- (size_used (order_pool_ b) (orders_of (g_all g)) Hno); [apply used_bound, Hb|].
    intros i. rewrite (bo_orders _ _ _ Hb). by rewrite app_nil_r. }
  apply submseteq_length in Hsub1 as Hle1. rewrite Hh.
  rewrite (print_side_ok b s detailed check (g_side g s) [] (g_side g s)); try done.
  - rewrite <- Hab. unfold book_side, around. rewrite (group_flat b s) by done. done.
  - by eapply NoDup_part.
  - apply Forall_forall. intros gl Hgl. apply list_elem_of_split in Hgl as (l1 & l2 & E).
    rewrite E, orders_of_app, orders_of_cons in Hsub2.
    assert (gl.2 ⊆+ orders_of (g_all g)) as Hsub.
    { etrans; [|exact Hsub2]. apply submseteq_inserts_l, submseteq_inserts_r. done. }
    split; [by eapply NoDup_part|]. apply submseteq_length in Hsub. lia.
  - rewrite length_fmap in Hle1. lia.
  - intros gl Hgl Hc. specialize (Hpr Hc). rewrite <- Hab, Forall_forall in Hpr.
    rewrite Forall_forall in Hlv. pose proof (Hlv gl Hgl) as Hlo. pose proof Hlo as [_ _ Hne _ _].
    rewrite <- (group_price_level b s gl Hlo). unfold level_orders. destruct (gl.2) as [|o os] eqn:Eo; [done|]. cbn [fmap list_fmap group_price].
    assert (printable_price (erase (order b o))) as Hp.
    { apply Hpr. unfold book_side, flat. apply list_elem_of_fmap. exists o. split; [done|].
      apply list_elem_of_split in Hgl as (l1 & l2 & ->). rewrite orders_of_app, orders_of_cons, Eo. set_solver. }
    unfold printable_price in Hp. unfold better. destruct (is_buy s); apply Z.ltb_lt; lia.
Qed.

Lemma dump_ok b ab ticker_id detailed check :
  rep b ab → (check = true → Forall printable_price (ab_all ab)) →
  dump ticker_id detailed check b = Ok (spec_dump ticker_id detailed ab).
Proof.
  intros (g & Hb & Hs & _) Hpr. unfold dump. cbv zeta.
  assert (∀ s, proper_side s → check = true → Forall printable_price (ab_side ab s)) as Hp.
  { intros s Hside Hc. specialize (Hpr Hc). unfold ab_all in Hpr. apply Forall_app in Hpr as [? ?]. by destruct Hside as [-> | ->]. }
  pose proof (dump_side_ok b g ab SELL detailed check (or_intror eq_refl) Hb (Hs SELL (or_intror eq_refl)) (Hp SELL (or_intror eq_refl))) as H1.
  pose proof (dump_side_ok b g ab BUY detailed check (or_introl eq_refl) Hb (Hs BUY (or_introl eq_refl)) (Hp BUY (or_introl eq_refl))) as H2.
  change (side_head b SELL) with (asks_by_price_ b) in H1. change (side_head b BUY) with (bids_by_price_ b) in H2.
  change (if is_buy SELL then 2 ^ 63 - 1 else - 2 ^ 63) with (- 2 ^ 63) in H1.
  change (if is_buy BUY then 2 ^ 63 - 1 else - 2 ^ 63) with (2 ^ 63 - 1) in H2.
  rewrite H1. cbn [rbind]. rewrite H2. done.
Qed.
End Correct.
