(* ===== verification/MarketOrderBook.v ===== *)
(** * The client's view of the order book.

    [Trading::MarketOrder], [Trading::BBO] (src/trading/strategy/market_order.h)
    and [Trading::MarketOrderBook] (market_order_book.{h,cpp}): the pointer
    structure of BookCore.v at the order type [MarketOrder], driven by
    [onMarketUpdate], with the best-bid-offer summary.  The theorems: each
    incremental update acts on the abstract book as its name says, and the BBO
    is the top of that book after every update ([onMarketUpdate_ok]).
    MarketBookClear.v follows CLEAR, which leaves the price index behind. *)

From stdpp Require Import gmap strings sorting list.
From S2P Require Import Prelude CircList MemPool Types Logging LatencyHistogram BookCore BookSpec BookRep BookRemove BookRefine BookDump.

Open Scope Z_scope.
Local Coercion Z.of_nat : nat >-> Z.

Record MarketOrder := mkMarketOrder {
  mo_order_id_ : Z;
  mo_side_ : Side;
  mo_price_ : Z;
  mo_qty_ : Z;
  mo_priority_ : Z;
  mo_prev_order_ : option Z;
  mo_next_order_ : option Z }.

#[export] Instance MarketOrder_eq_dec : EqDecision MarketOrder.
Proof. solve_decision. Defined.

#[export] Instance MarketOrder_default : DefaultCtor MarketOrder :=
  mkMarketOrder OrderId_INVALID Side_INVALID Price_INVALID Qty_INVALID Priority_INVALID None None.

Definition set_mo_prev (v : option Z) (o : MarketOrder) : MarketOrder :=
  mkMarketOrder (mo_order_id_ o) (mo_side_ o) (mo_price_ o) (mo_qty_ o) (mo_priority_ o) v
    (mo_next_order_ o).
Definition set_mo_next (v : option Z) (o : MarketOrder) : MarketOrder :=
  mkMarketOrder (mo_order_id_ o) (mo_side_ o) (mo_price_ o) (mo_qty_ o) (mo_priority_ o)
    (mo_prev_order_ o) v.
Definition set_mo_qty (q : Z) (o : MarketOrder) : MarketOrder :=
  mkMarketOrder (mo_order_id_ o) (mo_side_ o) (mo_price_ o) q (mo_priority_ o)
    (mo_prev_order_ o) (mo_next_order_ o).

(** [oid_to_order_] is an array of [ME_MAX_ORDER_IDS] pointers. *)
Definition oid_in_range (oid : Z) : bool := (0 <=? oid) && (oid <? ME_MAX_ORDER_IDS).

#[export] Instance MarketOrder_node : OrderNode MarketOrder Z := {
  ord_side := mo_side_;
  ord_price := mo_price_;
  ord_key := mo_order_id_;
  key_in_range := oid_in_range;
  ord_prev := mo_prev_order_;
  ord_next := mo_next_order_;
  set_prev := set_mo_prev;
  set_next := set_mo_next }.

#[export] Instance MarketOrder_laws : OrderNodeLaws MarketOrder Z.
Proof. split; by intros ? []. Qed.

Record BBO := mkBBO { bid_price_ : Z; ask_price_ : Z; bid_qty_ : Z; ask_qty_ : Z }.

#[export] Instance BBO_eq_dec : EqDecision BBO.
Proof. solve_decision. Defined.

Definition BBO_default : BBO := mkBBO Price_INVALID Price_INVALID Qty_INVALID Qty_INVALID.

Record MarketOrderBook := mkMarketOrderBook {
  mkt_ticker_id_ : Z;
  mkt_book : Book MarketOrder Z;
  bbo_ : BBO }.

(** The constructor, in memory [mem]. *)
Definition MarketOrderBook_new (mem : IndexMemory Z) (ticker_id : Z) : MarketOrderBook :=
  mkMarketOrderBook ticker_id (Book_new mem) BBO_default.

(** The books of all tickers, as a trade engine creates them; [mem] is the memory
    of each. *)
Definition market_books (mem : Z → IndexMemory Z) : list MarketOrderBook :=
  (λ t, MarketOrderBook_new (mem t) t) <$> seqZ 0 ME_MAX_TICKERS.

(** What the book tells the trade engine. *)
Inductive book_notice :=
| OnTradeUpdate (u : MEMarketUpdate)
| OnOrderBookUpdate (ticker_id price : Z) (side : Side).

(** ** The list surgery of market_order_book.h

    The class repeats the operations of the exchange's book on its own order type;
    the shared definitions of BookCore.v are instantiated here. *)

Definition mkt_getOrdersAtPrice (b : Book MarketOrder Z) (price : Z) : option Z := getOrdersAtPrice b price.

Definition mkt_addOrdersAtPrice (new : Z) (b : Book MarketOrder Z) : result (Book MarketOrder Z) :=
  addOrdersAtPrice new b.

Definition mkt_removeOrdersAtPrice (side : Side) (price : Z) (b : Book MarketOrder Z)
    : result (Book MarketOrder Z) := removeOrdersAtPrice side price b.

Definition mkt_removeOrder (o : Z) (b : Book MarketOrder Z) : result (Book MarketOrder Z) := removeOrder o b.

Definition mkt_addOrder (o : Z) (b : Book MarketOrder Z) : result (Book MarketOrder Z) := addOrder o b.

(** ** [updateBBO] *)

(** [for (order = first->next_order_; order != first; order = order->next_order_)]. *)
Fixpoint sum_level (fuel : nat) (b : Book MarketOrder Z) (first o qty : Z) : result Z :=
  if o =? first then Ok qty else
  match fuel with
  | O => Err OutOfFuel
  | S fuel =>
      let qty := u32 (qty + mo_qty_ (order b o)) in
      let* o := deref (mo_next_order_ (order b o)) in
      sum_level fuel b first o qty
  end.

(** Price and total quantity of the best level of a side. *)
Definition best_of (b : Book MarketOrder Z) (side : Side) : result (Z * Z) :=
  match side_head b side with
  | None => Ok (Price_INVALID, Qty_INVALID)
  | Some lp =>
      let* first := deref (first_order_ (level b lp)) in
      let* next := deref (mo_next_order_ (order b first)) in
      let* qty := sum_level (Z.to_nat (store_size (order_pool_ b))) b first next
                    (mo_qty_ (order b first)) in
      Ok (lvl_price_ (level b lp), qty)
  end.

Definition updateBBO (update_bid update_ask : bool) (b : Book MarketOrder Z) (bbo : BBO) : result BBO :=
  let* bbo := (if update_bid then
                 let* (p, q) := best_of b BUY in Ok (mkBBO p (ask_price_ bbo) q (ask_qty_ bbo))
               else Ok bbo) in
  if update_ask then
    let* (p, q) := best_of b SELL in Ok (mkBBO (bid_price_ bbo) p (bid_qty_ bbo) q)
  else Ok bbo.

(** ** [onMarketUpdate] *)

Definition mkt_order (u : MEMarketUpdate) : MarketOrder :=
  mkMarketOrder (mu_order_id_ u) (mu_side_ u) (mu_price_ u) (mu_qty_ u) (mu_priority_ u) None None.

(** [oid_to_order_.at(order_id)], then used as a pointer. *)
Definition find_mkt_order (b : Book MarketOrder Z) (oid : Z) : result Z :=
  if negb (oid_in_range oid) then Err OutOfRange else deref (order_index_ b !! oid).

(** [for (auto &order : oid_to_order_) if (order) order_pool_.deallocate(order);]
    The order of the deallocations does not show in the pool. *)
Fixpoint deallocate_orders (os : list Z) (p : MemPool MarketOrder) : result (MemPool MarketOrder) :=
  match os with
  | [] => Ok p
  | o :: os => let* p := deallocate o p in deallocate_orders os p
  end.

(** [for (l = head->next_entry_; l != head; l = l->next_entry_) deallocate(l);]
    the link is read after the block is freed. *)
Fixpoint deallocate_ring (fuel : nat) (head l : Z) (p : MemPool OrdersAtPrice)
    : result (MemPool OrdersAtPrice) :=
  if l =? head then Ok p else
  match fuel with
  | O => Err OutOfFuel
  | S fuel =>
      let* p := deallocate l p in
      let* l := deref (next_entry_ (obj p l)) in
      deallocate_ring fuel head l p
  end.

Definition deallocate_side (head : option Z) (p : MemPool OrdersAtPrice)
    : result (MemPool OrdersAtPrice) :=
  match head with
  | None => Ok p
  | Some h =>
      let* l := deref (next_entry_ (obj p h)) in
      let* p := deallocate_ring (Z.to_nat (store_size p)) h l p in
      deallocate h p
  end.

(** The CLEAR branch: [price_orders_at_price_] is not touched. *)
Definition clear_book (b : Book MarketOrder Z) : result (Book MarketOrder Z) :=
  let* op := deallocate_orders (map_to_list (order_index_ b)).*2 (order_pool_ b) in
  let* lp := deallocate_side (bids_by_price_ b) (orders_at_price_pool_ b) in
  let* lp := deallocate_side (asks_by_price_ b) lp in
  Ok (mkBook lp op None None (price_orders_at_price_ b) ∅).

(** Could the update change the best level of its side? *)
Definition touches_best (u : MEMarketUpdate) (b : Book MarketOrder Z) (side : Side) : bool :=
  bool_decide (mu_side_ u = side) &&
  match side_head b side with
  | None => true
  | Some lp => if is_buy side then lvl_price_ (level b lp) <=? mu_price_ u
               else mu_price_ u <=? lvl_price_ (level b lp)
  end.

(** The switch of [onMarketUpdate] but its TRADE branch. *)
Definition apply_update (u : MEMarketUpdate) (b : Book MarketOrder Z) : result (Book MarketOrder Z) :=
  match mu_type_ u with
  | MU_ADD =>
      let* (o, p) := allocate (mkt_order u) (order_pool_ b) in
      mkt_addOrder o (set_order_pool p b)
  | MU_MODIFY =>
      let* o := find_mkt_order b (mu_order_id_ u) in
      Ok (with_order o (set_mo_qty (mu_qty_ u)) b)
  | MU_CANCEL =>
      let* o := find_mkt_order b (mu_order_id_ u) in
      mkt_removeOrder o b
  | MU_CLEAR => clear_book b
  | _ => Ok b
  end.

Definition onMarketUpdate (u : MEMarketUpdate) (mb : MarketOrderBook)
    : result (MarketOrderBook * book_notice) :=
  let b := mkt_book mb in
  let bid_updated := touches_best u b BUY in
  let ask_updated := touches_best u b SELL in
  if bool_decide (mu_type_ u = MU_TRADE) then Ok (mb, OnTradeUpdate u) else
  let* b := apply_update u b in
  let* bbo := updateBBO bid_updated ask_updated b (bbo_ mb) in
  Ok (mkMarketOrderBook (mkt_ticker_id_ mb) b bbo,
      OnOrderBookUpdate (mu_ticker_id_ u) (mu_price_ u) (mu_side_ u)).

(** ** [toString] *)

Definition BBO_toString (bbo : BBO) : string :=
  "BBO{" +:+ qtyToString (bid_qty_ bbo) +:+ "@" +:+ priceToString (bid_price_ bbo) +:+ "X"
  +:+ priceToString (ask_price_ bbo) +:+ "@" +:+ qtyToString (ask_qty_ bbo) +:+ "}".

#[export] Instance MarketOrder_dump : DumpNode MarketOrder := { dump_id := mo_order_id_; dump_qty := mo_qty_ }.

#[export] Instance MarketOrder_dump_laws : DumpNodeLaws MarketOrder Z.
Proof. split; by intros []. Qed.

Definition MarketOrderBook_toString (detailed validity_check : bool) (mb : MarketOrderBook) : result string :=
  let* text := dump (mkt_ticker_id_ mb) detailed validity_check (mkt_book mb) in
  Ok (text +:+ newline +:+ BBO_toString (bbo_ mb) +:+ newline).

(** ** The BBO is the top of the book *)

Definition mkt_qty_ok (x : MarketOrder) : Prop := 0 ≤ mo_qty_ x < 2 ^ 32.

Definition mkt_total (q : list MarketOrder) : Z := foldr (λ x acc, mo_qty_ x + acc) 0 q.

(** Best price and the (32-bit) total quantity there. *)
Definition spec_best (q : list MarketOrder) : Z * Z :=
  match q with
  | [] => (Price_INVALID, Qty_INVALID)
  | x :: _ => (mo_price_ x, u32 (mkt_total (at_price (mo_price_ x) q)))
  end.

Lemma sum_level_walk fuel b first rest m r acc :
  cyc (λ i, ord_next (order b i)) (λ i, ord_prev (order b i)) (first :: rest) →
  NoDup (first :: rest) → rest = m ++ r → (length r ≤ fuel)%nat →
  sum_level fuel b first (default first (head r)) acc =
  Ok (foldl (λ acc i, u32 (acc + mo_qty_ (order b i))) acc r).
Proof.
  intros Hc Hnd. revert m acc fuel. induction r as [|o r IH]; intros m acc fuel Hm Hf.
  - simpl. destruct fuel; simpl; by rewrite Z.eqb_refl.
  - destruct fuel as [|fuel]; [simpl in Hf; lia|]. simpl.
    assert (o ≠ first) as Hne.
    { intros ->. apply NoDup_cons in Hnd as [Hn _]. apply Hn. subst rest. set_solver. }
    rewrite (proj2 (Z.eqb_neq _ _)) by done.
    assert (mo_next_order_ (order b o) = Some (default first (head r))) as ->.
    { subst rest. pose proof (cyc_next _ _ (first :: m) o r Hc) as E. simpl in E. rewrite E.
      f_equal. by destruct r. }
    simpl. apply (IH (m ++ [o])); [|simpl in Hf; lia]. by rewrite <- (assoc_L (++)).
Qed.

Lemma foldl_u32 b acc r :
  0 ≤ acc < 2 ^ 32 →
  foldl (λ acc i, u32 (acc + mo_qty_ (order b i))) acc r
  = u32 (acc + mkt_total ((λ i, erase (order b i)) <$> r)).
Proof.
  revert acc. induction r as [|i r IH]; intros acc Ha; simpl.
  - rewrite Z.add_0_r. unfold wrap. by rewrite Z.mod_small.
  - rewrite IH by (unfold wrap; apply Z.mod_pos_bound; lia).
    unfold wrap. rewrite Zplus_mod_idemp_l. f_equal. rewrite <- Z.add_assoc. done.
Qed.

Lemma best_of_ok b ab s :
  rep b ab → proper_side s → Forall mkt_qty_ok (ab_all ab) →
  best_of b s = Ok (spec_best (ab_side ab s)).
Proof.
  intros Hr Hs Hq. unfold best_of. destruct (ab_side ab s) as [|x q] eqn:Eq.
  - pose proof (rep_best b ab s Hr Hs) as Hb. rewrite Eq in Hb. by rewrite Hb.
  - destruct (rep_best_level b ab s x q Hr Hs Eq) as (lp & i & os & -> & -> & Hp & Hc & Hnd & Hat & Hlen).
    cbn [rbind deref]. pose proof (cyc_next _ _ [] i os Hc) as E. cbv beta in E.
    cbn [ord_next MarketOrder_node] in E. rewrite E, app_nil_r. cbn [rbind deref].
    assert (store_size (order_pool_ b) = ME_MAX_ORDER_IDS) as -> by by destruct Hr as (_ & _ & _ & _ & ? & _).
    rewrite (sum_level_walk _ b i os [] os) by (done || simpl in Hlen; lia). cbn [rbind].
    assert (mkt_qty_ok (erase (order b i))) as Hqi.
    { rewrite Forall_forall in Hq. apply Hq, elem_of_ab_all. exists s. split; [done|]. rewrite Eq.
      assert (erase (order b i) ∈ at_price (ord_price x) (x :: q)) as Hin by (rewrite <- Hat; set_solver).
      by apply list_elem_of_filter in Hin as [_ ?]. }
    rewrite foldl_u32 by exact Hqi. rewrite Hp. simpl. cbn [ord_price MarketOrder_node] in Hat.
    by rewrite <- Hat.
Qed.

(** ** The abstract effect of an update *)

Definition spec_update (u : MEMarketUpdate) (ab : absbook MarketOrder) : absbook MarketOrder :=
  match mu_type_ u with
  | MU_ADD => set_ab_side ab (mu_side_ u) (insert_order (mu_side_ u) (mkt_order u) (ab_side ab (mu_side_ u)))
  | MU_MODIFY => ab_map (update_order (mu_order_id_ u) (set_mo_qty (mu_qty_ u))) ab
  | MU_CANCEL => ab_map (remove_order (mu_order_id_ u)) ab
  | _ => ab
  end.

(** The updates the exchange publishes: a fresh order id for ADD, the members of
    the resting order for MODIFY and CANCEL. *)
Definition valid_update (u : MEMarketUpdate) (ab : absbook MarketOrder) : Prop :=
  match mu_type_ u with
  | MU_ADD => proper_side (mu_side_ u) ∧ oid_in_range (mu_order_id_ u) = true
      ∧ (mu_order_id_ u ∉ (ord_key <$> ab_all ab : list Z)) ∧ 0 ≤ mu_qty_ u < 2 ^ 32
      ∧ no_collision (ab_side ab) (mu_side_ u) (mu_price_ u) ∧ has_room ab
  | MU_MODIFY => 0 ≤ mu_qty_ u < 2 ^ 32 ∧ ∃ x, x ∈ ab_side ab (mu_side_ u) ∧ proper_side (mu_side_ u)
      ∧ mo_order_id_ x = mu_order_id_ u ∧ mo_price_ x = mu_price_ u
  | MU_CANCEL => ∃ x, x ∈ ab_side ab (mu_side_ u) ∧ proper_side (mu_side_ u)
      ∧ mo_order_id_ x = mu_order_id_ u ∧ mo_price_ x = mu_price_ u
  | MU_TRADE => True
  | _ => False
  end.

Lemma set_mo_qty_data n : data_update (set_mo_qty n).
Proof. by split; intros []. Qed.

Lemma find_mkt_order_ok b ab oid x :
  rep b ab → x ∈ ab_all ab → mo_order_id_ x = oid →
  ∃ i, find_mkt_order b oid = Ok i ∧ order_index_ b !! oid = Some i.
Proof.
  intros Hr Hx <-. destruct (rep_lookup_Some b ab x Hr Hx) as (i & Hi & _). exists i.
  unfold find_mkt_order. cbn [ord_key MarketOrder_node] in Hi.
  pose proof (rep_key_range b ab x Hr Hx) as Hk. cbn [key_in_range ord_key MarketOrder_node] in Hk.
  by rewrite Hk, Hi.
Qed.

Lemma apply_update_ok u b ab :
  rep b ab → valid_update u ab →
  ∃ b', apply_update u b = Ok b' ∧ rep b' (spec_update u ab).
Proof.
  intros Hr Hv. unfold valid_update in Hv. unfold apply_update, spec_update, mkt_addOrder, mkt_removeOrder.
  destruct (mu_type_ u) eqn:Et; try done.
  - destruct Hv as (Hs & Hk & Hf & Hq & Hnc & Hroom).
    destruct (rep_add b ab (mkt_order u) (mu_side_ u)) as (o & p & b' & Eal & Ead & Hr'); try done.
    assert (allocate (mkt_order u) (order_pool_ b) = Ok (o, p)) as -> by exact Eal.
    exists b'. cbn [rbind]. by rewrite Ead.
  - destruct Hv as (Hq & x & Hx & Hs & Hid & Hp).
    destruct (find_mkt_order_ok b ab (mu_order_id_ u) x) as (i & -> & Hi); [done|..|done|].
    { apply elem_of_ab_all. eauto. }
    eexists. split; [done|]. by apply rep_update; [|apply set_mo_qty_data|].
  - destruct Hv as (x & Hx & Hs & Hid & Hp).
    destruct (find_mkt_order_ok b ab (mu_order_id_ u) x) as (i & -> & Hi); [done|..|done|].
    { apply elem_of_ab_all. eauto. }
    destruct (rep_remove b ab _ i Hr Hi) as (b' & E & Hr' & _). exists b'. by rewrite <- E.
  - by exists b.
Qed.

(** ** An update that does not touch the best level leaves the BBO valid *)

Lemma spec_best_ext (q q' : list MarketOrder) x :
  head q = Some x → head q' = Some x → at_price (mo_price_ x) q' = at_price (mo_price_ x) q →
  spec_best q' = spec_best q.
Proof.
  intros Hq Hq' Hat. destruct q as [|y q], q' as [|y' q']; try done. simpl in *. simplify_eq.
  by rewrite Hat.
Qed.

Lemma better_ne s p r : better s p r = true → r ≠ p.
Proof. intros Hb ->. by rewrite better_irrefl in Hb. Qed.

(** [x] is the best order and the update is behind it. *)
Section BehindBest.
Context (s : Side) (x : MarketOrder) (q : list MarketOrder).

Lemma insert_behind o :
  better s (mo_price_ x) (mo_price_ o) = true →
  spec_best (insert_order s o (x :: q)) = spec_best (x :: q).
Proof.
  intros Hb. simpl. rewrite better_asym by done.
  apply (spec_best_ext (x :: q) _ x); [done..|].
  unfold at_price. simpl. rewrite !filter_cons_True by done. f_equal.
  induction q as [|y r IH]; simpl.
  - rewrite filter_cons_False; [done|]. simpl. by eapply better_ne.
  - destruct (better s (mo_price_ o) (mo_price_ y)).
    + rewrite (filter_cons_False _ o); [done|]. simpl. by eapply better_ne.
    + rewrite !filter_cons. by case_decide; rewrite IH.
Qed.

Context (k : Z) (p : Z) (Hk : ∀ y, y ∈ x :: q → mo_order_id_ y = k → mo_price_ y = p)
  (Hb : better s (mo_price_ x) p = true).

Lemma update_behind n :
  spec_best (update_order k (set_mo_qty n) (x :: q)) = spec_best (x :: q).
Proof.
  assert (mo_order_id_ x ≠ k) as Hx.
  { intros E. apply Hk in E; [|set_solver]. by apply (better_ne _ _ _ Hb). }
  apply (spec_best_ext (x :: q) _ x); [done|simpl; by rewrite decide_False|].
  assert (∀ r, (∀ y, y ∈ r → mo_order_id_ y = k → mo_price_ y = p) →
     at_price (mo_price_ x) (update_order k (set_mo_qty n) r) = at_price (mo_price_ x) r) as Hr; [|by apply Hr].
  induction r as [|y r IH]; intros Hr; [done|].
  unfold update_order. rewrite fmap_cons. fold (update_order k (set_mo_qty n) r).
  unfold at_price in *. cbn [ord_key ord_price MarketOrder_node] in *.
  destruct (decide (mo_order_id_ y = k)) as [Ey|Ey].
  - rewrite !filter_cons_False; [by apply IH; set_solver|..]; simpl;
      rewrite (Hr y ltac:(set_solver) Ey); by apply (better_ne _ _ _ Hb).
  - rewrite !filter_cons. by case_decide; rewrite IH by set_solver.
Qed.

Lemma remove_behind : spec_best (remove_order k (x :: q)) = spec_best (x :: q).
Proof.
  assert (mo_order_id_ x ≠ k) as Hx.
  { intros E. apply Hk in E; [|set_solver]. by apply (better_ne _ _ _ Hb). }
  apply (spec_best_ext (x :: q) _ x); [done|..].
  - unfold remove_order. by rewrite filter_cons_True.
  - assert (∀ r, (∀ y, y ∈ r → mo_order_id_ y = k → mo_price_ y = p) →
      at_price (mo_price_ x) (remove_order k r) = at_price (mo_price_ x) r) as Hr; [|by apply Hr].
    induction r as [|y r IH]; intros Hr; [done|]. unfold remove_order, at_price in *.
    cbn [ord_key ord_price MarketOrder_node] in *. rewrite (filter_cons _ y).
    destruct (decide (mo_order_id_ y ≠ k)) as [Ey|Ey%dec_stable].
    + rewrite !filter_cons. by case_decide; rewrite IH by set_solver.
    + rewrite (filter_cons_False (λ z, mo_price_ z = mo_price_ x) y); [by apply IH; set_solver|].
      rewrite (Hr y ltac:(set_solver) Ey). by apply (better_ne _ _ _ Hb).
Qed.
End BehindBest.

Lemma touches_best_false u b ab s :
  rep b ab → proper_side s → touches_best u b s = false → mu_side_ u = s →
  ∃ x q, ab_side ab s = x :: q ∧ better s (mo_price_ x) (mu_price_ u) = true.
Proof.
  intros Hr Hs Ht Hu. unfold touches_best in Ht. rewrite Hu, bool_decide_eq_true_2 in Ht by done.
  destruct (ab_side ab s) as [|x q] eqn:Eq.
  { pose proof (rep_best b ab s Hr Hs) as Hb. rewrite Eq in Hb. by rewrite Hb in Ht. }
  destruct (rep_best_level b ab s x q Hr Hs Eq) as (lp & i & os & Hh & _ & Hp & _).
  rewrite Hh, Hp in Ht. exists x, q. split; [done|]. cbn [ord_price MarketOrder_node] in Ht.
  unfold better. destruct Hs as [-> | ->]; simpl in *; lia.
Qed.

(** An update of one side leaves the other side's list alone. *)
Lemma spec_update_other u b ab s :
  rep b ab → valid_update u ab → proper_side s → mu_side_ u ≠ s →
  ab_side (spec_update u ab) s = ab_side ab s.
Proof.
  intros Hr Hv Hs Hne. unfold valid_update in Hv. unfold spec_update.
  assert (∀ x, x ∈ ab_side ab (mu_side_ u) → proper_side (mu_side_ u) →
            ∀ y, y ∈ ab_side ab s → mo_order_id_ y ≠ mo_order_id_ x) as Hkey.
  { intros x Hx Hsu y Hy E. pose proof (rep_keys b ab Hr) as Hnd.
    rewrite (ab_all_split ab (mu_side_ u) Hsu), fmap_app in Hnd.
    apply NoDup_app in Hnd as (_ & Hd & _). apply (Hd (mo_order_id_ x)).
    - exact (list_elem_of_fmap_2 ord_key _ x Hx).
    - rewrite <- E. rewrite (not_opposite (mu_side_ u) s) in Hy by done.
      exact (list_elem_of_fmap_2 ord_key _ y Hy). }
  destruct (mu_type_ u) eqn:Et; try done.
  - destruct Hv as (Hsu & _). by rewrite ab_side_set, decide_False.
  - destruct Hv as (_ & x & Hx & Hsu & <- & _). rewrite ab_side_map. apply update_order_id.
    by apply Hkey.
  - destruct Hv as (x & Hx & Hsu & <- & _). rewrite ab_side_map. apply remove_order_id.
    by apply Hkey.
Qed.

Lemma spec_update_behind u b ab s :
  rep b ab → valid_update u ab → proper_side s → touches_best u b s = false →
  spec_best (ab_side (spec_update u ab) s) = spec_best (ab_side ab s).
Proof.
  intros Hr Hv Hs Ht. destruct (decide (mu_side_ u = s)) as [Hu|Hne].
  2: by rewrite (spec_update_other u b).
  destruct (touches_best_false u b ab s Hr Hs Ht Hu) as (x & q & Eq & Hb).
  assert (∀ z, z ∈ ab_side ab s → ∀ y, y ∈ x :: q → mo_order_id_ y = mo_order_id_ z → mo_price_ y = mo_price_ z) as Huniq.
  { intros z Hz y Hy E. pose proof (rep_keys b ab Hr) as Hnd.
    rewrite (ab_all_split ab s Hs), fmap_app in Hnd. apply NoDup_app in Hnd as (Hnd & _ & _).
    rewrite <- Eq in Hy. apply list_elem_of_lookup_1 in Hy as [i Hi], Hz as [j Hj].
    assert (i = j) as ->; [|congruence].
    apply (NoDup_lookup (ord_key <$> ab_side ab s) i j (mo_order_id_ z)); [done|..];
      rewrite list_lookup_fmap, ?Hi, ?Hj; simpl; congruence. }
  unfold valid_update in Hv. unfold spec_update. rewrite Hu in *. rewrite Eq in *.
  destruct (mu_type_ u) eqn:Et; try done; rewrite ?ab_side_set, ?decide_True by done;
    rewrite ?ab_side_map, ?Eq; try done.
  - by apply insert_behind.
  - destruct Hv as (_ & z & Hz & _ & <- & Hp). apply (update_behind s x q _ (mu_price_ u)); [|done].
    intros y Hy E. rewrite <- Hp. by apply Huniq.
  - destruct Hv as (z & Hz & _ & <- & Hp). apply (remove_behind s x q _ (mu_price_ u)); [|done].
    intros y Hy E. rewrite <- Hp. by apply Huniq.
Qed.

Definition bbo_ok (bbo : BBO) (ab : absbook MarketOrder) : Prop :=
  (bid_price_ bbo, bid_qty_ bbo) = spec_best (ab_side ab BUY)
  ∧ (ask_price_ bbo, ask_qty_ bbo) = spec_best (ab_side ab SELL).

Lemma updateBBO_ok b ab ubid uask bbo :
  rep b ab → Forall mkt_qty_ok (ab_all ab) →
  (ubid = false → (bid_price_ bbo, bid_qty_ bbo) = spec_best (ab_side ab BUY)) →
  (uask = false → (ask_price_ bbo, ask_qty_ bbo) = spec_best (ab_side ab SELL)) →
  ∃ bbo', updateBBO ubid uask b bbo = Ok bbo' ∧ bbo_ok bbo' ab.
Proof.
  intros Hr Hq Hb Ha. unfold updateBBO, bbo_ok.
  rewrite (best_of_ok b ab BUY), (best_of_ok b ab SELL) by first [done|by left|by right].
  destruct (spec_best (ab_side ab BUY)) as [bp bq], (spec_best (ab_side ab SELL)) as [ap aq].
  destruct ubid, uask; simpl; eexists; (split; [done|]); simpl; auto.
Qed.

Lemma spec_update_qty u ab :
  valid_update u ab → Forall mkt_qty_ok (ab_all ab) → Forall mkt_qty_ok (ab_all (spec_update u ab)).
Proof.
  intros Hv Hq. unfold valid_update in Hv. unfold spec_update. rewrite Forall_forall in Hq |- *.
  assert (∀ s y, proper_side s → y ∈ ab_side ab s → mkt_qty_ok y) as Hall.
  { intros s y Hs Hy. apply Hq, elem_of_ab_all. eauto. }
  intros y (s & Hs & Hy)%elem_of_ab_all.
  destruct (mu_type_ u) eqn:Et; try done; try by eauto.
  - destruct Hv as (Hsu & _ & _ & Hqu & _). rewrite ab_side_set in Hy by done.
    case_decide; [|by eauto]. rewrite insert_order_perm, elem_of_cons in Hy.
    destruct Hy as [->|Hy]; [done|by eauto].
  - destruct Hv as (Hqu & _). rewrite ab_side_map in Hy.
    apply list_elem_of_fmap in Hy as (z & -> & Hz). case_decide; [done|by eauto].
  - rewrite ab_side_map in Hy. apply list_elem_of_filter in Hy as [_ Hy]. by eauto.
Qed.

(** The invariant of the client's book. *)
Definition mkt_rep (mb : MarketOrderBook) (ab : absbook MarketOrder) : Prop :=
  rep (mkt_book mb) ab ∧ Forall mkt_qty_ok (ab_all ab) ∧ bbo_ok (bbo_ mb) ab.

Lemma mkt_rep_new ticker_id : mkt_rep (MarketOrderBook_new zeroed ticker_id) (mkAbs [] []).
Proof. split_and!; [apply rep_new|constructor|done]. Qed.

Lemma market_books_lookup mem t :
  0 ≤ t < ME_MAX_TICKERS → market_books mem !! Z.to_nat t = Some (MarketOrderBook_new (mem t) t).
Proof.
  intros Ht. unfold market_books. rewrite list_lookup_fmap, (proj2 (lookup_seqZ _ _ (Z.to_nat t) t)) by lia. done.
Qed.

Lemma market_books_lookup_inv mem t mb :
  0 ≤ t → market_books mem !! Z.to_nat t = Some mb → t < ME_MAX_TICKERS ∧ mb = MarketOrderBook_new (mem t) t.
Proof.
  intros Ht. unfold market_books. rewrite list_lookup_fmap. intros (z & Hz & ->)%fmap_Some.
  apply lookup_seqZ in Hz as [-> Hz]. replace (0 + Z.to_nat t)%Z with t by lia. split; [lia|done].
Qed.

Lemma onMarketUpdate_ok u mb ab :
  mkt_rep mb ab → valid_update u ab →
  ∃ mb' note, onMarketUpdate u mb = Ok (mb', note) ∧ mkt_rep mb' (spec_update u ab)
    ∧ mkt_ticker_id_ mb' = mkt_ticker_id_ mb
    ∧ note = if decide (mu_type_ u = MU_TRADE) then OnTradeUpdate u
             else OnOrderBookUpdate (mu_ticker_id_ u) (mu_price_ u) (mu_side_ u).
Proof.
  intros (Hr & Hq & Hb1 & Hb2) Hv. unfold onMarketUpdate. case_bool_decide as Et.
  { exists mb, (OnTradeUpdate u). rewrite decide_True by done. split_and!; try done.
    unfold spec_update. by rewrite Et. }
  destruct (apply_update_ok u (mkt_book mb) ab Hr Hv) as (b' & -> & Hr'). cbn [rbind].
  pose proof (spec_update_qty u ab Hv Hq) as Hq'.
  destruct (updateBBO_ok b' (spec_update u ab) (touches_best u (mkt_book mb) BUY)
    (touches_best u (mkt_book mb) SELL) (bbo_ mb) Hr' Hq') as (bbo' & -> & Hbbo).
  - intros Ht. rewrite Hb1. symmetry. apply (spec_update_behind u (mkt_book mb)); [done..|by left|done].
  - intros Ht. rewrite Hb2. symmetry. apply (spec_update_behind u (mkt_book mb)); [done..|by right|done].
  - do 2 eexists. rewrite decide_False by done. split_and!; [done|..|done|done]. done.
Qed.
