(* ===== verification/MarketBookClear.v ===== *)
(** * CLEAR on the client's book.

    The CLEAR branch of [MarketOrderBook::onMarketUpdate]
    (src/trading/strategy/market_order_book.cpp) frees every order and every
    level and empties both sides, but keeps the entries of
    [price_orders_at_price_] and the BBO.  [clear_book_ok] says what it does;
    [clear_then_add] follows the first snapshot order at a price the book knew
    before: it is linked into the freed level and neither side shows it. *)

From stdpp Require Import gmap list sorting.
From S2P Require Import Prelude CircList MemPool Types BookCore BookSpec BookRep BookRemove BookRefine MarketOrderBook.

Open Scope Z_scope.
Local Coercion Z.of_nat : nat >-> Z.

(** What freeing the blocks [l] leaves of a pool. *)
Record freed {T} `{!DefaultCtor T} (p p' : MemPool T) (l : list Z) : Prop := {
  fr_wf : pool_wf p';
  fr_size : store_size p' = store_size p;
  fr_in_use : ∀ i, in_use p' i ↔ in_use p i ∧ i ∉ l;
  fr_obj : ∀ i, obj p' i = obj p i;
  fr_next : next_free_index_ p' = next_free_index_ p }.

Lemma freed_nil {T} `{!DefaultCtor T} (p : MemPool T) : pool_wf p → freed p p [].
Proof.
  intros Hwf. split; try done. intros i. split; [|tauto]. intros Hi. split; [done|]. apply not_elem_of_nil.
Qed.

Lemma freed_trans {T} `{!DefaultCtor T} (p1 p2 p3 : MemPool T) l1 l2 :
  freed p1 p2 l1 → freed p2 p3 l2 → freed p1 p3 (l1 ++ l2).
Proof.
  intros [W1 S1 U1 O1 N1] [W2 S2 U2 O2 N2]. split; try congruence; try done.
  intros i. rewrite U2, U1, elem_of_app. tauto.
Qed.

Lemma freed_one {T} `{!DefaultCtor T} (p : MemPool T) i :
  pool_wf p → in_use p i → ∃ p', deallocate i p = Ok p' ∧ freed p p' [i].
Proof.
  intros Hwf Hu. destruct (deallocate_ok p i Hwf Hu) as (p' & E & Hwf' & Hs & Hui & Ho).
  exists p'. split; [done|]. split; try done.
  - intros j. rewrite Hui, list_elem_of_singleton. tauto.
  - revert E. unfold deallocate. intros (? & _ & (? & _ & [= <-])%bind_ok)%bind_ok. done.
Qed.

Lemma deallocate_orders_ok os p :
  pool_wf p → NoDup os → (∀ o, o ∈ os → in_use p o) →
  ∃ p', deallocate_orders os p = Ok p' ∧ freed p p' os.
Proof.
  revert p. induction os as [|o os IH]; intros p Hwf Hnd Hu; simpl.
  { exists p. split; [done|by apply freed_nil]. }
  apply NoDup_cons in Hnd as [Hn Hnd].
  destruct (freed_one p o Hwf (Hu o ltac:(set_solver))) as (p1 & -> & Hf). cbn [rbind].
  destruct (IH p1) as (p' & -> & Hf'); [apply Hf|done|..].
  { intros o' Ho'. apply Hf. split; [apply Hu; set_solver|].
    intros ->%list_elem_of_singleton. done. }
  exists p'. split; [done|]. exact (freed_trans _ _ _ [o] os Hf Hf').
Qed.

(** Walking the ring of a side while freeing it. *)
Lemma deallocate_ring_ok fuel h rest m r (p p1 : MemPool OrdersAtPrice) :
  cyc (λ i, next_entry_ (obj p i)) (λ i, prev_entry_ (obj p i)) (h :: rest) → NoDup (h :: rest) →
  rest = m ++ r → (length r ≤ fuel)%nat → (∀ i, i ∈ rest → in_use p i) → freed p p1 m →
  ∃ p', deallocate_ring fuel h (default h (head r)) p1 = Ok p' ∧ freed p p' rest.
Proof.
  intros Hc Hnd. revert m fuel p1. induction r as [|l r IH]; intros m fuel p1 Hm Hf Hu Hfr.
  - exists p1. rewrite app_nil_r in Hm. subst m. split; [|done].
    simpl. destruct fuel; simpl; by rewrite Z.eqb_refl.
  - destruct fuel as [|fuel]; [simpl in Hf; lia|]. simpl.
    assert (l ≠ h ∧ (l ∉ m)) as [Hlh Hlm].
    { apply NoDup_cons in Hnd as [Hn Hnd]. subst rest. split; [set_solver|].
      intros Hin. apply NoDup_app in Hnd as (_ & Hd & _). apply (Hd l Hin). set_solver. }
    rewrite (proj2 (Z.eqb_neq _ _)) by done.
    destruct (freed_one p1 l) as (p2 & -> & Hf2); [apply Hfr|..].
    { apply Hfr. split; [|done]. apply Hu. subst rest. set_solver. }
    cbn [rbind]. rewrite (fr_obj _ _ _ Hf2), (fr_obj _ _ _ Hfr).
    assert (next_entry_ (obj p l) = Some (default h (head r))) as ->.
    { subst rest. pose proof (cyc_next _ _ (h :: m) l r Hc) as E. simpl in E. rewrite E.
      f_equal. by destruct r. }
    cbn [rbind deref]. apply (IH (m ++ [l])); [|simpl in Hf; lia|done|].
    + by rewrite <- (assoc_L (++)).
    + by eapply freed_trans.
Qed.

Lemma deallocate_side_ok (p : MemPool OrdersAtPrice) (ls : list Z) :
  pool_wf p → cyc (λ i, next_entry_ (obj p i)) (λ i, prev_entry_ (obj p i)) ls → NoDup ls →
  length ls ≤ store_size p → (∀ i, i ∈ ls → in_use p i) →
  ∃ p', deallocate_side (head ls) p = Ok p' ∧ freed p p' ls.
Proof.
  intros Hwf Hc Hnd Hlen Hu. destruct ls as [|h rest]; simpl.
  { exists p. split; [done|by apply freed_nil]. }
  pose proof (cyc_next _ _ [] h rest Hc) as E. cbv beta in E. rewrite E, app_nil_r. cbn [rbind deref].
  destruct (deallocate_ring_ok (Z.to_nat (store_size p)) h rest [] rest p p) as (p1 & -> & Hf);
    try done; [simpl in Hlen; lia|intros; apply Hu; set_solver|by apply freed_nil|].
  cbn [rbind]. apply NoDup_cons in Hnd as [Hn _].
  destruct (freed_one p1 h) as (p2 & -> & Hf2); [apply Hf|..].
  { apply Hf. split; [apply Hu; set_solver|done]. }
  exists p2. split; [done|]. pose proof (freed_trans _ _ _ _ _ Hf Hf2) as [W S U Ob N].
  split; try done. intros i. rewrite U, elem_of_app, list_elem_of_singleton, elem_of_cons. tauto.
Qed.

(** Everything is free, the sides and the order index are empty; the price index
    is what it was. *)
Record cleared (b b' : Book MarketOrder Z) : Prop := {
  cl_orders : freed (order_pool_ b) (order_pool_ b') (map_to_list (order_index_ b)).*2;
  cl_none_used : ∀ i, ¬ in_use (order_pool_ b') i;
  cl_no_levels : ∀ i, ¬ in_use (orders_at_price_pool_ b') i;
  cl_level : ∀ i, level b' i = level b i;
  cl_sides : ∀ s, side_head b' s = None;
  cl_order_index : order_index_ b' = ∅;
  cl_price_index : price_orders_at_price_ b' = price_orders_at_price_ b }.

Lemma clear_book_ok b ab : rep b ab → ∃ b', clear_book b = Ok b' ∧ cleared b b'.
Proof.
  intros (g & Hb & _ & Hsl & _ & _). unfold clear_book.
  assert (Hix : ∀ i, i ∈ (map_to_list (order_index_ b)).*2 ↔ i ∈ orders_of (g_all g)).
  { intros i. rewrite list_elem_of_fmap. split.
    - intros ([k j] & -> & Hk%elem_of_map_to_list). by apply (bo_order_index _ _ _ Hb) in Hk as [? _].
    - intros Hi. exists (ord_key (order b i), i). split; [done|]. apply elem_of_map_to_list.
      by apply (bo_order_index _ _ _ Hb). }
  destruct (deallocate_orders_ok (map_to_list (order_index_ b)).*2 (order_pool_ b)) as (op & -> & Hop).
  { apply Hb. }
  { apply NoDup_fmap_2_strong; [|apply NoDup_map_to_list].
    intros [k1 i1] [k2 i2] H1%elem_of_map_to_list H2%elem_of_map_to_list E. simpl in E. subst i2.
    apply (bo_order_index _ _ _ Hb) in H1 as [_ <-], H2 as [_ <-]. done. }
  { intros o Ho. apply (bo_orders _ _ _ Hb). rewrite app_nil_r. by apply Hix. }
  cbn [rbind].
  pose proof (bo_side _ _ _ Hb BUY (or_introl eq_refl)) as [Hh1 Hr1 _ _].
  pose proof (bo_side _ _ _ Hb SELL (or_intror eq_refl)) as [Hh2 Hr2 _ _].
  change (bids_by_price_ b) with (side_head b BUY). change (asks_by_price_ b) with (side_head b SELL).
  rewrite Hh1, Hh2. pose proof (bo_levels_nodup _ _ _ Hb) as Hnd.
  change (g_side g BUY) with (g_bids g) in *. change (g_side g SELL) with (g_asks g) in *.
  unfold g_all in Hnd. rewrite fmap_app in Hnd. apply NoDup_app in Hnd as (Hn1 & Hd & Hn2).
  assert (Hlu : ∀ i, in_use (orders_at_price_pool_ b) i ↔ i ∈ (g_bids g).*1 ∨ i ∈ (g_asks g).*1).
  { intros i. rewrite (bo_levels _ _ _ Hb). unfold g_all. by rewrite fmap_app, elem_of_app. }
  assert (Hlen : length (g_bids g).*1 + length (g_asks g).*1 < store_size (orders_at_price_pool_ b)).
  { pose proof (used_bound _ (bo_level_pool _ _ _ Hb)) as Hub.
    rewrite (size_used _ ((g_bids g).*1 ++ (g_asks g).*1)) in Hub.
    - rewrite length_app in Hub. lia.
    - by apply NoDup_app.
    - intros i. by rewrite elem_of_app. }
  destruct (deallocate_side_ok (orders_at_price_pool_ b) (g_bids g).*1) as (p1 & -> & Hf1);
    [apply Hb|done|done|lia|intros; apply Hlu; auto|]. cbn [rbind].
  destruct (deallocate_side_ok p1 (g_asks g).*1) as (p2 & -> & Hf2).
  { apply Hf1. }
  { eapply cyc_frame; [..|exact Hr2]; intros i _; simpl; unfold level; by rewrite (fr_obj _ _ _ Hf1). }
  { done. }
  { rewrite (fr_size _ _ _ Hf1). lia. }
  { intros i Hi. apply Hf1. split; [apply Hlu; auto|]. intros Hi'. by apply (Hd i Hi'). }
  cbn [rbind]. eexists. split; [done|]. split; simpl; try done.
  - intros i Hi. apply (fr_in_use _ _ _ Hop) in Hi as [Hi Hni]. apply Hni, Hix.
    apply (bo_orders _ _ _ Hb) in Hi. by rewrite app_nil_r in Hi.
  - intros i Hi. apply (fr_in_use _ _ _ Hf2) in Hi as [Hi Hni].
    apply (fr_in_use _ _ _ Hf1) in Hi as [[Hi|Hi]%Hlu Hn]; done.
  - intros i. unfold level. simpl. by rewrite (fr_obj _ _ _ Hf2), (fr_obj _ _ _ Hf1).
  - intros s. unfold side_head. by case_match.
Qed.

(** A price the book knew still has an entry, with a ring of freed orders. *)
Lemma stale_level b ab x :
  rep b ab → x ∈ ab_all ab →
  ∃ lp f prv, getOrdersAtPrice b (mo_price_ x) = Some lp ∧ first_order_ (level b lp) = Some f
            ∧ ord_prev (order b f) = Some prv ∧ in_use (order_pool_ b) f.
Proof.
  intros (g & Hb & Hs & _) Hx. rewrite <- (book_side_all b g ab Hs) in Hx.
  apply list_elem_of_fmap in Hx as (i & -> & Hi). cbn [ord_price MarketOrder_node].
  destruct (locate_order b g [] i Hb Hi) as (s & ls1 & lp & os1 & os2 & ls2 & Hp & Hg & _ & _ & Hget).
  pose proof (so_levels _ _ _ (bo_side _ _ _ Hb s Hp)) as Hlv. rewrite Hg in Hlv.
  rewrite Forall_app, Forall_cons in Hlv. destruct Hlv as (_ & [_ Hf Hne Hring _] & _).
  cbn [fst snd] in *. destruct (os1 ++ i :: os2) as [|f os] eqn:Eos; [done|]. simpl in Hf.
  pose proof (cyc_prev _ _ [] f os Hring) as Hprev. cbv beta in Hprev.
  exists lp, f. eexists. split_and!; [exact Hget|done|exact Hprev|].
  apply (bo_orders _ _ _ Hb). rewrite app_nil_r, (g_all_split g s Hp), Hg, !orders_of_app, orders_of_cons.
  cbn [snd]. clear. set_solver.
Qed.

(** Order [i] stands behind the ring of level [lp], which is on neither side. *)
Record lost_order (b1 b2 : Book MarketOrder Z) (price key i lp : Z) : Prop := {
  ls_level : getOrdersAtPrice b1 price = Some lp;
  ls_ring : ∃ f, first_order_ (level b2 lp) = Some f ∧ mo_prev_order_ (order b2 f) = Some i ∧ mo_next_order_ (order b2 i) = Some f;
  ls_index : order_index_ b2 = <[key := i]> (order_index_ b1);
  ls_levels : orders_at_price_pool_ b2 = orders_at_price_pool_ b1;
  ls_sides : ∀ s, side_head b2 s = None }.

(** Re-adding an order at such a price after CLEAR links it into the freed level
    and leaves both sides empty. *)
Lemma clear_then_add b ab b1 x o :
  rep b ab → cleared b b1 → x ∈ ab_all ab → mo_price_ o = mo_price_ x →
  oid_in_range (mo_order_id_ o) = true →
  ∃ i p b2, allocate o (order_pool_ b1) = Ok (i, p) ∧ addOrder i (set_order_pool p b1) = Ok b2
    ∧ ∃ lp, lost_order b1 b2 (mo_price_ o) (mo_order_id_ o) i lp.
Proof.
  intros Hr Hcl Hx Hprice Hk. destruct (stale_level b ab x Hr Hx) as (lp & f & prv & Hget & Hf & Hprv & Hu).
  pose proof (cl_orders _ _ Hcl) as Hfr.
  destruct (allocate_some o (order_pool_ b1)) as (p & Eal & Ha); [apply Hfr|..].
  { rewrite (size_used _ []); [|constructor|].
    - simpl. rewrite (fr_size _ _ _ Hfr). destruct Hr as (_ & _ & _ & _ & -> & _). done.
    - intros i. split; [by intros ?%(cl_none_used _ _ Hcl)|by intros ?%elem_of_nil]. }
  set (i := next_free_index_ (order_pool_ b1)) in *.
  assert (i ≠ f) as Hne.
  { intros E. unfold i in E. rewrite (fr_next _ _ _ Hfr) in E.
    destruct Hr as (g & Hb & _). pose proof (wf_next_free _ (bo_order_pool _ _ _ Hb)) as Hfree.
    unfold in_use in Hu. rewrite <- E in Hu.
    exact (eq_true_false_abs _ Hfree Hu). }
  exists i, p. eexists. split; [exact Eal|].
  assert (order (set_order_pool p b1) i = o) as Eo.
  { unfold order. simpl. rewrite (allocated_obj _ _ _ _ i Ha). by rewrite decide_True. }
  assert (order (set_order_pool p b1) f = order b f) as Ef.
  { unfold order. simpl. rewrite (allocated_obj _ _ _ _ f Ha), decide_False by done.
    apply (fr_obj _ _ _ Hfr). }
  unfold addOrder. rewrite Eo. cbn [ord_price MarketOrder_node]. rewrite Hprice.
  unfold getOrdersAtPrice. cbn [price_orders_at_price_ set_order_pool]. rewrite (cl_price_index _ _ Hcl).
  fold (getOrdersAtPrice b (mo_price_ x)). rewrite Hget.
  change (level (set_order_pool p b1) lp) with (level b1 lp). rewrite (cl_level _ _ Hcl), Hf.
  cbn [rbind deref]. rewrite Ef, Hprv. cbn [rbind deref].
  match goal with |- context [negb (key_in_range (ord_key (order ?b' i)))] => set (b3 := b') end.
  assert (mo_order_id_ (order b3 i) = mo_order_id_ o) as Ek.
  { unfold b3. rewrite !order_with_order. rewrite Eo. repeat case_decide; subst; simpl; rewrite ?Eo; done. }
  cbn [key_in_range ord_key MarketOrder_node]. rewrite Ek, Hk. cbn [negb]. split; [done|]. exists lp.
  assert (∀ j, order (set_order_index (<[mo_order_id_ o := i]> (order_index_ b3)) b3) j = order b3 j) as Ej by done. split.
  - unfold getOrdersAtPrice. rewrite (cl_price_index _ _ Hcl). exact Hget.
  - exists f. split_and!; [change (first_order_ (level b1 lp) = Some f); by rewrite (cl_level _ _ Hcl)|..]; rewrite Ej; unfold b3.
    + rewrite order_with_order, decide_True by done. done.
    + rewrite order_with_order, decide_False, order_with_order, decide_True by done. done.
  - done.
  - done.
  - intros s. pose proof (cl_sides _ _ Hcl s) as Hs. unfold side_head in *. exact Hs.
Qed.
