(* ===== verification/MarketBookQty.v ===== *)
(** * Quantities of the client's book.

    Lemmas on MarketOrderBook.v that hold in any state of the pointer structure,
    a damaged one included: what every stored order satisfies, if it does not
    depend on the links, stays so through the list surgery ([addOrder_all],
    [removeOrder_all]); so quantities, and with them those of the best-bid-offer,
    are never negative ([onMarketUpdate_nonneg]). *)

From stdpp Require Import gmap list.
From S2P Require Import Prelude MemPool Types BookCore MarketOrderBook.

Open Scope Z_scope.

Section Stored.
Context {Ord K : Type} `{Countable K} `{!OrderNode Ord K} (P : Ord → Prop).
Implicit Types (b : Book Ord K) (p : MemPool Ord).

Definition pool_all p : Prop := ∀ i, P (obj p i).
Definition stored b : Prop := pool_all (order_pool_ b).

Hypothesis P_prev : ∀ v o, P o → P (set_prev v o).
Hypothesis P_next : ∀ v o, P o → P (set_next v o).

Lemma pool_all_allocate x p i p' : P x → pool_all p → allocate x p = Ok (i, p') → pool_all p'.
Proof.
  intros Hx Hp. unfold allocate, updateNextFreeIndex. cbv zeta.
  intros (u & _ & (p1 & (n & _ & [= <-])%bind_ok & [= _ <-])%bind_ok)%bind_ok j.
  change (P (obj (set_block p (next_free_index_ p) (mkObjectBlock x false)) j)).
  unfold obj. rewrite block_set_block. case_decide; [done|apply Hp].
Qed.

Lemma pool_all_deallocate i p p' : pool_all p → deallocate i p = Ok p' → pool_all p'.
Proof.
  intros Hp (u & _ & (u1 & _ & [= <-])%bind_ok)%bind_ok j. unfold obj. rewrite block_set_block.
  case_decide; [apply Hp|apply Hp].
Qed.

Lemma stored_with_order i f b : (∀ o, P o → P (f o)) → stored b → stored (with_order i f b).
Proof.
  intros Hf Hb j. change (P (obj (pool_modify (order_pool_ b) i f) j)). rewrite obj_pool_modify.
  case_decide; [apply Hf, Hb|apply Hb].
Qed.

(** The operations on levels do not touch the orders. *)
Lemma addOrdersAtPrice_orders new b b' : addOrdersAtPrice new b = Ok b' → order_pool_ b' = order_pool_ b.
Proof.
  unfold addOrdersAtPrice. cbv zeta. destruct (side_head _ _) as [best|].
  - intros ([t aft] & _ & Hx)%bind_ok. destruct aft.
    + apply bind_ok in Hx as (t' & _ & (t2 & _ & [= <-])%bind_ok). done.
    + apply bind_ok in Hx as (b1 & (t2 & _ & [= <-])%bind_ok & Hx).
      destruct (beats _ _); injection Hx as <-; [|done]. unfold set_side_head. by destruct (is_buy _).
  - intros [= <-]. unfold set_side_head. by destruct (is_buy _).
Qed.

Lemma removeOrdersAtPrice_orders s price b b' : removeOrdersAtPrice s price b = Ok b' → order_pool_ b' = order_pool_ b.
Proof.
  unfold removeOrdersAtPrice. cbv zeta. intros (lp & _ & (b1 & H1 & (q & _ & [= <-])%bind_ok)%bind_ok)%bind_ok.
  cbn [order_pool_ set_level_pool set_price_index]. destruct (bool_decide _).
  - injection H1 as <-. unfold set_side_head. by destruct (is_buy s).
  - apply bind_ok in H1 as (before & _ & (after & _ & [= <-])%bind_ok).
    destruct (bool_decide _); [|done]. unfold set_side_head. by destruct (is_buy s).
Qed.

Lemma addOrder_all optr b b' : stored b → addOrder optr b = Ok b' → stored b'.
Proof.
  intros Hb. unfold addOrder. cbv zeta. intros (b1 & H1 & Hx)%bind_ok.
  destruct (negb _); [done|]. injection Hx as <-. change (stored b1). destruct (getOrdersAtPrice _ _) as [lp|].
  - apply bind_ok in H1 as (first & _ & (fprev & _ & [= <-])%bind_ok).
    repeat (apply stored_with_order; [by auto|]). done.
  - apply bind_ok in H1 as ([lvl q] & _ & H1). apply addOrdersAtPrice_orders in H1. unfold stored. rewrite H1.
    apply (stored_with_order optr _ b); [by auto|done].
Qed.

Lemma removeOrder_all optr b b' : stored b → removeOrder optr b = Ok b' → stored b'.
Proof.
  intros Hb. unfold removeOrder. cbv zeta. intros (b1 & H1 & Hx)%bind_ok.
  destruct (negb _); [done|]. apply bind_ok in Hx as (q & Hq & [= <-]).
  apply (pool_all_deallocate optr (order_pool_ b1)); [|exact Hq]. clear Hq. change (stored b1). destruct (bool_decide _).
  - apply removeOrdersAtPrice_orders in H1. unfold stored. by rewrite H1.
  - apply bind_ok in H1 as (before & _ & (after & _ & (lp & _ & [= <-])%bind_ok)%bind_ok).
    apply stored_with_order; [by auto|]. destruct (bool_decide _).
    + change (stored (with_order after (set_prev (Some before)) (with_order before (set_next (Some after)) b))).
      repeat (apply stored_with_order; [by auto|]). done.
    + repeat (apply stored_with_order; [by auto|]). done.
Qed.
End Stored.

(** ** Quantities *)

Definition qty_nonneg (o : MarketOrder) : Prop := 0 ≤ mo_qty_ o.

Record book_nonneg (mb : MarketOrderBook) : Prop := {
  bn_orders : stored qty_nonneg (mkt_book mb);
  bn_bid : 0 ≤ bid_qty_ (bbo_ mb);
  bn_ask : 0 ≤ ask_qty_ (bbo_ mb) }.

Lemma deallocate_orders_all os p p' : pool_all qty_nonneg p → deallocate_orders os p = Ok p' → pool_all qty_nonneg p'.
Proof.
  revert p. induction os as [|o os IH]; intros p Hp; simpl; [by intros [= <-]|].
  intros (q & Hq & Hx)%bind_ok. eapply IH; [|exact Hx]. by eapply pool_all_deallocate.
Qed.

Lemma apply_update_nonneg u b b' :
  0 ≤ mu_qty_ u → stored qty_nonneg b → apply_update u b = Ok b' → stored qty_nonneg b'.
Proof.
  intros Hq Hb. unfold apply_update. destruct (mu_type_ u); try (by intros [= <-]).
  - intros (op & Hop & (lp & _ & (lp2 & _ & [= <-])%bind_ok)%bind_ok)%bind_ok. by eapply deallocate_orders_all.
  - intros ([o p] & Ha & Hx)%bind_ok. eapply (addOrder_all qty_nonneg); [done|done| |exact Hx].
    eapply pool_all_allocate; [|exact Hb|exact Ha]. exact Hq.
  - intros (o & _ & [= <-])%bind_ok. apply stored_with_order; [|done]. intros x _. exact Hq.
  - intros (o & _ & Hx)%bind_ok. by eapply (removeOrder_all qty_nonneg); [| | |exact Hx].
Qed.

Lemma sum_level_nonneg fuel b first o qty q : 0 ≤ qty → sum_level fuel b first o qty = Ok q → 0 ≤ q.
Proof.
  revert o qty. induction fuel as [|fuel IH]; intros o qty Hq; simpl; destruct (o =? first); try done; try (by intros [= <-]).
  intros (o' & _ & Hx)%bind_ok. eapply IH; [|exact Hx]. unfold wrap. apply Z.mod_pos_bound. lia.
Qed.

Lemma best_of_nonneg b s p q : stored qty_nonneg b → best_of b s = Ok (p, q) → 0 ≤ q.
Proof.
  intros Hb. unfold best_of. destruct (side_head b s) as [lp|]; [|by intros [= _ <-]].
  intros (first & _ & (nxt & _ & (n & Hn & [= _ <-])%bind_ok)%bind_ok)%bind_ok. by eapply sum_level_nonneg; [|exact Hn]; apply Hb.
Qed.

Lemma onMarketUpdate_nonneg u mb mb' note :
  0 ≤ mu_qty_ u → book_nonneg mb → onMarketUpdate u mb = Ok (mb', note) → book_nonneg mb'.
Proof.
  intros Hq [Ho Hb Ha]. unfold onMarketUpdate. cbv zeta. destruct (bool_decide _); [by intros [= <- _]|].
  intros (b1 & H1 & (bbo & H2 & [= <- _])%bind_ok)%bind_ok. apply apply_update_nonneg in H1; [|done..].
  unfold updateBBO in H2. apply bind_ok in H2 as (bbo1 & H3 & H4).
  assert (0 ≤ bid_qty_ bbo1 ∧ 0 ≤ ask_qty_ bbo1) as [Hb1 Ha1].
  { destruct (touches_best _ _ BUY); [|by injection H3 as <-]. apply bind_ok in H3 as ([p q] & Hbest & [= <-]).
    apply best_of_nonneg in Hbest; done. }
  destruct (touches_best _ _ SELL); [|by injection H4 as <-; split]. apply bind_ok in H4 as ([p q] & Hbest & [= <-]).
  apply best_of_nonneg in Hbest; [|done]. by split.
Qed.

Lemma book_nonneg_new mem ticker_id : book_nonneg (MarketOrderBook_new mem ticker_id).
Proof. split; [|done..]. intros i. unfold obj, block. cbn. by rewrite lookup_empty. Qed.
