(* ===== verification/MEOrderBook.v ===== *)
(** * The exchange's limit order book.

    [Exchange::MEOrder] (src/exchange/matcher/me_order.h) and
    [Exchange::MEOrderBook] (src/exchange/matcher/me_order_book.{h,cpp}).  The
    pointer structure is BookCore.v at the order type [MEOrder]; this file adds
    the handlers [add] and [cancel] with the matching loop.  The book hands its
    private responses and public updates to the matching engine through
    [sendClientResponse] and [sendMarketUpdate]; the interface [EngineSink] is
    what it needs of the engine, and MatchingEngine.v discharges it with the
    outgoing queues.  The reused buffers [client_response_] and [market_update_]
    are assigned immediately before each send, so they are let-bound here. *)

From stdpp Require Import gmap list strings.
From S2P Require Import Prelude MemPool Types BookCore BookSpec BookRep BookRemove BookRefine BookDump.

Open Scope Z_scope.
Local Coercion Z.of_nat : nat >-> Z.

Record MEOrder := mkMEOrder {
  ticker_id_ : Z;
  client_id_ : Z;
  client_order_id_ : Z;
  market_order_id_ : Z;
  side_ : Side;
  price_ : Z;
  qty_ : Z;
  priority_ : Z;
  prev_order_ : option Z;
  next_order_ : option Z }.

#[export] Instance MEOrder_eq_dec : EqDecision MEOrder.
Proof. solve_decision. Defined.

#[export] Instance MEOrder_default : DefaultCtor MEOrder :=
  mkMEOrder TickerId_INVALID ClientId_INVALID OrderId_INVALID OrderId_INVALID Side_INVALID
    Price_INVALID Qty_INVALID Priority_INVALID None None.

Definition set_me_prev (v : option Z) (o : MEOrder) : MEOrder :=
  mkMEOrder (ticker_id_ o) (client_id_ o) (client_order_id_ o) (market_order_id_ o) (side_ o)
    (price_ o) (qty_ o) (priority_ o) v (next_order_ o).
Definition set_me_next (v : option Z) (o : MEOrder) : MEOrder :=
  mkMEOrder (ticker_id_ o) (client_id_ o) (client_order_id_ o) (market_order_id_ o) (side_ o)
    (price_ o) (qty_ o) (priority_ o) (prev_order_ o) v.
Definition set_qty (q : Z) (o : MEOrder) : MEOrder :=
  mkMEOrder (ticker_id_ o) (client_id_ o) (client_order_id_ o) (market_order_id_ o) (side_ o)
    (price_ o) q (priority_ o) (prev_order_ o) (next_order_ o).

(** The index [cid_oid_to_order_] is an array of [ME_MAX_NUM_CLIENTS] rows of
    [ME_MAX_ORDER_IDS] pointers, accessed with [.at]. *)
Definition cid_oid_in_range (k : Z * Z) : bool :=
  (0 <=? k.1) && (k.1 <? ME_MAX_NUM_CLIENTS) && (0 <=? k.2) && (k.2 <? ME_MAX_ORDER_IDS).

#[export] Instance MEOrder_node : OrderNode MEOrder (Z * Z) := {
  ord_side := side_;
  ord_price := price_;
  ord_key o := (client_id_ o, client_order_id_ o);
  key_in_range := cid_oid_in_range;
  ord_prev := prev_order_;
  ord_next := next_order_;
  set_prev := set_me_prev;
  set_next := set_me_next }.

#[export] Instance MEOrder_laws : OrderNodeLaws MEOrder (Z * Z).
Proof. split; by intros ? []. Qed.

(** What the book needs of the matching engine that owns it. *)
Class EngineSink (E : Type) := {
  sendClientResponse : MEClientResponse → E → E;
  sendMarketUpdate : MEMarketUpdate → E → E }.

Record MEOrderBook := mkMEOrderBook {
  me_ticker_id_ : Z;
  me_book : Book MEOrder (Z * Z);
  next_market_order_id_ : Z }.

(** The constructor, in memory [mem]. *)
Definition MEOrderBook_new (mem : IndexMemory (Z * Z)) (ticker_id : Z) : MEOrderBook :=
  mkMEOrderBook ticker_id (Book_new mem) 1.

(** [next_market_order_id_++]. *)
Definition generateNewMarketOrderId (ob : MEOrderBook) : Z * MEOrderBook :=
  (next_market_order_id_ ob,
   mkMEOrderBook (me_ticker_id_ ob) (me_book ob) (u64 (next_market_order_id_ ob + 1))).

Definition set_me_book (b : Book MEOrder (Z * Z)) (ob : MEOrderBook) : MEOrderBook :=
  mkMEOrderBook (me_ticker_id_ ob) b (next_market_order_id_ ob).

Definition getNextPriority (price : Z) (b : Book MEOrder (Z * Z)) : result Z :=
  match getOrdersAtPrice b price with
  | None => Ok 1
  | Some lp =>
      let* first := deref (first_order_ (level b lp)) in
      let* prv := deref (prev_order_ (order b first)) in
      Ok (u64 (priority_ (order b prv) + 1))
  end.

Section Handlers.
Context {E : Type} `{!EngineSink E}.
Implicit Types (b : Book MEOrder (Z * Z)) (e : E).

(** [match]: one fill between the aggressor and [passive]; returns the
    aggressor's remaining quantity. *)
Definition match_ (ticker_id client_id : Z) (side : Side) (client_order_id new_market_order_id : Z)
    (passive leaves_qty : Z) b e : result (Z * Book MEOrder (Z * Z) * E) :=
  let order_qty := qty_ (order b passive) in
  let fill_qty := Z.min leaves_qty order_qty in
  let leaves_qty := u32 (leaves_qty - fill_qty) in
  let b := with_order passive (set_qty (u32 (order_qty - fill_qty))) b in
  let po := order b passive in
  let e := sendClientResponse
             (mkMEClientResponse FILLED client_id ticker_id client_order_id new_market_order_id
                side (price_ po) fill_qty leaves_qty) e in
  let e := sendClientResponse
             (mkMEClientResponse FILLED (client_id_ po) ticker_id (client_order_id_ po)
                (market_order_id_ po) (side_ po) (price_ po) fill_qty (qty_ po)) e in
  let e := sendMarketUpdate
             (mkMEMarketUpdate MU_TRADE OrderId_INVALID ticker_id side (price_ po) fill_qty
                Priority_INVALID) e in
  if qty_ po =? 0 then
    let e := sendMarketUpdate
               (mkMEMarketUpdate MU_CANCEL (market_order_id_ po) ticker_id (side_ po) (price_ po)
                  order_qty Priority_INVALID) e in
    let* b := removeOrder passive b in
    Ok (leaves_qty, b, e)
  else
    let e := sendMarketUpdate
               (mkMEMarketUpdate MU_MODIFY (market_order_id_ po) ticker_id (side_ po) (price_ po)
                  (qty_ po) (priority_ po)) e in
    Ok (leaves_qty, b, e).

(** The crossing tests that stop the two loops of [checkForMatch]. *)
Definition no_cross (side : Side) (price best : Z) : bool :=
  if is_buy side then price <? best else best <? price.

(** [while (leaves_qty && asks_by_price_)] for a buy, [bids_by_price_] for a
    sell; [opp] is that opposite side. *)
Fixpoint checkForMatch_loop (fuel : nat) (client_id client_order_id ticker_id : Z) (side opp : Side)
    (price new_market_order_id leaves_qty : Z) b e : result (Z * Book MEOrder (Z * Z) * E) :=
  if leaves_qty =? 0 then Ok (leaves_qty, b, e) else
  match side_head b opp with
  | None => Ok (leaves_qty, b, e)
  | Some lp =>
      let* best := deref (first_order_ (level b lp)) in
      if no_cross side price (price_ (order b best)) then Ok (leaves_qty, b, e) else
      match fuel with
      | O => Err OutOfFuel
      | S fuel' =>
          let* (leaves_qty, b, e) := match_ ticker_id client_id side client_order_id
                                       new_market_order_id best leaves_qty b e in
          checkForMatch_loop fuel' client_id client_order_id ticker_id side opp price
            new_market_order_id leaves_qty b e
      end
  end.

(** The parameter [new_market_order_id] of [checkForMatch] has type [Qty]: the
    64-bit identifier is truncated at the call (see [add]). *)
Definition checkForMatch (client_id client_order_id ticker_id : Z) (side : Side) (price qty : Z)
    (new_market_order_id : Z) b e : result (Z * Book MEOrder (Z * Z) * E) :=
  let fuel := Z.to_nat (store_size (order_pool_ b)) in
  let* (leaves_qty, b, e) :=
    (if is_buy side then
       checkForMatch_loop fuel client_id client_order_id ticker_id side SELL price
         new_market_order_id qty b e
     else Ok (qty, b, e)) in
  if is_sell side then
    checkForMatch_loop fuel client_id client_order_id ticker_id side BUY price
      new_market_order_id leaves_qty b e
  else Ok (leaves_qty, b, e).

Definition add (client_id client_order_id ticker_id : Z) (side : Side) (price qty : Z)
    (ob : MEOrderBook) e : result (MEOrderBook * E) :=
  let (new_market_order_id, ob) := generateNewMarketOrderId ob in
  let e := sendClientResponse
             (mkMEClientResponse ACCEPTED client_id ticker_id client_order_id new_market_order_id
                side price 0 qty) e in
  let* (leaves_qty, b, e) := checkForMatch client_id client_order_id ticker_id side price qty
                               (u32 new_market_order_id) (me_book ob) e in
  if leaves_qty =? 0 then Ok (set_me_book b ob, e)
  else
    let* priority := getNextPriority price b in
    let* (order, p) := allocate
        (mkMEOrder ticker_id client_id client_order_id new_market_order_id side price leaves_qty
           priority None None) (order_pool_ b) in
    let* b := addOrder order (set_order_pool p b) in
    let e := sendMarketUpdate
               (mkMEMarketUpdate MU_ADD new_market_order_id ticker_id side price leaves_qty
                  priority) e in
    Ok (set_me_book b ob, e).

(** [client_id < cid_oid_to_order_.size()] guards only the row; the column is
    read with [.at(order_id)], which throws out of range. *)
Definition cancel (client_id order_id ticker_id : Z) (ob : MEOrderBook) e
    : result (MEOrderBook * E) :=
  let b := me_book ob in
  let* exchange_order :=
    (if client_id <? ME_MAX_NUM_CLIENTS then
       if order_id <? ME_MAX_ORDER_IDS then Ok (order_index_ b !! (client_id, order_id))
       else Err OutOfRange
     else Ok None) in
  match exchange_order with
  | None =>
      Ok (ob, sendClientResponse
                (mkMEClientResponse CANCEL_REJECTED client_id ticker_id order_id OrderId_INVALID
                   Side_INVALID Price_INVALID Qty_INVALID Qty_INVALID) e)
  | Some i =>
      let o := order b i in
      let client_response := mkMEClientResponse CANCELED client_id ticker_id order_id
            (market_order_id_ o) (side_ o) (price_ o) Qty_INVALID (qty_ o) in
      let market_update := mkMEMarketUpdate MU_CANCEL (market_order_id_ o) ticker_id (side_ o)
            (price_ o) 0 (priority_ o) in
      let* b := removeOrder i b in
      let e := sendMarketUpdate market_update e in
      Ok (set_me_book b ob, sendClientResponse client_response e)
  end.
End Handlers.

(** [toString]. *)
#[export] Instance MEOrder_dump : DumpNode MEOrder := { dump_id := market_order_id_; dump_qty := qty_ }.

#[export] Instance MEOrder_dump_laws : DumpNodeLaws MEOrder (Z * Z).
Proof. split; by intros []. Qed.

Definition MEOrderBook_toString (detailed validity_check : bool) (ob : MEOrderBook) : result string :=
  dump (me_ticker_id_ ob) detailed validity_check (me_book ob).
