(* ===== verification/MESpec.v ===== *)
(** * What the exchange's order book promises.

    The abstract book is two priority lists.  [fill_queue] matches an incoming
    order against the opposite list, [spec_add] and [spec_cancel] give the next
    book and the messages sent, in order.  The lemmas here are about the lists:
    conservation of quantity, price-time priority, prices within the limit, no
    crossing left, and the invariant [book_inv] with its preservation.
    MERefine.v proves that the code implements this specification. *)

From stdpp Require Import gmap list sorting.
From S2P Require Import Prelude MemPool Types BookCore BookSpec BookRep BookRemove BookRefine MEOrderBook.

Open Scope Z_scope.
Local Coercion Z.of_nat : nat >-> Z.

(** A message of the book, private to a client or public. *)
Inductive event :=
| Private (r : MEClientResponse)
| Public (u : MEMarketUpdate).

#[export] Instance event_eq_dec : EqDecision event.
Proof. solve_decision. Defined.

Definition emit {E} `{!EngineSink E} (e : E) (ev : event) : E :=
  match ev with Private r => sendClientResponse r e | Public u => sendMarketUpdate u e end.
Definition emit_all {E} `{!EngineSink E} (evs : list event) (e : E) : E := foldl emit e evs.

(** The incoming order, as the matching loop sees it. *)
Record aggressor := mkAggressor {
  ag_ticker : Z; ag_client : Z; ag_oid : Z; ag_moid : Z; ag_side : Side; ag_price : Z }.

(** The messages of one fill of [fill] shares against [x] that leaves the
    aggressor with [leaves]. *)
Definition fill_events (a : aggressor) (x : MEOrder) (fill leaves : Z) : list event :=
  [ Private (mkMEClientResponse FILLED (ag_client a) (ag_ticker a) (ag_oid a) (ag_moid a)
               (ag_side a) (price_ x) fill leaves);
    Private (mkMEClientResponse FILLED (client_id_ x) (ag_ticker a) (client_order_id_ x)
               (market_order_id_ x) (side_ x) (price_ x) fill (qty_ x - fill));
    Public (mkMEMarketUpdate MU_TRADE OrderId_INVALID (ag_ticker a) (ag_side a) (price_ x) fill
              Priority_INVALID);
    Public (if qty_ x - fill =? 0
            then mkMEMarketUpdate MU_CANCEL (market_order_id_ x) (ag_ticker a) (side_ x) (price_ x)
                   (qty_ x) Priority_INVALID
            else mkMEMarketUpdate MU_MODIFY (market_order_id_ x) (ag_ticker a) (side_ x) (price_ x)
                   (qty_ x - fill) (priority_ x)) ].

(** An order of side [s] with this limit trades at price [p]. *)
Definition crosses (s : Side) (limit p : Z) : bool := if is_buy s then p <=? limit else limit <=? p.

(** Remaining quantity, remaining opposite orders, messages. *)
Fixpoint fill_queue (a : aggressor) (leaves : Z) (q : list MEOrder) : Z * list MEOrder * list event :=
  match q with
  | [] => (leaves, [], [])
  | x :: q' =>
      if (leaves =? 0) || negb (crosses (ag_side a) (ag_price a) (price_ x)) then (leaves, q, [])
      else if qty_ x <=? leaves then
        let '(l, q2, evs) := fill_queue a (leaves - qty_ x) q' in
        (l, q2, fill_events a x (qty_ x) (leaves - qty_ x) ++ evs)
      else (0, set_qty (qty_ x - leaves) x :: q', fill_events a x leaves 0)
  end.

Record MESpec := mkMESpec { sp_book : absbook MEOrder; sp_next_id : Z }.

Definition next_priority (price : Z) (q : list MEOrder) : Z :=
  match last (at_price price q) with None => 1 | Some x => u64 (priority_ x + 1) end.

Definition spec_add (client_id oid ticker_id : Z) (side : Side) (price qty : Z) (sp : MESpec)
    : MESpec * list event :=
  let id := sp_next_id sp in
  let a := mkAggressor ticker_id client_id oid (u32 id) side price in
  let accepted := Private (mkMEClientResponse ACCEPTED client_id ticker_id oid id side price 0 qty) in
  let '(leaves, q, evs) := fill_queue a qty (ab_side (sp_book sp) (opposite side)) in
  let ab := set_ab_side (sp_book sp) (opposite side) q in
  if leaves =? 0 then (mkMESpec ab (u64 (id + 1)), accepted :: evs)
  else
    let priority := next_priority price (ab_side ab side) in
    let o := mkMEOrder ticker_id client_id oid id side price leaves priority None None in
    (mkMESpec (set_ab_side ab side (insert_order side o (ab_side ab side))) (u64 (id + 1)),
     accepted :: evs ++ [Public (mkMEMarketUpdate MU_ADD id ticker_id side price leaves priority)]).

Definition find_order (client_id oid : Z) (ab : absbook MEOrder) : option MEOrder :=
  snd <$> list_find (λ x, ord_key x = (client_id, oid)) (ab_all ab).

Definition spec_cancel (client_id oid ticker_id : Z) (sp : MESpec) : MESpec * list event :=
  match find_order client_id oid (sp_book sp) with
  | None =>
      (sp, [Private (mkMEClientResponse CANCEL_REJECTED client_id ticker_id oid OrderId_INVALID
                       Side_INVALID Price_INVALID Qty_INVALID Qty_INVALID)])
  | Some x =>
      (mkMESpec (ab_map (remove_order (client_id, oid)) (sp_book sp)) (sp_next_id sp),
       [ Public (mkMEMarketUpdate MU_CANCEL (market_order_id_ x) ticker_id (side_ x) (price_ x) 0
                   (priority_ x));
         Private (mkMEClientResponse CANCELED client_id ticker_id oid (market_order_id_ x) (side_ x)
                    (price_ x) Qty_INVALID (qty_ x)) ])
  end.

(** ** The matching loop on lists *)

Definition total_qty (q : list MEOrder) : Z := foldr (λ x acc, qty_ x + acc) 0 q.

(** Shares traded according to the public prints. *)
Definition traded (ev : event) : Z :=
  match ev with Public u => if bool_decide (mu_type_ u = MU_TRADE) then mu_qty_ u else 0 | _ => 0 end.
Definition traded_qty (evs : list event) : Z := foldr (λ ev acc, traded ev + acc) 0 evs.

Lemma traded_qty_app evs1 evs2 : traded_qty (evs1 ++ evs2) = traded_qty evs1 + traded_qty evs2.
Proof. induction evs1 as [|ev evs1 IH]; simpl; [done|]. rewrite IH. lia. Qed.

Lemma traded_fill_events a x fill leaves : traded_qty (fill_events a x fill leaves) = fill.
Proof.
  unfold traded_qty, fill_events, traded; cbn [foldr mu_type_ mu_qty_].
  rewrite bool_decide_eq_true_2 by done.
  rewrite bool_decide_eq_false_2; [lia|]. by destruct (_ =? 0).
Qed.

Section Fill.
Context (a : aggressor).
Implicit Types (q : list MEOrder) (leaves : Z).

(** Every print is at the resting order's price, within the limit. *)
Definition within_limit (ev : event) : Prop :=
  match ev with
  | Public u => mu_type_ u = MU_TRADE → crosses (ag_side a) (ag_price a) (mu_price_ u) = true
  | Private r => crosses (ag_side a) (ag_price a) (resp_price_ r) = true
  end.

Lemma fill_events_within x fill leaves :
  crosses (ag_side a) (ag_price a) (price_ x) = true →
  Forall within_limit (fill_events a x fill leaves).
Proof.
  intros Hx. unfold fill_events. repeat (apply Forall_cons; split); simpl; try done.
  by destruct (_ =? 0).
Qed.

#[local] Opaque fill_events.

Lemma fill_queue_leaves leaves q l q2 evs :
  0 ≤ leaves → Forall (λ x, 0 < qty_ x) q → fill_queue a leaves q = (l, q2, evs) → 0 ≤ l ≤ leaves.
Proof.
  revert leaves l q2 evs. induction q as [|x q IH]; intros leaves l q2 evs Hl Hq; simpl.
  { intros [[<- <-]%pair_eq <-]%pair_eq. lia. }
  apply Forall_cons in Hq as [Hx Hq]. destruct (_ || _); [intros [[<- <-]%pair_eq <-]%pair_eq; lia|].
  destruct (Z.leb_spec (qty_ x) leaves); [|intros [[<- <-]%pair_eq <-]%pair_eq; lia].
  destruct (fill_queue a (leaves - qty_ x) q) as [[l' q'] evs'] eqn:E.
  intros [[<- <-]%pair_eq <-]%pair_eq. apply IH in E; [lia|lia|done].
Qed.

(** Conservation: what the aggressor loses, the resting side loses, and both
    equal what was printed. *)
Lemma fill_queue_conserves leaves q l q2 evs :
  fill_queue a leaves q = (l, q2, evs) →
  leaves - l = traded_qty evs ∧ total_qty q - total_qty q2 = traded_qty evs.
Proof.
  revert leaves l q2 evs. induction q as [|x q IH]; intros leaves l q2 evs; simpl.
  { intros [[<- <-]%pair_eq <-]%pair_eq. simpl. lia. }
  destruct (_ || _); [intros [[<- <-]%pair_eq <-]%pair_eq; simpl; lia|].
  destruct (Z.leb_spec (qty_ x) leaves).
  - destruct (fill_queue a (leaves - qty_ x) q) as [[l' q'] evs'] eqn:E.
    intros [[<- <-]%pair_eq <-]%pair_eq. apply IH in E. rewrite traded_qty_app, traded_fill_events. lia.
  - intros [[<- <-]%pair_eq <-]%pair_eq. rewrite traded_fill_events. simpl. lia.
Qed.

(** Price-time priority: the orders hit are a prefix of the queue; all but
    possibly the last are filled completely, and the rest is untouched. *)
Inductive consumed : list MEOrder → list MEOrder → Prop :=
| consumed_full q1 q2 : consumed (q1 ++ q2) q2
| consumed_part q1 x n q2 :
    0 < n < qty_ x → consumed (q1 ++ x :: q2) (set_qty n x :: q2).

Lemma consumed_cons x q q' : consumed q q' → consumed (x :: q) q'.
Proof.
  intros [q1 q2|q1 y n q2 Hn];
    [exact (consumed_full (x :: q1) q2)|exact (consumed_part (x :: q1) y n q2 Hn)].
Qed.

Lemma fill_queue_consumed leaves q l q2 evs :
  0 ≤ leaves → Forall (λ x, 0 < qty_ x) q → fill_queue a leaves q = (l, q2, evs) → consumed q q2.
Proof.
  revert leaves l q2 evs. induction q as [|x q IH]; intros leaves l q2 evs Hl Hq; simpl.
  { intros [[<- <-]%pair_eq <-]%pair_eq. exact (consumed_full [] []). }
  apply Forall_cons in Hq as [Hx Hq].
  destruct ((leaves =? 0) || _) eqn:Ec; [intros [[<- <-]%pair_eq <-]%pair_eq; exact (consumed_full [] _)|].
  destruct (Z.leb_spec (qty_ x) leaves).
  - destruct (fill_queue a (leaves - qty_ x) q) as [[l' q'] evs'] eqn:E.
    intros [[<- <-]%pair_eq <-]%pair_eq. apply consumed_cons.
    eapply IH; [|done|exact E]. lia.
  - intros [[<- <-]%pair_eq <-]%pair_eq. apply (consumed_part []).
    apply orb_false_iff in Ec as [Ec _]. lia.
Qed.

(** When something is left, nothing on the other side crosses any more. *)
Lemma fill_queue_uncrosses s leaves q l q2 evs :
  0 ≤ leaves → Forall (λ x, 0 < qty_ x) q → price_sorted s q → s = opposite (ag_side a) →
  proper_side (ag_side a) → fill_queue a leaves q = (l, q2, evs) → l ≠ 0 →
  ∀ x, x ∈ q2 → crosses (ag_side a) (ag_price a) (price_ x) = false.
Proof.
  intros Hl Hq Hso -> Hp. revert leaves l q2 evs Hl Hq Hso.
  induction q as [|x q IH]; intros leaves l q2 evs Hl Hq Hso; simpl.
  { intros [[<- <-]%pair_eq <-]%pair_eq _ y ?%elem_of_nil. done. }
  apply Forall_cons in Hq as [Hx Hq]. apply StronglySorted_inv in Hso as [Hso Hhd].
  destruct (Z.eqb_spec leaves 0) as [->|]; simpl; [intros [[<- <-]%pair_eq <-]%pair_eq; done|].
  destruct (negb (crosses _ _ (price_ x))) eqn:En.
  - apply negb_true_iff in En. intros [[<- <-]%pair_eq <-]%pair_eq _ y [->|Hy]%elem_of_cons; [done|].
    rewrite Forall_forall in Hhd. specialize (Hhd y Hy). simpl in Hhd.
    unfold crosses, better in *. destruct Hp as [E|E]; rewrite E in *; simpl in *; lia.
  - destruct (Z.leb_spec (qty_ x) leaves); [|intros [[<- <-]%pair_eq <-]%pair_eq; done].
    destruct (fill_queue a (leaves - qty_ x) q) as [[l' q'] evs'] eqn:E.
    intros [[<- <-]%pair_eq <-]%pair_eq. eapply IH; [|done|done|exact E]; lia.
Qed.

Lemma fill_queue_within leaves q l q2 evs :
  fill_queue a leaves q = (l, q2, evs) → Forall within_limit evs.
Proof.
  revert leaves l q2 evs. induction q as [|x q IH]; intros leaves l q2 evs; simpl.
  { intros [[<- <-]%pair_eq <-]%pair_eq. constructor. }
  destruct (leaves =? 0); simpl; [intros [[<- <-]%pair_eq <-]%pair_eq; constructor|].
  destruct (negb (crosses _ _ (price_ x))) eqn:En; [intros [[<- <-]%pair_eq <-]%pair_eq; constructor|].
  apply negb_false_iff in En.
  destruct (qty_ x <=? leaves).
  - destruct (fill_queue a (leaves - qty_ x) q) as [[l' q'] evs'] eqn:E.
    intros [[<- <-]%pair_eq <-]%pair_eq. apply Forall_app. split; [by apply fill_events_within|by eapply IH].
  - intros [[<- <-]%pair_eq <-]%pair_eq. by apply fill_events_within.
Qed.
End Fill.

(** ** Shrinking of the opposite side *)

Lemma consumed_suffix {A} (f : MEOrder → A) q q2 :
  (∀ n x, f (set_qty n x) = f x) → consumed q q2 → (f <$> q2) `suffix_of` (f <$> q).
Proof.
  intros Hf [q1 q'|q1 x n q' _]; rewrite fmap_app; [by exists (f <$> q1)|].
  exists (f <$> q1). simpl. by rewrite Hf.
Qed.

Lemma consumed_elem {A} (f : MEOrder → A) q q2 v :
  (∀ n x, f (set_qty n x) = f x) → consumed q q2 → v ∈ f <$> q2 → v ∈ f <$> q.
Proof.
  intros Hf Hc Hv. destruct (consumed_suffix f q q2 Hf Hc) as [pre ->]. by apply elem_of_app; right.
Qed.

Lemma consumed_length q q2 : consumed q q2 → (length q2 ≤ length q)%nat.
Proof. intros [?|?]; rewrite length_app; simpl; lia. Qed.

(** An invariant of orders that allows for a smaller positive quantity. *)
Lemma consumed_Forall (P : MEOrder → Prop) q q2 :
  (∀ n x, P x → 0 < n < qty_ x → P (set_qty n x)) → consumed q q2 → Forall P q → Forall P q2.
Proof.
  intros HP [q1 q'|q1 x n q' Hn]; rewrite Forall_app; [tauto|].
  rewrite !Forall_cons. intros (_ & Hx & ?). auto.
Qed.

Lemma consumed_sorted (R : relation MEOrder) q q2 :
  (∀ n x y, R x y → R (set_qty n x) y) → consumed q q2 → StronglySorted R q → StronglySorted R q2.
Proof.
  intros HR [q1 q'|q1 x n q' Hn] (_ & _ & Hs)%StronglySorted_app; [done|].
  apply StronglySorted_inv in Hs as [Hs Hx]. constructor; [done|].
  eapply Forall_impl; [exact Hx|]. intros y. apply HR.
Qed.
