(* ===== verification/MERefine.v ===== *)
(** * The code of the order book implements its specification.

    [me_rep ob sp]: the pointer structure of [ob] stores the abstract book of
    [sp].  [add_ok] and [cancel_ok] are the functional refinement: on every
    request the exchange can accept, the handler returns (the matching loop does
    not run out of fuel), sends exactly the messages of [spec_add] and
    [spec_cancel] in order, and re-establishes [me_rep]. *)

From stdpp Require Import gmap list sorting.
From S2P Require Import Prelude MemPool Types BookCore BookSpec BookRep BookRemove BookRefine MEOrderBook MESpec.

Open Scope Z_scope.
Local Coercion Z.of_nat : nat >-> Z.

Definition qty_ok (x : MEOrder) : Prop := 0 < qty_ x < 2 ^ 32.

Definition me_rep (ob : MEOrderBook) (sp : MESpec) : Prop :=
  rep (me_book ob) (sp_book sp) ∧ next_market_order_id_ ob = sp_next_id sp
  ∧ Forall qty_ok (ab_all (sp_book sp)).

Lemma emit_all_app {E} `{!EngineSink E} evs1 evs2 (e : E) :
  emit_all (evs1 ++ evs2) e = emit_all evs2 (emit_all evs1 e).
Proof. apply foldl_app. Qed.

Lemma emit_all_cons {E} `{!EngineSink E} ev evs (e : E) : emit_all (ev :: evs) e = emit_all evs (emit e ev).
Proof. done. Qed.

Lemma set_qty_data n : data_update (set_qty n).
Proof. by split; intros []. Qed.

Lemma u32_small z : 0 ≤ z < 2 ^ 32 → u32 z = z.
Proof. intros. unfold wrap. by apply Z.mod_small. Qed.

(** The loops' stopping test is the spec's. *)
Lemma no_cross_crosses s limit p : no_cross s limit p = negb (crosses s limit p).
Proof. unfold no_cross, crosses. destruct (is_buy s); apply Z.ltb_antisym. Qed.

Section Match.
Context {E : Type} `{!EngineSink E}.
Context (a : aggressor).
Abbreviation opp := (opposite (ag_side a)).
Implicit Types (ab : absbook MEOrder) (e : E).

(** What is left of the best order [x] after a fill of [leaves] shares. *)
Definition after_fill (leaves : Z) (x : MEOrder) (q : list MEOrder) : list MEOrder :=
  if qty_ x <=? leaves then q else set_qty (qty_ x - leaves) x :: q.

Lemma match_ok b ab x q i leaves e :
  rep b ab → ab_side ab opp = x :: q → order_index_ b !! ord_key x = Some i →
  erase (order b i) = x → qty_ok x → 0 < leaves < 2 ^ 32 →
  let fill := Z.min leaves (qty_ x) in
  ∃ b', match_ (ag_ticker a) (ag_client a) (ag_side a) (ag_oid a) (ag_moid a) i leaves b e
        = Ok (leaves - fill, b', emit_all (fill_events a x fill (leaves - fill)) e)
      ∧ rep b' (set_ab_side ab opp (after_fill leaves x q)).
Proof.
  intros Hr Hq Hi Hx Hqx Hl fill. pose proof (rep_keys _ _ Hr) as Hnd. unfold qty_ok in Hqx.
  pose proof (proper_opposite (ag_side a)) as Hopp.
  assert (Eq : qty_ (order b i) = qty_ x) by by subst x.
  set (b1 := with_order i (set_qty (qty_ x - fill)) b).
  assert (Hr1 : rep b1 (set_ab_side ab opp (set_qty (qty_ x - fill) x :: q))).
  { rewrite <- (ab_update_head ab opp x q (set_qty (qty_ x - fill))) by done.
    by apply rep_update; [|apply set_qty_data|]. }
  assert (Eo : order b1 i = set_qty (qty_ x - fill) (order b i))
    by (unfold b1; by rewrite order_with_order, decide_True).
  unfold match_. rewrite Eq, !u32_small by lia. fold fill b1. rewrite Eo.
  unfold emit_all, fill_events; simpl.
  unfold after_fill. destruct (Z.leb_spec (qty_ x) leaves) as [Hle|Hgt].
  - assert (fill = qty_ x) as Hf by lia. rewrite (proj2 (Z.eqb_eq (qty_ x - fill) 0)) by lia. simpl.
    assert (order_index_ b1 !! ord_key (set_qty (qty_ x - fill) x) = Some i) as Hi1 by done.
    destruct (rep_remove b1 _ _ i Hr1 Hi1) as (b' & Erm & Hr' & _).
    rewrite (ab_remove_head _ opp (set_qty (qty_ x - fill) x) q) in Hr';
      [|done|by apply (rep_keys b1)|by rewrite ab_side_set, decide_True].
    rewrite set_ab_side_twice in Hr'.
    rewrite Erm. exists b'. split; [|done]. by subst x.
  - assert (fill = leaves) as Hf by lia.
    rewrite (proj2 (Z.eqb_neq (qty_ x - fill) 0)) by lia. simpl.
    eexists. split; [by subst x|]. by rewrite <- Hf.
Qed.

(** The matching loop computes [fill_queue], within [length q] iterations. *)
Lemma checkForMatch_loop_ok fuel b ab leaves e :
  rep b ab → Forall qty_ok (ab_side ab opp) → 0 ≤ leaves < 2 ^ 32 →
  (length (ab_side ab opp) ≤ fuel)%nat →
  let '(l, q, evs) := fill_queue a leaves (ab_side ab opp) in
  ∃ b', checkForMatch_loop fuel (ag_client a) (ag_oid a) (ag_ticker a) (ag_side a) opp (ag_price a)
          (ag_moid a) leaves b e = Ok (l, b', emit_all evs e)
      ∧ rep b' (set_ab_side ab opp q).
Proof.
  pose proof (proper_opposite (ag_side a)) as Hopp.
  remember (ab_side ab opp) as q eqn:Hq. symmetry in Hq.
  revert fuel b ab leaves e Hq. induction q as [|x q IH]; intros fuel b ab leaves e Hq Hr Hqt Hl Hfuel.
  - pose proof (rep_best b ab opp Hr Hopp) as Hbest. rewrite Hq in Hbest.
    simpl. exists b. rewrite <- Hq, set_ab_side_same. split; [|done].
    destruct fuel; simpl; rewrite Hbest; by destruct (leaves =? 0).
  - pose proof (rep_best b ab opp Hr Hopp) as Hbest. rewrite Hq in Hbest.
    destruct Hbest as (lp & i & Hh & Hf & Hx & Hi). apply Forall_cons in Hqt as [Hqx Hqt].
    assert (price_ (order b i) = price_ x) as Epx by by subst x.
    cbn [fill_queue]. destruct fuel as [|fuel]; [simpl in Hfuel; lia|].
    cbn [checkForMatch_loop]. rewrite Hh, Hf. cbn [rbind deref]. rewrite Epx.
    destruct (Z.eqb_spec leaves 0) as [->|Hne]; cbn [orb].
    { exists b. split; [done|]. by rewrite <- Hq, set_ab_side_same. }
    rewrite no_cross_crosses. destruct (negb (crosses (ag_side a) (ag_price a) (price_ x))).
    { exists b. split; [done|]. by rewrite <- Hq, set_ab_side_same. }
    destruct (match_ok b ab x q i leaves e Hr Hq Hi Hx Hqx ltac:(lia)) as (b1 & -> & Hr1).
    cbn [rbind]. unfold after_fill in Hr1. unfold qty_ok in Hqx.
    destruct (Z.leb_spec (qty_ x) leaves) as [Hle|Hgt].
    + rewrite Z.min_r by lia.
      specialize (IH fuel b1 (set_ab_side ab opp q) (leaves - qty_ x)
        (emit_all (fill_events a x (qty_ x) (leaves - qty_ x)) e)).
      destruct (fill_queue a (leaves - qty_ x) q) as [[l q2] evs].
      destruct IH as (b' & -> & Hr'); [by rewrite ab_side_set, decide_True|done|done|lia|simpl in Hfuel; lia|].
      exists b'. rewrite set_ab_side_twice in Hr'. by rewrite emit_all_app.
    + rewrite Z.min_l, Z.sub_diag by lia. exists b1. split; [|done].
      by destruct fuel.
Qed.
End Match.

(** ** [add] *)

(** The requests the exchange is built for: a proper side, a client and order id
    within the index array and not resting already, no other resting price with
    the same price index, and room in the pools. *)
Record valid_new (client_id oid : Z) (side : Side) (price qty : Z) (ab : absbook MEOrder) : Prop := {
  vn_side : proper_side side;
  vn_key : cid_oid_in_range (client_id, oid) = true;
  vn_fresh : (client_id, oid) ∉ ord_key <$> ab_all ab;
  vn_qty : 0 ≤ qty < 2 ^ 32;
  vn_price : ∀ x, x ∈ ab_all ab → priceToIndex (price_ x) = priceToIndex price → price_ x = price;
  vn_room : has_room ab }.

(** The same as a test. *)
Definition has_roomb {Ord K} `{Countable K} `{!OrderNode Ord K} (ab : absbook Ord) : bool :=
  (length (ab_all ab) + 1 <? ME_MAX_ORDER_IDS)
  && (num_levels (ab_bids ab) + num_levels (ab_asks ab) + 1 <? ME_MAX_PRICE_LEVELS).

Lemma has_roomb_sound {Ord K} `{Countable K} `{!OrderNode Ord K} (ab : absbook Ord) : has_roomb ab → has_room ab.
Proof. unfold has_roomb, has_room. rewrite Is_true_true, andb_true_iff. lia. Qed.

Definition valid_newb (client_id oid : Z) (side : Side) (price qty : Z) (ab : absbook MEOrder) : bool :=
  bool_decide (proper_side side) && cid_oid_in_range (client_id, oid)
  && forallb (λ x, negb ((client_id_ x =? client_id) && (client_order_id_ x =? oid))) (ab_all ab)
  && (0 <=? qty) && (qty <? 2 ^ 32)
  && forallb (λ x, negb (priceToIndex (price_ x) =? priceToIndex price) || (price_ x =? price)) (ab_all ab)
  && has_roomb ab.

Lemma valid_newb_sound client_id oid side price qty ab :
  valid_newb client_id oid side price qty ab = true → valid_new client_id oid side price qty ab.
Proof.
  unfold valid_newb, has_roomb. rewrite !andb_true_iff, !forallb_forall.
  intros ((((((Hs & Hk) & Hf) & Hq1) & Hq2) & Hp) & Hr1 & Hr2).
  split; [by apply bool_decide_eq_true in Hs|done|..|lia| |unfold has_room; lia].
  - intros (x & E & Hx%list_elem_of_In)%list_elem_of_fmap. specialize (Hf x Hx). simpl in E.
    injection E as -> ->. rewrite !Z.eqb_refl in Hf. done.
  - intros x Hx%list_elem_of_In E. specialize (Hp x Hx). rewrite E, Z.eqb_refl in Hp. simpl in Hp. lia.
Qed.

Lemma Forall_ab {Ord} (P : Ord → Prop) (ab : absbook Ord) s :
  proper_side s → Forall P (ab_all ab) ↔ Forall P (ab_side ab s) ∧ Forall P (ab_side ab (opposite s)).
Proof. intros Hp. by rewrite (ab_all_split ab s Hp), Forall_app. Qed.

Lemma opposite_involutive s : proper_side s → opposite (opposite s) = s.
Proof. by intros [-> | ->]. Qed.

Lemma ab_side_set_opposite {Ord} (ab : absbook Ord) s q :
  proper_side s → ab_side (set_ab_side ab (opposite s) q) s = ab_side ab s.
Proof. by intros [-> | ->]. Qed.

Lemma checkForMatch_ok {E} `{!EngineSink E} (a : aggressor) b ab qty (e : E) :
  proper_side (ag_side a) → rep b ab → Forall qty_ok (ab_all ab) → 0 ≤ qty < 2 ^ 32 →
  let '(l, q, evs) := fill_queue a qty (ab_side ab (opposite (ag_side a))) in
  ∃ b', checkForMatch (ag_client a) (ag_oid a) (ag_ticker a) (ag_side a) (ag_price a) qty (ag_moid a) b e
        = Ok (l, b', emit_all evs e) ∧ rep b' (set_ab_side ab (opposite (ag_side a)) q).
Proof.
  intros Hs Hr Hqt Hq.
  pose proof (checkForMatch_loop_ok a (Z.to_nat (store_size (order_pool_ b))) b ab qty e Hr) as Hl.
  destruct (fill_queue a qty _) as [[l q] evs].
  destruct Hl as (b' & El & Hr').
  - by apply (Forall_ab _ _ _ Hs) in Hqt as [_ ?].
  - done.
  - pose proof (rep_length b ab Hr) as Hlen. destruct Hr as (_ & _ & _ & _ & -> & _).
    rewrite (Permutation_length (ab_all_split ab _ Hs)), length_app in Hlen. lia.
  - exists b'. split; [|done]. unfold checkForMatch.
    destruct Hs as [Es|Es]; rewrite Es in *.
    + change (is_buy BUY) with true. change (is_sell BUY) with false. change (opposite BUY) with SELL in El.
      cbn [rbind]. by rewrite El.
    + change (is_buy SELL) with false. change (is_sell SELL) with true. change (opposite SELL) with BUY in El.
      cbn [rbind]. by rewrite El.
Qed.

Lemma getNextPriority_ok b ab s p :
  rep b ab → proper_side s → no_collision (ab_side ab) s p →
  getNextPriority p b = Ok (next_priority p (ab_side ab s)).
Proof.
  intros Hr Hs Hnc. pose proof (rep_last_at_price b ab s p Hr Hs Hnc) as Hl.
  unfold getNextPriority, next_priority. destruct (last _) as [x|].
  - destruct Hl as (lp & first & prv & -> & -> & Hp & Hx). simpl. simpl in Hp. rewrite Hp. simpl.
    by subst x.
  - by rewrite Hl.
Qed.

(** The state of the book between matching and resting. *)
Lemma no_collision_after_match a ab q :
  proper_side (ag_side a) →
  (∀ x, x ∈ ab_all ab → priceToIndex (price_ x) = priceToIndex (ag_price a) → price_ x = ag_price a) →
  consumed (ab_side ab (opposite (ag_side a))) q →
  (∀ x, x ∈ q → crosses (ag_side a) (ag_price a) (price_ x) = false) →
  no_collision (ab_side (set_ab_side ab (opposite (ag_side a)) q)) (ag_side a) (ag_price a).
Proof.
  intros Hs Hpr Hc Hnx s' x Hs' Hx Hidx. simpl in Hidx.
  destruct (decide (s' = ag_side a)) as [->|Hne].
  - split; [done|]. rewrite ab_side_set_opposite in Hx by done.
    apply Hpr; [|done]. apply elem_of_ab_all. eauto.
  - exfalso. apply not_eq_sym, not_opposite in Hne; [|done..]. subst s'.
    rewrite ab_side_set, decide_True in Hx by (done || apply proper_opposite).
    assert (price_ x ∈ price_ <$> ab_side ab (opposite (ag_side a))) as (y & Ey & Hy)%list_elem_of_fmap.
    { apply (consumed_elem price_ _ q); [by intros ? []|done|by apply list_elem_of_fmap_2]. }
    assert (price_ x = ag_price a) as E.
    { rewrite Ey in Hidx |- *. apply Hpr; [|done]. apply elem_of_ab_all.
      exists (opposite (ag_side a)). split; [apply proper_opposite|done]. }
    specialize (Hnx x Hx). rewrite E in Hnx. unfold crosses in Hnx. destruct (is_buy _); lia.
Qed.

Lemma Forall_qty_pos q : Forall qty_ok q → Forall (λ x, 0 < qty_ x) q.
Proof. intros Hq. eapply Forall_impl; [exact Hq|]. unfold qty_ok. intros; lia. Qed.

(** The remaining opposite side after matching satisfies what the resting of
    the residual needs. *)
Lemma after_match_ok (a : aggressor) ab qty l q evs :
  price_sorted (opposite (ag_side a)) (ab_side ab (opposite (ag_side a))) →
  Forall qty_ok (ab_all ab) →
  valid_new (ag_client a) (ag_oid a) (ag_side a) (ag_price a) qty ab →
  fill_queue a qty (ab_side ab (opposite (ag_side a))) = (l, q, evs) →
  let ab' := set_ab_side ab (opposite (ag_side a)) q in
  0 ≤ l < 2 ^ 32 ∧ consumed (ab_side ab (opposite (ag_side a))) q ∧ Forall qty_ok (ab_all ab')
  ∧ has_room ab' ∧ ((ag_client a, ag_oid a) ∉ ord_key <$> ab_all ab')
  ∧ (l ≠ 0 → no_collision (ab_side ab') (ag_side a) (ag_price a)).
Proof.
  intros Hso Hqt [Hs _ Hfr Hq Hpr Hroom] Hfill ab'.
  pose proof (proper_opposite (ag_side a)) as Ho.
  pose proof Hqt as Hqt'. apply (Forall_ab _ _ _ Hs) in Hqt' as [Hq1 Hq2].
  pose proof (Forall_qty_pos _ Hq2) as Hpos.
  assert (Hc : consumed (ab_side ab (opposite (ag_side a))) q)
    by (eapply fill_queue_consumed; [|done|exact Hfill]; lia).
  pose proof (fill_queue_leaves _ _ _ _ _ _ (proj1 Hq) Hpos Hfill) as Hl.
  assert (Hside : ab_side ab' (ag_side a) = ab_side ab (ag_side a)) by by apply ab_side_set_opposite.
  assert (Hopp : ab_side ab' (opposite (ag_side a)) = q)
    by (unfold ab'; by rewrite ab_side_set, decide_True).
  split_and!; [lia|lia|done|..].
  - apply (Forall_ab _ _ _ Hs). rewrite Hside, Hopp. split; [done|].
    apply (consumed_Forall qty_ok (ab_side ab (opposite (ag_side a)))); [|done..].
    unfold qty_ok. intros n x Hx Hn. simpl. lia.
  - apply has_room_shrink; [done|by apply consumed_length| |done].
    intros p. by apply consumed_elem.
  - rewrite (ab_all_split ab' _ Hs), Hside, Hopp, fmap_app, elem_of_app.
    rewrite (ab_all_split ab _ Hs), fmap_app, elem_of_app in Hfr.
    intros [Hin|Hin]; apply Hfr; [by left|right]. by apply (consumed_elem ord_key _ q).
  - intros Hne. apply no_collision_after_match; [done..|].
    eapply fill_queue_uncrosses; [..|exact Hfill|done]; [lia|done|done|done|done].
Qed.

Lemma add_ok {E} `{!EngineSink E} client_id oid ticker_id side price qty ob sp (e : E) :
  me_rep ob sp → valid_new client_id oid side price qty (sp_book sp) →
  let '(sp', evs) := spec_add client_id oid ticker_id side price qty sp in
  ∃ ob', add client_id oid ticker_id side price qty ob e = Ok (ob', emit_all evs e) ∧ me_rep ob' sp'
       ∧ me_ticker_id_ ob' = me_ticker_id_ ob.
Proof.
  intros (Hr & Hid & Hqt) Hv. unfold spec_add, add. simpl.
  set (id := sp_next_id sp) in *. rewrite Hid.
  set (a := mkAggressor ticker_id client_id oid (u32 id) side price).
  set (acc := mkMEClientResponse ACCEPTED client_id ticker_id oid id side price 0 qty).
  pose proof (checkForMatch_ok a (me_book ob) (sp_book sp) qty (sendClientResponse acc e)
    (vn_side _ _ _ _ _ _ Hv) Hr Hqt (vn_qty _ _ _ _ _ _ Hv)) as Hm.
  pose proof (rep_sorted _ _ (opposite side) Hr (proper_opposite side)) as Hso.
  pose proof (after_match_ok a (sp_book sp) qty) as Ha. simpl in Hm, Ha.
  destruct (fill_queue a qty (ab_side (sp_book sp) (opposite side))) as [[l q] evs].
  destruct Hm as (b1 & -> & Hr1). destruct (Ha l q evs Hso Hqt Hv eq_refl) as (Hl & Hc & Hqt1 & Hroom & Hfr & Hnc).
  cbn [rbind]. destruct (Z.eqb_spec l 0) as [->|Hne].
  - eexists. split; [done|]. done.
  - specialize (Hnc Hne). set (ab1 := set_ab_side (sp_book sp) (opposite side) q) in *.
    rewrite (getNextPriority_ok b1 ab1 side price Hr1 (vn_side _ _ _ _ _ _ Hv) Hnc). cbn [rbind].
    set (o := mkMEOrder ticker_id client_id oid id side price l (next_priority price (ab_side ab1 side)) None None).
    destruct (rep_add b1 ab1 o side) as (optr & p & b2 & Eal & Ead & Hr2); try done;
      [apply Hv|apply Hv|].
    assert (allocate o (order_pool_ b1) = Ok (optr, p)) as -> by exact Eal.
    cbn [rbind]. rewrite Ead. cbn [rbind].
    eexists. split; [by rewrite emit_all_cons, emit_all_app|]. split_and!; [split_and!|]; try done. simpl.
    apply (Forall_ab _ _ _ (vn_side _ _ _ _ _ _ Hv)).
    pose proof (proj1 (Forall_ab _ _ side (vn_side _ _ _ _ _ _ Hv)) Hqt1) as [F1 F2].
    pose proof (vn_side _ _ _ _ _ _ Hv) as Hs. pose proof (opposite_ne side).
    rewrite !ab_side_set, decide_True, decide_False by (done || apply proper_opposite).
    split; [|done]. rewrite insert_order_perm. constructor; [|done]. unfold qty_ok. simpl. lia.
Qed.

(** ** [cancel] *)

Lemma find_order_Some client_id oid ab x :
  find_order client_id oid ab = Some x → x ∈ ab_all ab ∧ ord_key x = (client_id, oid).
Proof.
  unfold find_order. destruct (list_find _ _) as [[i y]|] eqn:Ef; [|done]. intros [= ->].
  apply list_find_Some in Ef as (Hi & Hk & _). split; [|done]. by eapply list_elem_of_lookup_2.
Qed.

Lemma find_order_None client_id oid ab :
  find_order client_id oid ab = None → (client_id, oid) ∉ ord_key <$> ab_all ab.
Proof.
  unfold find_order. destruct (list_find _ _) as [[i y]|] eqn:Ef; [done|]. intros _.
  apply list_find_None in Ef. rewrite Forall_forall in Ef.
  intros (x & Hk & Hx)%list_elem_of_fmap. by apply (Ef x Hx).
Qed.

(** The handler on an order id the index array can hold; a client id outside it
    is rejected as well. *)
Lemma cancel_ok {E} `{!EngineSink E} client_id oid ticker_id ob sp (e : E) :
  me_rep ob sp → 0 ≤ oid < ME_MAX_ORDER_IDS →
  let '(sp', evs) := spec_cancel client_id oid ticker_id sp in
  ∃ ob', cancel client_id oid ticker_id ob e = Ok (ob', emit_all evs e) ∧ me_rep ob' sp'
       ∧ me_ticker_id_ ob' = me_ticker_id_ ob.
Proof.
  intros (Hr & Hid & Hqt) Hoid. unfold spec_cancel, cancel.
  rewrite (proj2 (Z.ltb_lt oid ME_MAX_ORDER_IDS)) by lia.
  destruct (find_order client_id oid (sp_book sp)) as [x|] eqn:Ef.
  - apply find_order_Some in Ef as [Hx Hk].
    pose proof (rep_key_range _ _ _ Hr Hx) as Hrange. rewrite Hk in Hrange. simpl in Hrange.
    unfold cid_oid_in_range in Hrange. simpl in Hrange.
    rewrite (proj2 (Z.ltb_lt client_id ME_MAX_NUM_CLIENTS)) by lia. cbn [rbind].
    destruct (rep_lookup_Some _ _ x Hr Hx) as (i & Hi & Hex). rewrite Hk in Hi. rewrite Hi.
    destruct (rep_remove _ _ _ i Hr Hi) as (b' & -> & Hr' & _). cbn [rbind].
    eexists. split; [by subst x|]. split_and!; [split_and!|]; try done. simpl.
    apply Forall_forall. intros y (s & Hs & Hy)%elem_of_ab_all.
    rewrite ab_side_map in Hy. apply list_elem_of_filter in Hy as [_ Hy].
    rewrite Forall_forall in Hqt. apply Hqt, elem_of_ab_all. eauto.
  - apply find_order_None, (rep_lookup_None _ _ _ Hr) in Ef.
    assert ((if client_id <? ME_MAX_NUM_CLIENTS
             then Ok (order_index_ (me_book ob) !! (client_id, oid)) else Ok None) = Ok None) as ->.
    { rewrite Ef. by destruct (_ <? _). }
    cbn [rbind]. exists ob. done.
Qed.

(** An order id beyond the index array throws out of a [noexcept] handler. *)
Lemma cancel_out_of_range {E} `{!EngineSink E} client_id oid ticker_id ob (e : E) :
  client_id < ME_MAX_NUM_CLIENTS → ME_MAX_ORDER_IDS ≤ oid →
  cancel client_id oid ticker_id ob e = Err OutOfRange.
Proof.
  intros Hc Ho. unfold cancel. rewrite (proj2 (Z.ltb_lt _ _)) by lia.
  by rewrite (proj2 (Z.ltb_ge _ _)) by lia.
Qed.
