(* ===== verification/MEInv.v ===== *)
(** * The invariant of the exchange's order book.

    [book_inv]: quantities positive and 32-bit, bids strictly below asks, each
    side in price priority and in time priority within a price, market order
    ids unique and below the next one.  It is preserved by [spec_add] and
    [spec_cancel]; with the refinement of MERefine.v it holds of every state the
    code reaches by a run of valid requests ([run_book_ok]). *)

From stdpp Require Import gmap list sorting.
From S2P Require Import Prelude MemPool Types BookCore BookSpec BookRep BookRemove BookRefine MEOrderBook MESpec MERefine.

Open Scope Z_scope.
Local Coercion Z.of_nat : nat >-> Z.

(** [x] is ahead of [y] in time if they are at the same price. *)
Definition earlier (x y : MEOrder) : Prop :=
  price_ x = price_ y → priority_ x < priority_ y ∧ market_order_id_ x < market_order_id_ y.

Definition ids_ok (next : Z) (x : MEOrder) : Prop :=
  0 < priority_ x ≤ market_order_id_ x ∧ market_order_id_ x < next.

Record book_inv (sp : MESpec) : Prop := {
  bi_qty : Forall qty_ok (ab_all (sp_book sp));
  bi_uncrossed : ∀ x y, x ∈ ab_bids (sp_book sp) → y ∈ ab_asks (sp_book sp) → price_ x < price_ y;
  bi_sorted : ∀ s, proper_side s → price_sorted s (ab_side (sp_book sp) s);
  bi_fifo : ∀ s, proper_side s → StronglySorted earlier (ab_side (sp_book sp) s);
  bi_ids : Forall (ids_ok (sp_next_id sp)) (ab_all (sp_book sp));
  bi_next : 0 < sp_next_id sp;
  bi_unique : NoDup (market_order_id_ <$> ab_all (sp_book sp)) }.

Definition MESpec_new : MESpec := mkMESpec (mkAbs [] []) 1.

Lemma book_inv_new : book_inv MESpec_new.
Proof.
  split; simpl; try done; try (intros s [-> | ->]; constructor); try constructor.
  by intros x y ?%elem_of_nil.
Qed.

(** A book created in memory of zeros stores the empty book. *)
Lemma me_rep_new ticker_id : me_rep (MEOrderBook_new zeroed ticker_id) MESpec_new.
Proof. split_and!; [apply rep_new|done|constructor]. Qed.

(** ** Both sides at once *)

(** [bi_uncrossed], seen from the side of an order. *)
Lemma uncrossed_sides ab s :
  proper_side s →
  (∀ x y, x ∈ ab_bids ab → y ∈ ab_asks ab → price_ x < price_ y) ↔
  (∀ x y, x ∈ ab_side ab s → y ∈ ab_side ab (opposite s) → crosses s (price_ x) (price_ y) = false).
Proof.
  intros [-> | ->]; unfold ab_side, crosses; simpl; split; intros Hu x y Hx Hy.
  1, 2: specialize (Hu x y Hx Hy); lia.
  1, 2: specialize (Hu y x Hy Hx); lia.
Qed.

Lemma next_priority_fresh p q (next : Z) :
  StronglySorted earlier q → Forall (ids_ok next) q → 0 < next < 2 ^ 64 →
  0 < next_priority p q ≤ next ∧ ∀ x, x ∈ q → price_ x = p → priority_ x < next_priority p q.
Proof.
  intros Hs Hi Hn. unfold next_priority.
  assert (StronglySorted earlier (at_price p q)) as Hs'
    by (eapply StronglySorted_sublist; [apply sublist_filter|done]).
  assert (∀ x, x ∈ at_price p q ↔ price_ x = p ∧ x ∈ q) as Hat
    by (intros x; exact (list_elem_of_filter (λ x, price_ x = p) q x)).
  destruct (last (at_price p q)) as [z|] eqn:El.
  - apply last_Some in El as [l El].
    assert (z ∈ at_price p q) as [Hz Hzq]%Hat by (rewrite El; set_solver).
    rewrite Forall_forall in Hi. destruct (Hi z Hzq) as [Hpz Hiz].
    assert (u64 (priority_ z + 1) = priority_ z + 1) as -> by (unfold wrap; apply Z.mod_small; lia).
    split; [lia|]. intros x Hx Hp. assert (x ∈ at_price p q) as Hxa by by apply Hat.
    rewrite El in Hxa, Hs'. apply elem_of_app in Hxa as [Hxa|Hxa%list_elem_of_singleton]; [|subst; lia].
    apply StronglySorted_app in Hs' as (Hs' & _ & _).
    destruct (Hs' x z Hxa ltac:(set_solver)) as [? _]; [congruence|lia].
  - apply last_None in El. split; [lia|]. intros x Hx Hp.
    assert (x ∈ at_price p q) as Hxa by by apply Hat. rewrite El in Hxa. by apply elem_of_nil in Hxa.
Qed.

(** ** Matching keeps the invariant *)

Lemma book_inv_match (a : aggressor) sp qty l q evs :
  book_inv sp → proper_side (ag_side a) → 0 ≤ qty →
  fill_queue a qty (ab_side (sp_book sp) (opposite (ag_side a))) = (l, q, evs) →
  book_inv (mkMESpec (set_ab_side (sp_book sp) (opposite (ag_side a)) q) (sp_next_id sp)).
Proof.
  intros [Hqt Hun Hso Hff Hid Hn Huq] Hs Hq Hfill.
  set (ab := sp_book sp) in *. set (s := ag_side a) in *.
  pose proof (proper_opposite s) as Ho.
  apply (Forall_ab _ _ _ Hs) in Hqt as [Q1 Q2]. apply (Forall_ab _ _ _ Hs) in Hid as [I1 I2].
  assert (Hc : consumed (ab_side ab (opposite s)) q)
    by (eapply fill_queue_consumed; [|by apply Forall_qty_pos|exact Hfill]; lia).
  assert (Hside : ∀ s', proper_side s' → ab_side (set_ab_side ab (opposite s) q) s'
      = if decide (opposite s = s') then q else ab_side ab s') by (intros; by apply ab_side_set).
  assert (Hs1 : ab_side (set_ab_side ab (opposite s) q) s = ab_side ab s) by by apply ab_side_set_opposite.
  assert (Hs2 : ab_side (set_ab_side ab (opposite s) q) (opposite s) = q)
    by (by rewrite Hside, decide_True).
  split; cbn [sp_book sp_next_id].
  - apply (Forall_ab _ _ _ Hs). rewrite Hs1, Hs2. split; [done|].
    apply (consumed_Forall qty_ok (ab_side ab (opposite s))); [|done..].
    unfold qty_ok. intros n x Hx Hn'. simpl. lia.
  - apply (uncrossed_sides _ s Hs). rewrite Hs1, Hs2. intros x y Hx Hy.
    assert (price_ y ∈ price_ <$> ab_side ab (opposite s)) as (y' & -> & Hy')%list_elem_of_fmap.
    { by apply (consumed_elem price_ _ q), list_elem_of_fmap_2. }
    by apply (proj1 (uncrossed_sides ab s Hs) Hun).
  - intros s' Hs'. rewrite Hside by done. case_decide; [subst s'|by apply Hso].
    eapply consumed_sorted; [..|exact Hc|by apply Hso]. done.
  - intros s' Hs'. rewrite Hside by done. case_decide; [subst s'|by apply Hff].
    eapply consumed_sorted; [..|exact Hc|by apply Hff]. done.
  - apply (Forall_ab _ _ _ Hs). rewrite Hs1, Hs2. split; [done|].
    by apply (consumed_Forall (ids_ok (sp_next_id sp)) (ab_side ab (opposite s))).
  - done.
  - rewrite (ab_all_split _ s Hs), Hs1, Hs2. rewrite (ab_all_split _ s Hs) in Huq.
    rewrite fmap_app in Huq |- *.
    destruct (consumed_suffix market_order_id_ _ q (λ _ _, eq_refl) Hc) as [pre Epre].
    rewrite Epre in Huq. eapply sublist_NoDup; [exact Huq|]. apply sublist_app; [done|].
    by apply sublist_inserts_l.
Qed.

(** ** Resting an order keeps the invariant *)

Lemma book_inv_rest sp s o :
  book_inv sp → proper_side s → qty_ok o → 0 < sp_next_id sp → sp_next_id sp + 1 < 2 ^ 64 →
  (∀ y, y ∈ ab_side (sp_book sp) (opposite s) → crosses s (price_ o) (price_ y) = false) →
  market_order_id_ o = sp_next_id sp →
  priority_ o = next_priority (price_ o) (ab_side (sp_book sp) s) →
  book_inv (mkMESpec (set_ab_side (sp_book sp) s (insert_order s o (ab_side (sp_book sp) s)))
              (sp_next_id sp + 1)).
Proof.
  intros [Hqt Hun Hso Hff Hid _ Huq] Hs Hqo Hn Hn2 Hnx Hmo Hpo.
  set (ab := sp_book sp) in *. pose proof (proper_opposite s) as Ho. pose proof (opposite_ne s) as Hne.
  apply (Forall_ab _ _ _ Hs) in Hqt as [Q1 Q2]. apply (Forall_ab _ _ _ Hs) in Hid as [I1 I2].
  destruct (next_priority_fresh (price_ o) (ab_side ab s) (sp_next_id sp)) as [Hp1 Hp2];
    [by apply Hff|done|lia|].
  set (q := insert_order s o (ab_side ab s)).
  assert (Hside : ∀ s', proper_side s' → ab_side (set_ab_side ab s q) s'
      = if decide (s = s') then q else ab_side ab s') by (intros; by apply ab_side_set).
  assert (Hs1 : ab_side (set_ab_side ab s q) s = q) by by rewrite Hside, decide_True.
  assert (Hs2 : ab_side (set_ab_side ab s q) (opposite s) = ab_side ab (opposite s))
    by by rewrite Hside, decide_False.
  assert (Hperm : q ≡ₚ o :: ab_side ab s) by apply insert_order_perm.
  assert (∀ x, ids_ok (sp_next_id sp) x → ids_ok (sp_next_id sp + 1) x) as Hmono
    by (unfold ids_ok; intros; lia).
  split; cbn [sp_book sp_next_id].
  - apply (Forall_ab _ _ _ Hs). rewrite Hs1, Hs2, Hperm. by split; [constructor|].
  - apply (uncrossed_sides _ s Hs). rewrite Hs1, Hs2. intros x y. rewrite Hperm, elem_of_cons.
    intros [->|Hx] Hy; [by apply Hnx|]. by apply (proj1 (uncrossed_sides ab s Hs) Hun).
  - intros s' Hs'. rewrite Hside by done. case_decide; [subst s'|by apply Hso].
    by apply price_sorted_insert, Hso.
  - intros s' Hs'. rewrite Hside by done. case_decide; [subst s'|by apply Hff].
    apply insert_order_sorted; [by apply Hso|by apply Hff|..].
    + intros x Hx _ E. split; [rewrite Hpo; by apply Hp2|].
      rewrite Forall_forall in I1. destruct (I1 x Hx). lia.
    + simpl. intros x Hx Hb E. by rewrite E, better_irrefl in Hb.
  - apply (Forall_ab _ _ _ Hs). rewrite Hs1, Hs2, Hperm. split; [constructor|].
    + unfold ids_ok. lia.
    + eapply Forall_impl; [exact I1|done].
    + eapply Forall_impl; [exact I2|done].
  - lia.
  - rewrite (ab_all_split _ s Hs), Hs1, Hs2, Hperm. simpl. apply NoDup_cons. split.
    + rewrite <- (ab_all_split ab s Hs), Hmo. intros (x & E & Hx)%list_elem_of_fmap.
      rewrite (ab_all_split ab s Hs) in Hx. rewrite Forall_forall in I1, I2.
      apply elem_of_app in Hx as [Hx|Hx]; [destruct (I1 x Hx)|destruct (I2 x Hx)]; lia.
    + by rewrite <- (ab_all_split ab s Hs).
Qed.

(** ** The two handlers keep the invariant *)

Lemma not_crossed_after_match (a : aggressor) sp qty l q evs :
  book_inv sp → proper_side (ag_side a) → 0 ≤ qty →
  fill_queue a qty (ab_side (sp_book sp) (opposite (ag_side a))) = (l, q, evs) → l ≠ 0 →
  ∀ y, y ∈ q → crosses (ag_side a) (ag_price a) (price_ y) = false.
Proof.
  intros Hi Hs Hq Hfill Hl. eapply fill_queue_uncrosses; [..|exact Hfill|done]; try done.
  - apply (bi_qty _) in Hi. apply Forall_qty_pos. by apply (Forall_ab _ _ _ Hs) in Hi as [_ ?].
  - apply (bi_sorted _ Hi), proper_opposite.
Qed.

Lemma u64_next sp : 0 < sp_next_id sp → sp_next_id sp + 1 < 2 ^ 64 → u64 (sp_next_id sp + 1) = sp_next_id sp + 1.
Proof. intros. unfold wrap. apply Z.mod_small. lia. Qed.

Lemma book_inv_next sp n : book_inv sp → sp_next_id sp ≤ n → book_inv (mkMESpec (sp_book sp) n).
Proof.
  intros [] Hn. split; cbn [sp_book sp_next_id]; try done; [|lia].
  eapply Forall_impl; [done|]. unfold ids_ok. intros; lia.
Qed.

Lemma spec_add_inv client_id oid ticker_id side price qty sp :
  book_inv sp → proper_side side → 0 ≤ qty < 2 ^ 32 → sp_next_id sp + 1 < 2 ^ 64 →
  book_inv (spec_add client_id oid ticker_id side price qty sp).1.
Proof.
  intros Hi Hs Hq Hn. pose proof (bi_next _ Hi) as Hn0. unfold spec_add.
  set (a := mkAggressor _ _ _ _ _ _).
  destruct (fill_queue a qty _) as [[l q] evs] eqn:Hfill.
  pose proof (book_inv_match a sp qty l q evs Hi Hs ltac:(lia) Hfill) as Hi1. simpl in Hi1.
  rewrite u64_next by done. destruct (Z.eqb_spec l 0) as [->|Hne]; cbn [fst].
  - apply (book_inv_next (mkMESpec _ (sp_next_id sp))); [done|simpl; lia].
  - set (sp1 := mkMESpec _ (sp_next_id sp)) in Hi1.
    set (o := mkMEOrder _ _ _ _ _ _ _ _ _ _).
    apply (book_inv_rest sp1 side o Hi1 Hs); try done.
    + pose proof (bi_qty _ Hi) as Hqt. apply (Forall_ab _ _ side Hs) in Hqt as [_ Hqt].
      pose proof (fill_queue_leaves a qty _ l q evs ltac:(lia) (Forall_qty_pos _ Hqt) Hfill).
      unfold qty_ok. simpl. lia.
    + intros y. unfold sp1. simpl. rewrite ab_side_set, decide_True by (done || apply proper_opposite).
      apply (not_crossed_after_match a sp qty l q evs Hi Hs ltac:(lia) Hfill Hne).
Qed.

Lemma spec_cancel_inv client_id oid ticker_id sp :
  book_inv sp → book_inv (spec_cancel client_id oid ticker_id sp).1.
Proof.
  intros Hi. unfold spec_cancel. destruct (find_order _ _ _) as [x|]; [|done].
  destruct Hi as [Hqt Hun Hso Hff Hid Hn Huq].
  assert (Hsub : ∀ s, sublist (ab_side (ab_map (remove_order (client_id, oid)) (sp_book sp)) s)
                              (ab_side (sp_book sp) s))
    by (intros s; rewrite ab_side_map; apply remove_order_sublist).
  assert (Hall : sublist (ab_all (ab_map (remove_order (client_id, oid)) (sp_book sp)))
                         (ab_all (sp_book sp)))
    by (apply sublist_app; [apply (Hsub BUY)|apply (Hsub SELL)]).
  split; cbn [fst sp_book sp_next_id]; try done.
  - by eapply Forall_sublist.
  - intros y z Hy Hz. apply list_elem_of_filter in Hy as [_ Hy].
    apply list_elem_of_filter in Hz as [_ Hz]. by apply Hun.
  - intros s Hs. eapply price_sorted_sublist; [apply Hsub|by apply Hso].
  - intros s Hs. eapply StronglySorted_sublist; [apply Hsub|by apply Hff].
  - by eapply Forall_sublist.
  - eapply sublist_NoDup; [exact Huq|]. by apply fmap_sublist.
Qed.

(** ** Runs of the book *)

Inductive book_request :=
| NewOrder (client_id oid ticker_id : Z) (side : Side) (price qty : Z)
| CancelOrder (client_id oid ticker_id : Z).

Definition handle {E} `{!EngineSink E} (r : book_request) (ob : MEOrderBook) (e : E)
    : result (MEOrderBook * E) :=
  match r with
  | NewOrder c o t s p q => add c o t s p q ob e
  | CancelOrder c o t => cancel c o t ob e
  end.

Definition spec_handle (r : book_request) (sp : MESpec) : MESpec * list event :=
  match r with
  | NewOrder c o t s p q => spec_add c o t s p q sp
  | CancelOrder c o t => spec_cancel c o t sp
  end.

Definition valid_request (r : book_request) (sp : MESpec) : Prop :=
  match r with
  | NewOrder c o t s p q => valid_new c o s p q (sp_book sp) ∧ sp_next_id sp + 1 < 2 ^ 64
  | CancelOrder c o t => 0 ≤ o < ME_MAX_ORDER_IDS
  end.

Fixpoint run_book {E} `{!EngineSink E} (rs : list book_request) (ob : MEOrderBook) (e : E)
    : result (MEOrderBook * E) :=
  match rs with
  | [] => Ok (ob, e)
  | r :: rs => let* (ob, e) := handle r ob e in run_book rs ob e
  end.

Fixpoint spec_run (rs : list book_request) (sp : MESpec) : MESpec * list event :=
  match rs with
  | [] => (sp, [])
  | r :: rs => let '(sp1, ev1) := spec_handle r sp in
               let '(sp2, ev2) := spec_run rs sp1 in (sp2, ev1 ++ ev2)
  end.

Fixpoint valid_run (rs : list book_request) (sp : MESpec) : Prop :=
  match rs with
  | [] => True
  | r :: rs => valid_request r sp ∧ valid_run rs (spec_handle r sp).1
  end.

Lemma spec_handle_inv r sp : book_inv sp → valid_request r sp → book_inv (spec_handle r sp).1.
Proof.
  intros Hi Hv. destruct r as [c o t s p q|c o t]; simpl in *.
  - destruct Hv as [Hv Hn]. apply spec_add_inv; [done|apply Hv|apply Hv|done].
  - by apply spec_cancel_inv.
Qed.

Lemma handle_ok {E} `{!EngineSink E} r ob sp (e : E) :
  me_rep ob sp → valid_request r sp →
  ∃ ob', handle r ob e = Ok (ob', emit_all (spec_handle r sp).2 e)
       ∧ me_rep ob' (spec_handle r sp).1 ∧ me_ticker_id_ ob' = me_ticker_id_ ob.
Proof.
  intros Hr Hv. destruct r as [c o t s p q|c o t]; simpl in *.
  - destruct Hv as [Hv _]. pose proof (add_ok c o t s p q ob sp e Hr Hv) as Ha.
    by destruct (spec_add c o t s p q sp).
  - pose proof (cancel_ok c o t ob sp e Hr Hv) as Ha. by destruct (spec_cancel c o t sp).
Qed.

Lemma run_book_ok {E} `{!EngineSink E} rs ob sp (e : E) :
  me_rep ob sp → book_inv sp → valid_run rs sp →
  let '(sp', evs) := spec_run rs sp in
  ∃ ob', run_book rs ob e = Ok (ob', emit_all evs e) ∧ me_rep ob' sp' ∧ book_inv sp'
       ∧ me_ticker_id_ ob' = me_ticker_id_ ob.
Proof.
  revert ob sp e. induction rs as [|r rs IH]; intros ob sp e Hr Hi Hv; simpl; [by exists ob|].
  destruct Hv as [Hv Hvs]. destruct (handle_ok r ob sp e Hr Hv) as (ob1 & -> & Hr1 & Ht1).
  pose proof (spec_handle_inv r sp Hi Hv) as Hi1.
  destruct (spec_handle r sp) as [sp1 ev1]. simpl in *.
  specialize (IH ob1 sp1 (emit_all ev1 e) Hr1 Hi1 Hvs).
  destruct (spec_run rs sp1) as [sp2 ev2]. destruct IH as (ob' & -> & ? & ? & ?).
  exists ob'. rewrite emit_all_app. split_and!; [done..|congruence].
Qed.

(** Validity of a run as a test. *)
Definition valid_requestb (r : book_request) (sp : MESpec) : bool :=
  match r with
  | NewOrder c o t s p q => valid_newb c o s p q (sp_book sp) && (sp_next_id sp + 1 <? 2 ^ 64)
  | CancelOrder c o t => (0 <=? o) && (o <? ME_MAX_ORDER_IDS)
  end.

Fixpoint valid_runb (rs : list book_request) (sp : MESpec) : bool :=
  match rs with
  | [] => true
  | r :: rs => valid_requestb r sp && valid_runb rs (spec_handle r sp).1
  end.

Lemma valid_requestb_sound r sp : valid_requestb r sp = true → valid_request r sp.
Proof.
  destruct r; simpl; rewrite andb_true_iff; intros [H1 H2]; split; try lia. by apply valid_newb_sound.
Qed.

Lemma valid_runb_sound rs sp : valid_runb rs sp = true → valid_run rs sp.
Proof.
  revert sp. induction rs as [|r rs IH]; intros sp; simpl; [done|].
  rewrite andb_true_iff. intros [H1 H2]. split; [by apply valid_requestb_sound|by apply IH].
Qed.
