(* ===== verification/MatchingEngine.v ===== *)
(** * The matching engine thread.

    [Exchange::MatchingEngine] of src/exchange/matcher/matching_engine.{h,cpp}:
    one order book per ticker, the incoming request queue and the two outgoing
    queues.  [EngineQueues] implements the interface [EngineSink] of the order
    books with those queues.  [engine_run_drains] says that draining the request
    queue processes the requests in FIFO order, each on its ticker's book
    according to the specification of MESpec.v, and delivers the private and the
    public messages in order on their queues. *)

From stdpp Require Import gmap list sorting.
From S2P Require Import Prelude MemPool Types LFQueue BookCore BookSpec BookRep BookRemove BookRefine MEOrderBook MESpec MERefine MEInv.

Open Scope Z_scope.
Local Coercion Z.of_nat : nat >-> Z.

#[export] Instance MEClientRequest_ctor : DefaultCtor MEClientRequest := MEClientRequest_default.
#[export] Instance MEClientResponse_ctor : DefaultCtor MEClientResponse := MEClientResponse_default.
#[export] Instance MEMarketUpdate_ctor : DefaultCtor MEMarketUpdate := MEMarketUpdate_default.

Record EngineQueues := mkEngineQueues {
  outgoing_ogw_responses_ : LFQueue MEClientResponse;
  outgoing_md_updates_ : LFQueue MEMarketUpdate }.

Definition engine_sendClientResponse (r : MEClientResponse) (e : EngineQueues) : EngineQueues :=
  mkEngineQueues (enqueue r (outgoing_ogw_responses_ e)) (outgoing_md_updates_ e).
Definition engine_sendMarketUpdate (u : MEMarketUpdate) (e : EngineQueues) : EngineQueues :=
  mkEngineQueues (outgoing_ogw_responses_ e) (enqueue u (outgoing_md_updates_ e)).

#[export] Instance EngineQueues_sink : EngineSink EngineQueues := {
  sendClientResponse := engine_sendClientResponse;
  sendMarketUpdate := engine_sendMarketUpdate }.

Record MatchingEngine := mkMatchingEngine {
  ticker_order_book_ : list MEOrderBook;
  incoming_requests_ : LFQueue MEClientRequest;
  engine_queues : EngineQueues }.

(** The constructor; [mem] is the memory of the index arrays of each book. *)
Definition MatchingEngine_new (mem : Z → IndexMemory (Z * Z)) (requests : LFQueue MEClientRequest) (queues : EngineQueues)
    : MatchingEngine :=
  mkMatchingEngine ((λ t, MEOrderBook_new (mem t) t) <$> seqZ 0 ME_MAX_TICKERS) requests queues.

(** [ticker_order_book_[req->ticker_id_]] is an unchecked [std::array] access. *)
Definition processClientRequest (req : MEClientRequest) (me : MatchingEngine)
    : result MatchingEngine :=
  let t := Z.to_nat (req_ticker_id_ req) in
  match ticker_order_book_ me !! t with
  | None => Err Undefined
  | Some ob =>
      let* (ob, e) :=
        match req_type_ req with
        | Req_NEW => add (req_client_id_ req) (req_order_id_ req) (req_ticker_id_ req)
                       (req_side_ req) (req_price_ req) (req_qty_ req) ob (engine_queues me)
        | Req_CANCEL => cancel (req_client_id_ req) (req_order_id_ req) (req_ticker_id_ req) ob
                          (engine_queues me)
        | Req_INVALID => FATAL
        end in
      Ok (mkMatchingEngine (<[t := ob]> (ticker_order_book_ me)) (incoming_requests_ me) e)
  end.

(** One turn of the loop of [run]. *)
Definition engine_turn (me : MatchingEngine) : result MatchingEngine :=
  match getNextToRead (incoming_requests_ me) with
  | None => Ok me
  | Some req =>
      let* me := processClientRequest req me in
      let* q := updateReadIndex (incoming_requests_ me) in
      Ok (mkMatchingEngine (ticker_order_book_ me) q (engine_queues me))
  end.

(** [n] turns. *)
Fixpoint engine_run (n : nat) (me : MatchingEngine) : result MatchingEngine :=
  match n with
  | O => Ok me
  | S n => let* me := engine_turn me in engine_run n me
  end.

(** ** Specification *)

Definition to_book_request (req : MEClientRequest) : option book_request :=
  match req_type_ req with
  | Req_NEW => Some (NewOrder (req_client_id_ req) (req_order_id_ req) (req_ticker_id_ req)
                       (req_side_ req) (req_price_ req) (req_qty_ req))
  | Req_CANCEL => Some (CancelOrder (req_client_id_ req) (req_order_id_ req) (req_ticker_id_ req))
  | Req_INVALID => None
  end.

(** The effect of a request on the abstract books; nothing if it names no ticker
    or has no type (the valid requests do). *)
Definition engine_spec (req : MEClientRequest) (sps : list MESpec) : list MESpec * list event :=
  let t := Z.to_nat (req_ticker_id_ req) in
  match to_book_request req, sps !! t with
  | Some r, Some sp => let '(sp', evs) := spec_handle r sp in (<[t := sp']> sps, evs)
  | _, _ => (sps, [])
  end.

Fixpoint engine_spec_run (reqs : list MEClientRequest) (sps : list MESpec) : list MESpec * list event :=
  match reqs with
  | [] => (sps, [])
  | req :: reqs =>
      let '(sps1, ev1) := engine_spec req sps in
      let '(sps2, ev2) := engine_spec_run reqs sps1 in (sps2, ev1 ++ ev2)
  end.

Definition valid_engine_request (req : MEClientRequest) (sps : list MESpec) : Prop :=
  ∃ r sp, to_book_request req = Some r ∧ sps !! Z.to_nat (req_ticker_id_ req) = Some sp
        ∧ valid_request r sp.

Fixpoint valid_engine_run (reqs : list MEClientRequest) (sps : list MESpec) : Prop :=
  match reqs with
  | [] => True
  | req :: reqs => valid_engine_request req sps ∧ valid_engine_run reqs (engine_spec req sps).1
  end.

Definition privates (evs : list event) : list MEClientResponse :=
  omap (λ ev, match ev with Private r => Some r | Public _ => None end) evs.
Definition publics (evs : list event) : list MEMarketUpdate :=
  omap (λ ev, match ev with Public u => Some u | Private _ => None end) evs.

(** The outgoing queues hold [rs] and [us]. *)
Definition out_rep (e : EngineQueues) (rs : list MEClientResponse) (us : list MEMarketUpdate) : Prop :=
  lfq_rep (outgoing_ogw_responses_ e) rs ∧ lfq_rep (outgoing_md_updates_ e) us.

Definition out_room (e : EngineQueues) (rs : list MEClientResponse) (us : list MEMarketUpdate)
    (evs : list event) : Prop :=
  length rs + length (privates evs) ≤ q_size (outgoing_ogw_responses_ e)
  ∧ length us + length (publics evs) ≤ q_size (outgoing_md_updates_ e).

Definition books_rep (obs : list MEOrderBook) (sps : list MESpec) : Prop :=
  Forall2 (λ ob sp, me_rep ob sp ∧ book_inv sp) obs sps.

(** ** Delivery *)

Lemma emit_all_out evs e rs us :
  out_rep e rs us → out_room e rs us evs →
  out_rep (emit_all evs e) (rs ++ privates evs) (us ++ publics evs)
  ∧ q_size (outgoing_ogw_responses_ (emit_all evs e)) = q_size (outgoing_ogw_responses_ e)
  ∧ q_size (outgoing_md_updates_ (emit_all evs e)) = q_size (outgoing_md_updates_ e).
Proof.
  revert e rs us. induction evs as [|ev evs IH]; intros e rs us Ho Hr; [by rewrite !app_nil_r|].
  destruct Ho as [Hrs Hus]. unfold out_room in Hr. rewrite emit_all_cons.
  destruct ev as [r|u]; simpl in Hr.
  - destruct (enqueue_ok (outgoing_ogw_responses_ e) rs r Hrs ltac:(lia)) as [Hrs' Esz].
    destruct (IH (emit e (Private r)) (rs ++ [r]) us) as (Ho & E1 & E2).
    + done.
    + unfold out_room. rewrite length_app. simpl. lia.
    + split; [|done]. by rewrite <- (assoc_L (++)) in Ho.
  - destruct (enqueue_ok (outgoing_md_updates_ e) us u Hus ltac:(lia)) as [Hus' Esz].
    destruct (IH (emit e (Public u)) rs (us ++ [u])) as (Ho & E1 & E2).
    + done.
    + unfold out_room. rewrite length_app. simpl. lia.
    + split; [|done]. by rewrite <- (assoc_L (++)) in Ho.
Qed.

Lemma privates_app evs1 evs2 : privates (evs1 ++ evs2) = privates evs1 ++ privates evs2.
Proof. apply omap_app. Qed.
Lemma publics_app evs1 evs2 : publics (evs1 ++ evs2) = publics evs1 ++ publics evs2.
Proof. apply omap_app. Qed.

Lemma processClientRequest_ok req me sps :
  books_rep (ticker_order_book_ me) sps → valid_engine_request req sps →
  ∃ me', processClientRequest req me = Ok me'
    ∧ books_rep (ticker_order_book_ me') (engine_spec req sps).1
    ∧ incoming_requests_ me' = incoming_requests_ me
    ∧ engine_queues me' = emit_all (engine_spec req sps).2 (engine_queues me).
Proof.
  intros Hb (r & sp & Hreq & Hsp & Hv). unfold engine_spec, processClientRequest.
  set (t := Z.to_nat (req_ticker_id_ req)) in *.
  destruct (Forall2_lookup_r _ _ _ t sp Hb Hsp) as (ob & Hob & Hr & Hi).
  destruct (handle_ok r ob sp (engine_queues me) Hr Hv) as (ob' & Eh & Hr' & _).
  pose proof (spec_handle_inv r sp Hi Hv) as Hi'. rewrite Hreq, Hsp, Hob.
  destruct (spec_handle r sp) as [sp' evs]. cbn [fst snd] in *.
  exists (mkMatchingEngine (<[t := ob']> (ticker_order_book_ me)) (incoming_requests_ me)
            (emit_all evs (engine_queues me))).
  split.
  - unfold to_book_request in Hreq. destruct (req_type_ req); simplify_eq; simpl in Eh; by rewrite Eh.
  - split_and!; [|done|done]. simpl. by apply Forall2_insert.
Qed.

(** An untyped request ends the process. *)
Lemma processClientRequest_invalid req me ob :
  req_type_ req = Req_INVALID → ticker_order_book_ me !! Z.to_nat (req_ticker_id_ req) = Some ob →
  processClientRequest req me = Err FatalError.
Proof. intros Ht Hob. unfold processClientRequest. by rewrite Hob, Ht. Qed.

Lemma engine_run_drains reqs me sps rs us :
  books_rep (ticker_order_book_ me) sps → lfq_rep (incoming_requests_ me) reqs →
  out_rep (engine_queues me) rs us → valid_engine_run reqs sps →
  out_room (engine_queues me) rs us (engine_spec_run reqs sps).2 →
  ∃ me', engine_run (length reqs) me = Ok me'
    ∧ books_rep (ticker_order_book_ me') (engine_spec_run reqs sps).1
    ∧ lfq_rep (incoming_requests_ me') []
    ∧ out_rep (engine_queues me') (rs ++ privates (engine_spec_run reqs sps).2)
        (us ++ publics (engine_spec_run reqs sps).2).
Proof.
  revert me sps rs us. induction reqs as [|req reqs IH]; intros me sps rs us Hb Hq Ho Hv Hroom.
  { exists me. simpl. by rewrite !app_nil_r. }
  destruct Hv as [Hv Hvs].
  destruct (processClientRequest_ok req me sps Hb Hv) as (me1 & Ep & Hb1 & Ei & Ee).
  destruct (updateReadIndex_ok _ _ _ Hq) as (q' & Eq & Hq' & _).
  set (me2 := mkMatchingEngine (ticker_order_book_ me1) q' (engine_queues me1)).
  assert (Et : engine_turn me = Ok me2).
  { unfold engine_turn. rewrite (getNextToRead_ok _ _ Hq). simpl. rewrite Ep. simpl.
    by rewrite Ei, Eq. }
  simpl in Hroom |- *. rewrite Et. simpl. destruct (engine_spec req sps) as [sps1 ev1].
  simpl in *. specialize (IH me2 sps1 (rs ++ privates ev1) (us ++ publics ev1)).
  destruct (engine_spec_run reqs sps1) as [sps2 ev2]. simpl in *.
  unfold out_room in Hroom. rewrite privates_app, publics_app, !length_app in Hroom.
  destruct (emit_all_out ev1 (engine_queues me) rs us Ho) as (Ho1 & E1 & E2); [unfold out_room; lia|].
  rewrite <- Ee in *.
  destruct IH as (me' & -> & Hb' & Hq2 & Ho2); try done.
  { unfold out_room. simpl. rewrite E1, E2, !length_app. lia. }
  exists me'. rewrite privates_app, publics_app. by rewrite <- !(assoc_L (++)) in Ho2.
Qed.

Lemma books_rep_new mem requests queues :
  all_zeroed mem →
  books_rep (ticker_order_book_ (MatchingEngine_new mem requests queues))
    (replicate (Z.to_nat ME_MAX_TICKERS) MESpec_new).
Proof.
  intros Hz. unfold books_rep, MatchingEngine_new. cbn [ticker_order_book_].
  assert (length (seqZ 0 ME_MAX_TICKERS) = Z.to_nat ME_MAX_TICKERS) as Hl by apply length_seqZ.
  revert Hl. generalize (Z.to_nat ME_MAX_TICKERS) as n. induction (seqZ 0 ME_MAX_TICKERS) as [|t l IH]; intros n <-; [constructor|].
  cbn [fmap list_fmap length replicate]. apply Forall2_cons. split; [|by apply IH].
  rewrite (Hz t). split; [apply me_rep_new|apply book_inv_new].
Qed.

(** The body of the loop, without the queue it reads from. *)
Fixpoint process_all (reqs : list MEClientRequest) (me : MatchingEngine) : result MatchingEngine :=
  match reqs with
  | [] => Ok me
  | req :: reqs => let* me := processClientRequest req me in process_all reqs me
  end.

Lemma process_all_ok reqs me sps :
  books_rep (ticker_order_book_ me) sps → valid_engine_run reqs sps →
  ∃ me', process_all reqs me = Ok me'
    ∧ books_rep (ticker_order_book_ me') (engine_spec_run reqs sps).1
    ∧ engine_queues me' = emit_all (engine_spec_run reqs sps).2 (engine_queues me).
Proof.
  revert me sps. induction reqs as [|req reqs IH]; intros me sps Hb Hv; [by exists me|]. destruct Hv as [Hv Hvs].
  destruct (processClientRequest_ok req me sps Hb Hv) as (me1 & Ep & Hb1 & _ & Ee). cbn [process_all engine_spec_run].
  rewrite Ep. cbn [rbind]. destruct (engine_spec req sps) as [sps1 ev1]. cbn [fst snd] in *.
  destruct (IH me1 sps1 Hb1 Hvs) as (me' & -> & Hb' & Ee'). destruct (engine_spec_run reqs sps1) as [sps2 ev2].
  exists me'. split_and!; [done..|]. cbn [snd] in *. by rewrite Ee', Ee, emit_all_app.
Qed.

(** Validity of a run as a test. *)
Fixpoint valid_engine_runb (reqs : list MEClientRequest) (sps : list MESpec) : bool :=
  match reqs with
  | [] => true
  | req :: reqs =>
      match to_book_request req, sps !! Z.to_nat (req_ticker_id_ req) with
      | Some r, Some sp => valid_requestb r sp
      | _, _ => false
      end && valid_engine_runb reqs (engine_spec req sps).1
  end.

Lemma valid_engine_runb_sound reqs sps : valid_engine_runb reqs sps = true → valid_engine_run reqs sps.
Proof.
  revert sps. induction reqs as [|req reqs IH]; intros sps; simpl; [done|].
  rewrite andb_true_iff. intros [H1 H2]. split; [|by apply IH].
  unfold valid_engine_request. destruct (to_book_request req) as [r|]; [|done].
  destruct (sps !! _) as [sp|]; [|done]. exists r, sp. split_and!; [done..|by apply valid_requestb_sound].
Qed.
