(* ===== verification/Requests.v ===== *)
(** * Requests the matching engine can always serve.

    The theorems on the matching engine ask of every request that the book it
    meets can take it ([valid_request]): a key that is not resting, a price whose
    index no other resting price has, room in the pools.  [plain_run] is a
    condition on the requests alone that gives this whatever the books look like
    in between: prices in a band, one use of an order id per client and ticker,
    fewer new orders than the pool has blocks.  [plain_run_valid] proves it, by
    tracking where the resting orders of each book come from ([tracked]). *)

From stdpp Require Import numbers gmap list sorting.
From S2P Require Import Prelude MemPool Types LFQueue BookCore BookSpec BookRep BookRemove BookRefine MEOrderBook MESpec MERefine MEInv MatchingEngine.

Open Scope Z_scope.
Local Coercion Z.of_nat : nat >-> Z.

(** ** What a request leaves in a book *)

Definition stamp (x : MEOrder) : Z * Z * Z := (client_id_ x, client_order_id_ x, price_ x).
Definition stamps (sp : MESpec) : list (Z * Z * Z) := stamp <$> ab_all (sp_book sp).

(** What a request may add. *)
Definition brings (r : book_request) : list (Z * Z * Z) :=
  match r with NewOrder c o _ _ p _ => [(c, o, p)] | CancelOrder _ _ _ => [] end.

Lemma spec_add_stamps c o t s p q sp :
  book_inv sp → valid_new c o s p q (sp_book sp) → stamps (spec_add c o t s p q sp).1 ⊆+ (c, o, p) :: stamps sp.
Proof.
  intros Hi [Hs _ _ Hq _ _]. unfold spec_add. set (a := mkAggressor _ _ _ _ _ _).
  destruct (fill_queue a q _) as [[l q2] evs] eqn:E. pose proof (bi_qty _ Hi) as Hqt.
  apply (Forall_ab _ _ s Hs) in Hqt as [_ Hqt].
  assert (stamp <$> q2 ⊆+ stamp <$> ab_side (sp_book sp) (opposite s)) as Hsub.
  { destruct (consumed_suffix stamp (ab_side (sp_book sp) (opposite s)) q2) as [pre ->]; [by intros ? []| |apply submseteq_inserts_l; done].
    by eapply fill_queue_consumed; [|apply Forall_qty_pos, Hqt|exact E]; lia. }
  pose proof (ab_all_split (sp_book sp) s Hs) as Hall.
  assert (∀ q1, ab_all (set_ab_side (set_ab_side (sp_book sp) (opposite s) q2) s q1) ≡ₚ q1 ++ q2) as Hset.
  { intros q1. destruct Hs as [-> | ->]; unfold ab_all; simpl; [done|by rewrite (comm (++))]. }
  assert (ab_side (set_ab_side (sp_book sp) (opposite s) q2) s = ab_side (sp_book sp) s) as Hsame
    by (by destruct Hs as [-> | ->]).
  unfold stamps. rewrite Hall. destruct (l =? 0); cbn [fst sp_book].
  - apply submseteq_cons. specialize (Hset (ab_side (set_ab_side (sp_book sp) (opposite s) q2) s)).
    rewrite set_ab_side_same, Hsame in Hset. rewrite Hset, !fmap_app. by apply submseteq_skips_l.
  - rewrite Hset, fmap_app, Hsame, insert_order_perm, fmap_cons, fmap_app.
    apply (submseteq_skip (c, o, p)). by apply submseteq_skips_l.
Qed.

Lemma spec_cancel_stamps c o t sp : stamps (spec_cancel c o t sp).1 ⊆+ stamps sp.
Proof.
  unfold spec_cancel. destruct (find_order _ _ _); [|done]. unfold stamps, ab_all, ab_map. simpl.
  rewrite !fmap_app. apply submseteq_app; apply sublist_submseteq, fmap_sublist, remove_order_sublist.
Qed.

Lemma spec_handle_stamps r sp :
  book_inv sp → valid_request r sp → stamps (spec_handle r sp).1 ⊆+ brings r ++ stamps sp.
Proof.
  intros Hi Hv. destruct r as [c o t s p q|c o t]; [by apply spec_add_stamps; [|apply Hv]|apply spec_cancel_stamps].
Qed.

Lemma spec_handle_ids r sp :
  valid_request r sp → 0 < sp_next_id sp → sp_next_id (spec_handle r sp).1 ≤ sp_next_id sp + length (brings r).
Proof.
  intros Hv Hp. destruct r as [c o t s p q|c o t]; simpl.
  - destruct Hv as [_ Hv]. unfold spec_add. destruct (fill_queue _ _ _) as [[l q2] evs].
    destruct (l =? 0); simpl; by rewrite u64_next.
  - unfold spec_cancel. destruct (find_order _ _ _); simpl; lia.
Qed.

(** ** The condition *)

(** Prices of the band have distinct indices, and fewer levels than the pool. *)
Definition price_band : Z := ME_MAX_PRICE_LEVELS - 2.

Definition new_request (r : MEClientRequest) : bool := bool_decide (req_type_ r = Req_NEW).
Definition new_key (r : MEClientRequest) : Z * Z * Z := (req_ticker_id_ r, req_client_id_ r, req_order_id_ r).
Definition new_keys (reqs : list MEClientRequest) : list (Z * Z * Z) := new_key <$> filter new_request reqs.

Record plain_request (r : MEClientRequest) : Prop := {
  pr_type : req_type_ r ≠ Req_INVALID;
  pr_ticker : 0 ≤ req_ticker_id_ r < ME_MAX_TICKERS;
  pr_key : cid_oid_in_range (req_client_id_ r, req_order_id_ r) = true;
  pr_new : req_type_ r = Req_NEW →
    proper_side (req_side_ r) ∧ 0 ≤ req_price_ r < price_band ∧ 0 ≤ req_qty_ r < 2 ^ 32 }.

Record plain_run (reqs : list MEClientRequest) : Prop := {
  pl_requests : Forall plain_request reqs;
  pl_unique : NoDup (new_keys reqs);
  pl_room : length (new_keys reqs) < ME_MAX_ORDER_IDS }.

Lemma new_keys_app l1 l2 : new_keys (l1 ++ l2) = new_keys l1 ++ new_keys l2.
Proof. unfold new_keys. by rewrite filter_app, fmap_app. Qed.

(** The condition does not depend on the order. *)
#[export] Instance plain_run_proper : Proper ((≡ₚ) ==> iff) plain_run.
Proof.
  assert (∀ l1 l2, l1 ≡ₚ l2 → plain_run l1 → plain_run l2) as H; [|intros l1 l2 E; split; by apply H].
  intros l1 l2 E [H1 H2 H3]. assert (new_keys l1 ≡ₚ new_keys l2) as Ek by (unfold new_keys; by rewrite E).
  split; [by rewrite <- E|by rewrite <- Ek|by rewrite <- Ek].
Qed.

Lemma band_index p p' :
  0 ≤ p < price_band → 0 ≤ p' < price_band → priceToIndex p = priceToIndex p' → p = p'.
Proof.
  unfold price_band, ME_MAX_PRICE_LEVELS, priceToIndex, u64, wrap. intros H1 H2.
  rewrite !(Z.mod_small _ (2 ^ 64)), !Z.mod_small by (unfold ME_MAX_PRICE_LEVELS; lia). done.
Qed.

(** An uncrossed book with prices in the band has room for one more level. *)
Lemma band_levels sp :
  book_inv sp → (∀ x, x ∈ ab_all (sp_book sp) → 0 ≤ price_ x < price_band) →
  num_levels (ab_bids (sp_book sp)) + num_levels (ab_asks (sp_book sp)) ≤ price_band.
Proof.
  intros Hi Hp. unfold num_levels. set (B := remove_dups _). set (A := remove_dups (_ <$> ab_asks _)).
  pose proof (λ p l, proj1 (elem_of_remove_dups (A:=Z) l p)) as Hrd.
  assert (∀ p, p ∈ B ++ A → ∃ x, x ∈ ab_all (sp_book sp) ∧ p = price_ x) as Hin.
  { intros p [Hb%Hrd|Ha%Hrd]%elem_of_app.
    - apply list_elem_of_fmap in Hb as (x & -> & Hx). exists x. split; [apply elem_of_app; by left|done].
    - apply list_elem_of_fmap in Ha as (x & -> & Hx). exists x. split; [apply elem_of_app; by right|done]. }
  assert (NoDup (B ++ A)) as Hnd.
  { apply NoDup_app. split_and!; [apply NoDup_remove_dups| |apply NoDup_remove_dups].
    intros p Hb%Hrd Ha%Hrd. apply list_elem_of_fmap in Hb as (x & -> & Hx).
    apply list_elem_of_fmap in Ha as (y & E & Hy). pose proof (bi_uncrossed _ Hi x y Hx Hy). simpl in E. lia. }
  assert (length (B ++ A) ≤ length (seqZ 0 price_band))%nat as Hl.
  { apply submseteq_length, NoDup_submseteq; [done|]. intros p (x & Hx & ->)%Hin. apply elem_of_seqZ. specialize (Hp x Hx). lia. }
  rewrite length_app, length_seqZ in Hl. unfold price_band, ME_MAX_PRICE_LEVELS in *. lia.
Qed.

(** ** Where resting orders come from *)

Definition request_stamp (r : MEClientRequest) : Z * Z * Z := (req_client_id_ r, req_order_id_ r, req_price_ r).
Definition asked (t : Z) (past : list MEClientRequest) : list (Z * Z * Z) :=
  request_stamp <$> filter (λ r, new_request r && bool_decide (req_ticker_id_ r = t)) past.

Record tracked (past : list MEClientRequest) (t : Z) (sp : MESpec) : Prop := {
  tk_inv : book_inv sp;
  tk_orders : stamps sp ⊆+ asked t past;
  tk_next : sp_next_id sp ≤ 1 + length (new_keys past) }.

Lemma asked_length t past : (length (asked t past) ≤ length (new_keys past))%nat.
Proof.
  unfold asked, new_keys. rewrite !length_fmap. induction past as [|r past IH]; [done|].
  rewrite !filter_cons. destruct (new_request r); simpl; repeat case_decide; simpl; try done; lia.
Qed.

(** A resting order was asked for by a request of the past. *)
Lemma tracked_source past t sp x :
  tracked past t sp → x ∈ ab_all (sp_book sp) →
  ∃ r, r ∈ past ∧ new_request r ∧ req_ticker_id_ r = t ∧ request_stamp r = stamp x.
Proof.
  intros [_ Ho _] Hx. assert (stamp x ∈ asked t past) as Hs.
  { eapply elem_of_submseteq; [|exact Ho]. apply list_elem_of_fmap. by exists x. }
  unfold asked in Hs. apply list_elem_of_fmap in Hs as (r & E & Hr). apply list_elem_of_filter in Hr as [Hn Hr].
  apply andb_prop_elim in Hn as [Hn Ht]. apply bool_decide_unpack in Ht. by exists r.
Qed.

Lemma tracked_valid past req rest r sp :
  plain_run (past ++ req :: rest) → tracked past (req_ticker_id_ req) sp → to_book_request req = Some r →
  valid_request r sp.
Proof.
  intros [Hpl Hu Hroom] Ht Hr. apply Forall_app in Hpl as [Hpast Hpl]. apply Forall_cons in Hpl as [[Hty _ Hk Hnew] _].
  rewrite new_keys_app in Hu, Hroom. rewrite length_app in Hroom.
  unfold to_book_request in Hr. destruct (req_type_ req) eqn:Et; simplify_eq; cbn [valid_request].
  2: { unfold cid_oid_in_range in Hk. simpl in Hk. lia. }
  destruct (Hnew eq_refl) as (Hs & Hp & Hq).
  assert (new_keys (req :: rest) = new_key req :: new_keys rest) as Ek.
  { unfold new_keys. rewrite filter_cons_True; [done|]. unfold new_request. by rewrite bool_decide_true. }
  rewrite Ek in Hu, Hroom. simpl in Hroom.
  assert (∀ x, x ∈ ab_all (sp_book sp) → 0 ≤ price_ x < price_band) as Hband.
  { intros x Hx. destruct (tracked_source past _ sp x Ht Hx) as (r & Hin & Hn%bool_decide_unpack & _ & E).
    rewrite Forall_forall in Hpast. destruct (Hpast r Hin) as [_ _ _ Hr]. destruct (Hr Hn) as (_ & Hpr & _).
    injection E as _ _ <-. done. }
  pose proof Ht as [Hi Ho Hnx]. split.
  - split; try done.
    + intros Hx. apply list_elem_of_fmap in Hx as (x & E & Hx).
      destruct (tracked_source past _ sp x Ht Hx) as (r & Hin & Hn & Etk & Es).
      apply NoDup_app in Hu as (_ & Hd & _). apply (Hd (new_key req)); [|left].
      unfold new_keys. apply list_elem_of_fmap. exists r. split; [|by apply list_elem_of_filter].
      unfold new_key. simpl in E. injection E as -> ->. injection Es as -> -> _. by rewrite Etk.
    + intros x Hx. apply band_index; [by apply Hband|done].
    + pose proof (band_levels sp Hi Hband) as Hlv. apply submseteq_length in Ho.
      pose proof (asked_length (req_ticker_id_ req) past) as Hal. unfold stamps in Ho. rewrite length_fmap in Ho.
      unfold has_room. unfold price_band in Hlv. lia.
  - unfold ME_MAX_ORDER_IDS in Hroom. lia.
Qed.

Lemma asked_snoc t past req r :
  to_book_request req = Some r →
  asked t (past ++ [req]) = asked t past ++ (if decide (req_ticker_id_ req = t) then brings r else []).
Proof.
  intros Hr. unfold asked. rewrite filter_app, fmap_app. f_equal. unfold to_book_request in Hr.
  rewrite filter_cons, filter_nil. unfold new_request. destruct (req_type_ req); simplify_eq; cbn [brings];
    repeat case_decide; repeat case_bool_decide; naive_solver.
Qed.

Lemma tracked_step past req r t sp :
  to_book_request req = Some r → tracked past t sp → valid_request r sp → req_ticker_id_ req = t →
  tracked (past ++ [req]) t (spec_handle r sp).1.
Proof.
  intros Hr [Hi Ho Hn] Hv Ht. split.
  - by apply spec_handle_inv.
  - rewrite (asked_snoc _ _ _ r Hr), decide_True, (comm (++)) by done.
    etrans; [by apply spec_handle_stamps|]. by apply submseteq_skips_l.
  - pose proof (spec_handle_ids r sp Hv (bi_next _ Hi)) as Hx. rewrite new_keys_app, length_app.
    assert (length (brings r) = length (new_keys [req])) as E; [|lia].
    unfold to_book_request in Hr. unfold new_keys. rewrite filter_cons, filter_nil. unfold new_request.
    destruct (req_type_ req); simplify_eq; repeat case_decide; simpl; try done; naive_solver.
Qed.

Lemma tracked_other past req t sp : tracked past t sp → req_ticker_id_ req ≠ t → tracked (past ++ [req]) t sp.
Proof.
  intros [Hi Ho Hn] Ht. split; [done| |rewrite new_keys_app, length_app; lia].
  unfold asked. rewrite filter_app, fmap_app. etrans; [exact Ho|]. by apply submseteq_inserts_r.
Qed.

(** Runs: the requests are valid, and what holds of the messages of every request
    ([Q], closed under concatenation) holds of the messages of the run. *)
#[local] Instance no_sink : EngineSink unit := { sendClientResponse _ e := e; sendMarketUpdate _ e := e }.

Section Run.
Context (reqs : list MEClientRequest) (Q : list event → Prop) (Q_nil : Q []) (Q_app : ∀ evs1 evs2, Q evs1 → Q evs2 → Q (evs1 ++ evs2)).
Context (Q_handle : ∀ past req rest r ob sp,
  reqs = past ++ req :: rest → plain_run reqs → tracked past (req_ticker_id_ req) sp → me_rep ob sp →
  to_book_request req = Some r → valid_request r sp → Q (spec_handle r sp).2).

Lemma tracked_run past rest obs sps :
  reqs = past ++ rest → plain_run reqs → length sps = Z.to_nat ME_MAX_TICKERS → books_rep obs sps →
  (∀ t sp, sps !! Z.to_nat t = Some sp → 0 ≤ t → tracked past t sp) →
  valid_engine_run rest sps ∧ Q (engine_spec_run rest sps).2.
Proof.
  revert past obs sps. induction rest as [|req rest IH]; intros past obs sps Ereqs Hpl Hlen Hb Hsps; [done|].
  pose proof Hpl as Hpl'. rewrite Ereqs in Hpl'. pose proof (pl_requests _ Hpl') as Hall. apply Forall_app in Hall as [_ [[Hty Htk _ _] _]%Forall_cons].
  assert (∃ r, to_book_request req = Some r) as [r Hr] by (unfold to_book_request; destruct (req_type_ req); eauto; done).
  destruct (lookup_lt_is_Some_2 sps (Z.to_nat (req_ticker_id_ req))) as [sp Hsp]; [rewrite Hlen; lia|].
  pose proof (Hsps _ _ Hsp (proj1 Htk)) as Ht. pose proof (tracked_valid past req rest r sp Hpl' Ht Hr) as Hv.
  destruct (Forall2_lookup_r _ _ _ _ sp Hb Hsp) as (ob & Hob & Hm & Hi).
  destruct (handle_ok r ob sp tt Hm Hv) as (ob' & _ & Hm' & _). pose proof (spec_handle_inv r sp Hi Hv) as Hi'.
  pose proof (Q_handle past req rest r ob sp Ereqs Hpl Ht Hm Hr Hv) as HQ.
  pose proof (tracked_step past req r _ sp Hr Ht Hv eq_refl) as Ht'.
  cbn [valid_engine_run engine_spec_run]. unfold engine_spec. rewrite Hr, Hsp.
  destruct (spec_handle r sp) as [sp' evs]. cbn [fst snd] in *.
  destruct (IH (past ++ [req]) (<[Z.to_nat (req_ticker_id_ req) := ob']> obs) (<[Z.to_nat (req_ticker_id_ req) := sp']> sps))
    as [Hvr HQr].
  - by rewrite <- (assoc_L (++)).
  - done.
  - by rewrite length_insert.
  - by apply Forall2_insert.
  - intros t sp1 Hl H0. destruct (decide (req_ticker_id_ req = t)) as [<-|Hne].
    + rewrite list_lookup_insert_eq in Hl; [by injection Hl as <-|]. by eapply lookup_lt_Some.
    + rewrite list_lookup_insert_ne in Hl by lia. apply tracked_other; [by apply Hsps|done].
  - destruct (engine_spec_run rest _) as [sps2 ev2]. split; [split; [by exists r, sp|done]|by apply Q_app].
Qed.

Lemma plain_run_ind :
  plain_run reqs →
  valid_engine_run reqs (replicate (Z.to_nat ME_MAX_TICKERS) MESpec_new)
  ∧ Q (engine_spec_run reqs (replicate (Z.to_nat ME_MAX_TICKERS) MESpec_new)).2.
Proof.
  intros Hpl. set (q0 := LFQueue_new 1 : LFQueue MEClientRequest).
  eapply (tracked_run [] reqs); [done|done|apply length_replicate|
    exact (books_rep_new (λ _, zeroed) q0 (mkEngineQueues (LFQueue_new 1) (LFQueue_new 1)) (λ _, eq_refl))|].
  intros t sp Hl _. apply lookup_replicate in Hl as [-> _]. split; [apply book_inv_new|done|]. simpl. lia.
Qed.
End Run.

Lemma plain_run_valid reqs :
  plain_run reqs → valid_engine_run reqs (replicate (Z.to_nat ME_MAX_TICKERS) MESpec_new).
Proof. intros Hpl. by apply (plain_run_ind reqs (λ _, True) ltac:(done) ltac:(done) ltac:(done)). Qed.
