(* ===== verification/OrderServer.v ===== *)
(** * The exchange's order gateway.

    [Exchange::FIFOSequencer] (src/exchange/order_server/fifo_sequencer.h) and
    [Exchange::OrderServer] (src/exchange/order_server/order_server.{h,cpp}) on
    top of [TCPServer::sendAndRecv] (src/common/tcp_server.cpp).  Requests are
    decoded per socket, checked for identity and sequence number, staged with
    their receive time, sorted, and written to the matching engine's queue;
    responses are framed with a per-client sequence number and written to the
    client's socket.  [std::sort] is an argument ([StdSort]); the comparison it gets
    is [recv_time_lt], the source's [operator<]. *)

From stdpp Require Import gmap list sorting.
From S2P Require Import Prelude MemPool Types LFQueue Wire MatchingEngine.

Open Scope Z_scope.
Local Coercion Z.of_nat : nat >-> Z.

(** ** FIFOSequencer *)

Definition ME_MAX_PENDING_REQUESTS : Z := 1024.

Record RecvTimeClientRequest := mkRecvTime { recv_time_ : Z; request_ : MEClientRequest }.

#[export] Instance RecvTime_eq_dec : EqDecision RecvTimeClientRequest.
Proof. solve_decision. Defined.

(** [operator<] *)
Definition recv_time_lt (x y : RecvTimeClientRequest) : bool := recv_time_ x <? recv_time_ y.

(** What [std::sort] requires of the comparison it is called with. *)
Record strict_weak {A} (lt : A → A → bool) : Prop := {
  sw_irrefl x : lt x x = false;
  sw_trans x y z : lt x y = true → lt y z = true → lt x z = true;
  sw_equiv x y z : lt x y = false → lt y x = false → lt y z = false → lt z y = false →
    lt x z = false ∧ lt z x = false }.

(** [std::sort] with a comparison: a permutation in which nothing stands in front
    of something smaller; equivalent elements in any order. *)
Class StdSort := {
  std_sort {A} : (A → A → bool) → list A → list A;
  std_sort_perm {A} (lt : A → A → bool) l : strict_weak lt → std_sort lt l ≡ₚ l;
  std_sort_sorted {A} (lt : A → A → bool) l : strict_weak lt →
    StronglySorted (λ x y, lt y x = false) (std_sort lt l) }.

Lemma recv_time_lt_weak : strict_weak recv_time_lt.
Proof. unfold recv_time_lt. split; intros; lia. Qed.

(** In order of arrival. *)
Definition not_later (x y : RecvTimeClientRequest) : Prop := recv_time_ x ≤ recv_time_ y.

Lemma std_sort_requests `{SORT : StdSort} l :
  std_sort recv_time_lt l ≡ₚ l ∧ StronglySorted not_later (std_sort recv_time_lt l).
Proof.
  split; [apply std_sort_perm, recv_time_lt_weak|]. pose proof (std_sort_sorted recv_time_lt l recv_time_lt_weak) as Hs.
  induction Hs as [|x l' _ IH Hx]; constructor; [done|]. eapply Forall_impl; [exact Hx|].
  intros y. unfold recv_time_lt, not_later. lia.
Qed.

(** A sort that meets this, by merging. *)
Section MergeSort.
Context {A : Type} (lt : A → A → bool).

Definition unordered (x y : A) : Prop := lt y x = false.

#[local] Instance unordered_dec x y : Decision (unordered x y).
Proof. unfold unordered. apply _. Defined.

Definition std_merge_sort (l : list A) : list A := merge_sort unordered l.

Lemma unordered_preorder : strict_weak lt → Total unordered ∧ Transitive unordered.
Proof.
  intros [Hi Ht He]. unfold unordered. split.
  - intros x y. destruct (lt y x) eqn:E1; [|by left]. right. destruct (lt x y) eqn:E2; [|done].
    pose proof (Ht _ _ _ E1 E2) as H. by rewrite Hi in H.
  - intros x y z H1 H2. destruct (lt z x) eqn:E; [|done].
    destruct (lt x y) eqn:E1; [pose proof (Ht _ _ _ E E1); congruence|].
    destruct (lt y z) eqn:E2; [pose proof (Ht _ _ _ E2 E); congruence|]. destruct (He x y z); congruence.
Qed.

Lemma std_merge_sort_sorted l : strict_weak lt → StronglySorted unordered (std_merge_sort l).
Proof. intros [Ht Htr]%unordered_preorder. by apply StronglySorted_merge_sort. Qed.
End MergeSort.

Definition stable_sort : StdSort := {|
  std_sort _ lt l := std_merge_sort lt l;
  std_sort_perm _ lt l _ := merge_sort_Permutation (unordered lt) l;
  std_sort_sorted _ lt l Hw := std_merge_sort_sorted lt l Hw |}.

(** The staged batch: the first [pending_size_] entries of the array. *)
Definition addClientRequest (rx_time : Z) (request : MEClientRequest)
    (pending : list RecvTimeClientRequest) : result (list RecvTimeClientRequest) :=
  if ME_MAX_PENDING_REQUESTS <=? length pending then FATAL
  else Ok (pending ++ [mkRecvTime rx_time request]).

Definition sequenceAndPublish `{SORT : StdSort} (pending : list RecvTimeClientRequest)
    (q : LFQueue MEClientRequest) : list RecvTimeClientRequest * LFQueue MEClientRequest :=
  match pending with
  | [] => (pending, q)
  | _ => ([], enqueue_all (request_ <$> std_sort recv_time_lt pending) q)
  end.

(** ** OrderServer *)

(** The arrays of [ME_MAX_NUM_CLIENTS] entries are maps: an absent sequence
    number is the initial 1, an absent socket is [nullptr].  Sockets are named
    by their position among the accepted connections. *)
Record OrderServer := mkOrderServer {
  cid_next_outgoing_seq_num_ : gmap Z Z;
  cid_next_exp_seq_num_ : gmap Z Z;
  cid_tcp_socket_ : gmap Z Z;
  sockets_ : gmap Z TCPSocket;
  pending_client_requests_ : list RecvTimeClientRequest;
  os_incoming_requests_ : LFQueue MEClientRequest;
  outgoing_responses_ : LFQueue MEClientResponse }.

Definition OrderServer_new (requests : LFQueue MEClientRequest) (responses : LFQueue MEClientResponse)
    : OrderServer := mkOrderServer ∅ ∅ ∅ ∅ [] requests responses.

Definition seq_of (m : gmap Z Z) (cid : Z) : Z := default 1 (m !! cid).
Definition socket_of (os : OrderServer) (fd : Z) : TCPSocket := default TCPSocket_new (sockets_ os !! fd).

Definition cid_in_range (cid : Z) : bool := (0 <=? cid) && (cid <? ME_MAX_NUM_CLIENTS).

Definition set_socket (fd : Z) (s : TCPSocket) (os : OrderServer) : OrderServer :=
  mkOrderServer (cid_next_outgoing_seq_num_ os) (cid_next_exp_seq_num_ os) (cid_tcp_socket_ os)
    (<[fd := s]> (sockets_ os)) (pending_client_requests_ os) (os_incoming_requests_ os)
    (outgoing_responses_ os).

(** The body of the loop of [recvCallback] for one decoded message.  The three
    arrays are indexed by the client id of the message with [operator[]], which
    does not check it. *)
Definition recv_request (fd rx_time : Z) (os : OrderServer) (request : OMClientRequest)
    : result OrderServer :=
  let cid := req_client_id_ (me_client_request_ request) in
  if negb (cid_in_range cid) then Err Undefined else
  let binding := match cid_tcp_socket_ os !! cid with
                 | None => <[cid := fd]> (cid_tcp_socket_ os)
                 | Some _ => cid_tcp_socket_ os
                 end in
  let os := mkOrderServer (cid_next_outgoing_seq_num_ os) (cid_next_exp_seq_num_ os) binding
              (sockets_ os) (pending_client_requests_ os) (os_incoming_requests_ os)
              (outgoing_responses_ os) in
  if bool_decide (binding !! cid ≠ Some fd) then Ok os else
  let next_exp := seq_of (cid_next_exp_seq_num_ os) cid in
  if negb (omreq_seq_num_ request =? next_exp) then Ok os else
  let* pending := addClientRequest rx_time (me_client_request_ request)
                    (pending_client_requests_ os) in
  Ok (mkOrderServer (cid_next_outgoing_seq_num_ os)
        (<[cid := u64 (next_exp + 1)]> (cid_next_exp_seq_num_ os)) binding (sockets_ os) pending
        (os_incoming_requests_ os) (outgoing_responses_ os)).

Fixpoint recv_requests (fd rx_time : Z) (ms : list OMClientRequest) (os : OrderServer)
    : result OrderServer :=
  match ms with
  | [] => Ok os
  | m :: ms => let* os := recv_request fd rx_time os m in recv_requests fd rx_time ms os
  end.

(** [recvCallback]: decode the whole messages of the inbound buffer and keep the
    partial one. *)
Definition recvCallback (fd rx_time : Z) (os : OrderServer) : result OrderServer :=
  let s := socket_of os fd in
  let '(ms, rest) := parse_stream (M := OMClientRequest) (inbound_data_ s) in
  let* os := recv_requests fd rx_time ms os in
  Ok (set_socket fd (mkTCPSocket (outbound_data_ (socket_of os fd)) rest) os).

Definition recvFinishedCallback `{SORT : StdSort} (os : OrderServer) : OrderServer :=
  let '(pending, q) := sequenceAndPublish (pending_client_requests_ os) (os_incoming_requests_ os) in
  mkOrderServer (cid_next_outgoing_seq_num_ os) (cid_next_exp_seq_num_ os) (cid_tcp_socket_ os)
    (sockets_ os) pending q (outgoing_responses_ os).

(** What the kernel does for one socket in one round: the bytes available, the
    receive time, and the number of bytes it accepts for sending. *)
Record socket_io := mkSocketIO { io_fd : Z; io_avail : bytes; io_time : Z; io_sent : Z }.

(** What a round moved on a connection. *)
Record socket_report := mkReport { sr_fd : Z; sr_read : bytes; sr_sent : bytes }.

(** [TCPSocket::sendAndRecv] on an accepted socket: read, callback, write. *)
Definition socket_sendAndRecv (io : socket_io) (os : OrderServer) : result (bool * socket_report * OrderServer) :=
  let '(fired, unread, s) := tcp_recv (io_avail io) (socket_of os (io_fd io)) in
  let read := take (length (io_avail io) - length unread) (io_avail io) in
  let os := set_socket (io_fd io) s os in
  let* os := (if fired then recvCallback (io_fd io) (io_time io) os else Ok os) in
  let '(sent, s) := tcp_flush (io_sent io) (socket_of os (io_fd io)) in
  Ok (fired, mkReport (io_fd io) read sent, set_socket (io_fd io) s os).

(** [TCPServer::sendAndRecv]: every socket, then [recvFinishedCallback] once if
    any received. *)
Fixpoint sockets_round (ios : list socket_io) (any_rx : bool) (os : OrderServer)
    : result (bool * list socket_report * OrderServer) :=
  match ios with
  | [] => Ok (any_rx, [], os)
  | io :: ios =>
      let* (fired, report, os) := socket_sendAndRecv io os in
      let* (any_rx, reports, os) := sockets_round ios (fired || any_rx) os in
      Ok (any_rx, report :: reports, os)
  end.

Definition server_sendAndRecv `{SORT : StdSort} (ios : list socket_io) (os : OrderServer)
    : result (list socket_report * OrderServer) :=
  let* (any_rx, reports, os) := sockets_round ios false os in
  Ok (reports, if any_rx then recvFinishedCallback os else os).

(** The body of the response loop of [run] for one response. *)
Definition send_response (r : MEClientResponse) (os : OrderServer) : result OrderServer :=
  let cid := resp_client_id_ r in
  if negb (cid_in_range cid) then Err Undefined else
  let seq := seq_of (cid_next_outgoing_seq_num_ os) cid in
  match cid_tcp_socket_ os !! cid with
  | None => Err AssertFailed
  | Some fd =>
      let* s := tcp_send (u64_enc seq) (socket_of os fd) in
      let* s := tcp_send (encode_response r) s in
      let* q := updateReadIndex (outgoing_responses_ os) in
      Ok (mkOrderServer (<[cid := u64 (seq + 1)]> (cid_next_outgoing_seq_num_ os))
            (cid_next_exp_seq_num_ os) (cid_tcp_socket_ os) (<[fd := s]> (sockets_ os))
            (pending_client_requests_ os) (os_incoming_requests_ os) q)
  end.

(** [for (r = getNextToRead(); size() && r; r = getNextToRead())], [n] turns. *)
Fixpoint drain_responses (n : nat) (os : OrderServer) : result OrderServer :=
  match getNextToRead (outgoing_responses_ os) with
  | None => Ok os
  | Some r =>
      match n with
      | O => Err OutOfFuel
      | S n => let* os := send_response r os in drain_responses n os
      end
  end.

(** ** Which requests are staged

    [accept_run] is the protocol the loop implements: the identity binding, the
    next expected sequence numbers and the accepted requests. *)

Abbreviation req_cid m := (req_client_id_ (me_client_request_ m)).

Fixpoint accept_run (fd : Z) (bind exp : gmap Z Z) (ms : list OMClientRequest)
    : gmap Z Z * gmap Z Z * list OMClientRequest :=
  match ms with
  | [] => (bind, exp, [])
  | m :: ms =>
      let bind := match bind !! req_cid m with None => <[req_cid m := fd]> bind | Some _ => bind end in
      if bool_decide (bind !! req_cid m = Some fd ∧ omreq_seq_num_ m = seq_of exp (req_cid m)) then
        let '(bind, exp, acc) :=
          accept_run fd bind (<[req_cid m := u64 (seq_of exp (req_cid m) + 1)]> exp) ms in
        (bind, exp, m :: acc)
      else accept_run fd bind exp ms
  end.

Definition stage (rx_time : Z) (m : OMClientRequest) : RecvTimeClientRequest :=
  mkRecvTime rx_time (me_client_request_ m).

Lemma recv_requests_ok fd rx_time ms os :
  Forall (λ m, cid_in_range (req_cid m) = true) ms →
  length (pending_client_requests_ os) + length ms ≤ ME_MAX_PENDING_REQUESTS →
  let '(bind, exp, acc) := accept_run fd (cid_tcp_socket_ os) (cid_next_exp_seq_num_ os) ms in
  recv_requests fd rx_time ms os =
  Ok (mkOrderServer (cid_next_outgoing_seq_num_ os) exp bind (sockets_ os)
        (pending_client_requests_ os ++ (stage rx_time <$> acc)) (os_incoming_requests_ os)
        (outgoing_responses_ os)).
Proof.
  intros Hms. revert os. induction Hms as [|m ms Hm _ IH]; intros os Hlen; simpl.
  { rewrite app_nil_r. by destruct os. }
  unfold recv_request. rewrite Hm. simpl. simpl in Hlen.
  set (bind := match cid_tcp_socket_ os !! req_cid m with None => _ | Some _ => _ end).
  destruct (decide (bind !! req_cid m = Some fd)) as [Eb|Eb].
  2: { rewrite (bool_decide_eq_true_2 (_ ≠ _)) by done.
       rewrite (bool_decide_eq_false_2 (_ ∧ _)) by tauto. cbn [rbind].
       specialize (IH (mkOrderServer (cid_next_outgoing_seq_num_ os) (cid_next_exp_seq_num_ os) bind
         (sockets_ os) (pending_client_requests_ os) (os_incoming_requests_ os)
         (outgoing_responses_ os))). simpl in IH. apply IH. lia. }
  rewrite (bool_decide_eq_false_2 (_ ≠ _)) by tauto.
  destruct (Z.eqb_spec (omreq_seq_num_ m) (seq_of (cid_next_exp_seq_num_ os) (req_cid m))) as [Es|Es]; simpl.
  2: { rewrite (bool_decide_eq_false_2 (_ ∧ _)) by tauto. cbn [rbind].
       specialize (IH (mkOrderServer (cid_next_outgoing_seq_num_ os) (cid_next_exp_seq_num_ os) bind
         (sockets_ os) (pending_client_requests_ os) (os_incoming_requests_ os)
         (outgoing_responses_ os))). simpl in IH. apply IH. lia. }
  rewrite (bool_decide_eq_true_2 (_ ∧ _)) by done. unfold addClientRequest.
  destruct (Z.leb_spec ME_MAX_PENDING_REQUESTS (length (pending_client_requests_ os))); [lia|].
  cbn [rbind].
  set (exp := <[req_cid m := u64 (seq_of (cid_next_exp_seq_num_ os) (req_cid m) + 1)]>
                (cid_next_exp_seq_num_ os)).
  specialize (IH (mkOrderServer (cid_next_outgoing_seq_num_ os) exp bind (sockets_ os)
     (pending_client_requests_ os ++ [mkRecvTime rx_time (me_client_request_ m)]) (os_incoming_requests_ os)
     (outgoing_responses_ os))). cbn [cid_tcp_socket_ cid_next_exp_seq_num_ pending_client_requests_
     cid_next_outgoing_seq_num_ sockets_ os_incoming_requests_ outgoing_responses_] in IH.
  fold exp. destruct (accept_run fd bind exp ms) as [[bind' exp'] acc]. rewrite IH.
  - by rewrite <- (assoc_L (++)).
  - rewrite length_app. simpl. lia.
Qed.

Lemma recv_request_out_of_range fd rx_time os m :
  cid_in_range (req_cid m) = false → recv_request fd rx_time os m = Err Undefined.
Proof. intros Hr. unfold recv_request. by rewrite Hr. Qed.

(** Bindings are only ever added, and every accepted request came from the
    socket its client is bound to. *)
Lemma accept_run_binding fd bind exp ms bind' exp' acc :
  accept_run fd bind exp ms = (bind', exp', acc) →
  bind ⊆ bind' ∧ ∀ m, m ∈ acc → bind' !! req_cid m = Some fd.
Proof.
  revert bind exp acc. induction ms as [|m ms IH]; intros bind exp acc; simpl.
  { intros [= <- <- <-]. split; [done|]. by intros m ?%elem_of_nil. }
  set (b1 := match bind !! req_cid m with None => _ | Some _ => bind end).
  assert (bind ⊆ b1) as Hb1.
  { unfold b1. destruct (bind !! req_cid m) eqn:E; [done|]. by apply insert_subseteq. }
  case_bool_decide as Hd.
  - destruct (accept_run fd b1 _ ms) as [[b2 e2] acc2] eqn:E. intros [= <- <- <-].
    destruct (IH _ _ _ E) as [Hsub Hacc]. split; [by etrans|].
    intros m' [->|Hm']%elem_of_cons; [|by apply Hacc].
    eapply lookup_weaken; [|exact Hsub]. apply Hd.
  - intros E. destruct (IH _ _ _ E) as [Hsub Hacc]. split; [by etrans|done].
Qed.

Lemma accept_run_sublist fd bind exp ms bind' exp' acc :
  accept_run fd bind exp ms = (bind', exp', acc) → acc `sublist_of` ms.
Proof.
  revert bind exp acc. induction ms as [|m ms IH]; intros bind exp acc; simpl; [by intros [= <- <- <-]|].
  set (b1 := match bind !! req_cid m with None => _ | Some _ => bind end). case_bool_decide.
  - destruct (accept_run fd b1 _ ms) as [[b2 e2] acc2] eqn:E. intros [= <- <- <-].
    apply sublist_skip. by eapply IH.
  - intros E. apply sublist_cons. by eapply IH.
Qed.

(** The accepted requests of a client. *)
Definition of_client (c : Z) (acc : list OMClientRequest) : list OMClientRequest :=
  filter (λ m, req_cid m = c) acc.

Lemma seq_of_insert (m : gmap Z Z) c c' v :
  seq_of (<[c := v]> m) c' = if decide (c = c') then v else seq_of m c'.
Proof. unfold seq_of. rewrite lookup_insert. by case_decide. Qed.

(** Per client, exactly the next sequence numbers, without gaps or replays. *)
Lemma accept_run_seq fd c bind exp ms bind' exp' acc :
  accept_run fd bind exp ms = (bind', exp', acc) →
  0 ≤ seq_of exp c → seq_of exp c + length ms < 2 ^ 64 →
  omreq_seq_num_ <$> of_client c acc = seqZ (seq_of exp c) (length (of_client c acc))
  ∧ seq_of exp' c = seq_of exp c + length (of_client c acc).
Proof.
  revert bind exp acc. induction ms as [|m ms IH]; intros bind exp acc; simpl.
  { intros [= <- <- <-] _ _. simpl. split; [done|lia]. }
  set (b1 := match bind !! req_cid m with None => _ | Some _ => bind end).
  intros E H0 Hlt. case_bool_decide as Hd; [|by apply (IH _ _ _ E); lia].
  destruct (accept_run fd b1 _ ms) as [[b2 e2] acc2] eqn:E2. simplify_eq.
  destruct Hd as [_ Hseq]. unfold of_client. rewrite filter_cons.
  destruct (IH _ _ _ E2) as [IH1 IH2]; clear E2.
  - rewrite seq_of_insert. case_decide; [subst c; unfold wrap; rewrite Z.mod_small; lia|done].
  - rewrite seq_of_insert. case_decide; [subst c; unfold wrap; rewrite Z.mod_small; lia|lia].
  - fold (of_client c acc2). rewrite seq_of_insert in IH1, IH2.
    destruct (decide (req_cid m = c)) as [<-|Ec]; [|done].
    unfold wrap in IH1, IH2. rewrite Z.mod_small in IH1, IH2 by lia.
    rewrite fmap_cons, IH1, Hseq. cbn [length]. split; [|lia].
    rewrite (seqZ_cons _ (S _)) by lia. f_equal. f_equal; lia.
Qed.

(** The messages that carry the next expected number, from [n] on. *)
Fixpoint in_sequence {M} (seq : M → Z) (n : Z) (ms : list M) : list M :=
  match ms with
  | [] => []
  | m :: ms => if seq m =? n then m :: in_sequence seq (u64 (n + 1)) ms else in_sequence seq n ms
  end.

(** The socket of client [c] after its messages [mine] on socket [fd]. *)
Definition bound_after (fd : Z) (bound : option Z) (mine : list OMClientRequest) : option Z :=
  match bound, mine with
  | None, _ :: _ => Some fd
  | _, _ => bound
  end.

Lemma of_client_cons c m ms :
  of_client c (m :: ms) = if decide (req_cid m = c) then m :: of_client c ms else of_client c ms.
Proof. unfold of_client. rewrite filter_cons. done. Qed.

Lemma accept_run_client fd c bind exp ms bind' exp' acc :
  accept_run fd bind exp ms = (bind', exp', acc) →
  bind' !! c = bound_after fd (bind !! c) (of_client c ms)
  ∧ of_client c acc = if decide (bind' !! c = Some fd) then in_sequence omreq_seq_num_ (seq_of exp c) (of_client c ms) else [].
Proof.
  revert bind exp acc. induction ms as [|m ms IH]; intros bind exp acc; simpl.
  { intros [= <- <- <-]. split; [by destruct (bind !! c)|by case_decide]. }
  set (b1 := match bind !! req_cid m with None => _ | Some _ => bind end). intros E.
  assert (b1 !! c = if decide (req_cid m = c) then Some (default fd (bind !! c)) else bind !! c) as Hb.
  { unfold b1. destruct (decide (req_cid m = c)) as [<-|Ec]; destruct (bind !! req_cid m) eqn:Em; rewrite ?Em; try done;
      [by rewrite lookup_insert_eq|by rewrite lookup_insert_ne]. }
  rewrite of_client_cons. case_bool_decide as Hd.
  - destruct (accept_run fd b1 _ ms) as [[b2 e2] acc2] eqn:E2. injection E as <- <- <-. rewrite of_client_cons.
    pose proof (seq_of_insert exp (req_cid m) c (u64 (seq_of exp (req_cid m) + 1))) as Hq. 
    destruct (decide (req_cid m = c)) as [<-|Ec].
    + apply IH in E2. rewrite Hq in E2. destruct E2 as [-> ->]. destruct Hd as [Hd Hs]. rewrite Hb in Hd |- *. injection Hd as Hd. cbn [bound_after in_sequence].
      rewrite Hs, Z.eqb_refl. destruct (bind !! req_cid m) as [s|]; simpl in Hd |- *; subst; rewrite ?decide_True by done; done.
    + apply IH in E2. rewrite Hq in E2. by destruct E2 as [-> ->]; rewrite Hb.
  - apply IH in E as [-> ->]. rewrite Hb. destruct (decide (req_cid m = c)) as [<-|Ec]; [|done]. cbn [bound_after in_sequence].
    rewrite Hb in Hd. destruct (bind !! req_cid m) as [s|]; simpl in Hd |- *; (split; [done|]); repeat case_decide; try done;
      (destruct (Z.eqb_spec (omreq_seq_num_ m) (seq_of exp (req_cid m))); [|done]); destruct Hd; split; congruence.
Qed.

(** ** Sequencing *)

Lemma sequenceAndPublish_ok `{SORT : StdSort} pending q l :
  lfq_rep q l → length l + length pending ≤ q_size q →
  ∃ batch q', sequenceAndPublish pending q = ([], q') ∧ lfq_rep q' (l ++ (request_ <$> batch))
    ∧ batch ≡ₚ pending ∧ StronglySorted not_later batch.
Proof.
  intros Hq Hlen. destruct pending as [|x pending].
  - exists [], q. simpl. rewrite app_nil_r. split_and!; [done..|constructor].
  - destruct (std_sort_requests (x :: pending)) as [Hp Hs]. exists (std_sort recv_time_lt (x :: pending)). eexists. split; [done|].
    split_and!; [|done|done].
    apply enqueue_all_ok; [done|]. rewrite length_fmap.
    by rewrite (Permutation_length Hp).
Qed.

(** A round of the sequencer: requests staged one by one. *)
Fixpoint stage_all (arrivals pending : list RecvTimeClientRequest) : result (list RecvTimeClientRequest) :=
  match arrivals with
  | [] => Ok pending
  | x :: arrivals => let* pending := addClientRequest (recv_time_ x) (request_ x) pending in stage_all arrivals pending
  end.

Lemma stage_all_ok arrivals pending :
  length pending ≤ ME_MAX_PENDING_REQUESTS →
  stage_all arrivals pending
  = if length pending + length arrivals <=? ME_MAX_PENDING_REQUESTS then Ok (pending ++ arrivals) else Err FatalError.
Proof.
  revert pending. induction arrivals as [|x arrivals IH]; intros pending Hl; cbn [stage_all length].
  - rewrite (proj2 (Z.leb_le _ _)) by lia. by rewrite app_nil_r.
  - unfold addClientRequest. destruct (Z.leb_spec ME_MAX_PENDING_REQUESTS (length pending)).
    + rewrite (proj2 (Z.leb_gt _ _)) by lia. done.
    + cbn [rbind]. rewrite IH by (rewrite length_app; cbn [length]; lia). rewrite length_app, <- (assoc_L (++)). cbn [length app].
      destruct x. replace (Z.of_nat (length pending + 1) + length arrivals) with (length pending + Z.of_nat (S (length arrivals))) by lia.
      done.
Qed.

(** Requests that arrive at increasing times are already in order. *)
Lemma sorted_arrivals_kept arrivals batch :
  StronglySorted (λ x y, recv_time_ x < recv_time_ y) arrivals → batch ≡ₚ arrivals → StronglySorted not_later batch →
  batch = arrivals.
Proof.
  intros Ha. revert batch. induction Ha as [|x arrivals _ IH Hx]; intros batch Hp Hs; [by apply Permutation_nil_r in Hp|].
  destruct batch as [|y batch]; [by apply Permutation_nil_l in Hp|]. apply StronglySorted_inv in Hs as [Hs Hy].
  assert (y = x) as ->.
  { assert (x ∈ y :: batch) as [->|Hin]%elem_of_cons by (rewrite Hp; left); [done|].
    assert (y ∈ x :: arrivals) as [->|Hin']%elem_of_cons by (rewrite <- Hp; left); [done|].
    rewrite Forall_forall in Hx, Hy. specialize (Hx y Hin'). specialize (Hy x Hin). unfold not_later in Hy. simpl in Hx. lia. }
  f_equal. apply IH; [by eapply Permutation_cons_inv|done].
Qed.

(** ** Responses *)

Abbreviation resp_cid m := (resp_client_id_ (me_client_response_ m)).

(** The responses with the sequence numbers they go out with. *)
Fixpoint frame_responses (seqs : gmap Z Z) (rs : list MEClientResponse) : list OMClientResponse :=
  match rs with
  | [] => []
  | r :: rs =>
      let seq := seq_of seqs (resp_client_id_ r) in
      mkOMClientResponse seq r :: frame_responses (<[resp_client_id_ r := u64 (seq + 1)]> seqs) rs
  end.

Definition to_socket (bind : gmap Z Z) (fd : Z) (ms : list OMClientResponse) : list OMClientResponse :=
  filter (λ m, bind !! resp_cid m = Some fd) ms.

Definition response_stream (ms : list OMClientResponse) : bytes := concat (encode <$> ms).

Lemma tcp_send_ok data s :
  length (outbound_data_ s) + length data ≤ TCPBufferSize →
  tcp_send data s = Ok (mkTCPSocket (outbound_data_ s ++ data) (inbound_data_ s)).
Proof. intros Hl. unfold tcp_send. by rewrite (proj2 (Z.ltb_ge _ _)) by lia. Qed.

Lemma send_response_ok r rs os fd :
  lfq_rep (outgoing_responses_ os) (r :: rs) → cid_in_range (resp_client_id_ r) = true →
  cid_tcp_socket_ os !! resp_client_id_ r = Some fd →
  length (outbound_data_ (socket_of os fd)) + 50 ≤ TCPBufferSize →
  ∃ os', send_response r os = Ok os' ∧ lfq_rep (outgoing_responses_ os') rs
    ∧ cid_tcp_socket_ os' = cid_tcp_socket_ os
    ∧ cid_next_outgoing_seq_num_ os' =
        <[resp_client_id_ r := u64 (seq_of (cid_next_outgoing_seq_num_ os) (resp_client_id_ r) + 1)]>
          (cid_next_outgoing_seq_num_ os)
    ∧ ∀ fd', outbound_data_ (socket_of os' fd') = outbound_data_ (socket_of os fd') ++
        (if decide (fd = fd') then
           encode (mkOMClientResponse (seq_of (cid_next_outgoing_seq_num_ os) (resp_client_id_ r)) r)
         else []).
Proof.
  intros Hq Hr Hb Hl. unfold send_response. rewrite Hr, Hb. cbn [negb].
  set (seq := seq_of _ _).
  assert (length (encode_response r) = 42%nat) as Hlen.
  { unfold encode_response, u8_enc, u32_enc, u64_enc, i64_enc. by rewrite !length_app, !length_le_encode. }
  assert (length (u64_enc seq) = 8%nat) as Hlen8 by apply length_le_encode.
  rewrite tcp_send_ok by lia. cbn [rbind].
  rewrite tcp_send_ok by (cbn [outbound_data_]; rewrite length_app; lia). cbn [rbind].
  destruct (updateReadIndex_ok _ _ _ Hq) as (q' & -> & Hq' & _). cbn [rbind].
  eexists. split; [done|]. split_and!; try done.
  intros fd'. unfold socket_of at 1. cbn [sockets_]. rewrite lookup_insert.
  case_decide; [subst; cbn [default outbound_data_ inbound_data_]; by rewrite <- (assoc_L (++))|].
  by rewrite app_nil_r.
Qed.

Lemma to_socket_cons bind fd m ms :
  to_socket bind fd (m :: ms) =
  if decide (bind !! resp_cid m = Some fd) then m :: to_socket bind fd ms else to_socket bind fd ms.
Proof. unfold to_socket. by rewrite filter_cons. Qed.

Lemma drain_responses_ok rs os :
  lfq_rep (outgoing_responses_ os) rs →
  Forall (λ r, cid_in_range (resp_client_id_ r) = true
             ∧ is_Some (cid_tcp_socket_ os !! resp_client_id_ r)) rs →
  (∀ fd, length (outbound_data_ (socket_of os fd)) + 50 * length rs ≤ TCPBufferSize) →
  ∃ os', drain_responses (length rs) os = Ok os' ∧ lfq_rep (outgoing_responses_ os') []
    ∧ ∀ fd, outbound_data_ (socket_of os' fd) = outbound_data_ (socket_of os fd) ++
        response_stream (to_socket (cid_tcp_socket_ os) fd
                           (frame_responses (cid_next_outgoing_seq_num_ os) rs)).
Proof.
  revert os. induction rs as [|r rs IH]; intros os Hq Hrs Hl.
  { exists os. simpl. rewrite (getNextToRead_ok _ _ Hq). split_and!; [done..|].
    intros fd. unfold response_stream. simpl. by rewrite app_nil_r. }
  apply Forall_cons in Hrs as [[Hr [fd Hfd]] Hrs].
  destruct (send_response_ok r rs os fd Hq Hr Hfd) as (os1 & Es & Hq1 & Eb & En & Hout).
  { specialize (Hl fd). simpl in Hl. lia. }
  simpl. rewrite (getNextToRead_ok _ _ Hq). simpl. rewrite Es. cbn [rbind].
  destruct (IH os1 Hq1) as (os' & Ed & Hq' & Hout').
  - by rewrite Eb.
  - intros fd'. rewrite Hout. specialize (Hl fd'). simpl in Hl. rewrite length_app.
    case_decide; [rewrite length_encode|]; simpl; lia.
  - exists os'. split_and!; [done..|]. intros fd'. rewrite Hout', Hout, Eb, En, <- (assoc_L (++)). f_equal.
    rewrite to_socket_cons. cbn [me_client_response_]. rewrite Hfd.
    destruct (decide (fd = fd')) as [->|Hne].
    + by rewrite decide_True.
    + by rewrite decide_False by congruence.
Qed.

(** A response to a client that never sent anything stops the exchange. *)
Lemma send_response_unbound r os :
  cid_in_range (resp_client_id_ r) = true → cid_tcp_socket_ os !! resp_client_id_ r = None →
  send_response r os = Err AssertFailed.
Proof. intros Hr Hb. unfold send_response. by rewrite Hr, Hb. Qed.

(** The responses of a client, in order, numbered consecutively. *)
Definition responses_of (c : Z) (ms : list OMClientResponse) : list OMClientResponse :=
  filter (λ m, resp_cid m = c) ms.

Lemma frame_responses_payload seqs rs : me_client_response_ <$> frame_responses seqs rs = rs.
Proof. revert seqs. induction rs as [|r rs IH]; intros seqs; simpl; [done|]. by f_equal. Qed.

Lemma frame_responses_seq c seqs rs :
  0 ≤ seq_of seqs c → seq_of seqs c + length rs < 2 ^ 64 →
  omresp_seq_num_ <$> responses_of c (frame_responses seqs rs)
  = seqZ (seq_of seqs c) (length (responses_of c (frame_responses seqs rs))).
Proof.
  revert seqs. induction rs as [|r rs IH]; intros seqs H0 Hlt; cbn [frame_responses]; [done|].
  unfold responses_of. rewrite filter_cons. cbn [me_client_response_].
  set (seqs' := <[resp_client_id_ r := _]> seqs). fold (responses_of c (frame_responses seqs' rs)).
  cbn [length] in Hlt.
  destruct (decide (resp_client_id_ r = c)) as [<-|Hne].
  - assert (seq_of seqs' (resp_client_id_ r) = seq_of seqs (resp_client_id_ r) + 1) as E.
    { unfold seqs'. rewrite seq_of_insert, decide_True by done. unfold wrap. apply Z.mod_small. lia. }
    rewrite fmap_cons, IH by lia. cbn [omresp_seq_num_ length].
    rewrite (seqZ_cons _ (S _)) by lia. f_equal. f_equal; lia.
  - assert (seq_of seqs' c = seq_of seqs c) as E.
    { unfold seqs'. by rewrite seq_of_insert, decide_False. }
    rewrite IH by lia. by rewrite E.
Qed.
