(* ===== verification/ServerStreams.v ===== *)
(** * The order server over its connections.

    What [Exchange::OrderServer] (src/exchange/order_server/order_server.{h,cpp})
    has done with the bytes of its connections, in any order of rounds: for every
    client, the requests it staged are those of the client's connection with the
    next sequence numbers, and the bytes of a connection are the framed responses
    of the clients bound to it.

    [server_inv] relates the state to the bytes read and sent per connection, the
    requests staged and the responses handed over; [receives] is a round of the
    sockets, [drain_responses_run] the response loop. *)

From stdpp Require Import gmap list sorting.
From S2P Require Import Prelude MemPool Types LFQueue Wire MatchingEngine OrderServer.

Open Scope Z_scope.
Local Coercion Z.of_nat : nat >-> Z.

(** ** Sequence numbers *)

Section Sequence.
Context {M : Type} (seq : M → Z).
Implicit Types (ms : list M).

Lemma u64_range n : 0 ≤ u64 n < 2 ^ 64.
Proof. unfold wrap. apply Z.mod_pos_bound. lia. Qed.

Lemma u64_small n : 0 ≤ n < 2 ^ 64 → u64 n = n.
Proof. intros H. unfold wrap. by apply Z.mod_small. Qed.

Lemma in_sequence_app n ms1 ms2 :
  0 ≤ n < 2 ^ 64 →
  in_sequence seq n (ms1 ++ ms2)
  = in_sequence seq n ms1 ++ in_sequence seq (u64 (n + length (in_sequence seq n ms1))) ms2.
Proof.
  revert n. induction ms1 as [|m ms1 IH]; intros n Hn; cbn [in_sequence app].
  { cbn [length]. by rewrite Z.add_0_r, u64_small. }
  destruct (seq m =? n); [|by apply IH]. rewrite IH by apply u64_range. cbn [length app]. f_equal. f_equal. f_equal.
  unfold wrap. rewrite Z.add_mod_idemp_l by lia. f_equal. lia.
Qed.

Lemma in_sequence_all n ms :
  seq <$> ms = seqZ n (length ms) → 0 ≤ n → n + length ms < 2 ^ 64 → in_sequence seq n ms = ms.
Proof.
  revert n. induction ms as [|m ms IH]; intros n Hs H0 Hn; [done|]. cbn [length] in *.
  rewrite fmap_cons, (seqZ_cons _ (S _)) in Hs by lia. injection Hs as Hm Hs. cbn [in_sequence].
  rewrite Hm, Z.eqb_refl, u64_small by lia. f_equal. apply IH; [|lia..]. rewrite Hs. f_equal; lia.
Qed.

Lemma in_sequence_length n ms : (length (in_sequence seq n ms) ≤ length ms)%nat.
Proof.
  revert n. induction ms as [|m ms IH]; intros n; cbn [in_sequence length]; [done|].
  destruct (seq m =? n); cbn [length]; [specialize (IH (u64 (n + 1)))|specialize (IH n)]; lia.
Qed.
End Sequence.

(** ** Staged requests *)

(** [msgs fd] are the messages decoded on [fd] so far, [log] the requests staged. *)
Record accept_inv (msgs : Z → list OMClientRequest) (log : list MEClientRequest) (bind exp : gmap Z Z) : Prop := {
  ai_range : ∀ c fd, bind !! c = Some fd → cid_in_range c = true;
  ai_bound : ∀ c fd, bind !! c = Some fd →
    let acc := in_sequence omreq_seq_num_ 1 (of_client c (msgs fd)) in
    filter (λ r, req_client_id_ r = c) log ≡ₚ me_client_request_ <$> acc ∧ seq_of exp c = u64 (1 + length acc);
  ai_unbound : ∀ c, bind !! c = None →
    (∀ fd, of_client c (msgs fd) = []) ∧ filter (λ r, req_client_id_ r = c) log = [] ∧ seq_of exp c = 1 }.

(** One more message on a connection. *)
Definition push_msg (fd : Z) (m : OMClientRequest) (msgs : Z → list OMClientRequest) (fd' : Z) : list OMClientRequest :=
  msgs fd' ++ (if decide (fd = fd') then [m] else []).

Lemma of_client_app c ms1 ms2 : of_client c (ms1 ++ ms2) = of_client c ms1 ++ of_client c ms2.
Proof. apply filter_app. Qed.

Lemma of_client_push c fd m msgs fd' :
  of_client c (push_msg fd m msgs fd')
  = of_client c (msgs fd') ++ (if decide (fd = fd' ∧ req_cid m = c) then [m] else []).
Proof.
  unfold push_msg. rewrite of_client_app. apply (f_equal (app _)). unfold of_client.
  destruct (decide (fd = fd')) as [->|Hne]; [|by rewrite decide_False by naive_solver].
  rewrite filter_cons. destruct (decide (req_cid m = c)); [by rewrite decide_True|by rewrite decide_False by naive_solver].
Qed.

Lemma accept_inv_bind fd c msgs log bind exp :
  accept_inv msgs log bind exp → cid_in_range c = true → bind !! c = None → accept_inv msgs log (<[c := fd]> bind) exp.
Proof.
  intros [Hr Hb Hu] Hc Hn. split.
  - intros c' fd'. rewrite lookup_insert. case_decide; [by subst|]. apply Hr.
  - intros c' fd'. rewrite lookup_insert. case_decide as E; [|apply Hb]. subst c'. intros _.
    destruct (Hu c Hn) as (H1 & H2 & H3). by rewrite H1, H2, H3.
  - intros c'. rewrite lookup_insert. case_decide; [done|]. apply Hu.
Qed.

Lemma filter_snoc_cid (c : Z) (log : list MEClientRequest) r :
  filter (λ r, req_client_id_ r = c) (log ++ [r])
  = filter (λ r, req_client_id_ r = c) log ++ (if decide (req_client_id_ r = c) then [r] else []).
Proof. by rewrite filter_app. Qed.

(** A message of a client that is bound, if it is taken or not. *)
Lemma accept_inv_msg fd m msgs log bind exp fdc :
  accept_inv msgs log bind exp → bind !! req_cid m = Some fdc →
  let taken := bool_decide (fdc = fd ∧ omreq_seq_num_ m = seq_of exp (req_cid m)) in
  accept_inv (push_msg fd m msgs) (if taken then log ++ [me_client_request_ m] else log) bind
    (if taken then <[req_cid m := u64 (seq_of exp (req_cid m) + 1)]> exp else exp).
Proof.
  intros [Hr Hb Hu] Hc taken. split; [done|..].
  - intros c fd' Hfd'. destruct (Hb c fd' Hfd') as [Hp Hs]. rewrite of_client_push.
    destruct (decide (req_cid m = c)) as [E|Hne].
    + subst c. rewrite Hc in Hfd'. injection Hfd' as ->. destruct (decide (fd = fd')) as [->|Hf].
      * rewrite decide_True, in_sequence_app by done. rewrite <- Hs. cbn [in_sequence].
        unfold taken. case_bool_decide as Ht.
        -- destruct Ht as [_ Ht]. rewrite Ht, Z.eqb_refl, filter_snoc_cid, decide_True, fmap_app by done. split; [by rewrite Hp|].
           rewrite seq_of_insert, decide_True, length_app by done. rewrite Hs. cbn [length]. unfold wrap.
           rewrite Z.add_mod_idemp_l by lia. f_equal. lia.
        -- destruct (Z.eqb_spec (omreq_seq_num_ m) (seq_of exp (req_cid m))); [naive_solver|]. by rewrite app_nil_r.
      * rewrite decide_False by naive_solver. rewrite app_nil_r.
        assert (taken = false) as -> by (apply bool_decide_eq_false; naive_solver). done.
    + rewrite decide_False by naive_solver. rewrite app_nil_r. destruct taken; [|done].
      rewrite filter_snoc_cid, decide_False, app_nil_r, seq_of_insert, decide_False by done. done.
  - intros c Hn. destruct (Hu c Hn) as (H1 & H2 & H3). assert (req_cid m ≠ c) as Hne by congruence. split_and!.
    + intros fd'. rewrite of_client_push, decide_False by naive_solver. by rewrite H1.
    + destruct taken; [|done]. by rewrite filter_snoc_cid, decide_False, app_nil_r.
    + destruct taken; [|done]. by rewrite seq_of_insert, decide_False.
Qed.

Lemma accept_inv_proper msgs msgs' log log' bind exp :
  (∀ fd, msgs' fd = msgs fd) → log' ≡ₚ log → accept_inv msgs log bind exp → accept_inv msgs' log' bind exp.
Proof.
  intros Hm Hl [Hr Hb Hu]. split; [done|..].
  - intros c fd Hc. rewrite Hm. destruct (Hb c fd Hc) as [H1 H2]. split; [|done]. by rewrite Hl.
  - intros c Hn. destruct (Hu c Hn) as (H1 & H2 & H3). split_and!; [intros fd; by rewrite Hm| |done].
    apply Permutation_nil. symmetry. by rewrite Hl, H2.
Qed.

(** ** The state and the bytes of the connections *)

Definition read_on (fd : Z) (reps : list socket_report) : bytes := concat (sr_read <$> filter (λ r, sr_fd r = fd) reps).
Definition sent_on (fd : Z) (reps : list socket_report) : bytes := concat (sr_sent <$> filter (λ r, sr_fd r = fd) reps).

Lemma read_on_app fd reps1 reps2 : read_on fd (reps1 ++ reps2) = read_on fd reps1 ++ read_on fd reps2.
Proof. unfold read_on. by rewrite filter_app, fmap_app, concat_app. Qed.

Lemma sent_on_app fd reps1 reps2 : sent_on fd (reps1 ++ reps2) = sent_on fd reps1 ++ sent_on fd reps2.
Proof. unfold sent_on. by rewrite filter_app, fmap_app, concat_app. Qed.

Lemma on_one fd r :
  read_on fd [r] = (if decide (sr_fd r = fd) then sr_read r else [])
  ∧ sent_on fd [r] = (if decide (sr_fd r = fd) then sr_sent r else []).
Proof.
  unfold read_on, sent_on. rewrite !filter_cons, !filter_nil. destruct (decide (sr_fd r = fd)); [|done].
  cbn [fmap list_fmap concat]. by rewrite !app_nil_r.
Qed.

(** The sequence numbers after framing. *)
Fixpoint seqs_after (seqs : gmap Z Z) (rs : list MEClientResponse) : gmap Z Z :=
  match rs with
  | [] => seqs
  | r :: rs => seqs_after (<[resp_client_id_ r := u64 (seq_of seqs (resp_client_id_ r) + 1)]> seqs) rs
  end.

Lemma frame_responses_app seqs rs1 rs2 :
  frame_responses seqs (rs1 ++ rs2) = frame_responses seqs rs1 ++ frame_responses (seqs_after seqs rs1) rs2.
Proof. revert seqs. induction rs1 as [|r rs1 IH]; intros seqs; [done|]. cbn. by rewrite IH. Qed.

Lemma seqs_after_app seqs rs1 rs2 : seqs_after seqs (rs1 ++ rs2) = seqs_after (seqs_after seqs rs1) rs2.
Proof. revert seqs. induction rs1 as [|r rs1 IH]; intros seqs; [done|]. cbn. by rewrite IH. Qed.

(** The messages decoded from the bytes of a connection. *)
Definition decoded_on (reps : list socket_report) (fd : Z) : list OMClientRequest :=
  (parse_stream (M := OMClientRequest) (read_on fd reps)).1.

Record server_inv (log : list MEClientRequest) (answered : list MEClientResponse) (reps : list socket_report)
    (os : OrderServer) : Prop := {
  sv_accept : accept_inv (decoded_on reps) log (cid_tcp_socket_ os) (cid_next_exp_seq_num_ os);
  sv_inbound : ∀ fd, inbound_data_ (socket_of os fd) = (parse_stream (M := OMClientRequest) (read_on fd reps)).2;
  sv_outbound : ∀ fd, sent_on fd reps ++ outbound_data_ (socket_of os fd)
    = response_stream (to_socket (cid_tcp_socket_ os) fd (frame_responses ∅ answered));
  sv_next : cid_next_outgoing_seq_num_ os = seqs_after ∅ answered;
  sv_answered : Forall (λ r, is_Some (cid_tcp_socket_ os !! resp_client_id_ r)) answered }.

Lemma server_inv_new q1 q2 : server_inv [] [] [] (OrderServer_new q1 q2).
Proof. by split. Qed.

(** *** A round of the sockets *)

Definition push_msgs (fd : Z) (ms : list OMClientRequest) (msgs : Z → list OMClientRequest) (fd' : Z) : list OMClientRequest :=
  msgs fd' ++ (if decide (fd = fd') then ms else []).

(** What the receive half leaves alone. *)
Record same_outputs (os os' : OrderServer) : Prop := {
  sm_requests : os_incoming_requests_ os' = os_incoming_requests_ os;
  sm_responses : outgoing_responses_ os' = outgoing_responses_ os;
  sm_numbers : cid_next_outgoing_seq_num_ os' = cid_next_outgoing_seq_num_ os;
  sm_bindings : cid_tcp_socket_ os ⊆ cid_tcp_socket_ os' }.

#[export] Instance same_outputs_preorder : PreOrder same_outputs.
Proof.
  split; [by intros os|]. intros os1 os2 os3 [A1 A2 A3 A4] [B1 B2 B3 B4]. split; [congruence..|by etrans].
Qed.

Definition staged (base : list MEClientRequest) (os : OrderServer) : list MEClientRequest :=
  base ++ (request_ <$> pending_client_requests_ os).

Lemma recv_request_run fd t base msgs os m os' :
  recv_request fd t os m = Ok os' →
  accept_inv msgs (staged base os) (cid_tcp_socket_ os) (cid_next_exp_seq_num_ os) →
  accept_inv (push_msg fd m msgs) (staged base os') (cid_tcp_socket_ os') (cid_next_exp_seq_num_ os')
  ∧ same_outputs os os' ∧ sockets_ os' = sockets_ os.
Proof.
  unfold recv_request. destruct (cid_in_range _) eqn:Hr; [|done]. cbn [negb]. intros H Hi.
  set (b := match cid_tcp_socket_ os !! req_cid m with None => _ | Some _ => _ end) in H.
  assert (cid_tcp_socket_ os ⊆ b ∧ is_Some (b !! req_cid m)
    ∧ accept_inv msgs (staged base os) b (cid_next_exp_seq_num_ os)) as (Hsub & [fdc Hfdc] & Hi').
  { unfold b. destruct (cid_tcp_socket_ os !! req_cid m) eqn:E; [by rewrite E|].
    split_and!; [by apply insert_subseteq|by rewrite lookup_insert_eq|by apply accept_inv_bind]. }
  pose proof (accept_inv_msg fd m msgs _ b _ fdc Hi' Hfdc) as Hm. cbn zeta in Hm. revert H. rewrite Hfdc.
  destruct (decide (fdc = fd)) as [->|Hne].
  2: { rewrite (bool_decide_eq_true_2 (_ ≠ _)) by naive_solver. intros [= <-].
       rewrite bool_decide_eq_false_2 in Hm by naive_solver. done. }
  rewrite (bool_decide_eq_false_2 (_ ≠ _)) by naive_solver. cbn [cid_next_exp_seq_num_].
  destruct (Z.eqb_spec (omreq_seq_num_ m) (seq_of (cid_next_exp_seq_num_ os) (req_cid m))) as [Es|Es]; cbn [negb].
  2: { intros [= <-]. rewrite bool_decide_eq_false_2 in Hm by naive_solver. done. }
  rewrite bool_decide_eq_true_2 in Hm by done. intros (pending & Hp & [= <-])%bind_ok.
  unfold addClientRequest in Hp. cbn [pending_client_requests_] in Hp. destruct (_ <=? _); [done|]. injection Hp as <-.
  split_and!; [|done..]. unfold staged in *. cbn [pending_client_requests_]. rewrite fmap_app, (assoc_L (++)). exact Hm.
Qed.

Lemma recv_requests_run fd t ms base msgs os os' :
  recv_requests fd t ms os = Ok os' →
  accept_inv msgs (staged base os) (cid_tcp_socket_ os) (cid_next_exp_seq_num_ os) →
  accept_inv (push_msgs fd ms msgs) (staged base os') (cid_tcp_socket_ os') (cid_next_exp_seq_num_ os')
  ∧ same_outputs os os' ∧ sockets_ os' = sockets_ os.
Proof.
  revert msgs os. induction ms as [|m ms IH]; intros msgs os; simpl.
  { intros [= <-] Hi. split_and!; [|done..]. eapply accept_inv_proper; [|done|exact Hi].
    intros fd'. unfold push_msgs. case_decide; by rewrite app_nil_r. }
  intros (os1 & H1 & H2)%bind_ok Hi. destruct (recv_request_run fd t base msgs os m os1 H1 Hi) as (Hi1 & Hs1 & Es1).
  destruct (IH _ _ H2 Hi1) as (Hi2 & Hs2 & Es2). split_and!; [|by etrans|congruence].
  eapply accept_inv_proper; [|done|exact Hi2]. intros fd'. unfold push_msgs, push_msg.
  case_decide; [by rewrite <- (assoc_L (++))|by rewrite !app_nil_r].
Qed.

(** More bindings do not move the responses already framed. *)
Lemma to_socket_grow bind bind' fd seqs rs :
  bind ⊆ bind' → Forall (λ r, is_Some (bind !! resp_client_id_ r)) rs →
  to_socket bind' fd (frame_responses seqs rs) = to_socket bind fd (frame_responses seqs rs).
Proof.
  intros Hsub Hrs. revert seqs. induction Hrs as [|r rs [fdr Hr] _ IH]; intros seqs; [done|]. cbn [frame_responses].
  rewrite !to_socket_cons. cbn [me_client_response_]. by rewrite Hr, (lookup_weaken _ _ _ _ Hr Hsub), IH.
Qed.

Lemma tcp_recv_read avail s :
  let '(fired, unread, s') := tcp_recv avail s in
  let read := take (length avail - length unread) avail in
  inbound_data_ s' = inbound_data_ s ++ read ∧ outbound_data_ s' = outbound_data_ s ∧ (fired = false → read = []).
Proof.
  unfold tcp_recv. set (room := Z.to_nat _). cbn [inbound_data_ outbound_data_].
  assert (take (length avail - length (drop room avail)) avail = take room avail) as ->.
  { rewrite length_drop. destruct (decide (room ≤ length avail)%nat).
    - f_equal. lia.
    - rewrite !take_ge by lia. done. }
  split_and!; [done..|]. intros Hf. apply negb_false_iff, Nat.eqb_eq in Hf. by apply nil_length_inv.
Qed.

Lemma socket_of_set fd s os fd' : socket_of (set_socket fd s os) fd' = if decide (fd = fd') then s else socket_of os fd'.
Proof. unfold socket_of, set_socket. cbn [sockets_]. rewrite lookup_insert. by case_decide. Qed.

Lemma parse_read_on fd reps r :
  parse_stream (M := OMClientRequest) (read_on fd (reps ++ [r]))
  = let '(ms, rest) := parse_stream (read_on fd reps) in
    let '(ms', rest') := parse_stream (rest ++ (if decide (sr_fd r = fd) then sr_read r else [])) in (ms ++ ms', rest').
Proof. rewrite read_on_app, (proj1 (on_one fd r)). apply parse_stream_app. Qed.

(** Nothing whole is left over. *)
Lemma parse_rest_nil bs :
  (length bs < wire_size (M := OMClientRequest))%nat → parse_stream (M := OMClientRequest) bs = ([], bs).
Proof.
  intros Hl. rewrite parse_stream_unfold. by destruct (Nat.leb_spec (wire_size (M := OMClientRequest)) (length bs)); [lia|].
Qed.

Lemma parse_rest_short bs ms rest :
  parse_stream (M := OMClientRequest) bs = (ms, rest) → parse_stream (M := OMClientRequest) rest = ([], rest).
Proof. intros E. apply parse_rest_nil. pose proof (parse_stream_rest (M := OMClientRequest) bs) as H. by rewrite E in H. Qed.

(** The receive half: the messages [ms] of the bytes [read] on connection [fd]. *)
Lemma recv_half_run fd t avail base answered reps os fired unread s1 os1 :
  tcp_recv avail (socket_of os fd) = (fired, unread, s1) →
  (if fired then recvCallback fd t (set_socket fd s1 os) else Ok (set_socket fd s1 os)) = Ok os1 →
  server_inv (staged base os) answered reps os →
  let '(ms, rest) := parse_stream ((parse_stream (M := OMClientRequest) (read_on fd reps)).2
                                   ++ take (length avail - length unread) avail) in
  accept_inv (push_msgs fd ms (decoded_on reps)) (staged base os1) (cid_tcp_socket_ os1) (cid_next_exp_seq_num_ os1)
  ∧ same_outputs os os1
  ∧ ∀ fd', inbound_data_ (socket_of os1 fd') = (if decide (fd = fd') then rest else inbound_data_ (socket_of os fd'))
      ∧ outbound_data_ (socket_of os1 fd') = outbound_data_ (socket_of os fd').
Proof.
  intros Er Hcb [Ha Hin _ _ _]. pose proof (tcp_recv_read avail (socket_of os fd)) as Hrd. rewrite Er in Hrd. cbn zeta in Hrd.
  set (read := take _ avail) in *. destruct Hrd as (Hi1 & Ho1 & Hnf). rewrite <- (Hin fd), <- Hi1. destruct fired.
  - unfold recvCallback in Hcb. rewrite socket_of_set, decide_True in Hcb by done.
    destruct (parse_stream (inbound_data_ s1)) as [ms rest]. apply bind_ok in Hcb as (os2 & H2 & [= <-]).
    destruct (recv_requests_run fd t ms base (decoded_on reps) (set_socket fd s1 os) os2 H2 Ha) as (Ha2 & [S1 S2 S3 S4] & Es2).
    assert (∀ fd', socket_of os2 fd' = socket_of (set_socket fd s1 os) fd') as Es by (intros fd'; unfold socket_of; by rewrite Es2).
    split_and!; [exact Ha2|by split|]. intros fd'. rewrite socket_of_set, !Es, !socket_of_set. destruct (decide (fd = fd')) as [<-|].
    + by rewrite decide_True.
    + done.
  - injection Hcb as <-. rewrite (Hnf eq_refl), app_nil_r, Hin in Hi1. destruct (parse_stream (read_on fd reps)) as [ms0 rest0] eqn:E0.
    cbn [snd] in Hi1. rewrite Hi1, (parse_rest_short _ _ _ E0). split_and!; [|done|].
    + eapply accept_inv_proper; [|done|exact Ha]. intros fd'. unfold push_msgs. case_decide; by rewrite app_nil_r.
    + intros fd'. rewrite socket_of_set. case_decide; [by subst|done].
Qed.

Lemma decoded_on_snoc fd read sent reps ms rest fd' :
  parse_stream (M := OMClientRequest) ((parse_stream (M := OMClientRequest) (read_on fd reps)).2 ++ read) = (ms, rest) →
  parse_stream (M := OMClientRequest) (read_on fd' (reps ++ [mkReport fd read sent]))
  = (push_msgs fd ms (decoded_on reps) fd',
     if decide (fd = fd') then rest else (parse_stream (M := OMClientRequest) (read_on fd' reps)).2).
Proof.
  intros E. rewrite parse_read_on. cbn [sr_fd sr_read]. unfold push_msgs, decoded_on. case_decide as Ef.
  - subst fd'. destruct (parse_stream (read_on fd reps)) as [ms0 rest0]. cbn [fst snd] in *. by rewrite E.
  - destruct (parse_stream (read_on fd' reps)) as [ms' rest'] eqn:E'. by rewrite app_nil_r, (parse_rest_short _ _ _ E').
Qed.

Lemma socket_sendAndRecv_run io base answered reps os fired rep os' :
  socket_sendAndRecv io os = Ok (fired, rep, os') → server_inv (staged base os) answered reps os →
  server_inv (staged base os') answered (reps ++ [rep]) os' ∧ same_outputs os os'.
Proof.
  intros H Hi. unfold socket_sendAndRecv in H. set (fd := io_fd io) in *.
  destruct (tcp_recv (io_avail io) (socket_of os fd)) as [[fr unread] s1] eqn:Er.
  apply bind_ok in H as (os1 & Hcb & H). destruct (tcp_flush (io_sent io) (socket_of os1 fd)) as [sent s2] eqn:Ef.
  injection H as -> <- <-. pose proof (recv_half_run _ _ _ base answered reps _ _ _ _ _ Er Hcb Hi) as Hr.
  pose proof (tcp_flush_stream (io_sent io) (socket_of os1 fd)) as Hfl. rewrite Ef in Hfl.
  assert (inbound_data_ s2 = inbound_data_ (socket_of os1 fd)) as Hfi.
  { unfold tcp_flush in Ef. by destruct (0 <? io_sent io); injection Ef as <- <-. }
  set (read := take _ (io_avail io)) in *. destruct (parse_stream _) as [ms rest] eqn:E1. destruct Hr as (Hacc & Hso & Hsock).
  pose proof (λ fd', decoded_on_snoc fd read sent reps ms rest fd' E1) as Hpr. destruct Hi as [Ha Hin Hout Hn Hans].
  split; [|destruct Hso; by split]. split.
  - eapply accept_inv_proper; [|done|exact Hacc]. intros fd'. unfold decoded_on at 1. by rewrite Hpr.
  - intros fd'. rewrite Hpr, socket_of_set. cbn [snd]. destruct (Hsock fd') as [H1 _]. case_decide as E; [by subst fd'; rewrite Hfi|].
    by rewrite H1.
  - intros fd'. rewrite sent_on_app, (proj2 (on_one _ _)), socket_of_set. cbn [sr_fd sr_sent].
    change (cid_tcp_socket_ (set_socket fd s2 os1)) with (cid_tcp_socket_ os1).
    rewrite (to_socket_grow (cid_tcp_socket_ os)) by (done || apply Hso). rewrite <- Hout, <- (assoc_L (++)). f_equal.
    rewrite <- (proj2 (Hsock fd')). case_decide as E; [by subst fd'|done].
  - by rewrite <- Hn, <- (sm_numbers _ _ Hso).
  - eapply Forall_impl; [exact Hans|]. intros r [fdr Hr]. exists fdr. eapply lookup_weaken; [exact Hr|apply Hso].
Qed.

Lemma sockets_round_run ios any base answered reps os any' reps' os' :
  sockets_round ios any os = Ok (any', reps', os') → server_inv (staged base os) answered reps os →
  server_inv (staged base os') answered (reps ++ reps') os' ∧ same_outputs os os'.
Proof.
  revert any reps reps' os. induction ios as [|io ios IH]; intros any reps reps' os; simpl.
  { intros [= _ <- <-] Hi. by rewrite app_nil_r. }
  intros ([[f rep] os1] & H1 & H2)%bind_ok Hi. apply bind_ok in H2 as ([[a reps1] os2] & H2 & [= -> <- <-]).
  destruct (socket_sendAndRecv_run _ _ _ _ _ _ _ _ H1 Hi) as [Hi1 Hs1]. destruct (IH _ _ _ _ H2 Hi1) as [Hi2 Hs2].
  rewrite <- (assoc_L (++)) in Hi2. split; [exact Hi2|by etrans].
Qed.

(** *** A round does not fail while the batch has room *)

(** The messages a connection completes with what it reads in a round. *)
Definition completed_on (os : OrderServer) (io : socket_io) : list OMClientRequest :=
  (parse_stream (inbound_data_ (tcp_recv (io_avail io) (socket_of os (io_fd io))).2)).1.

Definition id_in_range (m : OMClientRequest) : Prop := cid_in_range (req_client_id_ (me_client_request_ m)) = true.

Lemma socket_sendAndRecv_ok io os :
  Forall id_in_range (completed_on os io) →
  length (pending_client_requests_ os) + length (completed_on os io) ≤ ME_MAX_PENDING_REQUESTS →
  ∃ fired rep os', socket_sendAndRecv io os = Ok (fired, rep, os')
    ∧ length (pending_client_requests_ os') ≤ length (pending_client_requests_ os) + length (completed_on os io)
    ∧ ∀ fd, fd ≠ io_fd io → socket_of os' fd = socket_of os fd.
Proof.
  unfold completed_on, socket_sendAndRecv. set (fd := io_fd io).
  destruct (tcp_recv (io_avail io) (socket_of os fd)) as [[fired unread] s] eqn:Er. cbn [snd]. intros Hr Hl.
  assert (∃ os1, (if fired then recvCallback fd (io_time io) (set_socket fd s os) else Ok (set_socket fd s os)) = Ok os1
    ∧ length (pending_client_requests_ os1) ≤ length (pending_client_requests_ os) + length (parse_stream (M := OMClientRequest) (inbound_data_ s)).1
    ∧ ∀ fd', fd' ≠ fd → socket_of os1 fd' = socket_of os fd') as (os1 & -> & Hp & Hs).
  - destruct fired; [|eexists; split_and!; [done|cbn [set_socket pending_client_requests_]; lia|intros; by rewrite socket_of_set, decide_False]].
    unfold recvCallback. rewrite socket_of_set, decide_True by done.
    destruct (parse_stream (inbound_data_ s)) as [ms rest]. cbn [fst] in *.
    pose proof (recv_requests_ok fd (io_time io) ms (set_socket fd s os) Hr Hl) as E.
    destruct (accept_run fd _ _ ms) as [[bind exp] acc] eqn:Ea. rewrite E. cbn [rbind]. eexists. split; [done|]. split.
    + cbn [set_socket pending_client_requests_]. rewrite length_app, length_fmap.
      apply accept_run_sublist, sublist_length in Ea. lia.
    + intros fd' Hne. rewrite socket_of_set, decide_False by done. unfold socket_of. cbn [set_socket sockets_].
      by rewrite lookup_insert_ne.
  - cbn [rbind]. destruct (tcp_flush _ _) as [sent s2]. do 3 eexists. split; [done|]. split; [exact Hp|].
    intros fd' Hne. rewrite socket_of_set, decide_False by done. by apply Hs.
Qed.

Lemma sockets_round_ok ios any os :
  NoDup (io_fd <$> ios) → Forall id_in_range (ios ≫= completed_on os) →
  length (pending_client_requests_ os) + length (ios ≫= completed_on os) ≤ ME_MAX_PENDING_REQUESTS →
  ∃ r, sockets_round ios any os = Ok r.
Proof.
  revert any os. induction ios as [|io ios IH]; intros any os Hnd Hr Hl; [by eexists|]. cbn [sockets_round].
  rewrite bind_cons in Hr, Hl. rewrite length_app in Hl. apply Forall_app in Hr as [Hr1 Hr2].
  rewrite fmap_cons in Hnd. apply NoDup_cons in Hnd as [Hn Hnd].
  destruct (socket_sendAndRecv_ok io os Hr1) as (fired & rep & os1 & -> & Hp & Hs); [lia|]. cbn [rbind].
  assert (ios ≫= completed_on os1 = ios ≫= completed_on os) as E.
  { apply Forall_bind_ext, Forall_forall. intros io' Hin. unfold completed_on. rewrite Hs; [done|].
    intros Ef. apply Hn. rewrite <- Ef. by apply list_elem_of_fmap_2. }
  destruct (IH (fired || any) os1 Hnd) as [[[a reps] os2] ->]; [by rewrite E|rewrite E; lia|]. by eexists.
Qed.

(** *** The response loop *)

Lemma send_response_run r rs log answered reps os os' :
  lfq_rep (outgoing_responses_ os) (r :: rs) → send_response r os = Ok os' → server_inv log answered reps os →
  server_inv log (answered ++ [r]) reps os' ∧ lfq_rep (outgoing_responses_ os') rs
  ∧ os_incoming_requests_ os' = os_incoming_requests_ os ∧ pending_client_requests_ os' = pending_client_requests_ os
  ∧ q_size (outgoing_responses_ os') = q_size (outgoing_responses_ os).
Proof.
  intros Hq Hs [Ha Hin Hout Hn Hans]. unfold send_response in Hs. destruct (negb _); [done|].
  destruct (cid_tcp_socket_ os !! resp_client_id_ r) as [fd|] eqn:Hfd; [|done]. apply bind_ok in Hs as (s1 & H1 & Hs).
  apply bind_ok in Hs as (s2 & H2 & Hs). destruct (updateReadIndex_ok _ _ _ Hq) as (q' & Eq & Hq' & Hsz). rewrite Eq in Hs.
  cbn [rbind] in Hs. injection Hs as <-. split; [|done].
  assert (∀ s s' d, tcp_send d s = Ok s' → inbound_data_ s' = inbound_data_ s) as Hti.
  { intros s s' d. unfold tcp_send. case_match; [done|]. by intros [= <-]. }
  assert (∀ fd', socket_of (mkOrderServer (<[resp_client_id_ r := u64 (seq_of (cid_next_outgoing_seq_num_ os) (resp_client_id_ r) + 1)]>
      (cid_next_outgoing_seq_num_ os)) (cid_next_exp_seq_num_ os) (cid_tcp_socket_ os) (<[fd := s2]> (sockets_ os))
      (pending_client_requests_ os) (os_incoming_requests_ os) q') fd' = if decide (fd = fd') then s2 else socket_of os fd') as Hso.
  { intros fd'. unfold socket_of. cbn [sockets_]. rewrite lookup_insert. by case_decide. }
  split; cbn [cid_tcp_socket_ cid_next_exp_seq_num_ cid_next_outgoing_seq_num_]; [exact Ha|..].
  - intros fd'. rewrite Hso. case_decide; [subst fd'|done]. rewrite (Hti _ _ _ H2), (Hti _ _ _ H1). apply Hin.
  - intros fd'. rewrite Hso, frame_responses_app. cbn [frame_responses]. unfold to_socket, response_stream.
    rewrite filter_app, fmap_app, concat_app. fold (to_socket (cid_tcp_socket_ os) fd' (frame_responses ∅ answered)).
    fold (response_stream (to_socket (cid_tcp_socket_ os) fd' (frame_responses ∅ answered))). rewrite <- Hout, <- Hn.
    rewrite filter_cons, filter_nil. cbn [me_client_response_]. rewrite Hfd. case_decide as E.
    + subst fd'. rewrite decide_True by done. cbn [fmap list_fmap concat].
      rewrite app_nil_r, (tcp_send_stream _ _ _ H2), (tcp_send_stream _ _ _ H1), <- !(assoc_L (++)). done.
    + rewrite decide_False by congruence. cbn [fmap list_fmap concat]. by rewrite app_nil_r.
  - by rewrite seqs_after_app, <- Hn.
  - apply Forall_app. split; [exact Hans|]. apply Forall_singleton. by rewrite Hfd.
Qed.

Lemma drain_responses_run rs n log answered reps os os' :
  lfq_rep (outgoing_responses_ os) rs → drain_responses n os = Ok os' → server_inv log answered reps os →
  server_inv log (answered ++ rs) reps os' ∧ lfq_rep (outgoing_responses_ os') []
  ∧ os_incoming_requests_ os' = os_incoming_requests_ os ∧ pending_client_requests_ os' = pending_client_requests_ os
  ∧ q_size (outgoing_responses_ os') = q_size (outgoing_responses_ os).
Proof.
  revert n answered os. induction rs as [|r rs IH]; intros n answered os Hq.
  { destruct n; cbn [drain_responses]; rewrite (getNextToRead_ok _ _ Hq); intros [= <-] Hi; by rewrite app_nil_r. }
  destruct n as [|n]; cbn [drain_responses]; rewrite (getNextToRead_ok _ _ Hq); [done|]. cbn [head].
  intros (os1 & H1 & H2)%bind_ok Hi.
  destruct (send_response_run r rs log answered reps os os1 Hq H1 Hi) as (Hi1 & Hq1 & E1 & E2 & E3).
  destruct (IH n _ _ Hq1 H2 Hi1) as (Hi2 & Hq2 & F1 & F2 & F3). rewrite <- (assoc_L (++)) in Hi2. split_and!; try congruence; done.
Qed.

(** *** What the invariant gives *)

Definition bound (os : OrderServer) (c : Z) : Prop := cid_in_range c = true ∧ is_Some (cid_tcp_socket_ os !! c).

Lemma server_inv_bound log answered reps os :
  server_inv log answered reps os → Forall (λ r, bound os (req_client_id_ r)) log.
Proof.
  intros [Ha _ _ _ _]. apply Forall_forall. intros r Hr. destruct (cid_tcp_socket_ os !! req_client_id_ r) as [fd|] eqn:E.
  - split; [by eapply ai_range|by rewrite E].
  - destruct (ai_unbound _ _ _ _ Ha _ E) as (_ & Hf & _). exfalso.
    assert (r ∈ filter (λ r', req_client_id_ r' = req_client_id_ r) log) as Hin by (by apply list_elem_of_filter).
    rewrite Hf in Hin. by apply elem_of_nil in Hin.
Qed.

Lemma server_inv_log log log' answered reps os :
  log' ≡ₚ log → server_inv log answered reps os → server_inv log' answered reps os.
Proof. intros Hp [Ha H1 H2 H3 H4]. split; [|done..]. by eapply accept_inv_proper. Qed.
