(* ===== verification/OrderGateway.v ===== *)
(** * The client's order gateway.

    [Trading::OrderGateway] (src/trading/order_gw/order_gateway.{h,cpp}): requests
    from the trade engine are numbered and staged on the TCP socket, responses
    are checked against the client id and the expected sequence number and
    forwarded.  With OrderServer.v: a session between the two ends. *)

From stdpp Require Import gmap list sorting.
From S2P Require Import Prelude MemPool Types LFQueue Wire MEOrderBook MatchingEngine OrderServer.

Open Scope Z_scope.
Local Coercion Z.of_nat : nat >-> Z.

Record OrderGateway := mkOrderGateway {
  gw_client_id_ : Z;
  outgoing_requests_ : LFQueue MEClientRequest;
  incoming_responses_ : LFQueue MEClientResponse;
  next_outgoing_seq_num_ : Z;
  next_exp_seq_num_ : Z;
  tcp_socket_ : TCPSocket }.

Definition OrderGateway_new (client_id : Z) (requests : LFQueue MEClientRequest)
    (responses : LFQueue MEClientResponse) : OrderGateway :=
  mkOrderGateway client_id requests responses 1 1 TCPSocket_new.

(** The body of the request loop of [run]. *)
Definition send_request (r : MEClientRequest) (g : OrderGateway) : result OrderGateway :=
  let* s := tcp_send (u64_enc (next_outgoing_seq_num_ g)) (tcp_socket_ g) in
  let* s := tcp_send (encode_request r) s in
  let* q := updateReadIndex (outgoing_requests_ g) in
  Ok (mkOrderGateway (gw_client_id_ g) q (incoming_responses_ g)
        (u64 (next_outgoing_seq_num_ g + 1)) (next_exp_seq_num_ g) s).

Fixpoint drain_requests (n : nat) (g : OrderGateway) : result OrderGateway :=
  match getNextToRead (outgoing_requests_ g) with
  | None => Ok g
  | Some r =>
      match n with
      | O => Err OutOfFuel
      | S n => let* g := send_request r g in drain_requests n g
      end
  end.

(** The body of the loop of [recvCallback]. *)
Definition recv_response (response : OMClientResponse) (g : OrderGateway) : OrderGateway :=
  if negb (resp_client_id_ (me_client_response_ response) =? gw_client_id_ g) then g else
  if negb (omresp_seq_num_ response =? next_exp_seq_num_ g) then g else
  mkOrderGateway (gw_client_id_ g) (outgoing_requests_ g)
    (enqueue (me_client_response_ response) (incoming_responses_ g)) (next_outgoing_seq_num_ g)
    (u64 (next_exp_seq_num_ g + 1)) (tcp_socket_ g).

Definition recv_responses (ms : list OMClientResponse) (g : OrderGateway) : OrderGateway :=
  foldl (λ g m, recv_response m g) g ms.

(** [recvCallback]: decode the whole messages, keep the partial one. *)
Definition gw_recvCallback (g : OrderGateway) : OrderGateway :=
  let '(ms, rest) := parse_stream (M := OMClientResponse) (inbound_data_ (tcp_socket_ g)) in
  let g := recv_responses ms g in
  mkOrderGateway (gw_client_id_ g) (outgoing_requests_ g) (incoming_responses_ g)
    (next_outgoing_seq_num_ g) (next_exp_seq_num_ g) (mkTCPSocket (outbound_data_ (tcp_socket_ g)) rest).

Definition set_gw_socket (s : TCPSocket) (g : OrderGateway) : OrderGateway :=
  mkOrderGateway (gw_client_id_ g) (outgoing_requests_ g) (incoming_responses_ g)
    (next_outgoing_seq_num_ g) (next_exp_seq_num_ g) s.

(** One turn of [run]: [sendAndRecv] with [avail] to read and [n] bytes accepted
    for sending, then the waiting requests.  Returns the bytes left to read, the
    bytes sent and the new state. *)
Definition gateway_turn (avail : bytes) (n : Z) (g : OrderGateway) : result (bytes * bytes * OrderGateway) :=
  let '(fired, unread, s) := tcp_recv avail (tcp_socket_ g) in
  let g := set_gw_socket s g in
  let g := if fired then gw_recvCallback g else g in
  let '(sent, s) := tcp_flush n (tcp_socket_ g) in
  let* g := drain_requests (Z.to_nat (q_size (outgoing_requests_ g))) (set_gw_socket s g) in
  Ok (unread, sent, g).

(** ** Outgoing *)

Fixpoint frame_requests (seq : Z) (rs : list MEClientRequest) : list OMClientRequest :=
  match rs with
  | [] => []
  | r :: rs => mkOMClientRequest seq r :: frame_requests (seq + 1) rs
  end.

Lemma length_encode_request r : length (encode_request r) = 30%nat.
Proof. unfold encode_request, u8_enc, u32_enc, u64_enc, i64_enc. by rewrite !length_app, !length_le_encode. Qed.

Lemma send_request_ok r rs g :
  lfq_rep (outgoing_requests_ g) (r :: rs) → length (outbound_data_ (tcp_socket_ g)) + 38 ≤ TCPBufferSize →
  ∃ g', send_request r g = Ok g' ∧ lfq_rep (outgoing_requests_ g') rs
    ∧ gw_client_id_ g' = gw_client_id_ g ∧ incoming_responses_ g' = incoming_responses_ g
    ∧ next_exp_seq_num_ g' = next_exp_seq_num_ g ∧ next_outgoing_seq_num_ g' = u64 (next_outgoing_seq_num_ g + 1)
    ∧ tcp_socket_ g' = mkTCPSocket (outbound_data_ (tcp_socket_ g)
        ++ encode (mkOMClientRequest (next_outgoing_seq_num_ g) r)) (inbound_data_ (tcp_socket_ g)).
Proof.
  intros Hq Hl. unfold send_request.
  assert (length (u64_enc (next_outgoing_seq_num_ g)) = 8%nat) as H8 by apply length_le_encode.
  rewrite tcp_send_ok by lia. cbn [rbind].
  rewrite tcp_send_ok by (cbn [outbound_data_]; rewrite length_app, length_encode_request; lia). cbn [rbind].
  destruct (updateReadIndex_ok _ _ _ Hq) as (q' & -> & Hq' & _). cbn [rbind].
  eexists. split; [done|]. split_and!; try done. cbn [outbound_data_ inbound_data_ tcp_socket_].
  by rewrite <- (assoc_L (++)).
Qed.

Lemma drain_requests_ok rs n g :
  lfq_rep (outgoing_requests_ g) rs → (length rs ≤ n)%nat →
  length (outbound_data_ (tcp_socket_ g)) + 38 * length rs ≤ TCPBufferSize →
  0 ≤ next_outgoing_seq_num_ g → next_outgoing_seq_num_ g + length rs < 2 ^ 64 →
  ∃ g', drain_requests n g = Ok g' ∧ lfq_rep (outgoing_requests_ g') []
    ∧ gw_client_id_ g' = gw_client_id_ g ∧ incoming_responses_ g' = incoming_responses_ g
    ∧ next_exp_seq_num_ g' = next_exp_seq_num_ g ∧ next_outgoing_seq_num_ g' = next_outgoing_seq_num_ g + length rs
    ∧ tcp_socket_ g' = mkTCPSocket (outbound_data_ (tcp_socket_ g)
        ++ concat (encode <$> frame_requests (next_outgoing_seq_num_ g) rs)) (inbound_data_ (tcp_socket_ g)).
Proof.
  revert n g. induction rs as [|r rs IH]; intros n g Hq Hn Hl H0 Hlt.
  { exists g. rewrite app_nil_r. split_and!; [|done..|simpl; lia|by destruct (tcp_socket_ g)].
    destruct n; simpl; by rewrite (getNextToRead_ok _ _ Hq). }
  destruct n as [|n]; [simpl in Hn; lia|]. cbn [length] in *.
  destruct (send_request_ok r rs g Hq) as (g1 & E & Hq1 & Hc & Hi & He & Hs & Ht); [lia|].
  assert (next_outgoing_seq_num_ g1 = next_outgoing_seq_num_ g + 1) as Hs'
    by (rewrite Hs; unfold wrap; apply Z.mod_small; lia).
  simpl. rewrite (getNextToRead_ok _ _ Hq). simpl. rewrite E. cbn [rbind].
  destruct (IH n g1 Hq1) as (g' & E' & Hq' & Hc' & Hi' & He' & Hs2 & Ht'); [lia| |lia|lia|].
  { rewrite Ht. cbn [outbound_data_]. rewrite length_app, length_encode. simpl. lia. }
  exists g'. rewrite Hs' in *. split_and!; try congruence; [lia|].
  rewrite Ht', Ht. cbn [outbound_data_ inbound_data_ fmap list_fmap concat]. by rewrite <- (assoc_L (++)).
Qed.

(** ** Incoming *)

(** The responses accepted: ours, with the next sequence numbers. *)
Lemma recv_responses_ok ms g rs :
  (∀ m, m ∈ ms → resp_cid m = gw_client_id_ g) →
  omresp_seq_num_ <$> ms = seqZ (next_exp_seq_num_ g) (length ms) →
  0 ≤ next_exp_seq_num_ g → next_exp_seq_num_ g + length ms < 2 ^ 64 →
  lfq_rep (incoming_responses_ g) rs → length rs + length ms ≤ q_size (incoming_responses_ g) →
  let g' := recv_responses ms g in
  lfq_rep (incoming_responses_ g') (rs ++ (me_client_response_ <$> ms))
  ∧ next_exp_seq_num_ g' = next_exp_seq_num_ g + length ms ∧ gw_client_id_ g' = gw_client_id_ g
  ∧ outgoing_requests_ g' = outgoing_requests_ g ∧ next_outgoing_seq_num_ g' = next_outgoing_seq_num_ g
  ∧ tcp_socket_ g' = tcp_socket_ g.
Proof.
  revert g rs. induction ms as [|m ms IH]; intros g rs Hc Hseq H0 Hlt Hq Hroom; simpl.
  { rewrite app_nil_r. split_and!; try done. lia. }
  cbn [length] in *. rewrite fmap_cons, (seqZ_cons _ (S _)) in Hseq by lia. injection Hseq as Hm Hms.
  assert (recv_response m g = mkOrderGateway (gw_client_id_ g) (outgoing_requests_ g)
    (enqueue (me_client_response_ m) (incoming_responses_ g)) (next_outgoing_seq_num_ g)
    (next_exp_seq_num_ g + 1) (tcp_socket_ g)) as E.
  { unfold recv_response. rewrite Hc by set_solver. rewrite Hm, !Z.eqb_refl. simpl. f_equal.
    unfold wrap. apply Z.mod_small. lia. }
  rewrite E. destruct (enqueue_ok (incoming_responses_ g) rs (me_client_response_ m) Hq ltac:(lia)) as [Hq' Hsz].
  specialize (IH (mkOrderGateway (gw_client_id_ g) (outgoing_requests_ g)
    (enqueue (me_client_response_ m) (incoming_responses_ g)) (next_outgoing_seq_num_ g)
    (next_exp_seq_num_ g + 1) (tcp_socket_ g)) (rs ++ [me_client_response_ m])).
  cbn [gw_client_id_ outgoing_requests_ incoming_responses_ next_outgoing_seq_num_ next_exp_seq_num_ tcp_socket_] in IH.
  destruct IH as (H1 & H2 & H3); [set_solver| |lia|lia|done|rewrite Hsz, length_app; simpl; lia|].
  { rewrite Hms. f_equal; lia. }
  split_and!; [|rewrite H2; lia|apply H3..]. by rewrite <- (assoc_L (++)) in H1.
Qed.

(** Anything else is dropped. *)
Lemma recv_response_drops m g :
  resp_cid m ≠ gw_client_id_ g ∨ omresp_seq_num_ m ≠ next_exp_seq_num_ g → recv_response m g = g.
Proof.
  intros H. unfold recv_response. destruct (Z.eqb_spec (resp_cid m) (gw_client_id_ g)); [|done].
  simpl. destruct (Z.eqb_spec (omresp_seq_num_ m) (next_exp_seq_num_ g)); [|done]. tauto.
Qed.

(** ** The order server accepts what the gateway frames *)

Lemma accept_frames fd c bind exp rs :
  Forall (λ r, req_client_id_ r = c) rs → bind !! c = Some fd →
  0 ≤ seq_of exp c → seq_of exp c + length rs < 2 ^ 64 →
  ∃ exp', accept_run fd bind exp (frame_requests (seq_of exp c) rs)
            = (bind, exp', frame_requests (seq_of exp c) rs)
          ∧ seq_of exp' c = seq_of exp c + length rs.
Proof.
  intros Hrs Hb. revert exp. induction Hrs as [|r rs Hr _ IH]; intros exp H0 Hlt; cbn [frame_requests accept_run].
  { exists exp. split; [done|simpl; lia]. }
  cbn [length me_client_request_ omreq_seq_num_] in *. rewrite Hr, Hb, bool_decide_eq_true_2 by done.
  set (exp1 := <[c := _]> exp).
  assert (seq_of exp1 c = seq_of exp c + 1) as E1.
  { unfold exp1. rewrite seq_of_insert, decide_True by done. unfold wrap. apply Z.mod_small. lia. }
  destruct (IH exp1) as (exp' & E & Hs); [lia|lia|]. rewrite E1 in E, Hs. rewrite E.
  exists exp'. split; [done|lia].
Qed.

(** The first message of a new client binds it. *)
Lemma accept_frames_new fd c bind exp rs :
  Forall (λ r, req_client_id_ r = c) rs → rs ≠ [] → bind !! c = None →
  accept_run fd bind exp (frame_requests (seq_of exp c) rs)
  = accept_run fd (<[c := fd]> bind) exp (frame_requests (seq_of exp c) rs).
Proof.
  intros Hrs Hne Hb. destruct rs as [|r rs]; [done|]. apply Forall_cons in Hrs as [Hr _].
  cbn [frame_requests accept_run me_client_request_]. rewrite Hr, Hb, !lookup_insert_eq. done.
Qed.

Lemma frame_requests_payload n rs : me_client_request_ <$> frame_requests n rs = rs.
Proof. revert n. induction rs as [|r rs IH]; intros n; simpl; [done|]. by f_equal. Qed.

Lemma length_frame_requests n rs : length (frame_requests n rs) = length rs.
Proof. revert n. induction rs as [|r rs IH]; intros n; simpl; [done|]. by f_equal. Qed.

Lemma frame_requests_wf n rs :
  0 ≤ n → n + length rs < 2 ^ 64 → Forall req_wf rs → Forall wire_wf (frame_requests n rs).
Proof.
  intros H0 Hlt Hwf. revert n H0 Hlt. induction Hwf as [|r rs Hr _ IH]; intros n H0 Hlt; [constructor|].
  cbn [length] in Hlt. cbn [frame_requests]. constructor; [|apply IH; lia]. split; [simpl; lia|done].
Qed.
