(* ===== verification/GatewayRuns.v ===== *)
(** * The order gateway over its connection.

    What the loop of [OrderGateway::run] (src/trading/order_gw/order_gateway.cpp)
    does in any turn: the responses it hands on are those of its client with the
    next sequence numbers among the bytes read, and the bytes it sends are the
    numbered requests. *)

From stdpp Require Import gmap list sorting.
From S2P Require Import Prelude MemPool Types LFQueue Wire MEOrderBook MatchingEngine OrderServer ServerStreams OrderGateway.

Open Scope Z_scope.
Local Coercion Z.of_nat : nat >-> Z.

(** ** Requests *)

(** What the request loop leaves alone. *)
Record same_receiver (g g' : OrderGateway) : Prop := {
  sr_id : gw_client_id_ g' = gw_client_id_ g;
  sr_responses : incoming_responses_ g' = incoming_responses_ g;
  sr_expected : next_exp_seq_num_ g' = next_exp_seq_num_ g;
  sr_inbound : inbound_data_ (tcp_socket_ g') = inbound_data_ (tcp_socket_ g) }.

#[export] Instance same_receiver_preorder : PreOrder same_receiver.
Proof. split; [by intros g|]. intros g1 g2 g3 [] []. split; congruence. Qed.

Lemma tcp_send_inbound data s s' : tcp_send data s = Ok s' → inbound_data_ s' = inbound_data_ s.
Proof. unfold tcp_send. case_match; [done|]. by intros [= <-]. Qed.

Lemma send_request_run r rs g g' :
  lfq_rep (outgoing_requests_ g) (r :: rs) → send_request r g = Ok g' →
  lfq_rep (outgoing_requests_ g') rs ∧ q_size (outgoing_requests_ g') = q_size (outgoing_requests_ g) ∧ same_receiver g g'
  ∧ next_outgoing_seq_num_ g' = u64 (next_outgoing_seq_num_ g + 1)
  ∧ outbound_data_ (tcp_socket_ g') = outbound_data_ (tcp_socket_ g) ++ encode (mkOMClientRequest (next_outgoing_seq_num_ g) r).
Proof.
  intros Hq H. unfold send_request in H. apply bind_ok in H as (s1 & H1 & H). apply bind_ok in H as (s2 & H2 & H).
  destruct (updateReadIndex_ok _ _ _ Hq) as (q' & Eq & Hq' & Hsz). rewrite Eq in H. injection H as <-.
  split_and!; try done; cbn [tcp_socket_].
  - split; try done. cbn [tcp_socket_]. by rewrite (tcp_send_inbound _ _ _ H2), (tcp_send_inbound _ _ _ H1).
  - by rewrite (tcp_send_stream _ _ _ H2), (tcp_send_stream _ _ _ H1), <- (assoc_L (++)).
Qed.

Lemma drain_requests_run rs n g g' :
  lfq_rep (outgoing_requests_ g) rs → drain_requests n g = Ok g' →
  0 ≤ next_outgoing_seq_num_ g → next_outgoing_seq_num_ g + length rs < 2 ^ 64 →
  lfq_rep (outgoing_requests_ g') [] ∧ q_size (outgoing_requests_ g') = q_size (outgoing_requests_ g) ∧ same_receiver g g'
  ∧ next_outgoing_seq_num_ g' = next_outgoing_seq_num_ g + length rs
  ∧ outbound_data_ (tcp_socket_ g') = outbound_data_ (tcp_socket_ g)
      ++ concat (encode <$> frame_requests (next_outgoing_seq_num_ g) rs).
Proof.
  revert n g. induction rs as [|r rs IH]; intros n g Hq.
  { destruct n; cbn [drain_requests]; rewrite (getNextToRead_ok _ _ Hq); intros [= <-] H0 Hlt; rewrite app_nil_r;
      (split_and!; [done..|simpl; lia|done]). }
  destruct n as [|n]; cbn [drain_requests]; rewrite (getNextToRead_ok _ _ Hq); [done|]. cbn [head length].
  intros (g1 & H1 & H2)%bind_ok H0 Hlt. destruct (send_request_run r rs g g1 Hq H1) as (Hq1 & Hs1 & Hr1 & Hn1 & Ho1).
  rewrite u64_small in Hn1 by lia. destruct (IH n g1 Hq1 H2) as (Hq' & Hs' & Hr' & Hn' & Ho'); [lia..|].
  split_and!; [done|congruence|by etrans|lia|]. rewrite Ho', Ho1, Hn1, <- (assoc_L (++)). done.
Qed.

(** ** Responses *)

(** The responses for client [c] among messages, from sequence number [n] on. *)
Definition accepted_responses (c n : Z) (ms : list OMClientResponse) : list OMClientResponse :=
  in_sequence omresp_seq_num_ n (responses_of c ms).

Lemma client_responses_cons c m ms :
  responses_of c (m :: ms) = if decide (resp_cid m = c) then m :: responses_of c ms else responses_of c ms.
Proof. unfold responses_of. by rewrite filter_cons. Qed.

Lemma recv_responses_run ms g rs :
  0 ≤ next_exp_seq_num_ g < 2 ^ 64 → lfq_rep (incoming_responses_ g) rs →
  let acc := accepted_responses (gw_client_id_ g) (next_exp_seq_num_ g) ms in
  length rs + length acc ≤ q_size (incoming_responses_ g) →
  let g' := recv_responses ms g in
  lfq_rep (incoming_responses_ g') (rs ++ (me_client_response_ <$> acc))
  ∧ q_size (incoming_responses_ g') = q_size (incoming_responses_ g)
  ∧ next_exp_seq_num_ g' = u64 (next_exp_seq_num_ g + length acc) ∧ gw_client_id_ g' = gw_client_id_ g
  ∧ outgoing_requests_ g' = outgoing_requests_ g ∧ next_outgoing_seq_num_ g' = next_outgoing_seq_num_ g
  ∧ tcp_socket_ g' = tcp_socket_ g.
Proof.
  revert g rs. induction ms as [|m ms IH]; intros g rs Hn Hq; cbn zeta.
  { intros _. cbn. rewrite app_nil_r. split_and!; try done. rewrite Z.add_0_r, u64_small; lia. }
  change (recv_responses (m :: ms) g) with (recv_responses ms (recv_response m g)). unfold accepted_responses.
  rewrite client_responses_cons. intros Hroom. unfold recv_response.
  destruct (Z.eqb_spec (resp_cid m) (gw_client_id_ g)) as [Ec|Ec]; [rewrite decide_True in * by done|rewrite decide_False in * by done];
    cbn [negb]; [|by apply IH].
  cbn [in_sequence] in *. destruct (Z.eqb_spec (omresp_seq_num_ m) (next_exp_seq_num_ g)) as [Es|Es]; cbn [negb]; [|by apply IH].
  set (g1 := mkOrderGateway _ _ _ _ _ _). set (acc := in_sequence _ _ _) in *. cbn [length] in Hroom.
  destruct (enqueue_ok (incoming_responses_ g) rs (me_client_response_ m) Hq) as [Hq1 Hs1]; [lia|].
  specialize (IH g1 (rs ++ [me_client_response_ m])). cbn zeta in IH.
  destruct IH as (I1 & I2 & I3 & I4 & I5 & I6 & I7); [apply u64_range|exact Hq1| |].
  { rewrite length_app. cbn [g1 incoming_responses_ gw_client_id_ next_exp_seq_num_]. fold acc. cbn [length]. rewrite Hs1.
    change (accepted_responses _ _ ms) with acc. lia. }
  change (accepted_responses _ _ ms) with acc in I1, I3. cbn [g1 next_exp_seq_num_ incoming_responses_] in I2, I3.
  split_and!; [|congruence| |done..].
  - by rewrite <- (assoc_L (++)) in I1.
  - rewrite I3. cbn [length]. unfold wrap. rewrite Z.add_mod_idemp_l by lia. f_equal. lia.
Qed.

(** A whole turn.  [ms] are the messages completed by the bytes read. *)
Lemma gateway_turn_run avail n g unread sent g' rs qs ms rest :
  gateway_turn avail n g = Ok (unread, sent, g') → lfq_rep (incoming_responses_ g) rs → lfq_rep (outgoing_requests_ g) qs →
  (length (inbound_data_ (tcp_socket_ g)) < 50)%nat →
  parse_stream (inbound_data_ (tcp_socket_ g) ++ take (length avail - length unread) avail) = (ms, rest) →
  0 ≤ next_exp_seq_num_ g < 2 ^ 64 → 0 ≤ next_outgoing_seq_num_ g → next_outgoing_seq_num_ g + length qs < 2 ^ 64 →
  let acc := accepted_responses (gw_client_id_ g) (next_exp_seq_num_ g) ms in
  length rs + length acc ≤ q_size (incoming_responses_ g) →
  lfq_rep (incoming_responses_ g') (rs ++ (me_client_response_ <$> acc))
  ∧ q_size (incoming_responses_ g') = q_size (incoming_responses_ g)
  ∧ next_exp_seq_num_ g' = u64 (next_exp_seq_num_ g + length acc) ∧ gw_client_id_ g' = gw_client_id_ g
  ∧ inbound_data_ (tcp_socket_ g') = rest
  ∧ lfq_rep (outgoing_requests_ g') [] ∧ q_size (outgoing_requests_ g') = q_size (outgoing_requests_ g)
  ∧ next_outgoing_seq_num_ g' = next_outgoing_seq_num_ g + length qs
  ∧ sent ++ outbound_data_ (tcp_socket_ g') = outbound_data_ (tcp_socket_ g)
      ++ concat (encode <$> frame_requests (next_outgoing_seq_num_ g) qs).
Proof.
  intros H Hr Hq Hsh Ep Hn Ho Hlt acc Hroom. unfold gateway_turn in H.
  pose proof (tcp_recv_read avail (tcp_socket_ g)) as Hrd. destruct (tcp_recv avail (tcp_socket_ g)) as [[fired un] s1].
  cbn zeta in Hrd. destruct (tcp_flush n _) as [out s2] eqn:Ef in H. apply bind_ok in H as (g2 & Hd & [= -> -> ->]).
  destruct Hrd as (Hi & Hout & Hnf). rewrite <- Hi in Ep.
  set (g1 := if fired then gw_recvCallback (set_gw_socket s1 g) else set_gw_socket s1 g) in *.
  (* the callback *)
  assert (lfq_rep (incoming_responses_ g1) (rs ++ (me_client_response_ <$> acc))
    ∧ q_size (incoming_responses_ g1) = q_size (incoming_responses_ g)
    ∧ next_exp_seq_num_ g1 = u64 (next_exp_seq_num_ g + length acc) ∧ gw_client_id_ g1 = gw_client_id_ g
    ∧ outgoing_requests_ g1 = outgoing_requests_ g ∧ next_outgoing_seq_num_ g1 = next_outgoing_seq_num_ g
    ∧ inbound_data_ (tcp_socket_ g1) = rest ∧ outbound_data_ (tcp_socket_ g1) = outbound_data_ (tcp_socket_ g))
    as (G1 & G2 & G3 & G4 & G5 & G6 & G7 & G8).
  { destruct fired; unfold g1.
    - unfold gw_recvCallback. cbn [set_gw_socket tcp_socket_]. rewrite Ep.
      destruct (recv_responses_run ms (set_gw_socket s1 g) rs Hn Hr Hroom) as (R1 & R2 & R3 & R4 & R5 & R6 & R7).
      split_and!; try done. cbn [tcp_socket_ outbound_data_]. rewrite R7. exact Hout.
    - rewrite (Hnf eq_refl), app_nil_r in Hi. rewrite Hi, parse_stream_unfold in Ep.
      destruct (Nat.leb_spec (wire_size (M := OMClientResponse)) (length (inbound_data_ (tcp_socket_ g)))) as [Hw|_]; [cbn in Hw; lia|].
      injection Ep as <- <-. cbn. rewrite app_nil_r. split_and!; try done. rewrite Z.add_0_r, u64_small; lia. }
  assert (inbound_data_ s2 = inbound_data_ (tcp_socket_ g1) ∧ sent ++ outbound_data_ s2 = outbound_data_ (tcp_socket_ g1)) as [F1 F2].
  { pose proof (tcp_flush_stream n (tcp_socket_ g1)) as Hs. rewrite Ef in Hs. split; [|done].
    unfold tcp_flush in Ef. by destruct (0 <? n); injection Ef as <- <-. }
  destruct (drain_requests_run qs _ (set_gw_socket s2 g1) g' ltac:(cbn; by rewrite G5) Hd) as (D1 & D2 & [E1 E2 E3 E4] & D4 & D5);
    [cbn; lia..|]. cbn [set_gw_socket gw_client_id_ incoming_responses_ next_exp_seq_num_ tcp_socket_ outgoing_requests_ next_outgoing_seq_num_] in *.
  rewrite E2, E3, E1, E4, D2, D4, D5, F1, G5, G6, G7, (assoc_L (++)), F2, G8. by split_and!.
Qed.
