(* ===== verification/Binance.v ===== *)
(** * The Binance adapter skeleton.

    src/trading/order_gw/binance: a gateway and a market-data consumer for an
    external venue of which only the threads and the queues exist; the transport
    is left open in the sources.  [gateway_swallows]: connected in place of the
    order gateway it takes every request from the queue and answers none. *)

From Stdlib Require Import Ascii String.
From stdpp Require Import numbers strings pretty gmap list.
From S2P Require Import Prelude Types MemPool LFQueue Double Logging MatchingEngine.

Open Scope Z_scope.
Local Coercion Z.of_nat : nat >-> Z.

(** ** binance_ws_gateway.{h,cpp} *)

Record BinanceEndpoint := mkBinanceEndpoint {
  rest_host : string; ws_host : string; user_stream : string; rest_port : Z; ws_port : Z;
  api_key : string; api_secret : string }.

Definition BinanceEndpoint_default : BinanceEndpoint :=
  mkBinanceEndpoint "testnet.binance.vision" "testnet.binance.vision" "/ws" 443 443 "" "".

Record BinanceWsGateway := mkBinanceWsGateway {
  bw_client_id_ : Z;
  bw_endpoint_ : BinanceEndpoint;
  bw_outgoing_requests_ : LFQueue MEClientRequest;
  bw_incoming_responses_ : LFQueue MEClientResponse;
  bw_run_ : bool;
  bw_request_budget_ : Z }.

Definition BinanceWsGateway_new (client_id : Z) (client_requests : LFQueue MEClientRequest)
    (client_responses : LFQueue MEClientResponse) (endpoint : BinanceEndpoint) : BinanceWsGateway :=
  mkBinanceWsGateway client_id endpoint client_requests client_responses false 0.

Definition bw_set_run (b : bool) (g : BinanceWsGateway) : BinanceWsGateway :=
  mkBinanceWsGateway (bw_client_id_ g) (bw_endpoint_ g) (bw_outgoing_requests_ g) (bw_incoming_responses_ g) b
    (bw_request_budget_ g).

(** [threads]: whether each of the two threads could be created. *)
Definition bw_start (threads : bool * bool) (g : BinanceWsGateway) : result BinanceWsGateway :=
  let g := bw_set_run true g in
  let* _ := ASSERT (fst threads) in
  let* _ := ASSERT (snd threads) in
  Ok g.

Definition bw_stop : BinanceWsGateway → BinanceWsGateway := bw_set_run false.

(** The bodies are comments. *)
Definition sendOrder (req : MEClientRequest) (g : BinanceWsGateway) : BinanceWsGateway := g.
Definition onExecutionReport (json_payload : string) (g : BinanceWsGateway) : BinanceWsGateway := g.

(** A turn of the loop of [run]. *)
Definition bw_run_turn (g : BinanceWsGateway) : result BinanceWsGateway :=
  match getNextToRead (bw_outgoing_requests_ g) with
  | None => Ok g
  | Some req =>
      let g := sendOrder req g in
      let* q := updateReadIndex (bw_outgoing_requests_ g) in
      Ok (mkBinanceWsGateway (bw_client_id_ g) (bw_endpoint_ g) q (bw_incoming_responses_ g) (bw_run_ g) (bw_request_budget_ g))
  end.

(** A turn of [runUserStream] only sleeps. *)
Definition runUserStream_turn (g : BinanceWsGateway) : BinanceWsGateway := g.

(** ** binance_md_consumer.{h,cpp} *)

Record BookTop := mkBookTop { bt_bid_price : Z; bt_bid_qty : Z; bt_ask_price : Z; bt_ask_qty : Z }.
Definition BookTop_default : BookTop := mkBookTop Price_INVALID Qty_INVALID Price_INVALID Qty_INVALID.

Record BinanceMdConsumer := mkBinanceMdConsumer {
  bm_client_id_ : Z;
  bm_ws_host_ : string;
  bm_symbols_ : list string;
  bm_symbol_to_ticker_ : gmap string Z;
  bm_incoming_md_updates_ : LFQueue MEMarketUpdate;
  bm_run_ : bool;
  bm_last_top_ : gmap Z BookTop }.

(** The constructor and the line it logs. *)
Definition BinanceMdConsumer_new (client_id : Z) (market_updates : LFQueue MEMarketUpdate) (host : string)
    (symbols : list string) (symbol_to_ticker : gmap string Z) : BinanceMdConsumer :=
  mkBinanceMdConsumer client_id host symbols symbol_to_ticker market_updates false ∅.

Definition constructed_format : string := "%:% %() % BinanceMdConsumer constructed, %zu symbols".

Definition bm_set_run (b : bool) (c : BinanceMdConsumer) : BinanceMdConsumer :=
  mkBinanceMdConsumer (bm_client_id_ c) (bm_ws_host_ c) (bm_symbols_ c) (bm_symbol_to_ticker_ c)
    (bm_incoming_md_updates_ c) b (bm_last_top_ c).

Definition bm_start (thread : bool) (c : BinanceMdConsumer) : result BinanceMdConsumer :=
  let c := bm_set_run true c in
  let* _ := ASSERT thread in Ok c.

Definition bm_stop : BinanceMdConsumer → BinanceMdConsumer := bm_set_run false.

Definition bm_run_turn (c : BinanceMdConsumer) : BinanceMdConsumer := c.
Definition onBookTickerFrame (json_payload : string) (c : BinanceMdConsumer) : BinanceMdConsumer := c.
Definition onTradeFrame (json_payload : string) (c : BinanceMdConsumer) : BinanceMdConsumer := c.

(** ** What the skeleton does *)

Fixpoint bw_run (n : nat) (g : BinanceWsGateway) : result BinanceWsGateway :=
  match n with O => Ok g | S n => let* g := bw_run_turn g in bw_run n g end.

Lemma gateway_swallows reqs g :
  lfq_rep (bw_outgoing_requests_ g) reqs →
  ∃ g', bw_run (length reqs) g = Ok g' ∧ lfq_rep (bw_outgoing_requests_ g') []
    ∧ bw_incoming_responses_ g' = bw_incoming_responses_ g.
Proof.
  revert g. induction reqs as [|r reqs IH]; intros g Hq; [by exists g|]. cbn [length bw_run]. unfold bw_run_turn.
  rewrite (getNextToRead_ok _ _ Hq). cbn [head]. unfold sendOrder.
  destruct (updateReadIndex_ok _ _ _ Hq) as (q' & -> & Hq' & _). cbn [rbind].
  by apply (IH (mkBinanceWsGateway _ _ q' _ _ _)).
Qed.

(** The logger takes a bare percent sign for the argument and prints the rest of
    the printf directive. *)
Lemma constructed_text {F} `{!DoubleText F} :
  log_text (F:=F) None constructed_format
    [ArgString "f"; ArgValue (LINTEGER 1); ArgString "g"; ArgString "t"; ArgValue (LUNSIGNED_LONG_INTEGER 2)]
  = "f:1 g() t BinanceMdConsumer constructed, 2zu symbols"%string.
Proof. reflexivity. Qed.
