(* ===== verification/MarketData.v ===== *)
(** * The exchange's market data publisher and snapshot synthesizer.

    [Exchange::MarketDataPublisher] (src/exchange/market_data/market_data_publisher.cpp)
    numbers the public updates, stages them on the incremental multicast socket
    and forwards them to [Exchange::SnapshotSynthesizer] (snapshot_synthesizer.cpp),
    which maintains the live orders and periodically publishes them.
    [McastSocket] is the buffer logic of src/common/mcast_socket.cpp. *)

From stdpp Require Import gmap list sorting.
From S2P Require Import Prelude TimeUtils MemPool Types LFQueue Wire MEOrderBook MatchingEngine.

Open Scope Z_scope.
Local Coercion Z.of_nat : nat >-> Z.

(** ** src/common/mcast_socket.cpp *)

Definition McastBufferSize : Z := 64 * 1024 * 1024.

(** The valid prefixes of the buffers; [mc_fd] is [None] for fd -1. *)
Record McastSocket := mkMcastSocket {
  mc_fd : option Z;
  mc_outbound : bytes;
  mc_inbound : bytes }.

Definition McastSocket_new (fd : option Z) : McastSocket := mkMcastSocket fd [] [].

Definition mcast_send (data : bytes) (s : McastSocket) : result McastSocket :=
  if McastBufferSize <? length (mc_outbound s) + length data then FATAL
  else Ok (mkMcastSocket (mc_fd s) (mc_outbound s ++ data) (mc_inbound s)).

(** The transmit half of [sendAndRecv]: the kernel accepts [n] bytes, and an error
    ([n <= 0]) drops the buffer. *)
Definition mcast_flush (n : Z) (s : McastSocket) : bytes * McastSocket :=
  match mc_outbound s with
  | [] => ([], s)
  | _ =>
      if 0 <? n then
        (take (Z.to_nat n) (mc_outbound s),
         mkMcastSocket (mc_fd s) (drop (Z.to_nat n) (mc_outbound s)) (mc_inbound s))
      else ([], mkMcastSocket (mc_fd s) [] (mc_inbound s))
  end.

(** The receive half: one [recv] per datagram into the free space of the buffer
    (the rest of a longer datagram is lost) until a [recv] returns nothing. *)
Fixpoint mcast_drain (datagrams : list bytes) (inbound : bytes) : bool * bytes * list bytes :=
  match datagrams with
  | [] => (false, inbound, [])
  | d :: ds =>
      match take (Z.to_nat (McastBufferSize - length inbound)) d with
      | [] => (false, inbound, ds)
      | got => let '(_, inbound, ds) := mcast_drain ds (inbound ++ got) in (true, inbound, ds)
      end
  end.

(** Whether data arrived, the socket, and the datagrams the kernel still holds;
    a closed socket receives nothing. *)
Definition mcast_recv (datagrams : list bytes) (s : McastSocket) : bool * McastSocket * list bytes :=
  match mc_fd s with
  | None => (false, s, datagrams)
  | Some _ =>
      let '(got_data, inbound, ds) := mcast_drain datagrams (mc_inbound s) in
      (got_data, mkMcastSocket (mc_fd s) (mc_outbound s) inbound, ds)
  end.

(** [leave]: both buffers are emptied with the descriptor. *)
Definition mcast_leave (s : McastSocket) : McastSocket :=
  match mc_fd s with None => s | Some _ => mkMcastSocket None [] [] end.

(** ** Publisher *)

#[export] Instance MDPMarketUpdate_ctor : DefaultCtor MDPMarketUpdate :=
  mkMDPMarketUpdate 0 MEMarketUpdate_default.

Record MarketDataPublisher := mkPublisher {
  next_inc_seq_num_ : Z;
  pub_outgoing_md_updates_ : LFQueue MEMarketUpdate;
  snapshot_md_updates_ : LFQueue MDPMarketUpdate;
  incremental_socket_ : McastSocket }.

Definition MarketDataPublisher_new (updates : LFQueue MEMarketUpdate) : MarketDataPublisher :=
  mkPublisher 1 updates (LFQueue_new ME_MAX_MARKET_UPDATES) (McastSocket_new (Some 0)).

(** The loop body of [run].  The update is read through its slot again after the
    slot has been released. *)
Definition publish_one (p : MarketDataPublisher) : result (option MarketDataPublisher) :=
  let q := pub_outgoing_md_updates_ p in
  match getNextToRead q with
  | None => Ok None
  | Some u =>
      let ptr := next_read_index_ q in
      let* s := mcast_send (u64_enc (next_inc_seq_num_ p)) (incremental_socket_ p) in
      let* s := mcast_send (encode_update u) s in
      let* q := updateReadIndex q in
      let sq := enqueue (mkMDPMarketUpdate (next_inc_seq_num_ p) (slot q ptr)) (snapshot_md_updates_ p) in
      Ok (Some (mkPublisher (u64 (next_inc_seq_num_ p + 1)) q sq s))
  end.

Fixpoint publish_all (n : nat) (p : MarketDataPublisher) : result MarketDataPublisher :=
  let* r := publish_one p in
  match r with
  | None => Ok p
  | Some p => match n with O => Err OutOfFuel | S n => publish_all n p end
  end.

(** One turn of the loop of [run]: drain, then flush; [n] is what the kernel
    accepts. *)
Definition publisher_turn (n : Z) (p : MarketDataPublisher) : result (bytes * MarketDataPublisher) :=
  let* p := publish_all (Z.to_nat (q_size (pub_outgoing_md_updates_ p))) p in
  let '(sent, s) := mcast_flush n (incremental_socket_ p) in
  Ok (sent, mkPublisher (next_inc_seq_num_ p) (pub_outgoing_md_updates_ p) (snapshot_md_updates_ p) s).

(** The numbered feed. *)
Fixpoint number_updates (seq : Z) (us : list MEMarketUpdate) : list MDPMarketUpdate :=
  match us with
  | [] => []
  | u :: us => mkMDPMarketUpdate seq u :: number_updates (seq + 1) us
  end.

Lemma length_encode_update u : length (encode_update u) = 34%nat.
Proof. unfold encode_update, u8_enc, u32_enc, u64_enc, i64_enc. by rewrite !length_app, !length_le_encode. Qed.

Lemma length_u64_enc z : length (u64_enc z) = 8%nat.
Proof. apply length_le_encode. Qed.

Lemma mcast_send_ok data s :
  length (mc_outbound s) + length data ≤ McastBufferSize →
  mcast_send data s = Ok (mkMcastSocket (mc_fd s) (mc_outbound s ++ data) (mc_inbound s)).
Proof. intros Hl. unfold mcast_send. by rewrite (proj2 (Z.ltb_ge _ _)) by lia. Qed.

Lemma slot_updateReadIndex {T} `{!DefaultCtor T} (q q' : LFQueue T) i :
  updateReadIndex q = Ok q' → slot q' i = slot q i.
Proof.
  unfold updateReadIndex, dec_elements. intros (? & _ & [= <-])%bind_ok. done.
Qed.

Lemma publish_one_ok p u us sq :
  lfq_rep (pub_outgoing_md_updates_ p) (u :: us) → lfq_rep (snapshot_md_updates_ p) sq →
  length sq < q_size (snapshot_md_updates_ p) →
  length (mc_outbound (incremental_socket_ p)) + 42 ≤ McastBufferSize →
  ∃ p', publish_one p = Ok (Some p') ∧ lfq_rep (pub_outgoing_md_updates_ p') us
    ∧ lfq_rep (snapshot_md_updates_ p') (sq ++ [mkMDPMarketUpdate (next_inc_seq_num_ p) u])
    ∧ q_size (snapshot_md_updates_ p') = q_size (snapshot_md_updates_ p)
    ∧ next_inc_seq_num_ p' = u64 (next_inc_seq_num_ p + 1)
    ∧ mc_outbound (incremental_socket_ p')
      = mc_outbound (incremental_socket_ p) ++ encode (mkMDPMarketUpdate (next_inc_seq_num_ p) u).
Proof.
  intros Hq Hs Hr Hl. unfold publish_one. pose proof (getNextToRead_ok _ _ Hq) as Hn.
  rewrite Hn. cbn [head]. rewrite mcast_send_ok by (rewrite length_u64_enc; lia). cbn [rbind].
  rewrite mcast_send_ok by (cbn [mc_outbound]; rewrite length_app, length_u64_enc, length_encode_update; lia).
  cbn [rbind]. destruct (updateReadIndex_ok _ _ _ Hq) as (q' & Eq & Hq' & _). rewrite Eq. cbn [rbind].
  rewrite (slot_updateReadIndex _ _ _ Eq).
  assert (slot (pub_outgoing_md_updates_ p) (next_read_index_ (pub_outgoing_md_updates_ p)) = u) as ->.
  { unfold getNextToRead in Hn. destruct (size_ _ =? 0); [done|]. by injection Hn. }
  destruct (enqueue_ok (snapshot_md_updates_ p) sq (mkMDPMarketUpdate (next_inc_seq_num_ p) u) Hs Hr)
    as [Hs' Hsz].
  eexists. split; [done|]. split_and!; try done.
  cbn [incremental_socket_ mc_outbound encode MDPMarketUpdate_wire mdp_seq_num_ me_market_update_].
  by rewrite <- (assoc_L (++)).
Qed.

Lemma publish_all_ok us n p sq :
  lfq_rep (pub_outgoing_md_updates_ p) us → lfq_rep (snapshot_md_updates_ p) sq →
  length sq + length us ≤ q_size (snapshot_md_updates_ p) →
  length (mc_outbound (incremental_socket_ p)) + 42 * length us ≤ McastBufferSize →
  0 ≤ next_inc_seq_num_ p → next_inc_seq_num_ p + length us < 2 ^ 64 → (length us ≤ n)%nat →
  ∃ p', publish_all n p = Ok p' ∧ lfq_rep (pub_outgoing_md_updates_ p') []
    ∧ lfq_rep (snapshot_md_updates_ p') (sq ++ number_updates (next_inc_seq_num_ p) us)
    ∧ next_inc_seq_num_ p' = next_inc_seq_num_ p + length us
    ∧ mc_outbound (incremental_socket_ p') = mc_outbound (incremental_socket_ p)
        ++ concat (encode <$> number_updates (next_inc_seq_num_ p) us).
Proof.
  revert n p sq. induction us as [|u us IH]; intros n p sq Hq Hs Hr Hl H0 Hlt Hn.
  - exists p. assert (publish_one p = Ok None) as E.
    { unfold publish_one. by rewrite (getNextToRead_ok _ _ Hq). }
    simpl. rewrite !app_nil_r. split_and!; try done; [|lia]. destruct n; simpl; by rewrite E.
  - destruct n as [|n]; [simpl in Hn; lia|]. simpl in Hr, Hl, Hlt, Hn.
    destruct (publish_one_ok p u us sq Hq Hs) as (p1 & E & Hq1 & Hs1 & Hsz & Hseq & Hout); [lia|lia|].
    simpl. rewrite E. cbn [rbind].
    assert (next_inc_seq_num_ p1 = next_inc_seq_num_ p + 1) as Hseq'.
    { rewrite Hseq. unfold wrap. apply Z.mod_small. lia. }
    destruct (IH n p1 (sq ++ [mkMDPMarketUpdate (next_inc_seq_num_ p) u]) Hq1 Hs1) as (p' & E' & Hq' & Hs' & Hseq2 & Hout').
    + rewrite Hsz, length_app. simpl. lia.
    + rewrite Hout, length_app, length_encode. simpl. lia.
    + lia.
    + lia.
    + lia.
    + exists p'. rewrite Hseq' in *. rewrite <- (assoc_L (++)) in Hs'. split_and!; try done; [lia|].
      rewrite Hout', Hout, <- (assoc_L (++)). done.
Qed.

Lemma mcast_flush_all n s :
  Z.of_nat (length (mc_outbound s)) = n →
  mcast_flush n s = (mc_outbound s, mkMcastSocket (mc_fd s) [] (mc_inbound s)).
Proof.
  intros <-. unfold mcast_flush. destruct s as [fd out inb]. simpl. destruct out as [|c out]; [done|].
  rewrite (proj2 (Z.ltb_lt 0 _)) by (simpl; lia). by rewrite Nat2Z.id, firstn_all, drop_all.
Qed.

Lemma length_number_updates n us : length (number_updates n us) = length us.
Proof. revert n. induction us as [|u us IH]; intros n; simpl; [done|]. by rewrite IH. Qed.

Lemma number_updates_payload n us : me_market_update_ <$> number_updates n us = us.
Proof. revert n. induction us as [|u us IH]; intros n; simpl; [done|]. by rewrite IH. Qed.

Lemma length_number_updates_encode n us :
  Z.of_nat (length (concat (encode <$> number_updates n us))) = 42 * length us.
Proof.
  revert n. induction us as [|u us IH]; intros n; [done|]. cbn [number_updates].
  rewrite fmap_cons. cbn [concat length]. rewrite length_app, length_encode, Nat2Z.inj_add, IH. simpl. lia.
Qed.

Lemma number_updates_app n us1 us2 :
  number_updates n (us1 ++ us2) = number_updates n us1 ++ number_updates (n + length us1) us2.
Proof.
  revert n. induction us1 as [|u us1 IH]; intros n; simpl; [by rewrite Z.add_0_r|].
  rewrite IH. do 3 f_equal. lia.
Qed.

Lemma number_updates_wf n us :
  0 ≤ n → n + length us < 2 ^ 64 → Forall update_wf us → Forall wire_wf (number_updates n us).
Proof.
  intros H0 Hlt Hwf. revert n H0 Hlt. induction Hwf as [|u us Hu _ IH]; intros n H0 Hlt; [constructor|].
  cbn [length] in Hlt. cbn [number_updates]. constructor; [|apply IH; lia]. split; [simpl; lia|done].
Qed.

(** ** Snapshot synthesizer *)

(** [ticker_orders_[t][oid]] is a map to pool blocks; absent is [nullptr]. *)
Record SnapshotSynthesizer := mkSynthesizer {
  ticker_orders_ : gmap (Z * Z) Z;
  snap_order_pool_ : MemPool MEMarketUpdate;
  last_inc_seq_num_ : Z }.

Definition SnapshotSynthesizer_new : SnapshotSynthesizer :=
  mkSynthesizer ∅ (MemPool_new ME_MAX_ORDER_IDS) 0.

(** [ticker_orders_.at(t)] and [orders->at(oid)] check their index. *)
Definition slot_in_range (k : Z * Z) : bool :=
  (0 <=? k.1) && (k.1 <? ME_MAX_TICKERS) && (0 <=? k.2) && (k.2 <? ME_MAX_ORDER_IDS).

Definition set_update_qty_price (qty price : Z) (u : MEMarketUpdate) : MEMarketUpdate :=
  mkMEMarketUpdate (mu_type_ u) (mu_order_id_ u) (mu_ticker_id_ u) (mu_side_ u) price qty (mu_priority_ u).

(** The switch of [addToSnapshot]. *)
Definition snapshot_apply (me : MEMarketUpdate) (s : SnapshotSynthesizer) : result SnapshotSynthesizer :=
  let k := (mu_ticker_id_ me, mu_order_id_ me) in
  match mu_type_ me with
  | MU_ADD =>
      if negb (slot_in_range k) then Err OutOfRange else
      let* _ := ASSERT (bool_decide (ticker_orders_ s !! k = None)) in
      let* (i, p) := allocate me (snap_order_pool_ s) in
      Ok (mkSynthesizer (<[k := i]> (ticker_orders_ s)) p (last_inc_seq_num_ s))
  | MU_MODIFY =>
      if negb (slot_in_range k) then Err OutOfRange else
      match ticker_orders_ s !! k with
      | None => Err AssertFailed
      | Some i =>
          let* _ := ASSERT (mu_order_id_ (obj (snap_order_pool_ s) i) =? mu_order_id_ me) in
          Ok (mkSynthesizer (ticker_orders_ s)
                (pool_modify (snap_order_pool_ s) i (set_update_qty_price (mu_qty_ me) (mu_price_ me)))
                (last_inc_seq_num_ s))
      end
  | MU_CANCEL =>
      if negb (slot_in_range k) then Err OutOfRange else
      match ticker_orders_ s !! k with
      | None => Err AssertFailed
      | Some i =>
          let* p := deallocate i (snap_order_pool_ s) in
          Ok (mkSynthesizer (delete k (ticker_orders_ s)) p (last_inc_seq_num_ s))
      end
  | _ => if (0 <=? mu_ticker_id_ me) && (mu_ticker_id_ me <? ME_MAX_TICKERS) then Ok s else Err OutOfRange
  end.

Definition addToSnapshot (u : MDPMarketUpdate) (s : SnapshotSynthesizer) : result SnapshotSynthesizer :=
  let* s := snapshot_apply (me_market_update_ u) s in
  let* _ := ASSERT (mdp_seq_num_ u =? u64 (last_inc_seq_num_ s + 1)) in
  Ok (mkSynthesizer (ticker_orders_ s) (snap_order_pool_ s) (mdp_seq_num_ u)).

(** The orders of a ticker in index order: the inner loop of [publishSnapshot]
    visits the non-null entries of the array. *)
Definition ticker_oids (t : Z) (s : SnapshotSynthesizer) : list Z :=
  merge_sort (≤) (omap (λ k : Z * Z, if decide (k.1 = t) then Some k.2 else None)
                    (map_to_list (ticker_orders_ s)).*1).

Definition ticker_snapshot (t : Z) (s : SnapshotSynthesizer) : list MEMarketUpdate :=
  omap (λ oid, obj (snap_order_pool_ s) <$> ticker_orders_ s !! (t, oid)) (ticker_oids t s).

Definition marker (type : MarketUpdateType) (seq : Z) : MEMarketUpdate :=
  mkMEMarketUpdate type seq TickerId_INVALID Side_INVALID Price_INVALID Qty_INVALID Priority_INVALID.

Definition clear_of (t : Z) : MEMarketUpdate :=
  mkMEMarketUpdate MU_CLEAR OrderId_INVALID t Side_INVALID Price_INVALID Qty_INVALID Priority_INVALID.

(** The messages of [publishSnapshot] in order, each with whether the socket is
    flushed after it. *)
Definition snapshot_frames (s : SnapshotSynthesizer) : list (bool * MEMarketUpdate) :=
  [(false, marker MU_SNAPSHOT_START (last_inc_seq_num_ s))]
  ++ concat ((λ t, (false, clear_of t) :: ((true,.) <$> ticker_snapshot t s)) <$> seqZ 0 ME_MAX_TICKERS)
  ++ [(true, marker MU_SNAPSHOT_END (last_inc_seq_num_ s))].

Definition snapshot_messages (s : SnapshotSynthesizer) : list MDPMarketUpdate :=
  number_updates 0 (snapshot_frames s).*2.

(** What a snapshot carries between its markers. *)
Definition snapshot_body (s : SnapshotSynthesizer) : list MEMarketUpdate :=
  concat ((λ t, clear_of t :: ticker_snapshot t s) <$> seqZ 0 ME_MAX_TICKERS).

Lemma snapshot_frames_body s :
  (snapshot_frames s).*2 = marker MU_SNAPSHOT_START (last_inc_seq_num_ s)
    :: snapshot_body s ++ [marker MU_SNAPSHOT_END (last_inc_seq_num_ s)].
Proof.
  assert (∀ ts, (concat ((λ t, (false, clear_of t) :: ((true,.) <$> ticker_snapshot t s)) <$> ts)).*2
                = concat ((λ t, clear_of t :: ticker_snapshot t s) <$> ts)) as E.
  { induction ts as [|t ts IH]; [done|]. rewrite !fmap_cons. cbn [concat]. rewrite fmap_app, IH, fmap_cons.
    cbn [snd]. rewrite <- list_fmap_compose. do 2 f_equal. apply list_fmap_id. }
  unfold snapshot_frames, snapshot_body. rewrite !fmap_app, E. done.
Qed.

(** Sending the frames; [accept pending] is how much of the pending bytes the
    kernel takes at a flush.  Returns the datagrams. *)
Fixpoint send_frames (accept : bytes → Z) (snapshot_size : Z) (fs : list (bool * MEMarketUpdate))
    (sock : McastSocket) : result (list bytes * McastSocket) :=
  match fs with
  | [] => Ok ([], sock)
  | (flush, me) :: fs =>
      let* sock := mcast_send (encode (mkMDPMarketUpdate snapshot_size me)) sock in
      let '(sent, sock) := (if flush : bool then let '(d, sock) := mcast_flush (accept (mc_outbound sock)) sock
                                                 in ([d], sock)
                            else ([], sock)) in
      let* (rest, sock) := send_frames accept (snapshot_size + 1) fs sock in
      Ok (sent ++ rest, sock)
  end.

Definition publishSnapshot (accept : bytes → Z) (s : SnapshotSynthesizer) (sock : McastSocket)
    : result (list bytes * McastSocket) := send_frames accept 0 (snapshot_frames s) sock.

(** ** The synthesizer thread *)

Record SynthesizerThread := mkSynthesizerThread {
  syn_state : SnapshotSynthesizer;
  syn_queue : LFQueue MDPMarketUpdate;
  snapshot_socket_ : McastSocket;
  last_snapshot_time_ : Z }.

(** A snapshot at most every 60 seconds. *)
Definition snapshot_due (now last_snapshot_time : Z) : bool :=
  60 * NANOS_TO_SECS <? now - last_snapshot_time.

(** The inner loop of [run]. *)
Fixpoint synthesizer_drain (n : nat) (q : LFQueue MDPMarketUpdate) (s : SnapshotSynthesizer)
    : result (LFQueue MDPMarketUpdate * SnapshotSynthesizer) :=
  match getNextToRead q with
  | None => Ok (q, s)
  | Some u =>
      match n with
      | O => Err OutOfFuel
      | S n =>
          let* s := addToSnapshot u s in
          let* q := updateReadIndex q in
          synthesizer_drain n q s
      end
  end.

(** One turn of [run]; [now1] and [now2] are the two readings of the clock. *)
Definition synthesizer_turn (accept : bytes → Z) (now1 now2 : Z) (t : SynthesizerThread)
    : result (list bytes * SynthesizerThread) :=
  let* (q, s) := synthesizer_drain (Z.to_nat (q_size (syn_queue t))) (syn_queue t) (syn_state t) in
  if snapshot_due now1 (last_snapshot_time_ t) then
    let* (sent, sock) := publishSnapshot accept s (snapshot_socket_ t) in
    Ok (sent, mkSynthesizerThread s q sock now2)
  else Ok ([], mkSynthesizerThread s q (snapshot_socket_ t) (last_snapshot_time_ t)).

(** The updates of a list applied in order. *)
Fixpoint add_all_to_snapshot (us : list MDPMarketUpdate) (s : SnapshotSynthesizer)
    : result SnapshotSynthesizer :=
  match us with
  | [] => Ok s
  | u :: us => let* s := addToSnapshot u s in add_all_to_snapshot us s
  end.

Lemma add_all_to_snapshot_app us1 us2 s :
  add_all_to_snapshot (us1 ++ us2) s = let* s := add_all_to_snapshot us1 s in add_all_to_snapshot us2 s.
Proof.
  revert s. induction us1 as [|u us1 IH]; intros s; [done|]. cbn [app add_all_to_snapshot]. destruct (addToSnapshot u s); [|done].
  cbn [rbind]. apply IH.
Qed.

Lemma synthesizer_drain_ok us n q s s' :
  lfq_rep q us → (length us ≤ n)%nat → add_all_to_snapshot us s = Ok s' →
  ∃ q', synthesizer_drain n q s = Ok (q', s') ∧ lfq_rep q' [].
Proof.
  revert n q s. induction us as [|u us IH]; intros n q s Hq Hn E.
  - simpl in E. injection E as <-. exists q. split; [|done].
    destruct n; simpl; by rewrite (getNextToRead_ok _ _ Hq).
  - simpl in E. apply bind_ok in E as (s1 & E1 & E2). destruct n as [|n]; [simpl in Hn; lia|].
    simpl. rewrite (getNextToRead_ok _ _ Hq). cbn [head]. rewrite E1. cbn [rbind].
    destruct (updateReadIndex_ok _ _ _ Hq) as (q1 & -> & Hq1 & _). cbn [rbind].
    apply IH; [done|simpl in Hn; lia|done].
Qed.

(** Whatever the kernel takes at each flush, no buffer overflows below the
    capacity; if it takes everything, the datagrams are the encoded messages. *)
Lemma send_frames_ok accept n fs sock :
  (∀ d : bytes, d ≠ [] → accept d = Z.of_nat (length d)) → length (mc_outbound sock) + 42 * length fs ≤ McastBufferSize →
  ∃ sent sock', send_frames accept n fs sock = Ok (sent, sock')
    ∧ concat sent ++ mc_outbound sock'
      = mc_outbound sock ++ concat (encode <$> number_updates n fs.*2)
    ∧ ((∃ m, last fs = Some (true, m)) → mc_outbound sock' = []).
Proof.
  intros Hacc. revert n sock. induction fs as [|[fl me] fs IH]; intros n sock Hl.
  { exists [], sock. simpl. rewrite app_nil_r. split_and!; [done|done|]. by intros [? ?]. }
  cbn [length] in Hl. cbn [send_frames].
  rewrite mcast_send_ok by (rewrite length_encode; simpl; lia). cbn [rbind].
  set (m := mkMDPMarketUpdate n me). set (out := mc_outbound sock ++ encode m).
  assert (Hne : out ≠ []).
  { intros E%(f_equal length). unfold out in E. rewrite length_app, length_encode in E. simpl in E. lia. }
  assert (Hlast : ∀ f, last ((fl, me) :: fs) = Some f → fs ≠ [] → last fs = Some f).
  { intros f. destruct fs; [done|]. by rewrite last_cons_cons. }
  destruct fl.
  - unfold mcast_flush. cbn [mc_outbound]. fold out. rewrite Hacc by done.
    destruct out as [|c out'] eqn:Eo; [done|]. rewrite <- Eo in *.
    rewrite (proj2 (Z.ltb_lt 0 (length out))) by (rewrite Eo; simpl; lia).
    rewrite Nat2Z.id, firstn_all, drop_all. cbn [mc_fd mc_inbound].
    destruct (IH (n + 1) (mkMcastSocket (mc_fd sock) [] (mc_inbound sock))) as (sent & s' & -> & E & Hflush).
    { simpl. lia. }
    cbn [rbind]. exists (out :: sent), s'. split_and!; [done| |].
    + simpl. rewrite <- (assoc_L (++)), E. cbn [mc_outbound]. rewrite app_nil_l. fold m. unfold out.
      by rewrite <- (assoc_L (++)).
    + intros [x Hx]. destruct fs as [|f fs]; [|apply Hflush; exists x; by apply Hlast].
      destruct (concat sent); [by destruct (mc_outbound s')|done].
  - destruct (IH (n + 1) (mkMcastSocket (mc_fd sock) out (mc_inbound sock))) as (sent & s' & -> & E & Hflush).
    { unfold out. cbn [mc_outbound]. rewrite length_app, length_encode. simpl. lia. }
    cbn [rbind]. exists sent, s'. split_and!; [done| |].
    + simpl. rewrite E. cbn [mc_outbound]. fold m. unfold out. by rewrite <- (assoc_L (++)).
    + intros [x Hx]. destruct fs as [|f fs]; [done|]. apply Hflush. exists x. by apply Hlast.
Qed.

(** *** How long a snapshot can be *)

Lemma length_mcast_flush n s : (length (mc_outbound (mcast_flush n s).2) ≤ length (mc_outbound s))%nat.
Proof.
  unfold mcast_flush. destruct (mc_outbound s) as [|c out] eqn:E; [cbn [snd]; by rewrite E|].
  destruct (0 <? n); cbn [snd mc_outbound]; rewrite ?length_drop; cbn [length]; lia.
Qed.

(** Whatever the kernel takes or refuses, staging does not fail while the messages
    fit the buffer. *)
Lemma send_frames_total accept n fs sock :
  length (mc_outbound sock) + 42 * length fs ≤ McastBufferSize → ∃ r, send_frames accept n fs sock = Ok r.
Proof.
  revert n sock. induction fs as [|[fl me] fs IH]; intros n sock Hl; [by eexists|]. cbn [length] in Hl. cbn [send_frames].
  rewrite mcast_send_ok by (rewrite length_encode; simpl; lia). cbn [rbind].
  set (s1 := mkMcastSocket _ _ _). assert (length (mc_outbound s1) ≤ length (mc_outbound sock) + 42) as Hs1.
  { cbn [s1 mc_outbound]. rewrite length_app, length_encode. simpl. lia. }
  destruct fl.
  - pose proof (length_mcast_flush (accept (mc_outbound s1)) s1) as Hf. destruct (mcast_flush _ s1) as [d s2]. cbn [snd] in Hf.
    destruct (IH (n + 1) s2) as [[rest s3] ->]; [lia|]. by eexists.
  - destruct (IH (n + 1) s1) as [[rest s3] ->]; [lia|]. by eexists.
Qed.

(** The keys of different tickers are different keys. *)
Lemma keys_by_ticker (f : Z → Z * Z → option Z) (ts : list Z) (ks : list (Z * Z)) :
  (∀ t k, f t k = if decide (k.1 = t) then Some k.2 else None) →
  NoDup ts → (length (ts ≫= λ t, omap (f t) ks) ≤ length ks)%nat.
Proof.
  intros Hf Hnd. revert ks. induction Hnd as [|t ts Ht _ IH]; intros ks; [cbn; lia|]. rewrite bind_cons, length_app.
  assert (ts ≫= (λ t', omap (f t') ks) = ts ≫= (λ t', omap (f t') (filter (λ k, k.1 ≠ t) ks))) as ->.
  { apply Forall_bind_ext, Forall_forall. intros t' Ht'. induction ks as [|k ks IHk]; [done|]. rewrite filter_cons.
    destruct (decide (k.1 ≠ t)) as [Hk|Hk]; cbn [omap list_omap]; [by rewrite IHk|].
    rewrite Hf, decide_False; [done|]. intros <-. by destruct Hk; intros <-. }
  etrans; [apply Nat.add_le_mono_l, IH|]. clear IH Ht. induction ks as [|k ks IHk]; [done|]. rewrite filter_cons. cbn [omap list_omap].
  rewrite Hf. destruct (decide (k.1 = t)) as [E|E].
  - rewrite decide_False by tauto. cbn [length]. lia.
  - rewrite decide_True by done. cbn [length]. lia.
Qed.

Lemma length_ticker_snapshot t s : (length (ticker_snapshot t s) ≤ length (ticker_oids t s))%nat.
Proof.
  unfold ticker_snapshot. induction (ticker_oids t s) as [|oid l IH]; [done|]. cbn [omap list_omap].
  destruct (_ <$> _); cbn [length]; lia.
Qed.

(** A snapshot has a message per live order, one per ticker and its two markers. *)
Lemma length_snapshot_frames s :
  length (snapshot_frames s) ≤ 2 + ME_MAX_TICKERS + size (ticker_orders_ s).
Proof.
  assert (length (seqZ 0 ME_MAX_TICKERS ≫= λ t, ticker_oids t s) ≤ size (ticker_orders_ s))%nat as Hk.
  { pose proof (keys_by_ticker _ (seqZ 0 ME_MAX_TICKERS) (map_to_list (ticker_orders_ s)).*1 (λ _ _, eq_refl) (NoDup_seqZ _ _)) as H.
    rewrite length_fmap, length_map_to_list in H. etrans; [|exact H]. apply Nat.eq_le_incl. clear H.
    induction (seqZ 0 ME_MAX_TICKERS) as [|t ts IH]; [done|]. rewrite !bind_cons, !length_app, IH.
    unfold ticker_oids. by rewrite merge_sort_Permutation. }
  assert (∀ ts : list Z, (length (concat ((λ t, (false, clear_of t) :: ((true,.) <$> ticker_snapshot t s)) <$> ts))
    ≤ length ts + length (ts ≫= λ t, ticker_oids t s))%nat) as Hc.
  { induction ts as [|t ts IH]; [done|]. rewrite fmap_cons, bind_cons. cbn [concat length]. rewrite !length_app. cbn [length].
    rewrite length_fmap. pose proof (length_ticker_snapshot t s). lia. }
  specialize (Hc (seqZ 0 ME_MAX_TICKERS)). rewrite length_seqZ in Hc.
  assert (Z.of_nat (Z.to_nat ME_MAX_TICKERS) = ME_MAX_TICKERS) by done.
  unfold snapshot_frames. rewrite !length_app. cbn [length]. lia.
Qed.

(** Every update adds at most one order. *)
Lemma add_all_to_snapshot_size us s s' :
  add_all_to_snapshot us s = Ok s' → (size (ticker_orders_ s') ≤ size (ticker_orders_ s) + length us)%nat.
Proof.
  revert s. induction us as [|u us IH]; intros s; cbn [add_all_to_snapshot]; [intros [= <-]; cbn; lia|].
  intros (s1 & H1 & H2)%bind_ok. apply IH in H2. cbn [length].
  enough (size (ticker_orders_ s1) ≤ S (size (ticker_orders_ s)))%nat by lia. clear IH H2.
  unfold addToSnapshot in H1. apply bind_ok in H1 as (s2 & H1 & H2). apply bind_ok in H2 as (? & _ & [= <-]). cbn [ticker_orders_].
  unfold snapshot_apply in H1. destruct (mu_type_ _); try (destruct (negb _); [done|]).
  all: try (destruct (_ && _); [injection H1 as <-; lia|done]).
  - apply bind_ok in H1 as (? & _ & H1). apply bind_ok in H1 as ([i p] & _ & [= <-]). cbn [ticker_orders_].
    rewrite map_size_insert. destruct (_ !! _); simpl; lia.
  - destruct (_ !! _); [|done]. apply bind_ok in H1 as (? & _ & [= <-]). cbn [ticker_orders_]. lia.
  - destruct (_ !! _); [|done]. apply bind_ok in H1 as (? & _ & [= <-]). cbn [ticker_orders_].
    rewrite map_size_delete. destruct (_ !! _); simpl; lia.
Qed.

(** A turn of the publisher on waiting updates. *)
Lemma publisher_turn_ok (us : list MEMarketUpdate) (p : MarketDataPublisher) (n : Z) :
  lfq_rep (pub_outgoing_md_updates_ p) us → lfq_rep (snapshot_md_updates_ p) [] →
  length us ≤ q_size (snapshot_md_updates_ p) → mc_outbound (incremental_socket_ p) = [] →
  42 * length us ≤ McastBufferSize →
  0 ≤ next_inc_seq_num_ p → next_inc_seq_num_ p + length us < 2 ^ 64 → n = 42 * length us →
  ∃ sent p', publisher_turn n p = Ok (sent, p')
    ∧ lfq_rep (pub_outgoing_md_updates_ p') []
    ∧ lfq_rep (snapshot_md_updates_ p') (number_updates (next_inc_seq_num_ p) us)
    ∧ next_inc_seq_num_ p' = next_inc_seq_num_ p + length us
    ∧ mc_outbound (incremental_socket_ p') = []
    ∧ sent = concat (encode <$> number_updates (next_inc_seq_num_ p) us).
Proof.
  intros Hq Hs Hr Ho Hl H0 Hlt ->. pose proof (lfq_rep_size _ _ Hq) as [_ Hlen].
  destruct (publish_all_ok us (Z.to_nat (q_size (pub_outgoing_md_updates_ p))) p [] Hq Hs)
    as (p' & E & Hq' & Hs' & Hn & Hout); [simpl; lia|rewrite Ho; simpl; lia|done|done|lia|].
  rewrite Ho in Hout. rewrite app_nil_l in Hout. simpl in Hs'. unfold publisher_turn. rewrite E. cbn [rbind].
  rewrite (mcast_flush_all (42 * length us) (incremental_socket_ p')).
  2: { rewrite Hout, length_number_updates_encode. done. }
  do 2 eexists. split; [done|]. by split_and!.
Qed.

(** Datagrams that fit the buffer are all received. *)
Lemma mcast_drain_all ds inbound :
  Forall (λ d, d ≠ []) ds → length inbound + length (concat ds) ≤ McastBufferSize →
  mcast_drain ds inbound = (bool_decide (ds ≠ []), inbound ++ concat ds, []).
Proof.
  intros Hds. revert inbound. induction Hds as [|d ds Hd _ IH]; intros inbound Hl; cbn [mcast_drain concat].
  { by rewrite app_nil_r. }
  cbn [concat] in Hl. rewrite length_app in Hl. rewrite take_ge by lia. destruct d as [|b d]; [done|].
  rewrite IH by (rewrite length_app; lia). by rewrite (assoc_L (++)).
Qed.
