(* ===== verification/Mirror.v ===== *)
(** * The client's book mirrors the exchange's book.

    End to end over the public feed: the exchange book handles a request and
    publishes updates; the client book applies them in order.  [feeds_replay]
    says that afterwards the client's two sides are the exchange's two sides
    (without the private members), and its BBO is their top. *)

From stdpp Require Import gmap list sorting.
From S2P Require Import Prelude MemPool Types LFQueue BookCore BookSpec BookRep BookRemove BookRefine MarketOrderBook MEOrderBook MESpec MERefine MEInv MatchingEngine.

Open Scope Z_scope.
Local Coercion Z.of_nat : nat >-> Z.

(** What the public feed shows of an order. *)
Definition to_mkt (x : MEOrder) : MarketOrder :=
  mkMarketOrder (market_order_id_ x) (side_ x) (price_ x) (qty_ x) (priority_ x) None None.

Definition mirror (ab : absbook MEOrder) : absbook MarketOrder :=
  mkAbs (to_mkt <$> ab_bids ab) (to_mkt <$> ab_asks ab).

(** The client applying a sequence of updates. *)
Fixpoint mkt_replay (us : list MEMarketUpdate) (mb : MarketOrderBook) : result MarketOrderBook :=
  match us with
  | [] => Ok mb
  | u :: us => let* (mb, _) := onMarketUpdate u mb in mkt_replay us mb
  end.

Lemma mkt_replay_app us1 us2 mb :
  mkt_replay (us1 ++ us2) mb = let* mb := mkt_replay us1 mb in mkt_replay us2 mb.
Proof.
  revert mb. induction us1 as [|u us1 IH]; intros mb; simpl; [done|].
  destruct (onMarketUpdate u mb) as [[mb' ?]|]; [apply IH|done].
Qed.

(** A stream of updates that is valid from [ab] on and leads to [ab']. *)
Fixpoint feeds (us : list MEMarketUpdate) (ab ab' : absbook MarketOrder) : Prop :=
  match us with
  | [] => ab = ab'
  | u :: us => valid_update u ab ∧ feeds us (spec_update u ab) ab'
  end.

Lemma feeds_app us1 us2 ab ab1 ab2 : feeds us1 ab ab1 → feeds us2 ab1 ab2 → feeds (us1 ++ us2) ab ab2.
Proof.
  revert ab. induction us1 as [|u us1 IH]; intros ab; simpl; [by intros ->|].
  intros [Hv H1] H2. split; [done|]. by apply IH.
Qed.

(** The client's book follows such a stream. *)
Lemma feeds_split us1 us2 ab ab' : feeds (us1 ++ us2) ab ab' → ∃ ab1, feeds us1 ab ab1 ∧ feeds us2 ab1 ab'.
Proof.
  revert ab. induction us1 as [|u us1 IH]; intros ab; cbn [app feeds]; [intros H; by exists ab|].
  intros [Hv Hf]. destruct (IH _ Hf) as (ab1 & H1 & H2). by exists ab1.
Qed.

Lemma feeds_replay us mb ab ab' :
  feeds us ab ab' → mkt_rep mb ab → ∃ mb', mkt_replay us mb = Ok mb' ∧ mkt_rep mb' ab'.
Proof.
  revert mb ab. induction us as [|u us IH]; intros mb ab; simpl; [intros <-; eauto|].
  intros [Hv Hf] Hm. destruct (onMarketUpdate_ok u mb ab Hm Hv) as (mb1 & n & -> & Hm1 & _).
  cbn [rbind]. by apply (IH _ (spec_update u ab)).
Qed.

Lemma ab_side_mirror ab s : ab_side (mirror ab) s = to_mkt <$> ab_side ab s.
Proof. unfold ab_side. by case_match. Qed.

Lemma mirror_set ab s q : mirror (set_ab_side ab s q) = set_ab_side (mirror ab) s (to_mkt <$> q).
Proof. unfold set_ab_side, mirror. by case_match. Qed.

Lemma ab_all_mirror ab : ab_all (mirror ab) = to_mkt <$> ab_all ab.
Proof. unfold ab_all. simpl. by rewrite fmap_app. Qed.

Lemma mirror_keys ab : (ord_key <$> ab_all (mirror ab) : list Z) = market_order_id_ <$> ab_all ab.
Proof. rewrite ab_all_mirror, <- list_fmap_compose. done. Qed.

Lemma insert_order_mirror s o q :
  insert_order s (to_mkt o) (to_mkt <$> q) = to_mkt <$> insert_order s o q.
Proof.
  induction q as [|x q IH]; simpl; [done|].
  destruct (better s (price_ o) (price_ x)); simpl; [done|]. f_equal. apply IH.
Qed.

Lemma has_room_mirror ab : has_room ab → has_room (mirror ab).
Proof.
  unfold has_room. rewrite ab_all_mirror, length_fmap. unfold num_levels, mirror. simpl.
  rewrite <- !list_fmap_compose. done.
Qed.

Lemma no_collision_mirror ab s p :
  no_collision (ab_side ab) s p → no_collision (ab_side (mirror ab)) s p.
Proof.
  intros Hnc s' x Hs'. rewrite ab_side_mirror. intros (y & -> & Hy)%list_elem_of_fmap. by apply Hnc.
Qed.

(** ** One fill *)

Section Fill.
Context (a : aggressor).
Abbreviation opp := (opposite (ag_side a)).

Lemma spec_update_trade u ab : mu_type_ u = MU_TRADE → spec_update u ab = ab.
Proof. intros Ht. unfold spec_update. by rewrite Ht. Qed.

(** The public messages of one fill of the best order. *)
Lemma feeds_fill ab x q fill leaves :
  ab_side ab opp = x :: q → NoDup (market_order_id_ <$> ab_all ab) →
  side_ x = opp → qty_ok x → 0 < fill ≤ qty_ x →
  feeds (publics (fill_events a x fill leaves)) (mirror ab)
    (mirror (set_ab_side ab opp (if qty_ x - fill =? 0 then q else set_qty (qty_ x - fill) x :: q))).
Proof.
  intros Hq Hnd Hsx Hqx Hfill. pose proof (proper_opposite (ag_side a)) as Hopp.
  unfold qty_ok in Hqx. unfold fill_events. cbn [publics omap list_omap feeds]. split; [done|].
  rewrite spec_update_trade by done.
  assert (Hside : ab_side (mirror ab) opp = to_mkt x :: (to_mkt <$> q))
    by by rewrite ab_side_mirror, Hq.
  assert (Hkeys : NoDup (ord_key <$> ab_all (mirror ab) : list Z)) by by rewrite mirror_keys.
  rewrite mirror_set. unfold spec_update, valid_update.
  destruct (Z.eqb_spec (qty_ x - fill) 0) as [E0|E0]; cbn [omap list_omap feeds];
    cbn [mu_type_ mu_order_id_ mu_qty_ mu_side_ mu_price_].
  - split.
    + exists (to_mkt x). rewrite Hsx, Hside. split_and!; [by left|done|done|done].
    + change (market_order_id_ x) with (ord_key (to_mkt x)).
      by rewrite (ab_remove_head _ opp (to_mkt x) (to_mkt <$> q)).
  - split.
    + split; [lia|]. exists (to_mkt x). rewrite Hsx, Hside. split_and!; [by left|done|done|done].
    + change (market_order_id_ x) with (ord_key (to_mkt x)).
      by rewrite (ab_update_head _ opp (to_mkt x) (to_mkt <$> q)).
Qed.

Lemma feeds_fill_queue ab leaves q l q2 evs :
  ab_side ab opp = q → NoDup (market_order_id_ <$> ab_all ab) →
  (∀ x, x ∈ q → side_ x = opp) → Forall qty_ok q → 0 ≤ leaves →
  fill_queue a leaves q = (l, q2, evs) →
  feeds (publics evs) (mirror ab) (mirror (set_ab_side ab opp q2)).
Proof.
  pose proof (proper_opposite (ag_side a)) as Hopp.
  revert ab leaves l q2 evs. induction q as [|x q IH]; intros ab leaves l q2 evs Hq Hnd Hs Hqt Hl.
  { intros [= <- <- <-]. rewrite <- Hq, set_ab_side_same. done. }
  cbn [fill_queue]. apply Forall_cons in Hqt as [Hqx Hqt].
  destruct (Z.eqb_spec leaves 0) as [->|Hne]; cbn [orb].
  { intros [= <- <- <-]. rewrite <- Hq, set_ab_side_same. done. }
  destruct (negb (crosses _ _ _)).
  { intros [= <- <- <-]. rewrite <- Hq, set_ab_side_same. done. }
  pose proof Hqx as Hqx'. unfold qty_ok in Hqx'.
  destruct (Z.leb_spec (qty_ x) leaves) as [Hle|Hgt].
  - destruct (fill_queue a (leaves - qty_ x) q) as [[l' q'] evs'] eqn:Ef.
    intros [[<- <-]%pair_eq <-]%pair_eq.
    pose proof (feeds_fill ab x q (qty_ x) (leaves - qty_ x) Hq Hnd) as H1.
    rewrite Z.sub_diag in H1. unfold publics. rewrite omap_app.
    eapply feeds_app; [apply H1; [apply Hs; set_solver|done|lia]|]. cbn [Z.eqb].
    rewrite <- (set_ab_side_twice ab opp q q').
    apply (IH _ (leaves - qty_ x) l'); try done.
    + by rewrite ab_side_set, decide_True.
    + eapply sublist_NoDup; [exact Hnd|]. apply fmap_sublist. unfold ab_all, set_ab_side.
      unfold ab_side in Hq. destruct (is_buy opp); simpl; rewrite Hq;
        [apply sublist_app; [by apply sublist_cons|done]|apply sublist_app; [done|by apply sublist_cons]].
    + intros y Hy. apply Hs. set_solver.
    + lia.
  - intros [[<- <-]%pair_eq <-]%pair_eq.
    pose proof (feeds_fill ab x q leaves 0 Hq Hnd) as H1.
    rewrite (proj2 (Z.eqb_neq (qty_ x - leaves) 0)) in H1 by lia.
    apply H1; [apply Hs; set_solver|done|lia].
Qed.
End Fill.

(** ** One request *)

(** Resting the residual: the ADD message. *)
Lemma feeds_add ab o s ticker_id :
  proper_side s → side_ o = s → qty_ok o →
  no_collision (ab_side ab) s (price_ o) → has_room ab →
  0 ≤ market_order_id_ o < ME_MAX_ORDER_IDS → market_order_id_ o ∉ market_order_id_ <$> ab_all ab →
  feeds [mkMEMarketUpdate MU_ADD (market_order_id_ o) ticker_id s (price_ o) (qty_ o) (priority_ o)]
    (mirror ab) (mirror (set_ab_side ab s (insert_order s o (ab_side ab s)))).
Proof.
  intros Hs Hso Hq Hnc Hroom Hid Hfresh. unfold qty_ok in Hq.
  set (u := mkMEMarketUpdate _ _ _ _ _ _ _). split.
  { unfold valid_update. simpl. rewrite mirror_keys.
    split_and!; [done| |done|lia|lia|by apply no_collision_mirror|by apply has_room_mirror].
    unfold oid_in_range. apply andb_true_intro. split; lia. }
  unfold spec_update. cbn [mu_type_ u mu_side_ feeds].
  assert (mkt_order u = to_mkt o) as Eu by (unfold mkt_order, to_mkt; simpl; by rewrite Hso).
  rewrite Eu, ab_side_mirror, insert_order_mirror. by rewrite mirror_set.
Qed.

Lemma feeds_spec_add client_id oid ticker_id side price qty ob sp :
  me_rep ob sp → book_inv sp →
  valid_new client_id oid side price qty (sp_book sp) → sp_next_id sp < ME_MAX_ORDER_IDS →
  let '(sp', evs) := spec_add client_id oid ticker_id side price qty sp in
  feeds (publics evs) (mirror (sp_book sp)) (mirror (sp_book sp')).
Proof.
  intros (Hr & _ & Hqt) Hi Hv Hn. pose proof (vn_side _ _ _ _ _ _ Hv) as Hs.
  pose proof (proper_opposite side) as Ho. unfold spec_add.
  set (a := mkAggressor _ _ _ _ _ _). set (id := sp_next_id sp) in *.
  destruct (fill_queue a qty _) as [[l q] evs] eqn:Ef.
  destruct (after_match_ok a (sp_book sp) qty l q evs) as (Hl & Hc & Hqt1 & Hroom & _ & Hnc);
    [by apply (rep_sorted (me_book ob))|done|done|done|].
  pose proof (feeds_fill_queue a (sp_book sp) qty _ l q evs eq_refl (bi_unique _ Hi)) as H1.
  assert (feeds (publics evs) (mirror (sp_book sp)) (mirror (set_ab_side (sp_book sp) (opposite side) q))) as Hf.
  { apply H1; [|by apply (Forall_ab _ _ side Hs) in Hqt as [_ ?]|apply Hv|done].
    intros x Hx. exact (rep_sides (me_book ob) (sp_book sp) _ x Hr Ho Hx). }
  clear H1. cbn [ag_side a] in *. destruct (Z.eqb_spec l 0) as [->|Hne]; [done|].
  specialize (Hnc Hne). set (ab1 := set_ab_side (sp_book sp) (opposite side) q) in *.
  set (o := mkMEOrder ticker_id client_id oid id side price l (next_priority price (ab_side ab1 side)) None None).
  pose proof (book_inv_match a sp qty l q evs Hi Hs (proj1 (vn_qty _ _ _ _ _ _ Hv)) Ef) as Hi1.
  pose proof (bi_ids _ Hi1) as Hids. pose proof (bi_next _ Hi) as Hn0. cbn [sp_book sp_next_id] in Hids.
  change (publics (?x :: ?r)) with (publics r). rewrite publics_app. eapply feeds_app; [exact Hf|].
  apply (feeds_add ab1 o side ticker_id); try done.
  - unfold qty_ok. simpl. lia.
  - simpl. unfold id in *. lia.
  - simpl. intros (x & E & Hx)%list_elem_of_fmap. rewrite Forall_forall in Hids.
    destruct (Hids x Hx) as [_ Hlt]. fold id in Hlt. lia.
Qed.

Lemma feeds_spec_cancel client_id oid ticker_id ob sp :
  me_rep ob sp → book_inv sp →
  let '(sp', evs) := spec_cancel client_id oid ticker_id sp in
  feeds (publics evs) (mirror (sp_book sp)) (mirror (sp_book sp')).
Proof.
  intros (Hr & _ & _) Hi. unfold spec_cancel.
  destruct (find_order client_id oid (sp_book sp)) as [x|] eqn:Ef; [|done].
  apply find_order_Some in Ef as [Hx Hk].
  pose proof (proj1 (elem_of_ab_all _ _) Hx) as (s & Hs & Hxs).
  pose proof (rep_sides _ _ s x Hr Hs Hxs) as Hsx. cbn [ord_side MEOrder_node] in Hsx.
  split.
  { unfold valid_update. simpl. exists (to_mkt x). rewrite Hsx, ab_side_mirror.
    split_and!; [by apply list_elem_of_fmap_2|done|done|done]. }
  unfold spec_update. cbn [mu_type_ mu_order_id_ sp_book omap list_omap feeds].
  (* the two keys select the same order *)
  assert (Heq : ∀ y, y ∈ ab_all (sp_book sp) → market_order_id_ y = market_order_id_ x ↔ ord_key y = (client_id, oid)).
  { intros y Hy. rewrite <- Hk. split; intros Ey.
    - by rewrite (NoDup_fmap_inj_elem market_order_id_ (ab_all (sp_book sp)) y x (bi_unique _ Hi)).
    - by rewrite (NoDup_fmap_inj_elem ord_key (ab_all (sp_book sp)) y x (rep_keys _ _ Hr)). }
  assert (Hmap : ∀ l, (∀ y, y ∈ l → y ∈ ab_all (sp_book sp)) →
     remove_order (market_order_id_ x) (to_mkt <$> l) = to_mkt <$> remove_order (client_id, oid) l).
  { induction l as [|y l IH]; intros Hsub; [done|]. rewrite fmap_cons. unfold remove_order in *.
    rewrite !filter_cons. cbn [ord_key MarketOrder_node mo_order_id_ to_mkt].
    destruct (decide (market_order_id_ y ≠ market_order_id_ x)) as [Hd|Hd];
      destruct (decide (ord_key y ≠ (client_id, oid))) as [Hd'|Hd'].
    - rewrite fmap_cons. f_equal. apply IH. set_solver.
    - exfalso. apply Hd'. intros E'. apply Hd. apply Heq; [set_solver|done].
    - exfalso. apply Hd. intros E'. apply Hd'. apply Heq; [set_solver|done].
    - apply IH. set_solver. }
  unfold ab_map, mirror. cbn [ab_bids ab_asks]. f_equal; apply Hmap; intros y Hy; unfold ab_all;
    apply elem_of_app; auto.
Qed.

Lemma feeds_request r ob sp :
  me_rep ob sp → book_inv sp → valid_request r sp → sp_next_id sp < ME_MAX_ORDER_IDS →
  feeds (publics (spec_handle r sp).2) (mirror (sp_book sp)) (mirror (sp_book (spec_handle r sp).1)).
Proof.
  intros Hr Hi Hv Hn. destruct r as [c o t s p q|c o t]; simpl in *.
  - destruct Hv as [Hv _]. pose proof (feeds_spec_add c o t s p q ob sp Hr Hi Hv Hn) as H.
    by destruct (spec_add c o t s p q sp).
  - pose proof (feeds_spec_cancel c o t ob sp Hr Hi) as H. by destruct (spec_cancel c o t sp).
Qed.

(** ** A run of requests *)

Lemma spec_handle_next r sp :
  0 < sp_next_id sp → sp_next_id sp + 1 < 2 ^ 64 →
  sp_next_id (spec_handle r sp).1 ≤ sp_next_id sp + 1.
Proof.
  intros H0 H1. destruct r as [c o t s p q|c o t]; simpl.
  - unfold spec_add. destruct (fill_queue _ _ _) as [[l q2] evs].
    destruct (l =? 0); simpl; rewrite u64_next by done; lia.
  - unfold spec_cancel. destruct (find_order _ _ _); simpl; lia.
Qed.

Lemma feeds_run {E} `{!EngineSink E} rs ob sp (e : E) :
  me_rep ob sp → book_inv sp → valid_run rs sp → sp_next_id sp + length rs < ME_MAX_ORDER_IDS →
  let '(sp', evs) := spec_run rs sp in
  ∃ ob', run_book rs ob e = Ok (ob', emit_all evs e) ∧ me_rep ob' sp' ∧ book_inv sp'
    ∧ feeds (publics evs) (mirror (sp_book sp)) (mirror (sp_book sp')).
Proof.
  revert ob sp e. induction rs as [|r rs IH]; intros ob sp e Hr Hi Hv Hn; simpl.
  { exists ob. done. }
  destruct Hv as [Hv Hvs]. simpl in Hn.
  assert (0 < sp_next_id sp ∧ sp_next_id sp + 1 < 2 ^ 64) as [Hn0 Hn1].
  { pose proof (bi_next _ Hi). unfold ME_MAX_ORDER_IDS in Hn. lia. }
  destruct (handle_ok r ob sp e Hr Hv) as (ob1 & -> & Hr1 & _).
  pose proof (feeds_request r ob sp Hr Hi Hv ltac:(lia)) as Hf.
  pose proof (spec_handle_inv r sp Hi Hv) as Hi1. pose proof (spec_handle_next r sp Hn0 Hn1) as Hnx.
  destruct (spec_handle r sp) as [sp1 ev1]. simpl in *.
  specialize (IH ob1 sp1 (emit_all ev1 e) Hr1 Hi1 Hvs ltac:(lia)).
  destruct (spec_run rs sp1) as [sp2 ev2]. destruct IH as (ob' & -> & ? & ? & Hf2).
  exists ob'. rewrite emit_all_app, publics_app. split_and!; [done..|]. by eapply feeds_app.
Qed.
