(* ===== verification/Snapshot.v ===== *)
(** * The snapshot stream carries the exchange's book.

    [tick_rep s t ab]: the synthesizer's live orders of ticker [t] are the orders
    of the abstract book [ab].  [addToSnapshot_ok]: applying a valid update keeps
    that.  [snapshot_rebuilds]: because a snapshot lists the orders by increasing
    market order id and ids grow with time, replaying it on a fresh client book
    gives back the exchange's book with its price-time priority. *)

From stdpp Require Import gmap list sorting.
From S2P Require Import Prelude MemPool Types LFQueue Wire BookCore BookSpec BookRep BookRemove BookRefine MarketOrderBook MEOrderBook MESpec MERefine MEInv MatchingEngine MarketData Mirror.

Open Scope Z_scope.
Local Coercion Z.of_nat : nat >-> Z.

(** ** The synthesizer's state *)

Record snap_ok (s : SnapshotSynthesizer) : Prop := {
  sk_wf : pool_wf (snap_order_pool_ s);
  sk_size : store_size (snap_order_pool_ s) = ME_MAX_ORDER_IDS;
  sk_used : ∀ i, in_use (snap_order_pool_ s) i ↔ ∃ k, ticker_orders_ s !! k = Some i;
  sk_inj : ∀ k k' i, ticker_orders_ s !! k = Some i → ticker_orders_ s !! k' = Some i → k = k' }.

(** The stored update behind a key. *)
Definition stored (s : SnapshotSynthesizer) (k : Z * Z) : option MEMarketUpdate :=
  obj (snap_order_pool_ s) <$> ticker_orders_ s !! k.

Definition to_add (t : Z) (x : MarketOrder) : MEMarketUpdate :=
  mkMEMarketUpdate MU_ADD (mo_order_id_ x) t (mo_side_ x) (mo_price_ x) (mo_qty_ x) (mo_priority_ x).

Definition tick_rep (s : SnapshotSynthesizer) (t : Z) (ab : absbook MarketOrder) : Prop :=
  ∀ oid u, stored s (t, oid) = Some u ↔ ∃ x, x ∈ ab_all ab ∧ mo_order_id_ x = oid ∧ u = to_add t x.

Lemma snap_ok_new : snap_ok SnapshotSynthesizer_new.
Proof.
  split; unfold SnapshotSynthesizer_new; cbn [snap_order_pool_ ticker_orders_].
  - by apply pool_wf_new.
  - done.
  - intros i. split; [by intros ?%in_use_new|]. intros [k Hk]. by rewrite lookup_empty in Hk.
  - intros k k' i Hk. by rewrite lookup_empty in Hk.
Qed.

Lemma snap_used s : snap_ok s → size (used (snap_order_pool_ s)) = size (ticker_orders_ s).
Proof.
  intros [_ _ Hu Hinj]. rewrite (size_used _ (map_to_list (ticker_orders_ s)).*2).
  - rewrite length_fmap. by rewrite length_map_to_list.
  - apply NoDup_fmap_2_strong; [|apply NoDup_map_to_list].
    intros [k i] [k' i'] Hk%elem_of_map_to_list Hk'%elem_of_map_to_list E. simpl in E. subst i'.
    by rewrite (Hinj k k' i).
  - intros i. rewrite Hu, list_elem_of_fmap. split.
    + intros [k Hk]. exists (k, i). split; [done|]. by apply elem_of_map_to_list.
    + intros ([k j] & E & Hk%elem_of_map_to_list). simpl in E. subst j. eauto.
Qed.

Lemma snapshot_apply_size me s s' :
  snapshot_apply me s = Ok s' → (size (ticker_orders_ s') ≤ size (ticker_orders_ s) + 1)%nat.
Proof.
  unfold snapshot_apply. intros E. destruct (mu_type_ me).
  all: try (destruct (_ && _) in E; [injection E as <-; lia|done]).
  all: destruct (slot_in_range _) in E; [|done]; cbn [negb] in E.
  - apply bind_ok in E as (? & _ & E). apply bind_ok in E as ([i p] & _ & E). injection E as <-. simpl.
    rewrite map_size_insert. destruct (_ !! _); simpl; lia.
  - destruct (_ !! _) in E; [|done]. apply bind_ok in E as (? & _ & E). injection E as <-. simpl. lia.
  - destruct (_ !! _) in E; [|done]. apply bind_ok in E as (? & _ & E). injection E as <-. simpl.
    rewrite map_size_delete. destruct (_ !! _); simpl; lia.
Qed.

Lemma tick_rep_new t : tick_rep SnapshotSynthesizer_new t (mkAbs [] []).
Proof.
  intros oid u. unfold stored. simpl. rewrite lookup_empty. simpl. split; [done|].
  by intros (x & ?%elem_of_nil & _).
Qed.

(** ** The three updates on the stored orders *)

Lemma snapshot_add_ok s me :
  snap_ok s → mu_type_ me = MU_ADD → slot_in_range (mu_ticker_id_ me, mu_order_id_ me) = true →
  ticker_orders_ s !! (mu_ticker_id_ me, mu_order_id_ me) = None →
  size (used (snap_order_pool_ s)) + 1 < ME_MAX_ORDER_IDS →
  ∃ s', snapshot_apply me s = Ok s' ∧ snap_ok s' ∧ last_inc_seq_num_ s' = last_inc_seq_num_ s
    ∧ ∀ k, stored s' k = if decide ((mu_ticker_id_ me, mu_order_id_ me) = k) then Some me else stored s k.
Proof.
  intros [Hwf Hsz Hu Hinj] Ht Hr Hn Hroom. unfold snapshot_apply. rewrite Ht, Hr, Hn. simpl.
  destruct (allocate_some me (snap_order_pool_ s) Hwf) as (p & -> & Ha); [lia|].
  set (i := next_free_index_ (snap_order_pool_ s)) in *. set (k0 := (mu_ticker_id_ me, mu_order_id_ me)) in *.
  assert (Hfree : ∀ k, ticker_orders_ s !! k ≠ Some i).
  { intros k Hk. apply (al_fresh _ _ _ _ Ha), Hu. eauto. }
  eexists. split; [done|]. split_and!; [split|done|]; simpl.
  - apply (al_wf _ _ _ _ Ha).
  - by rewrite (al_size _ _ _ _ Ha).
  - intros j. rewrite (allocated_in_use _ _ _ _ _ Ha), Hu. split.
    + intros [->|[k Hk]]; [exists k0; by rewrite lookup_insert_eq|].
      exists k. rewrite lookup_insert_ne; [done|]. intros <-. congruence.
    + intros [k Hk]. rewrite lookup_insert in Hk. case_decide; [by left; simplify_eq|eauto].
  - intros k k' j. rewrite !lookup_insert. repeat case_decide; intros; simplify_eq; try done.
    + by destruct (Hfree k').
    + by destruct (Hfree k).
    + by eapply Hinj.
  - intros k. unfold stored. simpl. rewrite lookup_insert. case_decide.
    + simpl. by rewrite (allocated_obj _ _ _ _ _ Ha), decide_True.
    + destruct (ticker_orders_ s !! k) as [j|] eqn:Ek; [|done]. simpl.
      rewrite (allocated_obj _ _ _ _ _ Ha), decide_False; [done|]. intros <-. by apply (Hfree k).
Qed.

Lemma snapshot_modify_ok s me u :
  snap_ok s → mu_type_ me = MU_MODIFY → slot_in_range (mu_ticker_id_ me, mu_order_id_ me) = true →
  stored s (mu_ticker_id_ me, mu_order_id_ me) = Some u → mu_order_id_ u = mu_order_id_ me →
  ∃ s', snapshot_apply me s = Ok s' ∧ snap_ok s' ∧ last_inc_seq_num_ s' = last_inc_seq_num_ s
    ∧ ∀ k, stored s' k = if decide ((mu_ticker_id_ me, mu_order_id_ me) = k)
                         then Some (set_update_qty_price (mu_qty_ me) (mu_price_ me) u) else stored s k.
Proof.
  intros [Hwf Hsz Hu Hinj] Ht Hr Hs Hid. unfold snapshot_apply. rewrite Ht, Hr. simpl.
  unfold stored in Hs. destruct (ticker_orders_ s !! _) as [i|] eqn:Ei; [|done]. simpl in Hs.
  injection Hs as <-. rewrite Hid, Z.eqb_refl. simpl.
  eexists. split; [done|]. split_and!; [split|done|]; simpl; try done.
  - by apply pool_wf_modify.
  - intros j. by rewrite in_use_pool_modify.
  - intros k. unfold stored. simpl. case_decide as Ek.
    + subst k. rewrite Ei. simpl. by rewrite obj_pool_modify, decide_True.
    + destruct (ticker_orders_ s !! k) as [j|] eqn:Ej; [|done]. simpl.
      rewrite obj_pool_modify, decide_False; [done|]. intros <-. by apply Ek, (Hinj _ _ i).
Qed.

Lemma snapshot_cancel_ok s me u :
  snap_ok s → mu_type_ me = MU_CANCEL → slot_in_range (mu_ticker_id_ me, mu_order_id_ me) = true →
  stored s (mu_ticker_id_ me, mu_order_id_ me) = Some u →
  ∃ s', snapshot_apply me s = Ok s' ∧ snap_ok s' ∧ last_inc_seq_num_ s' = last_inc_seq_num_ s
    ∧ ∀ k, stored s' k = if decide ((mu_ticker_id_ me, mu_order_id_ me) = k) then None else stored s k.
Proof.
  intros [Hwf Hsz Hu Hinj] Ht Hr Hs. unfold snapshot_apply. rewrite Ht, Hr. simpl.
  unfold stored in Hs. destruct (ticker_orders_ s !! _) as [i|] eqn:Ei; [|done].
  destruct (deallocate_ok (snap_order_pool_ s) i Hwf) as (p & -> & Hwf' & Hsz' & Hu' & Ho'); [apply Hu; eauto|].
  cbn [rbind]. eexists. split; [done|]. split_and!; [split|done|]; simpl; try done.
  - by rewrite Hsz'.
  - intros j. rewrite Hu', Hu. split.
    + intros [Hj [k Hk]]. exists k. rewrite lookup_delete_ne; [done|]. intros <-. congruence.
    + intros [k [Hne Hk]%lookup_delete_Some]. split; [|eauto]. intros ->. by apply Hne, (Hinj _ _ i).
  - intros k k' j [_ Hk]%lookup_delete_Some [_ Hk']%lookup_delete_Some. by eapply Hinj.
  - intros k. unfold stored. simpl. rewrite lookup_delete. case_decide; [done|].
    destruct (ticker_orders_ s !! k); [|done]. simpl. by rewrite Ho'.
Qed.

(** ** The synthesizer tracks the abstract book *)

Lemma ab_all_set_insert ab s o q :
  proper_side s → q ≡ₚ o :: ab_side ab s → ab_all (set_ab_side ab s q) ≡ₚ o :: ab_all (Ord := MarketOrder) ab.
Proof.
  intros Hs Hq. rewrite (ab_all_split _ s Hs), (ab_all_split ab s Hs). pose proof (opposite_ne s).
  rewrite !ab_side_set, decide_True, decide_False by (done || apply proper_opposite). by rewrite Hq.
Qed.

Lemma ab_all_map {Ord} (f : list Ord → list Ord) ab :
  (∀ l1 l2, f (l1 ++ l2) = f l1 ++ f l2) → ab_all (ab_map f ab) = f (ab_all ab).
Proof. intros Hf. unfold ab_all. simpl. by rewrite Hf. Qed.

Lemma slot_of_ticker t oid : 0 ≤ t < ME_MAX_TICKERS → oid_in_range oid = true → slot_in_range (t, oid) = true.
Proof.
  intros Hrange. unfold oid_in_range, slot_in_range. cbn [fst snd]. rewrite andb_true_iff. intros [H1 H2].
  by rewrite H1, H2, (proj2 (Z.leb_le 0 t)), (proj2 (Z.ltb_lt t ME_MAX_TICKERS)) by lia.
Qed.

(** The stored orders after an update of one slot. *)
Definition slot_set (me : MEMarketUpdate) (f : option MEMarketUpdate) (s s' : SnapshotSynthesizer) : Prop :=
  ∀ k, stored s' k = if decide ((mu_ticker_id_ me, mu_order_id_ me) = k) then f else stored s k.

Lemma slot_set_other me f s s' t oid : slot_set me f s s' → t ≠ mu_ticker_id_ me → stored s' (t, oid) = stored s (t, oid).
Proof. intros H Hne. rewrite H, decide_False; [done|]. intros [= E _]. by apply Hne. Qed.

Section Tracks.
Context (s s' : SnapshotSynthesizer) (me : MEMarketUpdate) (ab : absbook MarketOrder).
Hypothesis Ht : tick_rep s (mu_ticker_id_ me) ab.

Lemma tick_rep_add :
  mu_type_ me = MU_ADD → proper_side (mu_side_ me) → mu_order_id_ me ∉ (ord_key <$> ab_all ab : list Z) →
  slot_set me (Some me) s s' → tick_rep s' (mu_ticker_id_ me) (spec_update me ab).
Proof.
  intros Et Hsd Hf Hst oid u. rewrite Hst. unfold spec_update. rewrite Et.
  assert (to_add (mu_ticker_id_ me) (mkt_order me) = me) as Eadd
    by (unfold to_add, mkt_order; simpl; destruct me; simpl in *; by subst).
  setoid_rewrite (ab_all_set_insert ab (mu_side_ me) (mkt_order me) _ Hsd (insert_order_perm _ _ _)).
  setoid_rewrite elem_of_cons. case_decide as Ek.
  - injection Ek as <-. split.
    + intros [= <-]. exists (mkt_order me). split_and!; [by left|done|done].
    + intros (x & [->|Hx] & Hid & ->); [by rewrite Eadd|]. exfalso. apply Hf. rewrite <- Hid. exact (list_elem_of_fmap_2 ord_key _ x Hx).
  - rewrite (Ht oid u). split.
    + intros (x & ? & ? & ?). eauto.
    + intros (x & [->|Hx] & Hid & ->); [by simpl in Hid; subst oid|eauto].
Qed.

Lemma tick_rep_modify z :
  mu_type_ me = MU_MODIFY → NoDup (ord_key <$> ab_all ab : list Z) → z ∈ ab_all ab → mo_order_id_ z = mu_order_id_ me →
  mo_price_ z = mu_price_ me →
  slot_set me (Some (set_update_qty_price (mu_qty_ me) (mu_price_ me) (to_add (mu_ticker_id_ me) z))) s s' →
  tick_rep s' (mu_ticker_id_ me) (spec_update me ab).
Proof.
  intros Et Hnd Hz Hid Hp Hst oid u. rewrite Hst. unfold spec_update. rewrite Et, ab_all_map by (intros; apply fmap_app).
  unfold update_order. setoid_rewrite list_elem_of_fmap. case_decide as Ek.
  - injection Ek as <-. split.
    + intros [= <-]. exists (set_mo_qty (mu_qty_ me) z). split_and!; [|done|].
      * exists z. split; [|done]. by rewrite decide_True.
      * unfold to_add, set_update_qty_price. simpl. by rewrite <- Hp.
    + intros (x & (y & -> & Hy) & Hidy & ->).
      assert (mo_order_id_ y = mu_order_id_ me) as Ey by (by case_decide). rewrite decide_True by done.
      assert (y = z) as -> by (apply (NoDup_fmap_inj_elem ord_key _ y z Hnd Hy Hz); cbn [ord_key MarketOrder_node]; congruence).
      unfold to_add, set_update_qty_price. simpl. by rewrite <- Hp.
  - rewrite (Ht oid u). split.
    + intros (x & Hx & <- & ->). exists x. split_and!; [|done|done]. exists x. split; [|done].
      rewrite decide_False; [done|]. cbn [ord_key MarketOrder_node]. congruence.
    + intros (x & (y & -> & Hy) & Hidy & ->). case_decide as Ey; [|eauto].
      exfalso. apply Ek. f_equal. cbn [ord_key MarketOrder_node] in Ey. simpl in Hidy. congruence.
Qed.

Lemma tick_rep_cancel :
  mu_type_ me = MU_CANCEL → slot_set me None s s' → tick_rep s' (mu_ticker_id_ me) (spec_update me ab).
Proof.
  intros Et Hst oid u. rewrite Hst. unfold spec_update. rewrite Et, ab_all_map by apply remove_order_app.
  setoid_rewrite (list_elem_of_filter (λ x, ord_key x ≠ mu_order_id_ me)). cbn [ord_key MarketOrder_node]. case_decide as Ek.
  - injection Ek as <-. split; [done|]. intros (x & [Hne _] & E' & _). done.
  - rewrite (Ht oid u). split.
    + intros (x & Hx & <- & ->). exists x. split_and!; [|done|done|done]. congruence.
    + intros (x & [_ Hx] & ? & ?). eauto.
Qed.
End Tracks.

(** A live order is stored in its slot. *)
Lemma stored_live s t b ab z oid :
  tick_rep s t ab → rep b ab → z ∈ ab_all ab → mo_order_id_ z = oid → 0 ≤ t < ME_MAX_TICKERS →
  stored s (t, oid) = Some (to_add t z) ∧ slot_in_range (t, oid) = true.
Proof.
  intros Ht Hr Hz <- Hrange. split; [apply Ht; eauto|].
  pose proof (rep_key_range b ab z Hr Hz) as Hk. cbn [key_in_range ord_key MarketOrder_node] in Hk.
  by apply slot_of_ticker.
Qed.

Lemma snapshot_apply_ok s t me b ab :
  snap_ok s → tick_rep s t ab → rep b ab → valid_update me ab → mu_ticker_id_ me = t →
  0 ≤ t < ME_MAX_TICKERS → size (ticker_orders_ s) + 1 < ME_MAX_ORDER_IDS →
  ∃ s', snapshot_apply me s = Ok s' ∧ snap_ok s' ∧ tick_rep s' t (spec_update me ab)
    ∧ last_inc_seq_num_ s' = last_inc_seq_num_ s ∧ ∀ t' oid, t' ≠ t → stored s' (t', oid) = stored s (t', oid).
Proof.
  intros Hs Ht Hr Hv <- Hrange Hroom. rewrite <- (snap_used s Hs) in Hroom.
  unfold valid_update in Hv. destruct (mu_type_ me) eqn:Et; try done.
  - destruct Hv as (Hsd & Hk & Hf & _).
    assert (ticker_orders_ s !! (mu_ticker_id_ me, mu_order_id_ me) = None) as Hn.
    { destruct (ticker_orders_ s !! _) as [i|] eqn:E; [|done]. exfalso.
      destruct (proj1 (Ht (mu_order_id_ me) (obj (snap_order_pool_ s) i))) as (x & Hx & Hid & _); [unfold stored; by rewrite E|].
      apply Hf. rewrite <- Hid. exact (list_elem_of_fmap_2 ord_key _ x Hx). }
    destruct (snapshot_add_ok s me Hs Et (slot_of_ticker _ _ Hrange Hk) Hn Hroom) as (s' & E & Hs' & Hl & Hst).
    exists s'. split_and!; [done|done|by apply (tick_rep_add s)|done|intros t' oid; by apply (slot_set_other me (Some me))].
  - destruct Hv as (_ & z & Hz & Hsd & Hid & Hp). assert (z ∈ ab_all ab) as Hza by (apply elem_of_ab_all; eauto).
    destruct (stored_live s _ b ab z _ Ht Hr Hza Hid Hrange) as [Hst0 Hk].
    destruct (snapshot_modify_ok s me _ Hs Et Hk Hst0 Hid) as (s' & E & Hs' & Hl & Hst).
    exists s'. split_and!; [done|done| |done|intros t' oid; by eapply slot_set_other].
    apply (tick_rep_modify s s' me ab Ht z); try done. apply (rep_keys b ab Hr).
  - destruct Hv as (z & Hz & Hsd & Hid & Hp). assert (z ∈ ab_all ab) as Hza by (apply elem_of_ab_all; eauto).
    destruct (stored_live s _ b ab z _ Ht Hr Hza Hid Hrange) as [Hst0 Hk].
    destruct (snapshot_cancel_ok s me _ Hs Et Hk Hst0) as (s' & E & Hs' & Hl & Hst).
    exists s'. split_and!; [done|done|by apply (tick_rep_cancel s)|done|intros t' oid; by eapply slot_set_other].
  - exists s. unfold snapshot_apply. rewrite Et, (proj2 (Z.leb_le 0 _)), (proj2 (Z.ltb_lt _ ME_MAX_TICKERS)) by lia.
    split_and!; try done. unfold spec_update. by rewrite Et.
Qed.

(** ** The published snapshot *)

Definition id_lt (x y : MarketOrder) : Prop := mo_order_id_ x < mo_order_id_ y.
Definition id_le (x y : MarketOrder) : Prop := mo_order_id_ x ≤ mo_order_id_ y.

#[local] Instance id_le_dec x y : Decision (id_le x y) := decide (mo_order_id_ x ≤ mo_order_id_ y).
#[local] Instance id_le_total : Total id_le.
Proof. intros x y. unfold id_le. lia. Qed.
#[local] Instance id_le_trans : Transitive id_le.
Proof. intros x y z. unfold id_le. lia. Qed.

Lemma elem_of_ticker_oids t s oid : oid ∈ ticker_oids t s ↔ is_Some (ticker_orders_ s !! (t, oid)).
Proof.
  unfold ticker_oids. rewrite merge_sort_Permutation, list_elem_of_omap. split.
  - intros ([t' o'] & ([k i] & Ek & Hk)%list_elem_of_fmap & E). simpl in *. subst k.
    case_decide as D; [|done]. injection E as <-. subst t'. apply elem_of_map_to_list in Hk. eauto.
  - intros [i Hi]. exists (t, oid). split; [|by simpl; rewrite decide_True].
    apply list_elem_of_fmap. exists ((t, oid), i). split; [done|]. by apply elem_of_map_to_list.
Qed.

Lemma NoDup_omap_inj {A B} (f : A → option B) (l : list A) :
  (∀ x y b, f x = Some b → f y = Some b → x = y) → NoDup l → NoDup (omap f l).
Proof.
  intros Hf. induction 1 as [|x l Hx Hnd IH]; simpl; [constructor|].
  destruct (f x) as [b|] eqn:E; [|done]. constructor; [|done].
  intros (y & Hy & Ey)%list_elem_of_omap. by rewrite (Hf x y b) in Hx.
Qed.

Lemma NoDup_ticker_oids t s : NoDup (ticker_oids t s).
Proof.
  unfold ticker_oids. rewrite merge_sort_Permutation. apply NoDup_omap_inj.
  - intros [t1 o1] [t2 o2] b. simpl. repeat case_decide; intros; simplify_eq; done.
  - apply NoDup_fst_map_to_list.
Qed.

(** The ADDs of a ticker in a snapshot: its resting orders by increasing market
    order id. *)
Lemma ticker_snapshot_ok s t b ab :
  tick_rep s t ab → rep b ab →
  ∃ xs, xs ≡ₚ ab_all ab ∧ StronglySorted id_lt xs ∧ ticker_snapshot t s = to_add t <$> xs.
Proof.
  intros Ht Hr. pose proof (rep_keys b ab Hr) as Hk. set (xs := merge_sort id_le (ab_all ab)).
  pose proof (merge_sort_Permutation id_le (ab_all ab)) as Hp. fold xs in Hp.
  assert (Hle : StronglySorted id_le xs) by (apply StronglySorted_merge_sort; apply _).
  assert (Hnd : NoDup (mo_order_id_ <$> xs)) by by rewrite Hp.
  exists xs. split_and!; [done|..].
  - clear Hp. clearbody xs. clear Ht Hr Hk. induction Hle as [|x xs Hle IH Hx]; [constructor|].
    apply NoDup_cons in Hnd as [Hn Hnd]. constructor; [by apply IH|].
    apply Forall_forall. intros y Hy. rewrite Forall_forall in Hx. specialize (Hx y Hy). unfold id_le, id_lt in *.
    assert (mo_order_id_ x ≠ mo_order_id_ y); [|lia]. intros E. apply Hn. rewrite E. by apply list_elem_of_fmap_2.
  - assert (ticker_oids t s = mo_order_id_ <$> xs) as Eo.
    { apply (StronglySorted_unique (≤)).
      - apply StronglySorted_merge_sort; apply _.
      - clear Hp Hnd. induction Hle as [|x l Hle IH Hx]; simpl; constructor; [done|].
        by apply Forall_fmap.
      - apply NoDup_Permutation; [apply NoDup_ticker_oids|done|]. intros oid.
        rewrite elem_of_ticker_oids, Hp, list_elem_of_fmap. unfold is_Some. split.
        + intros [i Hi]. destruct (proj1 (Ht oid (obj (snap_order_pool_ s) i))) as (x & Hx & <- & _); [|eauto].
          unfold stored. by rewrite Hi.
        + intros (x & -> & Hx).
          destruct (ticker_orders_ s !! (t, mo_order_id_ x)) as [i|] eqn:Ei; [by exists i|].
          enough (stored s (t, mo_order_id_ x) = Some (to_add t x)) as E
            by (unfold stored in E; by rewrite Ei in E). apply Ht. eauto. }
    unfold ticker_snapshot. rewrite Eo.
    assert (Hall : ∀ x, x ∈ xs → x ∈ ab_all ab) by (intros x; by rewrite Hp).
    clear -Ht Hall. induction xs as [|x xs IH]; [done|].
    rewrite !fmap_cons. cbn [omap list_omap].
    assert (stored s (t, mo_order_id_ x) = Some (to_add t x)) as E.
    { apply Ht. exists x. split_and!; [|done|done]. apply Hall. by left. }
    unfold stored in E. rewrite E. f_equal. apply IH. intros y Hy. apply Hall. by right.
Qed.

(** ** Replaying a snapshot *)

(** [x] has price-time priority over [y]. *)
Definition ahead (s : Side) (x y : MarketOrder) : Prop :=
  better s (mo_price_ x) (mo_price_ y) = true ∨ mo_price_ x = mo_price_ y ∧ mo_order_id_ x < mo_order_id_ y.

Lemma ahead_asym s x y : ahead s x y → ahead s y x → False.
Proof.
  intros [Hb|[E Hl]] [Hb'|[E' Hl']].
  - by rewrite (better_asym _ _ _ Hb) in Hb'.
  - by rewrite E', better_irrefl in Hb.
  - by rewrite E, better_irrefl in Hb'.
  - lia.
Qed.

(** What the rebuilding needs of the exchange's book. *)
Record rebuildable (b : Book MarketOrder Z) (ab : absbook MarketOrder) : Prop := {
  rb_rep : rep b ab;
  rb_room : has_room ab;
  rb_qty : Forall mkt_qty_ok (ab_all ab);
  rb_prio : ∀ s, proper_side s → StronglySorted (ahead s) (ab_side ab s) }.

(** The part of the book already rebuilt. *)
Record rebuilt (mb : MarketOrderBook) (ab : absbook MarketOrder) (xs : list MarketOrder) : Prop := {
  rt_rep : mkt_rep mb ab;
  rt_all : ab_all ab ≡ₚ xs;
  rt_prio : ∀ s, proper_side s → StronglySorted (ahead s) (ab_side ab s) }.

Lemma mkt_order_to_add t b ab x : rep b ab → x ∈ ab_all ab → mkt_order (to_add t x) = x.
Proof.
  intros Hr Hx. pose proof (rep_erased b ab x Hr Hx) as E. rewrite <- E. destruct x. done.
Qed.

Lemma rep_side_of b ab x : rep b ab → x ∈ ab_all ab → proper_side (mo_side_ x) ∧ x ∈ ab_side ab (mo_side_ x).
Proof.
  intros Hr (s & Hs & Hx)%elem_of_ab_all. pose proof (rep_sides b ab s x Hr Hs Hx) as E.
  cbn [ord_side MarketOrder_node] in E. by subst s.
Qed.

Lemma ab_side_filter b ab s : rep b ab → proper_side s → filter (λ x, mo_side_ x = s) (ab_all ab) ≡ₚ ab_side ab s.
Proof.
  intros Hr Hs. rewrite (ab_all_split ab s Hs), filter_app. pose proof (opposite_ne s) as Hne.
  assert (∀ l : list MarketOrder, (∀ x, x ∈ l → mo_side_ x = s) → filter (λ x, mo_side_ x = s) l = l) as Hin.
  { induction l as [|x l IH]; intros Hl; [done|]. rewrite filter_cons, decide_True by (apply Hl; by left).
    f_equal. apply IH. intros y Hy. apply Hl. by right. }
  assert (∀ l : list MarketOrder, (∀ x, x ∈ l → mo_side_ x ≠ s) → filter (λ x, mo_side_ x = s) l = []) as Hout.
  { induction l as [|x l IH]; intros Hl; [done|]. rewrite filter_cons, decide_False by (apply Hl; by left).
    apply IH. intros y Hy. apply Hl. by right. }
  rewrite Hin, Hout, app_nil_r; [done|..].
  - intros x Hx E. pose proof (rep_sides b ab _ x Hr (proper_opposite s) Hx) as E'.
    cbn [ord_side MarketOrder_node] in E'. congruence.
  - intros x Hx. exact (rep_sides b ab s x Hr Hs Hx).
Qed.

Lemma rebuilt_unique b ab mb ab' xs :
  rebuildable b ab → rebuilt mb ab' xs → xs ≡ₚ ab_all ab → ab' = ab.
Proof.
  intros Hb Ht Hp. apply ab_eq. intros s Hs.
  apply (StronglySorted_unique_strict (ahead s)); [apply ahead_asym|by apply Ht|by apply Hb|].
  rewrite <- (ab_side_filter _ ab' s (proj1 (rt_rep _ _ _ Ht)) Hs), <- (ab_side_filter b ab s (rb_rep _ _ Hb) Hs).
  by rewrite (rt_all _ _ _ Ht), Hp.
Qed.

(** One ADD of the snapshot. *)
Lemma rebuild_step t b ab mb ab1 xs1 x :
  rebuildable b ab → rebuilt mb ab1 xs1 → (∀ y, y ∈ x :: xs1 → y ∈ ab_all ab) →
  NoDup (x :: xs1) → (∀ y, y ∈ xs1 → id_lt y x) →
  ∃ mb' n ab', onMarketUpdate (to_add t x) mb = Ok (mb', n) ∧ rebuilt mb' ab' (x :: xs1).
Proof.
  intros Hb [Hm Ha Hs] Hsub Hnd Hlt. pose proof (rb_rep _ _ Hb) as Hr.
  assert (Hx : x ∈ ab_all ab) by (apply Hsub; by left).
  destruct (rep_side_of b ab x Hr Hx) as [Hsd Hxs].
  assert (Hsub1 : ∀ y, y ∈ ab_all ab1 → y ∈ xs1 ∧ y ∈ ab_all ab)
    by (intros y; rewrite Ha; split; [done|apply Hsub; by right]).
  assert (Hsub2 : ∀ s y, proper_side s → y ∈ ab_side ab1 s → y ∈ ab_side ab s).
  { intros s y Hps Hy. assert (y ∈ ab_all ab1) as Hy1 by (apply elem_of_ab_all; eauto).
    destruct (Hsub1 y Hy1) as [_ Hy2]. destruct (rep_side_of b ab y Hr Hy2) as [_ Hy3].
    pose proof (rep_sides _ ab1 s y (proj1 Hm) Hps Hy) as E. cbn [ord_side MarketOrder_node] in E.
    by rewrite E in Hy3. }
  assert (Hv : valid_update (to_add t x) ab1).
  { unfold valid_update. cbn [to_add mu_type_ mu_side_ mu_order_id_ mu_qty_ mu_price_]. split_and!.
    - done.
    - exact (rep_key_range b ab x Hr Hx).
    - intros (y & E & Hy)%list_elem_of_fmap. cbn [ord_key MarketOrder_node] in E.
      destruct (Hsub1 y Hy) as [Hy1 _]. specialize (Hlt y Hy1). unfold id_lt in Hlt. lia.
    - pose proof (rb_qty _ _ Hb) as Hq. rewrite Forall_forall in Hq. by apply (Hq x).
    - pose proof (rb_qty _ _ Hb) as Hq. rewrite Forall_forall in Hq. by apply (Hq x).
    - intros s' y Hps Hy E.
      destruct (rep_no_alias b ab s' (mo_side_ x) y x Hr Hps Hsd (Hsub2 _ _ Hps Hy) Hxs E) as [-> Ep]. done.
    - destruct (rb_room _ _ Hb) as [Hr1 Hr2]. split.
      + assert (length (ab_all ab1) ≤ length (ab_all ab))%nat; [|lia].
        rewrite Ha. apply submseteq_length, NoDup_submseteq; [by apply NoDup_cons in Hnd as [_ ?]|].
        intros y Hy. apply Hsub. by right.
      + assert (∀ s, proper_side s → (num_levels (ab_side ab1 s) ≤ num_levels (ab_side ab s))%nat) as Hn.
        { intros s Hps. apply num_levels_mono. intros p (y & -> & Hy)%list_elem_of_fmap.
          exact (list_elem_of_fmap_2 ord_price _ y (Hsub2 s y Hps Hy)). }
        pose proof (Hn BUY (or_introl eq_refl)) as H1. pose proof (Hn SELL (or_intror eq_refl)) as H2.
        unfold ab_side in H1, H2. simpl in H1, H2. lia. }
  destruct (onMarketUpdate_ok _ _ _ Hm Hv) as (mb' & n & E & Hm' & _).
  exists mb', n, (spec_update (to_add t x) ab1). split; [done|]. split; [done|..].
  - unfold spec_update. cbn [to_add mu_type_ mu_side_]. fold (to_add t x).
    rewrite (mkt_order_to_add t b ab x Hr Hx).
    by rewrite (ab_all_set_insert ab1 (mo_side_ x) x _ Hsd (insert_order_perm _ _ _)), Ha.
  - intros s Hps. unfold spec_update. cbn [to_add mu_type_ mu_side_]. fold (to_add t x).
    rewrite (mkt_order_to_add t b ab x Hr Hx), ab_side_set by done. case_decide as Es; [|by apply Hs].
    subst s. apply insert_order_sorted.
    + by apply (rep_sorted (mkt_book mb)); [apply Hm|].
    + by apply Hs.
    + intros y Hy Hbt. unfold ahead. cbn [ord_price MarketOrder_node] in Hbt.
      destruct (decide (mo_price_ y = mo_price_ x)) as [Ep|Ep].
      * right. split; [done|]. apply Hlt, Hsub1, elem_of_ab_all. eauto.
      * left. by apply better_total.
    + intros y _ Hbt. by left.
Qed.

Lemma rebuild_all t b ab mb ab1 xs1 xs2 :
  rebuildable b ab → rebuilt mb ab1 xs1 → (∀ y, y ∈ xs2 ++ xs1 → y ∈ ab_all ab) → NoDup (xs2 ++ xs1) →
  (∀ y z, y ∈ xs1 → z ∈ xs2 → id_lt y z) → StronglySorted id_lt xs2 →
  ∃ mb' ab', mkt_replay (to_add t <$> xs2) mb = Ok mb' ∧ rebuilt mb' ab' (xs2 ++ xs1).
Proof.
  revert mb ab1 xs1. induction xs2 as [|x xs2 IH]; intros mb ab1 xs1 Hb Ht Hsub Hnd Hlt Hs.
  { exists mb, ab1. done. }
  apply StronglySorted_inv in Hs as [Hs Hx]. rewrite Forall_forall in Hx.
  assert (Hperm : xs2 ++ x :: xs1 ≡ₚ (x :: xs2) ++ xs1) by (symmetry; apply Permutation_middle).
  destruct (rebuild_step t b ab mb ab1 xs1 x) as (mb1 & n & ab2 & E & Ht1); [done|done|..].
  - intros y [->|Hy]%elem_of_cons; apply Hsub, elem_of_app; [left; by left|by right].
  - rewrite <- Hperm in Hnd. by apply NoDup_app in Hnd as (_ & _ & ?).
  - intros y Hy. apply Hlt; [done|by left].
  - destruct (IH mb1 ab2 (x :: xs1)) as (mb' & ab' & E' & Ht'); try done.
    + intros y Hy. apply Hsub. by rewrite <- Hperm.
    + by rewrite Hperm.
    + intros y z [->|Hy]%elem_of_cons Hz; [by apply Hx|]. apply Hlt; [done|by right].
    + exists mb', ab'. split.
      * rewrite fmap_cons. cbn [mkt_replay]. by rewrite E.
      * destruct Ht' as [? Ha ?]. split; [done| |done]. by rewrite Ha.
Qed.

(** Replaying the ADDs of a ticker's snapshot on a fresh book gives back the book
    the synthesizer tracks. *)
Lemma snapshot_rebuilds s t b ab :
  tick_rep s t ab → rebuildable b ab →
  ∃ mb, mkt_replay (ticker_snapshot t s) (MarketOrderBook_new zeroed t) = Ok mb ∧ mkt_rep mb ab.
Proof.
  intros Ht Hb. destruct (ticker_snapshot_ok s t b ab Ht (rb_rep _ _ Hb)) as (xs & Hp & Hs & ->).
  destruct (rebuild_all t b ab (MarketOrderBook_new zeroed t) (mkAbs [] []) [] xs) as (mb & ab' & E & Hr); try done.
  - split; [apply mkt_rep_new|done|]. intros s' [-> | ->]; constructor.
  - intros y. rewrite app_nil_r, Hp. done.
  - rewrite app_nil_r, Hp. eapply NoDup_fmap_1. exact (rep_keys b ab (rb_rep _ _ Hb)).
  - by intros y z ?%elem_of_nil.
  - exists mb. split; [done|]. rewrite app_nil_r in Hr.
    rewrite <- (rebuilt_unique b ab mb ab' xs Hb Hr Hp). apply Hr.
Qed.

(** ** The synthesizer follows the feed *)

Lemma addToSnapshot_ok s n t me b ab :
  snap_ok s → tick_rep s t ab → rep b ab → valid_update me ab → mu_ticker_id_ me = t →
  0 ≤ t < ME_MAX_TICKERS → size (ticker_orders_ s) + 1 < ME_MAX_ORDER_IDS → n = u64 (last_inc_seq_num_ s + 1) →
  ∃ s', addToSnapshot (mkMDPMarketUpdate n me) s = Ok s' ∧ snap_ok s' ∧ tick_rep s' t (spec_update me ab)
    ∧ last_inc_seq_num_ s' = n ∧ (size (ticker_orders_ s') ≤ size (ticker_orders_ s) + 1)%nat
    ∧ ∀ t' ab', t' ≠ t → tick_rep s t' ab' → tick_rep s' t' ab'.
Proof.
  intros Hs Ht Hr Hv Htk Hrg Hroom ->.
  destruct (snapshot_apply_ok s t me b ab Hs Ht Hr Hv Htk Hrg Hroom) as (s1 & E & Hs1 & Ht1 & Hl & Ho).
  unfold addToSnapshot. cbn [me_market_update_ mdp_seq_num_]. rewrite E. cbn [rbind].
  rewrite Hl, Z.eqb_refl. simpl. eexists. split; [done|]. split_and!.
  - by destruct Hs1.
  - exact Ht1.
  - done.
  - exact (snapshot_apply_size me s s1 E).
  - intros t' ab' Hne Ht' oid u. rewrite <- (Ht' oid u), <- Ho by done. done.
Qed.

(** The updates of one ticker in a feed. *)
Definition of_ticker (t : Z) (us : list MEMarketUpdate) : list MEMarketUpdate :=
  filter (λ u, mu_ticker_id_ u = t) us.

(** [abs t] is the book of ticker [t]. *)
Definition books_at (s : SnapshotSynthesizer) (abs : Z → absbook MarketOrder) : Prop :=
  ∀ t, 0 ≤ t < ME_MAX_TICKERS → tick_rep s t (abs t) ∧ ∃ mb, mkt_rep mb (abs t).

Lemma add_all_to_snapshot_ok us s abs abs' :
  snap_ok s → books_at s abs → Forall (λ u, 0 ≤ mu_ticker_id_ u < ME_MAX_TICKERS) us →
  (∀ t, 0 ≤ t < ME_MAX_TICKERS → feeds (of_ticker t us) (abs t) (abs' t)) →
  size (ticker_orders_ s) + length us < ME_MAX_ORDER_IDS →
  0 ≤ last_inc_seq_num_ s → last_inc_seq_num_ s + length us < 2 ^ 64 →
  ∃ s', add_all_to_snapshot (number_updates (last_inc_seq_num_ s + 1) us) s = Ok s' ∧ snap_ok s'
    ∧ books_at s' abs' ∧ last_inc_seq_num_ s' = last_inc_seq_num_ s + length us.
Proof.
  revert s abs. induction us as [|u us IH]; intros s abs Hs Hb Hrg Hf Hroom H0 Hlt.
  { exists s. simpl. split_and!; [done..| |lia]. intros t Ht.
    assert (abs' t = abs t) as -> by (symmetry; exact (Hf t Ht)). by apply Hb. }
  apply Forall_cons in Hrg as [Hu Hrg]. cbn [length] in Hroom, Hlt. set (t0 := mu_ticker_id_ u) in *.
  pose proof (Hf t0 Hu) as Hf0. unfold of_ticker in Hf0. rewrite filter_cons, decide_True in Hf0 by done.
  destruct Hf0 as [Hv Hf0]. destruct (Hb t0 Hu) as [Ht0 [mb0 Hm0]].
  destruct (addToSnapshot_ok s (last_inc_seq_num_ s + 1) t0 u (mkt_book mb0) (abs t0))
    as (s1 & E1 & Hs1 & Ht1 & Hl1 & Hsz & Ho); try done; [apply Hm0|lia| |].
  { unfold wrap. symmetry. apply Z.mod_small. lia. }
  set (abs1 := λ t, if decide (t = t0) then spec_update u (abs t0) else abs t).
  destruct (IH s1 abs1) as (s' & E' & Hs' & Hb' & Hl'); [done| |done| |lia|lia|lia|].
  - intros t Ht. unfold abs1. case_decide as D.
    + subst t. split; [done|]. destruct (onMarketUpdate_ok u mb0 _ Hm0 Hv) as (mb1 & ? & _ & ? & _). eauto.
    + destruct (Hb t Ht) as [? ?]. split; [by apply Ho|done].
  - intros t Ht. unfold abs1. case_decide as D; [by subst t|].
    specialize (Hf t Ht). unfold of_ticker in Hf. by rewrite filter_cons, decide_False in Hf by done.
  - exists s'. rewrite Hl1 in *. simpl. rewrite E1. cbn [rbind]. split_and!; [done..|lia].
Qed.

(** Every ticker of every snapshot taken after a valid feed rebuilds the book. *)
Lemma mirror_rebuildable mb sp :
  mkt_rep mb (mirror (sp_book sp)) → book_inv sp → has_room (sp_book sp) →
  rebuildable (mkt_book mb) (mirror (sp_book sp)).
Proof.
  intros (Hr & Hq & _) Hi Hroom. split; [done|by apply has_room_mirror|done|].
  intros s Hs. rewrite ab_side_mirror. pose proof (bi_sorted _ Hi s Hs) as Hps. pose proof (bi_fifo _ Hi s Hs) as Hft.
  unfold price_sorted in Hps. induction (ab_side (sp_book sp) s) as [|x q IH]; [constructor|].
  apply StronglySorted_inv in Hps as [Hps Hpx], Hft as [Hft Hfx]. rewrite fmap_cons. constructor; [by apply IH|].
  rewrite Forall_fmap, Forall_forall. rewrite Forall_forall in Hpx, Hfx. intros y Hy. unfold ahead. simpl.
  specialize (Hpx y Hy). specialize (Hfx y Hy). cbn [ord_price MEOrder_node] in Hpx.
  destruct (decide (price_ x = price_ y)) as [E|E]; [right; split; [done|]; by apply Hfx|].
  left. by apply better_total.
Qed.
