(* ===== verification/System.v ===== *)
(** * The public feed of the whole engine.

    The matching engine multiplexes the updates of its books on one queue.
    [engine_feeds]: the updates of each ticker, taken alone, are a valid stream
    from the ticker's old book to its new book.  With Snapshot.v this gives that
    the synthesizer's snapshot rebuilds every book (FeedTheorems.v), and with
    Mirror.v that the client's books mirror the exchange's. *)

From stdpp Require Import gmap list sorting.
From S2P Require Import Prelude MemPool Types LFQueue BookCore BookSpec BookRep BookRemove BookRefine MarketOrderBook MEOrderBook MESpec MERefine MEInv MatchingEngine Requests MarketData Mirror Snapshot.

Open Scope Z_scope.
Local Coercion Z.of_nat : nat >-> Z.

(** ** The ticker of the updates *)

Definition request_ticker (r : book_request) : Z :=
  match r with NewOrder _ _ t _ _ _ => t | CancelOrder _ _ t => t end.

Lemma publics_fill_queue a leaves q l q' evs :
  fill_queue a leaves q = (l, q', evs) → Forall (λ u, mu_ticker_id_ u = ag_ticker a) (publics evs).
Proof.
  revert leaves l q' evs. induction q as [|x q IH]; intros leaves l q' evs; simpl.
  { intros [= <- <- <-]. constructor. }
  assert (∀ fill lv, Forall (λ u, mu_ticker_id_ u = ag_ticker a) (publics (fill_events a x fill lv))) as Hf.
  { intros fill lv. unfold fill_events. cbn [publics omap list_omap].
    apply Forall_cons. split; [done|]. apply Forall_cons. split; [by destruct (_ =? _)|constructor]. }
  destruct (_ || _); [intros [= <- <- <-]; constructor|].
  destruct (qty_ x <=? leaves); [|intros [= <- <- <-]; apply Hf].
  destruct (fill_queue a (leaves - qty_ x) q) as [[l1 q1] e1] eqn:E. intros [= <- <- <-].
  change (Forall (λ u, mu_ticker_id_ u = ag_ticker a) (publics (fill_events a x (qty_ x) (leaves - qty_ x) ++ e1))).
  rewrite publics_app. apply Forall_app. split; [apply Hf|by eapply IH].
Qed.

Lemma publics_handle r sp : Forall (λ u, mu_ticker_id_ u = request_ticker r) (publics (spec_handle r sp).2).
Proof.
  destruct r as [c o t s p q|c o t]; simpl.
  - unfold spec_add. destruct (fill_queue _ q _) as [[l q2] evs] eqn:E.
    apply publics_fill_queue in E. simpl in E. destruct (l =? 0); [done|].
    cbn [snd]. change (publics (?x :: ?r)) with (publics r). rewrite publics_app. apply Forall_app.
    split; [done|]. by repeat constructor.
  - unfold spec_cancel. destruct (find_order _ _ _); simpl; repeat constructor.
Qed.

Lemma of_ticker_all t us : Forall (λ u, mu_ticker_id_ u = t) us → of_ticker t us = us.
Proof. induction 1; unfold of_ticker in *; [done|]. rewrite filter_cons, decide_True by done. by f_equal. Qed.

Lemma of_ticker_none t t' us : t ≠ t' → Forall (λ u, mu_ticker_id_ u = t') us → of_ticker t us = [].
Proof.
  intros Hne. induction 1; unfold of_ticker in *; [done|]. rewrite filter_cons, decide_False by congruence. done.
Qed.

Lemma of_ticker_app t us1 us2 : of_ticker t (us1 ++ us2) = of_ticker t us1 ++ of_ticker t us2.
Proof. apply filter_app. Qed.

(** ** One request, all tickers *)

#[local] Instance unit_sink : EngineSink unit := {
  sendClientResponse _ e := e;
  sendMarketUpdate _ e := e }.

Definition ids_left (n : nat) (sps : list MESpec) : Prop := Forall (λ sp, sp_next_id sp + n < ME_MAX_ORDER_IDS) sps.

Definition book_of (sps : list MESpec) (t : Z) : absbook MarketOrder :=
  mirror (sp_book (default MESpec_new (sps !! Z.to_nat t))).

Lemma engine_spec_length req sps : length (engine_spec req sps).1 = length sps.
Proof.
  unfold engine_spec. destruct (to_book_request req), (sps !! Z.to_nat (req_ticker_id_ req)); try done.
  destruct (spec_handle _ _). simpl. apply length_insert.
Qed.

Lemma engine_spec_feeds req sps obs n :
  books_rep obs sps → valid_engine_request req sps → 0 ≤ req_ticker_id_ req < length sps → ids_left (S n) sps →
  ids_left n (engine_spec req sps).1 ∧ (∃ obs', books_rep obs' (engine_spec req sps).1)
  ∧ Forall (λ u, mu_ticker_id_ u = req_ticker_id_ req) (publics (engine_spec req sps).2)
  ∧ ∀ t, 0 ≤ t < length sps →
      feeds (of_ticker t (publics (engine_spec req sps).2)) (book_of sps t) (book_of (engine_spec req sps).1 t).
Proof.
  intros Hb (r & sp & Hreq & Hsp & Hv) Hrg Hid. unfold engine_spec. rewrite Hreq, Hsp.
  destruct (Forall2_lookup_r _ _ _ _ sp Hb Hsp) as (ob & Hob & Hr & Hi).
  assert (request_ticker r = req_ticker_id_ req) as Htk.
  { unfold to_book_request in Hreq. by destruct (req_type_ req); simplify_eq. }
  pose proof (proj1 (Forall_lookup _ _) Hid _ _ Hsp) as Hlt. cbv beta in Hlt.
  pose proof (publics_handle r sp) as Hp. rewrite Htk in Hp. pose proof (bi_next _ Hi) as Hn0.
  assert (sp_next_id sp + 1 < 2 ^ 64) as Hn1 by (unfold ME_MAX_ORDER_IDS in *; lia).
  pose proof (spec_handle_next r sp Hn0 Hn1) as Hnx.
  pose proof (feeds_request r ob sp Hr Hi Hv ltac:(lia)) as Hf.
  destruct (handle_ok r ob sp tt Hr Hv) as (ob' & _ & Hr' & _). pose proof (spec_handle_inv r sp Hi Hv) as Hi'.
  destruct (spec_handle r sp) as [sp' evs]. cbn [fst snd] in *. split_and!; [| |done|].
  - apply Forall_insert; [|lia]. eapply Forall_impl; [exact Hid|]. intros x Hx. simpl in Hx. lia.
  - exists (<[Z.to_nat (req_ticker_id_ req) := ob']> obs). by apply Forall2_insert.
  - intros t Ht. unfold book_of. destruct (decide (t = req_ticker_id_ req)) as [->|Hne].
    + rewrite of_ticker_all by done. rewrite Hsp, list_lookup_insert_eq by lia. done.
    + rewrite (of_ticker_none t (req_ticker_id_ req)) by done.
      rewrite list_lookup_insert_ne by lia. done.
Qed.

(** ** A run *)

Definition tickers_ok (reqs : list MEClientRequest) (sps : list MESpec) : Prop :=
  Forall (λ req, 0 ≤ req_ticker_id_ req < length sps) reqs.

Lemma engine_feeds reqs sps obs :
  books_rep obs sps → valid_engine_run reqs sps → tickers_ok reqs sps → ids_left (length reqs) sps →
  ∃ obs', books_rep obs' (engine_spec_run reqs sps).1
    ∧ length (engine_spec_run reqs sps).1 = length sps
    ∧ Forall (λ u, 0 ≤ mu_ticker_id_ u < length sps) (publics (engine_spec_run reqs sps).2)
    ∧ ∀ t, 0 ≤ t < length sps → feeds (of_ticker t (publics (engine_spec_run reqs sps).2))
        (book_of sps t) (book_of (engine_spec_run reqs sps).1 t).
Proof.
  revert sps obs. induction reqs as [|req reqs IH]; intros sps obs Hb Hv Ht Hid.
  { exists obs. simpl. split_and!; [done..|constructor|]. done. }
  destruct Hv as [Hv Hvs]. apply Forall_cons in Ht as [Ht Hts]. cbn [length] in Hid.
  destruct (engine_spec_feeds req sps obs (length reqs) Hb Hv Ht Hid) as (Hid1 & (obs1 & Hb1) & Hp1 & Hf1).
  pose proof (engine_spec_length req sps) as Hl1.
  destruct (IH (engine_spec req sps).1 obs1) as (obs' & Hb' & Hl' & Hp' & Hf'); try done.
  { unfold tickers_ok. by rewrite Hl1. }
  simpl. destruct (engine_spec req sps) as [sps1 ev1]. cbn [fst snd] in *.
  destruct (engine_spec_run reqs sps1) as [sps2 ev2]. cbn [fst snd] in *. rewrite Hl1 in *.
  exists obs'. split_and!; [done|done|..].
  - rewrite publics_app. apply Forall_app. split; [|done]. eapply Forall_impl; [exact Hp1|].
    intros u E. simpl in E. by rewrite E.
  - intros t Htr. rewrite publics_app, of_ticker_app. by eapply feeds_app; [apply Hf1|apply Hf'].
Qed.

(** ** From fresh books *)

Definition fresh_books : list MESpec := replicate (Z.to_nat ME_MAX_TICKERS) MESpec_new.

Lemma book_of_fresh t : 0 ≤ t < ME_MAX_TICKERS → book_of fresh_books t = mkAbs [] [].
Proof. intros Ht. unfold book_of, fresh_books. rewrite lookup_replicate_2 by lia. done. Qed.

Lemma length_fresh_books : length fresh_books = Z.to_nat ME_MAX_TICKERS.
Proof. apply length_replicate. Qed.

Lemma fresh_engine_feeds reqs :
  valid_engine_run reqs fresh_books → tickers_ok reqs fresh_books → 1 + length reqs < ME_MAX_ORDER_IDS →
  length (engine_spec_run reqs fresh_books).1 = Z.to_nat ME_MAX_TICKERS
  ∧ ∀ t, 0 ≤ t < ME_MAX_TICKERS → feeds (of_ticker t (publics (engine_spec_run reqs fresh_books).2))
        (mkAbs [] []) (book_of (engine_spec_run reqs fresh_books).1 t).
Proof.
  intros Hv Ht Hn. pose proof (books_rep_new (λ _, zeroed) (LFQueue_new 1) (mkEngineQueues (LFQueue_new 1) (LFQueue_new 1)) (λ _, eq_refl)) as Hb0.
  fold fresh_books in Hb0. destruct (engine_feeds reqs fresh_books _ Hb0 Hv Ht) as (_ & _ & Hl & _ & Hf).
  { apply Forall_replicate. simpl. lia. }
  rewrite length_fresh_books in Hl, Hf. split; [done|]. intros t Htr. rewrite <- (book_of_fresh t) by done. apply Hf. lia.
Qed.

(** The feed of a run leads every ticker's fresh client book to the mirror of the
    engine's book. *)
Lemma fresh_feeds reqs obs :
  valid_engine_run reqs fresh_books → tickers_ok reqs fresh_books → 1 + length reqs < ME_MAX_ORDER_IDS →
  books_rep obs (engine_spec_run reqs fresh_books).1 →
  ∀ t ob, 0 ≤ t → obs !! Z.to_nat t = Some ob → t < ME_MAX_TICKERS
    ∧ ∃ ab, rep (me_book ob) ab ∧ feeds (of_ticker t (publics (engine_spec_run reqs fresh_books).2)) (mkAbs [] []) (mirror ab).
Proof.
  intros Hv Ht Hn Hb t ob H0 Hob. destruct (fresh_engine_feeds reqs Hv Ht Hn) as [Hl Hf].
  destruct (Forall2_lookup_l _ _ _ _ ob Hb Hob) as (sp & Hsp & (Hr & _) & _).
  pose proof (lookup_lt_Some _ _ _ Hsp) as Hlt. rewrite Hl in Hlt. split; [lia|]. exists (sp_book sp). split; [done|].
  specialize (Hf t ltac:(lia)). unfold book_of in Hf. by rewrite Hsp in Hf.
Qed.

(** The synthesizer takes the numbered feed of a run and shadows every book. *)
Lemma fresh_synthesizer reqs :
  let us := publics (engine_spec_run reqs fresh_books).2 in
  valid_engine_run reqs fresh_books → tickers_ok reqs fresh_books → 1 + length reqs < ME_MAX_ORDER_IDS →
  length us < ME_MAX_ORDER_IDS →
  ∃ s, add_all_to_snapshot (number_updates 1 us) SnapshotSynthesizer_new = Ok s
    ∧ last_inc_seq_num_ s = length us ∧ books_at s (book_of (engine_spec_run reqs fresh_books).1).
Proof.
  intros us Hv Ht Hn Hl. pose proof (books_rep_new (λ _, zeroed) (LFQueue_new 1) (mkEngineQueues (LFQueue_new 1) (LFQueue_new 1)) (λ _, eq_refl)) as Hb.
  fold fresh_books in Hb. destruct (engine_feeds reqs fresh_books _ Hb Hv Ht) as (_ & _ & _ & Hrg & Hf).
  { apply Forall_replicate. simpl. lia. }
  rewrite length_fresh_books, Z2Nat.id in Hrg, Hf by done.
  destruct (add_all_to_snapshot_ok us SnapshotSynthesizer_new (book_of fresh_books) (book_of (engine_spec_run reqs fresh_books).1))
    as (s & E & _ & Hs & Hseq); [apply snap_ok_new| |done|done|done|done| |by exists s].
  - intros t Htr. rewrite (book_of_fresh t Htr). split; [apply tick_rep_new|]. exists (MarketOrderBook_new zeroed t). apply mkt_rep_new.
  - unfold ME_MAX_ORDER_IDS in *. simpl. lia.
Qed.

(** The books at the end of a run keep their invariant. *)
Lemma fresh_books_inv reqs :
  valid_engine_run reqs fresh_books → tickers_ok reqs fresh_books → 1 + length reqs < ME_MAX_ORDER_IDS →
  Forall book_inv (engine_spec_run reqs fresh_books).1 ∧ length (engine_spec_run reqs fresh_books).1 = Z.to_nat ME_MAX_TICKERS.
Proof.
  intros Hv Ht Hn. pose proof (books_rep_new (λ _, zeroed) (LFQueue_new 1) (mkEngineQueues (LFQueue_new 1) (LFQueue_new 1)) (λ _, eq_refl)) as Hb.
  fold fresh_books in Hb. destruct (engine_feeds reqs fresh_books _ Hb Hv Ht) as (obs & Hb' & Hl & _).
  { apply Forall_replicate. simpl. lia. }
  split; [|by rewrite Hl, length_fresh_books]. apply Forall_lookup. intros i sp Hsp.
  by destruct (Forall2_lookup_r _ _ _ _ sp Hb' Hsp) as (ob & _ & _ & ?).
Qed.

Lemma plain_tickers reqs : plain_run reqs → tickers_ok reqs fresh_books.
Proof.
  intros Hpl. eapply Forall_impl; [apply (pl_requests _ Hpl)|]. intros r [_ ? _ _]. rewrite length_fresh_books. lia.
Qed.
