(* ===== verification/MarketDataConsumer.v ===== *)
(** * The client's market data consumer.

    [Trading::MarketDataConsumer] (src/trading/market_data/market_data_consumer.{h,cpp}):
    gap detection on the incremental stream, the two recovery buffers and the
    three-phase [checkSnapshotSync].  A [memcpy] whose length underflows is
    [Err Undefined]. *)

From stdpp Require Import gmap list sorting.
From S2P Require Import Prelude Types LFQueue Wire MatchingEngine MarketData.

Open Scope Z_scope.
Local Coercion Z.of_nat : nat >-> Z.

(** ** [std::map<size_t, MEMarketUpdate>]: the entries by increasing key *)

Abbreviation QueuedMarketUpdates := (list (Z * MEMarketUpdate)).

Fixpoint qm_set (k : Z) (v : MEMarketUpdate) (m : QueuedMarketUpdates) : QueuedMarketUpdates :=
  match m with
  | [] => [(k, v)]
  | (k', v') :: m' =>
      if k <? k' then (k, v) :: m
      else if k =? k' then (k, v) :: m'
      else (k', v') :: qm_set k v m'
  end.

Definition qm_mem (k : Z) (m : QueuedMarketUpdates) : bool := existsb (λ e, e.1 =? k) m.

(** ** State *)

Record MarketDataConsumer := mkConsumer {
  next_exp_inc_seq_num_ : Z;
  incoming_md_updates_ : LFQueue MEMarketUpdate;
  incremental_mcast_socket_ : McastSocket;
  snapshot_mcast_socket_ : McastSocket;
  in_recovery_ : bool;
  snapshot_queued_msgs_ : QueuedMarketUpdates;
  incremental_queued_msgs_ : QueuedMarketUpdates }.

(** The incremental socket is joined by the constructor, the snapshot socket is not. *)
Definition MarketDataConsumer_new (updates : LFQueue MEMarketUpdate) (fd : Z) : MarketDataConsumer :=
  mkConsumer 1 updates (McastSocket_new (Some fd)) (McastSocket_new None) false [] [].

Definition set_recovery (r : bool) (c : MarketDataConsumer) : MarketDataConsumer :=
  mkConsumer (next_exp_inc_seq_num_ c) (incoming_md_updates_ c) (incremental_mcast_socket_ c)
    (snapshot_mcast_socket_ c) r (snapshot_queued_msgs_ c) (incremental_queued_msgs_ c).

Definition set_snapshot_msgs (m : QueuedMarketUpdates) (c : MarketDataConsumer) : MarketDataConsumer :=
  mkConsumer (next_exp_inc_seq_num_ c) (incoming_md_updates_ c) (incremental_mcast_socket_ c)
    (snapshot_mcast_socket_ c) (in_recovery_ c) m (incremental_queued_msgs_ c).

Definition set_incremental_msgs (m : QueuedMarketUpdates) (c : MarketDataConsumer) : MarketDataConsumer :=
  mkConsumer (next_exp_inc_seq_num_ c) (incoming_md_updates_ c) (incremental_mcast_socket_ c)
    (snapshot_mcast_socket_ c) (in_recovery_ c) (snapshot_queued_msgs_ c) m.

Definition set_next_exp (n : Z) (c : MarketDataConsumer) : MarketDataConsumer :=
  mkConsumer n (incoming_md_updates_ c) (incremental_mcast_socket_ c)
    (snapshot_mcast_socket_ c) (in_recovery_ c) (snapshot_queued_msgs_ c) (incremental_queued_msgs_ c).

(** ** [startSnapshotSync] *)

(** [fd] is what [init] and [join] give, [None] for a failure. *)
Definition startSnapshotSync (fd : option Z) (c : MarketDataConsumer) : result MarketDataConsumer :=
  match fd with
  | None => Err AssertFailed
  | Some _ =>
      let s := snapshot_mcast_socket_ c in
      Ok (mkConsumer (next_exp_inc_seq_num_ c) (incoming_md_updates_ c) (incremental_mcast_socket_ c)
            (mkMcastSocket fd (mc_outbound s) (mc_inbound s)) (in_recovery_ c) [] [])
  end.

(** ** [checkSnapshotSync] *)

Definition is_marker (u : MEMarketUpdate) : bool :=
  bool_decide (mu_type_ u = MU_SNAPSHOT_START) || bool_decide (mu_type_ u = MU_SNAPSHOT_END).

(** Phase A: the non-marker messages if the keys run 0, 1, 2, ... *)
Fixpoint scan_snapshot (next : Z) (m : QueuedMarketUpdates) : option (list MEMarketUpdate) :=
  match m with
  | [] => Some []
  | (k, u) :: m =>
      if k =? next then
        events ← scan_snapshot (u64 (next + 1)) m;
        Some (if is_marker u then events else u :: events)
      else None
  end.

(** Phase B: the messages from [next] on if they have no gap, and the sequence
    number reached (also when a gap is met). *)
Fixpoint scan_incremental (next : Z) (m : QueuedMarketUpdates) : option (list MEMarketUpdate) * Z :=
  match m with
  | [] => (Some [], next)
  | (k, u) :: m =>
      if k <? next then scan_incremental next m
      else if k =? next then
        let '(r, n) := scan_incremental (u64 (next + 1)) m in
        ((λ events, if is_marker u then events else u :: events) <$> r, n)
      else (None, next)
  end.

Definition checkSnapshotSync (c : MarketDataConsumer) : MarketDataConsumer :=
  match head (snapshot_queued_msgs_ c), last (snapshot_queued_msgs_ c) with
  | Some (_, first), Some (_, final) =>
      if bool_decide (mu_type_ first ≠ MU_SNAPSHOT_START) then set_snapshot_msgs [] c else
      match scan_snapshot 0 (snapshot_queued_msgs_ c) with
      | None => set_snapshot_msgs [] c
      | Some events =>
          if bool_decide (mu_type_ final ≠ MU_SNAPSHOT_END) then c else
          let '(inc, next) := scan_incremental (u64 (mu_order_id_ final + 1)) (incremental_queued_msgs_ c) in
          match inc with
          | None => set_snapshot_msgs [] (set_next_exp next c)
          | Some inc_events =>
              mkConsumer next (enqueue_all (events ++ inc_events) (incoming_md_updates_ c))
                (incremental_mcast_socket_ c) (mcast_leave (snapshot_mcast_socket_ c)) false [] []
          end
      end
  | _, _ => c
  end.

(** ** [queueMessage] *)

Definition queueMessage (is_snapshot : bool) (request : MDPMarketUpdate) (c : MarketDataConsumer)
    : MarketDataConsumer :=
  let k := mdp_seq_num_ request in
  let u := me_market_update_ request in
  checkSnapshotSync
    (if is_snapshot then
       let m := if qm_mem k (snapshot_queued_msgs_ c) then [] else snapshot_queued_msgs_ c in
       set_snapshot_msgs (qm_set k u m) c
     else set_incremental_msgs (qm_set k u (incremental_queued_msgs_ c)) c).

(** ** [recvCallback] *)

Inductive stream := Incremental | Snapshot.

Definition stream_socket (st : stream) (c : MarketDataConsumer) : McastSocket :=
  match st with Incremental => incremental_mcast_socket_ c | Snapshot => snapshot_mcast_socket_ c end.

Definition set_inbound (st : stream) (bs : bytes) (c : MarketDataConsumer) : MarketDataConsumer :=
  let s := stream_socket st c in
  let s := mkMcastSocket (mc_fd s) (mc_outbound s) bs in
  mkConsumer (next_exp_inc_seq_num_ c) (incoming_md_updates_ c)
    (match st with Incremental => s | Snapshot => incremental_mcast_socket_ c end)
    (match st with Incremental => snapshot_mcast_socket_ c | Snapshot => s end)
    (in_recovery_ c) (snapshot_queued_msgs_ c) (incremental_queued_msgs_ c).

(** The loop body: one decoded message. *)
Definition recv_message (fd : option Z) (is_snapshot : bool) (request : MDPMarketUpdate)
    (c : MarketDataConsumer) : result MarketDataConsumer :=
  let already_in_recovery := in_recovery_ c in
  let recovering := already_in_recovery || negb (mdp_seq_num_ request =? next_exp_inc_seq_num_ c) in
  let c := set_recovery recovering c in
  if recovering then
    let* c := (if already_in_recovery then Ok c else startSnapshotSync fd c) in
    Ok (queueMessage is_snapshot request c)
  else if negb is_snapshot then
    Ok (mkConsumer (u64 (next_exp_inc_seq_num_ c + 1))
          (enqueue (me_market_update_ request) (incoming_md_updates_ c)) (incremental_mcast_socket_ c)
          (snapshot_mcast_socket_ c) (in_recovery_ c) (snapshot_queued_msgs_ c) (incremental_queued_msgs_ c))
  else Ok c.

Definition MDP_SIZE : Z := 42.

(** The loop re-reads [next_rcv_valid_index_] of the socket, which [leave] resets. *)
Fixpoint recv_loop (fuel : nat) (fd : option Z) (st : stream) (is_snapshot : bool) (i : Z)
    (c : MarketDataConsumer) : result (Z * MarketDataConsumer) :=
  let inbound := mc_inbound (stream_socket st c) in
  if i + MDP_SIZE <=? length inbound then
    match fuel with
    | O => Err OutOfFuel
    | S fuel =>
        let* c := recv_message fd is_snapshot (decode (take (Z.to_nat MDP_SIZE) (drop (Z.to_nat i) inbound))) c in
        recv_loop fuel fd st is_snapshot (i + MDP_SIZE) c
    end
  else Ok (i, c).

Definition md_recvCallback (fd : option Z) (st : stream) (c : MarketDataConsumer) : result MarketDataConsumer :=
  let is_snapshot := bool_decide (mc_fd (stream_socket st c) = mc_fd (snapshot_mcast_socket_ c)) in
  if is_snapshot && negb (in_recovery_ c) then Ok (set_inbound st [] c) else
  if length (mc_inbound (stream_socket st c)) <? MDP_SIZE then Ok c else
  let* (i, c) := recv_loop (length (mc_inbound (stream_socket st c))) fd st is_snapshot 0 c in
  let inbound := mc_inbound (stream_socket st c) in
  if length inbound <? i then Err Undefined
  else Ok (set_inbound st (drop (Z.to_nat i) inbound) c).

(** [sendAndRecv] of one socket: the kernel's datagrams, then the callback. *)
Definition stream_round (fd : option Z) (st : stream) (datagrams : list bytes) (c : MarketDataConsumer)
    : result (MarketDataConsumer * list bytes) :=
  let '(got_data, s, unread) := mcast_recv datagrams (stream_socket st c) in
  let c := set_inbound st (mc_inbound s) c in
  if got_data then let* c := md_recvCallback fd st c in Ok (c, unread) else Ok (c, unread).

(** One turn of [run]: the incremental socket, then the snapshot socket. *)
Definition consumer_turn (fd : option Z) (inc snap : list bytes) (c : MarketDataConsumer)
    : result (MarketDataConsumer * list bytes * list bytes) :=
  let* (c, inc) := stream_round fd Incremental inc c in
  let* (c, snap) := stream_round fd Snapshot snap c in
  Ok (c, inc, snap).

(** ** The loop is a fold over the decoded messages *)

Fixpoint recv_messages (fd : option Z) (is_snapshot : bool) (ms : list MDPMarketUpdate)
    (c : MarketDataConsumer) : result MarketDataConsumer :=
  match ms with
  | [] => Ok c
  | m :: ms => let* c := recv_message fd is_snapshot m c in recv_messages fd is_snapshot ms c
  end.

Lemma recv_messages_app fd b ms1 ms2 c :
  recv_messages fd b (ms1 ++ ms2) c = let* c := recv_messages fd b ms1 c in recv_messages fd b ms2 c.
Proof.
  revert c. induction ms1 as [|m ms1 IH]; intros c; simpl; [done|]. destruct (recv_message fd b m c); [apply IH|done].
Qed.

Lemma checkSnapshotSync_incremental c :
  incremental_mcast_socket_ (checkSnapshotSync c) = incremental_mcast_socket_ c.
Proof.
  unfold checkSnapshotSync. repeat (case_match; try done).
Qed.

Lemma recv_message_incremental fd b m c c' :
  recv_message fd b m c = Ok c' → incremental_mcast_socket_ c' = incremental_mcast_socket_ c.
Proof.
  unfold recv_message. destruct (in_recovery_ c || _).
  - intros (c1 & E & [= <-])%bind_ok. unfold queueMessage. rewrite checkSnapshotSync_incremental.
    assert (incremental_mcast_socket_ c1 = incremental_mcast_socket_ c) as Es.
    { destruct (in_recovery_ c); [by injection E as <-|]. destruct fd; [by injection E as <-|done]. }
    by destruct b.
  - destruct b; by intros [= <-].
Qed.

Lemma mdp_wire_size : wire_size (M := MDPMarketUpdate) = 42%nat.
Proof. done. Qed.

Lemma recv_loop_incremental fuel fd b i c :
  0 ≤ i ≤ length (mc_inbound (incremental_mcast_socket_ c)) →
  (length (mc_inbound (incremental_mcast_socket_ c)) - Z.to_nat i ≤ fuel)%nat →
  let '(ms, rest) := parse_stream (drop (Z.to_nat i) (mc_inbound (incremental_mcast_socket_ c))) in
  recv_loop fuel fd Incremental b i c
  = let* c' := recv_messages fd b ms c in Ok (length (mc_inbound (incremental_mcast_socket_ c)) - length rest, c').
Proof.
  revert i c. induction fuel as [|fuel IH]; intros i c Hi Hf; rewrite parse_stream_unfold, mdp_wire_size, length_drop;
    cbn [recv_loop stream_socket]; unfold MDP_SIZE in *.
  { rewrite (proj2 (Nat.leb_gt _ _)) by lia. rewrite (proj2 (Z.leb_gt _ _)) by lia. simpl.
    rewrite length_drop. f_equal. f_equal. lia. }
  destruct (Nat.leb_spec 42 (length (mc_inbound (incremental_mcast_socket_ c)) - Z.to_nat i)) as [Hle|Hgt].
  - rewrite (proj2 (Z.leb_le _ _)) by lia. change (Z.to_nat 42) with 42%nat.
    set (m := decode _). rewrite drop_drop.
    destruct (parse_stream (drop (Z.to_nat i + 42) (mc_inbound (incremental_mcast_socket_ c)))) as [ms rest] eqn:Ep.
    cbn [recv_messages]. destruct (recv_message fd b m c) as [c1|e] eqn:Em; [|done]. cbn [rbind].
    pose proof (recv_message_incremental _ _ _ _ _ Em) as Es.
    specialize (IH (i + 42) c1). rewrite Es in IH.
    replace (Z.to_nat (i + 42)) with (Z.to_nat i + 42)%nat in IH by lia. rewrite Ep in IH. apply IH; lia.
  - rewrite (proj2 (Z.leb_gt _ _)) by lia. simpl. rewrite length_drop. f_equal. f_equal. lia.
Qed.

(** ** In sequence: everything is forwarded *)

Lemma recv_messages_forward fd us c :
  in_recovery_ c = false → 0 ≤ next_exp_inc_seq_num_ c → next_exp_inc_seq_num_ c + length us < 2 ^ 64 →
  recv_messages fd false (number_updates (next_exp_inc_seq_num_ c) us) c
  = Ok (mkConsumer (next_exp_inc_seq_num_ c + length us) (enqueue_all us (incoming_md_updates_ c))
          (incremental_mcast_socket_ c) (snapshot_mcast_socket_ c) false (snapshot_queued_msgs_ c)
          (incremental_queued_msgs_ c)).
Proof.
  revert c. induction us as [|u us IH]; intros c Hr H0 Hlt.
  { simpl. rewrite Z.add_0_r. destruct c. simpl in *. by subst. }
  cbn [length] in Hlt. cbn [number_updates recv_messages]. unfold recv_message at 1.
  rewrite Hr. cbn [mdp_seq_num_ me_market_update_ orb]. rewrite Z.eqb_refl. cbn [negb rbind].
  assert (u64 (next_exp_inc_seq_num_ c + 1) = next_exp_inc_seq_num_ c + 1) as E
    by (unfold wrap; apply Z.mod_small; lia).
  set (c1 := mkConsumer _ _ _ _ _ _ _).
  assert (next_exp_inc_seq_num_ c1 = next_exp_inc_seq_num_ c + 1) as En by exact E.
  rewrite <- En. rewrite IH; [|done|lia|lia]. rewrite En. simpl. f_equal. f_equal. lia.
Qed.

(** ** Recovery never ends in a successful callback *)

(** The state between two messages: the snapshot socket is open in recovery, and
    no END is waiting in the snapshot buffer. *)
Record consumer_inv (c : MarketDataConsumer) : Prop := {
  ci_open : in_recovery_ c = true → mc_fd (snapshot_mcast_socket_ c) ≠ None;
  ci_no_end : ∀ k u, last (snapshot_queued_msgs_ c) = Some (k, u) → mu_type_ u ≠ MU_SNAPSHOT_END;
  ci_fds : mc_fd (incremental_mcast_socket_ c) ≠ mc_fd (snapshot_mcast_socket_ c) }.

Lemma consumer_inv_new updates fd : consumer_inv (MarketDataConsumer_new updates fd).
Proof. by split. Qed.

(** What [checkSnapshotSync] can do: keep on, drop the snapshot, or commit. *)
Inductive sync_outcome (c c' : MarketDataConsumer) : Prop :=
| sync_waits :
    c' = c → (∀ k u, last (snapshot_queued_msgs_ c) = Some (k, u) → mu_type_ u ≠ MU_SNAPSHOT_END) →
    sync_outcome c c'
| sync_drops next : c' = set_snapshot_msgs [] (set_next_exp next c) → sync_outcome c c'
| sync_commits k u :
    last (snapshot_queued_msgs_ c) = Some (k, u) → mu_type_ u = MU_SNAPSHOT_END →
    in_recovery_ c' = false → snapshot_mcast_socket_ c' = mcast_leave (snapshot_mcast_socket_ c) →
    sync_outcome c c'.

Lemma set_next_exp_same c : set_next_exp (next_exp_inc_seq_num_ c) c = c.
Proof. by destruct c. Qed.

Lemma checkSnapshotSync_outcome c : sync_outcome c (checkSnapshotSync c).
Proof.
  assert (Hdrop : sync_outcome c (set_snapshot_msgs [] c))
    by (apply (sync_drops _ _ (next_exp_inc_seq_num_ c)); by rewrite set_next_exp_same).
  unfold checkSnapshotSync. destruct (head _) as [[k1 f]|] eqn:Eh.
  2: { apply sync_waits; [done|]. by destruct (snapshot_queued_msgs_ c). }
  destruct (last _) as [[k2 u]|] eqn:El; [|apply sync_waits; [done|by rewrite El]].
  case_bool_decide; [done|]. destruct (scan_snapshot 0 _); [|done].
  case_bool_decide as Hne; [apply sync_waits; [done|]; rewrite El; intros k' u' [= <- <-]; done|].
  destruct (scan_incremental _ _) as [[inc|] next]; [|by apply (sync_drops _ _ next)].
  by apply (sync_commits _ _ k2 u).
Qed.

Lemma queueMessage_incremental r c :
  consumer_inv c → in_recovery_ c = true →
  let c' := queueMessage false r c in
  consumer_inv c' ∧ in_recovery_ c' = true ∧ snapshot_mcast_socket_ c' = snapshot_mcast_socket_ c
  ∧ incoming_md_updates_ c' = incoming_md_updates_ c.
Proof.
  intros [Ho Hl Hf] Hr. unfold queueMessage.
  set (c1 := set_incremental_msgs _ c).
  destruct (checkSnapshotSync_outcome c1) as [-> Hl1|next ->|k u El Eu _ _].
  - split_and!; [|done..]. split; [by intros _; apply Ho|exact Hl1|done].
  - split_and!; [|done..]. split; [by intros _; apply Ho|done|done].
  - exfalso. by apply (Hl k u).
Qed.

Lemma queueMessage_snapshot r c :
  consumer_inv c → in_recovery_ c = true →
  let c' := queueMessage true r c in
  (consumer_inv c' ∧ in_recovery_ c' = true ∧ snapshot_mcast_socket_ c' = snapshot_mcast_socket_ c
   ∧ incoming_md_updates_ c' = incoming_md_updates_ c)
  ∨ (in_recovery_ c' = false ∧ mc_inbound (snapshot_mcast_socket_ c') = []).
Proof.
  intros [Ho Hl Hf] Hr. unfold queueMessage.
  set (c1 := set_snapshot_msgs _ c).
  destruct (checkSnapshotSync_outcome c1) as [-> Hl1|next ->|k u El Eu Er Es].
  - left. split_and!; [|done..]. split; [by intros _; apply Ho|exact Hl1|done].
  - left. split_and!; [|done..]. split; [by intros _; apply Ho|done|done].
  - right. split; [done|]. rewrite Es. unfold mcast_leave. cbn [snapshot_mcast_socket_ c1 set_snapshot_msgs].
    specialize (Ho Hr). by destruct (mc_fd (snapshot_mcast_socket_ c)).
Qed.

Lemma recv_message_recovering fd b m c :
  in_recovery_ c = true → recv_message fd b m c = Ok (queueMessage b m c).
Proof. intros Hr. unfold recv_message. rewrite Hr. simpl. f_equal. f_equal. destruct c. simpl in *. by subst. Qed.

(** The facts about a state that is still recovering. *)
Definition recovering (q : LFQueue MEMarketUpdate) (c : MarketDataConsumer) : Prop :=
  consumer_inv c ∧ in_recovery_ c = true ∧ incoming_md_updates_ c = q.

Lemma recv_messages_incremental fd ms q c :
  recovering q c → ∃ c', recv_messages fd false ms c = Ok c' ∧ recovering q c'.
Proof.
  revert c. induction ms as [|m ms IH]; intros c (Hi & Hr & Hq); simpl; [by exists c|].
  rewrite recv_message_recovering by done. cbn [rbind].
  destruct (queueMessage_incremental m c Hi Hr) as (Hi' & Hr' & _ & Hq'). apply IH.
  by split_and!; [..|rewrite Hq'].
Qed.

(** On the snapshot stream the loop either stays in recovery, or ends with the
    socket's buffer reset behind the loop's index. *)
Lemma recv_loop_snapshot fuel fd i q c :
  recovering q c → 0 ≤ i ≤ length (mc_inbound (snapshot_mcast_socket_ c)) →
  (length (mc_inbound (snapshot_mcast_socket_ c)) - Z.to_nat i ≤ fuel)%nat →
  ∃ i' c', recv_loop fuel fd Snapshot true i c = Ok (i', c')
    ∧ (recovering q c' ∧ snapshot_mcast_socket_ c' = snapshot_mcast_socket_ c
         ∧ recv_messages fd true (parse_stream (drop (Z.to_nat i) (mc_inbound (snapshot_mcast_socket_ c)))).1 c = Ok c'
       ∨ in_recovery_ c' = false ∧ length (mc_inbound (snapshot_mcast_socket_ c')) < i').
Proof.
  revert i c. induction fuel as [|fuel IH]; intros i c (Hi & Hr & Hq) Hr0 Hf;
    rewrite parse_stream_unfold, mdp_wire_size, length_drop; cbn [recv_loop stream_socket]; unfold MDP_SIZE in *.
  { rewrite (proj2 (Z.leb_gt _ _)), (proj2 (Nat.leb_gt _ _)) by lia. do 2 eexists. split; [done|]. by left. }
  destruct (Z.leb_spec (i + 42) (length (mc_inbound (snapshot_mcast_socket_ c)))) as [Hle|Hgt].
  2: { rewrite (proj2 (Nat.leb_gt _ _)) by lia. do 2 eexists. split; [done|]. by left. }
  rewrite (proj2 (Nat.leb_le _ _)) by lia. change (Z.to_nat 42) with 42%nat. rewrite drop_drop.
  rewrite recv_message_recovering by done. cbn [rbind]. set (m := decode _).
  destruct (queueMessage_snapshot m c Hi Hr) as [(Hi' & Hr' & Hs' & Hq')|[Hr' Hs']].
  - destruct (IH (i + 42) (queueMessage true m c)) as (i' & c' & E & H).
    + by split_and!; [..|rewrite Hq'].
    + rewrite Hs'. lia.
    + rewrite Hs'. lia.
    + exists i', c'. split; [done|]. rewrite Hs' in H.
      replace (Z.to_nat (i + 42)) with (Z.to_nat i + 42)%nat in H by lia.
      destruct H as [(H1 & H2 & H3)|H]; [|by right]. left. split_and!; [done|done|].
      destruct (parse_stream _) as [ms rest]. cbn [fst recv_messages] in *.
      by rewrite recv_message_recovering.
  - exists (i + 42), (queueMessage true m c). split.
    + destruct fuel; cbn [recv_loop stream_socket]; unfold MDP_SIZE;
        rewrite Hs', (proj2 (Z.leb_gt _ _)) by (simpl; lia); done.
    + right. split; [done|]. rewrite Hs'. simpl. lia.
Qed.

(** If the messages at hand would end the recovery, the callback is undefined. *)
Lemma md_recvCallback_completes fd q c c' :
  recovering q c → 42 ≤ length (mc_inbound (snapshot_mcast_socket_ c)) →
  recv_messages fd true (parse_stream (mc_inbound (snapshot_mcast_socket_ c))).1 c = Ok c' →
  in_recovery_ c' = false → md_recvCallback fd Snapshot c = Err Undefined.
Proof.
  intros Hrec Hlen E Hend. pose proof Hrec as (Hi & Hr & Hq). unfold md_recvCallback. rewrite Hr, andb_false_r.
  cbn [stream_socket]. unfold MDP_SIZE. rewrite (proj2 (Z.ltb_ge _ _)) by lia. rewrite bool_decide_eq_true_2 by done.
  destruct (recv_loop_snapshot (length (mc_inbound (snapshot_mcast_socket_ c))) fd 0 q c Hrec)
    as (i & c1 & -> & H); [lia|lia|]. cbn [rbind stream_socket].
  destruct H as [((_ & Hr1 & _) & _ & E1)|[_ Hlt]].
  - change (Z.to_nat 0) with O in E1. rewrite drop_0, E in E1. injection E1 as <-. congruence.
  - by rewrite (proj2 (Z.ltb_lt _ _)).
Qed.

Lemma recovering_set_inbound st bs q c : recovering q c → recovering q (set_inbound st bs c).
Proof. intros ([Ho Hl Hf] & Hr & Hq). destruct st; (split_and!; [|done..]; split; simpl; auto). Qed.

Lemma md_recvCallback_recovering fd st q c c' :
  recovering q c → md_recvCallback fd st c = Ok c' → recovering q c'.
Proof.
  intros Hrec. pose proof Hrec as (Hi & Hr & Hq). unfold md_recvCallback. rewrite Hr, andb_false_r.
  destruct (_ <? MDP_SIZE); [by intros [= <-]|].
  intros ([i c1] & E & E')%bind_ok. destruct st.
  - pose proof (recv_loop_incremental (length (mc_inbound (incremental_mcast_socket_ c))) fd
      (bool_decide (mc_fd (incremental_mcast_socket_ c) = mc_fd (snapshot_mcast_socket_ c))) 0 c) as Hl.
    rewrite bool_decide_eq_false_2 in Hl by apply Hi. cbn [stream_socket] in E.
    rewrite bool_decide_eq_false_2 in E by apply Hi.
    destruct (parse_stream _) as [ms rest]. rewrite E in Hl. clear E.
    destruct (recv_messages_incremental fd ms q c Hrec) as (c2 & E2 & Hrec2).
    rewrite E2 in Hl. specialize (Hl ltac:(lia) ltac:(lia)). simpl in Hl. injection Hl as -> ->.
    destruct (_ <? _); [done|]. injection E' as <-. by apply recovering_set_inbound.
  - cbn [stream_socket] in E. rewrite bool_decide_eq_true_2 in E by done.
    destruct (recv_loop_snapshot (length (mc_inbound (snapshot_mcast_socket_ c))) fd 0 q c Hrec)
      as (i' & c2 & E2 & H); [lia|lia|]. rewrite E in E2. injection E2 as <- <-. cbn [stream_socket] in E'.
    destruct H as [[Hrec2 _]|[_ Hlt]].
    + destruct (_ <? _); [done|]. injection E' as <-. by apply recovering_set_inbound.
    + by rewrite (proj2 (Z.ltb_lt _ _)) in E' by done.
Qed.

Lemma consumer_turn_recovering fd inc snap q c c' r1 r2 :
  recovering q c → consumer_turn fd inc snap c = Ok (c', r1, r2) → recovering q c'.
Proof.
  assert (Hround : ∀ st ds c c' r, recovering q c → stream_round fd st ds c = Ok (c', r) → recovering q c').
  { intros st ds c0 c0' r Hrec. unfold stream_round. destruct (mcast_recv _ _) as [[got s] unread].
    pose proof (recovering_set_inbound st (mc_inbound s) q c0 Hrec) as Hrec1. destruct got; [|by intros [= <- <-]].
    intros (c1 & E & [= <- <-])%bind_ok. by eapply md_recvCallback_recovering. }
  intros Hrec ([c1 u1] & E1 & E2)%bind_ok. apply bind_ok in E2 as ([c2 u2] & E2 & [= <- <- <-]).
  eapply Hround; [|exact E2]. by eapply Hround.
Qed.

(** ** Assembling a snapshot *)

Definition entries (n : Z) (us : list MEMarketUpdate) : QueuedMarketUpdates :=
  (λ m, (mdp_seq_num_ m, me_market_update_ m)) <$> number_updates n us.

Lemma entries_app n us1 us2 : entries n (us1 ++ us2) = entries n us1 ++ entries (n + length us1) us2.
Proof. unfold entries. by rewrite number_updates_app, fmap_app. Qed.

Lemma entries_snoc us u : entries 0 (us ++ [u]) = entries 0 us ++ [(Z.of_nat (length us), u)].
Proof. by rewrite entries_app. Qed.

Lemma entries_keys n us k u : (k, u) ∈ entries n us → n ≤ k < n + length us.
Proof.
  revert n. induction us as [|x us IH]; intros n; [by intros ?%elem_of_nil|].
  unfold entries. cbn [number_updates]. rewrite fmap_cons, elem_of_cons. cbn [length].
  intros [[= -> ->]|H%IH]; simpl; lia.
Qed.

Lemma qm_set_append k u m : (∀ k' u', (k', u') ∈ m → k' < k) → qm_set k u m = m ++ [(k, u)].
Proof.
  induction m as [|[k' u'] m IH]; intros Hm; simpl; [done|].
  assert (k' < k) by (eapply Hm; by left).
  rewrite (proj2 (Z.ltb_ge _ _)), (proj2 (Z.eqb_neq _ _)) by lia.
  rewrite IH; [done|]. intros k2 u2 H2. eapply Hm. by right.
Qed.

Lemma qm_mem_fresh k m : (∀ k' u', (k', u') ∈ m → k' < k) → qm_mem k m = false.
Proof.
  induction m as [|[k' u'] m IH]; intros Hm; simpl; [done|].
  assert (k' < k) by (eapply Hm; by left). rewrite (proj2 (Z.eqb_neq _ _)) by lia.
  apply IH. intros k2 u2 H2. eapply Hm. by right.
Qed.

Definition body (us : list MEMarketUpdate) : list MEMarketUpdate := filter (λ u, is_marker u = false) us.

Lemma scan_snapshot_entries n us :
  0 ≤ n → n + length us < 2 ^ 64 → scan_snapshot n (entries n us) = Some (body us).
Proof.
  revert n. induction us as [|u us IH]; intros n H0 Hlt; [done|]. cbn [length] in Hlt.
  unfold entries, body. cbn [number_updates]. rewrite fmap_cons. cbn [scan_snapshot mdp_seq_num_ me_market_update_].
  rewrite Z.eqb_refl. assert (u64 (n + 1) = n + 1) as -> by (unfold wrap; apply Z.mod_small; lia).
  fold (entries (n + 1) us). rewrite IH by lia. simpl. rewrite filter_cons.
  destruct (is_marker u); [rewrite decide_False by done|rewrite decide_True by done]; done.
Qed.

(** A partial snapshot that began with START is kept. *)
Lemma queueMessage_collects start us u c :
  mu_type_ start = MU_SNAPSHOT_START → mu_type_ u ≠ MU_SNAPSHOT_END → 2 + length us < 2 ^ 64 →
  snapshot_queued_msgs_ c = entries 0 (start :: us) →
  queueMessage true (mkMDPMarketUpdate (1 + length us) u) c = set_snapshot_msgs (entries 0 ((start :: us) ++ [u])) c.
Proof.
  intros Hs Hu Hlt Hq. unfold queueMessage. cbn [mdp_seq_num_ me_market_update_]. rewrite Hq.
  assert (Hk : ∀ k' u', (k', u') ∈ entries 0 (start :: us) → k' < 1 + length us).
  { intros k' u' H%entries_keys. cbn [length] in H. lia. }
  rewrite qm_mem_fresh, qm_set_append by done.
  assert (entries 0 (start :: us) ++ [(1 + length us, u)] = entries 0 ((start :: us) ++ [u])) as ->.
  { rewrite entries_snoc. cbn [length]. do 3 f_equal. lia. }
  unfold checkSnapshotSync. cbn [snapshot_queued_msgs_ set_snapshot_msgs].
  rewrite scan_snapshot_entries by (rewrite ?length_app; simpl; lia).
  assert (head (entries 0 ((start :: us) ++ [u])) = Some (0, start)) as -> by done.
  assert (∃ k, last (entries 0 ((start :: us) ++ [u])) = Some (k, u)) as [k ->].
  { eexists. rewrite entries_snoc. apply last_snoc. }
  rewrite bool_decide_eq_false_2 by (by intros ?). by rewrite bool_decide_eq_true_2.
Qed.

Lemma queueMessage_start start c :
  mu_type_ start = MU_SNAPSHOT_START → snapshot_queued_msgs_ c = [] →
  queueMessage true (mkMDPMarketUpdate 0 start) c = set_snapshot_msgs (entries 0 [start]) c.
Proof.
  intros Hs Hq. unfold queueMessage. cbn [mdp_seq_num_ me_market_update_]. rewrite Hq. simpl.
  unfold checkSnapshotSync. simpl. rewrite Hs. done.
Qed.

(** Collecting all the messages before END. *)
Lemma recv_messages_collect fd start us c :
  in_recovery_ c = true → snapshot_queued_msgs_ c = [] → mu_type_ start = MU_SNAPSHOT_START →
  Forall (λ u, mu_type_ u ≠ MU_SNAPSHOT_END) us → 2 + length us < 2 ^ 64 →
  recv_messages fd true (number_updates 0 (start :: us)) c = Ok (set_snapshot_msgs (entries 0 (start :: us)) c).
Proof.
  intros Hr Hq Hs. induction us as [|u us IH] using rev_ind; intros Hus Hlt.
  - cbn [number_updates recv_messages]. rewrite recv_message_recovering by done. cbn [rbind].
    by rewrite queueMessage_start.
  - apply Forall_app in Hus as [Hus [Hu _]%Forall_cons]. rewrite length_app in Hlt. cbn [length] in Hlt.
    rewrite app_comm_cons, number_updates_app, recv_messages_app, IH by (done || lia). cbn [rbind].
    cbn [number_updates recv_messages].
    rewrite recv_message_recovering by done. cbn [rbind].
    assert (0 + length (start :: us) = 1 + length us) as -> by (cbn [length]; lia).
    rewrite (queueMessage_collects start us u) by (done || lia). done.
Qed.

(** END with a gap-free tail of incrementals commits. *)
Lemma queueMessage_commits start us fin inc_events next c :
  mu_type_ start = MU_SNAPSHOT_START → mu_type_ fin = MU_SNAPSHOT_END → 2 + length us < 2 ^ 64 →
  snapshot_queued_msgs_ c = entries 0 (start :: us) →
  scan_incremental (u64 (mu_order_id_ fin + 1)) (incremental_queued_msgs_ c) = (Some inc_events, next) →
  queueMessage true (mkMDPMarketUpdate (1 + length us) fin) c
  = mkConsumer next (enqueue_all (body us ++ inc_events) (incoming_md_updates_ c)) (incremental_mcast_socket_ c)
      (mcast_leave (snapshot_mcast_socket_ c)) false [] [].
Proof.
  intros Hs Hu Hlt Hq Hinc. unfold queueMessage. cbn [mdp_seq_num_ me_market_update_]. rewrite Hq.
  assert (Hk : ∀ k' u', (k', u') ∈ entries 0 (start :: us) → k' < 1 + length us).
  { intros k' u' H%entries_keys. cbn [length] in H. lia. }
  rewrite qm_mem_fresh, qm_set_append by done.
  assert (entries 0 (start :: us) ++ [(1 + length us, fin)] = entries 0 ((start :: us) ++ [fin])) as ->.
  { rewrite entries_snoc. cbn [length]. do 3 f_equal. lia. }
  unfold checkSnapshotSync. cbn [snapshot_queued_msgs_ set_snapshot_msgs incremental_queued_msgs_].
  rewrite scan_snapshot_entries by (rewrite ?length_app; simpl; lia).
  assert (head (entries 0 ((start :: us) ++ [fin])) = Some (0, start)) as -> by done.
  assert (∃ k, last (entries 0 ((start :: us) ++ [fin])) = Some (k, fin)) as [k ->].
  { eexists. rewrite entries_snoc. apply last_snoc. }
  rewrite bool_decide_eq_false_2 by (by intros ?). rewrite bool_decide_eq_false_2 by (by intros ?).
  rewrite Hinc. assert (body ((start :: us) ++ [fin]) = body us) as ->; [|done].
  assert (is_marker start = true ∧ is_marker fin = true) as [E1 E2].
  { unfold is_marker. rewrite Hs, Hu. by rewrite !bool_decide_eq_true_2, orb_true_r by done. }
  unfold body. rewrite <- app_comm_cons, filter_cons, decide_False by (by rewrite E1).
  rewrite filter_app, filter_cons, decide_False, filter_nil, app_nil_r by (by rewrite E2). done.
Qed.

(** The incrementals queued from [first] on, when [last] is covered by the snapshot. *)
Lemma scan_incremental_skip next m1 m2 :
  Forall (λ e : Z * MEMarketUpdate, e.1 < next) m1 → scan_incremental next (m1 ++ m2) = scan_incremental next m2.
Proof.
  induction 1 as [|[k u] m1 Hk _ IH]; [done|]. simpl in *. by rewrite (proj2 (Z.ltb_lt _ _)).
Qed.

Lemma scan_incremental_entries next us :
  0 ≤ next → next + length us < 2 ^ 64 →
  scan_incremental next (entries next us) = (Some (body us), next + length us).
Proof.
  revert next. induction us as [|u us IH]; intros next H0 Hlt; [simpl; by rewrite Z.add_0_r|].
  cbn [length] in *. unfold entries, body. cbn [number_updates]. rewrite fmap_cons.
  cbn [scan_incremental mdp_seq_num_ me_market_update_]. rewrite Z.ltb_irrefl, Z.eqb_refl.
  assert (u64 (next + 1) = next + 1) as -> by (unfold wrap; apply Z.mod_small; lia).
  fold (entries (next + 1) us). rewrite IH by lia. simpl. rewrite filter_cons.
  destruct (is_marker u); [rewrite decide_False by done|rewrite decide_True by done];
    (f_equal; lia).
Qed.

(** A message out of sequence opens the snapshot socket and starts buffering. *)
Lemma recv_message_gap fd m c :
  in_recovery_ c = false → mdp_seq_num_ m ≠ next_exp_inc_seq_num_ c →
  recv_message (Some fd) false m c
  = Ok (mkConsumer (next_exp_inc_seq_num_ c) (incoming_md_updates_ c) (incremental_mcast_socket_ c)
          (mkMcastSocket (Some fd) (mc_outbound (snapshot_mcast_socket_ c)) (mc_inbound (snapshot_mcast_socket_ c)))
          true [] [(mdp_seq_num_ m, me_market_update_ m)]).
Proof.
  intros Hr Hne. unfold recv_message. rewrite Hr, (proj2 (Z.eqb_neq _ _)) by done. done.
Qed.

Lemma snapshot_body_clean s :
  (∀ t, 0 ≤ t < ME_MAX_TICKERS → Forall (λ u, mu_type_ u = MU_ADD) (ticker_snapshot t s)) →
  Forall (λ u, is_marker u = false) (snapshot_body s).
Proof.
  intros H. unfold snapshot_body. apply Forall_concat, Forall_fmap, Forall_forall. intros t Ht%elem_of_seqZ.
  constructor; [done|]. eapply Forall_impl; [apply H; lia|]. intros u E. unfold is_marker. simpl in E. by rewrite E.
Qed.

Lemma body_clean us : Forall (λ u, is_marker u = false) us → body us = us.
Proof. induction 1; unfold body in *; [done|]. rewrite filter_cons, decide_True by done. by f_equal. Qed.

(** The whole snapshot of a synthesizer, then the incrementals after it. *)
Lemma recovery_merges fd s incs old c :
  in_recovery_ c = true → snapshot_queued_msgs_ c = [] →
  Forall (λ u, is_marker u = false) (snapshot_body s) → 2 + length (snapshot_body s) < 2 ^ 64 →
  Forall (λ e : Z * MEMarketUpdate, e.1 ≤ last_inc_seq_num_ s) old →
  incremental_queued_msgs_ c = old ++ entries (last_inc_seq_num_ s + 1) incs →
  0 ≤ last_inc_seq_num_ s → last_inc_seq_num_ s + 1 + length incs < 2 ^ 64 →
  recv_messages fd true (snapshot_messages s) c
  = Ok (mkConsumer (last_inc_seq_num_ s + 1 + length incs)
          (enqueue_all (snapshot_body s ++ body incs) (incoming_md_updates_ c)) (incremental_mcast_socket_ c)
          (mcast_leave (snapshot_mcast_socket_ c)) false [] []).
Proof.
  intros Hr Hq Hcl Hlen Hold Hinc H0 Hlt. unfold snapshot_messages. rewrite snapshot_frames_body.
  rewrite app_comm_cons, number_updates_app, recv_messages_app.
  rewrite recv_messages_collect; [|done..| |lia].
  2: { eapply Forall_impl; [exact Hcl|]. intros u Hu E. unfold is_marker in Hu. rewrite E in Hu.
       by rewrite orb_true_r in Hu. }
  cbn [rbind number_updates recv_messages]. rewrite recv_message_recovering by done. cbn [rbind].
  assert (0 + length (marker MU_SNAPSHOT_START (last_inc_seq_num_ s) :: snapshot_body s)
          = 1 + length (snapshot_body s)) as -> by (cbn [length]; lia).
  rewrite (queueMessage_commits (marker MU_SNAPSHOT_START (last_inc_seq_num_ s)) (snapshot_body s) _ (body incs) (last_inc_seq_num_ s + 1 + length incs)); try done.
  - by rewrite (body_clean (snapshot_body s) Hcl).
  - cbn [incremental_queued_msgs_ set_snapshot_msgs marker mu_order_id_]. rewrite Hinc.
    assert (u64 (last_inc_seq_num_ s + 1) = last_inc_seq_num_ s + 1) as -> by (unfold wrap; apply Z.mod_small; lia).
    rewrite scan_incremental_skip; [|eapply Forall_impl; [exact Hold|]; intros e He; simpl in He; lia].
    apply scan_incremental_entries; lia.
Qed.

(** Messages in sequence are forwarded. *)
Lemma md_recvCallback_parsed fd us rest l c :
  in_recovery_ c = false → mc_fd (incremental_mcast_socket_ c) ≠ mc_fd (snapshot_mcast_socket_ c) →
  parse_stream (mc_inbound (incremental_mcast_socket_ c)) = (number_updates (next_exp_inc_seq_num_ c) us, rest) →
  0 ≤ next_exp_inc_seq_num_ c → next_exp_inc_seq_num_ c + length us < 2 ^ 64 →
  lfq_rep (incoming_md_updates_ c) l → length l + length us ≤ q_size (incoming_md_updates_ c) →
  ∃ c', md_recvCallback fd Incremental c = Ok c'
    ∧ lfq_rep (incoming_md_updates_ c') (l ++ us)
    ∧ next_exp_inc_seq_num_ c' = next_exp_inc_seq_num_ c + length us
    ∧ mc_inbound (incremental_mcast_socket_ c') = rest ∧ in_recovery_ c' = false
    ∧ mc_fd (incremental_mcast_socket_ c') = mc_fd (incremental_mcast_socket_ c)
    ∧ snapshot_mcast_socket_ c' = snapshot_mcast_socket_ c.
Proof.
  intros Hr Hfd Ep H0 Hlt Hq Hroom. unfold md_recvCallback.
  cbn [stream_socket]. rewrite bool_decide_eq_false_2 by done. cbn [andb].
  pose proof (recv_loop_incremental (length (mc_inbound (incremental_mcast_socket_ c))) fd false 0 c
    ltac:(lia) ltac:(lia)) as Hl.
  change (Z.to_nat 0) with O in Hl. rewrite drop_0, Ep, recv_messages_forward in Hl by done. cbn [rbind] in Hl.
  destruct (enqueue_all_ok us (incoming_md_updates_ c) l Hq Hroom) as [Hq' _].
  destruct (parse_stream_consumed _ _ _ Ep) as [Hlen Hdrop]. rewrite mdp_wire_size, length_number_updates in Hlen, Hdrop.
  unfold MDP_SIZE. destruct (Z.ltb_spec (length (mc_inbound (incremental_mcast_socket_ c))) 42) as [Hs|Hs].
  - assert (us = []) as -> by (destruct us; [done|cbn [length] in Hlen; lia]).
    exists c. split_and!; [done|by rewrite app_nil_r|simpl; lia|by rewrite <- Hdrop|done..].
  - rewrite Hl. cbn [rbind incremental_mcast_socket_ stream_socket].
    rewrite (proj2 (Z.ltb_ge _ _)) by lia. eexists. split_and!; [done|done|done| |done..].
    cbn [set_inbound incremental_mcast_socket_ stream_socket mc_inbound]. etrans; [|exact Hdrop]. f_equal. lia.
Qed.

Lemma md_recvCallback_forwards fd us rest l c :
  in_recovery_ c = false → mc_fd (incremental_mcast_socket_ c) ≠ mc_fd (snapshot_mcast_socket_ c) →
  mc_inbound (incremental_mcast_socket_ c)
    = concat (encode <$> number_updates (next_exp_inc_seq_num_ c) us) ++ rest →
  (length rest < 42)%nat → Forall update_wf us → 0 ≤ next_exp_inc_seq_num_ c →
  next_exp_inc_seq_num_ c + length us < 2 ^ 64 →
  lfq_rep (incoming_md_updates_ c) l → length l + length us ≤ q_size (incoming_md_updates_ c) →
  ∃ c', md_recvCallback fd Incremental c = Ok c'
    ∧ lfq_rep (incoming_md_updates_ c') (l ++ us)
    ∧ next_exp_inc_seq_num_ c' = next_exp_inc_seq_num_ c + length us
    ∧ mc_inbound (incremental_mcast_socket_ c') = rest ∧ in_recovery_ c' = false.
Proof.
  intros Hr Hfd Hin Hrest Hwf H0 Hlt Hq Hroom.
  destruct (md_recvCallback_parsed fd us rest l c Hr Hfd) as (c' & E & A1 & A2 & A3 & A4 & _); try done; [|by exists c'].
  rewrite Hin. apply parse_stream_encode; [by apply number_updates_wf|done].
Qed.

(** A round of the incremental stream: the kernel's datagrams continue the stream
    anyhow, whole messages are forwarded and a partial one is kept. *)
Lemma stream_round_parsed fd us ds rest l c :
  in_recovery_ c = false → is_Some (mc_fd (incremental_mcast_socket_ c)) →
  mc_fd (incremental_mcast_socket_ c) ≠ mc_fd (snapshot_mcast_socket_ c) →
  parse_stream (mc_inbound (incremental_mcast_socket_ c) ++ concat ds) = (number_updates (next_exp_inc_seq_num_ c) us, rest) →
  (length (mc_inbound (incremental_mcast_socket_ c)) < 42)%nat → Forall (λ d, d ≠ []) ds →
  length (mc_inbound (incremental_mcast_socket_ c)) + length (concat ds) ≤ McastBufferSize →
  0 ≤ next_exp_inc_seq_num_ c → next_exp_inc_seq_num_ c + length us < 2 ^ 64 →
  lfq_rep (incoming_md_updates_ c) l → length l + length us ≤ q_size (incoming_md_updates_ c) →
  ∃ c', stream_round fd Incremental ds c = Ok (c', [])
    ∧ lfq_rep (incoming_md_updates_ c') (l ++ us)
    ∧ next_exp_inc_seq_num_ c' = next_exp_inc_seq_num_ c + length us
    ∧ mc_inbound (incremental_mcast_socket_ c') = rest ∧ in_recovery_ c' = false
    ∧ mc_fd (incremental_mcast_socket_ c') = mc_fd (incremental_mcast_socket_ c)
    ∧ snapshot_mcast_socket_ c' = snapshot_mcast_socket_ c.
Proof.
  intros Hr [x Hx] Hfd Ep Hsh Hne Hl H0 Hlt Hq Hroom. unfold stream_round, mcast_recv. cbn [stream_socket].
  rewrite Hx, mcast_drain_all by done. cbn [mc_inbound mc_fd mc_outbound].
  set (c1 := set_inbound Incremental (mc_inbound (incremental_mcast_socket_ c) ++ concat ds) c). case_bool_decide as Hnil.
  - destruct (md_recvCallback_parsed fd us rest l c1) as (c' & E & A); try done. rewrite E. cbn [rbind].
    exists c'. split; [done|]. rewrite <- Hx. exact A.
  - destruct ds; [|done]. cbn [concat] in *. rewrite app_nil_r in *.
    destruct (parse_stream_consumed _ _ _ Ep) as [Hlen Hdrop]. rewrite mdp_wire_size, length_number_updates in Hlen, Hdrop.
    assert (us = []) as -> by (destruct us; [done|cbn [length] in Hlen; lia]).
    exists c1. split_and!; [done|by rewrite app_nil_r|cbn; lia| |done..]. cbn. by rewrite app_nil_r.
Qed.

(** Whole messages, cut into datagrams anyhow. *)
Lemma stream_round_forwards fd us ds l c :
  in_recovery_ c = false → is_Some (mc_fd (incremental_mcast_socket_ c)) →
  mc_fd (incremental_mcast_socket_ c) ≠ mc_fd (snapshot_mcast_socket_ c) → mc_inbound (incremental_mcast_socket_ c) = [] →
  concat ds = concat (encode <$> number_updates (next_exp_inc_seq_num_ c) us) → Forall (λ d, d ≠ []) ds →
  42 * length us ≤ McastBufferSize → Forall update_wf us → 0 ≤ next_exp_inc_seq_num_ c →
  next_exp_inc_seq_num_ c + length us < 2 ^ 64 →
  lfq_rep (incoming_md_updates_ c) l → length l + length us ≤ q_size (incoming_md_updates_ c) →
  ∃ c', stream_round fd Incremental ds c = Ok (c', [])
    ∧ lfq_rep (incoming_md_updates_ c') (l ++ us)
    ∧ next_exp_inc_seq_num_ c' = next_exp_inc_seq_num_ c + length us
    ∧ mc_inbound (incremental_mcast_socket_ c') = [] ∧ in_recovery_ c' = false.
Proof.
  intros Hr Hx Hfd Hin Hds Hne Hl Hwf H0 Hlt Hq Hroom. pose proof (length_number_updates_encode (next_exp_inc_seq_num_ c) us) as Hlen.
  destruct (stream_round_parsed fd us ds [] l c Hr Hx Hfd) as (c' & E & A1 & A2 & A3 & A4 & _); try done; [| | |by exists c'].
  - rewrite Hin, Hds, app_nil_l, <- (app_nil_r (concat _)). apply parse_stream_encode; [by apply number_updates_wf|simpl; lia].
  - rewrite Hin. simpl. lia.
  - rewrite Hin, Hds, Hlen. simpl. lia.
Qed.
