(* ===== verification/Position.v ===== *)
(** * Positions and profit-and-loss.

    [Trading::PositionInfo] and [Trading::PositionKeeper]
    (src/trading/strategy/position_keeper.h), over any [Double].  The pointer
    [bbo_] is only read by the log dump and is left out.  [open_vwap_] has no
    initialiser in the class, so a fresh position takes its content as an
    argument.  [add_fills_ok]: in exact arithmetic the total P&L is cash
    plus position at the last fill price plus rebates. *)

From Stdlib Require Import QArith Qcanon ZArith.
From stdpp Require Import numbers gmap list.
From S2P Require Import Prelude Types MarketOrderBook Double.

Open Scope Z_scope.

(** [std::array<double, sideToIndex(Side::MAX) + 1>], indexed by side. *)
Record side_array (F : Type) := mkSideArray { at_SELL : F; at_INVALID : F; at_BUY : F; at_MAX : F }.
Arguments mkSideArray {F} _ _ _ _.
Arguments at_SELL {F} _.
Arguments at_INVALID {F} _.
Arguments at_BUY {F} _.
Arguments at_MAX {F} _.

Definition sa_get {F} (s : Side) (a : side_array F) : F :=
  match s with SELL => at_SELL a | Side_INVALID => at_INVALID a | BUY => at_BUY a | Side_MAX => at_MAX a end.

Definition sa_set {F} (s : Side) (v : F) (a : side_array F) : side_array F :=
  match s with
  | SELL => mkSideArray v (at_INVALID a) (at_BUY a) (at_MAX a)
  | Side_INVALID => mkSideArray (at_SELL a) v (at_BUY a) (at_MAX a)
  | BUY => mkSideArray (at_SELL a) (at_INVALID a) v (at_MAX a)
  | Side_MAX => mkSideArray (at_SELL a) (at_INVALID a) (at_BUY a) v
  end.

Record PositionInfo (F : Type) := mkPosition {
  position_ : Z;
  real_pnl_ : F;
  unreal_pnl_ : F;
  total_pnl_ : F;
  open_vwap_ : side_array F;
  volume_ : Z }.
Arguments mkPosition {F} _ _ _ _ _ _.
Arguments position_ {F} _.
Arguments real_pnl_ {F} _.
Arguments unreal_pnl_ {F} _.
Arguments total_pnl_ {F} _.
Arguments open_vwap_ {F} _.
Arguments volume_ {F} _.

Section Position.
Context {F : Type} `{!Double F}.
Implicit Types (p : PositionInfo F) (v : side_array F) (r : MEClientResponse).

Definition PositionInfo_new v : PositionInfo F :=
  mkPosition 0 (d_of_Z 0) (d_of_Z 0) (d_of_Z 0) v 0.

(** Unrealised P&L of a non-flat position against a price. *)
Definition unrealised (position : Z) (price : F) v : result F :=
  let* a := int32 (Z.abs position) in
  if 0 <? position
  then Ok ((price - at_BUY v / d_of_Z a) * d_of_Z a)%D
  else Ok ((at_SELL v / d_of_Z a - price) * d_of_Z a)%D.

(** The branch of [addFill] on the direction of the fill: the new open cost and
    the realised P&L. *)
Definition addFill_cost r (old position : Z) (real : F) v : result (F * side_array F) :=
  let side := resp_side_ r in
  let opp := if bool_decide (side = BUY) then SELL else BUY in
  let side_value := sideToValue side in
  let* dir := int32 (old * side_value) in
  if 0 <=? dir then
    let* n := int64 (resp_price_ r * resp_exec_qty_ r) in
    Ok (real, sa_set side (sa_get side v + d_of_Z n)%D v)
  else
    let* abs_old := int32 (Z.abs old) in
    let* abs_new := int32 (Z.abs position) in
    let opp_side_vwap := (sa_get opp v / d_of_Z abs_old)%D in
    let v := sa_set opp (opp_side_vwap * d_of_Z abs_new)%D v in
    let real := (real + d_of_Z (Z.min (i32 (resp_exec_qty_ r)) abs_old)
                        * (opp_side_vwap - d_of_Z (resp_price_ r)) * d_of_Z side_value)%D in
    let* prod := int32 (position * old) in
    if prod <? 0 then
      let* n := int64 (resp_price_ r * abs_new) in
      Ok (real, sa_set opp (d_of_Z 0) (sa_set side (d_of_Z n) v))
    else Ok (real, v).

Definition addFill r (maker_rebate_bps : F) p : result (PositionInfo F) :=
  let old := position_ p in
  let* delta := int32 (i32 (resp_exec_qty_ r) * sideToValue (resp_side_ r)) in
  let* position := int32 (old + delta) in
  let volume := u32 (volume_ p + resp_exec_qty_ r) in
  let* (real, v) := addFill_cost r old position (real_pnl_ p) (open_vwap_ p) in
  let* (unreal, v) :=
    (if position =? 0 then Ok (d_of_Z 0, sa_set SELL (d_of_Z 0) (sa_set BUY (d_of_Z 0) v))
     else let* u := unrealised position (d_of_Z (resp_price_ r)) v in Ok (u, v)) in
  let total := (unreal + real)%D in
  if negb (maker_rebate_bps =? d_of_Z 0)%D then
    let notional := (d_of_Z (resp_price_ r) * d_of_Z (resp_exec_qty_ r))%D in
    let rebate := (notional * maker_rebate_bps * (d_of_Z 1 / d_of_Z 10000))%D in
    Ok (mkPosition position (real + rebate)%D unreal (total + rebate)%D v volume)
  else Ok (mkPosition position real unreal total v volume).

(** [PositionInfo::updateBBO]. *)
Definition position_updateBBO (bbo : BBO) p : result (PositionInfo F) :=
  if negb (position_ p =? 0) && negb (bid_price_ bbo =? Price_INVALID) && negb (ask_price_ bbo =? Price_INVALID)
  then
    let* sum := int64 (bid_price_ bbo + ask_price_ bbo) in
    let mid_price := (d_of_Z sum * (d_of_Z 1 / d_of_Z 2))%D in
    let* unreal := unrealised (position_ p) mid_price (open_vwap_ p) in
    Ok (mkPosition (position_ p) (real_pnl_ p) unreal (unreal + real_pnl_ p)%D (open_vwap_ p) (volume_ p))
  else Ok p.

(** ** [PositionKeeper] *)

Record PositionKeeper := mkPositionKeeper {
  rebate_bps_ : list F;
  ticker_position_ : list (PositionInfo F) }.

(** [.at] on the two arrays of [ME_MAX_TICKERS]. *)
Definition keeper_addFill r (k : PositionKeeper) : result PositionKeeper :=
  let t := Z.to_nat (resp_ticker_id_ r) in
  match rebate_bps_ k !! t, ticker_position_ k !! t with
  | Some bps, Some p =>
      let* p := addFill r bps p in
      Ok (mkPositionKeeper (rebate_bps_ k) (<[t := p]> (ticker_position_ k)))
  | _, _ => Err OutOfRange
  end.

Definition keeper_updateBBO (ticker_id : Z) (bbo : BBO) (k : PositionKeeper) : result PositionKeeper :=
  match ticker_position_ k !! Z.to_nat ticker_id with
  | Some p =>
      let* p := position_updateBBO bbo p in
      Ok (mkPositionKeeper (rebate_bps_ k) (<[Z.to_nat ticker_id := p]> (ticker_position_ k)))
  | None => Err OutOfRange
  end.
End Position.
Arguments PositionKeeper : clear implicits.

(** ** Accounting in exact arithmetic *)

Section Accounting.
Implicit Types (p : PositionInfo Qc) (v : side_array Qc) (r : MEClientResponse).

(** Signed quantity of a fill. *)
Definition signed_qty r : Z := sideToValue (resp_side_ r) * resp_exec_qty_ r.

(** Cost of the open position. *)
Definition cost v : Qc := (at_BUY v - at_SELL v)%Qc.

(** Only the side of the position carries a cost. *)
Definition one_sided (position : Z) v : Prop :=
  (0 ≤ position → at_SELL v = 0%Qc) ∧ (position ≤ 0 → at_BUY v = 0%Qc).

(** Positions whose products fit 32 bits. *)
Definition POSITION_SAFE : Z := 46340.

Record fill_ok (position : Z) r : Prop := {
  fo_side : resp_side_ r = BUY ∨ resp_side_ r = SELL;
  fo_qty : 0 ≤ resp_exec_qty_ r < 2 ^ 31;
  fo_old : Z.abs position ≤ POSITION_SAFE;
  fo_new : Z.abs (position + signed_qty r) ≤ POSITION_SAFE;
  fo_notional : Z.abs (resp_price_ r * resp_exec_qty_ r) < 2 ^ 63;
  fo_price : Z.abs (resp_price_ r) * POSITION_SAFE < 2 ^ 63 }.

Lemma safe_product x y : Z.abs x ≤ POSITION_SAFE → Z.abs y ≤ POSITION_SAFE → int32 (x * y) = Ok (x * y).
Proof. unfold POSITION_SAFE. intros. apply int32_ok. nia. Qed.

Lemma i32_small z : 0 ≤ z < 2 ^ 31 → i32 z = z.
Proof. intros. unfold swrap, wrap. rewrite Z.mod_small; lia. Qed.

(** A fill that adds to the position (or opens one). *)
Lemma addFill_cost_opens r position real v :
  fill_ok position r → one_sided position v → 0 ≤ position * sideToValue (resp_side_ r) →
  ∃ v', addFill_cost r position (position + signed_qty r) real v = Ok (real, v')
    ∧ cost v' = (cost v + Qc_of_Z (resp_price_ r) * Qc_of_Z (signed_qty r))%Qc
    ∧ one_sided (position + signed_qty r) v'.
Proof.
  intros [Hs Hq Ho Hn Hp _] [Hv1 Hv2] Hd. unfold addFill_cost, POSITION_SAFE in *.
  unfold signed_qty in *.
  assert (Hside : sideToValue (resp_side_ r) = 1 ∨ sideToValue (resp_side_ r) = -1)
    by (destruct Hs as [-> | ->]; simpl; lia).
  rewrite int32_ok by nia. cbn [rbind]. rewrite (proj2 (Z.leb_le _ _)) by done.
  rewrite int64_ok by lia. cbn [rbind d_of_Z d_add Qc_Double].
  eexists. split; [done|]. destruct Hs as [Hs|Hs]; rewrite Hs in *; cbn [sideToValue sa_get sa_set] in *;
    unfold cost, one_sided; cbn [at_BUY at_SELL].
  - split; [rewrite !Qc_of_Z_mul, Qc_of_Z_1; ring|]. split; [intros _; apply Hv1; lia|].
    intros H0. assert (position = 0 ∧ resp_exec_qty_ r = 0) as [E1 E2] by lia.
    rewrite Hv2, E2, Z.mul_0_r, Qc_of_Z_0 by lia. ring.
  - split; [rewrite !Qc_of_Z_mul, Qc_of_Z_m1; ring|]. split; [|intros _; apply Hv2; lia].
    intros H0. assert (position = 0 ∧ resp_exec_qty_ r = 0) as [E1 E2] by lia.
    rewrite Hv1, E2, Z.mul_0_r, Qc_of_Z_0 by lia. ring.
Qed.

(** A fill against the position: it reduces, closes or flips it. *)
Lemma addFill_cost_reduces r position real v :
  fill_ok position r → one_sided position v → position * sideToValue (resp_side_ r) < 0 →
  ∃ real' v', addFill_cost r position (position + signed_qty r) real v = Ok (real', v')
    ∧ (real' - cost v' = real - cost v - Qc_of_Z (resp_price_ r) * Qc_of_Z (signed_qty r))%Qc
    ∧ one_sided (position + signed_qty r) v'.
Proof.
  intros [Hs Hq Ho Hn _ Hp] [Hv1 Hv2] Hd. unfold addFill_cost, signed_qty in *.
  assert (Hpos : position ≠ 0) by lia.
  assert (Hnz : Qc_of_Z (Z.abs position) ≠ 0%Qc) by (apply Qc_of_Z_nonzero; lia).
  assert (Hsv : Z.abs (sideToValue (resp_side_ r)) ≤ POSITION_SAFE)
    by (unfold POSITION_SAFE; destruct Hs as [E|E]; rewrite E; simpl; lia).
  rewrite safe_product by done.
  cbn [rbind]. rewrite (proj2 (Z.leb_gt _ _)) by done.
  rewrite !int32_ok by (unfold POSITION_SAFE in *; lia). cbn [rbind].
  rewrite safe_product by done. cbn [rbind]. rewrite i32_small by done.
  destruct Hs as [Hs|Hs]; rewrite Hs in *;
    [rewrite (bool_decide_eq_true_2 (BUY = BUY)) by done|rewrite (bool_decide_eq_false_2 (SELL = BUY)) by done];
    cbn [sideToValue sa_get sa_set d_of_Z d_add d_sub d_mul d_div Qc_Double] in *;
    set (q := resp_exec_qty_ r) in *; set (price := resp_price_ r) in *.
  - assert (Hneg : position < 0) by lia. rewrite (Hv2 ltac:(lia)) in *.
    assert (Z.abs position = - position) as Ea by lia. rewrite Ea in *.
    destruct (Z.ltb_spec ((position + 1 * q) * position) 0) as [Hflip|Hno].
    + assert (0 < position + 1 * q) by nia. rewrite int64_ok by (unfold POSITION_SAFE in *; nia). cbn [rbind].
      rewrite Z.min_r by lia. do 2 eexists. split; [done|]. unfold cost, one_sided. cbn [at_BUY at_SELL].
      rewrite (Hv2 ltac:(lia)). split; [|split; [by rewrite Qc_of_Z_0|lia]].
      rewrite Z.abs_eq, !Qc_of_Z_mul, Qc_of_Z_add, Qc_of_Z_mul, Qc_of_Z_opp, Qc_of_Z_1, Qc_of_Z_0 by lia.
      rewrite Qc_of_Z_opp in Hnz. field. exact Hnz.
    + assert (position + 1 * q ≤ 0) by nia. rewrite Z.min_l by lia.
      do 2 eexists. split; [done|]. unfold cost, one_sided. cbn [at_BUY at_SELL].
      rewrite (Hv2 ltac:(lia)). split; [|split; [|done]].
      * rewrite Z.abs_neq, !Qc_of_Z_opp, Qc_of_Z_add, !Qc_of_Z_mul, Qc_of_Z_1 by lia.
        rewrite Qc_of_Z_opp in Hnz. field. exact Hnz.
      * intros H0. assert (position + 1 * q = 0) as -> by lia. rewrite Z.abs_0, Qc_of_Z_0. ring.
  - assert (Hneg : 0 < position) by lia.
    assert (Z.abs position = position) as Ea by lia. rewrite Ea in *.
    destruct (Z.ltb_spec ((position + -1 * q) * position) 0) as [Hflip|Hno].
    + assert (position + -1 * q < 0) by nia. rewrite int64_ok by (unfold POSITION_SAFE in *; nia). cbn [rbind].
      rewrite Z.min_r by lia. do 2 eexists. split; [done|]. unfold cost, one_sided. cbn [at_BUY at_SELL].
      rewrite (Hv1 ltac:(lia)). split; [|split; [lia|by rewrite Qc_of_Z_0]].
      rewrite Z.abs_neq, !Qc_of_Z_mul, Qc_of_Z_opp, Qc_of_Z_add, Qc_of_Z_mul, Qc_of_Z_m1, Qc_of_Z_0 by lia.
      field. exact Hnz.
    + assert (0 ≤ position + -1 * q) by nia. rewrite Z.min_l by lia.
      do 2 eexists. split; [done|]. unfold cost, one_sided. cbn [at_BUY at_SELL].
      rewrite (Hv1 ltac:(lia)). split; [|split; [done|]].
      * rewrite Z.abs_eq, Qc_of_Z_add, !Qc_of_Z_mul, Qc_of_Z_m1 by lia. field. exact Hnz.
      * intros H0. assert (position + -1 * q = 0) as -> by lia. rewrite Z.abs_0, Qc_of_Z_0. ring.
Qed.

Lemma addFill_cost_ok r position real v :
  fill_ok position r → one_sided position v →
  ∃ real' v', addFill_cost r position (position + signed_qty r) real v = Ok (real', v')
    ∧ (real' - cost v' = real - cost v - Qc_of_Z (resp_price_ r) * Qc_of_Z (signed_qty r))%Qc
    ∧ one_sided (position + signed_qty r) v'.
Proof.
  intros Hf Hv. destruct (decide (0 ≤ position * sideToValue (resp_side_ r))) as [Hd|Hd].
  - destruct (addFill_cost_opens r position real v Hf Hv Hd) as (v' & E & Hc & Hv').
    exists real, v'. split_and!; [done| |done]. rewrite Hc. ring.
  - apply addFill_cost_reduces; [done..|lia].
Qed.

(** Mark to market: the position at a price, less its cost. *)
Lemma unrealised_ok position (price : Qc) v :
  position ≠ 0 → Z.abs position ≤ POSITION_SAFE → one_sided position v →
  unrealised position price v = Ok (price * Qc_of_Z position - cost v)%Qc.
Proof.
  intros Hne Hb [Hv1 Hv2]. unfold unrealised, POSITION_SAFE, cost in *. rewrite int32_ok by lia.
  assert (Qc_of_Z position ≠ 0%Qc) as Hnz by by apply Qc_of_Z_nonzero.
  cbn [rbind d_of_Z d_sub d_mul d_div Qc_Double]. destruct (Z.ltb_spec 0 position).
  - rewrite Z.abs_eq, Hv1 by lia. f_equal. field. done.
  - rewrite Z.abs_neq, Hv2, Qc_of_Z_opp by lia. f_equal. field. intros E. apply Hnz.
    by rewrite <- (Qcopp_involutive (Qc_of_Z position)), E.
Qed.

Definition rebate_of r (bps : Qc) : Qc :=
  (Qc_of_Z (resp_price_ r) * Qc_of_Z (resp_exec_qty_ r) * bps * (Qc_of_Z 1 / Qc_of_Z 10000))%Qc.

(** The book value: realised P&L less the cost of what is open. *)
Definition book_value p : Qc := (real_pnl_ p - cost (open_vwap_ p))%Qc.

Lemma addFill_ok r bps p :
  fill_ok (position_ p) r → one_sided (position_ p) (open_vwap_ p) →
  ∃ p', addFill r bps p = Ok p' ∧ position_ p' = position_ p + signed_qty r
    ∧ volume_ p' = u32 (volume_ p + resp_exec_qty_ r)
    ∧ one_sided (position_ p') (open_vwap_ p')
    ∧ (book_value p' = book_value p - Qc_of_Z (resp_price_ r) * Qc_of_Z (signed_qty r) + rebate_of r bps)%Qc
    ∧ (total_pnl_ p' = book_value p' + Qc_of_Z (resp_price_ r) * Qc_of_Z (position_ p'))%Qc.
Proof.
  intros Hf Hv. pose proof Hf as [Hs Hq Ho Hn _ _]. unfold addFill.
  assert (Ed : int32 (i32 (resp_exec_qty_ r) * sideToValue (resp_side_ r)) = Ok (signed_qty r)).
  { rewrite i32_small by done. unfold signed_qty. rewrite Z.mul_comm.
    destruct Hs as [E|E]; rewrite E; simpl sideToValue; apply int32_ok; lia. }
  rewrite Ed. cbn [rbind]. rewrite int32_ok by (unfold POSITION_SAFE in *; lia). cbn [rbind].
  destruct (addFill_cost_ok r (position_ p) (real_pnl_ p) (open_vwap_ p) Hf Hv) as (real & v & -> & Hb & Hv').
  cbn [rbind].
  assert (∃ unreal v', (if position_ p + signed_qty r =? 0
      then Ok (d_of_Z 0, sa_set SELL (d_of_Z 0) (sa_set BUY (d_of_Z 0) v))
      else let* u := unrealised (position_ p + signed_qty r) (d_of_Z (resp_price_ r)) v in Ok (u, v))
      = Ok (unreal, v') ∧ cost v' = cost v ∧ one_sided (position_ p + signed_qty r) v'
      ∧ (unreal = Qc_of_Z (resp_price_ r) * Qc_of_Z (position_ p + signed_qty r) - cost v)%Qc)
    as (unreal & v' & -> & Hc & Hv2 & Hu).
  { destruct (Z.eqb_spec (position_ p + signed_qty r) 0) as [E0|E0].
    - rewrite E0 in *. destruct Hv' as [Hv1 Hv2]. do 2 eexists. split; [done|].
      unfold cost, one_sided. cbn [sa_set at_BUY at_SELL d_of_Z Qc_Double].
      rewrite Hv1, Hv2, Qc_of_Z_0 by lia. split_and!; [ring|done|done|ring].
    - rewrite unrealised_ok by done. do 2 eexists. split; [done|]. done. }
  cbn [rbind d_eqb d_add d_mul d_div d_of_Z Qc_Double].
  destruct (Qc_eq_bool bps (Qc_of_Z 0)) eqn:Eb; cbn [negb].
  - apply Qc_eq_bool_correct in Eb. eexists. split; [done|]. unfold book_value. cbn [position_ volume_ open_vwap_ real_pnl_ total_pnl_].
    split_and!; [done|done|done| |].
    + rewrite Hc, Hb. unfold rebate_of. rewrite Eb, Qc_of_Z_0. ring.
    + rewrite Hu, Hc. ring.
  - eexists. split; [done|]. unfold book_value. cbn [position_ volume_ open_vwap_ real_pnl_ total_pnl_].
    split_and!; [done|done|done| |].
    + rewrite Hc. fold (rebate_of r bps). transitivity (real - cost v + rebate_of r bps)%Qc; [ring|]. rewrite Hb. ring.
    + rewrite Hu, Hc. fold (rebate_of r bps). ring.
Qed.

(** *** A sequence of fills *)

Fixpoint add_fills (rs : list MEClientResponse) (bps : Qc) p : result (PositionInfo Qc) :=
  match rs with
  | [] => Ok p
  | r :: rs => let* p := addFill r bps p in add_fills rs bps p
  end.

Fixpoint fills_ok (position : Z) (rs : list MEClientResponse) : Prop :=
  match rs with
  | [] => True
  | r :: rs => fill_ok position r ∧ fills_ok (position + signed_qty r) rs
  end.

Definition net_qty (rs : list MEClientResponse) : Z := foldr (λ r acc, signed_qty r + acc) 0 rs.

(** Cash received (negative if paid) and rebates earned. *)
Definition net_cash (rs : list MEClientResponse) : Qc :=
  foldr (λ r acc, (acc - Qc_of_Z (resp_price_ r) * Qc_of_Z (signed_qty r))%Qc) 0%Qc rs.
Definition net_rebate (bps : Qc) (rs : list MEClientResponse) : Qc :=
  foldr (λ r acc, (acc + rebate_of r bps)%Qc) 0%Qc rs.

Lemma add_fills_ok rs bps p :
  fills_ok (position_ p) rs → one_sided (position_ p) (open_vwap_ p) →
  ∃ p', add_fills rs bps p = Ok p' ∧ position_ p' = position_ p + net_qty rs
    ∧ one_sided (position_ p') (open_vwap_ p')
    ∧ (book_value p' = book_value p + net_cash rs + net_rebate bps rs)%Qc
    ∧ (∀ r, last rs = Some r → (total_pnl_ p' = book_value p' + Qc_of_Z (resp_price_ r) * Qc_of_Z (position_ p'))%Qc).
Proof.
  revert p. induction rs as [|r rs IH]; intros p Hf Hv.
  { exists p. simpl. split_and!; [done|lia|done|ring|done]. }
  destruct Hf as [Hf Hfs]. destruct (addFill_ok r bps p Hf Hv) as (p1 & E & Hp1 & _ & Hv1 & Hb1 & Ht1).
  rewrite <- Hp1 in Hfs. destruct (IH p1 Hfs Hv1) as (p' & E' & Hp' & Hv' & Hb' & Ht').
  exists p'. cbn [add_fills net_qty net_cash net_rebate foldr]. rewrite E. cbn [rbind].
  split_and!; [done| |done| |].
  - rewrite Hp', Hp1. unfold net_qty. lia.
  - rewrite Hb', Hb1. unfold net_cash, net_rebate. ring.
  - intros r' Hr'. destruct rs as [|r2 rs]; [|by apply Ht'; rewrite <- Hr'; symmetry; apply last_cons_cons].
    simpl in Hr', E'. injection Hr' as <-. by injection E' as <-.
Qed.
End Accounting.

(** ** Machine arithmetic *)

Section Machine.
Context {F : Type} `{!Double F}.

(** Within the safe range no fill is undefined, whatever the floats do. *)
Lemma addFill_total r (bps : F) (p : PositionInfo F) :
  fill_ok (position_ p) r →
  ∃ p', addFill r bps p = Ok p' ∧ position_ p' = position_ p + signed_qty r
    ∧ volume_ p' = u32 (volume_ p + resp_exec_qty_ r).
Proof.
  intros [Hs Hq Ho Hn Hp Hpr]. unfold addFill.
  assert (Hsv : sideToValue (resp_side_ r) = 1 ∨ sideToValue (resp_side_ r) = -1)
    by (destruct Hs as [E|E]; rewrite E; simpl; lia).
  assert (Ed : int32 (i32 (resp_exec_qty_ r) * sideToValue (resp_side_ r)) = Ok (signed_qty r)).
  { rewrite i32_small by done. unfold signed_qty. rewrite Z.mul_comm. apply int32_ok. lia. }
  rewrite Ed. cbn [rbind]. set (new := position_ p + signed_qty r) in *.
  rewrite int32_ok by (unfold POSITION_SAFE in *; lia). cbn [rbind].
  assert (∃ real v, addFill_cost r (position_ p) new (real_pnl_ p) (open_vwap_ p) = Ok (real, v)) as (real & v & ->).
  { unfold addFill_cost. rewrite safe_product by (unfold POSITION_SAFE in *; lia). cbn [rbind].
    destruct (0 <=? _); [rewrite int64_ok by lia; cbn [rbind]; eauto|].
    rewrite !int32_ok by (unfold POSITION_SAFE in *; lia). cbn [rbind]. rewrite safe_product by done. cbn [rbind].
    destruct (_ <? 0); [|eauto]. rewrite int64_ok by (unfold POSITION_SAFE in *; nia). cbn [rbind]. eauto. }
  cbn [rbind].
  assert (∃ u v', (if new =? 0 then Ok (d_of_Z 0, sa_set SELL (d_of_Z 0) (sa_set BUY (d_of_Z 0) v))
      else let* u := unrealised new (d_of_Z (resp_price_ r)) v in Ok (u, v)) = Ok (u, v')) as (u & v' & ->).
  { destruct (new =? 0); [eauto|]. unfold unrealised. rewrite int32_ok by (unfold POSITION_SAFE in *; lia).
    cbn [rbind]. destruct (0 <? new); cbn [rbind]; eauto. }
  cbn [rbind]. destruct (negb _); eexists; (split; [done|]); done.
Qed.

(** The sign test [position_ * old_position < 0] overflows for larger positions. *)
Lemma addFill_overflow r (bps : F) (p : PositionInfo F) :
  resp_side_ r = SELL → 0 ≤ resp_exec_qty_ r ≤ position_ p → position_ p < 2 ^ 31 →
  2 ^ 31 ≤ (position_ p - resp_exec_qty_ r) * position_ p →
  addFill r bps p = Err Undefined.
Proof.
  intros Hs Hq Hp Ho. unfold addFill. rewrite Hs. cbn [sideToValue].
  rewrite i32_small by lia. rewrite int32_ok by lia. cbn [rbind]. rewrite int32_ok by lia. cbn [rbind].
  unfold addFill_cost. rewrite Hs. cbn [sideToValue].
  rewrite int32_ok by lia. cbn [rbind]. rewrite (proj2 (Z.leb_gt _ _)) by nia.
  rewrite !int32_ok by lia. cbn [rbind]. rewrite int32_overflow by nia. done.
Qed.
End Machine.

(** The first fill of a position whose [open_vwap_] was not zero. *)
Lemma first_fill_garbage r (v : side_array Qc) :
  resp_side_ r = BUY → 0 < resp_exec_qty_ r ≤ POSITION_SAFE → Z.abs (resp_price_ r) ≤ 2 ^ 40 →
  ∃ p', addFill r 0%Qc (PositionInfo_new v) = Ok p' ∧ (total_pnl_ p' = - at_BUY v)%Qc.
Proof.
  intros Hs Hq Hp. unfold POSITION_SAFE in *. unfold addFill, addFill_cost, PositionInfo_new. rewrite Hs.
  cbn [sideToValue position_ real_pnl_ open_vwap_ volume_].
  rewrite i32_small by lia. rewrite !int32_ok by lia. cbn [rbind].
  rewrite int32_ok by lia. cbn [rbind]. simpl (0 <=? 0 * 1). cbn [rbind].
  rewrite int64_ok by nia. cbn [rbind]. rewrite (proj2 (Z.eqb_neq _ _)) by lia.
  unfold unrealised. rewrite int32_ok by lia. cbn [rbind]. rewrite (proj2 (Z.ltb_lt _ _)) by lia. cbn [rbind].
  cbn [sa_set sa_get at_BUY d_of_Z d_add d_sub d_mul d_div d_eqb Qc_Double].
  rewrite (Qc_of_Z_0 : Qc_of_Z 0 = 0%Qc). cbn [negb]. eexists. split; [done|]. cbn [total_pnl_].
  assert (Qc_of_Z (resp_exec_qty_ r) ≠ 0%Qc) as Hnz by (apply Qc_of_Z_nonzero; lia).
  rewrite Z.abs_eq, Z.add_0_l, Z.mul_1_r, Qc_of_Z_mul by lia. cbn [at_BUY]. field. exact Hnz.
Qed.
