(* ===== verification/RunEvents.v ===== *)
(** * The messages of a plain run.

    What the matching engine sends while it serves a plain run of requests
    (Requests.v): every field fits its width on the wire, fills name a side, a
    price of the band and a ticker ([event_plain], [plain_run_events]), and on
    every ticker the fills of all clients cancel out ([plain_run_zero_sum]). *)

From stdpp Require Import numbers gmap list sorting.
From S2P Require Import Prelude MemPool Types LFQueue Wire BookCore BookSpec BookRep BookRemove BookRefine MEOrderBook MESpec MERefine MEInv MatchingEngine Requests Double Position.

Open Scope Z_scope.
Local Coercion Z.of_nat : nat >-> Z.

(** ** Well-formed messages *)

Record order_plain (x : MEOrder) : Prop := {
  op_client : 0 ≤ client_id_ x < ME_MAX_NUM_CLIENTS;
  op_oid : 0 ≤ client_order_id_ x < ME_MAX_ORDER_IDS;
  op_side : proper_side (side_ x);
  op_price : 0 ≤ price_ x < price_band;
  op_qty : 0 < qty_ x < 2 ^ 32;
  op_priority : 0 < priority_ x < 2 ^ 64;
  op_id : 0 < market_order_id_ x < 2 ^ 64 }.

Record response_plain (r : MEClientResponse) : Prop := {
  rp_wf : resp_wf r;
  rp_client : 0 ≤ resp_client_id_ r < ME_MAX_NUM_CLIENTS;
  rp_ticker : 0 ≤ resp_ticker_id_ r < ME_MAX_TICKERS;
  rp_fill : resp_type_ r = FILLED → proper_side (resp_side_ r) ∧ 0 ≤ resp_price_ r < price_band }.

Record update_plain (u : MEMarketUpdate) : Prop := {
  up_wf : update_wf u;
  up_ticker : 0 ≤ mu_ticker_id_ u < ME_MAX_TICKERS;
  up_price : 0 ≤ mu_price_ u < price_band;
  up_type : mu_type_ u ≠ MU_CLEAR }.

Definition event_plain (ev : event) : Prop :=
  match ev with Private r => response_plain r | Public u => update_plain u end.

Ltac plain_fields :=
  repeat match goal with
  | H : order_plain _ |- _ => destruct H
  | |- event_plain (Private _) => split; [unfold resp_wf| | |]
  | |- event_plain (Public _) => split; [unfold update_wf| | |]
  end;
  cbn [resp_type_ resp_client_id_ resp_ticker_id_ resp_client_order_id_ resp_market_order_id_ resp_side_ resp_price_
       resp_exec_qty_ resp_leaves_qty_ mu_type_ mu_order_id_ mu_ticker_id_ mu_side_ mu_price_ mu_qty_ mu_priority_];
  unfold ME_MAX_NUM_CLIENTS, ME_MAX_ORDER_IDS, ME_MAX_TICKERS, price_band, ME_MAX_PRICE_LEVELS, OrderId_INVALID,
    Price_INVALID, Qty_INVALID, Priority_INVALID in *;
  try split_and!; try discriminate; try done; try lia.

Record aggressor_plain (a : aggressor) : Prop := {
  ap_client : 0 ≤ ag_client a < ME_MAX_NUM_CLIENTS;
  ap_oid : 0 ≤ ag_oid a < ME_MAX_ORDER_IDS;
  ap_ticker : 0 ≤ ag_ticker a < ME_MAX_TICKERS;
  ap_moid : 0 ≤ ag_moid a < 2 ^ 64;
  ap_side : proper_side (ag_side a) }.

Lemma fill_events_plain a x fill leaves :
  aggressor_plain a → order_plain x → 0 < fill ≤ qty_ x → 0 ≤ leaves < 2 ^ 32 →
  Forall event_plain (fill_events a x fill leaves).
Proof.
  intros [] Hx Hf Hl. unfold fill_events. repeat (apply Forall_cons; split); [..|constructor].
  - plain_fields.
  - plain_fields.
  - plain_fields.
  - destruct (_ =? 0); plain_fields.
Qed.

#[local] Opaque fill_events.

Lemma fill_queue_plain a leaves q l q2 evs :
  aggressor_plain a → Forall order_plain q → 0 ≤ leaves < 2 ^ 32 → fill_queue a leaves q = (l, q2, evs) →
  Forall event_plain evs.
Proof.
  intros Ha Hq. revert leaves l q2 evs. induction Hq as [|x q Hx _ IH]; intros leaves l q2 evs Hl; simpl.
  { intros [= <- <- <-]. constructor. }
  destruct (Z.eqb_spec leaves 0); [intros [= <- <- <-]; constructor|]. cbn [orb].
  destruct (negb _); [intros [= <- <- <-]; constructor|]. pose proof (op_qty _ Hx) as Hqx.
  destruct (Z.leb_spec (qty_ x) leaves).
  - destruct (fill_queue a (leaves - qty_ x) q) as [[l1 q1] e1] eqn:E. intros [= <- <- <-].
    apply Forall_app. split; [apply fill_events_plain; (done || lia)|]. by eapply IH; [|exact E]; lia.
  - intros [= <- <- <-]. apply fill_events_plain; (done || lia).
Qed.

(** The resting orders of a tracked book. *)
Lemma tracked_orders past rest t ob sp x :
  plain_run (past ++ rest) → tracked past t sp → me_rep ob sp → x ∈ ab_all (sp_book sp) → order_plain x.
Proof.
  intros [Hpl _ Hroom] Ht (Hr & _ & Hq) Hx. pose proof Ht as [Hi _ Hn]. rewrite new_keys_app, length_app in Hroom.
  destruct (tracked_source past t sp x Ht Hx) as (r & Hin & Hnew%bool_decide_unpack & _ & E).
  apply Forall_app in Hpl as [Hpast _]. rewrite Forall_forall in Hpast. destruct (Hpast r Hin) as [_ _ Hk Hf].
  destruct (Hf Hnew) as (_ & Hp & _). injection E as E1 E2 E3. rewrite E1, E2 in Hk. rewrite E3 in Hp.
  unfold cid_oid_in_range in Hk. cbn [fst snd] in Hk.
  pose proof (proj1 (Forall_forall _ _) Hq x Hx) as [Hq1 Hq2].
  pose proof (proj1 (Forall_forall _ _) (bi_ids _ Hi) x Hx) as [Hp1 Hp2].
  unfold ME_MAX_ORDER_IDS, ME_MAX_NUM_CLIENTS in *.
  split; try (unfold ME_MAX_ORDER_IDS, ME_MAX_NUM_CLIENTS in *; lia); try done.
  apply elem_of_app in Hx as [Hb|Ha].
  - left. exact (rep_sides _ _ BUY x Hr (or_introl eq_refl) Hb).
  - right. exact (rep_sides _ _ SELL x Hr (or_intror eq_refl) Ha).
Qed.

Lemma spec_add_plain c o t s p q sp :
  (∀ x, x ∈ ab_all (sp_book sp) → order_plain x) →
  0 ≤ c < ME_MAX_NUM_CLIENTS → 0 ≤ o < ME_MAX_ORDER_IDS → 0 ≤ t < ME_MAX_TICKERS → proper_side s →
  0 ≤ p < price_band → 0 ≤ q < 2 ^ 32 → 0 < sp_next_id sp < 2 ^ 64 →
  Forall event_plain (spec_add c o t s p q sp).2.
Proof.
  intros Hx Hc Ho Ht Hs Hp Hq Hid. unfold spec_add. set (a := mkAggressor _ _ _ _ _ _).
  destruct (fill_queue a q _) as [[l q2] evs] eqn:E.
  assert (∀ s', proper_side s' → Forall order_plain (ab_side (sp_book sp) s')) as Hside.
  { intros s' Hs'. apply Forall_forall. intros x Hin. apply Hx, elem_of_ab_all. by exists s'. }
  assert (aggressor_plain a) as Ha.
  { split; try done. cbn [a ag_moid]. unfold u32, wrap. pose proof (Z.mod_pos_bound (sp_next_id sp) (2 ^ 32) ltac:(lia)). lia. }
  pose proof (fill_queue_plain a q _ l q2 evs Ha (Hside _ (proper_opposite s)) Hq E) as Hevs.
  assert (Forall (λ x, 0 < qty_ x) (ab_side (sp_book sp) (opposite s))) as Hpos.
  { eapply Forall_impl; [apply Hside, proper_opposite|]. intros x []. lia. }
  pose proof (fill_queue_leaves a q _ l q2 evs ltac:(lia) Hpos E) as Hl.
  assert (event_plain (Private (mkMEClientResponse ACCEPTED c t o (sp_next_id sp) s p 0 q))) as Hacc by plain_fields.
  destruct (l =? 0); cbn [snd]; apply Forall_cons; (split; [exact Hacc|]); [done|].
  apply Forall_app. split; [done|]. apply Forall_singleton.
  assert (∀ z, 0 ≤ next_priority p z < 2 ^ 64) as Hpr.
  { intros z. unfold next_priority. destruct (last _); [|lia]. apply Z.mod_pos_bound. lia. }
  specialize (Hpr (ab_side (set_ab_side (sp_book sp) (opposite s) q2) s)).
  set (prio := next_priority _ _) in *. plain_fields.
Qed.

Lemma spec_cancel_plain c o t sp :
  (∀ x, x ∈ ab_all (sp_book sp) → order_plain x) →
  0 ≤ c < ME_MAX_NUM_CLIENTS → 0 ≤ o < ME_MAX_ORDER_IDS → 0 ≤ t < ME_MAX_TICKERS →
  Forall event_plain (spec_cancel c o t sp).2.
Proof.
  intros Hx Hc Ho Ht. unfold spec_cancel, find_order. destruct (list_find _ _) as [[i x]|] eqn:E; cbn.
  - apply list_find_Some in E as (E & _). pose proof (Hx x (list_elem_of_lookup_2 _ _ _ E)) as [].
    repeat (apply Forall_cons; split); [..|constructor]; plain_fields.
  - apply Forall_singleton. plain_fields.
Qed.

Lemma plain_run_events reqs :
  plain_run reqs → Forall event_plain (engine_spec_run reqs (replicate (Z.to_nat ME_MAX_TICKERS) MESpec_new)).2.
Proof.
  apply (plain_run_ind reqs (Forall event_plain)); [constructor|intros; by apply Forall_app|].
  intros past req rest r ob sp -> Hpl Ht Hm Hr Hv.
  assert (∀ x, x ∈ ab_all (sp_book sp) → order_plain x) as Hx by (intros x; by eapply tracked_orders).
  pose proof (pl_requests _ Hpl) as Hall. apply Forall_app in Hall as [_ [[Hty Htk Hk Hnew] _]%Forall_cons].
  unfold cid_oid_in_range in Hk. cbn [fst snd] in Hk. unfold ME_MAX_NUM_CLIENTS, ME_MAX_ORDER_IDS in Hk.
  unfold to_book_request in Hr. destruct (req_type_ req) eqn:Et; simplify_eq; cbn [spec_handle].
  - destruct (Hnew eq_refl) as (Hs & Hp & Hq). destruct Hv as [_ Hid]. pose proof (bi_next _ (tk_inv _ _ _ Ht)).
    apply spec_add_plain; try done; unfold ME_MAX_NUM_CLIENTS, ME_MAX_ORDER_IDS; lia.
  - apply spec_cancel_plain; try done; unfold ME_MAX_NUM_CLIENTS, ME_MAX_ORDER_IDS; lia.
Qed.

Lemma plain_run_publics reqs :
  plain_run reqs →
  Forall update_plain (publics (engine_spec_run reqs (replicate (Z.to_nat ME_MAX_TICKERS) MESpec_new)).2).
Proof.
  intros Hev%plain_run_events. induction Hev as [|[r|u] evs Hu _ IH]; [constructor|exact IH|]. constructor; [exact Hu|exact IH].
Qed.

Lemma plain_run_privates reqs :
  plain_run reqs →
  Forall response_plain (privates (engine_spec_run reqs (replicate (Z.to_nat ME_MAX_TICKERS) MESpec_new)).2).
Proof.
  intros Hev%plain_run_events. induction Hev as [|[r|u] evs Hu _ IH]; [constructor| |exact IH]. constructor; [exact Hu|exact IH].
Qed.

(** Whoever gets a response has sent a request. *)
Definition answers (cs : list Z) (ev : event) : Prop :=
  match ev with Private r => resp_client_id_ r ∈ cs | Public _ => True end.

#[local] Transparent fill_events.

Lemma fill_events_answers cs a x fill leaves :
  ag_client a ∈ cs → client_id_ x ∈ cs → Forall (answers cs) (fill_events a x fill leaves).
Proof. intros Ha Hx. unfold fill_events. by repeat constructor. Qed.

#[local] Opaque fill_events.

Lemma fill_queue_answers cs a leaves q l q2 evs :
  ag_client a ∈ cs → Forall (λ x, client_id_ x ∈ cs) q → fill_queue a leaves q = (l, q2, evs) → Forall (answers cs) evs.
Proof.
  intros Ha Hq. revert leaves l q2 evs. induction Hq as [|x q Hx _ IH]; intros leaves l q2 evs; simpl.
  { intros [= <- <- <-]. constructor. }
  pose proof (λ fill lv, fill_events_answers cs a x fill lv Ha Hx) as Hf.
  destruct (_ || _); [intros [= <- <- <-]; constructor|]. destruct (qty_ x <=? leaves); [|intros [= <- <- <-]; apply Hf].
  destruct (fill_queue a (leaves - qty_ x) q) as [[l1 q1] e1] eqn:E. intros [= <- <- <-].
  apply Forall_app. split; [apply Hf|by eapply IH].
Qed.

Lemma spec_handle_answers cs r sp :
  (match r with NewOrder c _ _ _ _ _ | CancelOrder c _ _ => c ∈ cs end) →
  (∀ x, x ∈ ab_all (sp_book sp) → client_id_ x ∈ cs) → (∀ s, ∀ x, x ∈ ab_side (sp_book sp) s → x ∈ ab_all (sp_book sp)) →
  Forall (answers cs) (spec_handle r sp).2.
Proof.
  intros Hc Hx Hs. destruct r as [c o t s p q|c o t]; cbn [spec_handle].
  - unfold spec_add. set (a := mkAggressor _ _ _ _ _ _). destruct (fill_queue a q _) as [[l q2] evs] eqn:E.
    apply (fill_queue_answers cs) in E; [|done|]; [|apply Forall_forall; intros x Hin; by eapply Hx, Hs].
    destruct (l =? 0); cbn [snd]; apply Forall_cons; (split; [done|]); [done|]. apply Forall_app. split; [done|].
    by repeat constructor.
  - unfold spec_cancel. destruct (find_order _ _ _); by repeat constructor.
Qed.

Lemma plain_run_answers reqs :
  plain_run reqs →
  Forall (answers (req_client_id_ <$> reqs)) (engine_spec_run reqs (replicate (Z.to_nat ME_MAX_TICKERS) MESpec_new)).2.
Proof.
  apply (plain_run_ind reqs); [constructor|intros; by apply Forall_app|].
  intros past req rest r ob sp -> Hpl Ht Hm Hr Hv. apply spec_handle_answers.
  - unfold to_book_request in Hr. destruct (req_type_ req); simplify_eq; apply list_elem_of_fmap; exists req;
      (split; [done|]); apply elem_of_app; right; left.
  - intros x Hx. destruct (tracked_source past (req_ticker_id_ req) sp x Ht Hx) as (r' & Hin & _ & _ & E).
    injection E as E1 _ _. apply list_elem_of_fmap. exists r'. split; [done|]. apply elem_of_app. by left.
  - intros s x. unfold ab_all, ab_side. destruct (is_buy s); intros Hx; apply elem_of_app; [by left|by right].
Qed.

(** ** Zero sum *)

Definition fills_on (t : Z) (rs : list MEClientResponse) : list MEClientResponse :=
  filter (λ r, resp_type_ r = FILLED ∧ resp_ticker_id_ r = t) rs.

Lemma net_qty_app rs1 rs2 : net_qty (rs1 ++ rs2) = net_qty rs1 + net_qty rs2.
Proof. unfold net_qty. induction rs1 as [|r rs1 IH]; simpl; [done|]. rewrite IH. lia. Qed.

Lemma fills_on_app t rs1 rs2 : fills_on t (rs1 ++ rs2) = fills_on t rs1 ++ fills_on t rs2.
Proof. apply filter_app. Qed.

Definition balanced (t : Z) (evs : list event) : Prop := net_qty (fills_on t (privates evs)) = 0.

Lemma balanced_app t evs1 evs2 : balanced t evs1 → balanced t evs2 → balanced t (evs1 ++ evs2).
Proof. unfold balanced. intros H1 H2. rewrite privates_app, fills_on_app, net_qty_app. lia. Qed.

#[local] Transparent fill_events.

Lemma fill_events_balanced t a x fill leaves :
  proper_side (ag_side a) → side_ x = opposite (ag_side a) → balanced t (fill_events a x fill leaves).
Proof.
  intros Ha Hx. unfold balanced, fill_events, fills_on. cbn [privates omap list_omap].
  rewrite !filter_cons, filter_nil. cbn [resp_type_ resp_ticker_id_].
  destruct (decide _); [|done]. cbn [net_qty foldr]. unfold signed_qty. cbn [resp_side_ resp_exec_qty_].
  rewrite Hx. destruct Ha as [-> | ->]; change (opposite BUY) with SELL; change (opposite SELL) with BUY; cbn [sideToValue]; lia.
Qed.

#[local] Opaque fill_events.

Lemma fill_queue_balanced t a leaves q l q2 evs :
  proper_side (ag_side a) → (∀ x, x ∈ q → side_ x = opposite (ag_side a)) → fill_queue a leaves q = (l, q2, evs) →
  balanced t evs.
Proof.
  intros Ha. revert leaves l q2 evs. induction q as [|x q IH]; intros leaves l q2 evs Hx; simpl.
  { by intros [= <- <- <-]. }
  destruct (_ || _); [by intros [= <- <- <-]|]. pose proof (Hx x ltac:(left)) as Hs.
  destruct (qty_ x <=? leaves).
  - destruct (fill_queue a (leaves - qty_ x) q) as [[l1 q1] e1] eqn:E. intros [= <- <- <-].
    apply balanced_app; [by apply fill_events_balanced|]. eapply IH; [|exact E]. intros y Hy. apply Hx. by right.
  - intros [= <- <- <-]. by apply fill_events_balanced.
Qed.

(** On every ticker the fills of all clients cancel out. *)
Lemma plain_run_zero_sum t reqs :
  plain_run reqs → balanced t (engine_spec_run reqs (replicate (Z.to_nat ME_MAX_TICKERS) MESpec_new)).2.
Proof.
  apply (plain_run_ind reqs (balanced t)); [reflexivity|intros; by apply balanced_app|].
  intros past req rest r ob sp -> Hpl Ht (Hrep & _) Hr Hv. destruct r as [c o t' s p q|c o t']; cbn [spec_handle].
  - unfold spec_add. set (a := mkAggressor _ _ _ _ _ _). destruct (fill_queue a q _) as [[l q2] evs] eqn:E.
    destruct Hv as [[Hs _ _ _ _ _] _].
    assert (balanced t evs) as Hb.
    { apply (fill_queue_balanced t a q (ab_side (sp_book sp) (opposite s)) l q2 evs Hs); [|exact E]. intros x Hx. exact (rep_sides _ _ _ x Hrep (proper_opposite s) Hx). }
    destruct (l =? 0); cbn [snd]; [exact Hb|]. change (balanced t (evs ++ [Public (mkMEMarketUpdate MU_ADD (sp_next_id sp) t' s p l
      (next_priority p (ab_side (set_ab_side (sp_book sp) (opposite s) q2) s)))])).
    by apply balanced_app.
  - unfold spec_cancel. by destruct (find_order _ _ _).
Qed.
