(* ===== verification/Exchange.v ===== *)
(** * The exchange process.

    src/exchange/exchange_main.cpp: the three queues, the components that share
    them, and the threads.  A thread's turn runs on its component with the shared
    queues plugged in ([server_of], [engine_of], [publisher_of], [synthesizer_of])
    and puts them back; turns of the four threads interleave in any order, with
    the order server's turn cut in two because the matching engine runs between
    its halves.  (That a turn sees a queue as a list although producer and
    consumer run at the same time is what LFQueue.v shows.)

    [exchange_step] carries a history: the requests put on the engine's queue and
    those already processed, the responses handed to connections, and what each
    turn of the publisher sent on the incremental stream, or that its [send] failed
    and the buffer was dropped (mcast_socket.cpp).  [exchange_inv] relates it to the
    specification of the engine, and [exchange_inv_reachable] holds of every
    state that is reached without overflowing a queue, from books whose index arrays,
    which no constructor sets, start zeroed. *)

From stdpp Require Import strings gmap list sorting relations.
From S2P Require Import Prelude MemPool Types LFQueue Wire SocketUtils BookCore BookSpec BookRefine MEOrderBook MESpec MERefine MEInv MatchingEngine Requests OrderServer ServerStreams MarketData Mirror Snapshot System Double Position RunEvents.

Open Scope Z_scope.
Local Coercion Z.of_nat : nat >-> Z.

Record Exchange := mkExchange {
  client_requests : LFQueue MEClientRequest;
  client_responses : LFQueue MEClientResponse;
  market_updates : LFQueue MEMarketUpdate;
  snapshot_updates : LFQueue MDPMarketUpdate;
  matching_engine : MatchingEngine;
  market_data_publisher : MarketDataPublisher;
  snapshot_synthesizer : SynthesizerThread;
  order_server : OrderServer;
  tcp_server : TCPServer }.

(** The objects [main] creates.  [mem] is the memory the index arrays of the books
    lie in, [listener] the descriptor of the listening socket, [now] the clock when
    the synthesizer starts. *)
Definition exchange_new (mem : Z → IndexMemory (Z * Z)) (listener now : Z) : Exchange :=
  let client_requests := LFQueue_new ME_MAX_CLIENT_UPDATES in
  let client_responses := LFQueue_new ME_MAX_CLIENT_UPDATES in
  let market_updates := LFQueue_new ME_MAX_MARKET_UPDATES in
  let publisher := MarketDataPublisher_new market_updates in
  mkExchange client_requests client_responses market_updates (snapshot_md_updates_ publisher)
    (MatchingEngine_new mem client_requests (mkEngineQueues client_responses market_updates))
    publisher
    (mkSynthesizerThread SnapshotSynthesizer_new (snapshot_md_updates_ publisher) (McastSocket_new (Some 1)) now)
    (OrderServer_new client_requests client_responses)
    (mkTCPServer listener [] []).

(** [main] up to the idle loop: the sockets are created by the constructors of the
    publisher and the synthesizer and by [OrderServer::start]. *)
Definition exchange_main {K} `{!Kernel K} (mem : Z → IndexMemory (Z * Z)) (now : Z) : sysm K Exchange :=
  let! inc_fd := mcast_init "233.252.14.3"%string "lo0"%string 20001 false in
  let! _ := sassert (0 <=? inc_fd) in
  let! snap_fd := mcast_init "233.252.14.1"%string "lo0"%string 20000 false in
  let! _ := sassert (0 <=? snap_fd) in
  let! server := server_listen "lo0"%string 12345 TCPServer_new in
  sret (exchange_new mem (listener_socket_ server) now).

Lemma exchange_main_starts {K} `{!Kernel K} `{!KernelLaws K} mem now k :
  wp (exchange_main mem now) (λ x _, ∃ listener, x = exchange_new mem listener now) k.
Proof.
  unfold exchange_main, mcast_init, server_listen, tcp_connect.
  repeat first [wp_step | eapply wp_mono; [apply createSocket_spec|]; intros ? ? ?]. by eexists.
Qed.

(** ** Components on the shared queues *)

Definition server_of (x : Exchange) : OrderServer :=
  let os := order_server x in
  mkOrderServer (cid_next_outgoing_seq_num_ os) (cid_next_exp_seq_num_ os) (cid_tcp_socket_ os) (sockets_ os)
    (pending_client_requests_ os) (client_requests x) (client_responses x).

Definition put_server (os : OrderServer) (srv : TCPServer) (x : Exchange) : Exchange :=
  mkExchange (os_incoming_requests_ os) (outgoing_responses_ os) (market_updates x) (snapshot_updates x)
    (matching_engine x) (market_data_publisher x) (snapshot_synthesizer x) os srv.

Definition engine_of (x : Exchange) : MatchingEngine :=
  mkMatchingEngine (ticker_order_book_ (matching_engine x)) (client_requests x)
    (mkEngineQueues (client_responses x) (market_updates x)).

Definition put_engine (me : MatchingEngine) (x : Exchange) : Exchange :=
  mkExchange (incoming_requests_ me) (outgoing_ogw_responses_ (engine_queues me)) (outgoing_md_updates_ (engine_queues me))
    (snapshot_updates x) me (market_data_publisher x) (snapshot_synthesizer x) (order_server x) (tcp_server x).

Definition publisher_of (x : Exchange) : MarketDataPublisher :=
  mkPublisher (next_inc_seq_num_ (market_data_publisher x)) (market_updates x) (snapshot_updates x)
    (incremental_socket_ (market_data_publisher x)).

Definition put_publisher (p : MarketDataPublisher) (x : Exchange) : Exchange :=
  mkExchange (client_requests x) (client_responses x) (pub_outgoing_md_updates_ p) (snapshot_md_updates_ p)
    (matching_engine x) p (snapshot_synthesizer x) (order_server x) (tcp_server x).

Definition synthesizer_of (x : Exchange) : SynthesizerThread :=
  let th := snapshot_synthesizer x in
  mkSynthesizerThread (syn_state th) (snapshot_updates x) (snapshot_socket_ th) (last_snapshot_time_ th).

Definition put_synthesizer (th : SynthesizerThread) (x : Exchange) : Exchange :=
  mkExchange (client_requests x) (client_responses x) (market_updates x) (syn_queue th)
    (matching_engine x) (market_data_publisher x) th (order_server x) (tcp_server x).

(** ** Turns of the threads *)

Section Turns.
Context `{SORT : StdSort}.

(** [poll] and [sendAndRecv]: [accepted] are the connections [poll] accepts (their
    descriptors are appended, SocketUtils.v), [io] is what the kernel does for
    each connection. *)
Definition receive_turn (accepted : list Z) (io : Z → bytes * Z * Z) (x : Exchange)
    : result (list MEClientRequest * list socket_report * Exchange) :=
  let s := tcp_server x in
  let s := mkTCPServer (listener_socket_ s) (receive_sockets_ s ++ accepted) (send_sockets_ s ++ accepted) in
  let ios := (λ fd, let '(avail, time, sent) := io fd in mkSocketIO fd avail time sent) <$> receive_sockets_ s in
  let* (any_rx, reports, os) := sockets_round ios false (server_of x) in
  let batch := if any_rx then request_ <$> std_sort recv_time_lt (pending_client_requests_ os) else [] in
  Ok (batch, reports, put_server (if any_rx then recvFinishedCallback os else os) s x).

(** The response loop of [OrderServer::run]. *)
Definition respond_turn (x : Exchange) : result Exchange :=
  let* os := drain_responses (Z.to_nat (q_size (client_responses x))) (server_of x) in
  Ok (put_server os (tcp_server x) x).

Definition match_turn (x : Exchange) : result Exchange :=
  let* me := engine_turn (engine_of x) in Ok (put_engine me x).

Definition publish_turn (n : Z) (x : Exchange) : result (bytes * Exchange) :=
  let* (sent, p) := publisher_turn n (publisher_of x) in Ok (sent, put_publisher p x).

Definition snapshot_turn (accept : bytes → Z) (now1 now2 : Z) (x : Exchange) : result (list bytes * Exchange) :=
  let* (sent, th) := synthesizer_turn accept now1 now2 (synthesizer_of x) in Ok (sent, put_synthesizer th x).

(** ** Runs *)

(** [h_sends] has an entry for every turn of the publisher: the bytes the kernel
    took, or [None] for a failed [send], which drops the send buffer. *)
Record history := mkHistory {
  h_log : list MEClientRequest;
  h_done : list MEClientRequest;
  h_answered : list MEClientResponse;
  h_sends : list (option bytes);
  h_moved : list socket_report }.

Definition no_history : history := mkHistory [] [] [] [] [].

(** The messages the engine sends for the requests processed so far. *)
Definition h_events (h : history) : list event := (engine_spec_run (h_done h) fresh_books).2.
Definition h_books (h : history) : list MESpec := (engine_spec_run (h_done h) fresh_books).1.

(** The incremental stream up to the first failed [send]. *)
Fixpoint before_loss (sends : list (option bytes)) : bytes :=
  match sends with
  | Some sent :: sends => sent ++ before_loss sends
  | _ => []
  end.

(** The publisher has something to send and the kernel takes nothing. *)
Definition send_failed (n : Z) (x : Exchange) : bool :=
  (n <=? 0) && (bool_decide (mc_outbound (incremental_socket_ (market_data_publisher x)) ≠ []) || (0 <? size_ (market_updates x))).

Inductive exchange_step : history * Exchange → history * Exchange → Prop :=
| step_receive accepted io batch reports h x x' :
    receive_turn accepted io x = Ok (batch, reports, x') → room_for (client_requests x) (length batch) →
    exchange_step (h, x) (mkHistory (h_log h ++ batch) (h_done h) (h_answered h) (h_sends h) (h_moved h ++ reports), x')
| step_respond rs h x x' :
    respond_turn x = Ok x' → lfq_rep (client_responses x) rs →
    exchange_step (h, x) (mkHistory (h_log h) (h_done h) (h_answered h ++ rs) (h_sends h) (h_moved h), x')
| step_match req h x x' :
    getNextToRead (client_requests x) = Some req → match_turn x = Ok x' →
    room_for (client_responses x) (length (privates (engine_spec req (h_books h)).2)) →
    room_for (market_updates x) (length (publics (engine_spec req (h_books h)).2)) →
    exchange_step (h, x) (mkHistory (h_log h) (h_done h ++ [req]) (h_answered h) (h_sends h) (h_moved h), x')
| step_publish n sent h x x' :
    publish_turn n x = Ok (sent, x') → room_for (snapshot_updates x) (Z.to_nat (size_ (market_updates x))) →
    length (mc_outbound (incremental_socket_ (market_data_publisher x))) + 42 * size_ (market_updates x) ≤ McastBufferSize →
    next_inc_seq_num_ (market_data_publisher x) + size_ (market_updates x) < 2 ^ 64 →
    exchange_step (h, x) (mkHistory (h_log h) (h_done h) (h_answered h)
      (h_sends h ++ [if send_failed n x then None else Some sent]) (h_moved h), x')
| step_snapshot accept now1 now2 sent h x x' :
    snapshot_turn accept now1 now2 x = Ok (sent, x') → exchange_step (h, x) (h, x').
End Turns.

(** ** Histories *)

Lemma engine_spec_run_app reqs1 reqs2 sps :
  engine_spec_run (reqs1 ++ reqs2) sps
  = ((engine_spec_run reqs2 (engine_spec_run reqs1 sps).1).1,
     (engine_spec_run reqs1 sps).2 ++ (engine_spec_run reqs2 (engine_spec_run reqs1 sps).1).2).
Proof.
  revert sps. induction reqs1 as [|req reqs1 IH]; intros sps; cbn [app engine_spec_run fst snd]; [by destruct (engine_spec_run reqs2 sps)|].
  destruct (engine_spec req sps) as [sps1 ev1]. rewrite IH. destruct (engine_spec_run reqs1 sps1) as [sps2 ev2]. cbn [fst snd].
  by rewrite (assoc_L (++)).
Qed.

Lemma valid_engine_run_app reqs1 reqs2 sps :
  valid_engine_run (reqs1 ++ reqs2) sps → valid_engine_run reqs2 (engine_spec_run reqs1 sps).1.
Proof.
  revert sps. induction reqs1 as [|req reqs1 IH]; intros sps; [done|]. intros [_ Hv]. cbn [engine_spec_run].
  specialize (IH _ Hv). destruct (engine_spec req sps) as [sps1 ev1]. cbn [fst] in *. by destruct (engine_spec_run reqs1 sps1).
Qed.

Lemma plain_run_prefix reqs1 reqs2 : plain_run (reqs1 ++ reqs2) → plain_run reqs1.
Proof.
  intros [H1 H2 H3]. apply Forall_app in H1 as [H1 _]. rewrite new_keys_app in H2, H3. apply NoDup_app in H2 as [H2 _].
  rewrite length_app in H3. split; [done|done|lia].
Qed.

(** ** The order server between its queues *)

(** More turns than needed change nothing. *)
Lemma drain_responses_more n m os os' : drain_responses n os = Ok os' → (n ≤ m)%nat → drain_responses m os = Ok os'.
Proof.
  revert m os. induction n as [|n IH]; intros m os; cbn [drain_responses].
  - destruct (getNextToRead _) eqn:E; [done|]. intros [= <-] _. destruct m; cbn [drain_responses]; by rewrite E.
  - destruct (getNextToRead _) eqn:E.
    + intros (os1 & H1 & H2)%bind_ok Hm. destruct m as [|m]; [lia|]. cbn [drain_responses]. rewrite E, H1. cbn [rbind]. apply IH; [done|lia].
    + intros [= <-] _. destruct m; cbn [drain_responses]; by rewrite E.
Qed.

Lemma server_of_put os srv x : server_of (put_server os srv x) = os.
Proof. by destruct os. Qed.

Lemma server_inv_queues log answered reps x x' :
  order_server x' = order_server x → server_inv log answered reps (server_of x) → server_inv log answered reps (server_of x').
Proof. intros E [H1 H2 H3 H4 H5]. unfold server_of in *. rewrite E. by split. Qed.

(** ** The invariant *)

Section Invariant.
Context `{SORT : StdSort}.

(** The synthesizer has applied [applied] updates. *)
Record exchange_inv (h : history) (x : Exchange) : Prop := {
  xi_requests : ∃ todo, h_log h = h_done h ++ todo ∧ lfq_rep (client_requests x) todo;
  xi_books : books_rep (ticker_order_book_ (matching_engine x)) (h_books h);
  xi_responses : ∃ rs, privates (h_events h) = h_answered h ++ rs ∧ lfq_rep (client_responses x) rs;
  xi_feed : ∃ published us, publics (h_events h) = published ++ us ∧ lfq_rep (market_updates x) us
    ∧ (∃ left, Forall2 (λ send bs, send = None ∨ send = Some bs) (h_sends h) left
         ∧ concat left ++ mc_outbound (incremental_socket_ (market_data_publisher x)) = concat (encode <$> number_updates 1 published))
    ∧ next_inc_seq_num_ (market_data_publisher x) = 1 + length published
    ∧ ∃ applied waiting, number_updates 1 published = applied ++ waiting ∧ lfq_rep (snapshot_updates x) waiting
        ∧ add_all_to_snapshot applied SnapshotSynthesizer_new = Ok (syn_state (snapshot_synthesizer x));
  xi_server : server_inv (staged (h_log h) (server_of x)) (h_answered h) (h_moved h) (server_of x) }.

Lemma exchange_inv_new mem listener now :
  all_zeroed mem → exchange_inv no_history (exchange_new mem listener now).
Proof.
  intros Hz. split; [|by apply books_rep_new| | |apply server_inv_new].
  - exists []. split; [done|by apply lfq_rep_new].
  - exists []. split; [done|by apply lfq_rep_new].
  - exists [], []. split_and!; [done|by apply lfq_rep_new|by exists []|done|]. exists [], []. split_and!; [done|by apply lfq_rep_new|done].
Qed.

Lemma sequenceAndPublish_eq pending q :
  sequenceAndPublish pending q = ([], enqueue_all (request_ <$> std_sort recv_time_lt pending) q).
Proof.
  destruct pending as [|y pending]; [|done]. pose proof (proj1 (std_sort_requests [])) as Hp. apply Permutation_nil_r in Hp. by rewrite Hp.
Qed.

Lemma receive_inv accepted io batch reports h x x' :
  exchange_inv h x → receive_turn accepted io x = Ok (batch, reports, x') → room_for (client_requests x) (length batch) →
  exchange_inv (mkHistory (h_log h ++ batch) (h_done h) (h_answered h) (h_sends h) (h_moved h ++ reports)) x'.
Proof.
  intros [(todo & Hlog & Hq) Hb Hr Hf Hs] Ht Hroom. unfold receive_turn in Ht.
  apply bind_ok in Ht as ([[any reps] os] & Hrnd & Ht). injection Ht as <- <- <-.
  destruct (sockets_round_run _ _ _ _ _ _ _ _ _ Hrnd Hs) as [Hs' [R1 R2 _ _]].
  cbn [server_of os_incoming_requests_ outgoing_responses_] in R1, R2. destruct any.
  - unfold recvFinishedCallback. rewrite sequenceAndPublish_eq. set (batch := request_ <$> std_sort recv_time_lt (pending_client_requests_ os)) in *.
    destruct (lfq_rep_size _ _ Hq) as [Hs1 _]. unfold room_for in Hroom. rewrite Hs1 in Hroom. split; [|exact Hb| |exact Hf|].
    + exists (todo ++ batch). cbn [h_log h_done put_server client_requests os_incoming_requests_]. rewrite R1, Hlog, (assoc_L (++)).
      split; [done|]. by apply enqueue_all_ok.
    + cbn [put_server client_responses outgoing_responses_]. by rewrite R2.
    + rewrite server_of_put. cbn [h_log h_answered h_moved]. destruct Hs' as [S1 S2 S3 S4 S5]. split; [|done..].
      eapply accept_inv_proper; [done| |exact S1]. unfold staged. cbn [pending_client_requests_]. rewrite app_nil_r.
      unfold batch. by rewrite (proj1 (std_sort_requests (pending_client_requests_ os))).
  - rewrite app_nil_r. split; [|exact Hb| |exact Hf|by rewrite server_of_put].
    + exists todo. cbn [put_server client_requests]. by rewrite R1.
    + cbn [put_server client_responses]. by rewrite R2.
Qed.

Lemma respond_inv rs h x x' :
  exchange_inv h x → respond_turn x = Ok x' → lfq_rep (client_responses x) rs →
  exchange_inv (mkHistory (h_log h) (h_done h) (h_answered h ++ rs) (h_sends h) (h_moved h)) x'.
Proof.
  intros [Hq Hb (rs' & Hr & Hrq) Hf Hs] (os & Hd & [= <-])%bind_ok Hrs.
  assert (rs' = rs) as -> by (by eapply lfq_rep_det).
  destruct (drain_responses_run rs _ _ _ _ (server_of x) os Hrs Hd Hs) as (Hs' & D1 & D3 & D5 & _).
  cbn [server_of os_incoming_requests_ pending_client_requests_] in *.
  split; [|exact Hb| |exact Hf|]; cbn [put_server client_requests client_responses h_log h_answered h_moved].
  - by rewrite D3.
  - exists []. rewrite app_nil_r. split; [exact Hr|done].
  - rewrite server_of_put. unfold staged in *. rewrite D5. exact Hs'.
Qed.

Lemma h_books_snoc h req log ans feed moved :
  h_books (mkHistory log (h_done h ++ [req]) ans feed moved) = (engine_spec req (h_books h)).1
  ∧ h_events (mkHistory log (h_done h ++ [req]) ans feed moved) = h_events h ++ (engine_spec req (h_books h)).2.
Proof.
  unfold h_books, h_events. cbn [h_done]. rewrite engine_spec_run_app. cbn [fst snd engine_spec_run].
  destruct (engine_spec req _) as [sps ev]. cbn [fst snd]. by rewrite app_nil_r.
Qed.

(** A turn of the matching engine on a waiting plain request. *)
Lemma match_turn_ok req h x :
  exchange_inv h x → plain_run (h_log h) → getNextToRead (client_requests x) = Some req →
  room_for (client_responses x) (length (privates (engine_spec req (h_books h)).2)) →
  room_for (market_updates x) (length (publics (engine_spec req (h_books h)).2)) →
  ∃ x', match_turn x = Ok x' ∧ exchange_inv (mkHistory (h_log h) (h_done h ++ [req]) (h_answered h) (h_sends h) (h_moved h)) x'.
Proof.
  intros [(todo & Hlog & Hq) Hb (rs & Hr & Hrq) (pub & us & Hpu & Huq & Hfeed & Hnum & Hsyn) Hsv] Hpl Hn Hr1 Hr2.
  rewrite (getNextToRead_ok _ _ Hq) in Hn. destruct todo as [|req' todo]; [done|]. injection Hn as ->.
  assert (valid_engine_request req (h_books h)) as Hv.
  { pose proof (plain_run_valid _ Hpl) as Hv. rewrite Hlog in Hv. apply valid_engine_run_app in Hv as [Hv _]. exact Hv. }
  destruct (processClientRequest_ok req (engine_of x) (h_books h) Hb Hv) as (me1 & Ep & Hb1 & Ei & Ee).
  destruct (updateReadIndex_ok _ _ _ Hq) as (q' & Eq & Hq' & _).
  unfold room_for in Hr1, Hr2. rewrite (proj1 (lfq_rep_size _ _ Hrq)) in Hr1. rewrite (proj1 (lfq_rep_size _ _ Huq)) in Hr2.
  destruct (emit_all_out (engine_spec req (h_books h)).2 (engine_queues (engine_of x)) rs us) as ([Ho1 Ho2] & _);
    [by split|by split|]. rewrite <- Ee in Ho1, Ho2.
  unfold match_turn, engine_turn. cbn [engine_of incoming_requests_]. rewrite (getNextToRead_ok _ _ Hq). cbn [head].
  rewrite Ep. cbn [rbind]. rewrite Ei. cbn [engine_of incoming_requests_]. rewrite Eq. cbn [rbind]. eexists. split; [done|].
  destruct (h_books_snoc h req (h_log h) (h_answered h) (h_sends h) (h_moved h)) as [Hbs Hes].
  split; [|rewrite Hbs; exact Hb1| | |by eapply (server_inv_queues _ _ _ x)].
  - exists todo. cbn [h_log h_done put_engine client_requests incoming_requests_]. rewrite <- (assoc_L (++)). done.
  - exists (rs ++ privates (engine_spec req (h_books h)).2). rewrite Hes, privates_app, Hr. cbn [h_answered].
    rewrite <- (assoc_L (++)). done.
  - exists pub, (us ++ publics (engine_spec req (h_books h)).2). rewrite Hes, publics_app, Hpu, <- (assoc_L (++)). done.
Qed.

(** What leaves the send buffer is what the kernel took, unless the [send] failed. *)
Lemma mcast_flush_stream n s :
  let '(sent, s') := mcast_flush n s in
  ∃ left, left ++ mc_outbound s' = mc_outbound s ∧ (sent = left ∨ (n ≤ 0 ∧ mc_outbound s ≠ [])).
Proof.
  unfold mcast_flush. destruct (mc_outbound s) as [|c out] eqn:E; [exists []; by rewrite E; auto|].
  destruct (Z.ltb_spec 0 n); cbn [mc_outbound].
  - eexists. split; [apply take_drop|by left].
  - exists (c :: out). split; [apply app_nil_r|by right].
Qed.

Lemma publish_turn_ok n h x :
  exchange_inv h x → room_for (snapshot_updates x) (Z.to_nat (size_ (market_updates x))) →
  length (mc_outbound (incremental_socket_ (market_data_publisher x))) + 42 * size_ (market_updates x) ≤ McastBufferSize →
  next_inc_seq_num_ (market_data_publisher x) + size_ (market_updates x) < 2 ^ 64 →
  ∃ sent x', publish_turn n x = Ok (sent, x')
    ∧ exchange_inv (mkHistory (h_log h) (h_done h) (h_answered h)
        (h_sends h ++ [if send_failed n x then None else Some sent]) (h_moved h)) x'.
Proof.
  intros [Hq Hb Hr (pub & us & Hpu & Huq & (lefts & Hlefts & Hfeed) & Hnum & app & wait & Happ & Hsq & Hst) Hsv] Hroom Hbuf Hlt.
  unfold room_for in Hroom. rewrite (proj1 (lfq_rep_size _ _ Huq)) in *. rewrite (proj1 (lfq_rep_size _ _ Hsq)) in Hroom.
  rewrite Nat2Z.id in Hroom. unfold publish_turn, publisher_turn.
  destruct (publish_all_ok us (Z.to_nat (q_size (market_updates x))) (publisher_of x) wait) as (p' & Ep & Hq' & Hs' & Hn' & Ho');
    cbn [publisher_of pub_outgoing_md_updates_ snapshot_md_updates_ incremental_socket_ next_inc_seq_num_]; try done; [lia| |].
  { pose proof (lfq_rep_size _ _ Huq). lia. }
  cbn [publisher_of pub_outgoing_md_updates_ snapshot_md_updates_ incremental_socket_ next_inc_seq_num_] in *.
  rewrite Ep. cbn [rbind]. pose proof (mcast_flush_stream n (incremental_socket_ p')) as Hfl.
  destruct (mcast_flush n (incremental_socket_ p')) as [sent s'].
  destruct Hfl as (left & Hfl & Hsent). cbn [rbind]. eexists sent, _. split; [done|].
  split; [exact Hq|exact Hb|exact Hr| |by eapply (server_inv_queues _ _ _ x)]. exists (pub ++ us), [].
  cbn [put_publisher market_updates market_data_publisher snapshot_updates incremental_socket_ next_inc_seq_num_
       pub_outgoing_md_updates_ snapshot_md_updates_ h_sends snapshot_synthesizer].
  rewrite app_nil_r, number_updates_app, <- Hnum. split_and!; [exact Hpu|done| | |].
  - exists (lefts ++ [left]). split.
    + apply Forall2_app; [exact Hlefts|]. apply Forall2_cons. split; [|constructor]. destruct (send_failed n x) eqn:Ef; [by left|right].
      destruct Hsent as [->|[Hn Hne]]; [done|]. exfalso. unfold send_failed in Ef. rewrite (proj2 (Z.leb_le _ _) Hn) in Ef.
      apply orb_false_iff in Ef as [E1%bool_decide_eq_false E2%Z.ltb_ge]. apply Hne. rewrite Ho'.
      rewrite (proj1 (lfq_rep_size _ _ Huq)) in E2. destruct us; [|cbn [length] in E2; lia]. rewrite app_nil_r. by apply dec_stable.
    + rewrite concat_app. cbn [concat]. rewrite app_nil_r, <- (assoc_L (++)), Hfl, Ho', (assoc_L (++)), Hfeed, fmap_app, concat_app. done.
  - rewrite Hn', Hnum, length_app. lia.
  - exists app, (wait ++ number_updates (next_inc_seq_num_ (market_data_publisher x)) us). rewrite Happ, <- (assoc_L (++)). done.
Qed.

Lemma synthesizer_drain_inv us n q s q' s' :
  lfq_rep q us → synthesizer_drain n q s = Ok (q', s') → add_all_to_snapshot us s = Ok s' ∧ lfq_rep q' [].
Proof.
  revert n q s. induction us as [|u us IH]; intros n q s Hq.
  { destruct n; cbn [synthesizer_drain]; rewrite (getNextToRead_ok _ _ Hq); by intros [= <- <-]. }
  destruct n as [|n]; cbn [synthesizer_drain]; rewrite (getNextToRead_ok _ _ Hq); [done|]. cbn [head add_all_to_snapshot].
  intros (s1 & -> & H)%bind_ok. destruct (updateReadIndex_ok _ _ _ Hq) as (q1 & Eq & Hq1 & _). rewrite Eq in H. by eapply IH.
Qed.

Lemma snapshot_inv accept now1 now2 sent h x x' :
  exchange_inv h x → snapshot_turn accept now1 now2 x = Ok (sent, x') → exchange_inv h x'.
Proof.
  intros [Hq Hb Hr (pub & us & Hpu & Huq & Hfeed & Hnum & app & wait & Happ & Hsq & Hst) Hsv].
  intros ([out th] & Ht & [= _ <-])%bind_ok. apply bind_ok in Ht as ([q s] & Hd & Ht).
  destruct (synthesizer_drain_inv wait _ _ _ _ _ Hsq Hd) as [Hadd Hq'].
  assert (syn_state th = s ∧ syn_queue th = q) as [Es Eq'].
  { destruct (snapshot_due _ _); [apply bind_ok in Ht as ([o k] & _ & [= _ <-])|injection Ht as _ <-]; done. }
  split; [exact Hq|exact Hb|exact Hr| |by eapply (server_inv_queues _ _ _ x)]. exists pub, us. split_and!; [done..|].
  exists (app ++ wait), []. rewrite app_nil_r. cbn [put_synthesizer snapshot_updates snapshot_synthesizer]. rewrite Es, Eq'.
  split_and!; [done..|]. rewrite add_all_to_snapshot_app, Hst. exact Hadd.
Qed.

(** The synthesizer takes whatever is waiting for it, and publishes its snapshot if
    one is due, whatever the kernel takes of it. *)
Lemma snapshot_turn_ok accept now1 now2 h x :
  exchange_inv h x → plain_run (h_log h) → 1 + length (h_done h) < ME_MAX_ORDER_IDS →
  length (publics (h_events h)) < ME_MAX_ORDER_IDS →
  length (mc_outbound (snapshot_socket_ (snapshot_synthesizer x))) + 42 * (2 + ME_MAX_TICKERS + length (publics (h_events h)))
    ≤ McastBufferSize →
  ∃ sent x', snapshot_turn accept now1 now2 x = Ok (sent, x').
Proof.
  intros [(todo & Hlog & _) _ _ (pub & us & Hpu & _ & _ & _ & app & wait & Happ & Hsq & Hst) _] Hpl Hd Hl Hbuf.
  rewrite Hlog in Hpl. apply plain_run_prefix in Hpl.
  destruct (fresh_synthesizer (h_done h)) as (s & Es & _); [by apply plain_run_valid|by apply plain_tickers|done|done|].
  unfold h_events in Hpu. rewrite Hpu, number_updates_app, Happ, !add_all_to_snapshot_app, Hst in Es. cbn [rbind] in Es.
  apply bind_ok in Es as (s1 & Es & _).
  destruct (synthesizer_drain_ok wait (Z.to_nat (q_size (snapshot_updates x))) (snapshot_updates x)
    (syn_state (snapshot_synthesizer x)) s1 Hsq) as (q' & Ed & _); [|done|].
  { pose proof (lfq_rep_size _ _ Hsq). lia. }
  unfold snapshot_turn, synthesizer_turn. cbn [synthesizer_of syn_queue syn_state last_snapshot_time_]. rewrite Ed. cbn [rbind].
  destruct (snapshot_due _ _); [|by do 2 eexists].
  assert (add_all_to_snapshot (app ++ wait) SnapshotSynthesizer_new = Ok s1) as Hs1 by (by rewrite add_all_to_snapshot_app, Hst).
  apply add_all_to_snapshot_size in Hs1. rewrite <- Happ, length_number_updates in Hs1. cbn [ticker_orders_ SnapshotSynthesizer_new] in Hs1.
  rewrite map_size_empty in Hs1. pose proof (length_snapshot_frames s1) as Hf.
  assert (length pub ≤ length (publics (h_events h)))%nat by (unfold h_events; rewrite Hpu, length_app; lia).
  destruct (send_frames_total accept 0 (snapshot_frames s1) (snapshot_socket_ (snapshot_synthesizer x))) as [[out sock] Es1]; [lia|].
  unfold publishSnapshot. cbn [synthesizer_of snapshot_socket_]. rewrite Es1. by do 2 eexists.
Qed.

Lemma exchange_step_inv h x h' x' :
  exchange_step (h, x) (h', x') → plain_run (h_log h') → exchange_inv h x → exchange_inv h' x'.
Proof.
  intros Hs Hpl Hi. inversion Hs; subst; clear Hs.
  - by eapply receive_inv.
  - by eapply respond_inv.
  - destruct (match_turn_ok req h x Hi) as (x2 & E & Hx); try done. congruence.
  - destruct (publish_turn_ok n h x Hi) as (sent2 & x2 & E & Hx); try done.
    match goal with H : publish_turn n x = Ok (_, x') |- _ => rewrite H in E end. injection E as <- <-. exact Hx.
  - by eapply snapshot_inv.
Qed.

Lemma exchange_step_log h x h' x' : exchange_step (h, x) (h', x') → ∃ batch, h_log h' = h_log h ++ batch.
Proof. inversion 1; subst; [by eexists|exists []; by rewrite app_nil_r..]. Qed.

Lemma exchange_inv_reachable mem listener now h x :
  all_zeroed mem → rtc exchange_step (no_history, exchange_new mem listener now) (h, x) → plain_run (h_log h) → exchange_inv h x.
Proof.
  intros Hz Hr. cut (∀ y, rtc exchange_step (no_history, exchange_new mem listener now) y →
    plain_run (h_log y.1) → exchange_inv y.1 y.2); [intros H; exact (H (h, x) Hr)|].
  apply (rtc_ind_r (R := exchange_step) (λ y, plain_run (h_log y.1) → exchange_inv y.1 y.2)); [intros _; by apply exchange_inv_new|]. intros [h1 x1] [h2 x2] _ Hs IH Hpl. cbn [fst snd] in *.
  eapply exchange_step_inv; [exact Hs|exact Hpl|]. apply IH. destruct (exchange_step_log _ _ _ _ Hs) as [b Hb].
  rewrite Hb in Hpl. by eapply plain_run_prefix.
Qed.

(** A round over the connections succeeds as long as the client ids it reads are in
    range and the batch has room for the requests. *)
Definition round_ios (accepted : list Z) (io : Z → bytes * Z * Z) (x : Exchange) : list socket_io :=
  (λ fd, let '(avail, time, sent) := io fd in mkSocketIO fd avail time sent) <$> receive_sockets_ (tcp_server x) ++ accepted.

Lemma receive_turn_ok accepted io x :
  NoDup (receive_sockets_ (tcp_server x) ++ accepted) →
  Forall id_in_range (round_ios accepted io x ≫= completed_on (server_of x)) →
  length (pending_client_requests_ (order_server x)) + length (round_ios accepted io x ≫= completed_on (server_of x))
    ≤ ME_MAX_PENDING_REQUESTS →
  ∃ batch reports x', receive_turn accepted io x = Ok (batch, reports, x').
Proof.
  intros Hnd Hr Hl. unfold receive_turn. cbn [receive_sockets_]. fold (round_ios accepted io x).
  destruct (sockets_round_ok (round_ios accepted io x) false (server_of x)) as [[[any reps] os] ->]; [|done|done|by do 3 eexists].
  unfold round_ios. rewrite <- list_fmap_compose. erewrite list_fmap_ext; [by rewrite list_fmap_id|].
  intros i fd _. cbn. by destruct (io fd) as [[? ?] ?].
Qed.

(** Every waiting response has a connection to go to. *)
Lemma waiting_bound h x r :
  exchange_inv h x → plain_run (h_log h) → r ∈ privates (h_events h) → bound (server_of x) (resp_client_id_ r).
Proof.
  intros [(todo & Hlog & _) _ _ _ Hsv] Hpl Hr. pose proof (server_inv_bound _ _ _ _ Hsv) as Hbd. rewrite Hlog in Hpl. apply plain_run_prefix in Hpl.
  pose proof (plain_run_answers _ Hpl) as Ha. fold fresh_books in Ha. unfold h_events, privates in Hr.
  apply list_elem_of_omap in Hr as ([r'|u] & Hin & E); [|done]. injection E as ->.
  rewrite Forall_forall in Ha. specialize (Ha _ Hin). cbn [answers] in Ha. apply list_elem_of_fmap in Ha as (req & -> & Hreq).
  rewrite Forall_forall in Hbd. apply Hbd. unfold staged. rewrite Hlog, !elem_of_app. by do 2 left.
Qed.

Lemma respond_turn_ok h x rs :
  exchange_inv h x → plain_run (h_log h) → lfq_rep (client_responses x) rs →
  (∀ fd, length (outbound_data_ (socket_of (server_of x) fd)) + 50 * length rs ≤ TCPBufferSize) →
  ∃ x', respond_turn x = Ok x'.
Proof.
  intros Hi Hpl Hq Hl. unfold respond_turn.
  destruct (drain_responses_ok rs (server_of x) Hq) as (os' & Ed & _); [|done|].
  - destruct (xi_responses _ _ Hi) as (rs' & Hr & Hrq). assert (rs' = rs) as -> by (by eapply lfq_rep_det).
    apply Forall_forall. intros r Hin. eapply (waiting_bound h x r); [done|done|]. rewrite Hr. apply elem_of_app. by right.
  - rewrite (drain_responses_more (length rs) (Z.to_nat (q_size (client_responses x))) _ os' Ed); [by eexists|].
    pose proof (lfq_rep_size _ _ Hq). lia.
Qed.
End Invariant.
