(* ===== verification/OrderManager.v ===== *)
(** * Orders, risk checks and the trade engine's order handling.

    [Trading::OMOrder] (src/trading/strategy/om_order.h), [RiskInfo] and
    [RiskManager] (risk_manager.{h,cpp}), [OrderManager] (order_manager.{h,cpp})
    and the order half of [TradeEngine] (trade_engine.cpp).  The risk manager
    points into the position keeper, so its check reads the keeper's state.
    [trader_inv]: at most one order per ticker and side is working, and the
    position plus everything working on a side stays within the limit. *)

From stdpp Require Import numbers gmap sorting relations list.
From S2P Require Import Prelude Types MemPool LFQueue BookSpec MarketOrderBook MatchingEngine Double Position.

Open Scope Z_scope.

(** ** src/trading/strategy/om_order.h *)

Inductive OMOrderState := OM_INVALID | PENDING_NEW | LIVE | PENDING_CANCEL | DEAD.

#[export] Instance OMOrderState_eq_dec : EqDecision OMOrderState.
Proof. solve_decision. Defined.

Record OMOrder := mkOMOrder {
  om_ticker_id_ : Z;
  om_order_id_ : Z;
  om_side_ : Side;
  om_price_ : Z;
  om_qty_ : Z;
  order_state_ : OMOrderState }.

Definition OMOrder_default : OMOrder :=
  mkOMOrder TickerId_INVALID OrderId_INVALID Side_INVALID Price_INVALID Qty_INVALID OM_INVALID.

Definition set_state (st : OMOrderState) (o : OMOrder) : OMOrder :=
  mkOMOrder (om_ticker_id_ o) (om_order_id_ o) (om_side_ o) (om_price_ o) (om_qty_ o) st.

Definition set_om_qty (q : Z) (o : OMOrder) : OMOrder :=
  mkOMOrder (om_ticker_id_ o) (om_order_id_ o) (om_side_ o) (om_price_ o) q (order_state_ o).

(** ** src/trading/strategy/risk_manager.h *)

Inductive RiskCheckResult := Risk_INVALID | ORDER_TOO_LARGE | POSITION_TOO_LARGE | LOSS_TOO_LARGE | ALLOWED.

#[export] Instance RiskCheckResult_eq_dec : EqDecision RiskCheckResult.
Proof. solve_decision. Defined.

Record RiskCfg (F : Type) := mkRiskCfg { max_order_size_ : Z; max_position_ : Z; max_loss_ : F }.
Arguments mkRiskCfg {F} _ _ _.
Arguments max_order_size_ {F} _.
Arguments max_position_ {F} _.
Arguments max_loss_ {F} _.

(** The requests of the trade engine go to a queue. *)
Class RequestSink (E : Type) := sendClientRequest_to : MEClientRequest → E → E.

#[export] Instance LFQueue_request_sink : RequestSink (LFQueue MEClientRequest) := λ r q, enqueue r q.

#[export] Instance list_request_sink : RequestSink (list MEClientRequest) := λ r l, l ++ [r].

Definition send_all {E} `{!RequestSink E} (rs : list MEClientRequest) (e : E) : E :=
  foldl (λ e r, sendClientRequest_to r e) e rs.

Section Trading.
Context {F : Type} `{!Double F} {E : Type} `{!RequestSink E}.

(** [RiskInfo::checkPreTradeRisk] *)
Definition checkPreTradeRisk (cfg : RiskCfg F) (p : PositionInfo F) (side : Side) (qty : Z)
    : result RiskCheckResult :=
  if max_order_size_ cfg <? qty then Ok ORDER_TOO_LARGE else
  let* delta := int32 (sideToValue side * i32 qty) in
  let* sum := int32 (position_ p + delta) in
  let* exposure := int32 (Z.abs sum) in
  if i32 (max_position_ cfg) <? exposure then Ok POSITION_TOO_LARGE else
  if (total_pnl_ p <? max_loss_ cfg)%D then Ok LOSS_TOO_LARGE else
  Ok ALLOWED.

(** [RiskManager::checkPreTradeRisk] on the shared positions. *)
Definition risk_manager_check (cfgs : list (RiskCfg F)) (k : PositionKeeper F) (ticker_id : Z) (side : Side)
    (qty : Z) : result RiskCheckResult :=
  match cfgs !! Z.to_nat ticker_id, ticker_position_ k !! Z.to_nat ticker_id with
  | Some cfg, Some p => checkPreTradeRisk cfg p side qty
  | _, _ => Err OutOfRange
  end.

(** ** src/trading/strategy/order_manager.{h,cpp} *)

Record OrderManager := mkOrderManager {
  ticker_side_order_ : list (side_array OMOrder);
  next_order_id_ : Z;
  hysteresis_ticks_ : list Z }.

(** The trade engine as far as orders are concerned. *)
Record Trader := mkTrader {
  tr_client_id_ : Z;
  position_keeper_ : PositionKeeper F;
  ticker_risk_ : list (RiskCfg F);
  order_manager_ : OrderManager;
  outgoing_ogw_requests_ : E }.

Implicit Types (t : Trader) (om : OrderManager) (o : OMOrder).

Definition set_order_manager om t : Trader :=
  mkTrader (tr_client_id_ t) (position_keeper_ t) (ticker_risk_ t) om (outgoing_ogw_requests_ t).

Definition set_keeper (k : PositionKeeper F) t : Trader :=
  mkTrader (tr_client_id_ t) k (ticker_risk_ t) (order_manager_ t) (outgoing_ogw_requests_ t).

(** [ticker_side_order_.at(ticker).at(sideToIndex(side))] *)
Definition om_slot (ticker_id : Z) (side : Side) om : option OMOrder :=
  sa_get side <$> ticker_side_order_ om !! Z.to_nat ticker_id.

Definition set_om_slot (ticker_id : Z) (side : Side) o om : OrderManager :=
  mkOrderManager (alter (sa_set side o) (Z.to_nat ticker_id) (ticker_side_order_ om)) (next_order_id_ om)
    (hysteresis_ticks_ om).

Definition setHysteresisTicks (ticker_id ticks : Z) om : result OrderManager :=
  if decide (Z.to_nat ticker_id < length (hysteresis_ticks_ om))%nat
  then Ok (mkOrderManager (ticker_side_order_ om) (next_order_id_ om)
             (<[Z.to_nat ticker_id := ticks]> (hysteresis_ticks_ om)))
  else Err OutOfRange.

(** [TradeEngine::sendClientRequest] *)
Definition sendClientRequest (r : MEClientRequest) t : Trader :=
  mkTrader (tr_client_id_ t) (position_keeper_ t) (ticker_risk_ t) (order_manager_ t)
    (sendClientRequest_to r (outgoing_ogw_requests_ t)).

(** The order of a ticker and side is replaced by the new one. *)
Definition newOrder (ticker_id price : Z) (side : Side) (qty : Z) t : Trader :=
  let om := order_manager_ t in
  let id := next_order_id_ om in
  let t := sendClientRequest (mkMEClientRequest Req_NEW (tr_client_id_ t) ticker_id id side price qty) t in
  let om := set_om_slot ticker_id side (mkOMOrder ticker_id id side price qty PENDING_NEW) om in
  set_order_manager (mkOrderManager (ticker_side_order_ om) (u64 (id + 1)) (hysteresis_ticks_ om)) t.

(** [o] is the order in the slot of the ticker and side. *)
Definition cancelOrder (ticker_id : Z) (side : Side) o t : Trader :=
  let t := sendClientRequest (mkMEClientRequest Req_CANCEL (tr_client_id_ t) (om_ticker_id_ o) (om_order_id_ o)
                                (om_side_ o) (om_price_ o) (om_qty_ o)) t in
  set_order_manager (set_om_slot ticker_id side (set_state PENDING_CANCEL o) (order_manager_ t)) t.

Definition moveOrder (ticker_id price : Z) (side : Side) (qty : Z) t : result Trader :=
  match om_slot ticker_id side (order_manager_ t) with
  | None => Err OutOfRange
  | Some o =>
      match order_state_ o with
      | LIVE =>
          let* delta := (if price =? Price_INVALID then Ok Price_INVALID
                         else let* d := int64 (om_price_ o - price) in int64 (Z.abs d)) in
          match hysteresis_ticks_ (order_manager_ t) !! Z.to_nat ticker_id with
          | None => Err OutOfRange
          | Some tol => Ok (if tol <? delta then cancelOrder ticker_id side o t else t)
          end
      | OM_INVALID | DEAD =>
          if price =? Price_INVALID then Ok t else
          let* risk_result := risk_manager_check (ticker_risk_ t) (position_keeper_ t) ticker_id side qty in
          Ok (if bool_decide (risk_result = ALLOWED) then newOrder ticker_id price side qty t else t)
      | PENDING_NEW | PENDING_CANCEL => Ok t
      end
  end.

Definition moveOrders (ticker_id bid_price ask_price clip : Z) t : result Trader :=
  let* t := moveOrder ticker_id bid_price BUY clip t in
  moveOrder ticker_id ask_price SELL clip t.

Definition cancel_if_live (ticker_id : Z) (side : Side) t : result Trader :=
  match om_slot ticker_id side (order_manager_ t) with
  | None => Err OutOfRange
  | Some o => Ok (if bool_decide (order_state_ o = LIVE) then cancelOrder ticker_id side o t else t)
  end.

Definition cancelOrders (ticker_id : Z) t : result Trader :=
  let* t := cancel_if_live ticker_id BUY t in
  cancel_if_live ticker_id SELL t.

(** [OrderManager::onOrderUpdate] *)
Definition om_onOrderUpdate (r : MEClientResponse) om : result OrderManager :=
  let ticker_id := resp_ticker_id_ r in
  let side := resp_side_ r in
  match om_slot ticker_id side om with
  | None => Err OutOfRange
  | Some o =>
      Ok match resp_type_ r with
         | ACCEPTED => set_om_slot ticker_id side (set_state LIVE o) om
         | CANCELED => set_om_slot ticker_id side (set_state DEAD o) om
         | FILLED =>
             let o := set_om_qty (resp_leaves_qty_ r) o in
             set_om_slot ticker_id side (if om_qty_ o =? 0 then set_state DEAD o else o) om
         | CANCEL_REJECTED | Resp_INVALID => om
         end
  end.

(** [TradeEngine::onOrderUpdate] with an algorithm: both algorithms pass the
    response to the order manager. *)
Definition onOrderUpdate (r : MEClientResponse) t : result Trader :=
  let* t := (if bool_decide (resp_type_ r = FILLED)
             then let* k := keeper_addFill r (position_keeper_ t) in Ok (set_keeper k t)
             else Ok t) in
  let* om := om_onOrderUpdate r (order_manager_ t) in
  Ok (set_order_manager om t).
End Trading.
Arguments Trader F E : clear implicits.

(** ** The position limit *)

(** What an order may still add to the position. *)
Definition working (o : OMOrder) : Z :=
  match order_state_ o with
  | PENDING_NEW | LIVE | PENDING_CANCEL => om_qty_ o
  | OM_INVALID | DEAD => 0
  end.

Definition is_working (o : OMOrder) : Prop :=
  order_state_ o = PENDING_NEW ∨ order_state_ o = LIVE ∨ order_state_ o = PENDING_CANCEL.

Section Limits.
Context {F : Type} `{!Double F} {E : Type} `{!RequestSink E}.
Implicit Types (t : Trader F E) (a : side_array OMOrder) (p : PositionInfo F) (cfg : RiskCfg F).

Record cfg_ok cfg : Prop := {
  cf_size : 0 ≤ max_order_size_ cfg < 2 ^ 31;
  cf_position : 0 ≤ max_position_ cfg ≤ POSITION_SAFE }.

(** The position, whatever part of the working orders fills, is within the limit. *)
Record ticker_ok cfg p a : Prop := {
  tk_buy : position_ p + working (at_BUY a) ≤ max_position_ cfg;
  tk_sell : - max_position_ cfg ≤ position_ p - working (at_SELL a);
  tk_buy_qty : 0 ≤ working (at_BUY a);
  tk_sell_qty : 0 ≤ working (at_SELL a) }.

Record trader_inv t : Prop := {
  ti_cfg : Forall cfg_ok (ticker_risk_ t);
  ti_ticker : ∀ n cfg p a, ticker_risk_ t !! n = Some cfg → ticker_position_ (position_keeper_ t) !! n = Some p →
    ticker_side_order_ (order_manager_ t) !! n = Some a → ticker_ok cfg p a }.

Lemma ticker_ok_limit cfg p a : ticker_ok cfg p a → Z.abs (position_ p) ≤ max_position_ cfg.
Proof. intros [H1 H2 H3 H4]. lia. Qed.

(** Replacing the order of a slot. *)
Lemma trader_inv_slot t ticker_id side (o : OMOrder) om :
  trader_inv t → ticker_side_order_ om = ticker_side_order_ (set_om_slot ticker_id side o (order_manager_ t)) →
  (∀ cfg p a, ticker_risk_ t !! Z.to_nat ticker_id = Some cfg →
     ticker_position_ (position_keeper_ t) !! Z.to_nat ticker_id = Some p →
     ticker_side_order_ (order_manager_ t) !! Z.to_nat ticker_id = Some a → ticker_ok cfg p a →
     ticker_ok cfg p (sa_set side o a)) →
  ∀ out, trader_inv (mkTrader (tr_client_id_ t) (position_keeper_ t) (ticker_risk_ t) om out).
Proof.
  intros [Hc Hk] Hom Hset out. split; [done|]. cbn [ticker_risk_ position_keeper_ order_manager_].
  intros n cfg p a H1 H2 H3. rewrite Hom in H3. cbn [set_om_slot ticker_side_order_] in H3.
  destruct (decide (n = Z.to_nat ticker_id)) as [->|Hne].
  - rewrite list_lookup_alter_eq in H3. destruct (ticker_side_order_ _ !! _) as [a0|] eqn:E0; [|done].
    simpl in H3. injection H3 as <-. apply Hset; [done..|]. by apply (Hk (Z.to_nat ticker_id)).
  - rewrite list_lookup_alter_ne in H3 by done. by apply (Hk n).
Qed.

Lemma risk_allowed cfg p side qty :
  cfg_ok cfg → proper_side side → 0 ≤ qty → checkPreTradeRisk cfg p side qty = Ok ALLOWED →
  qty ≤ max_order_size_ cfg ∧ Z.abs (position_ p + sideToValue side * qty) ≤ max_position_ cfg
  ∧ (total_pnl_ p <? max_loss_ cfg)%D = false.
Proof.
  intros [Hs Hp] Hside Hq. unfold checkPreTradeRisk, POSITION_SAFE in *.
  destruct (Z.ltb_spec (max_order_size_ cfg) qty); [done|].
  intros (d & Ed & H')%bind_ok. apply bind_ok in H' as (sum & Es & H'). apply bind_ok in H' as (e & Ee & H').
  unfold int32 in Ed, Es, Ee. destruct (_ && _) in Ed; [|done]. destruct (_ && _) in Es; [|done].
  destruct (_ && _) in Ee; [|done]. injection Ed as <-. injection Es as <-. injection Ee as <-.
  rewrite (i32_small qty), (i32_small (max_position_ cfg)) in H' by lia.
  destruct (Z.ltb_spec (max_position_ cfg) (Z.abs (position_ p + sideToValue side * qty))); [done|].
  destruct (d_ltb _ _); [done|]. done.
Qed.

Lemma cancelOrder_inv t ticker_id side o :
  proper_side side → trader_inv t → om_slot ticker_id side (order_manager_ t) = Some o → order_state_ o = LIVE →
  trader_inv (cancelOrder ticker_id side o t).
Proof.
  intros Hside Hi Eo Hst. unfold cancelOrder, set_order_manager, sendClientRequest.
  cbn [tr_client_id_ position_keeper_ ticker_risk_ order_manager_ outgoing_ogw_requests_].
  eapply trader_inv_slot; [exact Hi|done|]. intros cfg p a _ _ Ha [H1 H2 H3 H4].
  unfold om_slot in Eo. rewrite Ha in Eo. injection Eo as Hslot.
  assert (working (set_state PENDING_CANCEL o) = working o) as Ew by (unfold working; by rewrite Hst).
  destruct Hside as [-> | ->]; simpl in *; split; cbn [at_BUY at_SELL]; rewrite ?Ew; by subst o.
Qed.

Lemma newOrder_inv t ticker_id price side qty o :
  proper_side side → 0 ≤ qty → trader_inv t → om_slot ticker_id side (order_manager_ t) = Some o →
  risk_manager_check (ticker_risk_ t) (position_keeper_ t) ticker_id side qty = Ok ALLOWED →
  trader_inv (newOrder ticker_id price side qty t).
Proof.
  intros Hside Hq Hi Eo Er. unfold newOrder, set_order_manager, sendClientRequest.
  cbn [tr_client_id_ position_keeper_ ticker_risk_ order_manager_ outgoing_ogw_requests_].
  eapply trader_inv_slot; [exact Hi|done|]. intros cfg p a Hcfg Hp Ha [H1 H2 H3 H4].
  unfold risk_manager_check in Er. rewrite Hcfg, Hp in Er.
  pose proof (proj1 (Forall_lookup _ _) (ti_cfg _ Hi) _ _ Hcfg) as Hok.
  destruct (risk_allowed cfg p side qty Hok Hside Hq Er) as (_ & Hlim & _).
  destruct Hside as [-> | ->]; simpl in *; split; cbn [at_BUY at_SELL working order_state_ om_qty_]; lia.
Qed.

(** The three things [moveOrder] can do. *)
Inductive move_outcome t (ticker_id price : Z) (side : Side) (qty : Z) : Trader F E → Prop :=
| move_keeps : move_outcome t ticker_id price side qty t
| move_cancels o :
    om_slot ticker_id side (order_manager_ t) = Some o → order_state_ o = LIVE →
    move_outcome t ticker_id price side qty (cancelOrder ticker_id side o t)
| move_sends o :
    om_slot ticker_id side (order_manager_ t) = Some o → ¬ is_working o → price ≠ Price_INVALID →
    risk_manager_check (ticker_risk_ t) (position_keeper_ t) ticker_id side qty = Ok ALLOWED →
    move_outcome t ticker_id price side qty (newOrder ticker_id price side qty t).

Lemma moveOrder_outcome t t' ticker_id price side qty :
  moveOrder ticker_id price side qty t = Ok t' → move_outcome t ticker_id price side qty t'.
Proof.
  unfold moveOrder. destruct (om_slot ticker_id side (order_manager_ t)) as [o|] eqn:Eo; [|done].
  assert (Hnew : ∀ r, ¬ is_working o → price ≠ Price_INVALID →
    risk_manager_check (ticker_risk_ t) (position_keeper_ t) ticker_id side qty = Ok r →
    move_outcome t ticker_id price side qty
      (if bool_decide (r = ALLOWED) then newOrder ticker_id price side qty t else t)).
  { intros r Hw Hp Er. case_bool_decide as Ea; [subst r|constructor]. by eapply move_sends. }
  unfold is_working in Hnew. destruct (order_state_ o) eqn:Est.
  - destruct (Z.eqb_spec price Price_INVALID); [intros [= <-]; constructor|].
    intros (r & Er & [= <-])%bind_ok. apply Hnew; [naive_solver|done|done].
  - intros [= <-]. constructor.
  - intros (delta & _ & H')%bind_ok. destruct (hysteresis_ticks_ _ !! _) as [tol|]; [|done].
    injection H' as <-. destruct (tol <? delta); [by apply move_cancels|constructor].
  - intros [= <-]. constructor.
  - destruct (Z.eqb_spec price Price_INVALID); [intros [= <-]; constructor|].
    intros (r & Er & [= <-])%bind_ok. apply Hnew; [naive_solver|done|done].
Qed.

Lemma moveOrder_inv t t' ticker_id price side qty :
  proper_side side → 0 ≤ qty → trader_inv t → moveOrder ticker_id price side qty t = Ok t' → trader_inv t'.
Proof.
  intros Hside Hq Hi [|o Eo Hst|o Eo _ _ Er]%moveOrder_outcome; [done|by apply cancelOrder_inv|].
  by eapply newOrder_inv.
Qed.

Lemma cancel_if_live_inv t t' ticker_id side :
  proper_side side → trader_inv t → cancel_if_live ticker_id side t = Ok t' → trader_inv t'.
Proof.
  intros Hside Hi. unfold cancel_if_live.
  destruct (om_slot ticker_id side (order_manager_ t)) as [o|] eqn:Eo; [|done].
  intros [= <-]. case_bool_decide as Hst; [|done]. by apply cancelOrder_inv.
Qed.

(** *** Responses *)

(** What may be said about the order in a slot: the acceptance of a pending
    order, a cancellation at any time, or a fill of part of what is working, with
    what is left. *)
Definition response_ok (r : MEClientResponse) t : Prop :=
  0 ≤ resp_ticker_id_ r ∧
  match resp_type_ r with
  | FILLED => ∃ o, om_slot (resp_ticker_id_ r) (resp_side_ r) (order_manager_ t) = Some o
      ∧ proper_side (resp_side_ r) ∧ is_working o ∧ 0 ≤ resp_exec_qty_ r ≤ om_qty_ o
      ∧ resp_leaves_qty_ r = om_qty_ o - resp_exec_qty_ r
  | ACCEPTED => ∃ o, om_slot (resp_ticker_id_ r) (resp_side_ r) (order_manager_ t) = Some o
      ∧ order_state_ o = PENDING_NEW ∧ proper_side (resp_side_ r)
  | CANCELED => ∃ o, om_slot (resp_ticker_id_ r) (resp_side_ r) (order_manager_ t) = Some o
      ∧ proper_side (resp_side_ r)
  | CANCEL_REJECTED | Resp_INVALID => True
  end.

Lemma working_of o : is_working o → working o = om_qty_ o.
Proof. intros [E'|[E'|E']]; unfold working; by rewrite E'. Qed.

(** A fill moves quantity from the order to the position. *)
Lemma ticker_ok_fill cfg p p' a side o r :
  ticker_ok cfg p a → proper_side side → sa_get side a = o → is_working o →
  0 ≤ resp_exec_qty_ r ≤ om_qty_ o → resp_leaves_qty_ r = om_qty_ o - resp_exec_qty_ r →
  position_ p' = position_ p + sideToValue side * resp_exec_qty_ r →
  ticker_ok cfg p' (sa_set side (if resp_leaves_qty_ r =? 0 then set_state DEAD (set_om_qty (resp_leaves_qty_ r) o)
                                 else set_om_qty (resp_leaves_qty_ r) o) a).
Proof.
  intros [H1 H2 H3 H4] Hside Hget Hw Hq Hl Hp.
  set (o' := if _ =? 0 then _ else _).
  assert (working o' = resp_leaves_qty_ r) as Ew.
  { unfold o'. destruct (Z.eqb_spec (resp_leaves_qty_ r) 0) as [->|_]; [done|].
    rewrite working_of; [done|]. exact Hw. }
  pose proof (working_of o Hw) as Ewo.
  destruct Hside as [-> | ->]; simpl in *; split; cbn [at_BUY at_SELL]; rewrite ?Ew; subst o; lia.
Qed.

(** Prices whose notional is far from the 64-bit limit. *)
Definition price_ok (r : MEClientResponse) : Prop :=
  Z.abs (resp_price_ r) * (2 * POSITION_SAFE) < 2 ^ 63.

Lemma fill_is_ok r cfg p a o :
  cfg_ok cfg → ticker_ok cfg p a → price_ok r → proper_side (resp_side_ r) → sa_get (resp_side_ r) a = o →
  is_working o → 0 ≤ resp_exec_qty_ r ≤ om_qty_ o → fill_ok (position_ p) r.
Proof.
  intros [_ Hc] [H1 H2 H3 H4] Hpr Hside Hget Hw Hq. pose proof (working_of o Hw) as Ew.
  unfold price_ok, POSITION_SAFE in *.
  assert (Z.abs (position_ p + signed_qty r) ≤ 46340 ∧ resp_exec_qty_ r ≤ 92680) as [Hn He].
  { unfold signed_qty. destruct Hside as [E'|E']; rewrite E' in *; simpl in *; subst o; lia. }
  split; unfold POSITION_SAFE; [done|lia|lia|done|nia|lia].
Qed.

(** The position moves by the filled quantity whenever the booking succeeds. *)
Lemma addFill_position r bps p p' :
  0 ≤ resp_exec_qty_ r < 2 ^ 31 → addFill r bps p = Ok p' →
  position_ p' = position_ p + sideToValue (resp_side_ r) * resp_exec_qty_ r.
Proof.
  intros Hq. unfold addFill. rewrite i32_small by done. unfold int32.
  destruct (_ && _); [|done]. cbn [rbind]. destruct (_ && _); [|done]. cbn [rbind].
  intros ([real v] & _ & ([unreal v'] & _ & H)%bind_ok)%bind_ok. destruct (negb _); injection H as <-; simpl; lia.
Qed.

Lemma onOrderUpdate_fill_inv r t t' cfg p a :
  trader_inv t → response_ok r t → resp_type_ r = FILLED →
  ticker_risk_ t !! Z.to_nat (resp_ticker_id_ r) = Some cfg →
  ticker_position_ (position_keeper_ t) !! Z.to_nat (resp_ticker_id_ r) = Some p →
  ticker_side_order_ (order_manager_ t) !! Z.to_nat (resp_ticker_id_ r) = Some a →
  onOrderUpdate r t = Ok t' → trader_inv t'.
Proof.
  intros Hi [_ Hr] Et Hcfg Hp Ha. rewrite Et in Hr. destruct Hr as (o & Eo & Hside & Hw & Hq & Hl).
  pose proof Eo as Eo'. unfold om_slot in Eo'. rewrite Ha in Eo'. injection Eo' as Hget.
  pose proof (proj1 (Forall_lookup _ _) (ti_cfg _ Hi) _ _ Hcfg) as [_ Hok].
  pose proof (ti_ticker _ Hi _ _ _ _ Hcfg Hp Ha) as Htk.
  assert (0 ≤ resp_exec_qty_ r < 2 ^ 31) as Hq31.
  { pose proof (working_of o Hw). destruct Htk as [H1 H2 H3 H4]. unfold POSITION_SAFE in Hok.
    destruct Hside as [E'|E']; rewrite E' in *; simpl in *; subst o; lia. }
  unfold onOrderUpdate, keeper_addFill, om_onOrderUpdate. rewrite Et, bool_decide_eq_true_2, Hp by done.
  destruct (rebate_bps_ _ !! _) as [bps|]; [|done]. destruct (addFill r bps p) as [p'|] eqn:Ef; [|done].
  apply addFill_position in Ef; [|done]. cbn [rbind set_keeper order_manager_]. rewrite Eo. cbn [rbind]. intros [= <-].
  split; [by apply Hi|]. intros n cfg1 p1 a1. unfold set_order_manager, set_om_slot, set_keeper.
  cbn [ticker_risk_ position_keeper_ ticker_position_ order_manager_ ticker_side_order_ om_qty_ set_om_qty].
  intros H1 H2 H3. destruct (decide (n = Z.to_nat (resp_ticker_id_ r))) as [->|Hne].
  - rewrite list_lookup_insert_eq in H2 by (by eapply lookup_lt_Some). injection H2 as <-.
    rewrite list_lookup_alter_eq, Ha in H3. simpl in H3. injection H3 as <-. rewrite Hcfg in H1. injection H1 as <-.
    by apply (ticker_ok_fill cfg p).
  - rewrite list_lookup_insert_ne in H2 by done. rewrite list_lookup_alter_ne in H3 by done.
    by apply (ti_ticker _ Hi n).
Qed.

(** A fill of a working order is booked. *)
Lemma onOrderUpdate_fill r t cfg p a bps :
  trader_inv t → response_ok r t → price_ok r → resp_type_ r = FILLED →
  ticker_risk_ t !! Z.to_nat (resp_ticker_id_ r) = Some cfg →
  ticker_position_ (position_keeper_ t) !! Z.to_nat (resp_ticker_id_ r) = Some p →
  rebate_bps_ (position_keeper_ t) !! Z.to_nat (resp_ticker_id_ r) = Some bps →
  ticker_side_order_ (order_manager_ t) !! Z.to_nat (resp_ticker_id_ r) = Some a →
  ∃ t', onOrderUpdate r t = Ok t'.
Proof.
  intros Hi [_ Hr] Hpr Et Hcfg Hp Hb Ha. rewrite Et in Hr. destruct Hr as (o & Eo & Hside & Hw & Hq & Hl).
  pose proof Eo as Eo'. unfold om_slot in Eo'. rewrite Ha in Eo'. injection Eo' as Hget.
  pose proof (proj1 (Forall_lookup _ _) (ti_cfg _ Hi) _ _ Hcfg) as Hok.
  pose proof (ti_ticker _ Hi _ _ _ _ Hcfg Hp Ha) as Htk.
  destruct (addFill_total r bps p (fill_is_ok r cfg p a o Hok Htk Hpr Hside Hget Hw Hq)) as (p' & Ef & _).
  unfold onOrderUpdate, keeper_addFill, om_onOrderUpdate. rewrite Et, bool_decide_eq_true_2, Hb, Hp, Ef by done.
  cbn [rbind set_keeper order_manager_]. rewrite Eo. cbn [rbind]. by eexists.
Qed.

(** Every other response only changes the state of the slot. *)
Lemma onOrderUpdate_ack r t cfg p a :
  trader_inv t → response_ok r t → resp_type_ r ≠ FILLED →
  ticker_risk_ t !! Z.to_nat (resp_ticker_id_ r) = Some cfg →
  ticker_position_ (position_keeper_ t) !! Z.to_nat (resp_ticker_id_ r) = Some p →
  ticker_side_order_ (order_manager_ t) !! Z.to_nat (resp_ticker_id_ r) = Some a →
  ∃ t', onOrderUpdate r t = Ok t' ∧ trader_inv t'.
Proof.
  intros Hi [_ Hr] Et Hcfg Hp Ha. unfold onOrderUpdate, om_onOrderUpdate. rewrite bool_decide_eq_false_2 by done.
  cbn [rbind]. set (o := sa_get (resp_side_ r) a).
  assert (om_slot (resp_ticker_id_ r) (resp_side_ r) (order_manager_ t) = Some o) as Eo
    by (unfold om_slot; by rewrite Ha).
  rewrite Eo in Hr |- *. cbn [rbind]. eexists. split; [done|].
  assert (Hsame : trader_inv (set_order_manager (order_manager_ t) t)) by (by destruct t, Hi).
  assert (Hset : ∀ st, proper_side (resp_side_ r) → 0 ≤ working (set_state st o) ≤ working o →
    trader_inv (set_order_manager (set_om_slot (resp_ticker_id_ r) (resp_side_ r) (set_state st o)
      (order_manager_ t)) t)).
  { intros st Hside Hw. eapply trader_inv_slot; [exact Hi|done|]. intros cfg' p' a' _ _ Ha' [H1 H2 H3 H4].
    rewrite Ha in Ha'. injection Ha' as <-. unfold o in *.
    destruct Hside as [E'|E']; rewrite E' in *; simpl in *; split; cbn [at_BUY at_SELL]; lia. }
  pose proof (ti_ticker _ Hi _ _ _ _ Hcfg Hp Ha) as [_ _ H3 H4].
  assert (Hpos : proper_side (resp_side_ r) → 0 ≤ working o)
    by (unfold o; by intros [E'|E']; rewrite E').
  destruct (resp_type_ r); try done.
  - destruct Hr as (o1 & [= <-] & Hst & Hside). apply Hset; [done|]. specialize (Hpos Hside).
    unfold working in *. rewrite Hst in *. simpl. lia.
  - destruct Hr as (o1 & [= <-] & Hside). apply Hset; [done|]. specialize (Hpos Hside). split; [done|exact Hpos].
Qed.

(** *** Any interleaving of quoting, pulling and responses *)

(** All tables cover the ticker. *)
Definition covers (ticker_id : Z) t : Prop :=
  0 ≤ ticker_id
  ∧ is_Some (ticker_risk_ t !! Z.to_nat ticker_id)
  ∧ is_Some (ticker_position_ (position_keeper_ t) !! Z.to_nat ticker_id)
  ∧ is_Some (rebate_bps_ (position_keeper_ t) !! Z.to_nat ticker_id)
  ∧ is_Some (ticker_side_order_ (order_manager_ t) !! Z.to_nat ticker_id).

Inductive trader_step t : Trader F E → Prop :=
| step_quote ticker_id bid ask clip t' :
    0 ≤ clip → moveOrders ticker_id bid ask clip t = Ok t' → trader_step t t'
| step_pull ticker_id t' : cancelOrders ticker_id t = Ok t' → trader_step t t'
| step_mark ticker_id bbo k :
    keeper_updateBBO ticker_id bbo (position_keeper_ t) = Ok k → trader_step t (set_keeper k t)
| step_tolerance ticker_id ticks om :
    setHysteresisTicks ticker_id ticks (order_manager_ t) = Ok om → trader_step t (set_order_manager om t)
| step_response r t' :
    response_ok r t → covers (resp_ticker_id_ r) t → onOrderUpdate r t = Ok t' → trader_step t t'.

(** A fresh trader: [v] is the uninitialised content of [open_vwap_]. *)
Definition Trader_new (client_id : Z) (cfgs : list (RiskCfg F)) (rebates : list F) (v : side_array F)
    (out : E) : Trader F E :=
  let n := Z.to_nat ME_MAX_TICKERS in
  mkTrader client_id (mkPositionKeeper rebates (replicate n (PositionInfo_new v))) cfgs
    (mkOrderManager (replicate n (mkSideArray OMOrder_default OMOrder_default OMOrder_default OMOrder_default)) 1
       (replicate n 0)) out.

Lemma trader_inv_new client_id cfgs rebates v out :
  Forall cfg_ok cfgs → trader_inv (Trader_new client_id cfgs rebates v out).
Proof.
  intros Hc. split; [done|]. intros n cfg p a Hcfg Hp Ha.
  pose proof (proj1 (Forall_lookup _ _) Hc _ _ Hcfg) as [_ [H0 _]].
  apply lookup_replicate in Hp as [-> _], Ha as [-> _]. split; unfold working; cbn; lia.
Qed.

(** Marking to market changes no position. *)
Lemma keeper_updateBBO_position ticker_id bbo (k k' : PositionKeeper F) n p' :
  keeper_updateBBO ticker_id bbo k = Ok k' → ticker_position_ k' !! n = Some p' →
  ∃ p, ticker_position_ k !! n = Some p ∧ position_ p = position_ p'.
Proof.
  unfold keeper_updateBBO. intros Hk Hp. destruct (ticker_position_ k !! Z.to_nat ticker_id) as [p|] eqn:Ep; [|done].
  apply bind_ok in Hk as (p1 & E1 & [= <-]). cbn [ticker_position_] in Hp.
  apply list_lookup_insert_Some in Hp as [(<- & <- & _)|[_ Hp]]; [|by exists p'].
  exists p. split; [done|]. unfold position_updateBBO in E1. destruct (_ && _); [|by injection E1 as <-].
  apply bind_ok in E1 as (sum & _ & (u & _ & [= <-])%bind_ok). done.
Qed.

Lemma keeper_updateBBO_inv t ticker_id bbo k :
  trader_inv t → keeper_updateBBO ticker_id bbo (position_keeper_ t) = Ok k → trader_inv (set_keeper k t).
Proof.
  intros [Hc Hk] Hu. split; [done|]. cbn [ticker_risk_ position_keeper_ order_manager_ set_keeper].
  intros n cfg p' a Hcfg Hp' Ha. destruct (keeper_updateBBO_position _ _ _ _ _ _ Hu Hp') as (p & Hp & E').
  destruct (Hk n cfg p a Hcfg Hp Ha). split; by rewrite <- ?E'.
Qed.

Lemma setHysteresisTicks_inv t ticker_id ticks om :
  trader_inv t → setHysteresisTicks ticker_id ticks (order_manager_ t) = Ok om → trader_inv (set_order_manager om t).
Proof. intros [Hc Hk]. unfold setHysteresisTicks. case_decide; [|done]. intros [= <-]. split; [done|exact Hk]. Qed.

Lemma trader_step_inv t t' : trader_inv t → trader_step t t' → trader_inv t'.
Proof.
  intros Hi [tk bid ask clip t2 Hq Hm|tk t2 Hm|tk bbo k Hm|tk ticks om Hm
    |r t2 Hr (H0 & [cfg Hcfg] & [p Hp] & [bps Hb] & [a Ha]) Hm].
  - apply bind_ok in Hm as (t1 & H1 & H2). eapply (moveOrder_inv t1); [by right|done| |exact H2].
    eapply moveOrder_inv; [by left|done|exact Hi|exact H1].
  - apply bind_ok in Hm as (t1 & H1 & H2). eapply (cancel_if_live_inv t1); [by right| |exact H2].
    eapply cancel_if_live_inv; [by left|exact Hi|exact H1].
  - by eapply keeper_updateBBO_inv.
  - by eapply setHysteresisTicks_inv.
  - destruct (decide (resp_type_ r = FILLED)); [by eapply onOrderUpdate_fill_inv|].
    assert (∃ t', onOrderUpdate r t = Ok t' ∧ trader_inv t') as (t3 & E3 & Hi3); [|congruence].
    by eapply onOrderUpdate_ack.
Qed.

(** *** The tables keep their sizes *)

Definition sized (n : nat) t : Prop :=
  length (ticker_risk_ t) = n
  ∧ length (ticker_position_ (position_keeper_ t)) = n
  ∧ length (rebate_bps_ (position_keeper_ t)) = n
  ∧ length (ticker_side_order_ (order_manager_ t)) = n.

Lemma sized_covers n t ticker_id : sized n t → 0 ≤ ticker_id < Z.of_nat n → covers ticker_id t.
Proof. intros (H1 & H2 & H3 & H4) H. split; [lia|]. split_and!; apply lookup_lt_is_Some_2; lia. Qed.

Lemma length_slots ticker_id side o om :
  length (ticker_side_order_ (set_om_slot ticker_id side o om)) = length (ticker_side_order_ om).
Proof. apply length_alter. Qed.

Lemma moveOrder_sized n t t' ticker_id price side qty :
  sized n t → moveOrder ticker_id price side qty t = Ok t' → sized n t'.
Proof.
  intros Hs [|o _ _|o _ _ _ _]%moveOrder_outcome; [done|..]; destruct Hs as (H1 & H2 & H3 & H4);
    split_and!; try done; by (etrans; [apply length_slots|]).
Qed.

Lemma cancel_if_live_sized n t t' ticker_id side : sized n t → cancel_if_live ticker_id side t = Ok t' → sized n t'.
Proof.
  intros Hs. unfold cancel_if_live. destruct (om_slot _ _ _) as [o|]; [|done]. intros [= <-].
  case_bool_decide; [|done]. destruct Hs as (H1 & H2 & H3 & H4). split_and!; try done. by (etrans; [apply length_slots|]).
Qed.

Lemma onOrderUpdate_sized n t t' r : sized n t → onOrderUpdate r t = Ok t' → sized n t'.
Proof.
  intros (H1 & H2 & H3 & H4) (t1 & E1 & (om & E2 & [= <-])%bind_ok)%bind_ok.
  assert (sized n t1) as (J1 & J2 & J3 & J4).
  { case_bool_decide; [|injection E1 as <-; by split_and!]. apply bind_ok in E1 as (k & Ek & [= <-]).
    unfold keeper_addFill in Ek. do 2 (case_match; [|done]). apply bind_ok in Ek as (? & _ & [= <-]).
    split_and!; try done. cbn [position_keeper_ set_keeper ticker_position_]. by rewrite length_insert. }
  split_and!; try done. cbn [order_manager_ set_order_manager]. unfold om_onOrderUpdate in E2.
  destruct (om_slot _ _ _) as [o|]; [|done]. injection E2 as <-.
  destruct (resp_type_ r); rewrite ?length_slots; done.
Qed.

Lemma trader_step_sized n t t' : sized n t → trader_step t t' → sized n t'.
Proof.
  intros Hs [tk bid ask clip t2 Hq Hm|tk t2 Hm|tk bbo k Hm|tk ticks om Hm|r t2 _ _ Hm].
  - apply bind_ok in Hm as (t1 & H1 & H2). by eapply moveOrder_sized; [eapply moveOrder_sized|].
  - apply bind_ok in Hm as (t1 & H1 & H2). by eapply cancel_if_live_sized; [eapply cancel_if_live_sized|].
  - destruct Hs as (H1 & H2 & H3 & H4). unfold keeper_updateBBO in Hm. case_match; [|done].
    apply bind_ok in Hm as (? & _ & [= <-]). split_and!; try done. cbn [position_keeper_ set_keeper ticker_position_].
    by rewrite length_insert.
  - destruct Hs as (H1 & H2 & H3 & H4). unfold setHysteresisTicks in Hm. case_decide; [|done].
    injection Hm as <-. by split_and!.
  - by eapply onOrderUpdate_sized.
Qed.

(** The limits are never changed. *)
Lemma trader_step_risk t t' : trader_step t t' → ticker_risk_ t' = ticker_risk_ t.
Proof.
  assert (Hmove : ∀ n price side qty t t', moveOrder n price side qty t = Ok t' → ticker_risk_ t' = ticker_risk_ t)
    by (by intros ?????? [|o _ _|o _ _ _ _]%moveOrder_outcome).
  assert (Hpull : ∀ n side t t', cancel_if_live n side t = Ok t' → ticker_risk_ t' = ticker_risk_ t).
  { intros n side u u'. unfold cancel_if_live. destruct (om_slot _ _ _); [|done]. intros [= <-]. by case_bool_decide. }
  intros [tk bid ask clip t2 _ Hm|tk t2 Hm|tk bbo k Hm|tk ticks om Hm|r t2 _ _ Hm]; [| |done|done|].
  - apply bind_ok in Hm as (t1 & E1%Hmove & E2%Hmove). congruence.
  - apply bind_ok in Hm as (t1 & E1%Hpull & E2%Hpull). congruence.
  - apply bind_ok in Hm as (t1 & E1 & (om & _ & [= <-])%bind_ok). cbn [ticker_risk_ set_order_manager].
    case_bool_decide; [|by injection E1 as <-]. by apply bind_ok in E1 as (k & _ & [= <-]).
Qed.

Lemma trader_steps_risk t t' : rtc trader_step t t' → ticker_risk_ t' = ticker_risk_ t.
Proof. induction 1 as [|t1 t2 t3 H1%trader_step_risk _ IH]; congruence. Qed.

Lemma trader_steps_inv n t t' :
  trader_inv t → sized n t → rtc trader_step t t' → trader_inv t' ∧ sized n t'.
Proof.
  intros Hi Hs Hr. revert Hi Hs. induction Hr as [|t1 t2 t3 H1 _ IH]; intros Hi Hs; [done|].
  apply IH; [by eapply trader_step_inv|by eapply trader_step_sized].
Qed.

Lemma sized_new client_id cfgs rebates v out :
  length cfgs = Z.to_nat ME_MAX_TICKERS → length rebates = Z.to_nat ME_MAX_TICKERS →
  sized (Z.to_nat ME_MAX_TICKERS) (Trader_new client_id cfgs rebates v out).
Proof. intros Hc Hr. by split_and!. Qed.
End Limits.

(** ** The requests of the order manager *)

Section Requests.
Context {F : Type} `{!Double F}.
Implicit Types (t : Trader F (list MEClientRequest)).

Lemma newOrder_out ticker_id price side qty t :
  outgoing_ogw_requests_ (newOrder ticker_id price side qty t) = outgoing_ogw_requests_ t
    ++ [mkMEClientRequest Req_NEW (tr_client_id_ t) ticker_id (next_order_id_ (order_manager_ t)) side price qty]
  ∧ next_order_id_ (order_manager_ (newOrder ticker_id price side qty t))
    = u64 (next_order_id_ (order_manager_ t) + 1).
Proof. done. Qed.

Lemma cancelOrder_out ticker_id side o t :
  outgoing_ogw_requests_ (cancelOrder ticker_id side o t) = outgoing_ogw_requests_ t
    ++ [mkMEClientRequest Req_CANCEL (tr_client_id_ t) (om_ticker_id_ o) (om_order_id_ o) (om_side_ o)
          (om_price_ o) (om_qty_ o)]
  ∧ next_order_id_ (order_manager_ (cancelOrder ticker_id side o t)) = next_order_id_ (order_manager_ t).
Proof. done. Qed.

(** What quoting and pulling send. *)
Lemma moveOrder_sent t t' ticker_id price side qty :
  moveOrder ticker_id price side qty t = Ok t' →
  ∃ sent, outgoing_ogw_requests_ t' = outgoing_ogw_requests_ t ++ sent ∧ (length sent ≤ 1)%nat
    ∧ ∀ r, r ∈ sent → req_type_ r = Req_CANCEL
        ∨ req_type_ r = Req_NEW ∧ req_ticker_id_ r = ticker_id ∧ req_side_ r = side ∧ req_price_ r = price
          ∧ req_qty_ r = qty ∧ price ≠ Price_INVALID.
Proof.
  intros [|o _ _|o _ _ Hp _]%moveOrder_outcome.
  - exists []. rewrite app_nil_r. split_and!; [done|simpl; lia|]. by intros r ?%elem_of_nil.
  - rewrite (proj1 (cancelOrder_out _ _ _ _)). eexists. split_and!; [done|simpl; lia|].
    intros r ->%list_elem_of_singleton. by left.
  - rewrite (proj1 (newOrder_out _ _ _ _ _)). eexists. split_and!; [done|simpl; lia|].
    intros r ->%list_elem_of_singleton. by right.
Qed.

Lemma moveOrders_sent t t' ticker_id bid ask clip :
  moveOrders ticker_id bid ask clip t = Ok t' →
  ∃ sent, outgoing_ogw_requests_ t' = outgoing_ogw_requests_ t ++ sent
    ∧ ∀ r, r ∈ sent → req_type_ r = Req_CANCEL
        ∨ req_type_ r = Req_NEW ∧ req_ticker_id_ r = ticker_id ∧ req_qty_ r = clip
          ∧ (req_side_ r = BUY ∧ req_price_ r = bid ∧ bid ≠ Price_INVALID
             ∨ req_side_ r = SELL ∧ req_price_ r = ask ∧ ask ≠ Price_INVALID).
Proof.
  intros (t1 & (s1 & E1 & _ & H1)%moveOrder_sent & (s2 & E2 & _ & H2)%moveOrder_sent)%bind_ok.
  exists (s1 ++ s2). rewrite E2, E1, app_assoc. split; [done|].
  intros r [[?|(?&?&?&?&?&?)]%H1|[?|(?&?&?&?&?&?)]%H2]%elem_of_app; naive_solver.
Qed.

Lemma cancel_if_live_sent t t' ticker_id side :
  cancel_if_live ticker_id side t = Ok t' →
  ∃ sent, outgoing_ogw_requests_ t' = outgoing_ogw_requests_ t ++ sent ∧ Forall (λ r, req_type_ r = Req_CANCEL) sent.
Proof.
  unfold cancel_if_live. destruct (om_slot _ _ _) as [o|]; [|done]. intros [= <-]. case_bool_decide.
  - eexists. split; [apply cancelOrder_out|by repeat constructor].
  - exists []. by rewrite app_nil_r.
Qed.

Lemma cancelOrders_sent t t' ticker_id :
  cancelOrders ticker_id t = Ok t' →
  ∃ sent, outgoing_ogw_requests_ t' = outgoing_ogw_requests_ t ++ sent ∧ Forall (λ r, req_type_ r = Req_CANCEL) sent.
Proof.
  intros (t1 & (s1 & E1 & H1)%cancel_if_live_sent & (s2 & E2 & H2)%cancel_if_live_sent)%bind_ok.
  exists (s1 ++ s2). rewrite E2, E1, app_assoc. split; [done|by apply Forall_app].
Qed.

Lemma cancel_if_live_spec t ticker_id side n :
  sized n t → 0 ≤ ticker_id < Z.of_nat n →
  ∃ t' sent, cancel_if_live ticker_id side t = Ok t' ∧ sized n t'
    ∧ outgoing_ogw_requests_ t' = outgoing_ogw_requests_ t ++ sent ∧ Forall (λ r, req_type_ r = Req_CANCEL) sent
    ∧ ∀ s o, om_slot ticker_id s (order_manager_ t') = Some o → order_state_ o = LIVE →
        s ≠ side ∧ om_slot ticker_id s (order_manager_ t) = Some o.
Proof.
  intros Hs Ht. destruct (sized_covers n t ticker_id Hs Ht) as (H0 & _ & _ & _ & [a Ha]).
  assert (om_slot ticker_id side (order_manager_ t) = Some (sa_get side a)) as Eo by (unfold om_slot; by rewrite Ha).
  assert (∃ t', cancel_if_live ticker_id side t = Ok t') as [t' Et]
    by (unfold cancel_if_live; rewrite Eo; by eexists).
  pose proof (cancel_if_live_sized n t t' ticker_id side Hs Et) as Hs'. exists t'. revert Et.
  unfold cancel_if_live. rewrite Eo. intros [= <-]. case_bool_decide as El.
  - eexists. split; [done|]. split; [done|]. split; [apply cancelOrder_out|]. split; [by repeat constructor|].
    intros s o Es. unfold om_slot, cancelOrder in Es.
    cbn [order_manager_ set_order_manager set_om_slot ticker_side_order_ sendClientRequest] in Es.
    rewrite list_lookup_alter_eq, Ha in Es. simpl in Es. injection Es as <-. intros Hl.
    destruct (decide (s = side)) as [->|Hne]; [by destruct side|]. split; [done|].
    unfold om_slot. rewrite Ha. by destruct s, side.
  - exists []. rewrite app_nil_r. split_and!; [done..|]. intros s o Es El'. split; [|done]. intros ->. congruence.
Qed.

(** Pulling the quotes of a ticker: only cancels go out, and nothing stays live. *)
Lemma cancelOrders_spec t ticker_id n :
  sized n t → 0 ≤ ticker_id < Z.of_nat n →
  ∃ t' sent, cancelOrders ticker_id t = Ok t'
    ∧ outgoing_ogw_requests_ t' = outgoing_ogw_requests_ t ++ sent ∧ Forall (λ r, req_type_ r = Req_CANCEL) sent
    ∧ ∀ s o, proper_side s → om_slot ticker_id s (order_manager_ t') = Some o → order_state_ o ≠ LIVE.
Proof.
  intros Hs Ht. destruct (cancel_if_live_spec t ticker_id BUY n Hs Ht) as (t1 & s1 & E1 & Hs1 & O1 & C1 & L1).
  destruct (cancel_if_live_spec t1 ticker_id SELL n Hs1 Ht) as (t2 & s2 & E2 & _ & O2 & C2 & L2).
  exists t2, (s1 ++ s2). unfold cancelOrders. rewrite E1. cbn [rbind]. split; [done|].
  rewrite O2, O1, app_assoc. split; [done|]. split; [by apply Forall_app|].
  intros s o Hp Es El. destruct (L2 s o Es El) as [Hns Es1]. destruct (L1 s o Es1 El) as [Hnb _].
  by destruct Hp.
Qed.

(** The client order ids used so far. *)
Definition new_ids (rs : list MEClientRequest) : list Z :=
  req_order_id_ <$> filter (λ r, req_type_ r = Req_NEW) rs.

Definition ids_fresh t : Prop :=
  StronglySorted Z.lt (new_ids (outgoing_ogw_requests_ t))
  ∧ Forall (λ i, i < next_order_id_ (order_manager_ t)) (new_ids (outgoing_ogw_requests_ t))
  ∧ 0 ≤ next_order_id_ (order_manager_ t).

Lemma new_ids_app rs1 rs2 : new_ids (rs1 ++ rs2) = new_ids rs1 ++ new_ids rs2.
Proof. unfold new_ids. by rewrite filter_app, fmap_app. Qed.

Lemma ids_fresh_new ticker_id price side qty t :
  ids_fresh t → next_order_id_ (order_manager_ t) + 1 < 2 ^ 64 → ids_fresh (newOrder ticker_id price side qty t).
Proof.
  intros (Hs & Hf & H0) Hlt. destruct (newOrder_out ticker_id price side qty t) as [Eo En]. unfold ids_fresh.
  rewrite Eo, En, new_ids_app.
  assert (u64 (next_order_id_ (order_manager_ t) + 1) = next_order_id_ (order_manager_ t) + 1) as ->
    by (unfold wrap; apply Z.mod_small; lia).
  assert (new_ids [mkMEClientRequest Req_NEW (tr_client_id_ t) ticker_id (next_order_id_ (order_manager_ t)) side price qty]
    = [next_order_id_ (order_manager_ t)]) as -> by done.
  rewrite Forall_forall in Hf. split_and!; [| |lia].
  - apply StronglySorted_app. split_and!; [|done|repeat constructor].
    intros x y Hx ->%list_elem_of_singleton. by apply Hf.
  - apply Forall_app. split; [|by repeat constructor; lia]. apply Forall_forall. intros x Hx. specialize (Hf x Hx). lia.
Qed.

Lemma ids_fresh_cancel ticker_id side o t : ids_fresh t → ids_fresh (cancelOrder ticker_id side o t).
Proof.
  intros H. destruct (cancelOrder_out ticker_id side o t) as [Eo En]. unfold ids_fresh. rewrite Eo, En, new_ids_app.
  by rewrite app_nil_r.
Qed.

Lemma moveOrder_ids t t' ticker_id price side qty :
  ids_fresh t → next_order_id_ (order_manager_ t) + 1 < 2 ^ 64 → moveOrder ticker_id price side qty t = Ok t' →
  ids_fresh t' ∧ next_order_id_ (order_manager_ t') ≤ next_order_id_ (order_manager_ t) + 1.
Proof.
  intros Hf Hlt [|o _ _|o _ _ _ _]%moveOrder_outcome.
  - split; [done|lia].
  - split; [by apply ids_fresh_cancel|]. simpl. lia.
  - split; [by apply ids_fresh_new|]. rewrite (proj2 (newOrder_out _ _ _ _ _)). destruct Hf as (_ & _ & H0).
    unfold wrap. rewrite Z.mod_small; lia.
Qed.

Lemma cancel_if_live_ids t t' ticker_id side :
  ids_fresh t → cancel_if_live ticker_id side t = Ok t' →
  ids_fresh t' ∧ next_order_id_ (order_manager_ t') = next_order_id_ (order_manager_ t).
Proof.
  unfold cancel_if_live. intros Hf Hc. destruct (om_slot ticker_id side (order_manager_ t)) as [o|]; [|done].
  injection Hc as <-. case_bool_decide; [|done]. split; [by apply ids_fresh_cancel|done].
Qed.

Lemma set_om_slot_next ticker_id side o om : next_order_id_ (set_om_slot ticker_id side o om) = next_order_id_ om.
Proof. unfold set_om_slot. by repeat case_match. Qed.

(** A response sends nothing and uses no id. *)
Lemma onOrderUpdate_quiet t t' r :
  onOrderUpdate r t = Ok t' →
  outgoing_ogw_requests_ t' = outgoing_ogw_requests_ t
  ∧ next_order_id_ (order_manager_ t') = next_order_id_ (order_manager_ t).
Proof.
  intros (t1 & E1 & (om & E2 & [= <-])%bind_ok)%bind_ok.
  assert (outgoing_ogw_requests_ t1 = outgoing_ogw_requests_ t ∧ order_manager_ t1 = order_manager_ t) as [Eo Em].
  { case_bool_decide; [apply bind_ok in E1 as (k & _ & [= <-])|injection E1 as <-]; done. }
  cbn [outgoing_ogw_requests_ order_manager_ set_order_manager]. rewrite Em in E2. split; [done|].
  unfold om_onOrderUpdate in E2. destruct (om_slot _ _ _) as [o|]; [|done]. injection E2 as <-.
  destruct (resp_type_ r); rewrite ?set_om_slot_next; done.
Qed.

Lemma trader_step_ids t t' :
  ids_fresh t → next_order_id_ (order_manager_ t) + 2 < 2 ^ 64 → trader_step t t' →
  ids_fresh t' ∧ next_order_id_ (order_manager_ t') ≤ next_order_id_ (order_manager_ t) + 2.
Proof.
  intros Hf Hlt [tk bid ask clip t2 _ Hm|tk t2 Hm|tk bbo k Hm|tk ticks om Hm|r t2 _ _ Hm].
  - apply bind_ok in Hm as (t1 & E1 & E2).
    destruct (moveOrder_ids t t1 _ _ _ _ Hf ltac:(lia) E1) as [Hf1 Hn1].
    destruct (moveOrder_ids t1 t2 _ _ _ _ Hf1 ltac:(lia) E2) as [Hf2 Hn2]. split; [done|lia].
  - apply bind_ok in Hm as (t1 & E1 & E2).
    destruct (cancel_if_live_ids t t1 _ _ Hf E1) as [Hf1 Hn1].
    destruct (cancel_if_live_ids t1 t2 _ _ Hf1 E2) as [Hf2 Hn2]. split; [done|lia].
  - split; [done|]. cbn [order_manager_ set_keeper]. lia.
  - unfold setHysteresisTicks in Hm. case_decide; [|done]. injection Hm as <-. split; [done|].
    cbn [order_manager_ next_order_id_ set_order_manager]. lia.
  - destruct (onOrderUpdate_quiet t t2 r Hm) as [Eo En]. unfold ids_fresh. rewrite Eo, En. split; [done|lia].
Qed.

(** Each step uses at most two ids. *)
Lemma trader_steps_ids n t t' :
  ids_fresh t → next_order_id_ (order_manager_ t) + 2 * Z.of_nat n < 2 ^ 64 → nsteps trader_step n t t' →
  ids_fresh t'.
Proof.
  intros Hf Hn Hs. induction Hs as [|n t1 t2 t3 H1 _ IH]; [done|].
  destruct (trader_step_ids t1 t2 Hf ltac:(lia) H1) as [Hf2 Hn2]. apply IH; [done|lia].
Qed.
End Requests.
