(* ===== verification/Features.v ===== *)
(** * Market features.

    [Trading::Vpin] (src/trading/strategy/vpin.h), [Trading::FeatureEngine]
    (src/trading/strategy/feature_engine.h) and the configuration
    [TradeEngineCfg] (src/common/types.h), over any [Double].  The trade loop of
    [Vpin::onTrade] runs on fuel: in exact arithmetic [vpin_onTrade_ok] says how
    much is enough, conserves the traded volume and bounds the imbalances;
    [weighted_price_inside] places the fair price inside the spread. *)

From Stdlib Require Import QArith Qcanon ZArith.
From stdpp Require Import numbers gmap list.
From S2P Require Import Prelude Types MarketOrderBook Double Position OrderManager.

Open Scope Z_scope.

(** ** src/common/types.h: the configuration of a ticker *)

Record TradeEngineCfg (F : Type) := mkTradeEngineCfg {
  clip_ : Z;
  threshold_ : F;
  risk_cfg_ : RiskCfg F;
  use_as_ : bool;
  gamma_ : F;
  kappa_ : F;
  session_hours_ : F;
  use_ofi_ : bool;
  beta_ofi_ : F;
  cfg_hysteresis_ticks_ : Z;
  use_adaptive_clip_ : bool;
  sigma_ref_ : F;
  cfg_ewma_decay_ : F;
  cfg_ofi_decay_ : F;
  cfg_ewma_decay_long_ : F;
  cfg_vol_bootstrap_ : Z;
  maker_rebate_bps_ : F;
  spread_widen_ofi_ : F;
  use_killswitch_ : bool;
  killswitch_ofi_ : F;
  killswitch_micro_ticks_ : F;
  use_regime_gamma_ : bool;
  regime_gamma_scale_ : F;
  cfg_use_stoikov_micro_ : bool;
  cfg_use_vpin_ : bool;
  vpin_bucket_size_ : F;
  vpin_threshold_ : F;
  vpin_widen_mult_ : F;
  vpin_kill_scale_ : F }.

(** The default member initialisers. *)
Definition TradeEngineCfg_default {F} `{!Double F} : TradeEngineCfg F :=
  let q (n d : Z) : F := (d_of_Z n / d_of_Z d)%D in
  mkTradeEngineCfg F 0 (q 0 1) (mkRiskCfg 0 0 (q 0 1)) false (q 1 10) (q 3 2) (q 13 2) false (q 0 1) 0 false (q 1 1)
    (q 94 100) (q 9 10) (q 985 1000) 50 (q 0 1) (q 0 1) false (q 0 1) (q 0 1) false (q 1 1) false false (q 0 1)
    (q 46 100) (q 2 1) (q 1 2).

Arguments clip_ {F} _.
Arguments threshold_ {F} _.
Arguments risk_cfg_ {F} _.
Arguments use_as_ {F} _.
Arguments gamma_ {F} _.
Arguments kappa_ {F} _.
Arguments session_hours_ {F} _.
Arguments use_ofi_ {F} _.
Arguments beta_ofi_ {F} _.
Arguments cfg_hysteresis_ticks_ {F} _.
Arguments use_adaptive_clip_ {F} _.
Arguments sigma_ref_ {F} _.
Arguments cfg_ewma_decay_ {F} _.
Arguments cfg_ofi_decay_ {F} _.
Arguments cfg_ewma_decay_long_ {F} _.
Arguments cfg_vol_bootstrap_ {F} _.
Arguments maker_rebate_bps_ {F} _.
Arguments spread_widen_ofi_ {F} _.
Arguments use_killswitch_ {F} _.
Arguments killswitch_ofi_ {F} _.
Arguments killswitch_micro_ticks_ {F} _.
Arguments use_regime_gamma_ {F} _.
Arguments regime_gamma_scale_ {F} _.
Arguments cfg_use_stoikov_micro_ {F} _.
Arguments cfg_use_vpin_ {F} _.
Arguments vpin_bucket_size_ {F} _.
Arguments vpin_threshold_ {F} _.
Arguments vpin_widen_mult_ {F} _.
Arguments vpin_kill_scale_ {F} _.

(** ** src/trading/strategy/vpin.h, at the window of the feature engine *)

Definition kVpinWindow : Z := 50.

Record Vpin (F : Type) := mkVpin {
  bucket_size_ : F;
  cur_buy_ : F;
  cur_sell_ : F;
  cur_filled_ : F;
  imbalances_ : list F;
  head_ : Z;
  buckets_seen_ : Z }.
Arguments mkVpin {F} _ _ _ _ _ _ _.
Arguments bucket_size_ {F} _.
Arguments cur_buy_ {F} _.
Arguments cur_sell_ {F} _.
Arguments cur_filled_ {F} _.
Arguments imbalances_ {F} _.
Arguments head_ {F} _.
Arguments buckets_seen_ {F} _.

Section Vpin.
Context {F : Type} `{!Double F}.
Implicit Types (v : Vpin F).

Definition Vpin_new : Vpin F :=
  mkVpin (d_of_Z 0) (d_of_Z 0) (d_of_Z 0) (d_of_Z 0) (replicate (Z.to_nat kVpinWindow) (d_of_Z 0)) 0 0.

Definition setBucketSize (bucket_size : F) v : Vpin F :=
  mkVpin bucket_size (cur_buy_ v) (cur_sell_ v) (cur_filled_ v) (imbalances_ v) (head_ v) (buckets_seen_ v).

Definition closeBucket v : Vpin F :=
  let imb := if (d_of_Z 0 <? bucket_size_ v)%D then (d_abs (cur_buy_ v - cur_sell_ v) / bucket_size_ v)%D
             else d_of_Z 0 in
  mkVpin (bucket_size_ v) (d_of_Z 0) (d_of_Z 0) (d_of_Z 0) (<[Z.to_nat (head_ v) := imb]> (imbalances_ v))
    ((head_ v + 1) `mod` kVpinWindow)
    (if buckets_seen_ v <? kVpinWindow * 2 then buckets_seen_ v + 1 else buckets_seen_ v).

(** [take] of the trade goes into the open bucket. *)
Definition fill_bucket (take : F) (is_buyer_initiated : bool) v : Vpin F :=
  mkVpin (bucket_size_ v)
    (if is_buyer_initiated then cur_buy_ v + take else cur_buy_ v)%D
    (if is_buyer_initiated then cur_sell_ v else cur_sell_ v + take)%D
    (cur_filled_ v + take)%D (imbalances_ v) (head_ v) (buckets_seen_ v).

Fixpoint onTrade_loop (fuel : nat) (remaining : F) (is_buyer_initiated : bool) v : result (Vpin F) :=
  if negb (d_of_Z 0 <? remaining)%D then Ok v else
  match fuel with
  | O => Err OutOfFuel
  | S fuel =>
      let room := (bucket_size_ v - cur_filled_ v)%D in
      let take := d_min room remaining in
      let v := fill_bucket take is_buyer_initiated v in
      let remaining := (remaining - take)%D in
      onTrade_loop fuel remaining is_buyer_initiated
        (if (bucket_size_ v <=? cur_filled_ v)%D then closeBucket v else v)
  end.

Definition vpin_onTrade (fuel : nat) (qty : F) (is_buyer_initiated : bool) v : result (Vpin F) :=
  if (bucket_size_ v <=? d_of_Z 0)%D then Ok v else onTrade_loop fuel qty is_buyer_initiated v.

Definition vpin_sum v : F := foldl d_add (d_of_Z 0) (imbalances_ v).

Definition vpin_value `{!DoubleMath F} v : F :=
  if buckets_seen_ v <? kVpinWindow then d_nan else (vpin_sum v / d_of_Z kVpinWindow)%D.
End Vpin.

(** ** src/trading/strategy/feature_engine.h *)

(** Volatility of the mid price: [prev_mid_] to [vol_samples_]. *)
Record Volatility (F : Type) := mkVolatility {
  prev_mid_ : F;
  ewma_variance_ : F;
  ewma_variance_long_ : F;
  volatility_ : F;
  volatility_long_ : F;
  vol_samples_ : Z }.
Arguments mkVolatility {F} _ _ _ _ _ _.
Arguments prev_mid_ {F} _.
Arguments ewma_variance_ {F} _.
Arguments ewma_variance_long_ {F} _.
Arguments volatility_ {F} _.
Arguments volatility_long_ {F} _.
Arguments vol_samples_ {F} _.

(** Order-flow imbalance; the previous touch is a [BBO]. *)
Record OrderFlow (F : Type) := mkOrderFlow { prev_bbo_ : BBO; ofi_ : F }.
Arguments mkOrderFlow {F} _ _.
Arguments prev_bbo_ {F} _.
Arguments ofi_ {F} _.

Record FeatureEngine (F : Type) := mkFeatureEngine {
  mkt_price_ : F;
  agg_trade_qty_ratio_ : F;
  fe_vol : Volatility F;
  ewma_decay_ : F;
  ewma_decay_long_ : F;
  vol_bootstrap_ : Z;
  use_stoikov_micro_ : bool;
  fe_ofi : OrderFlow F;
  ofi_decay_ : F;
  vpin_ : Vpin F;
  use_vpin_ : bool }.
Arguments mkFeatureEngine {F} _ _ _ _ _ _ _ _ _ _ _.
Arguments mkt_price_ {F} _.
Arguments agg_trade_qty_ratio_ {F} _.
Arguments fe_vol {F} _.
Arguments ewma_decay_ {F} _.
Arguments ewma_decay_long_ {F} _.
Arguments vol_bootstrap_ {F} _.
Arguments use_stoikov_micro_ {F} _.
Arguments fe_ofi {F} _.
Arguments ofi_decay_ {F} _.
Arguments vpin_ {F} _.
Arguments use_vpin_ {F} _.

Definition bbo_valid (bbo : BBO) : bool :=
  negb (bid_price_ bbo =? Price_INVALID) && negb (ask_price_ bbo =? Price_INVALID).

Section Features.
Context {F : Type} `{!Double F} `{!DoubleMath F}.
Implicit Types (fe : FeatureEngine F).

Definition FeatureEngine_new (cfg : TradeEngineCfg F) : FeatureEngine F :=
  mkFeatureEngine d_nan d_nan (mkVolatility d_nan (d_of_Z 0) (d_of_Z 0) d_nan d_nan 0)
    (cfg_ewma_decay_ cfg) (cfg_ewma_decay_long_ cfg) (cfg_vol_bootstrap_ cfg) (cfg_use_stoikov_micro_ cfg)
    (mkOrderFlow BBO_default (d_of_Z 0)) (cfg_ofi_decay_ cfg)
    (if cfg_use_vpin_ cfg && (d_of_Z 0 <? vpin_bucket_size_ cfg)%D
     then setBucketSize (vpin_bucket_size_ cfg) Vpin_new else Vpin_new)
    (cfg_use_vpin_ cfg).

Definition half : F := (d_of_Z 1 / d_of_Z 2)%D.

(** [0.5 * (bid + ask)], the sum in 64 bits. *)
Definition mid_price (bbo : BBO) : result F :=
  let* sum := int64 (bid_price_ bbo + ask_price_ bbo) in
  Ok (half * d_of_Z sum)%D.

(** The fair price; the total quantity is a 32-bit sum. *)
Definition micro_price (stoikov : bool) (bbo : BBO) : result F :=
  let total_q := d_of_Z (u32 (bid_qty_ bbo + ask_qty_ bbo)) in
  if stoikov then
    let* mid_now := mid_price bbo in
    let* spread := int64 (ask_price_ bbo - bid_price_ bbo) in
    let imb := if (d_of_Z 0 <? total_q)%D
               then ((d_of_Z (bid_qty_ bbo) - d_of_Z (ask_qty_ bbo)) / total_q)%D else d_of_Z 0 in
    Ok (mid_now + half * d_of_Z spread * imb)%D
  else
    let* a := int64 (bid_price_ bbo * ask_qty_ bbo) in
    let* b := int64 (ask_price_ bbo * bid_qty_ bbo) in
    let* n := int64 (a + b) in
    Ok (d_of_Z n / total_q)%D.

(** [decay * old + (1 - decay) * x * y] *)
Definition ewma (decay old x y : F) : F := (decay * old + (d_of_Z 1 - decay) * x * y)%D.

Definition update_volatility (decay decay_long : F) (bootstrap : Z) (mid : F) (w : Volatility F) : Volatility F :=
  if negb (d_isnan (prev_mid_ w)) then
    let ret := (mid - prev_mid_ w)%D in
    let var := ewma decay (ewma_variance_ w) ret ret in
    let var_long := ewma decay_long (ewma_variance_long_ w) ret ret in
    let samples := u64 (vol_samples_ w + 1) in
    if bootstrap <=? samples
    then mkVolatility mid var var_long (d_sqrt var) (d_sqrt var_long) samples
    else mkVolatility mid var var_long (volatility_ w) (volatility_long_ w) samples
  else mkVolatility mid (ewma_variance_ w) (ewma_variance_long_ w) (volatility_ w) (volatility_long_ w)
         (vol_samples_ w).

(** The signed contribution of the two sides. *)
Definition bid_flow (bbo prev : BBO) : F :=
  if bid_price_ prev <? bid_price_ bbo then d_of_Z (bid_qty_ bbo)
  else if bid_price_ bbo =? bid_price_ prev then (d_of_Z (bid_qty_ bbo) - d_of_Z (bid_qty_ prev))%D
  else d_opp (d_of_Z (bid_qty_ prev)).

Definition ask_flow (bbo prev : BBO) : F :=
  if ask_price_ bbo <? ask_price_ prev then d_of_Z (ask_qty_ bbo)
  else if ask_price_ bbo =? ask_price_ prev then (d_of_Z (ask_qty_ bbo) - d_of_Z (ask_qty_ prev))%D
  else d_opp (d_of_Z (ask_qty_ prev)).

Definition update_ofi (decay : F) (bbo : BBO) (w : OrderFlow F) : OrderFlow F :=
  let prev := prev_bbo_ w in
  mkOrderFlow bbo
    (if bbo_valid prev
     then (decay * ofi_ w + (d_of_Z 1 - decay) * (bid_flow bbo prev - ask_flow bbo prev))%D
     else ofi_ w).

Definition features_onOrderBookUpdate (bbo : BBO) fe : result (FeatureEngine F) :=
  if bbo_valid bbo then
    let* price := micro_price (use_stoikov_micro_ fe) bbo in
    let* mid := mid_price bbo in
    Ok (mkFeatureEngine price (agg_trade_qty_ratio_ fe)
          (update_volatility (ewma_decay_ fe) (ewma_decay_long_ fe) (vol_bootstrap_ fe) mid (fe_vol fe))
          (ewma_decay_ fe) (ewma_decay_long_ fe) (vol_bootstrap_ fe) (use_stoikov_micro_ fe)
          (update_ofi (ofi_decay_ fe) bbo (fe_ofi fe)) (ofi_decay_ fe) (vpin_ fe) (use_vpin_ fe))
  else Ok fe.

Definition features_onTradeUpdate (fuel : nat) (u : MEMarketUpdate) (bbo : BBO) fe : result (FeatureEngine F) :=
  let ratio :=
    if bbo_valid bbo
    then (d_of_Z (mu_qty_ u) / d_of_Z (if bool_decide (mu_side_ u = BUY) then ask_qty_ bbo else bid_qty_ bbo))%D
    else agg_trade_qty_ratio_ fe in
  let* vpin := (if use_vpin_ fe then vpin_onTrade fuel (d_of_Z (mu_qty_ u)) (bool_decide (mu_side_ u = BUY)) (vpin_ fe)
                else Ok (vpin_ fe)) in
  Ok (mkFeatureEngine (mkt_price_ fe) ratio (fe_vol fe) (ewma_decay_ fe) (ewma_decay_long_ fe) (vol_bootstrap_ fe)
        (use_stoikov_micro_ fe) (fe_ofi fe) (ofi_decay_ fe) vpin (use_vpin_ fe)).
End Features.

(** ** VPIN in exact arithmetic *)

Section ExactVpin.
Implicit Types (v : Vpin Qc).

Definition unit_interval (x : Qc) : Prop := (0 <= x)%Qc ∧ (x <= 1)%Qc.

Record vpin_inv v : Prop := {
  vi_bucket : (0 < bucket_size_ v)%Qc;
  vi_buy : (0 <= cur_buy_ v)%Qc;
  vi_sell : (0 <= cur_sell_ v)%Qc;
  vi_filled : (cur_buy_ v + cur_sell_ v = cur_filled_ v)%Qc;
  vi_room : (cur_filled_ v < bucket_size_ v)%Qc;
  vi_length : length (imbalances_ v) = Z.to_nat kVpinWindow;
  vi_head : 0 ≤ head_ v < kVpinWindow;
  vi_imbalances : Forall unit_interval (imbalances_ v);
  vi_seen : 0 ≤ buckets_seen_ v ≤ 2 * kVpinWindow }.

Lemma vpin_inv_new (bucket_size : Qc) : (0 < bucket_size)%Qc → vpin_inv (setBucketSize bucket_size Vpin_new).
Proof.
  intros Hb. unfold Vpin_new, setBucketSize, kVpinWindow. cbn [d_of_Z Qc_Double]. rewrite Qc_of_Z_0.
  split; cbn [bucket_size_ cur_buy_ cur_sell_ cur_filled_ imbalances_ head_ buckets_seen_]; try done; try lia.
  apply Forall_replicate. split; done.
Qed.

Lemma Qc_abs_bound (x y b : Qc) : (0 <= x)%Qc → (0 <= y)%Qc → (x + y = b)%Qc → (0 <= Qc_abs (x - y) <= b)%Qc.
Proof.
  intros Hx Hy Hb. unfold Qc_abs. destruct (Qc_ltb_spec (x - y) 0) as [H|H]; split; qc_lra.
Qed.

(** A full bucket is closed. *)
Lemma closeBucket_inv v :
  (0 < bucket_size_ v)%Qc → (0 <= cur_buy_ v)%Qc → (0 <= cur_sell_ v)%Qc →
  (cur_buy_ v + cur_sell_ v = bucket_size_ v)%Qc → length (imbalances_ v) = Z.to_nat kVpinWindow →
  0 ≤ head_ v < kVpinWindow → Forall unit_interval (imbalances_ v) → 0 ≤ buckets_seen_ v ≤ 2 * kVpinWindow →
  vpin_inv (closeBucket v) ∧ cur_filled_ (closeBucket v) = 0%Qc.
Proof.
  intros Hb Hbuy Hsell Hsum Hl Hh Hi Hs. unfold closeBucket. cbn [d_of_Z d_ltb Qc_Double]. rewrite Qc_of_Z_0.
  destruct (Qc_ltb_spec 0 (bucket_size_ v)) as [_|Hle]; [|by apply Qcle_not_lt in Hle].
  split; [|done]. split; cbn [bucket_size_ cur_buy_ cur_sell_ cur_filled_ imbalances_ head_ buckets_seen_]; try done.
  - by rewrite length_insert.
  - by apply Z.mod_pos_bound.
  - apply Forall_insert; [done|]. split; by apply Qc_div_between, Qc_abs_bound.
  - unfold kVpinWindow in *. destruct (Z.ltb_spec (buckets_seen_ v) (50 * 2)); lia.
Qed.

(** One round of the loop: the trade ends in the open bucket, or fills it. *)
Lemma vpin_round v remaining b :
  vpin_inv v → (0 < remaining)%Qc →
  let take := d_min (bucket_size_ v - cur_filled_ v)%D remaining in
  let v1 := fill_bucket take b v in
  let v' := if (bucket_size_ v1 <=? cur_filled_ v1)%D then closeBucket v1 else v1 in
  vpin_inv v' ∧ bucket_size_ v' = bucket_size_ v
  ∧ ((remaining - take = 0)%Qc ∧ (cur_filled_ v' = cur_filled_ v + remaining)%Qc
     ∨ (take = bucket_size_ v - cur_filled_ v)%Qc ∧ (take <= remaining)%Qc ∧ cur_filled_ v' = 0%Qc).
Proof.
  intros Hv Hr take v1 v'. destruct Hv as [H1 H2 H3 H4 H5 H6 H7 H8 H9].
  assert (0 < take)%Qc as Ht.
  { subst take. unfold d_min. cbn [d_ltb d_sub Qc_Double]. destruct (Qc_ltb_spec remaining (bucket_size_ v - cur_filled_ v)); qc_lra. }
  assert (0 <= cur_buy_ v1)%Qc as Hb1 by (subst v1; destruct b; cbn [fill_bucket cur_buy_ d_add Qc_Double]; qc_lra).
  assert (0 <= cur_sell_ v1)%Qc as Hs1 by (subst v1; destruct b; cbn [fill_bucket cur_sell_ d_add Qc_Double]; qc_lra).
  assert (cur_buy_ v1 + cur_sell_ v1 = cur_filled_ v + take)%Qc as Hf1
    by (subst v1; destruct b; cbn [fill_bucket cur_buy_ cur_sell_ d_add Qc_Double]; qc_lra).
  assert (cur_filled_ v1 = cur_filled_ v + take)%Qc as Hf by done.
  subst v'. destruct (Qc_leb_spec (bucket_size_ v1) (cur_filled_ v1)) as [Hle|Hlt];
    change (bucket_size_ v1) with (bucket_size_ v) in *.
  - assert (take = bucket_size_ v - cur_filled_ v ∧ take <= remaining)%Qc as [Et Hle'].
    { subst take. unfold d_min in *. cbn [d_ltb d_sub Qc_Double] in *.
      destruct (Qc_ltb_spec remaining (bucket_size_ v - cur_filled_ v)); split; qc_lra. }
    destruct (closeBucket_inv v1) as [Hi Hc]; try done; [change (bucket_size_ v1) with (bucket_size_ v); qc_lra|].
    split_and!; [done|done|]. right. split_and!; done.
  - split_and!; [|done|left; split].
    + by split.
    + subst take. unfold d_min in *. cbn [d_ltb d_sub Qc_Double] in *.
      destruct (Qc_ltb_spec remaining (bucket_size_ v - cur_filled_ v)); qc_lra.
    + rewrite Hf. subst take. unfold d_min in *. cbn [d_ltb d_sub Qc_Double] in *.
      destruct (Qc_ltb_spec remaining (bucket_size_ v - cur_filled_ v)); [done|qc_lra].
Qed.

Lemma Qc_of_nat_S n : Qc_of_Z (Z.of_nat (S n)) = (Qc_of_Z (Z.of_nat n) + 1)%Qc.
Proof. by rewrite Nat2Z.inj_succ, <- Z.add_1_r, Qc_of_Z_add, Qc_of_Z_1. Qed.

Lemma onTrade_loop_done n v remaining b :
  (remaining <= 0)%Qc → onTrade_loop n remaining b v = Ok v.
Proof.
  intros Hr. destruct n; cbn [onTrade_loop d_ltb d_of_Z Qc_Double]; rewrite Qc_of_Z_0;
    (destruct (Qc_ltb_spec 0 remaining); [by apply Qcle_not_lt in Hr|done]).
Qed.

Lemma onTrade_loop_round n v remaining b :
  (0 < remaining)%Qc →
  onTrade_loop (S n) remaining b v =
    let take := d_min (bucket_size_ v - cur_filled_ v)%D remaining in
    let v1 := fill_bucket take b v in
    onTrade_loop n (remaining - take)%D b (if (bucket_size_ v1 <=? cur_filled_ v1)%D then closeBucket v1 else v1).
Proof.
  intros Hr. cbn [onTrade_loop]. cbn [d_ltb d_of_Z Qc_Double]. rewrite Qc_of_Z_0.
  destruct (Qc_ltb_spec 0 remaining) as [_|Hle]; [done|by apply Qcle_not_lt in Hle].
Qed.

(** The trade fills [k] buckets and part of the next one. *)
Lemma onTrade_loop_ok n v remaining b :
  vpin_inv v → (0 <= remaining)%Qc →
  (remaining <= bucket_size_ v - cur_filled_ v + Qc_of_Z (Z.of_nat n) * bucket_size_ v)%Qc →
  ∃ v' (k : nat), onTrade_loop (S n) remaining b v = Ok v' ∧ vpin_inv v' ∧ bucket_size_ v' = bucket_size_ v
    ∧ (cur_filled_ v' + Qc_of_Z (Z.of_nat k) * bucket_size_ v = cur_filled_ v + remaining)%Qc.
Proof.
  revert v remaining. induction n as [|n IH]; intros v remaining Hv Hr Hn;
    (apply Qcle_lt_or_eq in Hr as [Hpos| <-];
      [|rewrite onTrade_loop_done by apply Qcle_refl; exists v, 0%nat; split_and!; [done..|];
        change (Z.of_nat 0) with 0; rewrite Qc_of_Z_0; ring]).
  all: rewrite onTrade_loop_round by done; destruct (vpin_round v remaining b Hv Hpos) as (Hi & Hb & Hcase).
  all: cbv zeta; set (take := d_min _ remaining) in *; set (v' := if (_ <=? _)%D then _ else _) in *.
  all: cbn [d_sub Qc_Double] in *.
  all: destruct Hcase as [[E0 Ef]|(Et & Hle' & Ef)];
    [rewrite E0, onTrade_loop_done by apply Qcle_refl; exists v', 0%nat; split_and!; [done..|];
     change (Z.of_nat 0) with 0; rewrite Ef, Qc_of_Z_0; ring|].
  - change (Z.of_nat 0) with 0 in Hn. rewrite Qc_of_Z_0, Qcmult_0_l in Hn.
    rewrite onTrade_loop_done by qc_lra. exists v', 1%nat. split_and!; [done..|].
    change (Z.of_nat 1) with 1. rewrite Ef, Qc_of_Z_1, Qcmult_1_l. qc_lra.
  - rewrite Qc_of_nat_S, Qcmult_plus_distr_l, Qcmult_1_l in Hn.
    destruct (IH v' (remaining - take)%Qc Hi) as (v2 & k & E & Hi2 & Hb2 & Hf2).
    + qc_lra.
    + rewrite Hb, Ef. qc_lra.
    + exists v2, (S k). split_and!; [done|done|congruence|].
      rewrite Qc_of_nat_S, Qcmult_plus_distr_l, Qcmult_1_l. rewrite Hb in Hf2. qc_lra.
Qed.

Lemma vpin_onTrade_ok n v qty b :
  vpin_inv v → (0 <= qty)%Qc → (qty <= Qc_of_Z (Z.of_nat n) * bucket_size_ v)%Qc →
  ∃ v' (k : nat), vpin_onTrade (S n) qty b v = Ok v' ∧ vpin_inv v' ∧ bucket_size_ v' = bucket_size_ v
    ∧ (cur_filled_ v' + Qc_of_Z (Z.of_nat k) * bucket_size_ v = cur_filled_ v + qty)%Qc.
Proof.
  intros Hv Hq Hn. pose proof (vi_bucket _ Hv) as Hb. pose proof (vi_room _ Hv) as Hroom.
  unfold vpin_onTrade. cbn [d_of_Z Qc_Double]. rewrite Qc_of_Z_0.
  destruct (Qc_leb_spec (bucket_size_ v) 0); [qc_lra|]. apply onTrade_loop_ok; [done..|]. qc_lra.
Qed.

Lemma foldl_add_bound (l : list Qc) (acc : Qc) :
  Forall unit_interval l →
  (acc <= foldl d_add acc l)%Qc ∧ (foldl d_add acc l <= acc + Qc_of_Z (Z.of_nat (length l)))%Qc.
Proof.
  revert acc. induction l as [|x l IH]; intros acc.
  - intros _. change (Z.of_nat (length (@nil Qc))) with 0. cbn [foldl]. rewrite Qc_of_Z_0. split; qc_lra.
  - intros [[H0 H1] Hl]%Forall_cons. destruct (IH (acc + x)%Qc Hl) as [I1 I2].
    cbn [foldl length d_add Qc_Double] in *. rewrite Qc_of_nat_S. split; qc_lra.
Qed.

Lemma vpin_sum_bound v : vpin_inv v → unit_interval (vpin_sum v / d_of_Z kVpinWindow)%D.
Proof.
  intros Hv. destruct (foldl_add_bound (imbalances_ v) (Qc_of_Z 0) (vi_imbalances _ Hv)) as [H0 H1].
  rewrite (vi_length _ Hv), Qc_of_Z_0 in H1. rewrite Qc_of_Z_0 in H0. apply Qc_div_between.
  - unfold kVpinWindow. by apply (Qc_of_Z_lt 0 50).
  - unfold vpin_sum. cbn [d_of_Z Qc_Double]. rewrite Qc_of_Z_0. rewrite Qcplus_0_l in H1. done.
Qed.
End ExactVpin.

(** ** The fair price in exact arithmetic *)

(** A touch with both sides, quantities whose sum fits 32 bits and prices whose
    notional fits 64 bits. *)
Record touch_ok (bbo : BBO) : Prop := {
  to_bid_qty : 0 ≤ bid_qty_ bbo;
  to_ask_qty : 0 ≤ ask_qty_ bbo;
  to_total : 0 < bid_qty_ bbo + ask_qty_ bbo < 2 ^ 32;
  to_bid : Z.abs (bid_price_ bbo) ≤ 2 ^ 30;
  to_ask : Z.abs (ask_price_ bbo) ≤ 2 ^ 30 }.

(** The quantity-weighted price, each price weighted by the other side's size. *)
Definition weighted_price (bbo : BBO) : Qc :=
  (Qc_of_Z (bid_price_ bbo * ask_qty_ bbo + ask_price_ bbo * bid_qty_ bbo)
   / Qc_of_Z (bid_qty_ bbo + ask_qty_ bbo))%Qc.

Lemma micro_price_exact stoikov bbo : touch_ok bbo → micro_price stoikov bbo = Ok (weighted_price bbo).
Proof.
  intros [H1 H2 H3 H4 H5]. unfold micro_price, mid_price, weighted_price, half.
  assert (u32 (bid_qty_ bbo + ask_qty_ bbo) = bid_qty_ bbo + ask_qty_ bbo) as -> by (apply Z.mod_small; lia).
  cbn [d_of_Z d_ltb d_mul d_div d_add d_sub Qc_Double].
  assert (Qc_of_Z (bid_qty_ bbo + ask_qty_ bbo) ≠ 0%Qc) as Hne by (apply Qc_of_Z_nonzero; lia).
  destruct stoikov.
  - rewrite (int64_ok (bid_price_ bbo + ask_price_ bbo)), (int64_ok (ask_price_ bbo - bid_price_ bbo)) by lia.
    cbn [rbind]. rewrite Qc_of_Z_0.
    destruct (Qc_ltb_spec 0 (Qc_of_Z (bid_qty_ bbo + ask_qty_ bbo))) as [_|Hle].
    + f_equal. replace (ask_price_ bbo - bid_price_ bbo) with (ask_price_ bbo + - bid_price_ bbo) by lia.
      rewrite !Qc_of_Z_add, Qc_of_Z_opp, !Qc_of_Z_mul. rewrite Qc_of_Z_add in Hne.
      change (Qc_of_Z 1) with 1%Qc. change (Qc_of_Z 2) with (1 + 1)%Qc. field. split; [done|].
      by intros E%(f_equal this).
    + pose proof (Qc_of_Z_lt 0 (bid_qty_ bbo + ask_qty_ bbo) ltac:(lia)) as Hlt. rewrite Qc_of_Z_0 in Hlt.
      by apply Qcle_not_lt in Hle.
  - assert (∀ p q, Z.abs p ≤ 2 ^ 30 → 0 ≤ q → Z.abs (p * q) ≤ 2 ^ 30 * q) as Hm by (intros; nia).
    pose proof (Hm (bid_price_ bbo) (ask_qty_ bbo) H4 H2).
    pose proof (Hm (ask_price_ bbo) (bid_qty_ bbo) H5 H1).
    rewrite (int64_ok (bid_price_ bbo * ask_qty_ bbo)), (int64_ok (ask_price_ bbo * bid_qty_ bbo)) by lia.
    cbn [rbind]. by rewrite int64_ok by lia.
Qed.

Lemma Qc_div_bounds (a x d b : Z) :
  0 < d → a * d ≤ x ≤ b * d → (Qc_of_Z a <= Qc_of_Z x / Qc_of_Z d)%Qc ∧ (Qc_of_Z x / Qc_of_Z d <= Qc_of_Z b)%Qc.
Proof.
  intros Hd [H1 H2]. pose proof (Qc_of_Z_lt 0 d Hd) as Hlt. rewrite Qc_of_Z_0 in Hlt.
  assert (Qc_of_Z d ≠ 0%Qc) as Hne by (apply Qc_of_Z_nonzero; lia).
  assert (Hx : (Qc_of_Z x = Qc_of_Z x / Qc_of_Z d * Qc_of_Z d)%Qc) by (by field).
  apply Qc_of_Z_le in H1, H2. rewrite Qc_of_Z_mul in H1, H2. rewrite Hx in H1, H2.
  split; eapply Qcmult_lt_0_le_reg_r; [exact Hlt|exact H1|exact Hlt|exact H2].
Qed.

Lemma weighted_price_inside bbo :
  touch_ok bbo → bid_price_ bbo ≤ ask_price_ bbo →
  (Qc_of_Z (bid_price_ bbo) <= weighted_price bbo)%Qc ∧ (weighted_price bbo <= Qc_of_Z (ask_price_ bbo))%Qc.
Proof. intros [H1 H2 H3 H4 H5] Hle. apply Qc_div_bounds; [lia|nia]. Qed.
