(* ===== verification/Reports.v ===== *)
(** * What the program prints of its state.

    The [toString] members of orders, price levels, positions, limits and
    parameters (src/exchange/matcher/me_order.{h,cpp},
    src/trading/strategy/{market_order.h,market_order.cpp,om_order.h,
    position_keeper.h,risk_manager.h}, src/common/types.h), and the report of the
    positions that [TradeEngine::stop] logs.

    [keeper_report]: the report has one line per ticker that begins with its
    position, then the totals. *)

From stdpp Require Import strings pretty numbers gmap list.
From S2P Require Import Prelude Types MemPool LFQueue Double Logging LatencyHistogram BookCore MEOrderBook MarketOrderBook Position OrderManager Features.

Open Scope Z_scope.
Local Coercion Z.of_nat : nat >-> Z.

(** ** Orders and price levels *)

Definition MEOrder_toString (p : MemPool MEOrder) (o : MEOrder) : string :=
  let link r := match r with Some i => market_order_id_ (obj p i) | None => OrderId_INVALID end in
  "MEOrder[" +:+ "ticker:" +:+ tickerIdToString (ticker_id_ o) +:+ " "
  +:+ "cid:" +:+ clientIdToString (client_id_ o) +:+ " "
  +:+ "oid:" +:+ orderIdToString (client_order_id_ o) +:+ " "
  +:+ "moid:" +:+ orderIdToString (market_order_id_ o) +:+ " "
  +:+ "side:" +:+ sideToString (side_ o) +:+ " "
  +:+ "price:" +:+ priceToString (price_ o) +:+ " "
  +:+ "qty:" +:+ qtyToString (qty_ o) +:+ " "
  +:+ "prio:" +:+ priorityToString (priority_ o) +:+ " "
  +:+ "prev:" +:+ orderIdToString (link (prev_order_ o)) +:+ " "
  +:+ "next:" +:+ orderIdToString (link (next_order_ o)) +:+ "]".

Definition MarketOrder_toString (p : MemPool MarketOrder) (o : MarketOrder) : string :=
  let link r := match r with Some i => mo_order_id_ (obj p i) | None => OrderId_INVALID end in
  "MarketOrder[" +:+ "oid:" +:+ orderIdToString (mo_order_id_ o) +:+ " "
  +:+ "side:" +:+ sideToString (mo_side_ o) +:+ " "
  +:+ "price:" +:+ priceToString (mo_price_ o) +:+ " "
  +:+ "qty:" +:+ qtyToString (mo_qty_ o) +:+ " "
  +:+ "prio:" +:+ priorityToString (mo_priority_ o) +:+ " "
  +:+ "prev:" +:+ orderIdToString (link (mo_prev_order_ o)) +:+ " "
  +:+ "next:" +:+ orderIdToString (link (mo_next_order_ o)) +:+ "]".

(** The text of a level is the same in both books but for the names; [first] is the
    text of its first order. *)
Definition level_text (name first_name first : string) (p : MemPool OrdersAtPrice) (l : OrdersAtPrice) : string :=
  let link r := match r with Some i => lvl_price_ (obj p i) | None => Price_INVALID end in
  name +:+ "[" +:+ "side:" +:+ sideToString (lvl_side_ l) +:+ " "
  +:+ "price:" +:+ priceToString (lvl_price_ l) +:+ " "
  +:+ first_name +:+ ":" +:+ first +:+ " "
  +:+ "prev:" +:+ priceToString (link (prev_entry_ l)) +:+ " "
  +:+ "next:" +:+ priceToString (link (next_entry_ l)) +:+ "]".

Definition MEOrdersAtPrice_toString (b : Book MEOrder (Z * Z)) (l : OrdersAtPrice) : string :=
  level_text "MEOrdersAtPrice" "first_me_order"
    (match first_order_ l with Some i => MEOrder_toString (order_pool_ b) (obj (order_pool_ b) i) | None => "null" end)
    (orders_at_price_pool_ b) l.

Definition MarketOrdersAtPrice_toString (b : Book MarketOrder Z) (l : OrdersAtPrice) : string :=
  level_text "MarketOrdersAtPrice" "first_mkt_order"
    (match first_order_ l with Some i => MarketOrder_toString (order_pool_ b) (obj (order_pool_ b) i) | None => "null" end)
    (orders_at_price_pool_ b) l.

Definition OMOrderStateToString (s : OMOrderState) : string :=
  match s with
  | PENDING_NEW => "PENDING_NEW"
  | LIVE => "LIVE"
  | PENDING_CANCEL => "PENDING_CANCEL"
  | DEAD => "DEAD"
  | OM_INVALID => "INVALID"
  end.

Definition OMOrder_toString (o : OMOrder) : string :=
  "OMOrder[" +:+ "tid:" +:+ tickerIdToString (om_ticker_id_ o) +:+ " "
  +:+ "oid:" +:+ orderIdToString (om_order_id_ o) +:+ " "
  +:+ "side:" +:+ sideToString (om_side_ o) +:+ " "
  +:+ "price:" +:+ priceToString (om_price_ o) +:+ " "
  +:+ "qty:" +:+ qtyToString (om_qty_ o) +:+ " "
  +:+ "state:" +:+ OMOrderStateToString (order_state_ o) +:+ "]".

Definition riskCheckResultToString (r : RiskCheckResult) : string :=
  match r with
  | Risk_INVALID => "INVALID"
  | ORDER_TOO_LARGE => "ORDER_TOO_LARGE"
  | POSITION_TOO_LARGE => "POSITION_TOO_LARGE"
  | LOSS_TOO_LARGE => "LOSS_TOO_LARGE"
  | ALLOWED => "ALLOWED"
  end.

(** ** Parameters, limits and positions *)

Section Reports.
Context {F : Type} `{!Double F} `{!DoubleText F}.

Definition flag (b : bool) : string := if b then "1" else "0".

Definition RiskCfg_toString (c : RiskCfg F) : string :=
  "RiskCfg{" +:+ "max-order-size:" +:+ qtyToString (max_order_size_ c) +:+ " "
  +:+ "max-position:" +:+ qtyToString (max_position_ c) +:+ " "
  +:+ "max-loss:" +:+ d_show (max_loss_ c) +:+ "}".

Definition TradeEngineCfg_toString (c : TradeEngineCfg F) : string :=
  "TradeEngineCfg{" +:+ "clip:" +:+ qtyToString (clip_ c) +:+ " "
  +:+ "thresh:" +:+ d_show (threshold_ c) +:+ " "
  +:+ "as:" +:+ flag (use_as_ c) +:+ " "
  +:+ "γ:" +:+ d_show (gamma_ c) +:+ " "
  +:+ "κ:" +:+ d_show (kappa_ c) +:+ " "
  +:+ "T:" +:+ d_show (session_hours_ c) +:+ " "
  +:+ "ofi:" +:+ flag (use_ofi_ c) +:+ " "
  +:+ "β:" +:+ d_show (beta_ofi_ c) +:+ " "
  +:+ "hyst:" +:+ pretty (cfg_hysteresis_ticks_ c) +:+ " "
  +:+ "aclip:" +:+ flag (use_adaptive_clip_ c) +:+ " "
  +:+ "σ_ref:" +:+ d_show (sigma_ref_ c) +:+ " "
  +:+ "rebate_bps:" +:+ d_show (maker_rebate_bps_ c) +:+ " "
  +:+ "widen_ofi:" +:+ d_show (spread_widen_ofi_ c) +:+ " "
  +:+ "kill:" +:+ flag (use_killswitch_ c) +:+ " "
  +:+ "kill_ofi:" +:+ d_show (killswitch_ofi_ c) +:+ " "
  +:+ "kill_micro:" +:+ d_show (killswitch_micro_ticks_ c) +:+ " "
  +:+ "regime_γ:" +:+ flag (use_regime_gamma_ c) +:+ " "
  +:+ "γ_scale:" +:+ d_show (regime_gamma_scale_ c) +:+ " "
  +:+ "stoikov:" +:+ flag (cfg_use_stoikov_micro_ c) +:+ " "
  +:+ "vpin:" +:+ flag (cfg_use_vpin_ c) +:+ " "
  +:+ "vpin_buck:" +:+ d_show (vpin_bucket_size_ c) +:+ " "
  +:+ "vpin_thr:" +:+ d_show (vpin_threshold_ c) +:+ " "
  +:+ "risk:" +:+ RiskCfg_toString (risk_cfg_ c) +:+ "}".

(** The average opening price of a side; [std::abs] of the least [int] overflows. *)
Definition open_price (s : Side) (p : PositionInfo F) : result F :=
  if position_ p =? 0 then Ok (d_of_Z 0)
  else let* a := int32 (Z.abs (position_ p)) in Ok (sa_get s (open_vwap_ p) / d_of_Z a)%D.

(** [bbo] is what [bbo_] points to, if it is set. *)
Definition PositionInfo_toString (bbo : option BBO) (p : PositionInfo F) : result string :=
  let* buy := open_price BUY p in
  let* sell := open_price SELL p in
  Ok ("Position{" +:+ "pos:" +:+ pretty (position_ p) +:+ " "
      +:+ "real-pnl:" +:+ d_show (real_pnl_ p) +:+ " "
      +:+ "unreal-pnl:" +:+ d_show (unreal_pnl_ p) +:+ " "
      +:+ "total-pnl:" +:+ d_show (total_pnl_ p) +:+ " "
      +:+ "vol:" +:+ qtyToString (volume_ p) +:+ " "
      +:+ "vwaps[" +:+ d_show buy +:+ "X" +:+ d_show sell +:+ "] "
      +:+ match bbo with Some bbo => BBO_toString bbo | None => "" end
      +:+ "}").

Definition RiskInfo_toString (bbo : option BBO) (p : PositionInfo F) (c : RiskCfg F) : result string :=
  let* pos := PositionInfo_toString bbo p in
  Ok ("RiskInfo[" +:+ "pos:" +:+ pos +:+ " " +:+ RiskCfg_toString c +:+ "]").

(** The loop of [PositionKeeper::toString] from ticker [i] on, with the totals so
    far; a [Qty] is 32 bits wide. *)
Fixpoint keeper_lines (bbos : Z → option BBO) (i : Z) (ps : list (PositionInfo F)) (total_pnl : F) (total_vol : Z)
    : result (string * F * Z) :=
  match ps with
  | [] => Ok (""%string, total_pnl, total_vol)
  | p :: ps =>
      let* pos := PositionInfo_toString (bbos i) p in
      let* (rest, total_pnl, total_vol) :=
        keeper_lines bbos (i + 1) ps (total_pnl + total_pnl_ p)%D (u32 (total_vol + volume_ p)) in
      Ok ("TickerId:" +:+ tickerIdToString i +:+ " " +:+ pos +:+ newline +:+ rest, total_pnl, total_vol)
  end.

Definition PositionKeeper_toString (bbos : Z → option BBO) (k : PositionKeeper F) : result string :=
  let* (lines, total_pnl, total_vol) := keeper_lines bbos 0 (ticker_position_ k) (d_of_Z 0) 0 in
  Ok (lines +:+ "Total PnL:" +:+ d_show total_pnl +:+ " Vol:" +:+ pretty total_vol +:+ newline).

(** ** The report *)

(** What the line of a ticker with position [z] begins with. *)
Definition line_start (t z : Z) : string := "TickerId:" +:+ tickerIdToString t +:+ " Position{pos:" +:+ pretty z +:+ " ".

Lemma PositionInfo_toString_ok bbo p :
  Z.abs (position_ p) < 2 ^ 31 → ∃ rest, PositionInfo_toString bbo p = Ok ("Position{pos:" +:+ pretty (position_ p) +:+ " " +:+ rest)%string.
Proof.
  intros Hp. assert (∀ s, ∃ f, open_price s p = Ok f) as Ho.
  { intros s. unfold open_price. destruct (_ =? 0); [by eexists|]. rewrite int32_ok by lia. by eexists. }
  unfold PositionInfo_toString. destruct (Ho BUY) as [b ->], (Ho SELL) as [s ->]. cbn [rbind]. eexists. reflexivity.
Qed.

Lemma keeper_lines_ok bbos i ps pnl vol :
  Forall (λ p, Z.abs (position_ p) < 2 ^ 31) ps →
  ∃ rests pnl', length rests = length ps
    ∧ keeper_lines bbos i ps pnl vol
      = Ok (concat_strings (zip_with (λ '(t, z) rest, line_start t z +:+ rest) (zip (seqZ i (length ps)) (position_ <$> ps)) rests), pnl',
            foldl (λ v p, u32 (v + volume_ p)) vol ps).
Proof.
  intros Hps. revert i pnl vol. induction Hps as [|p ps Hp _ IH]; intros i pnl vol; [by exists [], pnl|].
  destruct (PositionInfo_toString_ok (bbos i) p Hp) as [rest E].
  destruct (IH (i + 1) (pnl + total_pnl_ p)%D (u32 (vol + volume_ p))) as (rests & pnl' & Hl & Ei).
  exists ((rest +:+ newline)%string :: rests), pnl'. split; [cbn; lia|]. cbn [keeper_lines]. rewrite E, Ei. cbn [rbind]. do 3 f_equal.
  cbn [length]. rewrite (seqZ_cons i (S (length ps))) by lia. replace (Z.pred (S (length ps))) with (Z.of_nat (length ps)) by lia.
  replace (Z.succ i) with (i + 1) by lia.
  cbn [fmap list_fmap zip zip_with concat_strings foldr]. unfold line_start. by rewrite <- !(assoc_L String.append).
Qed.

(** The whole report, for positions [z t] of all tickers. *)
Lemma keeper_report bbos (k : PositionKeeper F) (z : Z → Z) n :
  0 ≤ n → position_ <$> ticker_position_ k = z <$> seqZ 0 n → (∀ t, Z.abs (z t) < 2 ^ 31) →
  ∃ rests total, Z.of_nat (length rests) = n
    ∧ PositionKeeper_toString bbos k
      = Ok (concat_strings (zip_with (λ t rest, line_start t (z t) +:+ rest) (seqZ 0 n) rests) +:+ total)%string.
Proof.
  intros Hn Hz Hb. pose proof (f_equal length Hz) as Hl. rewrite !length_fmap, length_seqZ in Hl.
  destruct (keeper_lines_ok bbos 0 (ticker_position_ k) (d_of_Z 0) 0) as (rests & pnl & Hr & E).
  { apply Forall_lookup_2. intros i p Hp. assert ((position_ <$> ticker_position_ k) !! i = Some (position_ p)) as Hi by by rewrite list_lookup_fmap, Hp.
    rewrite Hz, list_lookup_fmap in Hi. destruct (seqZ 0 n !! i) as [t|]; [|done]. injection Hi as <-. apply Hb. }
  eexists rests, _. split; [lia|]. unfold PositionKeeper_toString. rewrite E. cbn [rbind]. do 3 f_equal.
  rewrite Hz, Hl, Z2Nat.id by done. generalize (seqZ 0 n) as ts. clear. intros ts. revert ts.
  induction rests as [|r rests IH]; intros [|t ts]; try done. cbn. f_equal. apply IH.
Qed.
End Reports.
