(* ===== verification/Strategy.v ===== *)
(** * The two algorithms and the trade engine.

    [Trading::MarketMaker] (src/trading/strategy/market_maker.cpp),
    [Trading::LiquidityTaker] (liquidity_taker.cpp) and [Trading::TradeEngine]
    (trade_engine.{h,cpp}): the callbacks of the books, the dispatch to the
    algorithm and the two loops of [run].  What the market maker decides
    ([maker_decide]) is separate from what it then asks of the order manager.
    Readings of the clock are arguments. *)

From stdpp Require Import numbers gmap list.
From S2P Require Import Prelude Types MemPool LFQueue BookSpec BookCore MarketOrderBook MatchingEngine Double Position OrderManager Features.

Open Scope Z_scope.

(** ** src/trading/strategy/market_maker.cpp *)

(** What [onOrderBookUpdate] does with the orders of the ticker. *)
Inductive decision := Pull | Quote (bid_price ask_price clip : Z).

Section Maker.
Context {F : Type} `{!Double F} `{!DoubleMath F} `{!DoubleCast F}.
Implicit Types (cfg : TradeEngineCfg F) (fe : FeatureEngine F) (bbo : BBO).

Definition sigma_of fe : F := volatility_ (fe_vol fe).
Definition ofi_of fe : F := ofi_ (fe_ofi fe).

Definition vpin_toxic cfg fe : bool :=
  let vpin_now := if cfg_use_vpin_ cfg then vpin_value (vpin_ fe) else d_nan in
  cfg_use_vpin_ cfg && negb (d_isnan vpin_now) && (vpin_threshold_ cfg <? vpin_now)%D.

(** The toxic-flow killswitch. *)
Definition killed cfg bbo fe : result bool :=
  if use_killswitch_ cfg then
    let ofi_mag := d_abs (ofi_of fe) in
    let* mid := mid_price bbo in
    let micro_gap := d_abs (mkt_price_ fe - mid)%D in
    let scale x := if vpin_toxic cfg fe then (x * vpin_kill_scale_ cfg)%D else x in
    Ok ((scale (killswitch_ofi_ cfg) <? ofi_mag)%D || (scale (killswitch_micro_ticks_ cfg) <? micro_gap)%D)
  else Ok false.

Definition as_ready cfg fe : bool :=
  use_as_ cfg && negb (sigma_of fe =? d_nan)%D && (d_of_Z 0 <? sigma_of fe)%D.

(** The risk aversion of the volatility regime. *)
Definition as_gamma cfg fe : F :=
  if use_regime_gamma_ cfg && (d_of_Z 1 <? regime_gamma_scale_ cfg)%D then
    let sigma_long := volatility_long_ (fe_vol fe) in
    if negb (sigma_long =? d_nan)%D && (d_of_Z 0 <? sigma_long)%D
    then (gamma_ cfg * d_clamp (sigma_of fe / sigma_long) (d_of_Z 1 / regime_gamma_scale_ cfg)
                         (regime_gamma_scale_ cfg))%D
    else gamma_ cfg
  else gamma_ cfg.

(** The remaining fraction of the session. *)
Definition as_tau cfg (now session_start : Z) : result F :=
  let* elapsed_ns := int64 (now - session_start) in
  let session_ns := (session_hours_ cfg * d_of_Z 3600 * d_of_Z 1000000000)%D in
  Ok (d_max (d_of_Z 1 / d_of_Z 1000) ((session_ns - d_of_Z elapsed_ns) / session_ns))%D.

Definition as_clip cfg (q sigma : F) : result Z :=
  if use_adaptive_clip_ cfg && (0 <? max_position_ (risk_cfg_ cfg)) then
    let inv_room := d_max (d_of_Z 0) (d_of_Z 1 - d_abs q / d_of_Z (max_position_ (risk_cfg_ cfg)))%D in
    let sigma_scale := d_clamp (sigma_ref_ cfg / sigma)%D half (d_of_Z 3 / d_of_Z 2)%D in
    let scaled := d_round (d_of_Z (clip_ cfg) * inv_room * sigma_scale)%D in
    cast_uint32 (d_max (d_of_Z 1) scaled)
  else Ok (clip_ cfg).

(** Avellaneda-Stoikov reservation price and half-spreads, rounded outwards and
    kept from crossing the book. *)
Definition as_quote cfg bbo fe (position now session_start : Z) : result decision :=
  let q := d_of_Z position in
  let sigma := sigma_of fe in
  let kappa := d_max (d_of_Z 1 / d_of_Z 1000000)%D (kappa_ cfg) in
  let gamma := as_gamma cfg fe in
  let* tau := as_tau cfg now session_start in
  let reservation := (mkt_price_ fe - q * gamma * sigma * sigma * tau)%D in
  let reservation := if use_ofi_ cfg then (reservation + beta_ofi_ cfg * ofi_of fe)%D else reservation in
  let spread := (gamma * sigma * sigma * tau + (d_of_Z 2 / gamma) * d_log1p (gamma / kappa))%D in
  let ofi_now := if use_ofi_ cfg then ofi_of fe else d_of_Z 0 in
  let widen_k := if vpin_toxic cfg fe then (spread_widen_ofi_ cfg * vpin_widen_mult_ cfg)%D else spread_widen_ofi_ cfg in
  let bid_widen := (widen_k * d_max (d_opp ofi_now) (d_of_Z 0))%D in
  let ask_widen := (widen_k * d_max ofi_now (d_of_Z 0))%D in
  let* bid_price := cast_int64 (d_floor (reservation - half * spread - bid_widen)%D) in
  let* ask_price := cast_int64 (d_ceil (reservation + half * spread + ask_widen)%D) in
  let* bid_price := (if ask_price_ bbo <=? bid_price then int64 (ask_price_ bbo - 1) else Ok bid_price) in
  let* ask_price := (if ask_price <=? bid_price_ bbo then int64 (bid_price_ bbo + 1) else Ok ask_price) in
  let* clip := as_clip cfg q sigma in
  Ok (Quote bid_price ask_price clip).

(** Joining the best price, or one tick behind it if the fair price is close. *)
Definition threshold_quote cfg bbo fe : result decision :=
  let fair_price := mkt_price_ fe in
  let* bid_price := int64 (bid_price_ bbo - (if (threshold_ cfg <=? fair_price - d_of_Z (bid_price_ bbo))%D then 0 else 1)) in
  let* ask_price := int64 (ask_price_ bbo + (if (threshold_ cfg <=? d_of_Z (ask_price_ bbo) - fair_price)%D then 0 else 1)) in
  Ok (Quote bid_price ask_price (clip_ cfg)).

Definition maker_decide cfg bbo fe (position : option Z) (now session_start : Z) : result decision :=
  let* kill := killed cfg bbo fe in
  if kill then Ok Pull else
  if as_ready cfg fe then
    match position with
    | Some position => as_quote cfg bbo fe position now session_start
    | None => Err OutOfRange
    end
  else threshold_quote cfg bbo fe.

Context {E : Type} `{!RequestSink E}.
Implicit Types (t : Trader F E).

Definition act (ticker_id : Z) (d : decision) t : result (Trader F E) :=
  match d with
  | Pull => cancelOrders ticker_id t
  | Quote bid_price ask_price clip => moveOrders ticker_id bid_price ask_price clip t
  end.

Definition position_of (ticker_id : Z) t : option Z :=
  position_ <$> ticker_position_ (position_keeper_ t) !! Z.to_nat ticker_id.

Definition maker_onOrderBookUpdate (ticker_cfg : list (TradeEngineCfg F)) (session_start now ticker_id : Z) bbo fe t
    : result (Trader F E) :=
  if bbo_valid bbo && negb (mkt_price_ fe =? d_nan)%D then
    match ticker_cfg !! Z.to_nat ticker_id with
    | Some cfg =>
        let* d := maker_decide cfg bbo fe (position_of ticker_id t) now session_start in
        act ticker_id d t
    | None => Err OutOfRange
    end
  else Ok t.

(** ** src/trading/strategy/liquidity_taker.cpp *)

Definition taker_onTradeUpdate (ticker_cfg : list (TradeEngineCfg F)) (u : MEMarketUpdate) bbo fe t
    : result (Trader F E) :=
  let agg_qty_ratio := agg_trade_qty_ratio_ fe in
  if bbo_valid bbo && negb (agg_qty_ratio =? d_nan)%D then
    match ticker_cfg !! Z.to_nat (mu_ticker_id_ u) with
    | Some cfg =>
        if (threshold_ cfg <=? agg_qty_ratio)%D then
          if bool_decide (mu_side_ u = BUY)
          then moveOrders (mu_ticker_id_ u) (ask_price_ bbo) Price_INVALID (clip_ cfg) t
          else moveOrders (mu_ticker_id_ u) Price_INVALID (bid_price_ bbo) (clip_ cfg) t
        else Ok t
    | None => Err OutOfRange
    end
  else Ok t.
End Maker.

(** ** src/trading/strategy/trade_engine.{h,cpp} *)

(** What the members of a trade engine that have no initialiser contain: the cost
    arrays of the positions and the index arrays of each book. *)
Record EngineMemory (F : Type) := mkEngineMemory {
  em_vwap : side_array F;
  em_books : Z → IndexMemory Z }.
Arguments mkEngineMemory {F} _ _.
Arguments em_vwap {F} _.
Arguments em_books {F} _.

Record TradeEngine (F E : Type) := mkTradeEngine {
  te_trader : Trader F E;
  feature_engine_ : FeatureEngine F;
  ticker_order_book_ : list MarketOrderBook;
  algo_ : AlgoType;
  ticker_cfg_ : list (TradeEngineCfg F);
  session_start_ns_ : Z;
  incoming_ogw_responses_ : LFQueue MEClientResponse;
  incoming_md_updates_ : LFQueue MEMarketUpdate }.
Arguments mkTradeEngine {F E} _ _ _ _ _ _ _ _.
Arguments te_trader {F E} _.
Arguments feature_engine_ {F E} _.
Arguments ticker_order_book_ {F E} _.
Arguments algo_ {F E} _.
Arguments ticker_cfg_ {F E} _.
Arguments session_start_ns_ {F E} _.
Arguments incoming_ogw_responses_ {F E} _.
Arguments incoming_md_updates_ {F E} _.

Section Engine.
Context {F : Type} `{!Double F} `{!DoubleMath F} `{!DoubleCast F} {E : Type} `{!RequestSink E}.
Implicit Types (te : TradeEngine F E) (t : Trader F E).

Definition set_trader t te : TradeEngine F E :=
  mkTradeEngine t (feature_engine_ te) (ticker_order_book_ te) (algo_ te) (ticker_cfg_ te) (session_start_ns_ te)
    (incoming_ogw_responses_ te) (incoming_md_updates_ te).

Definition set_features (fe : FeatureEngine F) te : TradeEngine F E :=
  mkTradeEngine (te_trader te) fe (ticker_order_book_ te) (algo_ te) (ticker_cfg_ te) (session_start_ns_ te)
    (incoming_ogw_responses_ te) (incoming_md_updates_ te).

Definition set_order_books (bs : list MarketOrderBook) te : TradeEngine F E :=
  mkTradeEngine (te_trader te) (feature_engine_ te) bs (algo_ te) (ticker_cfg_ te) (session_start_ns_ te)
    (incoming_ogw_responses_ te) (incoming_md_updates_ te).

Definition set_responses (q : LFQueue MEClientResponse) te : TradeEngine F E :=
  mkTradeEngine (te_trader te) (feature_engine_ te) (ticker_order_book_ te) (algo_ te) (ticker_cfg_ te)
    (session_start_ns_ te) q (incoming_md_updates_ te).

Definition set_updates (q : LFQueue MEMarketUpdate) te : TradeEngine F E :=
  mkTradeEngine (te_trader te) (feature_engine_ te) (ticker_order_book_ te) (algo_ te) (ticker_cfg_ te)
    (session_start_ns_ te) (incoming_ogw_responses_ te) q.

(** The loop of the constructor that hands the hysteresis tolerances on. *)
Fixpoint push_hysteresis (i : Z) (cfgs : list (TradeEngineCfg F)) om : result OrderManager :=
  match cfgs with
  | [] => Ok om
  | cfg :: cfgs =>
      let* om := setHysteresisTicks i (cfg_hysteresis_ticks_ cfg) om in
      push_hysteresis (i + 1) cfgs om
  end.

(** [RiskManager::RiskManager]: the limits of every ticker; its positions are the ones
    of the position keeper. *)
Definition RiskManager_new (cfgs : list (TradeEngineCfg F)) : list (RiskCfg F) := risk_cfg_ <$> cfgs.

(** The constructor; the features take the parameters of ticker 0, and [mem] is
    what the members without initialiser contain. *)
Definition TradeEngine_new (client_id : Z) (algo_type : AlgoType) (cfgs : list (TradeEngineCfg F))
    (mem : EngineMemory F) (now : Z) (requests : E) (responses : LFQueue MEClientResponse)
    (updates : LFQueue MEMarketUpdate) : result (TradeEngine F E) :=
  match cfgs !! 0%nat with
  | None => Err OutOfRange
  | Some cfg0 =>
      let t := Trader_new client_id (RiskManager_new cfgs) (maker_rebate_bps_ <$> cfgs) (em_vwap mem) requests in
      let* om := push_hysteresis 0 cfgs (order_manager_ t) in
      Ok (mkTradeEngine (set_order_manager om t) (FeatureEngine_new cfg0)
            (market_books (em_books mem)) algo_type cfgs now responses updates)
  end.

(** [mm_algo_] or [taker_algo_] is set. *)
Definition has_algo te : bool := bool_decide (algo_ te = MAKER) || bool_decide (algo_ te = TAKER).

Definition te_onOrderBookUpdate (now ticker_id : Z) (bbo : BBO) te : result (TradeEngine F E) :=
  let* k := keeper_updateBBO ticker_id bbo (position_keeper_ (te_trader te)) in
  let te := set_trader (set_keeper k (te_trader te)) te in
  let* fe := features_onOrderBookUpdate bbo (feature_engine_ te) in
  let te := set_features fe te in
  match algo_ te with
  | MAKER =>
      let* t := maker_onOrderBookUpdate (ticker_cfg_ te) (session_start_ns_ te) now ticker_id bbo fe (te_trader te) in
      Ok (set_trader t te)
  | _ => Ok te
  end.

Definition te_onTradeUpdate (fuel : nat) (u : MEMarketUpdate) (bbo : BBO) te : result (TradeEngine F E) :=
  let* fe := features_onTradeUpdate fuel u bbo (feature_engine_ te) in
  let te := set_features fe te in
  match algo_ te with
  | TAKER =>
      let* t := taker_onTradeUpdate (ticker_cfg_ te) u bbo fe (te_trader te) in
      Ok (set_trader t te)
  | _ => Ok te
  end.

(** [onOrderUpdate]: without an algorithm only the position is kept. *)
Definition te_onOrderUpdate (r : MEClientResponse) te : result (TradeEngine F E) :=
  if has_algo te then
    let* t := onOrderUpdate r (te_trader te) in
    Ok (set_trader t te)
  else if bool_decide (resp_type_ r = FILLED) then
    let* k := keeper_addFill r (position_keeper_ (te_trader te)) in
    Ok (set_trader (set_keeper k (te_trader te)) te)
  else Ok te.

(** [book->onMarketUpdate(u)] on the book of a ticker, which calls back with its
    new state. *)
Definition te_book_update (fuel : nat) (now : Z) (u : MEMarketUpdate) (mb : MarketOrderBook) te
    : result (TradeEngine F E) :=
  let* (mb, notice) := onMarketUpdate u mb in
  let te := set_order_books (<[Z.to_nat (mu_ticker_id_ u) := mb]> (ticker_order_book_ te)) te in
  match notice with
  | OnTradeUpdate u => te_onTradeUpdate fuel u (bbo_ mb) te
  | OnOrderBookUpdate ticker_id _ _ => te_onOrderBookUpdate now ticker_id (bbo_ mb) te
  end.

(** The body of the second loop. *)
Definition te_market_update (fuel : nat) (now : Z) (u : MEMarketUpdate) te : result (TradeEngine F E) :=
  let* _ := ASSERT (mu_ticker_id_ u <? Z.of_nat (length (ticker_order_book_ te))) in
  match ticker_order_book_ te !! Z.to_nat (mu_ticker_id_ u) with
  | None => Err Undefined
  | Some mb => te_book_update fuel now u mb te
  end.

(** [run]: first all waiting responses, then all waiting updates. *)
Fixpoint te_drain_responses (n : nat) te : result (TradeEngine F E) :=
  match getNextToRead (incoming_ogw_responses_ te) with
  | None => Ok te
  | Some r =>
      match n with
      | O => Err OutOfFuel
      | S n =>
          let* te := te_onOrderUpdate r te in
          let* q := updateReadIndex (incoming_ogw_responses_ te) in
          te_drain_responses n (set_responses q te)
      end
  end.

Fixpoint te_drain_updates (fuel n : nat) (clock : nat → Z) te : result (TradeEngine F E) :=
  match getNextToRead (incoming_md_updates_ te) with
  | None => Ok te
  | Some u =>
      match n with
      | O => Err OutOfFuel
      | S n =>
          let* te := te_market_update fuel (clock n) u te in
          let* q := updateReadIndex (incoming_md_updates_ te) in
          te_drain_updates fuel n clock (set_updates q te)
      end
  end.

Definition te_turn (fuel n m : nat) (clock : nat → Z) te : result (TradeEngine F E) :=
  let* te := te_drain_responses n te in
  te_drain_updates fuel m clock te.

(** ** Accessors *)

Record PositionSnapshot := mkPositionSnapshot {
  ps_position : Z;
  ps_real_pnl : F;
  ps_unreal_pnl : F;
  ps_total_pnl : F;
  ps_volume : Z }.

(** [.at] of the position keeper's array and of the array of books. *)
Definition positionInfo (ticker_id : Z) te : result PositionSnapshot :=
  match ticker_position_ (position_keeper_ (te_trader te)) !! Z.to_nat ticker_id with
  | None => Err OutOfRange
  | Some p => Ok (mkPositionSnapshot (position_ p) (real_pnl_ p) (unreal_pnl_ p) (total_pnl_ p) (volume_ p))
  end.

Definition orderBook (ticker_id : Z) te : result MarketOrderBook :=
  match ticker_order_book_ te !! Z.to_nat ticker_id with
  | None => Err OutOfRange
  | Some mb => Ok mb
  end.

(** ** What responses leave alone *)

Lemma te_onOrderUpdate_frame r te te' :
  te_onOrderUpdate r te = Ok te' →
  ticker_order_book_ te' = ticker_order_book_ te ∧ incoming_ogw_responses_ te' = incoming_ogw_responses_ te
  ∧ incoming_md_updates_ te' = incoming_md_updates_ te.
Proof.
  unfold te_onOrderUpdate. destruct (has_algo te); [by intros (t & _ & [= <-])%bind_ok|].
  case_bool_decide; [by intros (k & _ & [= <-])%bind_ok|by intros [= <-]].
Qed.

Lemma te_drain_responses_frame n te te' :
  te_drain_responses n te = Ok te' →
  ticker_order_book_ te' = ticker_order_book_ te ∧ incoming_md_updates_ te' = incoming_md_updates_ te.
Proof.
  revert te. induction n as [|n IH]; intros te; cbn [te_drain_responses]; destruct (getNextToRead _); try done; try (by intros [= <-]).
  intros (te1 & (E1 & _ & E2)%te_onOrderUpdate_frame & (q & _ & [H1 H2]%IH)%bind_ok)%bind_ok. by rewrite H1, H2.
Qed.

(** ** The constructor *)

Lemma push_hysteresis_ok i (cfgs : list (TradeEngineCfg F)) (om om' : OrderManager) :
  push_hysteresis i cfgs om = Ok om' →
  ticker_side_order_ om' = ticker_side_order_ om ∧ next_order_id_ om' = next_order_id_ om.
Proof.
  revert i om. induction cfgs as [|cfg cfgs IH]; intros i om; simpl; [by intros [= ->]|].
  intros (om1 & E1 & [-> ->]%IH)%bind_ok. unfold setHysteresisTicks in E1. case_decide; [|done]. by injection E1 as <-.
Qed.

Lemma push_hysteresis_total i (cfgs : list (TradeEngineCfg F)) (om : OrderManager) :
  0 ≤ i → i + Z.of_nat (length cfgs) ≤ Z.of_nat (length (hysteresis_ticks_ om)) → ∃ om', push_hysteresis i cfgs om = Ok om'.
Proof.
  revert i om. induction cfgs as [|cfg cfgs IH]; intros i om Hi Hl; cbn [push_hysteresis]; [by eexists|].
  simpl in Hl. unfold setHysteresisTicks. rewrite decide_True by lia. cbn [rbind]. apply IH; [lia|].
  cbn [hysteresis_ticks_]. rewrite length_insert. lia.
Qed.

(** With a configuration for every ticker the constructor succeeds. *)
Lemma TradeEngine_new_ok client_id algo_type (cfgs : list (TradeEngineCfg F)) mem now (requests : E) responses updates :
  length cfgs = Z.to_nat ME_MAX_TICKERS →
  ∃ te cfg0, TradeEngine_new client_id algo_type cfgs mem now requests responses updates = Ok te
    ∧ cfgs !! 0%nat = Some cfg0 ∧ algo_ te = algo_type ∧ feature_engine_ te = FeatureEngine_new cfg0
    ∧ ticker_order_book_ te = market_books (em_books mem)
    ∧ incoming_md_updates_ te = updates ∧ incoming_ogw_responses_ te = responses
    ∧ ticker_position_ (position_keeper_ (te_trader te)) = replicate (Z.to_nat ME_MAX_TICKERS) (PositionInfo_new (em_vwap mem))
    ∧ sized (Z.to_nat ME_MAX_TICKERS) (te_trader te).
Proof.
  intros Hl. destruct (lookup_lt_is_Some_2 cfgs 0) as [cfg0 H0]; [rewrite Hl; unfold ME_MAX_TICKERS; lia|].
  unfold TradeEngine_new, RiskManager_new. rewrite H0. cbv zeta.
  destruct (push_hysteresis_total 0 cfgs
    (order_manager_ (Trader_new client_id (risk_cfg_ <$> cfgs) (maker_rebate_bps_ <$> cfgs) (em_vwap mem) requests))) as [om Eo]; [done| |].
  { cbn [order_manager_ Trader_new hysteresis_ticks_]. rewrite length_replicate. lia. }
  rewrite Eo. cbn [rbind]. eexists _, cfg0. split_and!; [done..|].
  destruct (sized_new client_id (risk_cfg_ <$> cfgs) (maker_rebate_bps_ <$> cfgs) (em_vwap mem) requests) as (S1 & S2 & S3 & S4);
    [by rewrite length_fmap..|].
  split_and!; try done. cbn [order_manager_ set_order_manager te_trader]. by rewrite (proj1 (push_hysteresis_ok _ _ _ _ Eo)).
Qed.

Lemma TradeEngine_new_id client_id algo_type (cfgs : list (TradeEngineCfg F)) mem now (requests : E) responses updates te :
  TradeEngine_new client_id algo_type cfgs mem now requests responses updates = Ok te → tr_client_id_ (te_trader te) = client_id.
Proof. unfold TradeEngine_new. destruct (cfgs !! 0%nat); [|done]. by intros (om & _ & [= <-])%bind_ok. Qed.
End Engine.
