(* ===== verification/Session.v ===== *)
(** * Responses from the exchange to the positions of a client.

    The way back of a session: the order server's response queue, the TCP
    stream cut into reads, the gateway's turns (src/trading/order_gw) and the
    response loop of the trade engine (src/trading/strategy/trade_engine.cpp).

    [gateway_turns_ok]: whatever the reads, the gateway hands on exactly the
    responses of its client.  [te_drain_responses_ok]: the trade engine's
    positions move by the net quantity of the fills. *)

From stdpp Require Import numbers gmap list sorting.
From S2P Require Import Prelude MemPool Types LFQueue Wire BookCore BookSpec BookRefine MEOrderBook MESpec MERefine MEInv MatchingEngine OrderServer OrderGateway Requests Double Position RunEvents OrderManager Features Strategy.

Open Scope Z_scope.
Local Coercion Z.of_nat : nat >-> Z.

(** ** The gateway *)

(** Turns of the gateway in which the kernel delivers [chunks] one by one. *)
Fixpoint gateway_turns (chunks : list bytes) (g : OrderGateway) : result OrderGateway :=
  match chunks with
  | [] => Ok g
  | ch :: chunks => let* (_, _, g) := gateway_turn ch 0 g in gateway_turns chunks g
  end.

(** Messages of other clients have no effect. *)
Lemma recv_response_id m g : gw_client_id_ (recv_response m g) = gw_client_id_ g.
Proof. unfold recv_response. by repeat case_match. Qed.

Lemma recv_responses_own ms g : recv_responses ms g = recv_responses (responses_of (gw_client_id_ g) ms) g.
Proof.
  revert g. induction ms as [|m ms IH]; intros g; [done|]. unfold responses_of. rewrite filter_cons.
  change (recv_responses (m :: ms) g) with (recv_responses ms (recv_response m g)). rewrite IH, recv_response_id.
  case_decide; [done|]. by rewrite recv_response_drops by (by left).
Qed.

(** Nothing is waiting to be sent. *)
Definition gateway_idle (g : OrderGateway) : Prop :=
  lfq_rep (outgoing_requests_ g) [] ∧ outbound_data_ (tcp_socket_ g) = [].

Lemma recv_response_other m g :
  outgoing_requests_ (recv_response m g) = outgoing_requests_ g ∧ tcp_socket_ (recv_response m g) = tcp_socket_ g
  ∧ next_outgoing_seq_num_ (recv_response m g) = next_outgoing_seq_num_ g.
Proof. unfold recv_response. by repeat case_match. Qed.

Lemma recv_responses_other ms g :
  outgoing_requests_ (recv_responses ms g) = outgoing_requests_ g ∧ tcp_socket_ (recv_responses ms g) = tcp_socket_ g
  ∧ next_outgoing_seq_num_ (recv_responses ms g) = next_outgoing_seq_num_ g
  ∧ gw_client_id_ (recv_responses ms g) = gw_client_id_ g.
Proof.
  revert g. induction ms as [|m ms IH]; intros g; [done|].
  change (recv_responses (m :: ms) g) with (recv_responses ms (recv_response m g)).
  destruct (IH (recv_response m g)) as (-> & -> & -> & ->). destruct (recv_response_other m g) as (-> & -> & ->).
  by rewrite recv_response_id.
Qed.

(** The socket does not matter to the responses. *)
Lemma recv_responses_socket ms g s :
  recv_responses ms (set_gw_socket s g) = set_gw_socket s (recv_responses ms g).
Proof.
  revert g. induction ms as [|m ms IH]; intros g; [done|]. cbn [recv_responses foldl].
  change (foldl (λ g m, recv_response m g) ?x ms) with (recv_responses ms x). rewrite <- IH. f_equal.
  unfold recv_response. cbn. by repeat case_match.
Qed.

Lemma drain_requests_idle n g : lfq_rep (outgoing_requests_ g) [] → drain_requests n g = Ok g.
Proof. intros Hq. destruct n; cbn [drain_requests]; by rewrite (getNextToRead_ok _ _ Hq). Qed.

Lemma gateway_turn_ok ch g :
  gateway_idle g → (length (inbound_data_ (tcp_socket_ g)) < 50)%nat →
  length (inbound_data_ (tcp_socket_ g)) + length ch ≤ TCPBufferSize →
  let '(ms, rest) := parse_stream (inbound_data_ (tcp_socket_ g) ++ ch) in
  gateway_turn ch 0 g = Ok ([], [], set_gw_socket (mkTCPSocket [] rest) (recv_responses ms g)).
Proof.
  intros [Hq Ho] Hin Hl. unfold gateway_turn, tcp_recv.
  rewrite take_ge, drop_ge by (clear -Hl; lia). rewrite Ho.
  destruct (parse_stream _) as [ms rest] eqn:E. destruct ch as [|b ch]; cbn [length Nat.eqb negb].
  - rewrite app_nil_r in *. rewrite parse_stream_unfold in E.
    destruct (Nat.leb_spec (wire_size (M := OMClientResponse)) (length (inbound_data_ (tcp_socket_ g)))) as [Hw|_];
      [cbn in Hw; lia|]. injection E as <- <-. cbn [tcp_flush set_gw_socket tcp_socket_ Z.ltb Z.compare].
    rewrite drain_requests_idle by done. done.
  - unfold gw_recvCallback. cbv zeta. set (s := mkTCPSocket [] (inbound_data_ (tcp_socket_ g) ++ b :: ch)).
    change (inbound_data_ (tcp_socket_ (set_gw_socket s g))) with (inbound_data_ (tcp_socket_ g) ++ b :: ch). rewrite E.
    rewrite recv_responses_socket. destruct (recv_responses_other ms g) as (Eq & _ & _ & _).
    cbn [tcp_flush set_gw_socket tcp_socket_ Z.ltb Z.compare outbound_data_ gw_client_id_ outgoing_requests_ incoming_responses_
         next_outgoing_seq_num_ next_exp_seq_num_].
    rewrite drain_requests_idle by (cbn [outgoing_requests_]; by rewrite Eq). done.
Qed.

Lemma gateway_turns_ok chunks g :
  gateway_idle g → (length (inbound_data_ (tcp_socket_ g)) < 50)%nat → 50 + length (concat chunks) ≤ TCPBufferSize →
  let '(ms, rest) := feed_chunks (inbound_data_ (tcp_socket_ g)) chunks in
  gateway_turns chunks g = Ok (set_gw_socket (mkTCPSocket [] rest) (recv_responses ms g)).
Proof.
  revert g. induction chunks as [|ch chunks IH]; intros g Hi Hin Hl; cbn [feed_chunks gateway_turns].
  { destruct Hi as [_ Ho]. destruct g as [? ? ? ? ? []]. simpl in *. by subst. }
  cbn [concat] in Hl. rewrite length_app in Hl.
  pose proof (gateway_turn_ok ch g Hi Hin ltac:(lia)) as Ht.
  pose proof (parse_stream_rest (M := OMClientResponse) (inbound_data_ (tcp_socket_ g) ++ ch)) as Hrest.
  destruct (parse_stream _) as [ms1 r1]. rewrite Ht. cbn [rbind].
  destruct (recv_responses_other ms1 g) as (Eq & _ & _ & _). destruct Hi as [Hq Ho].
  specialize (IH (set_gw_socket (mkTCPSocket [] r1) (recv_responses ms1 g))).
  cbn [tcp_socket_ set_gw_socket inbound_data_] in IH. destruct (feed_chunks r1 chunks) as [ms2 r2].
  rewrite IH; [|split; [change (lfq_rep (outgoing_requests_ (recv_responses ms1 g)) []); by rewrite Eq|done]|exact Hrest|lia].
  rewrite recv_responses_socket. unfold recv_responses. by rewrite foldl_app.
Qed.

(** ** The trade engine *)

Section Engine.
Context {F : Type} `{!Double F} `{!DoubleMath F} `{!DoubleCast F} {E : Type} `{!RequestSink E}.
Implicit Types (te : TradeEngine F E).

Definition te_sized te : Prop := sized (Z.to_nat ME_MAX_TICKERS) (te_trader te).

(** The position of a ticker. *)
Definition te_position (t : Z) te : Z :=
  default 0 (position_ <$> ticker_position_ (position_keeper_ (te_trader te)) !! Z.to_nat t).

Lemma keeper_addFill_ok r (k : PositionKeeper F) p :
  length (rebate_bps_ k) = Z.to_nat ME_MAX_TICKERS → 0 ≤ resp_ticker_id_ r < ME_MAX_TICKERS →
  ticker_position_ k !! Z.to_nat (resp_ticker_id_ r) = Some p → fill_ok (position_ p) r →
  ∃ p', keeper_addFill r k = Ok (mkPositionKeeper (rebate_bps_ k) (<[Z.to_nat (resp_ticker_id_ r) := p']> (ticker_position_ k)))
    ∧ position_ p' = position_ p + signed_qty r.
Proof.
  intros Hl Ht Hp Hf. unfold keeper_addFill.
  destruct (lookup_lt_is_Some_2 (rebate_bps_ k) (Z.to_nat (resp_ticker_id_ r))) as [bps Hb]; [rewrite Hl; lia|].
  rewrite Hb, Hp. destruct (addFill_total r bps p Hf) as (p' & -> & Ep & _). by exists p'.
Qed.

(** What a response does to the positions. *)
Definition moved (r : MEClientResponse) (t : Z) : Z :=
  if decide (resp_type_ r = FILLED ∧ resp_ticker_id_ r = t) then signed_qty r else 0.

Lemma te_onOrderUpdate_ok r te :
  te_sized te → 0 ≤ resp_ticker_id_ r < ME_MAX_TICKERS →
  (resp_type_ r = FILLED → fill_ok (te_position (resp_ticker_id_ r) te) r) →
  ∃ te', te_onOrderUpdate r te = Ok te' ∧ te_sized te'
    ∧ incoming_ogw_responses_ te' = incoming_ogw_responses_ te
    ∧ ∀ t, 0 ≤ t → te_position t te' = te_position t te + moved r t.
Proof.
  intros (H1 & H2 & H3 & H4) Ht Hf.
  destruct (lookup_lt_is_Some_2 (ticker_position_ (position_keeper_ (te_trader te))) (Z.to_nat (resp_ticker_id_ r)))
    as [p Hp]; [rewrite H2; lia|].
  assert (te_position (resp_ticker_id_ r) te = position_ p) as Epos by (unfold te_position; by rewrite Hp).
  rewrite Epos in Hf.
  (* the keeper *)
  assert (∃ k, (if bool_decide (resp_type_ r = FILLED)
            then let* k := keeper_addFill r (position_keeper_ (te_trader te)) in Ok (set_keeper k (te_trader te))
            else Ok (te_trader te)) = Ok (set_keeper k (te_trader te))
       ∧ (if bool_decide (resp_type_ r = FILLED)
            then let* k := keeper_addFill r (position_keeper_ (te_trader te)) in Ok (set_trader (set_keeper k (te_trader te)) te)
            else Ok te) = Ok (set_trader (set_keeper k (te_trader te)) te)
       ∧ length (ticker_position_ k) = Z.to_nat ME_MAX_TICKERS ∧ length (rebate_bps_ k) = Z.to_nat ME_MAX_TICKERS
       ∧ ∀ t, 0 ≤ t → default 0 (position_ <$> ticker_position_ k !! Z.to_nat t) = te_position t te + moved r t)
    as (k & E1 & E2 & L1 & L2 & Hk).
  { unfold moved. case_bool_decide as Hfl.
    - destruct (keeper_addFill_ok r _ p H3 Ht Hp (Hf Hfl)) as (p' & -> & Ep). eexists. split; [done|]. split; [done|].
      cbn [ticker_position_ rebate_bps_]. rewrite length_insert. split_and!; [done..|]. intros t H0.
      destruct (decide (resp_ticker_id_ r = t)) as [<-|Hne].
      + rewrite list_lookup_insert_eq by (rewrite H2; lia). rewrite decide_True by done. cbn. by rewrite Ep, Epos.
      + rewrite list_lookup_insert_ne by lia. rewrite decide_False by naive_solver. unfold te_position. lia.
    - exists (position_keeper_ (te_trader te)). destruct te as [[] ? ? ? ? ? ? ?]. split_and!; try done.
      intros t _. rewrite decide_False by naive_solver. unfold te_position. cbn. lia. }
  unfold te_onOrderUpdate. destruct (has_algo te).
  - unfold onOrderUpdate. rewrite E1. cbn [rbind]. unfold om_onOrderUpdate, om_slot. cbn [order_manager_ set_keeper].
    destruct (lookup_lt_is_Some_2 (ticker_side_order_ (order_manager_ (te_trader te))) (Z.to_nat (resp_ticker_id_ r)))
      as [slots Hs]; [rewrite H4; lia|]. rewrite Hs. cbn [fmap option_fmap option_map rbind].
    eexists. split; [done|]. split_and!; [|done|exact Hk].
    unfold te_sized, sized. cbn [te_trader set_trader set_order_manager set_keeper ticker_risk_ position_keeper_ order_manager_].
    split_and!; [done..|]. destruct (resp_type_ r); try done; by rewrite length_slots.
  - eexists. split; [exact E2|]. split_and!; [|done|exact Hk]. by split_and!.
Qed.

(** The fills on a ticker. *)
Lemma te_drain_responses_ok rs n te :
  te_sized te → lfq_rep (incoming_ogw_responses_ te) rs → (length rs ≤ n)%nat →
  Forall (λ r, 0 ≤ resp_ticker_id_ r < ME_MAX_TICKERS) rs →
  (∀ t, 0 ≤ t < ME_MAX_TICKERS → fills_ok (te_position t te) (fills_on t rs)) →
  ∃ te', te_drain_responses n te = Ok te' ∧ te_sized te' ∧ lfq_rep (incoming_ogw_responses_ te') []
    ∧ ∀ t, 0 ≤ t → te_position t te' = te_position t te + net_qty (fills_on t rs).
Proof.
  revert n te. induction rs as [|r rs IH]; intros n te Hsz Hq Hn Ht Hf.
  { exists te. split_and!; [|done..|]; [destruct n; cbn [te_drain_responses]; by rewrite (getNextToRead_ok _ _ Hq)|].
    intros t _. cbn. lia. }
  destruct n as [|n]; [simpl in Hn; lia|]. apply Forall_cons in Ht as [Ht Hts]. cbn [te_drain_responses].
  rewrite (getNextToRead_ok _ _ Hq). cbn [head].
  assert (∀ t, fills_on t (r :: rs) = (if decide (resp_type_ r = FILLED ∧ resp_ticker_id_ r = t) then [r] else []) ++ fills_on t rs)
    as Hc by (intros t; unfold fills_on; rewrite filter_cons; by case_decide).
  destruct (te_onOrderUpdate_ok r te Hsz Ht) as (te1 & E1 & Hsz1 & Eq1 & Hp1).
  { intros Hfl. specialize (Hf _ Ht). rewrite Hc, decide_True in Hf by done. apply Hf. }
  rewrite E1. cbn [rbind]. rewrite Eq1. destruct (updateReadIndex_ok _ _ _ Hq) as (q' & -> & Hq' & _). cbn [rbind].
  destruct (IH n (set_responses q' te1)) as (te' & E' & Hsz' & Hq2 & Hp').
  - done.
  - done.
  - simpl in Hn. lia.
  - done.
  - intros t Htr. change (te_position t (set_responses q' te1)) with (te_position t te1). rewrite Hp1 by lia.
    specialize (Hf t Htr). rewrite Hc in Hf. unfold moved. case_decide; [apply Hf|by rewrite Z.add_0_r].
  - exists te'. split_and!; [done..|]. intros t H0. rewrite Hp' by done.
    change (te_position t (set_responses q' te1)) with (te_position t te1). rewrite Hp1 by done.
    rewrite Hc, net_qty_app. unfold moved. destruct (decide _).
    + change (net_qty [r]) with (signed_qty r + 0). lia.
    + change (net_qty []) with 0. lia.
Qed.
End Engine.

(** ** Server, stream, gateway and trade engine *)

(** The order server with the response queue the matching engine writes to. *)
Definition with_responses (q : LFQueue MEClientResponse) (os : OrderServer) : OrderServer :=
  mkOrderServer (cid_next_outgoing_seq_num_ os) (cid_next_exp_seq_num_ os) (cid_tcp_socket_ os) (sockets_ os)
    (pending_client_requests_ os) (os_incoming_requests_ os) q.

(** The responses of a client. *)
Definition own (c : Z) (rs : list MEClientResponse) : list MEClientResponse := filter (λ r, resp_client_id_ r = c) rs.

(** The position stays where its products fit 32 bits. *)
Fixpoint positions_safe (p : Z) (rs : list MEClientResponse) : Prop :=
  Z.abs p ≤ POSITION_SAFE
  ∧ match rs with [] => True | r :: rs => positions_safe (p + signed_qty r) rs end.

Lemma positions_safe_fills p rs :
  Forall (λ r, response_plain r ∧ resp_type_ r = FILLED) rs → positions_safe p rs → fills_ok p rs.
Proof.
  intros Hr. revert p. induction Hr as [|r rs [[Hwf _ _ Hf] Hty] _ IH]; intros p; [done|].
  intros [Hp Hs]. split; [|by apply IH]. destruct (Hf Hty) as [Hside Hpr]. destruct Hwf as (_ & _ & _ & _ & _ & Hq & _).
  assert (Z.abs (p + signed_qty r) ≤ POSITION_SAFE) as Hn by (destruct rs; apply Hs).
  assert (resp_exec_qty_ r ≤ 2 * POSITION_SAFE) as Hle.
  { unfold signed_qty in Hn. destruct Hside as [E|E]; rewrite E in Hn; cbn [sideToValue] in Hn; lia. }
  unfold price_band, ME_MAX_PRICE_LEVELS, POSITION_SAFE in *. split; try done; unfold POSITION_SAFE; nia.
Qed.

Lemma own_framed c seqs rs : me_client_response_ <$> responses_of c (frame_responses seqs rs) = own c rs.
Proof.
  revert seqs. induction rs as [|r rs IH]; intros seqs; [done|]. cbn [frame_responses]. unfold responses_of, own.
  rewrite !filter_cons. cbn [me_client_response_]. case_decide; cbn [fmap list_fmap]; [f_equal|]; apply IH.
Qed.

Lemma responses_of_socket c fd bind ms :
  bind !! c = Some fd → responses_of c (to_socket bind fd ms) = responses_of c ms.
Proof.
  intros Hb. unfold responses_of, to_socket. induction ms as [|m ms IH]; [done|]. rewrite !filter_cons.
  case_decide as H1; case_decide as H2; rewrite ?filter_cons; repeat case_decide; try congruence.
Qed.

Lemma frame_responses_wf seqs rs :
  Forall resp_wf rs → (∀ c, 0 ≤ seq_of seqs c < 2 ^ 64) → Forall wire_wf (frame_responses seqs rs).
Proof.
  intros Hr. revert seqs. induction Hr as [|r rs Hr _ IH]; intros seqs Hs; cbn [frame_responses]; constructor.
  - split; [apply Hs|done].
  - apply IH. intros c. rewrite seq_of_insert. case_decide; [|apply Hs]. apply Z.mod_pos_bound. lia.
Qed.

(** From the server's queue to the gateway's queue. *)
Lemma responses_delivered rs os g c fd chunks :
  Forall response_plain rs → lfq_rep (outgoing_responses_ os) rs →
  Forall (λ r, is_Some (cid_tcp_socket_ os !! resp_client_id_ r)) rs → cid_tcp_socket_ os !! c = Some fd →
  (∀ fd, outbound_data_ (socket_of os fd) = []) → 50 + 50 * length rs ≤ TCPBufferSize →
  (∀ c, 0 ≤ seq_of (cid_next_outgoing_seq_num_ os) c < 2 ^ 64) →
  gw_client_id_ g = c → next_exp_seq_num_ g = seq_of (cid_next_outgoing_seq_num_ os) c →
  next_exp_seq_num_ g + length rs < 2 ^ 64 → gateway_idle g → inbound_data_ (tcp_socket_ g) = [] →
  lfq_rep (incoming_responses_ g) [] → length rs ≤ q_size (incoming_responses_ g) →
  ∃ os', drain_responses (length rs) os = Ok os' ∧ lfq_rep (outgoing_responses_ os') []
    ∧ (concat chunks = outbound_data_ (socket_of os' fd) →
       ∃ g', gateway_turns chunks g = Ok g' ∧ lfq_rep (incoming_responses_ g') (own c rs)).
Proof.
  intros Hpl Hq Hb Hfd Hout Hl Hseq Hc Hexp Hlt Hidle Hin Hgq Hroom.
  assert (Forall resp_wf rs) as Hwf by (eapply Forall_impl; [exact Hpl|]; by intros r []).
  destruct (drain_responses_ok rs os Hq) as (os' & Ed & Hq' & Hsent).
  - apply Forall_forall. intros r Hr. rewrite Forall_forall in Hpl, Hb. destruct (Hpl r Hr) as [_ Hcl _ _].
    split; [|by apply Hb]. unfold cid_in_range. unfold ME_MAX_NUM_CLIENTS in *. lia.
  - intros fd'. rewrite Hout. cbn [length]. lia.
  - exists os'. split_and!; [done..|]. intros Hch. rewrite Hsent, Hout, app_nil_l in Hch.
    set (framed := frame_responses (cid_next_outgoing_seq_num_ os) rs) in *.
    assert (length framed = length rs) as Hlen.
    { rewrite <- (length_fmap me_client_response_ framed). unfold framed. by rewrite frame_responses_payload. }
    set (ms := to_socket (cid_tcp_socket_ os) fd framed) in *.
    assert (length ms ≤ length framed)%nat as Hms by (apply length_filter).
    assert (Forall wire_wf framed) as Hfw by (by apply frame_responses_wf).
    assert (Forall wire_wf ms) as Hmw by (eapply Forall_sublist; [apply sublist_filter|done]).
    assert (feed_chunks (inbound_data_ (tcp_socket_ g)) chunks = (ms, [])) as Ef.
    { rewrite feed_chunks_concat by (rewrite Hin; simpl; lia). rewrite Hin, app_nil_l, Hch. unfold response_stream.
      rewrite <- (app_nil_r (concat _)). apply parse_stream_encode; [done|simpl; lia]. }
    assert (length (concat chunks) = 50 * length ms)%nat as Hcl.
    { rewrite Hch. unfold response_stream. clear. induction ms as [|m ms IH]; [done|]. cbn [fmap list_fmap concat length].
      rewrite length_app, length_encode, IH. cbn [wire_size OMClientResponse_wire]. lia. }
    pose proof (gateway_turns_ok chunks g Hidle) as Hg. rewrite Ef in Hg. eexists. split; [apply Hg|].
    + rewrite Hin. simpl. lia.
    + rewrite Hcl. lia.
    + cbn [set_gw_socket incoming_responses_]. rewrite recv_responses_own, Hc.
      assert (responses_of c ms = responses_of c framed) as -> by (by apply responses_of_socket).
      assert (length (responses_of c framed) ≤ length framed)%nat as Hrl by (apply length_filter).
      destruct (recv_responses_ok (responses_of c framed) g []) as (Hr & _).
      * intros m Hm. apply list_elem_of_filter in Hm as [Hm _]. by rewrite Hm.
      * rewrite Hexp. apply frame_responses_seq; [apply Hseq|]. rewrite <- Hexp. lia.
      * rewrite Hexp. apply Hseq.
      * lia.
      * done.
      * simpl. lia.
      * rewrite app_nil_l in Hr. unfold framed in Hr. by rewrite own_framed in Hr.
Qed.

(** A session of client [c] over the connection [fd] with nothing in flight, and
    room for [n] responses. *)
Record session_open (c fd : Z) (n : nat) (os : OrderServer) (g : OrderGateway) : Prop := {
  so_bound : cid_tcp_socket_ os !! c = Some fd;
  so_quiet : ∀ fd, outbound_data_ (socket_of os fd) = [];
  so_seqs : ∀ c, 0 ≤ seq_of (cid_next_outgoing_seq_num_ os) c < 2 ^ 64;
  so_client : gw_client_id_ g = c;
  so_expects : next_exp_seq_num_ g = seq_of (cid_next_outgoing_seq_num_ os) c;
  so_numbers : next_exp_seq_num_ g + n < 2 ^ 64;
  so_idle : gateway_idle g;
  so_unread : inbound_data_ (tcp_socket_ g) = [];
  so_empty : lfq_rep (incoming_responses_ g) [];
  so_room : n ≤ q_size (incoming_responses_ g);
  so_fits : 50 + 50 * n ≤ TCPBufferSize }.

(** ** All clients together *)

(** What the fills among [rs] do to the position of client [c] in [t]. *)
Definition client_net (t : Z) (rs : list MEClientResponse) (c : Z) : Z := net_qty (fills_on t (own c rs)).

Lemma client_net_cons t r rs c :
  client_net t (r :: rs) c = (if decide (resp_client_id_ r = c) then moved r t else 0) + client_net t rs c.
Proof.
  unfold client_net, own, fills_on, moved. rewrite filter_cons. case_decide; [|lia].
  rewrite filter_cons. by case_decide.
Qed.

Definition sumZ (l : list Z) : Z := foldr Z.add 0 l.

Lemma sumZ_add {A} (f g : A → Z) l : sumZ ((λ x, f x + g x) <$> l) = sumZ (f <$> l) + sumZ (g <$> l).
Proof. unfold sumZ. induction l as [|x l IH]; [done|]. rewrite !fmap_cons. cbn [foldr]. rewrite IH. lia. Qed.

Lemma sumZ_single {A} `{!EqDecision A} (a : A) (z : Z) l :
  NoDup l → a ∈ l → sumZ ((λ x, if decide (a = x) then z else 0) <$> l) = z.
Proof.
  assert (∀ l, a ∉ l → sumZ ((λ x, if decide (a = x) then z else 0) <$> l) = 0) as H0.
  { clear. unfold sumZ. induction l as [|x l IH]; [done|]. intros [? ?]%not_elem_of_cons. rewrite fmap_cons. cbn [foldr].
    rewrite decide_False, IH by done. done. }
  induction 1 as [|x l Hx _ IH]; [by intros ?%elem_of_nil|]. intros [<-|Hin]%elem_of_cons; unfold sumZ in *; rewrite fmap_cons; cbn [foldr].
  - rewrite decide_True, H0 by done. lia.
  - rewrite decide_False, IH by (done || congruence). done.
Qed.

(** The clients' shares add up to the whole. *)
Lemma client_net_sum t cs rs :
  NoDup cs → Forall (λ r, resp_client_id_ r ∈ cs) rs → sumZ (client_net t rs <$> cs) = net_qty (fills_on t rs).
Proof.
  intros Hnd. induction 1 as [|r rs Hr _ IH].
  { unfold sumZ. clear. induction cs as [|c cs IH]; [done|]. rewrite fmap_cons. cbn [foldr]. by rewrite IH. }
  rewrite (list_fmap_ext _ (λ c, (if decide (resp_client_id_ r = c) then moved r t else 0) + client_net t rs c))
    by (intros; apply client_net_cons).
  rewrite sumZ_add, sumZ_single, IH by done. unfold moved, fills_on. rewrite filter_cons. by case_decide.
Qed.

(** Over all clients a plain run moves the positions of a ticker by nothing. *)
Lemma plain_run_net t reqs :
  plain_run reqs →
  sumZ (client_net t (privates (engine_spec_run reqs (replicate (Z.to_nat ME_MAX_TICKERS) MESpec_new)).2) <$> seqZ 0 ME_MAX_NUM_CLIENTS) = 0.
Proof.
  intros Hpl. rewrite client_net_sum.
  - exact (plain_run_zero_sum t reqs Hpl).
  - apply NoDup_seqZ.
  - eapply Forall_impl; [exact (plain_run_privates reqs Hpl)|]. intros r []. apply elem_of_seqZ. lia.
Qed.
