(* ===== verification/FeedPath.v ===== *)
(** * Market data from the consumer's queue to the trade engine's books.

    The update loop of the trade engine ([run] of
    src/trading/strategy/trade_engine.cpp).  [te_drain_updates_books]: whatever
    the algorithm does, the books are the replay of the updates.
    [te_drain_updates_total]: without an algorithm and without VPIN the loop
    returns, as long as prices stay in the band and positions in 32 bits; so the
    features and the valuation of positions do not overflow. *)

From stdpp Require Import numbers gmap list sorting.
From S2P Require Import Prelude MemPool Types LFQueue BookCore BookSpec BookRep BookRemove BookRefine MarketOrderBook MEOrderBook MESpec MatchingEngine MarketData Mirror Snapshot System MarketDataConsumer Requests Wire Double Position RunEvents OrderManager Features Strategy Session.

Open Scope Z_scope.
Local Coercion Z.of_nat : nat >-> Z.

Section Books.
Context {F : Type} `{!Double F} `{!DoubleMath F} `{!DoubleCast F} {E : Type} `{!RequestSink E}.
Implicit Types (te : TradeEngine F E).

Lemma te_book_update_books fuel now u mb te te' :
  te_book_update fuel now u mb te = Ok te' →
  ∃ mb' note, onMarketUpdate u mb = Ok (mb', note)
    ∧ ticker_order_book_ te' = <[Z.to_nat (mu_ticker_id_ u) := mb']> (ticker_order_book_ te)
    ∧ incoming_md_updates_ te' = incoming_md_updates_ te.
Proof.
  intros ([mb' note] & Hu & H)%bind_ok. exists mb', note. split; [done|]. cbn zeta in H. destruct note as [u'|tid p s].
  - apply bind_ok in H as (fe & _ & H). cbn zeta in H. cbn [algo_ set_features set_order_books] in H.
    destruct (algo_ te); try (by injection H as <-). by apply bind_ok in H as (t & _ & [= <-]).
  - apply bind_ok in H as (k & _ & H). cbn zeta in H. apply bind_ok in H as (fe & _ & H). cbn zeta in H.
    cbn [algo_ set_features set_order_books set_trader] in H.
    destruct (algo_ te); try (by injection H as <-). by apply bind_ok in H as (t & _ & [= <-]).
Qed.

(** The book of a ticker after the loop. *)
Lemma te_drain_updates_books fuel n clock us te te' t mb :
  lfq_rep (incoming_md_updates_ te) us → Forall (λ u, 0 ≤ mu_ticker_id_ u) us → 0 ≤ t →
  ticker_order_book_ te !! Z.to_nat t = Some mb → te_drain_updates fuel n clock te = Ok te' →
  ∃ mb', mkt_replay (of_ticker t us) mb = Ok mb' ∧ ticker_order_book_ te' !! Z.to_nat t = Some mb'.
Proof.
  intros Hq Hus Ht. revert n te mb Hq. induction Hus as [|u us Hu _ IH]; intros n te mb Hq Hmb.
  { destruct n; cbn [te_drain_updates]; rewrite (getNextToRead_ok _ _ Hq); intros [= <-]; by exists mb. }
  destruct n as [|n]; cbn [te_drain_updates]; rewrite (getNextToRead_ok _ _ Hq); [done|]. cbn [head].
  intros (te1 & H1 & Hx)%bind_ok. apply bind_ok in H1 as (_ & _ & H1).
  destruct (ticker_order_book_ te !! Z.to_nat (mu_ticker_id_ u)) as [mbu|] eqn:Eu; [|done].
  destruct (te_book_update_books _ _ _ _ _ _ H1) as (mb1 & note & Eo & Eb & Ei).
  destruct (updateReadIndex_ok _ _ _ Hq) as (q' & Er & Hq' & _). rewrite Ei, Er in Hx. cbn [rbind] in Hx.
  assert (ticker_order_book_ (set_updates q' te1) = <[Z.to_nat (mu_ticker_id_ u) := mb1]> (ticker_order_book_ te)) as Eb'
    by exact Eb.
  unfold of_ticker. rewrite filter_cons. destruct (decide (mu_ticker_id_ u = t)) as [<-|Hne].
  - rewrite Eu in Hmb. injection Hmb as ->. cbn [mkt_replay]. rewrite Eo. cbn [rbind]. eapply IH; [|..|exact Hx]; [done|].
    rewrite Eb'. apply list_lookup_insert_eq. by eapply lookup_lt_Some.
  - eapply IH; [|..|exact Hx]; [done|]. rewrite Eb', list_lookup_insert_ne by lia. done.
Qed.

(** ** The loop returns *)

Definition band_book (ab : absbook MarketOrder) : Prop := ∀ x, x ∈ ab_all ab → 0 ≤ mo_price_ x < price_band.

(** A side of the best-bid-offer is empty or in the band. *)
Definition bbo_band (price qty : Z) : Prop := (price = Price_INVALID ∨ 0 ≤ price < price_band) ∧ 0 ≤ qty < 2 ^ 32.

Lemma band_book_bbo ab bbo :
  band_book ab → bbo_ok bbo ab →
  bbo_band (bid_price_ bbo) (bid_qty_ bbo) ∧ bbo_band (ask_price_ bbo) (ask_qty_ bbo).
Proof.
  assert (∀ s p q, proper_side s → band_book ab → (p, q) = spec_best (ab_side ab s) → bbo_band p q) as H.
  { intros s p q Hs Hb. unfold spec_best. destruct (ab_side ab s) as [|x l] eqn:El; intros [= -> ->].
    - split; [by left|]. unfold Qty_INVALID. lia.
    - split; [|apply Z.mod_pos_bound; lia]. right. apply Hb, elem_of_ab_all. exists s. rewrite El. split; [done|left]. }
  intros Hb [H1 H2]. split; [by apply (H BUY); [left|..]|by apply (H SELL); [right|..]].
Qed.

Lemma spec_update_band u ab : band_book ab → 0 ≤ mu_price_ u < price_band → valid_update u ab → band_book (spec_update u ab).
Proof.
  intros Hb Hu Hv x. unfold spec_update, valid_update in *. destruct (mu_type_ u) eqn:Et; try apply Hb.
  - destruct Hv as (Hs & _). rewrite (ab_all_set_insert _ _ (mkt_order u)) by (done || apply insert_order_perm). intros [->|Hx]%elem_of_cons; [done|by apply Hb].
  - rewrite ab_all_map by (intros; apply fmap_app). intros (y & -> & Hy)%list_elem_of_fmap.
    specialize (Hb y Hy). by case_decide.
  - rewrite ab_all_map by (intros; apply remove_order_app). intros [_ Hx]%list_elem_of_filter. by apply Hb.
Qed.

Lemma features_total bbo (fe : FeatureEngine F) :
  bbo_band (bid_price_ bbo) (bid_qty_ bbo) → bbo_band (ask_price_ bbo) (ask_qty_ bbo) →
  ∃ fe', features_onOrderBookUpdate bbo fe = Ok fe' ∧ use_vpin_ fe' = use_vpin_ fe.
Proof.
  intros [Hb Hbq] [Ha Haq]. unfold features_onOrderBookUpdate, bbo_valid.
  destruct (Z.eqb_spec (bid_price_ bbo) Price_INVALID); [by exists fe|].
  destruct (Z.eqb_spec (ask_price_ bbo) Price_INVALID); [by exists fe|]. cbn [negb andb].
  destruct Hb as [?|Hb]; [done|]. destruct Ha as [?|Ha]; [done|]. unfold price_band, ME_MAX_PRICE_LEVELS in *.
  unfold micro_price, mid_price. destruct (use_stoikov_micro_ fe); repeat (rewrite int64_ok by nia; cbn [rbind]);
    eexists; split; reflexivity.
Qed.

(** Positions whose absolute value is an [int]. *)
Definition positions_int te : Prop :=
  Forall (λ p, - 2 ^ 31 < position_ p < 2 ^ 31) (ticker_position_ (position_keeper_ (te_trader te))).

Lemma position_updateBBO_total bbo (p : PositionInfo F) :
  bbo_band (bid_price_ bbo) (bid_qty_ bbo) → bbo_band (ask_price_ bbo) (ask_qty_ bbo) → - 2 ^ 31 < position_ p < 2 ^ 31 →
  ∃ p', position_updateBBO bbo p = Ok p' ∧ position_ p' = position_ p.
Proof.
  intros [Hb _] [Ha _] Hp. unfold position_updateBBO.
  destruct (Z.eqb_spec (position_ p) 0); [by exists p|].
  destruct (Z.eqb_spec (bid_price_ bbo) Price_INVALID); [by exists p|].
  destruct (Z.eqb_spec (ask_price_ bbo) Price_INVALID); [by exists p|]. cbn [negb andb].
  destruct Hb as [?|Hb]; [done|]. destruct Ha as [?|Ha]; [done|]. unfold price_band, ME_MAX_PRICE_LEVELS in *.
  rewrite int64_ok by lia. cbn [rbind]. unfold unrealised. rewrite int32_ok by lia. cbn [rbind].
  destruct (0 <? position_ p); cbn [rbind]; eexists; split; reflexivity.
Qed.

(** A trade engine that only watches. *)
Record watching te : Prop := {
  wa_algo : has_algo te = false;
  wa_vpin : use_vpin_ (feature_engine_ te) = false;
  wa_sized : te_sized te;
  wa_books : length (ticker_order_book_ te) = Z.to_nat ME_MAX_TICKERS;
  wa_positions : positions_int te }.

Lemma te_book_update_total fuel now u mb te ab :
  watching te → mkt_rep mb ab → valid_update u ab → band_book ab → 0 ≤ mu_price_ u < price_band →
  0 ≤ mu_ticker_id_ u < ME_MAX_TICKERS →
  ∃ te', te_book_update fuel now u mb te = Ok te' ∧ watching te'.
Proof.
  intros [Ha Hvp (S1 & S2 & S3 & S4) Hlb Hpos] Hm Hv Hb Hp Ht. unfold te_book_update.
  destruct (onMarketUpdate_ok u mb ab Hm Hv) as (mb' & note & -> & (_ & _ & Hbbo) & _ & Hn). cbn [rbind].
  destruct (band_book_bbo _ _ (spec_update_band u ab Hb Hp Hv) Hbbo) as [Hb1 Hb2].
  assert (algo_ te ≠ MAKER ∧ algo_ te ≠ TAKER) as [Hna1 Hna2].
  { unfold has_algo in Ha. apply orb_false_iff in Ha as [A1 A2]. by rewrite bool_decide_eq_false in A1, A2. }
  set (te0 := set_order_books _ te).
  assert (watching te0) as Hw0 by (split; [done..|by split_and!|cbn; by rewrite length_insert|done]).
  rewrite Hn. destruct (decide (mu_type_ u = MU_TRADE)).
  - unfold te_onTradeUpdate, features_onTradeUpdate. cbn [feature_engine_ te0 set_order_books]. rewrite Hvp. cbn [rbind].
    cbn [algo_ set_features set_order_books te0].
    destruct (algo_ te) eqn:Ea; try done; (eexists; split; [done|]); (split; [unfold has_algo; cbn; by rewrite Ea|done|by split_and!|
      cbn; by rewrite length_insert|done]).
  - unfold te_onOrderBookUpdate, keeper_updateBBO. cbn [te_trader te0 set_order_books].
    destruct (lookup_lt_is_Some_2 (ticker_position_ (position_keeper_ (te_trader te))) (Z.to_nat (mu_ticker_id_ u))) as [p Hpp];
      [rewrite S2; lia|]. rewrite Hpp.
    destruct (position_updateBBO_total (bbo_ mb') p Hb1 Hb2) as (p' & -> & Ep).
    { unfold positions_int in Hpos. rewrite Forall_forall in Hpos. apply Hpos. by eapply list_elem_of_lookup_2. }
    cbn [rbind]. destruct (features_total (bbo_ mb') (feature_engine_ te) Hb1 Hb2) as (fe' & Ef & Hvp').
    change (feature_engine_ (set_trader ?a ?b)) with (feature_engine_ te). rewrite Ef. cbn [rbind].
    set (te2 := set_features fe' _). assert (watching te2) as Hw.
    { split; [done|cbn; by rewrite Hvp'| |cbn; by rewrite length_insert|].
      - split_and!; try done. cbn. by rewrite length_insert.
      - unfold positions_int. cbn. apply Forall_insert; [done|]. rewrite Ep.
        unfold positions_int in Hpos. rewrite Forall_forall in Hpos. apply Hpos. by eapply list_elem_of_lookup_2. }
    assert (algo_ te2 = algo_ te) as -> by done. destruct (algo_ te) eqn:Ea; try done; by exists te2.
Qed.

(** Each ticker's updates form a valid stream for its book. *)
Definition books_fed (us : list MEMarketUpdate) te : Prop :=
  ∀ t mb, 0 ≤ t → ticker_order_book_ te !! Z.to_nat t = Some mb →
    ∃ ab ab', mkt_rep mb ab ∧ band_book ab ∧ feeds (of_ticker t us) ab ab'.

Lemma te_drain_updates_total fuel n clock us te :
  watching te → lfq_rep (incoming_md_updates_ te) us → (length us ≤ n)%nat →
  Forall (λ u, 0 ≤ mu_ticker_id_ u < ME_MAX_TICKERS ∧ 0 ≤ mu_price_ u < price_band) us → books_fed us te →
  ∃ te', te_drain_updates fuel n clock te = Ok te' ∧ watching te' ∧ lfq_rep (incoming_md_updates_ te') [].
Proof.
  intros Hw Hq Hn Hus. revert n te Hw Hq Hn. induction Hus as [|u us [Ht Hp] _ IH]; intros n te Hw Hq Hn Hf.
  { exists te. split_and!; [|done..]. destruct n; cbn [te_drain_updates]; by rewrite (getNextToRead_ok _ _ Hq). }
  destruct n as [|n]; [simpl in Hn; lia|]. cbn [te_drain_updates]. rewrite (getNextToRead_ok _ _ Hq). cbn [head].
  destruct (lookup_lt_is_Some_2 (ticker_order_book_ te) (Z.to_nat (mu_ticker_id_ u))) as [mb Hmb];
    [rewrite (wa_books _ Hw); lia|].
  destruct (Hf (mu_ticker_id_ u) mb (proj1 Ht) Hmb) as (ab & ab' & Hm & Hb & Hfeeds).
  unfold of_ticker in Hfeeds. rewrite filter_cons, decide_True in Hfeeds by done. destruct Hfeeds as [Hv Hfeeds].
  destruct (te_book_update_total fuel (clock n) u mb te ab Hw Hm Hv Hb Hp Ht) as (te1 & E1 & Hw1).
  unfold te_market_update. rewrite (wa_books _ Hw), (proj2 (Z.ltb_lt _ _)) by lia. cbn [ASSERT rbind]. rewrite Hmb, E1.
  cbn [rbind]. destruct (te_book_update_books _ _ _ _ _ _ E1) as (mb1 & note & Eo & Eb & Ei). rewrite Ei.
  destruct (updateReadIndex_ok _ _ _ Hq) as (q' & -> & Hq' & _). cbn [rbind].
  destruct (onMarketUpdate_ok u mb ab Hm Hv) as (mb2 & n2 & E2 & Hm2 & _). rewrite Eo in E2. injection E2 as <- <-.
  apply (IH n (set_updates q' te1)); [destruct Hw1 as [? ? (? & ? & ? & ?) ? ?]; by repeat split|done|simpl in Hn; lia|].
  intros t mbt H0. cbn [ticker_order_book_ set_updates]. rewrite Eb.
  destruct (decide (t = mu_ticker_id_ u)) as [->|Hne].
  - rewrite list_lookup_insert_eq by (by eapply lookup_lt_Some). intros [= <-].
    exists (spec_update u ab), ab'. split_and!; [done|by apply spec_update_band|done].
  - rewrite list_lookup_insert_ne by lia. intros Hmbt. destruct (Hf t mbt H0 Hmbt) as (abt & abt' & ? & ? & Hft).
    unfold of_ticker in Hft. rewrite filter_cons, decide_False in Hft by done. by exists abt, abt'.
Qed.

(** ** A client started with the exchange *)

Lemma watching_new client_id algo_type (cfgs : list (TradeEngineCfg F)) mem now (requests : E) responses updates te :
  TradeEngine_new client_id algo_type cfgs mem now requests responses updates = Ok te →
  length cfgs = Z.to_nat ME_MAX_TICKERS → algo_type ≠ MAKER → algo_type ≠ TAKER →
  Forall (λ cfg, cfg_use_vpin_ cfg = false) cfgs → watching te.
Proof.
  intros Ete Hl Hm Ht Hv.
  destruct (TradeEngine_new_ok client_id algo_type cfgs mem now requests responses updates Hl)
    as (te1 & cfg0 & E1 & H0 & Ha & Hf & Hb & _ & _ & Hp & Hs).
  rewrite Ete in E1. injection E1 as <-. split.
  - unfold has_algo. rewrite Ha, !bool_decide_false by done. done.
  - rewrite Hf. cbn. rewrite Forall_forall in Hv. apply Hv. by eapply list_elem_of_lookup_2.
  - exact Hs.
  - rewrite Hb. unfold market_books. by rewrite length_fmap, length_seqZ.
  - unfold positions_int. rewrite Hp. apply Forall_replicate. cbn. lia.
Qed.

(** The books of a trade engine created in memory of zeros. *)
Definition fresh_market_books : list MarketOrderBook := market_books (λ _, zeroed).

Lemma market_books_fresh (mem : Z → IndexMemory Z) : all_zeroed mem → market_books mem = fresh_market_books.
Proof.
  intros Hz. unfold market_books, fresh_market_books. apply list_fmap_ext. intros i t _. by rewrite Hz.
Qed.

Lemma fresh_books_lookup t :
  0 ≤ t < ME_MAX_TICKERS → fresh_market_books !! Z.to_nat t = Some (MarketOrderBook_new zeroed t).
Proof. apply market_books_lookup. Qed.

(** The updates of a plain run in the queue of a new trade engine. *)
Lemma fresh_run_fed reqs te :
  valid_engine_run reqs fresh_books → tickers_ok reqs fresh_books → 1 + length reqs < ME_MAX_ORDER_IDS →
  ticker_order_book_ te = fresh_market_books →
  books_fed (publics (engine_spec_run reqs fresh_books).2) te.
Proof.
  intros Hv Ht Hn Hb t mb H0. rewrite Hb. intros [Hlt ->]%market_books_lookup_inv; [|done]. destruct (fresh_engine_feeds reqs Hv Ht Hn) as [_ Hf].
  eexists (mkAbs [] []), _. split_and!; [apply mkt_rep_new|by intros x ?%elem_of_nil|]. apply Hf. lia.
Qed.

Lemma fresh_run_mirrored reqs obs us te fuel n clock te' t ob :
  valid_engine_run reqs fresh_books → tickers_ok reqs fresh_books → 1 + length reqs < ME_MAX_ORDER_IDS →
  books_rep obs (engine_spec_run reqs fresh_books).1 → us = publics (engine_spec_run reqs fresh_books).2 →
  Forall update_plain us → lfq_rep (incoming_md_updates_ te) us →
  ticker_order_book_ te = fresh_market_books →
  te_drain_updates fuel n clock te = Ok te' → 0 ≤ t → obs !! Z.to_nat t = Some ob →
  ∃ mb ab, ticker_order_book_ te' !! Z.to_nat t = Some mb
    ∧ rep (me_book ob) ab ∧ rep (mkt_book mb) (mirror ab) ∧ bbo_ok (bbo_ mb) (mirror ab).
Proof.
  intros Hv Ht Hn Hb Eus Hup Hq Hbk Hdr H0 Hob.
  destruct (fresh_feeds reqs _ Hv Ht Hn Hb t ob H0 Hob) as (Hlt & ab & Hr & Hf).
  destruct (te_drain_updates_books fuel n clock us te te' t (MarketOrderBook_new zeroed t) Hq) as (mb & Em & Hmb); try done.
  { eapply Forall_impl; [exact Hup|]. intros u []. lia. }
  { rewrite Hbk. apply fresh_books_lookup. lia. }
  destruct (feeds_replay _ _ _ _ Hf (mkt_rep_new t)) as (mb' & Em' & Hm & _ & Hbbo). rewrite <- Eus, Em in Em'.
  injection Em' as <-. by exists mb, ab.
Qed.

(** A trade engine that only watches gets through the updates of a run. *)
Lemma fresh_run_watched reqs us te fuel clock :
  valid_engine_run reqs fresh_books → tickers_ok reqs fresh_books → 1 + length reqs < ME_MAX_ORDER_IDS →
  us = publics (engine_spec_run reqs fresh_books).2 → Forall update_plain us → lfq_rep (incoming_md_updates_ te) us →
  ticker_order_book_ te = fresh_market_books → watching te →
  ∃ te', te_drain_updates fuel (length us) clock te = Ok te'.
Proof.
  intros Hv Ht Hn Eus Hup Hq Hbk Hw.
  destruct (te_drain_updates_total fuel (length us) clock us te Hw Hq) as (te' & Ed & _); [done| | |by exists te'].
  - eapply Forall_impl; [exact Hup|]. by intros u [].
  - rewrite Eus. by apply fresh_run_fed.
Qed.
End Books.

(** ** Publisher and consumer *)

(** A turn of a new publisher and a round of a new consumer hand on the updates. *)
Lemma feed_delivered q us :
  lfq_rep q us → length us ≤ ME_MAX_MARKET_UPDATES → Forall update_plain us →
  ∃ sent p', publisher_turn (42 * length us) (MarketDataPublisher_new q) = Ok (sent, p')
    ∧ ∀ datagrams fd sfd, concat datagrams = sent → Forall (λ d, d ≠ []) datagrams →
      ∃ c', stream_round sfd Incremental datagrams (MarketDataConsumer_new (LFQueue_new ME_MAX_MARKET_UPDATES) fd) = Ok (c', [])
        ∧ lfq_rep (MarketDataConsumer.incoming_md_updates_ c') us.
Proof.
  intros Hq Hlen Hup. unfold ME_MAX_MARKET_UPDATES in Hlen.
  destruct (publisher_turn_ok us (MarketDataPublisher_new q) (42 * length us)) as (sent & p' & Ep & _ & _ & _ & _ & Esent);
    [done|by apply lfq_rep_new|cbn; unfold ME_MAX_MARKET_UPDATES; lia|done|unfold McastBufferSize; lia|done|cbn; lia|done|].
  exists sent, p'. split; [done|]. intros ds fd sfd Hds Hne. rewrite Esent in Hds.
  destruct (stream_round_forwards sfd us ds [] (MarketDataConsumer_new (LFQueue_new ME_MAX_MARKET_UPDATES) fd))
    as (c' & Ec & Hq' & _); try done.
  - unfold McastBufferSize. lia.
  - eapply Forall_impl; [exact Hup|]. by intros u [].
  - cbn. lia.
  - by apply lfq_rep_new.
  - by exists c'.
Qed.
