(* ===== verification/EngineRuns.v ===== *)
(** * What the loops of the trade engine do to its state.

    The two loops of [TradeEngine::run] (src/trading/strategy/trade_engine.cpp)
    on whatever is waiting, for any algorithm.  The response loop moves the
    positions by the fills and sends nothing; the update loop replays the updates
    on the books (FeedPath.v), leaves the positions alone and sends only requests
    of its own client. *)

From stdpp Require Import numbers gmap list sorting.
From S2P Require Import Prelude MemPool Types LFQueue BookSpec MarketOrderBook MatchingEngine Wire Double Position RunEvents OrderManager Features Strategy Session FeedPath.

Open Scope Z_scope.
Local Coercion Z.of_nat : nat >-> Z.

Lemma int32_eq z z' : int32 z = Ok z' → z' = z.
Proof. unfold int32. by destruct (_ && _); intros [= <-]. Qed.

Section Runs.
Context {F : Type} `{!Double F} `{!DoubleMath F} `{!DoubleCast F} {E : Type} `{!RequestSink E}.
Implicit Types (te : TradeEngine F E) (t : Trader F E) (p : PositionInfo F) (k : PositionKeeper F).

Definition positions t : list Z := position_ <$> ticker_position_ (position_keeper_ t).

(** [t'] comes from [t] by requests of its own. *)
Record trades t t' : Prop := {
  td_id : tr_client_id_ t' = tr_client_id_ t;
  td_positions : positions t' = positions t;
  td_rebates : rebate_bps_ (position_keeper_ t') = rebate_bps_ (position_keeper_ t);
  td_risk : ticker_risk_ t' = ticker_risk_ t;
  td_slots : length (ticker_side_order_ (order_manager_ t')) = length (ticker_side_order_ (order_manager_ t));
  td_sent : ∃ new, outgoing_ogw_requests_ t' = send_all new (outgoing_ogw_requests_ t)
    ∧ Forall (λ r, req_client_id_ r = tr_client_id_ t) new }.

#[export] Instance trades_preorder : PreOrder trades.
Proof.
  split; [intros t; split; [done..|by exists []]|].
  intros t1 t2 t3 [A1 A2 A3 A4 A5 (new1 & A6 & A7)] [B1 B2 B3 B4 B5 (new2 & B6 & B7)]. split; [congruence..|].
  exists (new1 ++ new2). unfold send_all in *. rewrite foldl_app, <- A6. split; [done|]. apply Forall_app. split; [done|]. by rewrite <- A1.
Qed.

Lemma newOrder_trades ticker_id price side qty t : trades t (newOrder ticker_id price side qty t).
Proof.
  split; [done..| |].
  - unfold newOrder. cbn [order_manager_ set_order_manager ticker_side_order_ set_om_slot]. apply length_alter.
  - exists [mkMEClientRequest Req_NEW (tr_client_id_ t) ticker_id (next_order_id_ (order_manager_ t)) side price qty].
    split; [done|by apply Forall_singleton].
Qed.

Lemma cancelOrder_trades ticker_id side o t : trades t (cancelOrder ticker_id side o t).
Proof.
  split; [done..| |].
  - unfold cancelOrder. cbn [order_manager_ set_order_manager ticker_side_order_ set_om_slot sendClientRequest]. apply length_alter.
  - eexists [_]. split; [done|by apply Forall_singleton].
Qed.

Lemma moveOrder_trades ticker_id price side qty t t' : moveOrder ticker_id price side qty t = Ok t' → trades t t'.
Proof. intros [|o _ _|o _ _ _ _]%moveOrder_outcome; [done|apply cancelOrder_trades|apply newOrder_trades]. Qed.

Lemma cancel_if_live_trades ticker_id side t t' : cancel_if_live ticker_id side t = Ok t' → trades t t'.
Proof.
  unfold cancel_if_live. destruct (om_slot _ _ _) as [o|]; [|done]. intros [= <-].
  case_bool_decide; [apply cancelOrder_trades|done].
Qed.

Lemma act_trades ticker_id d t t' : act ticker_id d t = Ok t' → trades t t'.
Proof.
  destruct d as [|bid ask clip]; cbn [act]; intros (t1 & H1 & H2)%bind_ok.
  - etrans; by eapply cancel_if_live_trades.
  - etrans; by eapply moveOrder_trades.
Qed.

Lemma maker_trades cfgs start now ticker_id bbo fe t t' :
  maker_onOrderBookUpdate cfgs start now ticker_id bbo fe t = Ok t' → trades t t'.
Proof.
  unfold maker_onOrderBookUpdate. destruct (_ && _); [|by intros [= <-]]. destruct (cfgs !! _); [|done].
  intros (d & _ & H)%bind_ok. by eapply act_trades.
Qed.

Lemma taker_trades cfgs u bbo fe t t' : taker_onTradeUpdate cfgs u bbo fe t = Ok t' → trades t t'.
Proof.
  unfold taker_onTradeUpdate. destruct (_ && _); [|by intros [= <-]]. destruct (cfgs !! _) as [cfg|]; [|done].
  destruct (_ <=? _)%D; [|by intros [= <-]].
  case_bool_decide; [apply (act_trades _ (Quote _ _ _))|apply (act_trades _ (Quote _ _ _))].
Qed.

(** Marking to market does not touch the position. *)
Lemma position_updateBBO_position bbo p p' : position_updateBBO bbo p = Ok p' → position_ p' = position_ p.
Proof.
  unfold position_updateBBO. destruct (_ && _); [|by intros [= <-]]. intros (s & _ & H)%bind_ok. by apply bind_ok in H as (u & _ & [= <-]).
Qed.

Lemma keeper_updateBBO_positions ticker_id bbo k k' :
  keeper_updateBBO ticker_id bbo k = Ok k' →
  position_ <$> ticker_position_ k' = position_ <$> ticker_position_ k ∧ rebate_bps_ k' = rebate_bps_ k.
Proof.
  unfold keeper_updateBBO. destruct (ticker_position_ k !! _) as [p|] eqn:Ep; [|done]. intros (p' & Hp & [= <-])%bind_ok.
  split; [|done]. cbn [ticker_position_]. rewrite list_fmap_insert, (position_updateBBO_position _ _ _ Hp).
  apply list_insert_id. by rewrite list_lookup_fmap, Ep.
Qed.

Lemma te_book_update_trades fuel now u mb te te' :
  te_book_update fuel now u mb te = Ok te' →
  trades (te_trader te) (te_trader te') ∧ incoming_ogw_responses_ te' = incoming_ogw_responses_ te.
Proof.
  intros ([mb' note] & _ & H)%bind_ok. cbn zeta in H. destruct note as [u'|tid p s].
  - apply bind_ok in H as (fe & _ & H). cbn zeta in H. cbn [algo_ set_features set_order_books] in H.
    destruct (algo_ te); try (by injection H as <-). apply bind_ok in H as (t & Ht & [= <-]). split; [by eapply taker_trades|done].
  - apply bind_ok in H as (k & Hk & H). cbn zeta in H. apply bind_ok in H as (fe & _ & H). cbn zeta in H.
    destruct (keeper_updateBBO_positions _ _ _ _ Hk) as [K1 K2].
    assert (trades (te_trader te) (set_keeper k (te_trader te))) as Hm by (split; [done..|by exists []]).
    cbn [algo_ set_features set_order_books set_trader] in H.
    destruct (algo_ te); try (by injection H as <-). apply bind_ok in H as (t & Ht & [= <-]). split; [|done].
    etrans; [exact Hm|]. by eapply maker_trades in Ht.
Qed.

Lemma te_drain_updates_run fuel n clock us te te' :
  lfq_rep (incoming_md_updates_ te) us → te_drain_updates fuel n clock te = Ok te' →
  lfq_rep (incoming_md_updates_ te') [] ∧ q_size (incoming_md_updates_ te') = q_size (incoming_md_updates_ te)
  ∧ trades (te_trader te) (te_trader te') ∧ incoming_ogw_responses_ te' = incoming_ogw_responses_ te.
Proof.
  revert n te. induction us as [|u us IH]; intros n te Hq.
  { destruct n; cbn [te_drain_updates]; rewrite (getNextToRead_ok _ _ Hq); intros [= <-]; done. }
  destruct n as [|n]; cbn [te_drain_updates]; rewrite (getNextToRead_ok _ _ Hq); [done|]. cbn [head].
  intros (te1 & H1 & Hx)%bind_ok. apply bind_ok in H1 as (_ & _ & H1).
  destruct (ticker_order_book_ te !! _) as [mb|]; [|done].
  destruct (te_book_update_books _ _ _ _ _ _ H1) as (mb1 & note & _ & _ & Ei).
  destruct (te_book_update_trades _ _ _ _ _ _ H1) as [Ht Er].
  destruct (updateReadIndex_ok _ _ _ Hq) as (q' & Eq & Hq' & Hsz). rewrite Ei, Eq in Hx. cbn [rbind] in Hx.
  destruct (λ Hr, IH n (set_updates q' te1) Hr Hx) as (I1 & I2 & I3 & I4); [exact Hq'|]. split_and!; [done| | |].
  - rewrite I2. exact Hsz.
  - etrans; [exact Ht|exact I3].
  - rewrite I4. exact Er.
Qed.

(** ** Responses *)

(** A fill whose quantity is an [int32_t]. *)
Definition fill_small (r : MEClientResponse) : Prop :=
  0 ≤ resp_ticker_id_ r ∧ (resp_type_ r = FILLED → proper_side (resp_side_ r) ∧ 0 ≤ resp_exec_qty_ r < 2 ^ 31).

(** What a response leaves alone. *)
Record keeps te te' : Prop := {
  ke_books : ticker_order_book_ te' = ticker_order_book_ te;
  ke_updates : incoming_md_updates_ te' = incoming_md_updates_ te;
  ke_id : tr_client_id_ (te_trader te') = tr_client_id_ (te_trader te);
  ke_sent : outgoing_ogw_requests_ (te_trader te') = outgoing_ogw_requests_ (te_trader te);
  ke_sized : te_sized te → te_sized te' }.

#[export] Instance keeps_preorder : PreOrder keeps.
Proof.
  split; [by intros te|]. intros te1 te2 te3 [A1 A2 A3 A4 A5] [B1 B2 B3 B4 B5]. split; [congruence..|]. auto.
Qed.

Lemma keeper_addFill_position r k k' :
  proper_side (resp_side_ r) → 0 ≤ resp_exec_qty_ r < 2 ^ 31 → 0 ≤ resp_ticker_id_ r → keeper_addFill r k = Ok k' →
  length (ticker_position_ k') = length (ticker_position_ k) ∧ rebate_bps_ k' = rebate_bps_ k
  ∧ ∀ t : Z, 0 ≤ t → default 0 (position_ <$> ticker_position_ k' !! Z.to_nat t)
                = default 0 (position_ <$> ticker_position_ k !! Z.to_nat t) + (if decide (resp_ticker_id_ r = t) then signed_qty r else 0).
Proof.
  intros Hs Hq H0. unfold keeper_addFill. destruct (rebate_bps_ k !! _) as [bps|]; [|done].
  destruct (ticker_position_ k !! _) as [p|] eqn:Ep; [|done]. intros (p' & Hp & [= <-])%bind_ok. cbn [ticker_position_ rebate_bps_].
  rewrite length_insert. split_and!; [done..|]. intros t Ht. destruct (decide (resp_ticker_id_ r = t)) as [<-|Hne].
  - rewrite list_lookup_insert_eq, Ep by (by eapply lookup_lt_Some). cbn. by apply (addFill_position r bps).
  - rewrite list_lookup_insert_ne by lia. lia.
Qed.

Lemma te_onOrderUpdate_run r te te' :
  fill_small r → te_onOrderUpdate r te = Ok te' →
  keeps te te' ∧ incoming_ogw_responses_ te' = incoming_ogw_responses_ te
  ∧ ∀ t : Z, 0 ≤ t → te_position t te' = te_position t te + moved r t.
Proof.
  intros [H0 Hf] H. unfold te_onOrderUpdate in H.
  assert (∀ k, keeper_addFill r (position_keeper_ (te_trader te)) = Ok k → resp_type_ r = FILLED →
    keeps te (set_trader (set_keeper k (te_trader te)) te)
    ∧ ∀ t : Z, 0 ≤ t → te_position t (set_trader (set_keeper k (te_trader te)) te) = te_position t te + moved r t) as Hfill.
  { intros k Hk Hty. destruct (Hf Hty) as [Hs Hq]. destruct (keeper_addFill_position r _ k Hs Hq H0 Hk) as (L1 & L2 & Hp). split.
    - split; [done..|]. intros (S1 & S2 & S3 & S4). unfold te_sized, sized. cbn [te_trader set_trader set_keeper position_keeper_ ticker_risk_ order_manager_].
      by rewrite L1, L2.
    - intros t Ht. unfold moved. rewrite (Hp t Ht : te_position t (set_trader (set_keeper k (te_trader te)) te) = _). unfold te_position.
      destruct (decide (resp_ticker_id_ r = t)); [by rewrite decide_True|by rewrite decide_False by naive_solver]. }
  assert (resp_type_ r ≠ FILLED → ∀ t : Z, moved r t = 0) as Hno.
  { intros Hne t. unfold moved. rewrite decide_False by naive_solver. done. }
  destruct (has_algo te).
  - apply bind_ok in H as (t' & H & [= <-]). unfold onOrderUpdate in H. apply bind_ok in H as (t1 & H1 & H).
    apply bind_ok in H as (om & Hom & [= <-]).
    assert (length (ticker_side_order_ om) = length (ticker_side_order_ (order_manager_ t1))) as Hlen.
    { unfold om_onOrderUpdate in Hom. destruct (om_slot _ _ _); [|done]. injection Hom as <-.
      destruct (resp_type_ r); try done; by rewrite length_slots. }
    assert (keeps te (set_trader t1 te) ∧ order_manager_ t1 = order_manager_ (te_trader te)
      ∧ ∀ t : Z, 0 ≤ t → te_position t (set_trader t1 te) = te_position t te + moved r t) as ([K1 K2 K3 K4 K5] & Eom & Hp).
    { case_bool_decide as Hty; [apply bind_ok in H1 as (k & Hk & [= <-])|injection H1 as <-].
      - destruct (Hfill k Hk Hty) as [A B]. by split_and!.
      - split_and!; [by split|done|]. intros t _. rewrite Hno by done. unfold te_position. cbn. lia. }
    split_and!; [|done|exact Hp]. split; [done..|]. intros Hsz. destruct (K5 Hsz) as (S1 & S2 & S3 & S4).
    split_and!; try done. cbn [te_trader set_trader set_order_manager order_manager_]. by rewrite Hlen.
  - case_bool_decide as Hty; [apply bind_ok in H as (k & Hk & [= <-])|injection H as <-].
    + destruct (Hfill k Hk Hty) as [A B]. by split_and!.
    + split_and!; [done..|]. intros t _. rewrite Hno by done. lia.
Qed.

Lemma fills_on_cons (t : Z) r rs :
  fills_on t (r :: rs) = (if decide (resp_type_ r = FILLED ∧ resp_ticker_id_ r = t) then [r] else []) ++ fills_on t rs.
Proof. unfold fills_on. rewrite filter_cons. by case_decide. Qed.

Lemma te_drain_responses_run n rs te te' :
  lfq_rep (incoming_ogw_responses_ te) rs → Forall fill_small rs → te_drain_responses n te = Ok te' →
  lfq_rep (incoming_ogw_responses_ te') [] ∧ q_size (incoming_ogw_responses_ te') = q_size (incoming_ogw_responses_ te)
  ∧ keeps te te' ∧ ∀ t : Z, 0 ≤ t → te_position t te' = te_position t te + net_qty (fills_on t rs).
Proof.
  intros Hq Hrs. revert n te Hq. induction Hrs as [|r rs Hr _ IH]; intros n te Hq.
  { destruct n; cbn [te_drain_responses]; rewrite (getNextToRead_ok _ _ Hq); intros [= <-]; split_and!; try done; intros t _; cbn; lia. }
  destruct n as [|n]; cbn [te_drain_responses]; rewrite (getNextToRead_ok _ _ Hq); [done|]. cbn [head].
  intros (te1 & H1 & Hx)%bind_ok. destruct (te_onOrderUpdate_run r te te1 Hr H1) as (Hk & Ei & Hp).
  destruct (updateReadIndex_ok _ _ _ Hq) as (q' & Eq & Hq' & Hsz). rewrite Ei, Eq in Hx. cbn [rbind] in Hx.
  destruct (λ Hr, IH n (set_responses q' te1) Hr Hx) as (I1 & I2 & I3 & I4); [exact Hq'|]. split_and!; [done|by rewrite I2| |].
  - etrans; [exact Hk|]. etrans; [|exact I3]. by split.
  - intros t Ht. rewrite (I4 t Ht). change (te_position t (set_responses q' te1)) with (te_position t te1).
    rewrite (Hp t Ht), fills_on_cons, net_qty_app. unfold moved.
    case_decide; [change (net_qty [r]) with (signed_qty r + 0)|change (net_qty []) with 0]; lia.
Qed.
End Runs.
