(* ===== verification/Measured.v ===== *)
(** * The latency measurements of the trade engine.

    src/common/perf_utils.h and the measured handlers of
    src/trading/strategy/trade_engine.cpp: every handler times its parts with the
    time stamp counter and records the difference in one of seven histograms, which
    the destructor writes to files.

    Strategy.v has the handlers without the measurements.  Here they are with them,
    and [m_turn_ok] shows that measuring changes nothing else and what the
    histograms count. *)

From stdpp Require Import strings functions numbers gmap list.
From S2P Require Import Prelude MemPool Types LFQueue Double Logging LatencyHistogram BookCore BookSpec MarketOrderBook MEOrderBook MatchingEngine OrderServer Position OrderManager Features Strategy Session FeedPath.

Open Scope Z_scope.
Local Coercion Z.of_nat : nat >-> Z.

(** The halves of the counter, as the instruction returns them. *)
Definition rdtsc (lo hi : Z) : Z := Z.lor (u64 (Z.shiftl hi 32)) lo.

(** ** The lines the macros log *)

Section Lines.
Context {F : Type} `{!DoubleText F}.

(** ["% RDTSC " #TAG " %\n"] and ["% TTT " #TAG " %\n"], with the time as a text. *)
Definition RDTSC_format (tag : string) : string := "% RDTSC " +:+ tag +:+ " %" +:+ newline.
Definition TTT_format (tag : string) : string := "% TTT " +:+ tag +:+ " %" +:+ newline.

Definition END_MEASURE (tag time_str : string) (start stop : Z) (q : LFQueue (LogElement F)) : result (LFQueue (LogElement F)) :=
  log (RDTSC_format tag) [ArgString time_str; ArgValue (LUNSIGNED_LONG_INTEGER (u64 (stop - start)))] q.

Definition TTT_MEASURE (tag time_str : string) (nanos : Z) (q : LFQueue (LogElement F)) : result (LFQueue (LogElement F)) :=
  log (TTT_format tag) [ArgString time_str; ArgValue (LLONG_INTEGER nanos)] q.

Definition no_percent (s : string) : Prop := Forall (λ c, c ≠ PERCENT) (String.list_ascii_of_string s).

Lemma holes_plain s rest : no_percent s → holes (parse_format (s +:+ rest)) = holes (parse_format rest).
Proof.
  unfold no_percent. induction s as [|c s IH]; intros H; [done|]. apply Forall_cons in H as [Hc H].
  change (String c s +:+ rest)%string with (String c (s +:+ rest)). cbn [parse_format]. rewrite bool_decide_false by done.
  rewrite holes_Some. by apply IH.
Qed.

(** A tag is an identifier, so the two arguments fill the two holes: measuring
    never ends the process. *)
Lemma measure_lines_logged tag time_str start stop nanos q :
  no_percent tag →
  (∃ es, END_MEASURE tag time_str start stop q = Ok (enqueue_all es q)) ∧ (∃ es, TTT_MEASURE tag time_str nanos q = Ok (enqueue_all es q)).
Proof.
  intros Ht. assert (∀ s, no_percent s → holes (parse_format (("%" +:+ s) +:+ tag +:+ " %" +:+ newline)) = 2%nat ∨ s = "") as Hh.
  { intros s Hs. destruct s as [|c s]; [by right|left]. inversion Hs as [|?? Hc Hs']; subst.
    change (parse_format _) with (parse_format (String PERCENT (String c (s +:+ tag +:+ " %" +:+ newline)))).
    rewrite parse_format_cons2, bool_decide_true, bool_decide_false by done. rewrite holes_None. f_equal.
    etransitivity; [apply (holes_plain (String c s)); by constructor|]. by rewrite (holes_plain tag). }
  split; eexists; (unfold END_MEASURE, TTT_MEASURE; rewrite log_ok, decide_True; [reflexivity|]).
  - destruct (Hh " RDTSC ") as [H|H]; [by repeat constructor|exact H|done].
  - destruct (Hh " TTT ") as [H|H]; [by repeat constructor|exact H|done].
Qed.
End Lines.

(** ** The histograms *)

(** The histograms, in the order in which they are written out. *)
Inductive Tag := pk_updateBBO | fe_obUpdate | algo_obUpdate | fe_trUpdate | algo_trUpdate | pk_addFill | algo_ordUpdate.

#[export] Instance Tag_eq_dec : EqDecision Tag.
Proof. solve_decision. Defined.

Definition all_tags : list Tag := [pk_updateBBO; fe_obUpdate; algo_obUpdate; fe_trUpdate; algo_trUpdate; pk_addFill; algo_ordUpdate].

Definition tag_name (t : Tag) : string :=
  match t with
  | pk_updateBBO => "Trading_PositionKeeper_updateBBO"
  | fe_obUpdate => "Trading_FeatureEngine_onOrderBookUpdate"
  | algo_obUpdate => "Trading_TradeEngine_algoOnOrderBookUpdate_"
  | fe_trUpdate => "Trading_FeatureEngine_onTradeUpdate"
  | algo_trUpdate => "Trading_TradeEngine_algoOnTradeUpdate_"
  | pk_addFill => "Trading_PositionKeeper_addFill"
  | algo_ordUpdate => "Trading_TradeEngine_algoOnOrderUpdate_"
  end.

(** The histograms, and how many measurements have been made. *)
Record Meter := mkMeter { m_hists : Tag → LatencyHistogram; m_done : nat }.

Definition Meter_new : Meter := mkMeter (λ t, LatencyHistogram_new (tag_name t)) 0.

Section Measured.
Context {F : Type} `{!Double F} `{!DoubleMath F} `{!DoubleCast F} {E : Type} `{!RequestSink E}.
(** The counter at the start and at the end of each measurement. *)
Context (span : nat → Z * Z).
Implicit Types (te : TradeEngine F E) (m : Meter).

Definition END_MEASURE_HIST (t : Tag) m : result Meter :=
  let '(start, stop) := span (m_done m) in
  let delta := u64 (stop - start) in
  let* h := record (i64 delta) (m_hists m t) in
  Ok (mkMeter (<[t := h]> (m_hists m)) (S (m_done m))).

(** [START_MEASURE], some work, [END_MEASURE_HIST]. *)
Definition measured {A} (t : Tag) (work : result A) m : result (A * Meter) :=
  let* a := work in
  let* m := END_MEASURE_HIST t m in
  Ok (a, m).

(** ** Dispatch *)

(** The handlers of the algorithms that only log, or pass the response on. *)
Definition maker_onTradeUpdate (u : MEMarketUpdate) (t : Trader F E) : result (Trader F E) := Ok t.
Definition taker_onOrderBookUpdate (ticker_id : Z) (bbo : BBO) (t : Trader F E) : result (Trader F E) := Ok t.

Definition maker_onOrderUpdate (r : MEClientResponse) (t : Trader F E) : result (Trader F E) :=
  let* om := om_onOrderUpdate r (order_manager_ t) in Ok (set_order_manager om t).
Definition taker_onOrderUpdate (r : MEClientResponse) (t : Trader F E) : result (Trader F E) :=
  let* om := om_onOrderUpdate r (order_manager_ t) in Ok (set_order_manager om t).

Definition dispatchOnOrderBookUpdate (now ticker_id : Z) (bbo : BBO) te : result (TradeEngine F E) :=
  match algo_ te with
  | MAKER =>
      let* t := maker_onOrderBookUpdate (ticker_cfg_ te) (session_start_ns_ te) now ticker_id bbo (feature_engine_ te) (te_trader te) in
      Ok (set_trader t te)
  | TAKER => let* t := taker_onOrderBookUpdate ticker_id bbo (te_trader te) in Ok (set_trader t te)
  | _ => Ok te
  end.

Definition dispatchOnTradeUpdate (u : MEMarketUpdate) (bbo : BBO) te : result (TradeEngine F E) :=
  match algo_ te with
  | MAKER => let* t := maker_onTradeUpdate u (te_trader te) in Ok (set_trader t te)
  | TAKER =>
      let* t := taker_onTradeUpdate (ticker_cfg_ te) u bbo (feature_engine_ te) (te_trader te) in
      Ok (set_trader t te)
  | _ => Ok te
  end.

Definition dispatchOnOrderUpdate (r : MEClientResponse) te : result (TradeEngine F E) :=
  match algo_ te with
  | MAKER => let* t := maker_onOrderUpdate r (te_trader te) in Ok (set_trader t te)
  | TAKER => let* t := taker_onOrderUpdate r (te_trader te) in Ok (set_trader t te)
  | _ => Ok te
  end.

(** ** Handlers *)

Definition m_onOrderBookUpdate (now ticker_id : Z) (bbo : BBO) te m : result (TradeEngine F E * Meter) :=
  let* (k, m) := measured pk_updateBBO (keeper_updateBBO ticker_id bbo (position_keeper_ (te_trader te))) m in
  let te := set_trader (set_keeper k (te_trader te)) te in
  let* (fe, m) := measured fe_obUpdate (features_onOrderBookUpdate bbo (feature_engine_ te)) m in
  measured algo_obUpdate (dispatchOnOrderBookUpdate now ticker_id bbo (set_features fe te)) m.

Definition m_onTradeUpdate (fuel : nat) (u : MEMarketUpdate) (bbo : BBO) te m : result (TradeEngine F E * Meter) :=
  let* (fe, m) := measured fe_trUpdate (features_onTradeUpdate fuel u bbo (feature_engine_ te)) m in
  measured algo_trUpdate (dispatchOnTradeUpdate u bbo (set_features fe te)) m.

Definition m_onOrderUpdate (r : MEClientResponse) te m : result (TradeEngine F E * Meter) :=
  let* (te, m) := (if bool_decide (resp_type_ r = FILLED)
                   then let* (k, m) := measured pk_addFill (keeper_addFill r (position_keeper_ (te_trader te))) m in
                        Ok (set_trader (set_keeper k (te_trader te)) te, m)
                   else Ok (te, m)) in
  measured algo_ordUpdate (dispatchOnOrderUpdate r te) m.

Definition m_market_update (fuel : nat) (now : Z) (u : MEMarketUpdate) te m : result (TradeEngine F E * Meter) :=
  let* _ := ASSERT (mu_ticker_id_ u <? Z.of_nat (length (ticker_order_book_ te))) in
  match ticker_order_book_ te !! Z.to_nat (mu_ticker_id_ u) with
  | None => Err Undefined
  | Some mb =>
      let* (mb, notice) := onMarketUpdate u mb in
      let te := set_order_books (<[Z.to_nat (mu_ticker_id_ u) := mb]> (ticker_order_book_ te)) te in
      match notice with
      | OnTradeUpdate u => m_onTradeUpdate fuel u (bbo_ mb) te m
      | OnOrderBookUpdate ticker_id _ _ => m_onOrderBookUpdate now ticker_id (bbo_ mb) te m
      end
  end.

Fixpoint m_drain_responses (n : nat) te m : result (TradeEngine F E * Meter) :=
  match getNextToRead (incoming_ogw_responses_ te) with
  | None => Ok (te, m)
  | Some r =>
      match n with
      | O => Err OutOfFuel
      | S n =>
          let* (te, m) := m_onOrderUpdate r te m in
          let* q := updateReadIndex (incoming_ogw_responses_ te) in
          m_drain_responses n (set_responses q te) m
      end
  end.

Fixpoint m_drain_updates (fuel n : nat) (clock : nat → Z) te m : result (TradeEngine F E * Meter) :=
  match getNextToRead (incoming_md_updates_ te) with
  | None => Ok (te, m)
  | Some u =>
      match n with
      | O => Err OutOfFuel
      | S n =>
          let* (te, m) := m_market_update fuel (clock n) u te m in
          let* q := updateReadIndex (incoming_md_updates_ te) in
          m_drain_updates fuel n clock (set_updates q te) m
      end
  end.

(** One turn of [TradeEngine::run]. *)
Definition m_turn (fuel n k : nat) (clock : nat → Z) te m : result (TradeEngine F E * Meter) :=
  let* (te, m) := m_drain_responses n te m in
  m_drain_updates fuel k clock te m.

(** The files the destructor writes. *)
Definition latency_files `{!DoubleText F} (client_id : Z) m : list (string * result string) :=
  dumpLatencyHistograms (F := F) client_id (m_hists m <$> all_tags).

(** ** Measuring is transparent *)

(** How often a tag was measured, in a list of measurements. *)
Definition times (t : Tag) (ts : list Tag) : nat := length (filter (λ t', t' = t) ts).

(** What a response and an update measure. *)
Definition response_tags (r : MEClientResponse) : list Tag :=
  (if bool_decide (resp_type_ r = FILLED) then [pk_addFill] else []) ++ [algo_ordUpdate].
Definition update_tags (u : MEMarketUpdate) : list Tag :=
  if bool_decide (mu_type_ u = MU_TRADE) then [fe_trUpdate; algo_trUpdate] else [pk_updateBBO; fe_obUpdate; algo_obUpdate].

(** Every histogram holds one observation per measurement of its tag. *)
Definition profile m (ts : list Tag) : Prop :=
  ∀ t, ∃ vs, hist_rep (m_hists m t) vs ∧ length vs = times t ts ∧ lh_name_ (m_hists m t) = tag_name t.

(** The measured computation returns what the plain one does, or fails the same
    way. *)
Definition agrees {A} (ts : list Tag) (plain : result A) (meas : result (A * Meter)) : Prop :=
  match plain with
  | Ok a => ∃ m, meas = Ok (a, m) ∧ profile m ts
  | Err e => meas = Err e
  end.

Lemma profile_new : profile Meter_new [].
Proof. intros t. exists []. split_and!; [apply hist_rep_new|done|done]. Qed.

Lemma agrees_ret {A} ts (a : A) m : profile m ts → agrees ts (Ok a) (Ok (a, m)).
Proof. intros Hm. by exists m. Qed.

Lemma agrees_bind {A B} ts ts' (plain : result A) meas (f : A → result B) g :
  agrees ts plain meas → (∀ a m, profile m ts → agrees ts' (f a) (g (a, m))) → agrees ts' (rbind plain f) (rbind meas g).
Proof. intros H Hf. destruct plain as [a|e]; cbn in *; [|by subst]. destruct H as (m & -> & Hm). by apply Hf. Qed.

(** A step that is not measured. *)
Lemma agrees_plain {A B} ts (p : result A) (f : A → result B) g :
  (∀ a, p = Ok a → agrees ts (f a) (g a)) → agrees ts (rbind p f) (rbind p g).
Proof. intros H. destruct p as [a|e]; [by apply H|done]. Qed.

Lemma times_le t ts : (times t ts ≤ length ts)%nat.
Proof. apply length_filter. Qed.

Lemma measured_ok {A} t ts (work : result A) m :
  profile m ts → length ts + 1 < 2 ^ 64 → agrees (ts ++ [t]) work (measured t work m).
Proof.
  intros Hm Hn. unfold measured. destruct work as [a|e]; [|done]. cbn. unfold END_MEASURE_HIST.
  destruct (span (m_done m)) as [start stop]. destruct (Hm t) as (vs & Hh & Hl & Hname). pose proof (times_le t ts) as Hle.
  destruct (record_ok _ _ (i64 (u64 (stop - start))) Hh) as (h & -> & Hh' & Hname').
  { unfold swrap, wrap. pose proof (Z.mod_pos_bound ((stop - start) `mod` 2 ^ 64 + 2 ^ (64 - 1)) (2 ^ 64) ltac:(lia)). lia. }
  { lia. }
  cbn. eexists. split; [done|]. intros t'. cbn. unfold times. rewrite filter_app, length_app. destruct (decide (t' = t)) as [->|Hne].
  - rewrite fn_lookup_insert, filter_cons_True by done. eexists. split_and!; [done|cbn; unfold times in Hl; lia|congruence].
  - rewrite fn_lookup_insert_ne, filter_cons_False by done. cbn. rewrite Nat.add_0_r. apply Hm.
Qed.

Lemma set_trader_same te : set_trader (te_trader te) te = te.
Proof. by destruct te. Qed.

(** An algorithm without a handler changes nothing. *)
Lemma dispatchOnOrderBookUpdate_eq now ticker_id bbo te :
  dispatchOnOrderBookUpdate now ticker_id bbo te
  = match algo_ te with
    | MAKER => let* t := maker_onOrderBookUpdate (ticker_cfg_ te) (session_start_ns_ te) now ticker_id bbo (feature_engine_ te) (te_trader te) in
               Ok (set_trader t te)
    | _ => Ok te
    end.
Proof. unfold dispatchOnOrderBookUpdate. destruct (algo_ te); try done. cbn. by rewrite set_trader_same. Qed.

Lemma dispatchOnTradeUpdate_eq u bbo te :
  dispatchOnTradeUpdate u bbo te
  = match algo_ te with
    | TAKER => let* t := taker_onTradeUpdate (ticker_cfg_ te) u bbo (feature_engine_ te) (te_trader te) in Ok (set_trader t te)
    | _ => Ok te
    end.
Proof. unfold dispatchOnTradeUpdate. destruct (algo_ te); try done. cbn. by rewrite set_trader_same. Qed.

Lemma dispatchOnOrderUpdate_eq r te :
  dispatchOnOrderUpdate r te
  = if has_algo te then
      let* om := om_onOrderUpdate r (order_manager_ (te_trader te)) in
      Ok (set_trader (set_order_manager om (te_trader te)) te)
    else Ok te.
Proof.
  unfold dispatchOnOrderUpdate, has_algo, maker_onOrderUpdate, taker_onOrderUpdate.
  destruct (algo_ te); cbn; try done; by destruct (om_onOrderUpdate r _).
Qed.

Lemma m_onOrderBookUpdate_ok now ticker_id bbo te m ts :
  profile m ts → length ts + 3 < 2 ^ 64 →
  agrees (ts ++ [pk_updateBBO; fe_obUpdate; algo_obUpdate]) (te_onOrderBookUpdate now ticker_id bbo te) (m_onOrderBookUpdate now ticker_id bbo te m).
Proof.
  intros Hm Hn. change [pk_updateBBO; fe_obUpdate; algo_obUpdate] with ([pk_updateBBO] ++ [fe_obUpdate] ++ [algo_obUpdate]). rewrite !app_assoc.
  eapply agrees_bind; [apply measured_ok; [done|lia]|]. intros k m1 H1. cbn zeta.
  eapply agrees_bind; [apply measured_ok; [done|rewrite length_app; cbn; lia]|]. intros fe m2 H2. cbn zeta.
  rewrite dispatchOnOrderBookUpdate_eq. apply measured_ok; [done|rewrite !length_app; cbn; lia].
Qed.

Lemma m_onTradeUpdate_ok fuel u bbo te m ts :
  profile m ts → length ts + 3 < 2 ^ 64 →
  agrees (ts ++ [fe_trUpdate; algo_trUpdate]) (te_onTradeUpdate fuel u bbo te) (m_onTradeUpdate fuel u bbo te m).
Proof.
  intros Hm Hn. change [fe_trUpdate; algo_trUpdate] with ([fe_trUpdate] ++ [algo_trUpdate]). rewrite !app_assoc.
  eapply agrees_bind; [apply measured_ok; [done|lia]|]. intros fe m1 H1. cbn zeta.
  rewrite dispatchOnTradeUpdate_eq. apply measured_ok; [done|rewrite !length_app; cbn; lia].
Qed.

(** The plain handler in the parts that are measured. *)
Lemma te_onOrderUpdate_parts r te :
  te_onOrderUpdate r te
  = (let* te := (if bool_decide (resp_type_ r = FILLED)
                 then let* k := keeper_addFill r (position_keeper_ (te_trader te)) in Ok (set_trader (set_keeper k (te_trader te)) te)
                 else Ok te) in dispatchOnOrderUpdate r te).
Proof.
  unfold te_onOrderUpdate, onOrderUpdate. destruct (has_algo te) eqn:Ea; case_bool_decide; cbn [rbind].
  - destruct (keeper_addFill r _) as [k|]; [|done]. cbn [rbind]. rewrite dispatchOnOrderUpdate_eq.
    change (has_algo (set_trader _ te)) with (has_algo te). rewrite Ea. cbn [te_trader set_trader order_manager_ set_keeper]. by destruct (om_onOrderUpdate r _).
  - rewrite dispatchOnOrderUpdate_eq, Ea. by destruct (om_onOrderUpdate r _).
  - destruct (keeper_addFill r _) as [k|]; [|done]. cbn [rbind]. rewrite dispatchOnOrderUpdate_eq.
    change (has_algo (set_trader _ te)) with (has_algo te). by rewrite Ea.
  - by rewrite dispatchOnOrderUpdate_eq, Ea.
Qed.

Lemma m_onOrderUpdate_ok r te m ts :
  profile m ts → length ts + 3 < 2 ^ 64 → agrees (ts ++ response_tags r) (te_onOrderUpdate r te) (m_onOrderUpdate r te m).
Proof.
  intros Hm Hn. rewrite te_onOrderUpdate_parts. unfold response_tags. rewrite app_assoc.
  eapply agrees_bind with (ts := ts ++ _); [|intros te1 m1 H1; apply measured_ok; [exact H1|rewrite length_app; case_bool_decide; cbn; lia]].
  case_bool_decide; [|rewrite app_nil_r; by apply agrees_ret].
  eapply agrees_bind; [apply measured_ok; [done|lia]|]. intros k m1 H1. by apply agrees_ret.
Qed.

Lemma m_market_update_ok fuel now u te m ts :
  profile m ts → length ts + 3 < 2 ^ 64 → agrees (ts ++ update_tags u) (te_market_update fuel now u te) (m_market_update fuel now u te m).
Proof.
  intros Hm Hn. apply agrees_plain. intros _ _. destruct (_ !! _) as [mb|]; [|done]. unfold te_book_update.
  apply agrees_plain. intros [mb' notice] Hu. cbn zeta. unfold onMarketUpdate in Hu. unfold update_tags. case_bool_decide as Ht.
  - injection Hu as <- <-. by apply m_onTradeUpdate_ok.
  - apply bind_ok in Hu as (b & _ & Hu). apply bind_ok in Hu as (bbo & _ & [= <- <-]). by apply m_onOrderBookUpdate_ok.
Qed.

Lemma m_drain_responses_ok n rs te m ts :
  lfq_rep (incoming_ogw_responses_ te) rs → profile m ts → length ts + 3 * length rs < 2 ^ 64 →
  agrees (ts ++ concat (response_tags <$> rs)) (te_drain_responses n te) (m_drain_responses n te m).
Proof.
  revert n te m ts. induction rs as [|r rs IH]; intros n te m ts Hq Hm Hn;
    (destruct n as [|n]; cbn [te_drain_responses m_drain_responses]; rewrite (getNextToRead_ok _ _ Hq); cbn [head fmap list_fmap concat]).
  1,2: rewrite app_nil_r; by apply agrees_ret.
  { done. }
  cbn [length] in Hn. rewrite app_assoc. pose proof (m_onOrderUpdate_ok r te m ts Hm ltac:(lia)) as H1.
  destruct (te_onOrderUpdate r te) as [te1|e] eqn:E1; cbn in H1 |- *; [|by rewrite H1]. destruct H1 as (m1 & -> & H1). cbn.
  destruct (te_onOrderUpdate_frame _ _ _ E1) as (_ & -> & _). destruct (updateReadIndex_ok _ _ _ Hq) as (q' & -> & Hq' & _). cbn [rbind].
  apply IH; [done|done|]. rewrite length_app. unfold response_tags. case_bool_decide; cbn; lia.
Qed.

Lemma te_market_update_queues fuel now u te te' :
  te_market_update fuel now u te = Ok te' → incoming_md_updates_ te' = incoming_md_updates_ te.
Proof.
  intros (? & _ & H)%bind_ok. destruct (_ !! _) as [mb|]; [|done]. by destruct (te_book_update_books _ _ _ _ _ _ H) as (mb1 & note & _ & _ & Ei).
Qed.

Lemma m_drain_updates_ok fuel n clock us te m ts :
  lfq_rep (incoming_md_updates_ te) us → profile m ts → length ts + 3 * length us < 2 ^ 64 →
  agrees (ts ++ concat (update_tags <$> us)) (te_drain_updates fuel n clock te) (m_drain_updates fuel n clock te m).
Proof.
  revert n te m ts. induction us as [|u us IH]; intros n te m ts Hq Hm Hn;
    (destruct n as [|n]; cbn [te_drain_updates m_drain_updates]; rewrite (getNextToRead_ok _ _ Hq); cbn [head fmap list_fmap concat]).
  1,2: rewrite app_nil_r; by apply agrees_ret.
  { done. }
  cbn [length] in Hn. rewrite app_assoc. pose proof (m_market_update_ok fuel (clock n) u te m ts Hm ltac:(lia)) as H1.
  destruct (te_market_update fuel (clock n) u te) as [te1|e] eqn:E1; cbn in H1 |- *; [|by rewrite H1]. destruct H1 as (m1 & -> & H1). cbn.
  rewrite (te_market_update_queues _ _ _ _ _ E1). destruct (updateReadIndex_ok _ _ _ Hq) as (q' & -> & Hq' & _). cbn [rbind].
  apply IH; [done|done|]. rewrite length_app. unfold update_tags. case_bool_decide; cbn; lia.
Qed.

(** A turn of the engine with measurements is the turn without them. *)
Lemma m_turn_ok fuel n k clock rs us te m ts :
  lfq_rep (incoming_ogw_responses_ te) rs → lfq_rep (incoming_md_updates_ te) us → profile m ts →
  length ts + 3 * length rs + 3 * length us < 2 ^ 64 →
  agrees (ts ++ concat (response_tags <$> rs) ++ concat (update_tags <$> us)) (te_turn fuel n k clock te) (m_turn fuel n k clock te m).
Proof.
  intros Hr Hu Hm Hn. rewrite app_assoc. unfold te_turn, m_turn. pose proof (m_drain_responses_ok n rs te m ts Hr Hm ltac:(lia)) as H1.
  destruct (te_drain_responses n te) as [te1|e] eqn:E1; cbn in H1 |- *; [|by rewrite H1]. destruct H1 as (m1 & -> & H1). cbn.
  apply m_drain_updates_ok; [by destruct (te_drain_responses_frame _ _ _ E1) as [_ ->]|done|].
  rewrite length_app. assert (length (concat (response_tags <$> rs)) ≤ 3 * length rs); [|lia].
  clear. induction rs as [|r rs IH]; cbn; [lia|]. rewrite length_app. unfold response_tags at 1. case_bool_decide; cbn; lia.
Qed.
End Measured.
