(* ===== verification/Client.v ===== *)
(** * The trading client process.

    src/trading/trading_main.cpp: the three queues, the trade engine, the order
    gateway and the market data consumer that share them, and their threads.  As
    in Exchange.v a thread's turn runs on its component with the shared queues
    plugged in, and turns of the threads interleave in any order.

    [client_step] carries a history: the requests put on the gateway's queue, the
    bytes sent and read on the connection, the bytes read of the incremental
    stream, and the responses and updates the trade engine has processed.
    ClientRuns.v has its invariant. *)

From stdpp Require Import strings numbers gmap list sorting relations.
From S2P Require Import Prelude MemPool Types LFQueue Wire TcpLink SocketUtils BookCore BookSpec MarketOrderBook MEOrderBook MatchingEngine OrderServer ServerStreams OrderGateway GatewayRuns MarketData Mirror System MarketDataConsumer Double Position RunEvents OrderManager Features Strategy Session FeedPath EngineRuns.

Open Scope Z_scope.
Local Coercion Z.of_nat : nat >-> Z.

Record Client (F : Type) := mkClient {
  cl_requests : LFQueue MEClientRequest;
  cl_responses : LFQueue MEClientResponse;
  cl_updates : LFQueue MEMarketUpdate;
  trade_engine : TradeEngine F (LFQueue MEClientRequest);
  order_gateway : OrderGateway;
  market_data_consumer : MarketDataConsumer }.
Arguments mkClient {F} _ _ _ _ _ _.
Arguments cl_requests {F} _.
Arguments cl_responses {F} _.
Arguments cl_updates {F} _.
Arguments trade_engine {F} _.
Arguments order_gateway {F} _.
Arguments market_data_consumer {F} _.

Section Client.
Context {F : Type} `{!Double F} `{!DoubleMath F} `{!DoubleCast F}.
Implicit Types (x : Client F) (te : TradeEngine F (LFQueue MEClientRequest)).

(** The objects [main] creates; [fd] is the socket of the incremental stream. *)
Definition client_new (client_id : Z) (algo_type : AlgoType) (ticker_cfg : list (TradeEngineCfg F)) (mem : EngineMemory F)
    (now fd : Z) : result (Client F) :=
  let client_requests := LFQueue_new ME_MAX_CLIENT_UPDATES in
  let client_responses := LFQueue_new ME_MAX_CLIENT_UPDATES in
  let market_updates := LFQueue_new ME_MAX_MARKET_UPDATES in
  let* te := TradeEngine_new client_id algo_type ticker_cfg mem now client_requests client_responses market_updates in
  Ok (mkClient client_requests client_responses market_updates te
        (OrderGateway_new client_id client_requests client_responses)
        (MarketDataConsumer_new market_updates fd)).

(** The system calls of the start: [OrderGateway::start] connects, the constructor
    of the consumer opens and joins the incremental stream. *)
Definition client_main {K} `{!Kernel K} : sysm K (Z * Z) :=
  let! gw := tcp_connect "127.0.0.1"%string "lo0"%string 12345 false in
  let! _ := sassert (0 <=? gw.1) in
  let! inc_fd := mcast_init "233.252.14.3"%string "lo0"%string 20001 true in
  let! _ := sassert (0 <=? inc_fd) in
  let! joined := join inc_fd "233.252.14.3"%string in
  let! _ := sassert joined in
  sret (gw.1, inc_fd).

(** ** Components on the shared queues *)

Definition set_requests (q : LFQueue MEClientRequest) (t : Trader F (LFQueue MEClientRequest)) : Trader F (LFQueue MEClientRequest) :=
  mkTrader (tr_client_id_ t) (position_keeper_ t) (ticker_risk_ t) (order_manager_ t) q.

Definition engine_on x : TradeEngine F (LFQueue MEClientRequest) :=
  let te := trade_engine x in
  set_updates (cl_updates x) (set_responses (cl_responses x) (set_trader (set_requests (cl_requests x) (te_trader te)) te)).

Definition put_trade_engine te x : Client F :=
  mkClient (outgoing_ogw_requests_ (te_trader te)) (incoming_ogw_responses_ te) (Strategy.incoming_md_updates_ te) te
    (order_gateway x) (market_data_consumer x).

Definition gateway_on x : OrderGateway :=
  let g := order_gateway x in
  mkOrderGateway (gw_client_id_ g) (cl_requests x) (cl_responses x) (next_outgoing_seq_num_ g) (next_exp_seq_num_ g) (tcp_socket_ g).

Definition put_gateway (g : OrderGateway) x : Client F :=
  mkClient (outgoing_requests_ g) (incoming_responses_ g) (cl_updates x) (trade_engine x) g (market_data_consumer x).

Definition consumer_on x : MarketDataConsumer :=
  let c := market_data_consumer x in
  mkConsumer (next_exp_inc_seq_num_ c) (cl_updates x) (incremental_mcast_socket_ c) (snapshot_mcast_socket_ c) (in_recovery_ c)
    (snapshot_queued_msgs_ c) (incremental_queued_msgs_ c).

Definition put_consumer (c : MarketDataConsumer) x : Client F :=
  mkClient (cl_requests x) (cl_responses x) (MarketDataConsumer.incoming_md_updates_ c) (trade_engine x) (order_gateway x) c.

(** ** Turns of the threads *)

Definition trade_turn (fuel n m : nat) (clock : nat → Z) x : result (Client F) :=
  let* te := te_turn fuel n m clock (engine_on x) in Ok (put_trade_engine te x).

Definition order_turn (avail : bytes) (n : Z) x : result (bytes * bytes * Client F) :=
  let* (unread, sent, g) := gateway_turn avail n (gateway_on x) in Ok (unread, sent, put_gateway g x).

Definition data_turn (fd : option Z) (inc snap : list bytes) x : result (Client F) :=
  let* (c, _, _) := consumer_turn fd inc snap (consumer_on x) in Ok (put_consumer c x).

(** The main thread of a RANDOM client sends through the trade engine. *)
Definition main_send (r : MEClientRequest) x : Client F :=
  mkClient (enqueue r (cl_requests x)) (cl_responses x) (cl_updates x) (trade_engine x) (order_gateway x) (market_data_consumer x).

(** ** Runs *)

Record client_history := mkClientHistory {
  ch_issued : list MEClientRequest;
  ch_sent : bytes;
  ch_read : bytes;
  ch_feed : bytes;
  ch_done : list MEClientResponse;
  ch_seen : list MEMarketUpdate }.

Definition no_client_history : client_history := mkClientHistory [] [] [] [] [] [].

(** The bytes a turn of the gateway reads, and the responses of the client they
    complete. *)
Definition taken (avail unread : bytes) : bytes := take (length avail - length unread) avail.

Definition completed (x : Client F) (bs : bytes) : list OMClientResponse :=
  let g := gateway_on x in
  accepted_responses (gw_client_id_ g) (next_exp_seq_num_ g) (parse_stream (inbound_data_ (tcp_socket_ g) ++ bs)).1.

(** The messages of the incremental stream more bytes complete. *)
Definition feed_messages (x : Client F) (bs : bytes) : list MDPMarketUpdate :=
  (parse_stream (mc_inbound (incremental_mcast_socket_ (market_data_consumer x)) ++ bs)).1.

(** In the turn of the trade engine [new] is what it sent; every turn of a reachable
    state has such a list ([trade_turn_sends] in ClientRuns.v). *)
Inductive client_step : client_history * Client F → client_history * Client F → Prop :=
| cstep_trade fuel n m clock rs us new h x x' :
    trade_turn fuel n m clock x = Ok x' → lfq_rep (cl_responses x) rs → lfq_rep (cl_updates x) us →
    cl_requests x' = send_all new (cl_requests x) → room_for (cl_requests x) (length new) →
    Forall (λ r, req_client_id_ r = gw_client_id_ (order_gateway x)) new →
    client_step (h, x) (mkClientHistory (ch_issued h ++ new) (ch_sent h) (ch_read h) (ch_feed h) (ch_done h ++ rs) (ch_seen h ++ us), x')
| cstep_main r h x :
    room_for (cl_requests x) 1 → req_client_id_ r = gw_client_id_ (order_gateway x) →
    client_step (h, x) (mkClientHistory (ch_issued h ++ [r]) (ch_sent h) (ch_read h) (ch_feed h) (ch_done h) (ch_seen h), main_send r x)
| cstep_order avail n unread sent h x x' :
    order_turn avail n x = Ok (unread, sent, x') → room_for (cl_responses x) (length (completed x (taken avail unread))) →
    next_outgoing_seq_num_ (order_gateway x) + size_ (cl_requests x) < 2 ^ 64 →
    client_step (h, x) (mkClientHistory (ch_issued h) (ch_sent h ++ sent) (ch_read h ++ taken avail unread) (ch_feed h) (ch_done h) (ch_seen h), x')
| cstep_data fd inc h x x' :
    data_turn fd inc [] x = Ok x' → Forall (λ d, d ≠ []) inc →
    length (mc_inbound (incremental_mcast_socket_ (market_data_consumer x))) + length (concat inc) ≤ McastBufferSize →
    room_for (cl_updates x) (length (feed_messages x (concat inc))) →
    client_step (h, x) (mkClientHistory (ch_issued h) (ch_sent h) (ch_read h) (ch_feed h ++ concat inc) (ch_done h) (ch_seen h), x').
End Client.
