(* ===== verification/ClientRuns.v ===== *)
(** * What holds of a running client.

    [client_inv] relates a state of the client process (Client.v) to what it has
    read, sent, issued and processed; [client_inv_reachable] holds of every state
    reached without overflowing a queue while the incremental stream is delivered
    in sequence and fills have sane quantities ([sane_inputs]).

    The last section has no such assumptions: turns in any order and on any input, once
    the market data consumer is in recovery.  [client_blind_reachable]: the consumer
    stays there, so the trade engine still sees the updates that were queued and nothing
    after them. *)

From stdpp Require Import numbers gmap list sorting relations.
From S2P Require Import Prelude MemPool Types LFQueue Wire TcpLink BookCore BookSpec MarketOrderBook MEOrderBook MatchingEngine OrderServer ServerStreams OrderGateway GatewayRuns MarketData Mirror Snapshot System MarketDataConsumer Double Position RunEvents OrderManager Features Strategy Session FeedPath EngineRuns Client.

Open Scope Z_scope.
Local Coercion Z.of_nat : nat >-> Z.

Section Invariant.
Context {F : Type} `{!Double F} `{!DoubleMath F} `{!DoubleCast F}.
Implicit Types (x : Client F) (h : client_history) (c : Z).

(** The responses of client [c] among the bytes of its connection. *)
Definition received_responses c (bs : bytes) : list OMClientResponse := accepted_responses c 1 (parse_stream bs).1.

Record client_inv c h x : Prop := {
  ci_requests : ∃ framed waiting, ch_issued h = framed ++ waiting ∧ lfq_rep (cl_requests x) waiting
    ∧ ch_sent h ++ outbound_data_ (tcp_socket_ (order_gateway x)) = concat (encode <$> frame_requests 1 framed)
    ∧ next_outgoing_seq_num_ (order_gateway x) = 1 + length framed;
  ci_own : Forall (λ r, req_client_id_ r = c) (ch_issued h);
  ci_responses : ∃ waiting, me_client_response_ <$> received_responses c (ch_read h) = ch_done h ++ waiting
    ∧ lfq_rep (cl_responses x) waiting
    ∧ next_exp_seq_num_ (order_gateway x) = u64 (1 + length (received_responses c (ch_read h)))
    ∧ inbound_data_ (tcp_socket_ (order_gateway x)) = (parse_stream (M := OMClientResponse) (ch_read h)).2;
  ci_updates : ∃ waiting, lfq_rep (cl_updates x) waiting
    ∧ parse_stream (ch_feed h) = (number_updates 1 (ch_seen h ++ waiting), mc_inbound (incremental_mcast_socket_ (market_data_consumer x)))
    ∧ next_exp_inc_seq_num_ (market_data_consumer x) = 1 + length (ch_seen h ++ waiting);
  ci_in_sync : in_recovery_ (market_data_consumer x) = false;
  ci_stream : is_Some (mc_fd (incremental_mcast_socket_ (market_data_consumer x)));
  ci_no_snapshot : mc_fd (snapshot_mcast_socket_ (market_data_consumer x)) = None;
  ci_gateway_id : gw_client_id_ (order_gateway x) = c;
  ci_trader_id : tr_client_id_ (te_trader (trade_engine x)) = c;
  ci_sized : te_sized (trade_engine x);
  ci_positions : ∀ t, 0 ≤ t → te_position t (trade_engine x) = net_qty (fills_on t (ch_done h));
  ci_books : ∀ t, 0 ≤ t < ME_MAX_TICKERS → ∃ mb, mkt_replay (of_ticker t (ch_seen h)) (MarketOrderBook_new zeroed t) = Ok mb
    ∧ Strategy.ticker_order_book_ (trade_engine x) !! Z.to_nat t = Some mb }.

(** What the outside does to the client: the incremental stream arrives in
    sequence, and fills have quantities that fit [int32_t]. *)
Record sane_inputs c h : Prop := {
  si_feed : ∃ us, ch_feed h `prefix_of` concat (encode <$> number_updates 1 us) ∧ Forall update_wf us ∧ 1 + length us < 2 ^ 64;
  si_fills : Forall fill_small (me_client_response_ <$> received_responses c (ch_read h)) }.

(** ** The trade engine's turn *)

Lemma trades_position (t : Z) (te te' : TradeEngine F (LFQueue MEClientRequest)) :
  trades (te_trader te) (te_trader te') → te_position t te' = te_position t te ∧ (te_sized te → te_sized te').
Proof.
  intros [T1 T2 T3 T4 T5 _]. unfold positions in T2. split.
  - unfold te_position. by rewrite <- !list_lookup_fmap, T2.
  - unfold te_sized, sized. rewrite T3, T4, T5. apply (f_equal length) in T2. rewrite !length_fmap in T2. by rewrite T2.
Qed.

Lemma send_all_queue new q : send_all new q = enqueue_all new q.
Proof. unfold send_all, enqueue_all. revert q. by induction new. Qed.

(** A turn sends requests of its own client only. *)
Lemma trade_turn_sends c fuel n m clock rs us h x x' :
  client_inv c h x → sane_inputs c h → trade_turn fuel n m clock x = Ok x' →
  lfq_rep (cl_responses x) rs → lfq_rep (cl_updates x) us →
  ∃ new, cl_requests x' = send_all new (cl_requests x) ∧ Forall (λ r, req_client_id_ r = c) new.
Proof.
  intros Hi [_ Hfills] Ht Hrs Hus. unfold trade_turn in Ht. apply bind_ok in Ht as (te & Ht & [= <-]).
  unfold te_turn in Ht. apply bind_ok in Ht as (te1 & Hr & Hu). destruct (ci_responses _ _ _ Hi) as (wr & Hacc & Hrq & _).
  assert (wr = rs) as -> by (by eapply lfq_rep_det). rewrite Hacc in Hfills. apply Forall_app in Hfills as [_ Hfills].
  destruct (te_drain_responses_run n rs (engine_on x) te1 Hrs Hfills Hr) as (_ & _ & [_ K2 K3 K4 _] & _).
  destruct (te_drain_updates_run fuel m clock us te1 te) as (_ & _ & [_ _ _ _ _ (new & Hn & Ho)] & _); [by rewrite K2|done|].
  exists new. rewrite Hn, K4 at 1. split; [done|]. rewrite K3 in Ho. change (Forall (λ r, req_client_id_ r = tr_client_id_ (te_trader (trade_engine x))) new) in Ho.
  by rewrite (ci_trader_id _ _ _ Hi) in Ho.
Qed.

Lemma trade_inv c fuel n m clock rs us new h x x' :
  client_inv c h x → sane_inputs c h → trade_turn fuel n m clock x = Ok x' →
  lfq_rep (cl_responses x) rs → lfq_rep (cl_updates x) us →
  cl_requests x' = send_all new (cl_requests x) → room_for (cl_requests x) (length new) →
  Forall (λ r, req_client_id_ r = gw_client_id_ (order_gateway x)) new →
  client_inv c (mkClientHistory (ch_issued h ++ new) (ch_sent h) (ch_read h) (ch_feed h) (ch_done h ++ rs) (ch_seen h ++ us)) x'.
Proof.
  intros [(framed & wq & Hiss & Hq & Hsent & Hnum) Hown (wr & Hacc & Hrq & Hexp & Hinb) (wu & Huq & Hfeed & Hinc) Hrec Hfd Hsn Hgid Htid Hsz Hpos Hbk]
    [(fs & Hpre & Hwf & Hlen) Hfills] Ht Hrs Hus Hreq Hroom Hnew.
  assert (wr = rs) as -> by (by eapply lfq_rep_det). assert (wu = us) as -> by (by eapply lfq_rep_det).
  unfold trade_turn in Ht. apply bind_ok in Ht as (te & Ht & [= <-]). unfold te_turn in Ht. apply bind_ok in Ht as (te1 & Hr & Hu).
  rewrite Hacc in Hfills. apply Forall_app in Hfills as [_ Hfills].
  destruct (te_drain_responses_run n rs (engine_on x) te1 Hrs Hfills Hr) as (R1 & R2 & [K1 K2 K3 K4 K5] & R3).
  assert (lfq_rep (Strategy.incoming_md_updates_ te1) us) as Hus1 by (by rewrite K2).
  destruct (te_drain_updates_run fuel m clock us te1 te Hus1 Hu) as (U1 & U2 & U3 & U4).
  split; cbn [ch_issued ch_sent ch_read ch_feed ch_done ch_seen put_trade_engine cl_responses cl_updates trade_engine order_gateway market_data_consumer];
    try done.
  - exists framed, (wq ++ new). rewrite Hiss, (assoc_L (++)), Hreq, send_all_queue. split_and!; try done.
    unfold room_for in Hroom. rewrite (proj1 (lfq_rep_size _ _ Hq)) in Hroom. by apply enqueue_all_ok.
  - apply Forall_app. split; [done|]. by rewrite <- Hgid.
  - exists []. rewrite app_nil_r, U4. done.
  - exists []. rewrite app_nil_r. done.
  - by rewrite (td_id _ _ U3), K3.
  - apply (trades_position 0 _ _ U3), K5. exact Hsz.
  - intros t H0. destruct (trades_position t _ _ U3) as [-> _]. rewrite (R3 t H0), fills_on_app, net_qty_app.
    rewrite <- (Hpos t H0). done.
  - intros t Ht. destruct (Hbk t Ht) as (mb & Hmb & Hlk).
    assert (Strategy.ticker_order_book_ te1 !! Z.to_nat t = Some mb) as Hlk1 by (by rewrite K1).
    destruct (te_drain_updates_books fuel m clock us te1 te t mb Hus1) as (mb' & Hmb' & Hlk'); try done; [|lia|].
    + destruct Hpre as [later Hpre]. symmetry in Hpre. pose proof (number_updates_wf 1 fs ltac:(lia) Hlen Hwf) as Hnwf.
      destruct (parse_prefix _ _ _ _ _ Hnwf Hpre Hfeed) as (pend & Hp & _). apply Forall_forall. intros u Hin.
      assert (u ∈ fs) as Hf.
      { rewrite <- (number_updates_payload 1 fs), Hp, fmap_app, number_updates_payload. set_solver. }
      rewrite Forall_forall in Hwf. specialize (Hwf u Hf). unfold update_wf in Hwf. lia.
    + exists mb'. split; [|done]. unfold of_ticker. rewrite filter_app, mkt_replay_app.
      fold (of_ticker t (ch_seen h)) (of_ticker t us). by rewrite Hmb.
Qed.

(** ** The other threads *)

Lemma main_inv c r h x :
  client_inv c h x → room_for (cl_requests x) 1 → req_client_id_ r = gw_client_id_ (order_gateway x) →
  client_inv c (mkClientHistory (ch_issued h ++ [r]) (ch_sent h) (ch_read h) (ch_feed h) (ch_done h) (ch_seen h)) (main_send r x).
Proof.
  intros [(framed & wq & Hiss & Hq & Hsent & Hnum) Hown Hresp Hupd Hrec Hfd Hsn Hgid Htid Hsz Hpos Hbk] Hroom Hr.
  split; try done.
  - exists framed, (wq ++ [r]). cbn [ch_issued main_send cl_requests]. rewrite Hiss, (assoc_L (++)). split_and!; try done.
    unfold room_for in Hroom. rewrite (proj1 (lfq_rep_size _ _ Hq)) in Hroom. apply enqueue_ok; [done|lia].
  - apply Forall_app. split; [done|]. apply Forall_singleton. congruence.
Qed.

Lemma frame_requests_app n rs1 rs2 :
  frame_requests n (rs1 ++ rs2) = frame_requests n rs1 ++ frame_requests (n + length rs1) rs2.
Proof.
  revert n. induction rs1 as [|r rs1 IH]; intros n; simpl; [by rewrite Z.add_0_r|]. rewrite IH. f_equal. f_equal. f_equal. lia.
Qed.

(** More bytes on the connection. *)
Lemma received_responses_app c bs bs' :
  received_responses c (bs ++ bs')
  = received_responses c bs
    ++ accepted_responses c (u64 (1 + length (received_responses c bs)))
         (parse_stream ((parse_stream (M := OMClientResponse) bs).2 ++ bs')).1.
Proof.
  unfold received_responses, accepted_responses. rewrite (parse_stream_app bs).
  destruct (parse_stream bs) as [ms rest]. cbn [fst snd]. destruct (parse_stream (rest ++ bs')) as [ms' rest']. cbn [fst].
  unfold responses_of. rewrite filter_app, in_sequence_app by lia. done.
Qed.

Lemma order_inv c avail n unread sent h x x' :
  client_inv c h x → order_turn avail n x = Ok (unread, sent, x') →
  room_for (cl_responses x) (length (completed x (taken avail unread))) →
  next_outgoing_seq_num_ (order_gateway x) + size_ (cl_requests x) < 2 ^ 64 →
  client_inv c (mkClientHistory (ch_issued h) (ch_sent h ++ sent) (ch_read h ++ taken avail unread) (ch_feed h) (ch_done h) (ch_seen h)) x'.
Proof.
  intros [(framed & wq & Hiss & Hq & Hsent & Hnum) Hown (wr & Hacc & Hrq & Hexp & Hinb) Hupd Hrec Hfd Hsn Hgid Htid Hsz Hpos Hbk] Ht Hroom Hlt.
  unfold order_turn in Ht. apply bind_ok in Ht as ([[un se] g] & Ht & [= -> -> <-]).
  unfold room_for in Hroom. rewrite (proj1 (lfq_rep_size _ _ Hrq)) in Hroom. rewrite (proj1 (lfq_rep_size _ _ Hq)) in Hlt.
  unfold completed in Hroom. cbn [gateway_on gw_client_id_ next_exp_seq_num_ tcp_socket_] in Hroom.
  destruct (parse_stream (inbound_data_ (tcp_socket_ (order_gateway x)) ++ taken avail unread)) as [ms rest] eqn:Ep.
  pose proof (parse_stream_rest (M := OMClientResponse) (ch_read h)) as Hsh. rewrite <- Hinb in Hsh.
  destruct (gateway_turn_run avail n (gateway_on x) unread sent g wr wq ms rest Ht) as (G1 & G2 & G3 & G4 & G5 & G6 & G7 & G8 & G9);
    cbn [gateway_on gw_client_id_ next_exp_seq_num_ tcp_socket_ incoming_responses_ outgoing_requests_ next_outgoing_seq_num_] in *; try done.
  - rewrite Hexp. apply u64_range.
  - lia.
  - split; cbn [ch_issued ch_sent ch_read ch_feed ch_done ch_seen put_gateway cl_requests cl_responses cl_updates order_gateway
      trade_engine market_data_consumer]; try done; [..|congruence].
    + exists (framed ++ wq), []. rewrite app_nil_r, frame_requests_app, fmap_app, concat_app, <- Hsent, G8, Hnum, length_app.
      split_and!; [done..| |lia]. by rewrite <- (assoc_L (++)), G9, Hnum, !(assoc_L (++)).
    + rewrite received_responses_app, <- Hinb, Ep. cbn [fst]. rewrite Hgid, Hexp in G1, G3.
      exists (wr ++ (me_client_response_ <$> accepted_responses c (u64 (1 + length (received_responses c (ch_read h)))) ms)).
      rewrite fmap_app, Hacc, (assoc_L (++)). split_and!; [done..| |].
      * rewrite G3, length_app. unfold wrap. rewrite Z.add_mod_idemp_l by lia. f_equal. lia.
      * rewrite (parse_stream_app (ch_read h)). destruct (parse_stream (ch_read h)) as [ms0 rest0]. cbn [snd] in Hinb.
        rewrite <- Hinb, Ep. done.
Qed.

(** The gateway's turn, as long as its buffer has room. *)
Lemma order_turn_ok c avail n h x :
  client_inv c h x → length (outbound_data_ (tcp_socket_ (order_gateway x))) + 38 * size_ (cl_requests x) ≤ TCPBufferSize →
  next_outgoing_seq_num_ (order_gateway x) + size_ (cl_requests x) < 2 ^ 64 →
  ∃ unread sent x', order_turn avail n x = Ok (unread, sent, x').
Proof.
  intros [(framed & wq & _ & Hq & _ & Hnum) _ _ _ _ _ _ _ _ _ _ _] Hbuf Hlt. destruct (lfq_rep_size _ _ Hq) as [Hs1 Hs2]. rewrite Hs1 in *.
  unfold order_turn, gateway_turn. pose proof (tcp_recv_read avail (tcp_socket_ (gateway_on x))) as Hrd.
  destruct (tcp_recv _ _) as [[fired un] s1]. cbn zeta in Hrd. destruct Hrd as (_ & Hout & _).
  set (g1 := if fired then gw_recvCallback (set_gw_socket s1 (gateway_on x)) else set_gw_socket s1 (gateway_on x)).
  assert (outgoing_requests_ g1 = cl_requests x ∧ next_outgoing_seq_num_ g1 = 1 + length framed
    ∧ outbound_data_ (tcp_socket_ g1) = outbound_data_ (tcp_socket_ (order_gateway x))) as (G1 & G2 & G3).
  { destruct fired; unfold g1; [|by split_and!]. unfold gw_recvCallback. destruct (parse_stream _) as [ms rest].
    destruct (recv_responses_other ms (set_gw_socket s1 (gateway_on x))) as (O1 & O2 & O3 & _).
    cbn [outgoing_requests_ next_outgoing_seq_num_ tcp_socket_ outbound_data_]. rewrite O1, O2, O3. by split_and!. }
  destruct (tcp_flush n (tcp_socket_ g1)) as [out s2] eqn:Ef. pose proof (tcp_flush_stream n (tcp_socket_ g1)) as Hfl. rewrite Ef in Hfl.
  apply (f_equal length) in Hfl. rewrite length_app, G3 in Hfl.
  destruct (drain_requests_ok wq (Z.to_nat (q_size (outgoing_requests_ g1))) (set_gw_socket s2 g1)) as (g' & -> & _);
    cbn [set_gw_socket outgoing_requests_ tcp_socket_ next_outgoing_seq_num_]; rewrite ?G1, ?G2; try done; try lia.
  cbn [rbind]. by do 3 eexists.
Qed.

(** The consumer takes the continuation of the stream. *)
Lemma data_turn_ok c fd inc h x :
  client_inv c h x → sane_inputs c (mkClientHistory (ch_issued h) (ch_sent h) (ch_read h) (ch_feed h ++ concat inc) (ch_done h) (ch_seen h)) →
  Forall (λ d, d ≠ []) inc →
  length (mc_inbound (incremental_mcast_socket_ (market_data_consumer x))) + length (concat inc) ≤ McastBufferSize →
  room_for (cl_updates x) (length (feed_messages x (concat inc))) →
  ∃ x', data_turn fd inc [] x = Ok x'
    ∧ client_inv c (mkClientHistory (ch_issued h) (ch_sent h) (ch_read h) (ch_feed h ++ concat inc) (ch_done h) (ch_seen h)) x'.
Proof.
  intros [Hreq Hown Hresp (wu & Huq & Hfeed & Hinc) Hrec Hfd Hsn Hgid Htid Hsz Hpos Hbk] [(fs & [later Hpre] & Hwf & Hlen) _] Hne Hbuf Hroom.
  cbn [ch_feed] in Hpre. symmetry in Hpre. pose proof (number_updates_wf 1 fs ltac:(lia) Hlen Hwf) as Hnwf.
  set (inb := mc_inbound (incremental_mcast_socket_ (market_data_consumer x))) in *. unfold feed_messages in Hroom. fold inb in Hroom.
  destruct (parse_stream (M := MDPMarketUpdate) (inb ++ concat inc)) as [ms rest] eqn:Ep. cbn [fst] in Hroom.
  assert (parse_stream (ch_feed h ++ concat inc) = (number_updates 1 (ch_seen h ++ wu) ++ ms, rest)) as Hall
    by (rewrite parse_stream_app, Hfeed, Ep; done).
  destruct (parse_prefix _ _ _ _ _ Hnwf Hpre Hall) as (pend & Hp & _). rewrite <- (assoc_L (++)) in Hp.
  assert (∃ us, ms = number_updates (1 + length (ch_seen h ++ wu)) us ∧ length (ch_seen h ++ wu) + length us ≤ length fs) as (us & -> & Hus).
  { set (k := length (ch_seen h ++ wu)) in *. exists (take (length ms) (drop k fs)).
    rewrite <- (take_drop k fs), number_updates_app in Hp. pose proof (f_equal length Hp) as Hl.
    rewrite !length_app, !length_number_updates, length_take, length_drop in Hl. fold k in Hl.
    apply app_inj_1 in Hp as [_ Hp]; [|rewrite !length_number_updates, length_take; lia].
    rewrite length_take in Hp. replace (k `min` length fs)%nat with k in Hp by lia.
    rewrite <- (take_drop (length ms) (drop k fs)), number_updates_app in Hp.
    apply app_inj_1 in Hp as [Hp _]; [split; [done|]; rewrite length_take, length_drop; lia|].
    rewrite length_number_updates, length_take, length_drop. lia. }
  rewrite length_number_updates in Hroom. unfold room_for in Hroom. rewrite (proj1 (lfq_rep_size _ _ Huq)) in Hroom.
  pose proof (parse_stream_rest (M := MDPMarketUpdate) (ch_feed h)) as Hsh. rewrite Hfeed in Hsh. cbn [snd] in Hsh.
  destruct (stream_round_parsed fd us inc rest wu (consumer_on x)) as (c1 & Ec & C1 & C2 & C3 & C4 & C5 & C6);
    cbn [consumer_on in_recovery_ incremental_mcast_socket_ snapshot_mcast_socket_ next_exp_inc_seq_num_ MarketDataConsumer.incoming_md_updates_];
    try done.
  - rewrite Hsn. by destruct Hfd as [? ->].
  - fold inb. by rewrite Hinc.
  - lia.
  - lia.
  - unfold data_turn, consumer_turn. rewrite Ec. cbn [rbind]. unfold stream_round, mcast_recv.
    cbn [stream_socket]. cbn [consumer_on snapshot_mcast_socket_ incremental_mcast_socket_ next_exp_inc_seq_num_] in C2, C5, C6.
    rewrite C6, Hsn. cbn [rbind]. eexists. split; [done|].
    split; cbn [ch_issued ch_sent ch_read ch_feed ch_done ch_seen put_consumer cl_requests cl_responses cl_updates order_gateway
      trade_engine market_data_consumer set_inbound MarketDataConsumer.incoming_md_updates_ incremental_mcast_socket_
      snapshot_mcast_socket_ in_recovery_ next_exp_inc_seq_num_ stream_socket mc_fd]; try done; [|by rewrite C5|by rewrite C6].
    exists (wu ++ us). rewrite (assoc_L (++)), (number_updates_app 1 (ch_seen h ++ wu)), Hall, C2, C3, Hinc. split_and!; [done..|]. rewrite !length_app. lia.
Qed.

(** ** Reachable states *)

Lemma prefix_of_app_l {A} (l1 l2 l3 : list A) : l1 ++ l2 `prefix_of` l3 → l1 `prefix_of` l3.
Proof. intros H. etrans; [|exact H]. by apply prefix_app_r. Qed.

Lemma client_step_inputs c h x h' x' : client_step (h, x) (h', x') → sane_inputs c h' → sane_inputs c h.
Proof.
  intros Hs [(us & Hp & H1 & H2) Hf]. inversion Hs; subst; clear Hs; cbn [ch_feed ch_read] in *; split; try done.
  - by exists us.
  - by exists us.
  - by exists us.
  - rewrite received_responses_app, fmap_app in Hf. by apply Forall_app in Hf as [Hf _].
  - exists us. split; [by eapply prefix_of_app_l|done].
Qed.

Lemma client_step_inv c h x h' x' : client_step (h, x) (h', x') → sane_inputs c h' → client_inv c h x → client_inv c h' x'.
Proof.
  intros Hs Hi Hx. pose proof (client_step_inputs c _ _ _ _ Hs Hi) as Hi0. inversion Hs; subst; clear Hs.
  - by eapply trade_inv.
  - by apply main_inv.
  - by eapply order_inv.
  - destruct (data_turn_ok c fd inc h x Hx Hi) as (x2 & E & Hx2); try done. congruence.
Qed.

Lemma client_inv_new c algo cfgs mem now fd x :
  client_new c algo cfgs mem now fd = Ok x → all_zeroed (em_books mem) → length cfgs = Z.to_nat ME_MAX_TICKERS → client_inv c no_client_history x.
Proof.
  intros (te & Ht & [= <-])%bind_ok Hz Hl.
  destruct (TradeEngine_new_ok c algo cfgs mem now (LFQueue_new ME_MAX_CLIENT_UPDATES : LFQueue MEClientRequest)
    (LFQueue_new ME_MAX_CLIENT_UPDATES) (LFQueue_new ME_MAX_MARKET_UPDATES) Hl) as (te' & cfg0 & E & _ & _ & _ & Hb & _ & _ & Hp & Hs).
  rewrite Ht in E. injection E as <-. split; cbn [trade_engine]; try done.
  - exists [], []. split_and!; [done|by apply lfq_rep_new|done..].
  - exists []. split_and!; [done|by apply lfq_rep_new|done..].
  - exists []. split_and!; [by apply lfq_rep_new|done..].
  - by apply TradeEngine_new_id in Ht.
  - intros t H0. unfold te_position. rewrite Hp. destruct (replicate _ _ !! _) as [p|] eqn:E; [|done].
    apply lookup_replicate in E as [-> _]. done.
  - intros t Htr. exists (MarketOrderBook_new zeroed t). split; [done|]. rewrite Hb, market_books_fresh by done. by apply fresh_books_lookup.
Qed.

Lemma client_inv_reachable c algo cfgs mem now fd x0 h x :
  client_new c algo cfgs mem now fd = Ok x0 → all_zeroed (em_books mem) → length cfgs = Z.to_nat ME_MAX_TICKERS →
  rtc client_step (no_client_history, x0) (h, x) → sane_inputs c h → client_inv c h x.
Proof.
  intros Hn Hz Hl Hr. cut (∀ y, rtc client_step (no_client_history, x0) y → sane_inputs c y.1 → client_inv c y.1 y.2);
    [intros H; exact (H (h, x) Hr)|].
  apply (rtc_ind_r (R := client_step) (λ y, sane_inputs c y.1 → client_inv c y.1 y.2)); [intros _; by eapply client_inv_new|].
  intros [h1 x1] [h2 x2] _ Hs IH Hi. cbn [fst snd] in *. eapply client_step_inv; [exact Hs|exact Hi|].
  apply IH. by eapply client_step_inputs.
Qed.

(** All positions at once. *)
Lemma client_positions c h x :
  client_inv c h x →
  position_ <$> ticker_position_ (position_keeper_ (te_trader (trade_engine x)))
  = (λ t, net_qty (fills_on t (ch_done h))) <$> seqZ 0 ME_MAX_TICKERS.
Proof.
  intros Hc. destruct (ci_sized _ _ _ Hc) as (_ & Hl & _). apply list_eq_same_length with (length (seqZ 0 ME_MAX_TICKERS)).
  - by rewrite length_fmap.
  - by rewrite length_fmap, Hl, length_seqZ.
  - intros i a b _ Ha Hb. rewrite list_lookup_fmap in Hb. destruct (seqZ 0 ME_MAX_TICKERS !! i) as [t|] eqn:Et; [|done].
    apply lookup_seqZ in Et as [-> _]. injection Hb as <-. rewrite Z.add_0_l, <- (ci_positions _ _ _ Hc i) by lia.
    unfold te_position. rewrite Nat2Z.id. rewrite list_lookup_fmap in Ha. by rewrite Ha.
Qed.
End Invariant.

(** ** In recovery *)


Section Recovery.
Context {F : Type} `{!Double F} `{!DoubleMath F} `{!DoubleCast F}.
Implicit Types (x : Client F).

(** A turn that does not fail, on any input. *)
Inductive client_turn : Client F → Client F → Prop :=
| turn_trade fuel n m clock x x' : trade_turn fuel n m clock x = Ok x' → client_turn x x'
| turn_main r x : client_turn x (main_send r x)
| turn_order avail n unread sent x x' : order_turn avail n x = Ok (unread, sent, x') → client_turn x x'
| turn_data fd inc snap x x' : data_turn fd inc snap x = Ok x' → client_turn x x'.

Definition books x : list MarketOrderBook := Strategy.ticker_order_book_ (trade_engine x).

(** The books after the updates [us]. *)
Definition replayed (us : list MEMarketUpdate) (bs bs' : list MarketOrderBook) : Prop :=
  ∀ t mb, 0 ≤ t → bs !! Z.to_nat t = Some mb →
    ∃ mb', mkt_replay (of_ticker t us) mb = Ok mb' ∧ bs' !! Z.to_nat t = Some mb'.

(** The queue still holds [us], or the books [bs] have been brought up to date with
    it. *)
Record client_blind (us : list MEMarketUpdate) (bs : list MarketOrderBook) x : Prop := {
  bl_recovering : recovering (cl_updates x) (consumer_on x);
  bl_updates : (lfq_rep (cl_updates x) us ∧ books x = bs) ∨ (lfq_rep (cl_updates x) [] ∧ replayed us bs (books x)) }.

Lemma trade_turn_books fuel n m clock us x x' :
  trade_turn fuel n m clock x = Ok x' → lfq_rep (cl_updates x) us → Forall (λ u, 0 ≤ mu_ticker_id_ u) us →
  lfq_rep (cl_updates x') [] ∧ replayed us (books x) (books x') ∧ market_data_consumer x' = market_data_consumer x.
Proof.
  intros (te & Ht & [= <-])%bind_ok Hq Hus. unfold te_turn in Ht. apply bind_ok in Ht as (te1 & Hr & Hu).
  destruct (te_drain_responses_frame _ _ _ Hr) as [Hb Hm].
  assert (lfq_rep (Strategy.incoming_md_updates_ te1) us) as Hq1 by by rewrite Hm.
  split_and!; [apply (te_drain_updates_run _ _ _ _ _ _ Hq1 Hu)| |done].
  intros t mb Ht Hmb. apply (te_drain_updates_books fuel m clock us te1 te t mb Hq1 Hus Ht); [|exact Hu]. by rewrite Hb.
Qed.

(** Only the queue of updates matters to the consumer. *)
Lemma recovering_same x x' :
  market_data_consumer x' = market_data_consumer x → recovering (cl_updates x) (consumer_on x) →
  recovering (cl_updates x') (consumer_on x').
Proof. intros E ([H1 H2 H3] & Hr & _). unfold consumer_on. rewrite E. by split_and!. Qed.

Lemma replayed_nil us bs bs' bs'' : replayed us bs bs' → replayed [] bs' bs'' → replayed us bs bs''.
Proof.
  intros H1 H2 t mb Ht Hmb. destruct (H1 t mb Ht Hmb) as (mb1 & E1 & Hmb1). destruct (H2 t mb1 Ht Hmb1) as (mb2 & E2 & Hmb2).
  injection E2 as ->. by exists mb2.
Qed.

Lemma client_blind_turn us bs x x' :
  Forall (λ u, 0 ≤ mu_ticker_id_ u) us → client_turn x x' → client_blind us bs x → client_blind us bs x'.
Proof.
  intros Hus Hs [Hr Hb]. destruct Hs as [fuel n m clock x x' H|r x|avail n unread sent x x' H|fd inc snap x x' H].
  - destruct Hb as [[Hq Hb]|[Hq Hb]].
    + destruct (trade_turn_books _ _ _ _ _ _ _ H Hq Hus) as (Hq' & Hb' & Hc). split; [by apply (recovering_same x)|]. right. by rewrite <- Hb.
    + destruct (trade_turn_books _ _ _ _ _ _ _ H Hq (Forall_nil_2 _)) as (Hq' & Hb' & Hc). split; [by apply (recovering_same x)|].
      right. split; [done|]. by eapply replayed_nil.
  - split; [by apply (recovering_same x)|done].
  - apply bind_ok in H as ([[unread1 sent1] g] & _ & [= <- <- <-]). split; [by apply (recovering_same x)|done].
  - apply bind_ok in H as ([[c r1] r2] & H & [= <-]). pose proof (consumer_turn_recovering _ _ _ _ _ _ _ _ Hr H) as Hr'.
    assert (MarketDataConsumer.incoming_md_updates_ c = cl_updates x) as Eq by apply Hr'. split.
    + destruct Hr' as ([H1 H2 H3] & Hi & _). by split_and!.
    + cbn [put_consumer cl_updates]. by rewrite Eq.
Qed.

Lemma client_blind_reachable us x x' :
  Forall (λ u, 0 ≤ mu_ticker_id_ u) us → recovering (cl_updates x) (consumer_on x) → lfq_rep (cl_updates x) us →
  rtc client_turn x x' → client_blind us (books x) x'.
Proof.
  intros Hus Hr Hq Hs. assert (client_blind us (books x) x) as H0 by (split; [done|by left]).
  generalize (books x), H0. clear -Hus Hs. intros bs. induction Hs as [|x1 x2 x3 H _ IH]; [done|]. intros H0. apply IH. by eapply client_blind_turn.
Qed.
End Recovery.
