(* ===== verification/Connected.v ===== *)
(** * The exchange and a client together.

    The exchange process (Exchange.v) and a client process (Client.v), each in any
    state it can reach, joined by transports that keep the order of the bytes: what
    one side has read is a beginning of what the other has sent ([connected]).
    TCP gives this for the two directions of the connection (TcpLink.v is about the
    buffers at its ends); for the multicast stream it is the assumption that no
    datagram is lost between the sockets, and what the client has read of it lies
    before the first [send] that failed at the publisher ([before_loss]): past it the
    stream has a gap.

    [requests_arrive], [responses_arrive], [updates_arrive]: what has arrived at
    the other end is a beginning of what was sent, message by message. *)

From stdpp Require Import numbers gmap list sorting relations.
From S2P Require Import Prelude MemPool Types LFQueue Wire TcpLink BookCore BookSpec BookRefine MarketOrderBook MEOrderBook MESpec MERefine MatchingEngine Requests OrderServer ServerStreams OrderGateway GatewayRuns MarketData Mirror Snapshot System MarketDataConsumer Double Position RunEvents Exchange OrderManager Features Strategy Session FeedPath EngineRuns Client ClientRuns.

Open Scope Z_scope.
Local Coercion Z.of_nat : nat >-> Z.

(** Client [c] on connection [fd].  [cn_bound]: the order server takes the client's
    requests from this connection only. *)
Record connected (c fd : Z) (hx : history) (ex : Exchange) (hc : client_history) : Prop := {
  cn_bound : ∀ fd', cid_tcp_socket_ (server_of ex) !! c = Some fd' → fd' = fd;
  cn_up : read_on fd (h_moved hx) `prefix_of` ch_sent hc;
  cn_down : ch_read hc `prefix_of` sent_on fd (h_moved hx);
  cn_feed : ch_feed hc `prefix_of` before_loss (h_sends hx) }.

(** What limits the session: numbers stay in 64 bits, fills in 32, and requests
    fit the wire. *)
Record in_limits (hx : history) (hc : client_history) : Prop := {
  il_orders : 1 + length (h_done hx) < ME_MAX_ORDER_IDS;
  il_responses : 1 + length (privates (h_events hx)) < 2 ^ 64;
  il_updates : 1 + length (publics (h_events hx)) < 2 ^ 64;
  il_requests : 1 + length (ch_issued hc) < 2 ^ 64;
  il_fills : Forall (λ r, resp_exec_qty_ r < 2 ^ 31) (privates (h_events hx));
  il_wire : Forall req_wf (ch_issued hc) }.

(** ** Bytes and messages *)

Lemma prefix_parsed {M} `{!Wire M} `{!WireLaws M} (bs rest : bytes) (ms sent : list M) :
  bs `prefix_of` concat (encode <$> sent) → Forall wire_wf sent → parse_stream bs = (ms, rest) → ms `prefix_of` sent.
Proof. intros [later H] Hwf E. symmetry in H. destruct (parse_prefix _ _ _ _ _ Hwf H E) as (pend & -> & _). by exists pend. Qed.

Lemma seq_prefix {M} (seq : M → Z) n (ms sent : list M) :
  ms `prefix_of` sent → seq <$> sent = seqZ n (length sent) → seq <$> ms = seqZ n (length ms).
Proof.
  intros [l ->] H. rewrite fmap_app, length_app, Nat2Z.inj_add, seqZ_app in H by lia.
  apply app_inj_1 in H as [H _]; [done|]. rewrite length_fmap, length_seqZ. lia.
Qed.

Lemma frame_requests_seq n rs : omreq_seq_num_ <$> frame_requests n rs = seqZ n (length rs).
Proof.
  revert n. induction rs as [|r rs IH]; intros n; [done|]. cbn [frame_requests length]. rewrite fmap_cons, IH, (seqZ_cons _ (S _)) by lia.
  f_equal. f_equal; lia.
Qed.

Lemma prefix_filter {A} (P : A → Prop) `{!∀ a, Decision (P a)} (l1 l2 : list A) :
  l1 `prefix_of` l2 → filter P l1 `prefix_of` filter P l2.
Proof. intros [l ->]. rewrite filter_app. by eexists. Qed.

Lemma prefix_fmap {A B} (f : A → B) (l1 l2 : list A) : l1 `prefix_of` l2 → f <$> l1 `prefix_of` f <$> l2.
Proof. intros [l ->]. rewrite fmap_app. by eexists. Qed.

Section Joined.
Context `{SORT : StdSort} {F : Type} `{!Double F} `{!DoubleMath F} `{!DoubleCast F}.
Implicit Types (hx : history) (ex : Exchange) (hc : client_history) (x : Client F) (c fd : Z).

(** ** Requests *)

Lemma requests_arrive c fd hx ex hc x :
  exchange_inv hx ex → client_inv c hc x → connected c fd hx ex hc → in_limits hx hc →
  ∃ arrived, arrived `prefix_of` ch_issued hc
    ∧ filter (λ r, req_client_id_ r = c) (staged (h_log hx) (server_of ex)) ≡ₚ arrived.
Proof.
  intros Hx Hc [Hb Hup _ _] [_ _ _ Hlen _ Hwf]. pose proof (sv_accept _ _ _ _ (xi_server _ _ Hx)) as Ha.
  destruct (cid_tcp_socket_ (server_of ex) !! c) as [fd'|] eqn:E.
  2: { destruct (ai_unbound _ _ _ _ Ha c E) as (_ & Hf & _). exists []. split; [apply prefix_nil|by rewrite Hf]. }
  specialize (Hb fd' eq_refl) as ->. destruct (ai_bound _ _ _ _ Ha c fd E) as [Hp _].
  destruct (ci_requests _ _ _ Hc) as (framed & waiting & Hiss & _ & Hsent & _). pose proof (ci_own _ _ _ Hc) as Hown.
  rewrite Hiss, length_app in Hlen. rewrite Hiss in Hwf, Hown. apply Forall_app in Hwf as [Hwf _]. apply Forall_app in Hown as [Hown _].
  assert (decoded_on (h_moved hx) fd `prefix_of` frame_requests 1 framed) as Hdec.
  { unfold decoded_on. destruct (parse_stream (read_on fd (h_moved hx))) as [ms rest] eqn:Ep.
    eapply prefix_parsed; [|apply frame_requests_wf; [lia|lia|exact Hwf]|exact Ep]. rewrite <- Hsent. etrans; [exact Hup|]. by eexists. }
  set (ms := decoded_on (h_moved hx) fd) in *.
  assert (of_client c ms = ms) as Eo.
  { unfold of_client. apply filter_all. destruct Hdec as [l Hl].
    assert (Forall (λ m, req_cid m = c) (frame_requests 1 framed)) as Hall.
    { rewrite <- (frame_requests_payload 1 framed) in Hown. apply Forall_fmap in Hown. exact Hown. }
    rewrite Hl in Hall. by apply Forall_app in Hall as [Hall _]. }
  assert (length ms ≤ length framed)%nat as Hml by (rewrite <- (length_frame_requests 1 framed); by apply prefix_length).
  rewrite Eo, (in_sequence_all omreq_seq_num_ 1 ms) in Hp; [| |lia|lia].
  - exists (me_client_request_ <$> ms). split; [|done]. rewrite Hiss. etrans; [by apply prefix_fmap|]. rewrite frame_requests_payload. by eexists.
  - eapply seq_prefix; [exact Hdec|]. by rewrite length_frame_requests, frame_requests_seq.
Qed.

(** ** Responses *)

Lemma answered_prefix hx ex : exchange_inv hx ex → h_answered hx `prefix_of` privates (h_events hx).
Proof. intros Hx. destruct (xi_responses _ _ Hx) as (rs & -> & _). by eexists. Qed.

Lemma own_prefix c rs rs' : rs `prefix_of` rs' → own c rs `prefix_of` own c rs'.
Proof. apply prefix_filter. Qed.

Lemma responses_arrive c fd hx ex hc :
  exchange_inv hx ex → plain_run (h_log hx) → connected c fd hx ex hc → in_limits hx hc →
  me_client_response_ <$> received_responses c (ch_read hc) `prefix_of` own c (h_answered hx).
Proof.
  intros Hx Hpl [Hb _ Hdown _] [_ Hlen _ _ _ _]. pose proof (xi_server _ _ Hx) as Hs.
  pose proof (answered_prefix hx ex Hx) as Hans. pose proof (prefix_length _ _ Hans) as Hal.
  assert (Forall resp_wf (h_answered hx)) as Hwf.
  { destruct (xi_requests _ _ Hx) as (todo & Hlog & _). rewrite Hlog in Hpl. apply plain_run_prefix, plain_run_privates in Hpl.
    fold fresh_books (h_events hx) in Hpl. destruct Hans as [l Hl]. rewrite Hl in Hpl. apply Forall_app in Hpl as [Hpl _].
    eapply Forall_impl; [exact Hpl|]. by intros r []. }
  set (framed := frame_responses ∅ (h_answered hx)). set (bind := cid_tcp_socket_ (server_of ex)) in *.
  assert (Forall wire_wf framed) as Hfw by (apply frame_responses_wf; [done|]; intros c'; unfold seq_of; rewrite lookup_empty; simpl; lia).
  unfold received_responses. destruct (parse_stream (ch_read hc)) as [ms rest] eqn:Ep. cbn [fst].
  assert (ms `prefix_of` to_socket bind fd framed) as Hms.
  { eapply prefix_parsed; [|eapply Forall_sublist; [apply sublist_filter|exact Hfw]|exact Ep]. etrans; [exact Hdown|].
    unfold response_stream in Hs. pose proof (sv_outbound _ _ _ _ Hs fd) as Ho. unfold response_stream in Ho.
    fold bind framed in Ho. unfold to_socket in *. rewrite <- Ho. by eexists. }
  apply (prefix_filter (λ m, resp_cid m = c)) in Hms. fold (responses_of c ms) (responses_of c (to_socket bind fd framed)) in Hms.
  unfold accepted_responses. destruct (bind !! c) as [fd'|] eqn:E.
  - specialize (Hb fd' eq_refl) as ->. rewrite (responses_of_socket c fd bind framed E) in Hms.
    assert (length framed = length (h_answered hx)) as Hfl by (unfold framed; by rewrite <- (length_fmap me_client_response_ (frame_responses _ _)), frame_responses_payload).
    assert (length (responses_of c framed) ≤ length framed)%nat as Hrl by apply length_filter.
    pose proof (prefix_length _ _ Hms) as Hml.
    assert (seq_of ∅ c = 1) as Es by (unfold seq_of; by rewrite lookup_empty).
    pose proof (frame_responses_seq c ∅ (h_answered hx)) as Hseq. rewrite Es in Hseq. fold framed in Hseq.
    rewrite (in_sequence_all omresp_seq_num_ 1 (responses_of c ms)); [| |lia|lia].
    + rewrite <- (own_framed c ∅ (h_answered hx)). by apply prefix_fmap.
    + eapply seq_prefix; [exact Hms|]. apply Hseq; lia.
  - assert (responses_of c (to_socket bind fd framed) = []) as Hnil.
    { apply filter_none, Forall_forall. intros m Hm. unfold to_socket in Hm. apply list_elem_of_filter in Hm as [Hm _]. congruence. }
    rewrite Hnil in Hms. apply prefix_nil_inv in Hms. rewrite Hms. apply prefix_nil.
Qed.

(** ** Updates *)

Lemma before_loss_prefix sends lefts :
  Forall2 (λ (send : option bytes) bs, send = None ∨ send = Some bs) sends lefts → before_loss sends `prefix_of` concat lefts.
Proof.
  induction 1 as [|send bs sends lefts [->| ->] _ IH]; cbn [before_loss concat]; [done|apply prefix_nil|]. by apply prefix_app.
Qed.

Lemma feed_sound hx ex :
  exchange_inv hx ex → plain_run (h_log hx) →
  ∃ published, published `prefix_of` publics (h_events hx) ∧ Forall update_plain published
    ∧ before_loss (h_sends hx) `prefix_of` concat (encode <$> number_updates 1 published).
Proof.
  intros Hx Hpl. destruct (xi_feed _ _ Hx) as (pub & us & Hpu & _ & (lefts & Hlefts & Hfeed) & _). exists pub.
  destruct (xi_requests _ _ Hx) as (todo & Hlog & _). rewrite Hlog in Hpl. apply plain_run_prefix, plain_run_publics in Hpl.
  fold fresh_books (h_events hx) in Hpl. rewrite Hpu in Hpl |- *. apply Forall_app in Hpl as [Hpl _].
  split_and!; [by eexists|done|]. rewrite <- Hfeed. etrans; [by apply before_loss_prefix|]. by eexists.
Qed.

Lemma connected_sane c fd hx ex hc :
  exchange_inv hx ex → plain_run (h_log hx) → connected c fd hx ex hc → in_limits hx hc → sane_inputs c hc.
Proof.
  intros Hx Hpl Hc Hl. split.
  - destruct (feed_sound hx ex Hx Hpl) as (pub & Hpre & Hplain & Hfeed). exists pub. split_and!.
    + etrans; [exact (cn_feed _ _ _ _ _ Hc)|done].
    + eapply Forall_impl; [exact Hplain|]. by intros u [].
    + pose proof (prefix_length _ _ Hpre). pose proof (il_updates _ _ Hl). lia.
  - pose proof (responses_arrive c fd hx ex hc Hx Hpl Hc Hl) as Hp.
    assert (Forall fill_small (privates (h_events hx))) as Hall.
    { destruct (xi_requests _ _ Hx) as (todo & Hlog & _). rewrite Hlog in Hpl. apply plain_run_prefix, plain_run_privates in Hpl.
      fold fresh_books (h_events hx) in Hpl. pose proof (il_fills _ _ Hl) as Hf. apply Forall_forall. intros r Hr.
      rewrite Forall_forall in Hpl, Hf. destruct (Hpl r Hr) as [Hw _ Ht Hfi]. split; [lia|]. intros Hty. destruct (Hfi Hty) as [Hs _].
      split; [done|]. specialize (Hf r Hr). destruct Hw as (_ & _ & _ & _ & _ & Hq & _). lia. }
    destruct Hp as [l Hp]. destruct (answered_prefix hx ex Hx) as [l2 Ha]. rewrite Ha in Hall. apply Forall_app in Hall as [Hall _].
    assert (Forall fill_small (own c (h_answered hx))) as Ho by (eapply Forall_sublist; [apply sublist_filter|done]).
    rewrite Hp in Ho. by apply Forall_app in Ho as [Ho _].
Qed.

Lemma updates_arrive c fd hx ex hc x :
  exchange_inv hx ex → plain_run (h_log hx) → client_inv c hc x → connected c fd hx ex hc → in_limits hx hc →
  ch_seen hc `prefix_of` publics (h_events hx).
Proof.
  intros Hx Hpl Hc Hcn Hl. destruct (feed_sound hx ex Hx Hpl) as (pub & Hpre & Hplain & Hfeed).
  destruct (ci_updates _ _ _ Hc) as (waiting & _ & Hparse & _). pose proof (prefix_length _ _ Hpre) as Hlen.
  assert (number_updates 1 (ch_seen hc ++ waiting) `prefix_of` number_updates 1 pub) as Hp.
  { eapply prefix_parsed; [etrans; [exact (cn_feed _ _ _ _ _ Hcn)|exact Hfeed]| |exact Hparse]. apply number_updates_wf; [lia| |].
    - pose proof (il_updates _ _ Hl). lia.
    - eapply Forall_impl; [exact Hplain|]. by intros u []. }
  apply (prefix_fmap me_market_update_) in Hp. rewrite !number_updates_payload in Hp.
  etrans; [|exact Hpre]. etrans; [|exact Hp]. by eexists.
Qed.

(** The client's book of a ticker, and what is still under way to it. *)
Lemma book_behind c fd hx ex hc x t ob :
  exchange_inv hx ex → plain_run (h_log hx) → client_inv c hc x → connected c fd hx ex hc → in_limits hx hc →
  0 ≤ t → MatchingEngine.ticker_order_book_ (matching_engine ex) !! Z.to_nat t = Some ob →
  ∃ pending mb ab ab', publics (h_events hx) = ch_seen hc ++ pending
    ∧ Strategy.ticker_order_book_ (trade_engine x) !! Z.to_nat t = Some mb
    ∧ rep (me_book ob) ab ∧ rep (mkt_book mb) ab' ∧ bbo_ok (bbo_ mb) ab' ∧ feeds (of_ticker t pending) ab' (mirror ab).
Proof.
  intros Hx Hpl Hc Hcn Hl H0 Hob. destruct (updates_arrive c fd hx ex hc x Hx Hpl Hc Hcn Hl) as [pending Hp].
  destruct (xi_requests _ _ Hx) as (todo & Hlog & _). rewrite Hlog in Hpl. apply plain_run_prefix in Hpl.
  destruct (fresh_feeds (h_done hx) _ (plain_run_valid _ Hpl) (plain_tickers _ Hpl) (il_orders _ _ Hl) (xi_books _ _ Hx) t ob H0 Hob)
    as (Hlt & ab & Hr & Hf). fold (h_events hx) in Hf. rewrite Hp in Hf. unfold of_ticker in Hf. rewrite filter_app in Hf.
  destruct (feeds_split _ _ _ _ Hf) as (ab' & Hf1 & Hf2). destruct (ci_books _ _ _ Hc t) as (mb & Hmb & Hlk); [lia|].
  destruct (feeds_replay _ (MarketOrderBook_new zeroed t) _ _ Hf1 (mkt_rep_new t)) as (mb' & Hmb' & Hm & _ & Hbbo).
  unfold of_ticker in Hmb. rewrite Hmb in Hmb'. injection Hmb' as <-. exists pending, mb, ab, ab'. by split_and!.
Qed.
End Joined.
