(* ===== verification/StrategySafety.v ===== *)
(** * What the algorithms ask of the order manager.

    Lemmas on Strategy.v: every event of the trade engine is a few steps of its
    order handling ([te_event_steps]), so that the invariants of OrderManager.v
    hold for the engine; the market maker's quotes stay on their side of the
    book ([maker_decide_passive]) and its clip is not negative
    ([maker_decide_clip]). *)

From stdpp Require Import numbers gmap sorting relations list.
From S2P Require Import Prelude Types MemPool LFQueue BookSpec MarketOrderBook MatchingEngine Double Position OrderManager Features Strategy.

Open Scope Z_scope.

Section Decisions.
Context {F : Type} `{!Double F} `{!DoubleMath F} `{!DoubleCast F}.
Implicit Types (cfg : TradeEngineCfg F) (fe : FeatureEngine F) (bbo : BBO).

Lemma int64_eq z z' : int64 z = Ok z' → z' = z.
Proof. unfold int64. by destruct (_ && _); intros [= <-]. Qed.

Lemma cast_uint32_nonneg (x : F) z : cast_uint32 x = Ok z → 0 ≤ z.
Proof. unfold cast_uint32. destruct (d_to_Z x) as [y|]; [|done]. destruct (Z.leb_spec 0 y); [|done]. by destruct (_ <? _); intros [= <-]. Qed.

Lemma as_clip_nonneg cfg q sigma clip : 0 ≤ clip_ cfg → as_clip cfg q sigma = Ok clip → 0 ≤ clip.
Proof. unfold as_clip. intros H. destruct (_ && _); [apply cast_uint32_nonneg|by intros [= <-]]. Qed.

(** Every quote: a non-negative size, the bid below the best ask, the ask above
    the best bid. *)
Lemma as_quote_passive cfg bbo fe position now start d :
  as_quote cfg bbo fe position now start = Ok d →
  ∃ bid ask clip, d = Quote bid ask clip ∧ bid < ask_price_ bbo ∧ bid_price_ bbo < ask ∧ (0 ≤ clip_ cfg → 0 ≤ clip).
Proof.
  unfold as_quote. cbv zeta. intros (tau & _ & (b & _ & (a & _ & (bid & Eb & (ask & Ea & (clip & Ec & [= <-])%bind_ok)
    %bind_ok)%bind_ok)%bind_ok)%bind_ok)%bind_ok.
  exists bid, ask, clip. split; [done|]. split_and!.
  - destruct (Z.leb_spec (ask_price_ bbo) b); [apply int64_eq in Eb; lia|injection Eb as <-; done].
  - destruct (Z.leb_spec a (bid_price_ bbo)); [apply int64_eq in Ea; lia|injection Ea as <-; done].
  - intros H. by eapply as_clip_nonneg.
Qed.

Lemma threshold_quote_passive cfg bbo fe d :
  threshold_quote cfg bbo fe = Ok d →
  ∃ bid ask, d = Quote bid ask (clip_ cfg) ∧ bid ≤ bid_price_ bbo ∧ ask_price_ bbo ≤ ask.
Proof.
  unfold threshold_quote. cbv zeta. intros (bid & Eb%int64_eq & (ask & Ea%int64_eq & [= <-])%bind_ok)%bind_ok.
  exists bid, ask. split; [done|]. destruct (_ <=? _)%D in Eb; destruct (_ <=? _)%D in Ea; lia.
Qed.

Lemma maker_decide_passive cfg bbo fe position now start d :
  maker_decide cfg bbo fe position now start = Ok d → bid_price_ bbo < ask_price_ bbo →
  d = Pull ∨ ∃ bid ask clip, d = Quote bid ask clip ∧ bid < ask_price_ bbo ∧ bid_price_ bbo < ask
    ∧ (0 ≤ clip_ cfg → 0 ≤ clip).
Proof.
  unfold maker_decide. intros (kill & _ & H)%bind_ok Hba. destruct kill; [injection H as <-; by left|]. right.
  destruct (as_ready cfg fe).
  - destruct position as [p|]; [|done]. by apply as_quote_passive in H.
  - apply threshold_quote_passive in H as (bid & ask & -> & Hb & Ha). exists bid, ask, (clip_ cfg).
    split_and!; [done|lia|lia|done].
Qed.

Lemma maker_decide_clip cfg bbo fe position now start bid ask clip :
  0 ≤ clip_ cfg → maker_decide cfg bbo fe position now start = Ok (Quote bid ask clip) → 0 ≤ clip.
Proof.
  unfold maker_decide. intros Hc (kill & _ & H)%bind_ok. destruct kill; [done|]. destruct (as_ready cfg fe).
  - destruct position as [p|]; [|done]. apply as_quote_passive in H as (? & ? & ? & [= -> -> ->] & _ & _ & H). auto.
  - by apply threshold_quote_passive in H as (? & ? & [= -> -> ->] & _).
Qed.
End Decisions.

(** ** Events of the engine as steps of its order handling *)

Section Events.
Context {F : Type} `{!Double F} `{!DoubleMath F} `{!DoubleCast F} {E : Type} `{!RequestSink E}.
Implicit Types (te : TradeEngine F E) (t : Trader F E) (cfgs : list (TradeEngineCfg F)).

Definition clips_ok cfgs : Prop := Forall (λ cfg, 0 ≤ clip_ cfg) cfgs.

Lemma clips_ok_lookup cfgs n cfg : clips_ok cfgs → cfgs !! n = Some cfg → 0 ≤ clip_ cfg.
Proof. intros Hc Hn. by apply (proj1 (Forall_lookup _ _) Hc n). Qed.

Lemma maker_steps cfgs start now ticker_id bbo fe t t' :
  clips_ok cfgs → maker_onOrderBookUpdate cfgs start now ticker_id bbo fe t = Ok t' → bsteps trader_step 1 t t'.
Proof.
  intros Hc. unfold maker_onOrderBookUpdate. destruct (_ && _); [|intros [= <-]; apply bsteps_refl].
  destruct (cfgs !! _) as [cfg|] eqn:Ecfg; [|done]. intros (d & Ed & Ha)%bind_ok. apply bsteps_once.
  destruct d as [|bid ask clip]; [by eapply step_pull|]. eapply step_quote; [|exact Ha].
  by eapply maker_decide_clip; [eapply clips_ok_lookup|].
Qed.

Lemma taker_steps cfgs u bbo fe t t' :
  clips_ok cfgs → taker_onTradeUpdate cfgs u bbo fe t = Ok t' → bsteps trader_step 1 t t'.
Proof.
  intros Hc. unfold taker_onTradeUpdate. destruct (_ && _); [|intros [= <-]; apply bsteps_refl].
  destruct (cfgs !! _) as [cfg|] eqn:Ecfg; [|done]. pose proof (clips_ok_lookup _ _ _ Hc Ecfg).
  destruct (_ <=? _)%D; [|intros [= <-]; apply bsteps_refl].
  case_bool_decide; intros Hm; apply bsteps_once; by eapply step_quote.
Qed.

(** What an event leaves alone. *)
Definition same_setup te te' : Prop := algo_ te' = algo_ te ∧ ticker_cfg_ te' = ticker_cfg_ te.

Lemma te_onOrderBookUpdate_steps now ticker_id bbo te te' :
  clips_ok (ticker_cfg_ te) → te_onOrderBookUpdate now ticker_id bbo te = Ok te' →
  bsteps trader_step 2 (te_trader te) (te_trader te') ∧ same_setup te te'.
Proof.
  intros Hc (k & Ek & (fe & _ & H)%bind_ok)%bind_ok.
  assert (bsteps trader_step 1 (te_trader te) (set_keeper k (te_trader te))) as H1
    by (apply bsteps_once; by eapply step_mark).
  cbn [algo_ set_features set_trader] in H. cbn zeta in H. cbn [algo_ set_features set_trader] in H.
  destruct (algo_ te) eqn:Ea;
    try (injection H as <-; split; [by eapply (bsteps_weaken 1 2); [lia|]|by split]).
  apply bind_ok in H as (t & Ht & [= <-]). split; [|by split].
  eapply (bsteps_trans 1 1); [exact H1|]. by eapply maker_steps in Ht.
Qed.

Lemma te_onTradeUpdate_steps fuel u bbo te te' :
  clips_ok (ticker_cfg_ te) → te_onTradeUpdate fuel u bbo te = Ok te' →
  bsteps trader_step 2 (te_trader te) (te_trader te') ∧ same_setup te te'.
Proof.
  intros Hc (fe & _ & H)%bind_ok. cbn zeta in H. cbn [algo_ set_features] in H.
  destruct (algo_ te) eqn:Ea; try (injection H as <-; split; [apply bsteps_refl|by split]).
  apply bind_ok in H as (t & Ht & [= <-]). split; [|by split].
  eapply (bsteps_weaken 1 2); [lia|]. by eapply taker_steps in Ht.
Qed.

Lemma te_book_update_steps fuel now u mb te te' :
  clips_ok (ticker_cfg_ te) → te_book_update fuel now u mb te = Ok te' →
  bsteps trader_step 2 (te_trader te) (te_trader te') ∧ same_setup te te'.
Proof.
  intros Hc ([mb' notice] & _ & H)%bind_ok. destruct notice as [u'|ticker_id price side].
  - by apply te_onTradeUpdate_steps in H.
  - by apply te_onOrderBookUpdate_steps in H.
Qed.

Lemma te_market_update_steps fuel now u te te' :
  clips_ok (ticker_cfg_ te) → te_market_update fuel now u te = Ok te' →
  bsteps trader_step 2 (te_trader te) (te_trader te') ∧ same_setup te te'.
Proof.
  intros Hc (? & _ & H)%bind_ok. destruct (ticker_order_book_ te !! _) as [mb|]; [|done].
  by eapply te_book_update_steps.
Qed.

(** A response of the exchange about a working order, or any market update. *)
Inductive te_event te : TradeEngine F E → Prop :=
| ev_response r te' :
    response_ok r (te_trader te) → resp_ticker_id_ r < ME_MAX_TICKERS →
    te_onOrderUpdate r te = Ok te' → te_event te te'
| ev_update fuel now u te' : te_market_update fuel now u te = Ok te' → te_event te te'.

(** A set-up whose order handling is in order. *)
Record te_ready te : Prop := {
  tr_algo : has_algo te = true;
  tr_clips : clips_ok (ticker_cfg_ te);
  tr_sized : sized (Z.to_nat ME_MAX_TICKERS) (te_trader te);
  tr_inv : trader_inv (te_trader te) }.

Lemma te_event_steps te te' :
  te_ready te → te_event te te' → bsteps trader_step 2 (te_trader te) (te_trader te') ∧ same_setup te te'.
Proof.
  intros [Ha Hc Hs Hi] [r te2 Hr Ht He|fuel now u te2 He]; [|by eapply te_market_update_steps].
  unfold te_onOrderUpdate in He. rewrite Ha in He. apply bind_ok in He as (t & Ht' & [= <-]). split; [|by split].
  eapply (bsteps_weaken 1 2); [lia|]. apply bsteps_once. eapply step_response; [exact Hr| |exact Ht'].
  apply (sized_covers (Z.to_nat ME_MAX_TICKERS)); [done|]. split; [by destruct Hr|]. unfold ME_MAX_TICKERS in *. lia.
Qed.

Lemma te_ready_steps n te te' :
  te_ready te → bsteps trader_step n (te_trader te) (te_trader te') → same_setup te te' → te_ready te'.
Proof.
  intros [Ha Hc Hsz Hi] Hs [Ea Ec].
  destruct (trader_steps_inv _ _ _ Hi Hsz (rtc_bsteps_2 _ _ _ Hs)) as [Hi' Hsz'].
  split; [unfold has_algo; by rewrite Ea|by rewrite Ec|done|done].
Qed.

Lemma te_event_ready te te' : te_ready te → te_event te te' → te_ready te'.
Proof. intros Hr He. destruct (te_event_steps te te' Hr He) as [Hs Hset]. by eapply te_ready_steps. Qed.

Lemma te_event_risk te te' :
  te_ready te → te_event te te' → ticker_risk_ (te_trader te') = ticker_risk_ (te_trader te).
Proof. intros Hr He. destruct (te_event_steps te te' Hr He) as [Hs _]. by eapply trader_steps_risk, rtc_bsteps_2. Qed.

Lemma te_run_risk te te' :
  te_ready te → rtc te_event te te' → ticker_risk_ (te_trader te') = ticker_risk_ (te_trader te).
Proof.
  intros Hr H. revert Hr. induction H as [|x y z H1 _ IH]; [done|]. intros Hx.
  rewrite IH by (by eapply te_event_ready). by apply te_event_risk.
Qed.

Lemma te_ready_run te te' : te_ready te → rtc te_event te te' → te_ready te'.
Proof. intros Hr H. revert Hr. induction H as [|x y z H1 _ IH]; [done|]. intros Hx. by eapply IH, te_event_ready. Qed.

(** [n] events are at most [2 * n] steps of the order handling. *)
Lemma te_run_steps n te te' :
  te_ready te → nsteps te_event n te te' → bsteps trader_step (n + n) (te_trader te) (te_trader te').
Proof.
  intros Hr H. revert Hr. induction H as [|n x y z H1 _ IH]; intros Hx; [apply bsteps_refl|].
  replace (S n + S n)%nat with (2 + (n + n))%nat by lia. eapply bsteps_trans; [by apply te_event_steps|].
  by eapply IH, te_event_ready.
Qed.

Lemma te_ready_new client_id algo_type cfgs mem now requests responses updates te :
  TradeEngine_new client_id algo_type cfgs mem now requests responses updates = Ok te →
  algo_type = MAKER ∨ algo_type = TAKER → length cfgs = Z.to_nat ME_MAX_TICKERS → clips_ok cfgs →
  Forall cfg_ok (risk_cfg_ <$> cfgs) →
  te_ready te ∧ outgoing_ogw_requests_ (te_trader te) = requests
  ∧ next_order_id_ (order_manager_ (te_trader te)) = 1 ∧ ticker_risk_ (te_trader te) = risk_cfg_ <$> cfgs.
Proof.
  unfold TradeEngine_new, RiskManager_new. destruct (cfgs !! 0%nat) as [cfg0|]; [|done].
  intros (om & (Eo & En)%push_hysteresis_ok & [= <-])%bind_ok Ha Hl Hc Hr. split; [|split; [done|split; [exact En|done]]].
  assert (trader_inv (Trader_new client_id (risk_cfg_ <$> cfgs) (maker_rebate_bps_ <$> cfgs) (em_vwap mem) requests)) as [Hcf Hk]
    by (by apply trader_inv_new).
  split; cbn [ticker_cfg_ te_trader].
  - unfold has_algo. cbn [algo_]. by destruct Ha as [-> | ->].
  - done.
  - destruct (sized_new client_id (risk_cfg_ <$> cfgs) (maker_rebate_bps_ <$> cfgs) (em_vwap mem) requests) as (S1 & S2 & S3 & S4);
      [by rewrite length_fmap..|]. split_and!; try done. cbn [order_manager_ set_order_manager]. by rewrite Eo.
  - split; [done|]. cbn [order_manager_ set_order_manager position_keeper_ ticker_risk_]. rewrite Eo. exact Hk.
Qed.
End Events.
