(* ===== verification/Parse.v ===== *)
(** * Text input.

    What the tape readers (src/backtest) use of the C++ library: [std::getline]
    on a stream held as the string of its remaining characters, [std::stoll],
    [std::stoi] and [std::atoi].  Printing an integer and parsing it again gives
    the integer ([strtoll_pretty]), and a field printed between delimiters is
    read back ([getline_field]). *)

From Stdlib Require Import Ascii String.
From stdpp Require Import numbers strings pretty list.
From S2P Require Import Prelude Logging.

Open Scope Z_scope.

Definition COMMA : ascii := ","%char.
Definition NEWLINE : ascii := "010"%char.

(** The characters up to the delimiter, and the rest of the stream after it. *)
Fixpoint split_at (delim : ascii) (s : string) : string * string :=
  match s with
  | EmptyString => (EmptyString, EmptyString)
  | String c s =>
      if bool_decide (c = delim) then (EmptyString, s)
      else let (tok, rest) := split_at delim s in (String c tok, rest)
  end.

(** [std::getline(stream, token, delim)]: it fails when nothing, not even the
    delimiter, can be extracted. *)
Definition getline (delim : ascii) (s : string) : option (string * string) :=
  match s with EmptyString => None | _ => Some (split_at delim s) end.

(** The token is left empty by a failing [getline] whose result is ignored. *)
Definition getline_or_empty (delim : ascii) (s : string) : string * string :=
  default (EmptyString, EmptyString) (getline delim s).

(** ** Integers *)

Definition digit (c : ascii) : option Z :=
  let n := Z.of_N (N_of_ascii c) in
  if (48 <=? n) && (n <=? 57) then Some (n - 48) else None.

Definition is_space (c : ascii) : bool :=
  let n := Z.of_N (N_of_ascii c) in (n =? 32) || ((9 <=? n) && (n <=? 13)).

Fixpoint skip_spaces (s : string) : string :=
  match s with
  | String c s' => if is_space c then skip_spaces s' else s
  | EmptyString => s
  end.

Fixpoint read_digits (acc : Z) (s : string) : Z :=
  match s with
  | String c s => match digit c with Some d => read_digits (acc * 10 + d) s | None => acc end
  | EmptyString => acc
  end.

(** The digits have to start at once. *)
Definition read_number (s : string) : option Z :=
  match s with
  | String c _ => match digit c with Some _ => Some (read_digits 0 s) | None => None end
  | EmptyString => None
  end.

(** The value of the longest prefix that is a decimal integer. *)
Definition strtoll (s : string) : option Z :=
  match skip_spaces s with
  | String c s' =>
      if bool_decide (c = "-"%char) then Z.opp <$> read_number s'
      else if bool_decide (c = "+"%char) then read_number s'
      else read_number (String c s')
  | EmptyString => None
  end.

(** [std::stoll] and [std::stoi] throw without a number and out of range. *)
Definition sto (w : Z) (s : string) : result Z :=
  match strtoll s with
  | Some z => if (- 2 ^ (w - 1) <=? z) && (z <? 2 ^ (w - 1)) then Ok z else Err Thrown
  | None => Err Thrown
  end.
Definition stoll (s : string) : result Z := sto 64 s.
Definition stoi (s : string) : result Z := sto 32 s.

(** [std::atoi] gives 0 without a number; out of range it is undefined. *)
Definition atoi (s : string) : result Z :=
  match strtoll s with
  | Some z => if (- 2 ^ 31 <=? z) && (z <? 2 ^ 31) then Ok z else Err Undefined
  | None => Ok 0
  end.

(** [std::strtoull(s, nullptr, 10)]: a negative number wraps, out of range it
    saturates. *)
Definition strtoull (s : string) : Z :=
  match strtoll s with
  | Some z => if Z.abs z <? 2 ^ 64 then u64 z else 2 ^ 64 - 1
  | None => 0
  end.

(** ** Fields *)

(** The delimiter does not occur. *)
Fixpoint free_of (delim : ascii) (s : string) : bool :=
  match s with
  | EmptyString => true
  | String c s => bool_decide (c ≠ delim) && free_of delim s
  end.

Lemma split_at_field delim f rest :
  free_of delim f = true → split_at delim (f +:+ String delim rest) = (f, rest).
Proof.
  induction f as [|c f IH]; simpl; [by rewrite bool_decide_true|].
  intros [Hc Hf]%andb_prop. apply bool_decide_eq_true in Hc.
  change (split_at delim (String c (f +:+ String delim rest)) = (String c f, rest)).
  cbn [split_at]. rewrite bool_decide_false by done. by rewrite (IH Hf).
Qed.

Lemma getline_field delim f rest :
  free_of delim f = true → getline delim (f +:+ String delim rest) = Some (f, rest).
Proof. intros Hf. unfold getline. rewrite <- (split_at_field delim f rest Hf). by destruct f. Qed.

Lemma split_at_last delim f : free_of delim f = true → split_at delim f = (f, EmptyString).
Proof.
  induction f as [|c f IH]; [done|]. simpl. intros [Hc Hf]%andb_prop. apply bool_decide_eq_true in Hc.
  rewrite bool_decide_false by done. by rewrite (IH Hf).
Qed.

Lemma getline_last delim f : free_of delim f = true → f ≠ EmptyString → getline delim f = Some (f, EmptyString).
Proof. intros Hf Hne. unfold getline. rewrite (split_at_last delim f Hf). by destruct f. Qed.

Lemma free_of_app delim s1 s2 : free_of delim (s1 +:+ s2) = free_of delim s1 && free_of delim s2.
Proof.
  induction s1 as [|c s1 IH]; [done|].
  change (free_of delim (String c s1 +:+ s2)) with (bool_decide (c ≠ delim) && free_of delim (s1 +:+ s2)).
  rewrite IH. cbn [free_of]. by rewrite andb_assoc.
Qed.

(** A line takes at least its delimiter from the stream. *)
Lemma split_at_length delim s : (String.length (split_at delim s).2 ≤ String.length s)%nat.
Proof.
  induction s as [|c s IH]; [done|]. cbn [split_at]. case_bool_decide; [simpl; lia|].
  destruct (split_at delim s) as [tok rest]. simpl in *. lia.
Qed.

Lemma getline_length delim s tok rest :
  getline delim s = Some (tok, rest) → (String.length rest < String.length s)%nat.
Proof.
  destruct s as [|c s]; [done|]. cbn [getline split_at]. pose proof (split_at_length delim s) as Hl.
  case_bool_decide; [intros [= _ <-]; simpl; lia|]. destruct (split_at delim s) as [tok' rest'].
  intros [= _ <-]. simpl in *. lia.
Qed.

Lemma fueled_sto w s : fueled (sto w s).
Proof. unfold sto. fuel_step. Qed.
#[export] Hint Resolve fueled_sto : fuel.

(** ** Printing and parsing of integers *)

Lemma digit_pretty x : (x < 10)%N → digit (pretty_N_char x) = Some (Z.of_N x).
Proof.
  intros Hx. assert (x = 0 ∨ x = 1 ∨ x = 2 ∨ x = 3 ∨ x = 4 ∨ x = 5 ∨ x = 6 ∨ x = 7 ∨ x = 8 ∨ x = 9)%N
    as Hd by lia. repeat destruct Hd as [->|Hd]; subst; done.
Qed.

(** Induction over the decimal digits of a number. *)
Lemma decimal_ind (P : N → Prop) : P 0%N → (∀ x, (0 < x)%N → P (x `div` 10)%N → P x) → ∀ x, P x.
Proof.
  intros H0 HS x. induction (N.lt_wf_0 x) as [x _ IH]. destruct (decide (x = 0)%N) as [->|]; [done|].
  apply HS; [lia|]. apply IH, N.div_lt; lia.
Qed.

Lemma read_digits_go x s : read_digits 0 (pretty_N_go x s) = read_digits (Z.of_N x) s.
Proof.
  revert s. induction x as [|x Hx IH] using decimal_ind; intros s; [by rewrite pretty_N_go_0|].
  rewrite pretty_N_go_step, IH by done. cbn [read_digits]. rewrite digit_pretty by (apply N.mod_lt; lia).
  f_equal. rewrite (N.div_mod x 10) at 3 by done. lia.
Qed.

Definition starts_with_digit (s : string) : bool :=
  match s with String c _ => bool_decide (is_Some (digit c)) | EmptyString => false end.

Lemma starts_with_digit_go x s :
  (0 < x)%N ∨ starts_with_digit s = true → starts_with_digit (pretty_N_go x s) = true.
Proof.
  revert s. induction x as [|x Hx IH] using decimal_ind; intros s.
  { rewrite pretty_N_go_0. intros [?|?]; [lia|done]. }
  intros _. rewrite pretty_N_go_step by done. apply IH. right. simpl.
  by rewrite digit_pretty by (apply N.mod_lt; lia).
Qed.

Lemma free_of_go delim x s : digit delim = None → free_of delim s = true → free_of delim (pretty_N_go x s) = true.
Proof.
  intros Hd. revert s. induction x as [|x Hx IH] using decimal_ind; intros s Hs; [by rewrite pretty_N_go_0|].
  rewrite pretty_N_go_step by done. apply IH. simpl. rewrite Hs, andb_true_r. apply bool_decide_eq_true.
  intros E. rewrite <- E in Hd. by rewrite digit_pretty in Hd by (apply N.mod_lt; lia).
Qed.

Lemma read_number_pretty (x : N) : read_number (pretty x) = Some (Z.of_N x) ∧ starts_with_digit (pretty x) = true.
Proof.
  unfold pretty, pretty_N. case_decide as Hx; [by subst|].
  assert (starts_with_digit (pretty_N_go x "") = true) as Hs by (apply starts_with_digit_go; left; lia).
  split; [|done].
  pose proof (read_digits_go x "") as Hr. simpl in Hr. unfold read_number. rewrite <- Hr.
  destruct (pretty_N_go x "") as [|c t]; [done|]. simpl in Hs. apply bool_decide_eq_true in Hs as [d ->]. done.
Qed.

Lemma digit_not_sign c : is_Some (digit c) → is_space c = false ∧ c ≠ "-"%char ∧ c ≠ "+"%char.
Proof.
  unfold digit, is_space. intros [d Hd]. destruct (Z.leb_spec 48 (Z.of_N (N_of_ascii c))); [|done].
  split; [|split; intros ->; done].
  apply orb_false_intro; [apply Z.eqb_neq; lia|]. apply andb_false_intro2, Z.leb_gt. lia.
Qed.

Lemma strtoll_pretty (z : Z) : strtoll (pretty z) = Some z.
Proof.
  assert (∀ x : N, strtoll (pretty x) = Some (Z.of_N x)) as Hpos.
  { intros x. destruct (read_number_pretty x) as [Hr Hs]. unfold strtoll.
    destruct (pretty x) as [|c t] eqn:E; [done|]. simpl in Hs. apply bool_decide_eq_true in Hs.
    destruct (digit_not_sign c Hs) as (H1 & H2 & H3). cbn [skip_spaces]. rewrite H1.
    by rewrite !bool_decide_false by done. }
  destruct z as [|p|p]; [done|apply (Hpos (Npos p))|].
  transitivity (Z.opp <$> read_number (pretty (Npos p))); [done|].
  by rewrite (proj1 (read_number_pretty (Npos p))).
Qed.

Lemma free_of_pretty delim (z : Z) : digit delim = None → delim ≠ "-"%char → free_of delim (pretty z) = true.
Proof.
  intros Hd Hm. assert (∀ x : N, free_of delim (pretty x) = true) as Hpos.
  { intros x. unfold pretty, pretty_N. case_decide; [|by apply free_of_go].
    simpl. rewrite andb_true_r. apply bool_decide_eq_true. by intros <-. }
  destruct z as [|p|p]; [apply (Hpos 0%N)|apply (Hpos (Npos p))|].
  change (bool_decide ("-"%char ≠ delim) && free_of delim (pretty (Npos p)) = true).
  rewrite (Hpos (Npos p)), andb_true_r. by apply bool_decide_eq_true.
Qed.

Lemma pretty_not_empty (z : Z) : pretty z ≠ EmptyString.
Proof.
  intros E. pose proof (strtoll_pretty z) as H. by rewrite E in H.
Qed.

Lemma stoll_pretty z : - 2 ^ 63 ≤ z < 2 ^ 63 → stoll (pretty z) = Ok z.
Proof.
  intros Hz. unfold stoll, sto. rewrite strtoll_pretty. change (64 - 1) with 63.
  by rewrite (proj2 (Z.leb_le _ _)), (proj2 (Z.ltb_lt _ _)) by lia.
Qed.
