(* ===== verification/Tape.v ===== *)
(** * The tape of the backtest.

    [Backtest::TapeReader] of src/backtest/binance_tape_reader.{h,cpp}: the
    events, the CSV reader and the synthetic tape.  A file is the string of its
    characters.  The constructor of the reader throws if the file cannot be
    opened; [std::stoll] and [std::stod] throw on malformed numbers, and nobody
    catches that ([Thrown]). *)

From Stdlib Require Import Ascii String QArith Qcanon.
From stdpp Require Import numbers strings pretty list.
From S2P Require Import Prelude Types Double Logging Parse.

Open Scope Z_scope.

Record BookTopEvent := mkBookTopEvent {
  b_event_ns : Z;
  b_bid_price : Z;
  b_bid_qty : Z;
  b_ask_price : Z;
  b_ask_qty : Z }.

Record TradeEvent := mkTradeEvent {
  t_event_ns : Z;
  t_price : Z;
  t_qty : Z;
  t_side : Side }.

Inductive TapeEvent := BookTop (b : BookTopEvent) | Trade (t : TradeEvent).

Definition event_ns (ev : TapeEvent) : Z :=
  match ev with BookTop b => b_event_ns b | Trade t => t_event_ns t end.

#[export] Instance BookTopEvent_eq_dec : EqDecision BookTopEvent.
Proof. solve_decision. Defined.
#[export] Instance TradeEvent_eq_dec : EqDecision TradeEvent.
Proof. solve_decision. Defined.
#[export] Instance TapeEvent_eq_dec : EqDecision TapeEvent.
Proof. solve_decision. Defined.

(** [TapeReader::Config]; the path is the argument of the constructor. *)
Record TapeConfig (F : Type) := mkTapeConfig {
  format : string;
  tick_size : F;
  qty_step : F;
  max_events : Z }.
Arguments mkTapeConfig {F} _ _ _ _.
Arguments format {F} _.
Arguments tick_size {F} _.
Arguments qty_step {F} _.
Arguments max_events {F} _.

Record TapeReader (F : Type) := mkTapeReader {
  tape_cfg_ : TapeConfig F;
  tape_in_ : string;
  tape_eof_ : bool;
  tape_count_ : Z;
  synth_seed_ : Z;
  synth_mid_ : Z;
  synth_ns_ : Z }.
Arguments mkTapeReader {F} _ _ _ _ _ _ _.
Arguments tape_cfg_ {F} _.
Arguments tape_in_ {F} _.
Arguments tape_eof_ {F} _.
Arguments tape_count_ {F} _.
Arguments synth_seed_ {F} _.
Arguments synth_mid_ {F} _.
Arguments synth_ns_ {F} _.

Definition is_binance {F} (cfg : TapeConfig F) : bool := bool_decide (format cfg = "binance").

(** [file] is the contents of the file, if it can be opened. *)
Definition TapeReader_new {F} (cfg : TapeConfig F) (file : option string) : result (TapeReader F) :=
  if is_binance cfg then
    match file with
    | Some s => Ok (mkTapeReader cfg s false 0 12648430 100000 0)
    | None => Err Thrown
    end
  else Ok (mkTapeReader cfg EmptyString false 0 12648430 100000 0).

(** ** The CSV reader *)

Section Binance.
Context {F : Type} `{!Double F} `{!DoubleCast F} `{!DoubleText F}.
Implicit Types (cfg : TapeConfig F) (r : TapeReader F).

Definition stod (s : string) : result F :=
  match d_parse s with Some x => Ok x | None => Err Thrown end.

Definition to_ticks cfg (s : string) : result Z :=
  if bool_decide (s = EmptyString) then Ok Price_INVALID
  else let* x := stod s in llround (x / tick_size cfg)%D.

Definition to_lots cfg (s : string) : result Z :=
  if bool_decide (s = EmptyString) then Ok Qty_INVALID
  else let* x := stod s in cast_uint32 (d_max (d_of_Z 1) (d_round (x / qty_step cfg)%D)).

Definition first_char_in (cs : list ascii) (s : string) : bool :=
  match s with String c _ => bool_decide (c ∈ cs) | EmptyString => false end.

(** Eight fields are required; a line with fewer is skipped. *)
Fixpoint take_fields (n : nat) (ss : string) : option (list string * string) :=
  match n with
  | O => Some ([], ss)
  | S n =>
      match getline COMMA ss with
      | None => None
      | Some (f, ss) =>
          match take_fields n ss with
          | None => None
          | Some (fs, ss) => Some (f :: fs, ss)
          end
      end
  end.

(** The body of the loop; no event means [continue]. *)
Definition parse_line cfg (line : string) : result (option TapeEvent) :=
  if bool_decide (line = EmptyString) then Ok None
  else if first_char_in ["#"%char; "t"%char] line then Ok None
  else match take_fields 8 line with
  | Some ([ts_str; kind; p_str; q_str; bp_str; bq_str; ap_str; aq_str], ss) =>
      let (ibm_str, _) := getline_or_empty COMMA ss in
      let* ts_ns := stoll ts_str in
      if bool_decide (kind = "B") then
        let* bp := to_ticks cfg bp_str in
        let* bq := to_lots cfg bq_str in
        let* ap := to_ticks cfg ap_str in
        let* aq := to_lots cfg aq_str in
        Ok (Some (BookTop (mkBookTopEvent ts_ns bp bq ap aq)))
      else if bool_decide (kind = "T") then
        let buyer_maker := first_char_in ["t"%char; "1"%char] ibm_str in
        let side := if buyer_maker then SELL else BUY in
        let* p := to_ticks cfg p_str in
        let* q := to_lots cfg q_str in
        Ok (Some (Trade (mkTradeEvent ts_ns p q side)))
      else Ok None
  | _ => Ok None
  end.

(** The loop over the lines; every line consumes at least one character. *)
Fixpoint scan_lines (fuel : nat) cfg (s : string) : result (option TapeEvent * string) :=
  match getline NEWLINE s with
  | None => Ok (None, s)
  | Some (line, s) =>
      match fuel with
      | O => Err OutOfFuel
      | S fuel =>
          let* ev := parse_line cfg line in
          match ev with
          | Some ev => Ok (Some ev, s)
          | None => scan_lines fuel cfg s
          end
      end
  end.

Definition nextBinance r : result (option TapeEvent * TapeReader F) :=
  let* (ev, s) := scan_lines (String.length (tape_in_ r)) (tape_cfg_ r) (tape_in_ r) in
  Ok (ev, mkTapeReader (tape_cfg_ r) s (match ev with Some _ => tape_eof_ r | None => true end) (tape_count_ r)
            (synth_seed_ r) (synth_mid_ r) (synth_ns_ r)).
End Binance.

(** ** The synthetic tape *)

(** xorshift64*: the value and the new state. *)
Definition rng (seed : Z) : Z * Z :=
  let x := seed in
  let x := Z.lxor x (Z.shiftr x 12) in
  let x := Z.lxor x (u64 (Z.shiftl x 25)) in
  let x := Z.lxor x (Z.shiftr x 27) in
  (u64 (x * 2685821657736338717), x).

Definition kAnchor : Z := 100000.
Definition kBandHalf : Z := 100.

(** [std::log] of the C library. *)
Class DoubleLog (F : Type) := d_log : F → F.

Section Synth.
Context {F : Type} `{!Double F} `{!DoubleCast F} `{!DoubleLog F}.
Implicit Types (r : TapeReader F).

Definition uniform (lo hi : F) (seed : Z) : F * Z :=
  let (x, seed) := rng seed in
  (lo + (hi - lo) * (d_of_Z (Z.shiftr x 11) / d_of_Z (Z.shiftl 1 53)), seed)%D.

(** [uniform(0.0, 1.0) < n / d]. *)
Definition chance (n d : Z) (seed : Z) : bool * Z :=
  let (x, seed) := uniform (d_of_Z 0) (d_of_Z 1) seed in
  ((x <? d_of_Z n / d_of_Z d)%D, seed).

(** [if (uniform < n/d) mid += (uniform < 0.5) ? +step : -step]. *)
Definition random_step (n d step : Z) (mid seed : Z) : result (Z * Z) :=
  let (hit, seed) := chance n d seed in
  if hit then
    let (up, seed) := chance 5 10 seed in
    let* mid := int64 (mid + (if up then step else - step)) in Ok (mid, seed)
  else Ok (mid, seed).

(** The pull towards the anchor and the clamp. *)
Definition pull_and_clamp (mid : Z) : result Z :=
  let* d := int64 (mid - kAnchor) in
  let* mid := int64 (mid - Z.quot d 64) in
  let mid := if mid <? kAnchor - kBandHalf then kAnchor - kBandHalf else mid in
  Ok (if kAnchor + kBandHalf <? mid then kAnchor + kBandHalf else mid).

(** [static_cast<Qty>(1 + (rng() % n))]. *)
Definition random_qty (n : Z) (seed : Z) : Z * Z :=
  let (x, seed) := rng seed in (u32 (u64 (1 + x `mod` n)), seed).

Definition nextSynth r : result (option TapeEvent * TapeReader F) :=
  if 200000 <=? tape_count_ r then
    Ok (None, mkTapeReader (tape_cfg_ r) (tape_in_ r) true (tape_count_ r) (synth_seed_ r) (synth_mid_ r) (synth_ns_ r))
  else
    let (u, seed) := uniform (d_of_Z 0) (d_of_Z 1) (synth_seed_ r) in
    let u := d_max (d_of_Z 1 / d_of_Z 1000000000)%D u in
    let* dt_ns := cast_int64 (d_opp (d_log u) * d_of_Z 50000)%D in
    let* ns := int64 (synth_ns_ r + dt_ns) in
    let* (mid, seed) := random_step 55 100 1 (synth_mid_ r) seed in
    let* (mid, seed) := random_step 2 1000 5 mid seed in
    let* mid := pull_and_clamp mid in
    let (is_trade, seed) := chance 55 100 seed in
    if is_trade then
      let (buy, seed) := chance 5 10 seed in
      let side := if buy then BUY else SELL in
      let* px := int64 (mid + (if buy then 1 else -1)) in
      let (qty, seed) := random_qty 4 seed in
      Ok (Some (Trade (mkTradeEvent ns px qty side)),
          mkTapeReader (tape_cfg_ r) (tape_in_ r) (tape_eof_ r) (tape_count_ r) seed mid ns)
    else
      let (bid_qty, seed) := random_qty 3 seed in
      let (ask_qty, seed) := random_qty 3 seed in
      let* bid := int64 (mid - 1) in
      let* ask := int64 (mid + 1) in
      Ok (Some (BookTop (mkBookTopEvent ns bid bid_qty ask ask_qty)),
          mkTapeReader (tape_cfg_ r) (tape_in_ r) (tape_eof_ r) (tape_count_ r) seed mid ns).
End Synth.

(** ** [next] *)

Section Next.
Context {F : Type} `{!Double F} `{!DoubleCast F} `{!DoubleLog F} `{!DoubleText F}.
Implicit Types (r : TapeReader F).

Definition set_eof r : TapeReader F :=
  mkTapeReader (tape_cfg_ r) (tape_in_ r) true (tape_count_ r) (synth_seed_ r) (synth_mid_ r) (synth_ns_ r).

Definition set_count (n : Z) r : TapeReader F :=
  mkTapeReader (tape_cfg_ r) (tape_in_ r) (tape_eof_ r) n (synth_seed_ r) (synth_mid_ r) (synth_ns_ r).

Definition next r : result (option TapeEvent * TapeReader F) :=
  if tape_eof_ r then Ok (None, r)
  else if negb (max_events (tape_cfg_ r) =? 0) && (max_events (tape_cfg_ r) <=? tape_count_ r)
  then Ok (None, set_eof r)
  else
    let* (ev, r) := (if is_binance (tape_cfg_ r) then nextBinance r else nextSynth r) in
    Ok (ev, match ev with Some _ => set_count (u64 (tape_count_ r + 1)) r | None => r end).

(** Everything the tape yields; [n] bounds the number of calls. *)
Fixpoint read_tape (n : nat) r : result (list TapeEvent) :=
  match n with
  | O => Err OutOfFuel
  | S n =>
      let* (ev, r) := next r in
      match ev with
      | None => Ok []
      | Some ev => let* evs := read_tape n r in Ok (ev :: evs)
      end
  end.
End Next.
