(* ===== verification/TapeProofs.v ===== *)
(** * What the tape readers deliver.

    Lemmas on Tape.v, in exact arithmetic: a tape in the layout that
    src/scripts/merge_binance.py writes ([print_tape]) is read back
    ([read_tape_roundtrip]), and the synthetic tape has the promised length,
    stays within a tick of its price band and runs forward in time ([read_synth_ok]). *)

From Stdlib Require Import Ascii String QArith Qcanon.
From stdpp Require Import numbers strings pretty sorting list.
From S2P Require Import Prelude Types BookSpec Double Logging Parse Tape.

Open Scope Z_scope.

(** ** The loop over the lines ends *)

Section Scan.
Context {F : Type} `{!Double F} `{!DoubleCast F} `{!DoubleText F}.

Lemma fueled_stod s : fueled (stod (F:=F) s).
Proof. unfold stod. fuel_step. Qed.

Lemma fueled_llround (x : F) : fueled (llround x).
Proof. unfold llround, cast_int64, int64. fuel_step. Qed.
#[local] Hint Resolve fueled_stod fueled_llround : fuel.

Lemma fueled_parse_line (cfg : TapeConfig F) line : fueled (parse_line cfg line).
Proof.
  unfold parse_line, to_ticks, to_lots, stoll, cast_uint32. fuel_step.
Qed.

(** As many iterations as characters are enough. *)
Lemma scan_lines_fuel n (cfg : TapeConfig F) s :
  (String.length s ≤ n)%nat → fueled (scan_lines n cfg s).
Proof.
  revert s. induction n as [|n IH]; intros s Hs; cbn [scan_lines].
  - destruct s; [done|simpl in Hs; lia].
  - destruct (getline NEWLINE s) as [[line rest]|] eqn:Eg; [|done]. apply getline_length in Eg.
    apply fueled_bind; [apply fueled_parse_line|]. intros [ev|] _; [done|]. apply IH. lia.
Qed.

(** [nextBinance] returns an event, the end of the tape, or throws. *)
Lemma nextBinance_fuel (r : TapeReader F) : fueled (nextBinance r).
Proof. unfold nextBinance. apply fueled_bind; [by apply scan_lines_fuel|]. by intros [ev s] _. Qed.
End Scan.
#[export] Hint Resolve fueled_stod fueled_llround : fuel.

(** ** The synthetic tape *)

(** The clamp keeps the mid-price within [kBandHalf] of the anchor; quotes and trades
    are one tick away from it, so a price can be one tick beyond the band. *)
Definition in_band (p : Z) : Prop := kAnchor - kBandHalf - 1 ≤ p ≤ kAnchor + kBandHalf + 1.

(** A two-tick market of one to three lots, or a trade of one to four lots, in
    the band. *)
Definition synth_event_ok (ev : TapeEvent) : Prop :=
  match ev with
  | BookTop b => in_band (b_bid_price b) ∧ in_band (b_ask_price b) ∧ b_ask_price b = b_bid_price b + 2
      ∧ 1 ≤ b_bid_qty b ≤ 3 ∧ 1 ≤ b_ask_qty b ≤ 3
  | Trade t => in_band (t_price t) ∧ 1 ≤ t_qty t ≤ 4 ∧ proper_side (t_side t)
  end.

(** What is used of the logarithm on the values the tape takes it of. *)
Definition log_bounds (log : Qc → Qc) : Prop :=
  ∀ u, (d_of_Z 1 / d_of_Z 1000000000 <= u)%D%Qc → (u <= 1)%Qc → (Qc_of_Z (-21) <= log u)%Qc ∧ (log u <= 0)%Qc.

Lemma rng_range seed : 0 ≤ (rng seed).1 < 2 ^ 64.
Proof. unfold rng. cbn [fst]. unfold wrap. apply Z.mod_pos_bound. lia. Qed.

Lemma random_qty_range n seed : 0 < n < 2 ^ 31 → 1 ≤ (random_qty n seed).1 ≤ n.
Proof.
  intros Hn. unfold random_qty. destruct (rng seed) as [x seed']. cbn [fst].
  pose proof (Z.mod_pos_bound x n ltac:(lia)). unfold wrap. rewrite (Z.mod_small (1 + _) (2 ^ 64)), (Z.mod_small _ (2 ^ 32)); lia.
Qed.

Lemma pull_and_clamp_ok mid :
  kAnchor - kBandHalf - 6 ≤ mid ≤ kAnchor + kBandHalf + 6 →
  ∃ mid', pull_and_clamp mid = Ok mid' ∧ kAnchor - kBandHalf ≤ mid' ≤ kAnchor + kBandHalf.
Proof.
  unfold kAnchor, kBandHalf. intros Hm. unfold pull_and_clamp, kAnchor, kBandHalf.
  rewrite int64_ok by lia. cbn [rbind].
  assert (-2 ≤ Z.quot (mid - 100000) 64 ≤ 2) as Hq.
  { pose proof (Z.quot_rem' (mid - 100000) 64). pose proof (Z.rem_bound_abs (mid - 100000) 64 ltac:(lia)). lia. }
  rewrite int64_ok by lia. cbn [rbind]. eexists. split; [done|].
  destruct (Z.ltb_spec (mid - Z.quot (mid - 100000) 64) (100000 - 100)); [simpl; lia|].
  destruct (Z.ltb_spec (100000 + 100) (mid - Z.quot (mid - 100000) 64)); lia.
Qed.

Section SynthOk.
Context `{!DoubleLog Qc}.
Implicit Types (r : TapeReader Qc).

Lemma uniform_unit seed : (0 <= (uniform (F:=Qc) (d_of_Z 0) (d_of_Z 1) seed).1 <= 1)%Qc.
Proof.
  unfold uniform. pose proof (rng_range seed) as Hr. destruct (rng seed) as [x seed']. cbn [fst] in *.
  cbn [d_add d_sub d_mul d_div d_of_Z Qc_Double]. rewrite Qc_of_Z_0, Qc_of_Z_1.
  assert (0 <= Qc_of_Z (Z.shiftr x 11) / Qc_of_Z (Z.shiftl 1 53) <= 1)%Qc as Hq.
  { apply Qc_div_between; rewrite <- ?Qc_of_Z_0; [by apply Qc_of_Z_lt|].
    rewrite Z.shiftr_div_pow2 by lia.
    split; apply Qc_of_Z_le; [apply Z.div_pos; lia|]. change (Z.shiftl 1 53) with (2 ^ 53).
    apply Z.lt_le_incl, Z.div_lt_upper_bound; lia. }
  replace (0 + (1 - 0) * (Qc_of_Z (Z.shiftr x 11) / Qc_of_Z (Z.shiftl 1 53)))%Qc
    with (Qc_of_Z (Z.shiftr x 11) / Qc_of_Z (Z.shiftl 1 53))%Qc by ring. done.
Qed.

Lemma random_step_ok n d step mid seed :
  0 ≤ step ≤ 100 → Z.abs mid ≤ 2 ^ 62 →
  ∃ mid' seed', random_step (F:=Qc) n d step mid seed = Ok (mid', seed') ∧ Z.abs (mid' - mid) ≤ step.
Proof.
  intros Hs Hm. unfold random_step. destruct (chance n d seed) as [hit seed1]. destruct hit.
  - destruct (chance 5 10 seed1) as [up seed2]. rewrite int64_ok by (destruct up; lia). cbn [rbind].
    eexists _, _. split; [done|]. destruct up; lia.
  - eexists _, _. split; [done|]. lia.
Qed.

Lemma dt_ok u :
  log_bounds d_log → (0 <= u <= 1)%Qc →
  ∃ dt, cast_int64 (d_opp (d_log (d_max (d_of_Z 1 / d_of_Z 1000000000) u)) * d_of_Z 50000)%D = Ok dt
    ∧ 0 ≤ dt ≤ 1050000.
Proof.
  intros Hlog [Hu0 Hu1]. set (v := d_max _ _).
  destruct (Hlog v) as [Hl0 Hl1].
  { apply Qc_max_spec. }
  { apply Qc_max_spec; [|done]. done. }
  cbn [d_mul d_opp d_of_Z Qc_Double].
  assert (0 <= - d_log v)%Qc as Hn by qc_lra. assert (0 <= Qc_of_Z 50000)%Qc as Hk by done.
  assert (- d_log v <= Qc_of_Z 21)%Qc as Hn2 by (change (Qc_of_Z (-21)) with (- Qc_of_Z 21)%Qc in Hl0; qc_lra).
  pose proof (Qcmult_le_compat_r _ _ _ Hn Hk) as Hm0. rewrite Qcmult_0_l in Hm0.
  pose proof (Qcmult_le_compat_r _ _ _ Hn2 Hk) as Hm1. rewrite <- Qc_of_Z_mul in Hm1.
  destruct (Qc_trunc (- d_log v * Qc_of_Z 50000)%Qc 0 (21 * 50000)) as (z & Hz & Hb); [done|by rewrite Qc_of_Z_0|done|].
  exists z. unfold cast_int64. rewrite Hz, int64_ok by lia. done.
Qed.

(** The state between two events. *)
Record synth_state r : Prop := {
  ss_mid : kAnchor - kBandHalf ≤ synth_mid_ r ≤ kAnchor + kBandHalf;
  ss_count : 0 ≤ tape_count_ r ≤ 200000;
  ss_ns : 0 ≤ synth_ns_ r ≤ 1050000 * tape_count_ r }.

Lemma nextSynth_ok r :
  log_bounds d_log → synth_state r → tape_count_ r < 200000 →
  ∃ ev r', nextSynth r = Ok (Some ev, r') ∧ synth_event_ok ev
    ∧ synth_ns_ r ≤ event_ns ev ≤ 1050000 * (tape_count_ r + 1) ∧ event_ns ev = synth_ns_ r'
    ∧ kAnchor - kBandHalf ≤ synth_mid_ r' ≤ kAnchor + kBandHalf
    ∧ tape_cfg_ r' = tape_cfg_ r ∧ tape_count_ r' = tape_count_ r ∧ tape_eof_ r' = tape_eof_ r.
Proof.
  intros Hlog [Hmid Hcount Hns] Hlt. unfold nextSynth. rewrite (proj2 (Z.leb_gt _ _)) by lia.
  pose proof (uniform_unit (synth_seed_ r)) as Hu.
  destruct (uniform (d_of_Z 0) (d_of_Z 1) (synth_seed_ r)) as [u seed0]. cbn [fst] in Hu.
  destruct (dt_ok u Hlog Hu) as (dt & Hdt & Hdtb). rewrite Hdt. cbn [rbind].
  rewrite (int64_ok (synth_ns_ r + dt)) by lia. cbn [rbind]. unfold kAnchor, kBandHalf in Hmid.
  destruct (random_step_ok 55 100 1 (synth_mid_ r) seed0) as (m1 & s1 & -> & Hm1); [lia..|]. cbn [rbind].
  destruct (random_step_ok 2 1000 5 m1 s1) as (m2 & s2 & -> & Hm2); [lia..|]. cbn [rbind].
  destruct (pull_and_clamp_ok m2) as (m3 & -> & Hm3); [unfold kAnchor, kBandHalf; lia|]. cbn [rbind].
  destruct (chance 55 100 s2) as [is_trade s3]. unfold kAnchor, kBandHalf in Hm3. destruct is_trade.
  - destruct (chance 5 10 s3) as [buy s4]. rewrite int64_ok by (destruct buy; lia). cbn [rbind].
    pose proof (random_qty_range 4 s4 ltac:(lia)) as Hq. destruct (random_qty 4 s4) as [qty s5]. cbn [fst] in Hq.
    eexists _, _. split; [done|]. cbn [event_ns synth_event_ok t_event_ns t_price t_qty t_side synth_ns_ synth_mid_ tape_cfg_ tape_count_ tape_eof_].
    unfold in_band, kAnchor, kBandHalf. split_and!; try done; try lia; try (destruct buy; lia).
    destruct buy; [by left|by right].
  - pose proof (random_qty_range 3 s3 ltac:(lia)) as Hq. destruct (random_qty 3 s3) as [bq s4]. cbn [fst] in Hq.
    pose proof (random_qty_range 3 s4 ltac:(lia)) as Hq'. destruct (random_qty 3 s4) as [aq s5]. cbn [fst] in Hq'.
    rewrite !int64_ok by lia. cbn [rbind]. eexists _, _. split; [done|].
    cbn [event_ns synth_event_ok b_event_ns b_bid_price b_ask_price b_bid_qty b_ask_qty synth_ns_ synth_mid_ tape_cfg_ tape_count_ tape_eof_].
    unfold in_band, kAnchor, kBandHalf. split_and!; try done; lia.
Qed.

(** How many events the configuration allows. *)
Definition synth_limit (cfg : TapeConfig Qc) : Z :=
  if max_events cfg =? 0 then 200000 else Z.min (max_events cfg) 200000.

Lemma next_synth_ok `{!DoubleText Qc} r :
  log_bounds d_log → is_binance (tape_cfg_ r) = false → synth_state r → tape_eof_ r = false →
  tape_count_ r < synth_limit (tape_cfg_ r) →
  ∃ ev r', next r = Ok (Some ev, r') ∧ synth_event_ok ev ∧ synth_ns_ r ≤ event_ns ev ∧ event_ns ev = synth_ns_ r'
    ∧ synth_state r' ∧ tape_cfg_ r' = tape_cfg_ r ∧ tape_count_ r' = tape_count_ r + 1 ∧ tape_eof_ r' = false.
Proof.
  intros Hlog Hb Hs He Hlt. pose proof Hs as [_ Hc Hn0]. unfold synth_limit in Hlt.
  destruct (nextSynth_ok r Hlog Hs) as (ev & r' & Hn & Hev & Hns & Heq & Hmid & Hcfg & Hcnt & Heof).
  { destruct (_ =? 0); lia. }
  unfold next. rewrite He, Hb, Hn. cbn [rbind].
  replace (negb _ && _) with false.
  2: { destruct (Z.eqb_spec (max_events (tape_cfg_ r)) 0) as [|Hne]; [done|]. simpl. symmetry. apply Z.leb_gt. lia. }
  eexists _, _. split; [done|]. cbn [synth_ns_ set_count tape_cfg_ tape_count_ tape_eof_].
  assert (u64 (tape_count_ r' + 1) = tape_count_ r + 1) as Hu.
  { rewrite Hcnt. unfold wrap. apply Z.mod_small. destruct (_ =? 0) in Hlt; lia. }
  rewrite Hu. split_and!; try done; [lia| |congruence].
  split; cbn [synth_mid_ set_count tape_count_ synth_ns_]; rewrite ?Hu; [done| |lia]. destruct (_ =? 0) in Hlt; lia.
Qed.

Definition no_earlier (x y : TapeEvent) : Prop := event_ns x ≤ event_ns y.

Lemma read_synth_ok `{!DoubleText Qc} n r :
  log_bounds d_log → is_binance (tape_cfg_ r) = false → synth_state r → tape_eof_ r = false →
  tape_count_ r + Z.of_nat n = synth_limit (tape_cfg_ r) →
  ∃ evs, read_tape (S n) r = Ok evs ∧ length evs = n ∧ Forall synth_event_ok evs
    ∧ Forall (λ ev, synth_ns_ r ≤ event_ns ev) evs ∧ StronglySorted no_earlier evs.
Proof.
  intros Hlog. revert r. induction n as [|n IH]; intros r Hb Hs He Hn.
  - exists []. split_and!; try constructor. cbn [read_tape]. unfold next. rewrite He, Hb. unfold synth_limit in Hn.
    destruct (Z.eqb_spec (max_events (tape_cfg_ r)) 0) as [|Hne]; simpl.
    + unfold nextSynth. by rewrite (proj2 (Z.leb_le _ _)) by lia.
    + destruct (Z.leb_spec (max_events (tape_cfg_ r)) (tape_count_ r)); [done|]. simpl.
      unfold nextSynth. by rewrite (proj2 (Z.leb_le _ _)) by lia.
  - destruct (next_synth_ok r Hlog Hb Hs He ltac:(lia)) as (ev & r' & Hnx & Hev & Hns & Heq & Hs' & Hcfg & Hcnt & He').
    destruct (IH r') as (evs & Hr & Hlen & Hok & Hle & Hsort); [by rewrite Hcfg|done|done|rewrite Hcfg; lia|].
    exists (ev :: evs).
    change (read_tape (S (S n)) r) with (let* (ev, r) := next r in
      match ev with None => Ok [] | Some ev => let* evs := read_tape (S n) r in Ok (ev :: evs) end).
    rewrite Hnx. cbn [rbind]. rewrite Hr. cbn [rbind]. rewrite <- Heq in Hle.
    split_and!; [done|by simpl; lia|by constructor| |].
    + constructor; [done|]. eapply Forall_impl; [exact Hle|]. intros x. cbv beta. lia.
    + by constructor.
Qed.
End SynthOk.

(** ** Writing a tape and reading it back *)

(** The file that scripts/merge_binance.py writes with Python's [csv.writer]: nine
    columns, empty where a kind of row has no value, lines that end in CR LF, and a
    header.  The numbers are those of the input files; here they are integers. *)
Definition CR : ascii := "013"%char.

Definition field (s : string) : string := s +:+ String COMMA EmptyString.

(** The row of an event up to its line feed. *)
Definition print_event (ev : TapeEvent) : string :=
  match ev with
  | BookTop b => concat_strings
      [field (pretty (b_event_ns b)); field "B"; field ""; field ""; field (pretty (b_bid_price b));
       field (pretty (b_bid_qty b)); field (pretty (b_ask_price b)); field (pretty (b_ask_qty b));
       String CR EmptyString]
  | Trade t => concat_strings
      [field (pretty (t_event_ns t)); field "T"; field (pretty (t_price t)); field (pretty (t_qty t)); field "";
       field ""; field ""; field ""; String (if bool_decide (t_side t = SELL) then "1"%char else "0"%char) (String CR EmptyString)]
  end.

Definition print_rows (evs : list TapeEvent) : string :=
  concat_strings ((λ ev, print_event ev +:+ String NEWLINE EmptyString) <$> evs).

Definition tape_header : string :=
  "ts_ns,kind,price,qty,bid_price,bid_qty,ask_price,ask_qty,is_buyer_maker" +:+ String CR EmptyString.

Definition print_tape (evs : list TapeEvent) : string := tape_header +:+ String NEWLINE (print_rows evs).

(** Integers in their ranges; a quantity is at least one lot. *)
Definition price_fits (p : Z) : Prop := - 2 ^ 63 ≤ p < 2 ^ 63.
Definition qty_fits (q : Z) : Prop := 1 ≤ q < 2 ^ 32.
Definition printable (ev : TapeEvent) : Prop :=
  match ev with
  | BookTop b => price_fits (b_event_ns b) ∧ price_fits (b_bid_price b) ∧ qty_fits (b_bid_qty b)
      ∧ price_fits (b_ask_price b) ∧ qty_fits (b_ask_qty b)
  | Trade t => price_fits (t_event_ns t) ∧ price_fits (t_price t) ∧ qty_fits (t_qty t) ∧ proper_side (t_side t)
  end.

Section RoundTrip.
Context `{!DoubleText Qc}.
Implicit Types (cfg : TapeConfig Qc) (r : TapeReader Qc) (rest : string).

(** [std::stod] reads integers. *)
Definition parses_integers : Prop := ∀ z : Z, d_parse (pretty z) = Some (Qc_of_Z z).

Record unit_steps cfg : Prop := {
  us_tick : tick_size cfg = 1%Qc;
  us_qty : qty_step cfg = 1%Qc }.

Lemma Qc_div_1 (x : Qc) : (x / 1)%Qc = x.
Proof. unfold Qcdiv. replace (/ 1)%Qc with 1%Qc by by apply Qc_is_canon. ring. Qed.

Lemma to_ticks_pretty cfg p : parses_integers → unit_steps cfg → price_fits p → to_ticks cfg (pretty p) = Ok p.
Proof.
  intros Hp [Ht _] Hf. unfold to_ticks, stod. rewrite bool_decide_false by apply pretty_not_empty.
  rewrite Hp. cbn [rbind d_div Qc_Double]. rewrite Ht, Qc_div_1. by apply llround_of_Z.
Qed.

Lemma to_lots_pretty cfg q : parses_integers → unit_steps cfg → qty_fits q → to_lots cfg (pretty q) = Ok q.
Proof.
  intros Hp [_ Hq] Hf. unfold qty_fits in Hf. unfold to_lots, stod. rewrite bool_decide_false by apply pretty_not_empty.
  rewrite Hp. cbn [rbind d_div Qc_Double]. rewrite Hq, Qc_div_1, d_round_of_Z.
  assert (d_max (d_of_Z 1) (Qc_of_Z q) = Qc_of_Z q) as ->.
  { unfold d_max. cbn [d_ltb d_of_Z Qc_Double]. destruct (Qc_ltb_spec (Qc_of_Z 1) (Qc_of_Z q)) as [H|H]; [done|].
    f_equal. destruct (decide (1 < q)) as [Hlt|]; [|lia]. by apply Qc_of_Z_lt, Qclt_not_le in Hlt. }
  unfold cast_uint32. rewrite d_to_Z_of_Z. by rewrite (proj2 (Z.leb_le _ _)), (proj2 (Z.ltb_lt _ _)) by lia.
Qed.

Lemma getline_comma f s : free_of COMMA f = true → getline COMMA (field f +:+ s) = Some (f, s).
Proof.
  intros Hf. unfold field. rewrite <- (assoc_L String.append).
  change (String COMMA EmptyString +:+ s) with (String COMMA s). by apply getline_field.
Qed.

Lemma take_fields_cons n f s :
  free_of COMMA f = true →
  take_fields (S n) (field f +:+ s)
  = match take_fields n s with Some (fs, ss) => Some (f :: fs, ss) | None => None end.
Proof. intros Hf. cbn [take_fields]. by rewrite getline_comma. Qed.

Lemma comma_free (z : Z) : free_of COMMA (pretty z) = true.
Proof. by apply free_of_pretty. Qed.

Lemma newline_free (z : Z) : free_of NEWLINE (pretty z) = true.
Proof. by apply free_of_pretty. Qed.

Lemma print_event_newline ev : free_of NEWLINE (print_event ev) = true.
Proof.
  destruct ev; unfold print_event, concat_strings, field; cbn [foldr];
    rewrite !free_of_app, !newline_free; [done|]. by case_bool_decide.
Qed.

(** A printed number starts a line that is neither empty nor a header. *)
Lemma pretty_line (z : Z) s :
  pretty z +:+ s ≠ EmptyString ∧ first_char_in ["#"%char; "t"%char] (pretty z +:+ s) = false.
Proof.
  pose proof (free_of_pretty "#" z eq_refl ltac:(done)) as H1.
  pose proof (free_of_pretty "t" z eq_refl ltac:(done)) as H2.
  pose proof (pretty_not_empty z) as H3. destruct (pretty z) as [|c t]; [done|]. split; [done|].
  cbn [free_of] in H1, H2. apply andb_prop in H1 as [H1%bool_decide_eq_true _].
  apply andb_prop in H2 as [H2%bool_decide_eq_true _]. apply bool_decide_false.
  by intros [?|[?|[]%elem_of_nil]%elem_of_cons]%elem_of_cons.
Qed.

Lemma parse_print cfg ev : parses_integers → unit_steps cfg → printable ev → parse_line cfg (print_event ev) = Ok (Some ev).
Proof.
  intros Hp Hu Hev. unfold parse_line.
  assert (∃ (z : Z) s, print_event ev = pretty z +:+ s) as (z & s & E).
  { destruct ev; unfold print_event, concat_strings, field; cbn [foldr]; rewrite <- (assoc_L String.append); by eexists _, _. }
  destruct (pretty_line z s) as [H1 H2]. rewrite <- E in H1, H2. rewrite bool_decide_false, H2 by done. clear z s E H1 H2.
  destruct ev as [b|t]; unfold print_event, concat_strings; cbn [foldr]; rewrite !string_app_empty_r.
  - destruct Hev as (H1 & H2 & H3 & H4 & H5). rewrite !take_fields_cons by (done || apply comma_free).
    cbn [take_fields]. destruct (getline_or_empty _ _) as [ibm ?]. rewrite stoll_pretty by done. cbn [rbind].
    rewrite bool_decide_true by done. rewrite !to_ticks_pretty, !to_lots_pretty by done. cbn [rbind]. by destruct b.
  - destruct Hev as (H1 & H2 & H3 & H4). rewrite !take_fields_cons by (done || apply comma_free).
    cbn [take_fields]. rewrite stoll_pretty by done.
    rewrite to_ticks_pretty, to_lots_pretty by done.
    destruct t as [ns px q side]; cbn [t_event_ns t_price t_qty t_side] in *. destruct H4 as [-> | ->]; done.
Qed.

Lemma scan_print cfg fuel ev rest :
  parses_integers → unit_steps cfg → printable ev →
  scan_lines (S fuel) cfg (print_event ev +:+ String NEWLINE rest) = Ok (Some ev, rest).
Proof.
  intros Hp Hu Hev. cbn [scan_lines]. rewrite getline_field by apply print_event_newline.
  by rewrite parse_print.
Qed.

Lemma scan_header cfg fuel rest :
  scan_lines (S fuel) cfg (tape_header +:+ String NEWLINE rest) = scan_lines fuel cfg rest.
Proof. cbn [scan_lines]. by rewrite getline_field. Qed.

Lemma print_rows_cons ev evs : print_rows (ev :: evs) = print_event ev +:+ String NEWLINE (print_rows evs).
Proof. unfold print_rows. rewrite fmap_cons. unfold concat_strings. cbn [foldr]. by rewrite <- (assoc_L String.append). Qed.

Context `{!DoubleLog Qc}.

(** Between two events the reader is at a row, at the start at the header. *)
Definition at_rows (s : string) (evs : list TapeEvent) : Prop := s = print_rows evs ∨ s = print_tape evs.

Lemma scan_rows cfg s ev evs :
  parses_integers → unit_steps cfg → printable ev → at_rows s (ev :: evs) →
  scan_lines (String.length s) cfg s = Ok (Some ev, print_rows evs).
Proof.
  intros Hp Hu Hev Hs. assert (∃ n, String.length s = S (S n)) as [n ->].
  { destruct Hs as [->| ->]; [|by eexists]. rewrite print_rows_cons. pose proof (pretty_not_empty (event_ns ev)) as Hne.
    assert (∃ t, print_event ev = pretty (event_ns ev) +:+ t) as [t ->].
    { destruct ev; unfold print_event, concat_strings, field; cbn [foldr]; rewrite <- (assoc_L String.append); by eexists. }
    destruct (pretty (event_ns ev)) as [|c s]; [done|]. cbn. exists (pred (String.length ((s +:+ t) +:+ String NEWLINE (print_rows evs)))).
    f_equal. rewrite Nat.succ_pred; [done|]. by destruct (s +:+ t). }
  destruct Hs as [->| ->].
  - rewrite print_rows_cons. by apply scan_print.
  - unfold print_tape. rewrite scan_header, print_rows_cons. by apply scan_print.
Qed.

Lemma scan_end cfg s : at_rows s [] → scan_lines (String.length s) cfg s = Ok (None, EmptyString).
Proof. by intros [->| ->]. Qed.

Lemma next_print r ev evs :
  parses_integers → unit_steps (tape_cfg_ r) → is_binance (tape_cfg_ r) = true → max_events (tape_cfg_ r) = 0 →
  tape_eof_ r = false → at_rows (tape_in_ r) (ev :: evs) → printable ev →
  ∃ r', next r = Ok (Some ev, r') ∧ tape_cfg_ r' = tape_cfg_ r ∧ tape_eof_ r' = false ∧ tape_in_ r' = print_rows evs.
Proof.
  intros Hp Hu Hb Hm He Hin Hev. unfold next. rewrite He, Hm, Hb. cbn [Z.eqb negb andb]. unfold nextBinance.
  rewrite (scan_rows _ _ ev evs) by done. cbn [rbind]. eexists. split; [done|]. by rewrite <- He.
Qed.

(** The whole tape. *)
Lemma read_tape_roundtrip evs r :
  parses_integers → unit_steps (tape_cfg_ r) → is_binance (tape_cfg_ r) = true → max_events (tape_cfg_ r) = 0 →
  tape_eof_ r = false → at_rows (tape_in_ r) evs → Forall printable evs →
  read_tape (S (length evs)) r = Ok evs.
Proof.
  intros Hp Hu Hb Hm He Hin Hevs. revert r Hu Hb Hm He Hin.
  induction Hevs as [|ev evs Hev Hevs IH]; intros r Hu Hb Hm He Hin.
  { cbn [read_tape length]. unfold next, nextBinance. by rewrite He, Hm, Hb, scan_end. }
  destruct (next_print r ev _ Hp Hu Hb Hm He Hin Hev) as (r' & Hn & Hcfg & He' & Hin').
  change (read_tape (S (length (ev :: evs))) r) with (let* (ev, r) := next r in
      match ev with None => Ok [] | Some ev => let* evs := read_tape (S (length evs)) r in Ok (ev :: evs) end).
  rewrite Hn. cbn [rbind]. rewrite IH by (done || (by rewrite Hcfg) || (by left)). done.
Qed.
End RoundTrip.
