(* ===== verification/Lobster.v ===== *)
(** * The LOBSTER replay.

    [Backtest::LobsterReader] of src/backtest/lobster_tape_reader.{h,cpp}: each
    step reads one row of the message file and one of the orderbook file and
    turns the difference between the previous snapshot and the new one into
    market updates, one aggregate order per price level.  The order in which a
    loop over an [std::unordered_map] visits the entries is an argument,
    [iterate], one order for every loop that runs. *)

From Stdlib Require Import Ascii String.
From stdpp Require Import numbers strings pretty gmap list.
From S2P Require Import Prelude Types Double Logging Parse Tape.

Open Scope Z_scope.

Definition kAskOidOffset : Z := 600000.
Definition kSentinel : Z := 9999999990.

Definition deriveOrderbookPath (msg : string) : string :=
  match String.index 0 "message" msg with
  | Some pos => String.substring 0 pos msg +:+ "orderbook"
                +:+ String.substring (pos + 7) (String.length msg - (pos + 7)) msg
  | None => msg
  end.

(** [iterate n m]: the entries of [m] in the order of the [n]-th loop. *)
Class HashOrder := iterate : Z → gmap Z Z → list (Z * Z).

Class HashOrderLaws `{!HashOrder} : Prop := iterate_perm n m : iterate n m ≡ₚ map_to_list m.

Record LobsterConfig := mkLobsterConfig {
  lob_ticker_id : Z;
  levels : nat;
  lob_max_events : Z }.

Record LobsterReader := mkLobsterReader {
  lob_cfg_ : LobsterConfig;
  msg_in_ : string;
  ob_in_ : string;
  lob_eof_ : bool;
  lob_count_ : Z;
  next_priority_ : Z;
  prev_bid_ : gmap Z Z;
  prev_ask_ : gmap Z Z;
  pending_ : list (Z * MEMarketUpdate) }.

(** [open path] is the contents of a file that exists. *)
Definition LobsterReader_new (cfg : LobsterConfig) (message_path : string) (open : string → option string)
    : result LobsterReader :=
  match open message_path, open (deriveOrderbookPath message_path) with
  | Some msg, Some ob => Ok (mkLobsterReader cfg msg ob false 0 1 ∅ ∅ [])
  | _, _ => Err Thrown
  end.

(** ** One row of the orderbook file *)

(** At most [n] values; an empty one is the sentinel. *)
Fixpoint read_values (n : nat) (ss : string) : result (list Z) :=
  match getline COMMA ss, n with
  | Some (tok, ss), S n =>
      let* v := (if bool_decide (tok = EmptyString) then Ok kSentinel else stoll tok) in
      let* vs := read_values n ss in
      Ok (v :: vs)
  | _, _ => Ok []
  end.

Section Lobster.
Context {F : Type} `{!Double F} `{!DoubleCast F} `{!DoubleText F} `{!HashOrder}.

(** One level of a side: the price in ticks of a cent. *)
Definition read_level (price size : Z) (m : gmap Z Z) : result (gmap Z Z) :=
  let* a := int64 (Z.abs price) in
  if (a <? kSentinel) && (0 <? size) then
    let* p := llround (d_of_Z price / d_of_Z 100 : F)%D in
    Ok (<[p := u32 size]> m)
  else Ok m.

Fixpoint read_levels (v : list Z) (cur_ask cur_bid : gmap Z Z) : result (gmap Z Z * gmap Z Z) :=
  match v with
  | askP :: askS :: bidP :: bidS :: v =>
      let* cur_ask := read_level askP askS cur_ask in
      let* cur_bid := read_level bidP bidS cur_bid in
      read_levels v cur_ask cur_bid
  | _ => Ok (cur_ask, cur_bid)
  end.

(** ** The differences of a side *)

Section diffSide.
Context (tid ts : Z) (side : Side) (oid_base : Z).

Definition makeUpd (t : MarketUpdateType) (oid : Z) (px q pr : Z) : Z * MEMarketUpdate :=
  (ts, mkMEMarketUpdate t oid tid side px q pr).

Fixpoint diff_cancels (cur : gmap Z Z) (l : list (Z * Z)) : list (Z * MEMarketUpdate) :=
  match l with
  | [] => []
  | (px, _) :: l =>
      match cur !! px with
      | None => makeUpd MU_CANCEL (u64 (oid_base + px)) px 0 Priority_INVALID :: diff_cancels cur l
      | Some _ => diff_cancels cur l
      end
  end.

Fixpoint diff_adds (prev : gmap Z Z) (l : list (Z * Z)) (prio : Z) : list (Z * MEMarketUpdate) * Z :=
  match l with
  | [] => ([], prio)
  | (px, q) :: l =>
      match prev !! px with
      | None =>
          let (us, prio') := diff_adds prev l (u64 (prio + 1)) in
          (makeUpd MU_ADD (u64 (oid_base + px)) px q prio :: us, prio')
      | Some q0 =>
          let (us, prio') := diff_adds prev l prio in
          (if q0 =? q then us else makeUpd MU_MODIFY (u64 (oid_base + px)) px q Priority_INVALID :: us, prio')
      end
  end.

Definition diffSide (n : Z) (prev cur : gmap Z Z) (prio : Z) : list (Z * MEMarketUpdate) * Z :=
  let cancels := diff_cancels cur (iterate n prev) in
  let (adds, prio) := diff_adds prev (iterate (n + 1) cur) prio in
  (cancels ++ adds, prio).
End diffSide.

(** ** [fillStep] and [next] *)

(** Time, type, size, price and direction of a message row. *)
Definition parse_message (mline : string) : result (Z * Z * Z * Z * Z) :=
  let (ts_s, ss) := getline_or_empty COMMA mline in
  let (ty_s, ss) := getline_or_empty COMMA ss in
  let (_, ss) := getline_or_empty COMMA ss in
  let (sz_s, ss) := getline_or_empty COMMA ss in
  let (px_s, ss) := getline_or_empty COMMA ss in
  let (dir_s, _) := getline_or_empty COMMA ss in
  let* t := stod (F:=F) ts_s in
  let* ts := llround (t * d_of_Z 1000000000)%D in
  let* ty := stoi ty_s in
  let* sz := stoll sz_s in
  let* p := stod (F:=F) px_s in
  let* px := llround (p / d_of_Z 100)%D in
  let* dir := stoi dir_s in
  Ok (ts, ty, u32 sz, px, dir).

Definition lob_set_eof (msg ob : string) (r : LobsterReader) : LobsterReader :=
  mkLobsterReader (lob_cfg_ r) msg ob true (lob_count_ r) (next_priority_ r) (prev_bid_ r) (prev_ask_ r) (pending_ r).

Definition lob_skip (msg ob : string) (r : LobsterReader) : LobsterReader :=
  mkLobsterReader (lob_cfg_ r) msg ob (lob_eof_ r) (lob_count_ r) (next_priority_ r) (prev_bid_ r) (prev_ask_ r)
    (pending_ r).

(** The part of [fillStep] after both rows are read. *)
Definition process_rows (mline oline msg ob : string) (r : LobsterReader) : result LobsterReader :=
  let tid := lob_ticker_id (lob_cfg_ r) in
  let count := u64 (lob_count_ r + 1) in
  let* (ts, ty, msg_sz, msg_px, dir) := parse_message mline in
  let trades :=
    if (ty =? 4) || (ty =? 5) then
      let aggressor := if dir =? 1 then SELL else BUY in
      [makeUpd tid ts aggressor MU_TRADE OrderId_INVALID msg_px msg_sz Priority_INVALID]
    else [] in
  let* v := read_values (4 * levels (lob_cfg_ r)) oline in
  let* (cur_ask, cur_bid) := read_levels v ∅ ∅ in
  let (bids, prio) := diffSide tid ts BUY 0 (4 * count) (prev_bid_ r) cur_bid (next_priority_ r) in
  let (asks, prio) := diffSide tid ts SELL kAskOidOffset (4 * count + 2) (prev_ask_ r) cur_ask prio in
  Ok (mkLobsterReader (lob_cfg_ r) msg ob (lob_eof_ r) count prio cur_bid cur_ask
        (pending_ r ++ trades ++ bids ++ asks)).

Definition fillStep (r : LobsterReader) : result (bool * LobsterReader) :=
  if lob_eof_ r then Ok (false, r)
  else if negb (lob_max_events (lob_cfg_ r) =? 0) && (lob_max_events (lob_cfg_ r) <=? lob_count_ r)
  then Ok (false, lob_set_eof (msg_in_ r) (ob_in_ r) r)
  else
    match getline NEWLINE (msg_in_ r) with
    | None => Ok (false, lob_set_eof (msg_in_ r) (ob_in_ r) r)
    | Some (mline, msg) =>
        match getline NEWLINE (ob_in_ r) with
        | None => Ok (false, lob_set_eof msg (ob_in_ r) r)
        | Some (oline, ob) =>
            if bool_decide (mline = EmptyString) || bool_decide (oline = EmptyString)
            then Ok (true, lob_skip msg ob r)
            else let* r := process_rows mline oline msg ob r in Ok (true, r)
        end
    end.

(** [next]: steps until an update is pending; each step consumes a row. *)
Fixpoint lob_refill (fuel : nat) (r : LobsterReader) : result (option (Z * MEMarketUpdate) * LobsterReader) :=
  match pending_ r with
  | p :: pending =>
      Ok (Some p, mkLobsterReader (lob_cfg_ r) (msg_in_ r) (ob_in_ r) (lob_eof_ r) (lob_count_ r) (next_priority_ r)
                    (prev_bid_ r) (prev_ask_ r) pending)
  | [] =>
      match fuel with
      | O => Err OutOfFuel
      | S fuel =>
          let* (more, r) := fillStep r in
          if more : bool then lob_refill fuel r else Ok (None, r)
      end
  end.

Definition lob_next (r : LobsterReader) : result (option (Z * MEMarketUpdate) * LobsterReader) :=
  lob_refill (S (String.length (msg_in_ r))) r.
End Lobster.
