(* ===== verification/LobsterProofs.v ===== *)
(** * The LOBSTER replay rebuilds the snapshots.

    Lemmas on Lobster.v.  The updates of a step, applied to the previous levels,
    give the levels of the new snapshot, whatever order the hash tables are
    visited in ([diffSide_feeds]); and the client's book follows them, as long as
    no new level of a side is a level the other side still has
    ([process_rows_feeds], [lob_steps_client]). *)

From Stdlib Require Import Ascii String.
From stdpp Require Import numbers strings gmap sorting list.
From S2P Require Import Prelude CircList MemPool Types BookCore BookSpec BookRep BookRemove BookRefine MarketOrderBook Mirror Double Logging Parse Tape TapeProofs Lobster.

Open Scope Z_scope.
Local Coercion Z.of_nat : nat >-> Z.

(** ** Updates of one side as updates of its levels *)

Definition level_apply (u : MEMarketUpdate) (m : gmap Z Z) : gmap Z Z :=
  match mu_type_ u with
  | MU_ADD | MU_MODIFY => <[mu_price_ u := mu_qty_ u]> m
  | MU_CANCEL => delete (mu_price_ u) m
  | _ => m
  end.

Definition oid_base (s : Side) : Z := if is_buy s then 0 else kAskOidOffset.

(** What a level may be: a price the index tells apart, a 32-bit quantity. *)
Definition level_fits (p q : Z) : Prop := 0 ≤ p < ME_MAX_PRICE_LEVELS ∧ 0 ≤ q < 2 ^ 32.
Definition levels_fit (m : gmap Z Z) : Prop := map_Forall level_fits m.

(** An update of side [s] that makes sense on its levels [m], the other side
    having the levels [other]. *)
Record level_valid (s : Side) (u : MEMarketUpdate) (m other : gmap Z Z) : Prop := {
  lv_side : mu_side_ u = s;
  lv_oid : mu_order_id_ u = oid_base s + mu_price_ u;
  lv_kind : match mu_type_ u with
            | MU_ADD => m !! mu_price_ u = None ∧ other !! mu_price_ u = None
                ∧ level_fits (mu_price_ u) (mu_qty_ u)
                ∧ Z.of_nat (size m + size other) + 1 < ME_MAX_PRICE_LEVELS
            | MU_MODIFY => is_Some (m !! mu_price_ u) ∧ 0 ≤ mu_qty_ u < 2 ^ 32
            | MU_CANCEL => is_Some (m !! mu_price_ u)
            | _ => False
            end }.

Fixpoint level_feeds (s : Side) (us : list MEMarketUpdate) (m other m' : gmap Z Z) : Prop :=
  match us with
  | [] => m = m'
  | u :: us => level_valid s u m other ∧ level_feeds s us (level_apply u m) other m'
  end.

Lemma level_feeds_app s us1 us2 m1 m2 m3 other :
  level_feeds s us1 m1 other m2 → level_feeds s us2 m2 other m3 → level_feeds s (us1 ++ us2) m1 other m3.
Proof. revert m1. induction us1 as [|u us1 IH]; intros m1; simpl; [by intros ->|]. intros [Hv H1] H2. eauto. Qed.

(** ** The differences are right *)

Section Diff.
Context `{!HashOrder} {Hlaws : HashOrderLaws} (tid ts : Z) (s : Side) (other : gmap Z Z).
Implicit Types (m prev cur : gmap Z Z) (l : list (Z * Z)).

Lemma oid_of_level p : proper_side s → 0 ≤ p < ME_MAX_PRICE_LEVELS → u64 (oid_base s + p) = oid_base s + p.
Proof.
  intros [-> | ->] Hp; unfold oid_base, kAskOidOffset, ME_MAX_PRICE_LEVELS, wrap in *; simpl; apply Z.mod_small; lia.
Qed.

Lemma diff_cancels_feeds cur l m :
  proper_side s → NoDup l.*1 → (∀ p q, (p, q) ∈ l → is_Some (m !! p) ∧ 0 ≤ p < ME_MAX_PRICE_LEVELS) →
  ∃ m', level_feeds s (diff_cancels tid ts s (oid_base s) cur l).*2 m other m'
    ∧ ∀ p, m' !! p = if decide (p ∈ l.*1 ∧ cur !! p = None) then None else m !! p.
Proof.
  intros Hs. revert m. induction l as [|[p q] l IH]; intros m Hnd Hin.
  { exists m. split; [done|]. intros p. rewrite decide_False; [done|]. by intros [[]%elem_of_nil _]. }
  rewrite fmap_cons in Hnd. apply NoDup_cons in Hnd as [Hp Hnd]. cbn [diff_cancels fst] in *.
  destruct (Hin p q ltac:(left)) as [Hsome Hrange]. destruct (cur !! p) as [q'|] eqn:Ec.
  - destruct (IH m Hnd) as (m' & Hf & Hm'); [intros p' q2 Hl; by apply (Hin p' q2); right|].
    exists m'. split; [done|]. intros p0. rewrite Hm', fmap_cons. cbn [fst].
    do 2 case_decide; set_solver.
  - destruct (IH (delete p m) Hnd) as (m' & Hf & Hm').
    { intros p' q2 Hl. destruct (Hin p' q2 ltac:(by right)) as [H1 H2]. split; [|done].
      rewrite lookup_delete_ne; [done|]. intros <-. apply Hp. apply list_elem_of_fmap. by exists (p, q2). }
    exists m'. rewrite fmap_cons. cbn [snd makeUpd]. split.
    + split; [|done]. split; cbn; [done|by apply oid_of_level|done].
    + intros p0. rewrite Hm', fmap_cons. cbn [fst]. destruct (decide (p0 = p)) as [->|Hne].
      * rewrite (decide_True (P := p ∈ p :: l.*1 ∧ _)) by (split; [by left|done]).
        case_decide; [done|]. apply lookup_delete_eq.
      * rewrite lookup_delete_ne by done. do 2 case_decide; set_solver.
Qed.

(** Adding and modifying brings every listed level to its new quantity. *)
Lemma diff_adds_feeds prev cur l m prio :
  proper_side s → NoDup l.*1 → levels_fit cur →
  (∀ p q, (p, q) ∈ l → cur !! p = Some q ∧ m !! p = prev !! p ∧ (prev !! p = None → other !! p = None)) →
  dom m ⊆ dom prev ∪ dom cur → Z.of_nat (size prev + size cur + size other) + 1 < ME_MAX_PRICE_LEVELS →
  ∃ m', level_feeds s (diff_adds tid ts s (oid_base s) prev l prio).1.*2 m other m'
    ∧ ∀ p, m' !! p = if decide (p ∈ l.*1) then cur !! p else m !! p.
Proof.
  intros Hs. revert m prio. induction l as [|[p q] l IH]; intros m prio Hnd Hfit Hin Hdom Hroom.
  { exists m. split; [done|]. intros p. rewrite decide_False; [done|]. apply not_elem_of_nil. }
  rewrite fmap_cons in Hnd. apply NoDup_cons in Hnd as [Hp Hnd]. cbn [diff_adds fst] in *.
  destruct (Hin p q ltac:(left)) as (Hcur & Hm & Hother). pose proof (Hfit p q Hcur) as Hpq.
  assert (∀ u, mu_price_ u = p → mu_qty_ u = q → mu_type_ u = MU_ADD ∨ mu_type_ u = MU_MODIFY → ∀ prio,
    ∃ m', level_feeds s (diff_adds tid ts s (oid_base s) prev l prio).1.*2 (level_apply u m) other m'
      ∧ ∀ p0, m' !! p0 = if decide (p0 ∈ p :: l.*1) then cur !! p0 else m !! p0) as Hrest.
  { intros u Hup Huq Hut prio'.
    assert (level_apply u m = <[p := q]> m) as -> by (unfold level_apply; rewrite Hup, Huq; by destruct Hut as [-> | ->]).
    destruct (IH (<[p := q]> m) prio' Hnd Hfit) as (m' & Hf & Hm'); [..|done|].
    - intros p' q' Hl. destruct (Hin p' q' ltac:(by right)) as (H1 & H2 & H3). split; [done|].
      rewrite lookup_insert_ne; [done|]. intros <-. apply Hp, list_elem_of_fmap. by exists (p, q').
    - rewrite dom_insert_L. apply elem_of_dom_2 in Hcur. set_solver.
    - exists m'. split; [done|]. intros p0. rewrite Hm'. destruct (decide (p0 = p)) as [->|Hne].
      + rewrite (decide_True (P := p ∈ p :: _)) by by left. case_decide; [done|]. by rewrite lookup_insert_eq.
      + rewrite lookup_insert_ne by done. do 2 case_decide; set_solver. }
  assert (∀ prio, ∃ m', level_feeds s (diff_adds tid ts s (oid_base s) prev l prio).1.*2 m other m'
      ∧ (m !! p = Some q → ∀ p0, m' !! p0 = if decide (p0 ∈ p :: l.*1) then cur !! p0 else m !! p0)) as Hsame.
  { intros prio'. destruct (IH m prio' Hnd Hfit) as (m' & Hf & Hm'); [|done..|].
    - intros p' q' Hl. apply (Hin p' q'). by right.
    - exists m'. split; [done|]. intros Hmq p0. rewrite Hm'. destruct (decide (p0 = p)) as [->|Hne].
      + rewrite (decide_True (P := p ∈ p :: _)) by by left. case_decide; congruence.
      + do 2 case_decide; set_solver. }
  destruct (prev !! p) as [q0|] eqn:Ep.
  - destruct (diff_adds tid ts s (oid_base s) prev l prio) as [us prio'] eqn:Ed.
    destruct (Z.eqb_spec q0 q) as [->|Hne]; cbn [fst].
    + destruct (Hsame prio) as (m' & Hf & Hm'). rewrite Ed in Hf. exists m'. split; [done|]. by apply Hm'.
    + rewrite fmap_cons. cbn [snd makeUpd].
      set (u := mkMEMarketUpdate MU_MODIFY (u64 (oid_base s + p)) tid s p q Priority_INVALID).
      destruct (Hrest u eq_refl eq_refl (or_intror eq_refl) prio) as (m' & Hf & Hm'). rewrite Ed in Hf.
      exists m'. split; [|done]. split; [|done].
      split; cbn; [done|apply oid_of_level; [done|by destruct Hpq]|split; [by rewrite Hm|by destruct Hpq]].
  - destruct (diff_adds tid ts s (oid_base s) prev l (u64 (prio + 1))) as [us prio'] eqn:Ed.
    cbn [fst]. rewrite fmap_cons. cbn [snd makeUpd].
    set (u := mkMEMarketUpdate MU_ADD (u64 (oid_base s + p)) tid s p q prio).
    destruct (Hrest u eq_refl eq_refl (or_introl eq_refl) (u64 (prio + 1))) as (m' & Hf & Hm'). rewrite Ed in Hf.
    exists m'. split; [|done]. split; [|done].
    split; cbn; [done|apply oid_of_level; [done|by destruct Hpq]|]. split_and!; [done|by apply Hother|apply Hpq..|].
    assert (size m ≤ size prev + size cur)%nat; [|lia].
    rewrite <- !size_dom. etrans; [by apply subseteq_size|]. rewrite size_union_alt.
    pose proof (subseteq_size (dom cur ∖ dom prev) (dom cur) ltac:(set_solver)). lia.
Qed.

(** A whole side. *)
Lemma diffSide_feeds n prev cur prio :
  proper_side s → levels_fit prev → levels_fit cur →
  (∀ p, is_Some (cur !! p) → prev !! p = None → other !! p = None) →
  Z.of_nat (size prev + size cur + size other) + 1 < ME_MAX_PRICE_LEVELS →
  level_feeds s (diffSide tid ts s (oid_base s) n prev cur prio).1.*2 prev other cur.
Proof.
  intros Hs Hfp Hfc Hother Hroom. unfold diffSide.
  assert (∀ n m, NoDup (iterate n m).*1 ∧ ∀ p q, (p, q) ∈ iterate n m ↔ m !! p = Some q) as Hit.
  { intros k m. split; [rewrite (iterate_perm k m); apply NoDup_fst_map_to_list|].
    intros p q. rewrite (iterate_perm k m). apply elem_of_map_to_list. }
  assert (∀ n m p, p ∈ (iterate n m).*1 ↔ is_Some (m !! p)) as Hkeys.
  { intros k m p. rewrite list_elem_of_fmap. split.
    - intros ([p' q] & -> & Hl). apply Hit in Hl. by eexists.
    - intros [q Hq]. exists (p, q). split; [done|]. by apply Hit. }
  destruct (diff_cancels_feeds cur (iterate n prev) prev Hs (proj1 (Hit _ _))) as (m1 & Hf1 & Hm1).
  { intros p q Hl%Hit. split; [by eexists|]. by destruct (Hfp p q Hl). }
  destruct (diff_adds_feeds prev cur (iterate (n + 1) cur) m1 prio Hs (proj1 (Hit _ _)) Hfc) as (m2 & Hf2 & Hm2).
  { intros p q Hl%Hit. split_and!; [done| |by apply Hother].
    rewrite Hm1. case_decide as Hd; [|done]. destruct Hd. congruence. }
  { intros p. rewrite elem_of_union, !elem_of_dom, Hm1. intros Hp. case_decide; [by destruct Hp|by left]. }
  { done. }
  destruct (diff_adds tid ts s (oid_base s) prev (iterate (n + 1) cur) prio) as [adds prio']. cbn [fst] in *.
  rewrite fmap_app. assert (m2 = cur) as <-; [|by eapply level_feeds_app].
  apply map_eq. intros p. rewrite Hm2. case_decide as Hd; [done|]. rewrite Hkeys in Hd.
  rewrite Hm1. destruct (cur !! p) as [q|] eqn:Ec; [by destruct Hd|].
  case_decide as Hd2; [done|]. rewrite Hkeys in Hd2. destruct (prev !! p) eqn:Ep; [|done].
  exfalso. apply Hd2. by split.
Qed.
End Diff.

(** ** The client's book follows *)

(** The orders of a side are its levels, one order each. *)
Record side_levels (s : Side) (q : list MarketOrder) (m : gmap Z Z) : Prop := {
  sl_perm : ((λ x, (mo_price_ x, mo_qty_ x)) <$> q) ≡ₚ map_to_list m;
  sl_id : Forall (λ x, mo_order_id_ x = oid_base s + mo_price_ x) q;
  sl_fit : levels_fit m }.

Definition book_levels (ab : absbook MarketOrder) (bids asks : gmap Z Z) : Prop :=
  side_levels BUY (ab_bids ab) bids ∧ side_levels SELL (ab_asks ab) asks.

Lemma side_levels_lookup s q m x : side_levels s q m → x ∈ q → m !! mo_price_ x = Some (mo_qty_ x).
Proof.
  intros [Hp _ _] Hx. apply elem_of_map_to_list. rewrite <- Hp. apply list_elem_of_fmap. by exists x.
Qed.

Lemma side_levels_order s q m p n :
  side_levels s q m → m !! p = Some n → ∃ x, x ∈ q ∧ mo_price_ x = p ∧ mo_qty_ x = n ∧ mo_order_id_ x = oid_base s + p.
Proof.
  intros [Hp Hid _] Hm. apply elem_of_map_to_list in Hm. rewrite <- Hp in Hm.
  apply list_elem_of_fmap in Hm as (x & [= -> ->] & Hx). exists x. rewrite Forall_forall in Hid. auto.
Qed.

Lemma side_levels_length s q m : side_levels s q m → length q = size m.
Proof.
  intros [Hp _ _]. rewrite <- (length_fmap (λ x, (mo_price_ x, mo_qty_ x))), Hp. apply length_map_to_list.
Qed.

(** Order ids of the two sides are apart. *)
Lemma oid_ranges s p : proper_side s → 0 ≤ p < ME_MAX_PRICE_LEVELS → oid_in_range (oid_base s + p) = true.
Proof.
  intros [-> | ->] Hp; unfold oid_in_range, oid_base, kAskOidOffset, ME_MAX_PRICE_LEVELS, ME_MAX_ORDER_IDS in *; simpl;
    rewrite (proj2 (Z.leb_le _ _)), (proj2 (Z.ltb_lt _ _)) by lia; done.
Qed.

Lemma oid_base_inj s s' p p' :
  proper_side s → proper_side s' → 0 ≤ p < ME_MAX_PRICE_LEVELS → 0 ≤ p' < ME_MAX_PRICE_LEVELS →
  oid_base s + p = oid_base s' + p' → s = s' ∧ p = p'.
Proof.
  unfold oid_base, kAskOidOffset, ME_MAX_PRICE_LEVELS.
  intros [-> | ->] [-> | ->] H1 H2; simpl; intros E; (split; [done || lia|lia]).
Qed.

Definition sides_levels (s : Side) (ab : absbook MarketOrder) (m other : gmap Z Z) : Prop :=
  side_levels s (ab_side ab s) m ∧ side_levels (opposite s) (ab_side ab (opposite s)) other.

Lemma side_levels_prices s q m : side_levels s q m → NoDup (mo_price_ <$> q).
Proof.
  intros [Hp _ _]. change (mo_price_ <$> q) with ((λ x, (mo_price_ x, mo_qty_ x).1) <$> q).
  rewrite (list_fmap_compose (λ x, (mo_price_ x, mo_qty_ x)) fst), Hp. apply NoDup_fst_map_to_list.
Qed.

Lemma side_levels_intro s q m :
  NoDup (mo_price_ <$> q) → Forall (λ x, mo_order_id_ x = oid_base s + mo_price_ x) q →
  levels_fit m → (∀ p n, m !! p = Some n ↔ ∃ x, x ∈ q ∧ mo_price_ x = p ∧ mo_qty_ x = n) → side_levels s q m.
Proof.
  intros Hnd Hid Hfit Hm. split; [|done|done]. apply NoDup_Permutation; [|apply NoDup_map_to_list|].
  - apply (NoDup_fmap_1 fst). by rewrite <- list_fmap_compose.
  - intros [p n]. rewrite elem_of_map_to_list, Hm, list_elem_of_fmap. naive_solver.
Qed.

Lemma levels_fit_delete p m : levels_fit m → levels_fit (delete p m).
Proof. apply map_Forall_delete. Qed.

Lemma side_levels_remove s q m p :
  side_levels s q m → side_levels s (remove_order (oid_base s + p) q) (delete p m).
Proof.
  intros Hsl. pose proof Hsl as [Hp Hid Hfit]. pose proof (remove_order_sublist (oid_base s + p) q) as Hsub.
  apply side_levels_intro.
  - eapply sublist_NoDup; [by eapply side_levels_prices|]. by rewrite Hsub.
  - by eapply Forall_sublist.
  - by apply levels_fit_delete.
  - intros p' n. unfold remove_order. rewrite lookup_delete_Some. rewrite Forall_forall in Hid. split.
    + intros [Hne Hm]. destruct (side_levels_order s q m p' n Hsl Hm) as (x & Hx & Hpx & Hn & Ho). exists x.
      split; [|done]. apply list_elem_of_filter. split; [|done]. cbn [ord_key MarketOrder_node]. lia.
    + intros (x & [Hk Hx]%list_elem_of_filter & <- & <-). cbn [ord_key MarketOrder_node] in Hk.
      rewrite (Hid x Hx) in Hk. split; [|by eapply side_levels_lookup]. intros ->. lia.
Qed.

Lemma side_levels_update s q m p n :
  side_levels s q m → is_Some (m !! p) → 0 ≤ n < 2 ^ 32 →
  side_levels s (update_order (oid_base s + p) (set_mo_qty n) q) (<[p := n]> m).
Proof.
  intros Hsl [n0 Hn0] Hn. pose proof Hsl as [Hp Hid Hfit]. rewrite Forall_forall in Hid. unfold update_order.
  apply side_levels_intro.
  - rewrite <- list_fmap_compose. erewrite list_fmap_ext; [by eapply side_levels_prices|].
    intros i x _. simpl. by case_decide.
  - apply Forall_fmap, Forall_forall. intros x Hx. simpl. case_decide; by apply (Hid x).
  - apply map_Forall_insert_2; [|done]. split; [|done]. by destruct (Hfit p n0 Hn0).
  - intros p' n'. rewrite lookup_insert_Some. split.
    + intros [[<- <-]|[Hne Hm]].
      * destruct (side_levels_order s q m p n0 Hsl Hn0) as (x & Hx & Hpx & Hnx & Ho). exists (set_mo_qty n x).
        split; [|done]. apply list_elem_of_fmap. exists x. by rewrite decide_True.
      * destruct (side_levels_order s q m p' n' Hsl Hm) as (x & Hx & Hpx & Hnx & Ho). exists x. split; [|done].
        apply list_elem_of_fmap. exists x. rewrite decide_False; [done|]. cbn [ord_key MarketOrder_node]. lia.
    + intros (y & (x & -> & Hx)%list_elem_of_fmap & Hpy & Hny). cbn [ord_key MarketOrder_node] in *.
      rewrite (Hid x Hx) in *. case_decide as Hd.
      * left. simpl in *. split; [lia|done].
      * right. split; [lia|]. subst. by eapply side_levels_lookup.
Qed.

Lemma side_levels_insert s q m p n o :
  side_levels s q m → m !! p = None → level_fits p n →
  mo_price_ o = p → mo_qty_ o = n → mo_order_id_ o = oid_base s + p →
  side_levels s (insert_order s o q) (<[p := n]> m).
Proof.
  intros Hsl Hm Hfits Hop Hoq Hoid. pose proof Hsl as [Hp Hid Hfit]. split.
  - rewrite insert_order_perm, map_to_list_insert by done. simpl. by rewrite Hp, Hop, Hoq.
  - rewrite insert_order_perm. constructor; [by rewrite Hop|done].
  - by apply map_Forall_insert_2.
Qed.

(** No order of the other side has the id of a level of this side. *)
Lemma other_side_ids s q m p :
  proper_side s → side_levels (opposite s) q m → 0 ≤ p < ME_MAX_PRICE_LEVELS →
  ∀ x, x ∈ q → mo_order_id_ x ≠ oid_base s + p.
Proof.
  intros Hs Hsl Hp x Hx E. pose proof Hsl as [_ Hid Hfit]. rewrite Forall_forall in Hid. rewrite (Hid x Hx) in E.
  pose proof (side_levels_lookup _ _ _ _ Hsl Hx) as Hm. destruct (Hfit _ _ Hm) as [Hpx _].
  apply oid_base_inj in E as [E _]; [by destruct Hs as [-> | ->]|by destruct Hs as [-> | ->]; [right|left]|done..].
Qed.

Lemma priceToIndex_small p : 0 ≤ p < ME_MAX_PRICE_LEVELS → priceToIndex p = p.
Proof.
  intros Hp. unfold priceToIndex, wrap, ME_MAX_PRICE_LEVELS in *. rewrite (Z.mod_small p (2 ^ 64)) by lia.
  apply Z.mod_small. lia.
Qed.

Lemma num_levels_length (q : list MarketOrder) : (num_levels q ≤ length q)%nat.
Proof.
  unfold num_levels. rewrite <- (length_fmap ord_price q). apply submseteq_length, NoDup_submseteq.
  - apply NoDup_remove_dups.
  - intros x. by rewrite elem_of_remove_dups.
Qed.

Lemma sides_levels_all s ab m other x :
  proper_side s → sides_levels s ab m other → x ∈ ab_all ab →
  (mo_order_id_ x = oid_base s + mo_price_ x ∧ m !! mo_price_ x = Some (mo_qty_ x))
  ∨ (mo_order_id_ x = oid_base (opposite s) + mo_price_ x ∧ other !! mo_price_ x = Some (mo_qty_ x)).
Proof.
  intros Hs [H1 H2] Hx. rewrite (ab_all_split ab s Hs) in Hx. apply elem_of_app in Hx as [Hx|Hx].
  - left. split; [|by eapply side_levels_lookup]. by apply (proj1 (Forall_forall _ _) (sl_id _ _ _ H1)).
  - right. split; [|by eapply side_levels_lookup]. by apply (proj1 (Forall_forall _ _) (sl_id _ _ _ H2)).
Qed.

Lemma level_add_valid s u ab m other :
  proper_side s → mu_type_ u = MU_ADD → level_valid s u m other → sides_levels s ab m other → valid_update u ab.
Proof.
  intros Hs Et [Hside Hoid Hk] Hsl. rewrite Et in Hk. destruct Hk as (Hm & Ho & [Hp Hq] & Hroom).
  assert (proper_side (opposite s)) as Hs' by (destruct Hs as [-> | ->]; [right|left]; done).
  pose proof Hsl as [H1 H2]. unfold valid_update. rewrite Et, Hside, Hoid. split_and!; [done|by apply oid_ranges| |lia..| |].
  - intros (x & E & Hx)%list_elem_of_fmap. cbn [ord_key MarketOrder_node] in E.
    destruct (sides_levels_all s ab m other x Hs Hsl Hx) as [[Hid Hl]|[Hid Hl]]; rewrite Hid in E.
    + assert (mo_price_ x = mu_price_ u) by lia. congruence.
    + destruct (sl_fit _ _ _ H2 _ _ Hl) as [Hpx _]. apply oid_base_inj in E as [E _]; [|done..].
      by destruct Hs as [-> | ->].
  - intros s' x Hs2 Hx Hidx. cbn [ord_price MarketOrder_node] in Hidx.
    assert (x ∈ ab_all ab) as Hall by (apply elem_of_ab_all; eauto).
    destruct (sides_levels_all s ab m other x Hs Hsl Hall) as [[_ Hl]|[_ Hl]].
    + destruct (sl_fit _ _ _ H1 _ _ Hl) as [Hpx _]. rewrite !priceToIndex_small in Hidx by done. congruence.
    + destruct (sl_fit _ _ _ H2 _ _ Hl) as [Hpx _]. rewrite !priceToIndex_small in Hidx by done. congruence.
  - assert (length (ab_side ab s) = size m) as L1 by by eapply side_levels_length.
    assert (length (ab_side ab (opposite s)) = size other) as L2 by by eapply side_levels_length.
    pose proof (num_levels_length (ab_bids ab)). pose proof (num_levels_length (ab_asks ab)).
    unfold has_room, ab_all, ME_MAX_ORDER_IDS, ME_MAX_PRICE_LEVELS in *. rewrite length_app.
    destruct Hs as [-> | ->]; simpl in L1, L2; cbn [opposite is_buy] in *; unfold ab_side in *; simpl in *; lia.
Qed.

(** One update. *)
Lemma level_step s u ab m other :
  proper_side s → level_valid s u m other → sides_levels s ab m other →
  valid_update u ab ∧ sides_levels s (spec_update u ab) (level_apply u m) other.
Proof.
  intros Hs Hv Hsl. pose proof Hsl as [H1 H2]. pose proof Hv as [Hside Hoid Hk].
  assert (proper_side (opposite s)) as Hs' by (destruct Hs as [-> | ->]; [right|left]; done).
  destruct (mu_type_ u) eqn:Et; try done.
  - split; [exact (level_add_valid s u ab m other Hs Et Hv Hsl)|]. destruct Hk as (Hm & Ho & Hpq & Hroom).
    unfold spec_update, level_apply, sides_levels. rewrite Et, Hside.
    assert (opposite s ≠ s) by (by destruct Hs as [-> | ->]).
    rewrite !ab_side_set by done. rewrite decide_True, decide_False by done. split; [|done].
    by apply side_levels_insert.
  - destruct Hk as [[n0 Hn0] Hn]. destruct (side_levels_order _ _ _ _ _ H1 Hn0) as (x & Hx & Hpx & _ & Hid).
    destruct (sl_fit _ _ _ H1 _ _ Hn0) as [Hp _].
    split; [unfold valid_update; rewrite Et, Hside; split; [done|]; exists x; split_and!; congruence|].
    unfold spec_update, level_apply, sides_levels. rewrite Et, !ab_side_map, Hoid. split.
    + apply side_levels_update; [done|by eexists|done].
    + rewrite update_order_id; [done|]. by eapply other_side_ids.
  - destruct Hk as [n0 Hn0]. destruct (side_levels_order _ _ _ _ _ H1 Hn0) as (x & Hx & Hpx & _ & Hid).
    destruct (sl_fit _ _ _ H1 _ _ Hn0) as [Hp _].
    split; [unfold valid_update; rewrite Et, Hside; exists x; split_and!; congruence|].
    unfold spec_update, level_apply, sides_levels. rewrite Et, !ab_side_map, Hoid. split.
    + by apply side_levels_remove.
    + rewrite remove_order_id; [done|]. by eapply other_side_ids.
Qed.

Lemma level_feeds_feeds s us ab m other m' :
  proper_side s → level_feeds s us m other m' → sides_levels s ab m other →
  ∃ ab', feeds us ab ab' ∧ sides_levels s ab' m' other.
Proof.
  intros Hs. revert ab m. induction us as [|u us IH]; intros ab m; simpl.
  - intros -> H. by exists ab.
  - intros [Hv Hf] Hsl. destruct (level_step s u ab m other Hs Hv Hsl) as [Hvu Hsl'].
    destruct (IH _ _ Hf Hsl') as (ab' & Hfd & Hsl2). by exists ab'.
Qed.

(** ** The best levels *)

(** [(p, n)] is the best level of a side, or the markers of an empty side. *)
Definition best_level (s : Side) (m : gmap Z Z) (p n : Z) : Prop :=
  (m = ∅ ∧ p = Price_INVALID ∧ n = Qty_INVALID)
  ∨ (m !! p = Some n ∧ ∀ p', is_Some (m !! p') → p' = p ∨ better s p p' = true).

Lemma at_price_unique (x : MarketOrder) q :
  NoDup (mo_price_ <$> x :: q) → at_price (mo_price_ x) (x :: q) = [x].
Proof.
  rewrite fmap_cons. intros [Hx _]%NoDup_cons. unfold at_price. rewrite filter_cons_True by done. f_equal.
  apply at_price_none. intros y Hy E. apply Hx. apply list_elem_of_fmap. by exists y.
Qed.

Lemma spec_best_level s q m p n :
  side_levels s q m → price_sorted s q → spec_best q = (p, n) → best_level s m p n.
Proof.
  intros Hsl Hso. unfold spec_best. destruct q as [|x q].
  - intros [= <- <-]. left. split_and!; try done. pose proof (side_levels_length _ _ _ Hsl) as Hl.
    symmetry in Hl. by apply map_size_empty_inv.
  - rewrite at_price_unique by (by eapply side_levels_prices). intros [= <- <-]. right.
    assert (m !! mo_price_ x = Some (mo_qty_ x)) as Hm by (eapply side_levels_lookup; [done|left]).
    pose proof (sl_fit _ _ _ Hsl _ _ Hm) as [_ Hq]. split.
    { rewrite Hm. f_equal. unfold mkt_total. simpl. unfold wrap. rewrite Z.add_0_r. symmetry. by apply Z.mod_small. }
    intros p' [n' Hn']. destruct (side_levels_order _ _ _ _ _ Hsl Hn') as (y & Hy & <- & _ & _).
    apply elem_of_cons in Hy as [->|Hy]; [by left|].
    apply StronglySorted_inv in Hso as [_ Hso]. rewrite Forall_forall in Hso.
    destruct (decide (mo_price_ y = mo_price_ x)); [by left|right].
    apply better_total; [done|]. by apply Hso.
Qed.

(** ** A step of the reader *)

Section Steps.
Context {F : Type} `{!Double F} `{!DoubleCast F} `{!DoubleText F} `{!HashOrder} {Hlaws : HashOrderLaws}.
Implicit Types (r : LobsterReader) (mb : MarketOrderBook) (ab : absbook MarketOrder).

Lemma read_values_length n ss vs : read_values n ss = Ok vs → (length vs ≤ n)%nat.
Proof.
  revert ss vs. induction n as [|n IH]; intros ss vs; simpl.
  - destruct (getline COMMA ss) as [[]|]; intros [= <-]; simpl; lia.
  - destruct (getline COMMA ss) as [[tok ss']|]; [|intros [= <-]; simpl; lia].
    intros (v & _ & (vs' & Hvs & [= <-])%bind_ok)%bind_ok. apply IH in Hvs. simpl. lia.
Qed.

(** Sizes after [read_level]: at most one more level. *)
Lemma read_level_size price sz m m' :
  read_level (F:=F) price sz m = Ok m' → (size m' ≤ S (size m))%nat ∧ ∀ p q, m' !! p = Some q →
    m !! p = Some q ∨ 0 ≤ q < 2 ^ 32.
Proof.
  unfold read_level. intros Hr. apply bind_ok in Hr as (a & _ & Hr).
  destruct (_ && _) in Hr; [|injection Hr as <-; split; [lia|by left]]. apply bind_ok in Hr as (p & _ & [= <-]). split.
  - rewrite map_size_insert. destruct (m !! p); simpl; lia.
  - intros p' q' [[<- <-]|[_ ?]]%lookup_insert_Some; [right|by left]. apply Z.mod_pos_bound. lia.
Qed.

(** A snapshot has at most as many levels as were read, with 32-bit quantities. *)
Lemma read_levels_size n v cur_ask cur_bid cur_ask' cur_bid' (a b : nat) :
  (length v ≤ 4 * n)%nat → read_levels (F:=F) v cur_ask cur_bid = Ok (cur_ask', cur_bid') →
  (size cur_ask ≤ a)%nat → (size cur_bid ≤ b)%nat →
  map_Forall (λ _ q, 0 ≤ q < 2 ^ 32) cur_ask → map_Forall (λ _ q, 0 ≤ q < 2 ^ 32) cur_bid →
  (size cur_ask' ≤ a + n)%nat ∧ (size cur_bid' ≤ b + n)%nat
  ∧ map_Forall (λ _ q, 0 ≤ q < 2 ^ 32) cur_ask' ∧ map_Forall (λ _ q, 0 ≤ q < 2 ^ 32) cur_bid'.
Proof.
  revert v cur_ask cur_bid a b. induction n as [|n IH]; intros v cur_ask cur_bid a b Hl.
  - destruct v; [|simpl in Hl; lia]. simpl. intros [= <- <-]. intros. split_and!; [lia..|done|done].
  - destruct v as [|askP [|askS [|bidP [|bidS v]]]]; simpl in Hl; cbn [read_levels];
      [intros [= <- <-] ? ? ? ?; split_and!; (done || lia)..|].
    intros (m1 & H1 & (m2 & H2 & H3)%bind_ok)%bind_ok Ha Hb Hqa Hqb.
    apply read_level_size in H1 as [S1 Q1]. apply read_level_size in H2 as [S2 Q2].
    destruct (IH v m1 m2 (S a) (S b) ltac:(lia) H3) as (R1 & R2 & R3 & R4); [lia..| | |split_and!; (done || lia)].
    + intros p q Hq. destruct (Q1 p q Hq) as [Ho|]; [by apply (Hqa p q)|done].
    + intros p q Hq. destruct (Q2 p q Hq) as [Ho|]; [by apply (Hqb p q)|done].
Qed.

(** Prices the index of the client's book tells apart. *)
Definition prices_fit (m : gmap Z Z) : Prop := map_Forall (λ p _, 0 ≤ p < ME_MAX_PRICE_LEVELS) m.

(** The new levels of a side are not levels the other side has at that point:
    bids are compared with the previous asks, asks with the new bids. *)
Record separated r r' : Prop := {
  sep_bids : ∀ p, is_Some (prev_bid_ r' !! p) → prev_bid_ r !! p = None → prev_ask_ r !! p = None;
  sep_asks : ∀ p, is_Some (prev_ask_ r' !! p) → prev_ask_ r !! p = None → prev_bid_ r' !! p = None }.

(** The previous snapshot is what the client's book shows. *)
Record lob_inv r ab : Prop := {
  li_book : book_levels ab (prev_bid_ r) (prev_ask_ r);
  li_bids : (size (prev_bid_ r) ≤ levels (lob_cfg_ r))%nat;
  li_asks : (size (prev_ask_ r) ≤ levels (lob_cfg_ r))%nat;
  li_levels : 3 * Z.of_nat (levels (lob_cfg_ r)) + 1 < ME_MAX_PRICE_LEVELS }.

Lemma levels_fit_intro m : prices_fit m → map_Forall (λ _ q, 0 ≤ q < 2 ^ 32) m → levels_fit m.
Proof. intros H1 H2 p q Hq. split; [by apply (H1 p q)|by apply (H2 p q)]. Qed.

Lemma process_rows_feeds mline oline msg ob r r' ab :
  process_rows (F:=F) mline oline msg ob r = Ok r' → pending_ r = [] → lob_inv r ab →
  prices_fit (prev_bid_ r') → prices_fit (prev_ask_ r') → separated r r' →
  ∃ ab', feeds (pending_ r').*2 ab ab' ∧ lob_inv r' ab'.
Proof.
  unfold process_rows. cbv zeta. intros Hrun Hpend [[Hb1 Hb2] Hsb Hsa Hlv].
  apply bind_ok in Hrun as ([[[[ts ty] msz] mpx] dir] & _ & Hrun). apply bind_ok in Hrun as (v & Hv & Hrun). apply bind_ok in Hrun as ([cur_ask cur_bid] & Hlev & Hrun).
  apply read_values_length in Hv.
  destruct (read_levels_size (levels (lob_cfg_ r)) v ∅ ∅ cur_ask cur_bid 0 0 Hv Hlev) as (Sa & Sb & Qa & Qb);
    [by rewrite ?map_size_empty..|apply map_Forall_empty|apply map_Forall_empty|]. simpl in Sa, Sb.
  destruct (diffSide _ _ BUY _ _ _ _ _) as [bids prio1] eqn:Eb.
  destruct (diffSide _ _ SELL _ _ _ _ _) as [asks prio2] eqn:Ea. injection Hrun as <-.
  rewrite Hpend. cbn [prev_bid_ prev_ask_ pending_ lob_cfg_ app]. intros Hpb Hpa [Sep1 Sep2].
  cbn [prev_bid_ prev_ask_] in Sep1, Sep2.
  assert (levels_fit cur_bid) as Fb by by apply levels_fit_intro.
  assert (levels_fit cur_ask) as Fa by by apply levels_fit_intro.
  pose proof (diffSide_feeds (lob_ticker_id (lob_cfg_ r)) ts BUY (prev_ask_ r) (4 * u64 (lob_count_ r + 1)) (prev_bid_ r)
    cur_bid (next_priority_ r) (or_introl eq_refl) (sl_fit _ _ _ Hb1) Fb Sep1 ltac:(lia)) as Hfb.
  change (oid_base BUY) with 0 in Hfb. rewrite Eb in Hfb. cbn [fst] in Hfb.
  pose proof (diffSide_feeds (lob_ticker_id (lob_cfg_ r)) ts SELL cur_bid (4 * u64 (lob_count_ r + 1) + 2) (prev_ask_ r)
    cur_ask prio1 (or_intror eq_refl) (sl_fit _ _ _ Hb2) Fa Sep2 ltac:(lia)) as Hfa.
  change (oid_base SELL) with kAskOidOffset in Hfa. rewrite Ea in Hfa. cbn [fst] in Hfa.
  destruct (level_feeds_feeds BUY bids.*2 ab _ _ _ (or_introl eq_refl) Hfb (conj Hb1 Hb2)) as (ab1 & F1 & L1a & L1b).
  destruct (level_feeds_feeds SELL asks.*2 ab1 _ _ _ (or_intror eq_refl) Hfa (conj L1b L1a)) as (ab2 & F2 & L2a & L2b).
  exists ab2. split.
  - rewrite !fmap_app. apply (feeds_app _ _ ab ab ab2); [|by eapply feeds_app].
    destruct (_ || _); simpl; [|done]. by split.
  - split; [by split|done..].
Qed.

(** The client's book and the reader agree on the levels. *)
Definition lob_client r mb : Prop := ∃ ab, mkt_rep mb ab ∧ lob_inv r ab.

Lemma lob_client_bbo r mb :
  lob_client r mb →
  best_level BUY (prev_bid_ r) (bid_price_ (bbo_ mb)) (bid_qty_ (bbo_ mb))
  ∧ best_level SELL (prev_ask_ r) (ask_price_ (bbo_ mb)) (ask_qty_ (bbo_ mb)).
Proof.
  intros (ab & (Hr & _ & Hb & Ha) & [[H1 H2] _ _ _]). split.
  - eapply spec_best_level; [exact H1|exact (rep_sorted _ _ BUY Hr (or_introl eq_refl))|by symmetry].
  - eapply spec_best_level; [exact H2|exact (rep_sorted _ _ SELL Hr (or_intror eq_refl))|by symmetry].
Qed.

Lemma fillStep_client r r' mb :
  fillStep (F:=F) r = Ok (true, r') → pending_ r = [] → lob_client r mb →
  prices_fit (prev_bid_ r') → prices_fit (prev_ask_ r') → separated r r' →
  ∃ mb', mkt_replay (pending_ r').*2 mb = Ok mb' ∧ lob_client r' mb'.
Proof.
  unfold fillStep. destruct (lob_eof_ r); [done|]. destruct (_ && _); [done|].
  destruct (getline NEWLINE (msg_in_ r)) as [[mline msg]|]; [|done].
  destruct (getline NEWLINE (ob_in_ r)) as [[oline ob]|]; [|done]. destruct (_ || _).
  - intros [= <-] Hp (ab & Hm & [Hb H1 H2 H3]) _ _ _. exists mb. cbn [lob_skip pending_]. rewrite Hp. split; [done|].
    exists ab. split; [done|]. by split.
  - intros (r2 & Hrun & [= <-])%bind_ok Hp (ab & Hm & Hi) Hpb Hpa Hsep.
    destruct (process_rows_feeds _ _ _ _ _ _ _ Hrun Hp Hi Hpb Hpa Hsep) as (ab' & Hf & Hi').
    destruct (feeds_replay _ _ _ _ Hf Hm) as (mb' & Hmb & Hm'). exists mb'. split; [done|]. by exists ab'.
Qed.

(** *** [next] ends *)

Lemma fueled_read_values n ss : fueled (read_values n ss).
Proof. revert ss. induction n as [|n IH]; intros ss; simpl; unfold stoll; fuel_step. Qed.

Lemma fueled_read_level price sz m : fueled (read_level (F:=F) price sz m).
Proof. unfold read_level, int64. fuel_step. Qed.
#[local] Hint Resolve fueled_read_values fueled_read_level : fuel.

Lemma fueled_read_levels v a b : fueled (read_levels (F:=F) v a b).
Proof.
  assert (∀ n v a b, (length v ≤ n)%nat → fueled (read_levels (F:=F) v a b)) as Hn; [|by eapply Hn].
  clear. intros n. induction n as [|n IH]; intros [|x1 [|x2 [|x3 [|x4 v]]]] a b Hl; simpl in *; try done; try lia.
  fuel_step. apply IH. lia.
Qed.
#[local] Hint Resolve fueled_read_levels : fuel.

Lemma fueled_process_rows mline oline msg ob r : fueled (process_rows (F:=F) mline oline msg ob r).
Proof. unfold process_rows, parse_message, stoi, stoll. fuel_step. Qed.

(** A step that goes on has consumed a row of the message file. *)
Lemma fillStep_consumes r r' :
  fillStep (F:=F) r = Ok (true, r') → (String.length (msg_in_ r') < String.length (msg_in_ r))%nat.
Proof.
  unfold fillStep. destruct (lob_eof_ r); [done|]. destruct (_ && _); [done|].
  destruct (getline NEWLINE (msg_in_ r)) as [[mline msg]|] eqn:Em; [|done]. apply getline_length in Em.
  destruct (getline NEWLINE (ob_in_ r)) as [[oline ob]|]; [|done]. destruct (_ || _).
  - by intros [= <-].
  - intros (r2 & Hrun & [= <-])%bind_ok. unfold process_rows in Hrun. cbv zeta in Hrun.
    apply bind_ok in Hrun as ([[[[ts ty] msz] mpx] dir] & _ & Hrun). apply bind_ok in Hrun as (v & Hv & Hrun).
    apply bind_ok in Hrun as ([cur_ask cur_bid] & Hlev & Hrun).
    destruct (diffSide _ _ BUY _ _ _ _ _) as [bids prio1]. destruct (diffSide _ _ SELL _ _ _ _ _) as [asks prio2].
    injection Hrun as <-. done.
Qed.

Lemma fueled_fillStep r : fueled (fillStep (F:=F) r).
Proof.
  unfold fillStep. destruct (lob_eof_ r); [done|]. destruct (_ && _); [done|].
  destruct (getline NEWLINE (msg_in_ r)) as [[mline msg]|]; [|done].
  destruct (getline NEWLINE (ob_in_ r)) as [[oline ob]|]; [|done]. destruct (_ || _); [done|].
  by apply fueled_bind; [apply fueled_process_rows|].
Qed.

Lemma lob_refill_fuel n r : (String.length (msg_in_ r) < n)%nat → fueled (lob_refill (F:=F) n r).
Proof.
  revert r. induction n as [|n IH]; intros r Hr; [lia|]. cbn [lob_refill].
  destruct (pending_ r); [|done]. apply fueled_bind; [apply fueled_fillStep|].
  intros [[] r'] Hs; [|done]. apply fillStep_consumes in Hs. apply IH. lia.
Qed.

Lemma lob_next_fuel r : fueled (lob_next (F:=F) r).
Proof. apply lob_refill_fuel. lia. Qed.

(** *** A whole replay *)

(** The reader once its pending updates are read. *)
Definition drained r : LobsterReader :=
  mkLobsterReader (lob_cfg_ r) (msg_in_ r) (ob_in_ r) (lob_eof_ r) (lob_count_ r) (next_priority_ r)
    (prev_bid_ r) (prev_ask_ r) [].

(** [n] calls of [next]. *)
Fixpoint lob_read (n : nat) r : result (list (Z * MEMarketUpdate) * LobsterReader) :=
  match n with
  | O => Ok ([], r)
  | S n =>
      let* (ev, r) := lob_next (F:=F) r in
      match ev with
      | None => Ok ([], r)
      | Some ev => let* (evs, r) := lob_read n r in Ok (ev :: evs, r)
      end
  end.

Lemma lob_read_pending r : lob_read (length (pending_ r)) r = Ok (pending_ r, drained r).
Proof.
  destruct r as [cfg msg ob eof cnt prio pb pa pend]. cbn [pending_]. induction pend as [|e pend IH]; [done|].
  cbn [length lob_read]. unfold lob_next. cbn [lob_refill pending_ rbind lob_cfg_ msg_in_ ob_in_ lob_eof_ lob_count_ next_priority_ prev_bid_ prev_ask_].
  rewrite IH. done.
Qed.

Lemma lob_refill_more n m r : (String.length (msg_in_ r) < n)%nat → (String.length (msg_in_ r) < m)%nat → lob_refill (F:=F) n r = lob_refill m r.
Proof.
  revert m r. induction n as [|n IH]; intros [|m] r Hn Hm; try lia. cbn [lob_refill]. destruct (pending_ r); [|done].
  destruct (fillStep r) as [[[] r']|] eqn:Hs; [|done..]. cbn [rbind]. apply fillStep_consumes in Hs. apply IH; lia.
Qed.

(** A step's updates are what the next calls return. *)
Lemma lob_read_step r r1 :
  pending_ r = [] → fillStep (F:=F) r = Ok (true, r1) → pending_ r1 ≠ [] →
  lob_read (length (pending_ r1)) r = Ok (pending_ r1, drained r1).
Proof.
  intros Hp Hs Hne. rewrite <- (lob_read_pending r1). pose proof (fillStep_consumes _ _ Hs) as Hc.
  destruct (pending_ r1) as [|e l] eqn:E; [done|]. cbn [length lob_read].
  assert (lob_next (F:=F) r = lob_next r1) as ->; [|done].
  unfold lob_next at 1. cbn [lob_refill]. rewrite Hp, Hs. cbn [rbind]. apply lob_refill_more; lia.
Qed.

(** One step: its updates are applied to the client's book. *)
Inductive lob_step : LobsterReader * MarketOrderBook → LobsterReader * MarketOrderBook → Prop :=
| lob_rows r r1 mb mb1 :
    fillStep (F:=F) r = Ok (true, r1) → prices_fit (prev_bid_ r1) → prices_fit (prev_ask_ r1) → separated r r1 →
    mkt_replay (pending_ r1).*2 mb = Ok mb1 → lob_step (r, mb) (drained r1, mb1).

Definition lob_synced (p : LobsterReader * MarketOrderBook) : Prop := pending_ p.1 = [] ∧ lob_client p.1 p.2.

Lemma lob_client_drained r mb : lob_client r mb → lob_client (drained r) mb.
Proof. intros (ab & Hm & [H1 H2 H3 H4]). exists ab. by split. Qed.

Lemma lob_steps_client p p' : lob_synced p → rtc lob_step p p' → lob_synced p'.
Proof.
  intros Hp Hrun. revert Hp. induction Hrun as [|x y z Hxy _ IH]; [done|]. intros [Hp Hc]. apply IH.
  destruct Hxy as [r r1 mb mb1 Hs Hb Ha Hsep Hre]. split; [done|]. apply lob_client_drained.
  destruct (fillStep_client r r1 mb Hs Hp Hc Hb Ha Hsep) as (mb' & Hre' & Hc'). rewrite Hre in Hre'. by injection Hre' as <-.
Qed.

Lemma lob_client_new cfg msg ob ticker_id :
  3 * Z.of_nat (levels cfg) + 1 < ME_MAX_PRICE_LEVELS →
  lob_client (mkLobsterReader cfg msg ob false 0 1 ∅ ∅ []) (MarketOrderBook_new zeroed ticker_id).
Proof.
  intros Hl. exists (mkAbs [] []). split; [apply mkt_rep_new|].
  split; cbn [prev_bid_ prev_ask_ lob_cfg_]; [|rewrite map_size_empty; lia..|done].
  split; (split; [by rewrite map_to_list_empty|constructor|apply map_Forall_empty]).
Qed.
End Steps.
