(* ===== verification/Backtest.v ===== *)
(** * The backtest harness.

    [Backtest::BacktestEngine] of src/backtest/backtest_engine.{h,cpp}: it owns
    the trade engine and the queues between them, replays a tape into the book of
    one ticker, simulates fills of the algorithm's orders against the best prices
    and the trades, and samples the profit and loss.  The harness and the trade
    engine share the request and response queues, so both are members of the
    trade engine here ([outgoing_ogw_requests_], [incoming_ogw_responses_]).
    [wall] is the clock the trade engine reads, the [k]-th reading of an event
    being [wall k]; [fuel] bounds the loop of the VPIN feature.  A row of the
    profit-and-loss file is the record of its values. *)

From Stdlib Require Import Ascii String.
From stdpp Require Import numbers strings gmap list.
From S2P Require Import Prelude Types MemPool LFQueue BookSpec MarketOrderBook MatchingEngine Double Logging Position OrderManager Features Strategy Parse Tape Lobster.

Open Scope Z_scope.

(** [LiveAlgoOrder], [ahead] is the quantity queued in front. *)
Record LiveAlgoOrder := mkLiveAlgoOrder {
  lo_order_id : Z;
  lo_price : Z;
  lo_side : Side;
  lo_leaves : Z;
  lo_ahead : Z;
  lo_created_ns : Z }.

Definition LiveAlgoOrder_default : LiveAlgoOrder :=
  mkLiveAlgoOrder OrderId_INVALID Price_INVALID Side_INVALID 0 0 0.

#[export] Instance LiveAlgoOrder_eq_dec : EqDecision LiveAlgoOrder.
Proof. solve_decision. Defined.

(** The values of a row. *)
Record PnLRow (F : Type) := mkPnLRow {
  row_ns : Z; row_mid : F; row_bid : Z; row_ask : Z; row_position : Z; row_real : F; row_unreal : F; row_total : F;
  row_volume : Z; row_fills : Z; row_requotes : Z; row_sigma : F; row_ofi : F }.
Arguments mkPnLRow {F} _ _ _ _ _ _ _ _ _ _ _ _ _.
Arguments row_ns {F} _.
Arguments row_mid {F} _.
Arguments row_bid {F} _.
Arguments row_ask {F} _.
Arguments row_position {F} _.
Arguments row_real {F} _.
Arguments row_unreal {F} _.
Arguments row_total {F} _.
Arguments row_volume {F} _.
Arguments row_fills {F} _.
Arguments row_requotes {F} _.
Arguments row_sigma {F} _.
Arguments row_ofi {F} _.

Record BacktestEngine (F : Type) := mkBacktestEngine {
  bt_ticker_id : Z;
  engine_ : TradeEngine F (LFQueue MEClientRequest);
  next_synth_oid_ : Z;
  resting_bid_oid_ : Z;
  resting_ask_oid_ : Z;
  last_bid_price_ : Z;
  last_ask_price_ : Z;
  last_bid_qty_ : Z;
  last_ask_qty_ : Z;
  live_ : list (side_array LiveAlgoOrder);
  pnl_out_ : list (PnLRow F);
  num_fills_ : Z;
  num_requotes_ : Z }.
Arguments mkBacktestEngine {F} _ _ _ _ _ _ _ _ _ _ _ _ _.
Arguments bt_ticker_id {F} _.
Arguments engine_ {F} _.
Arguments next_synth_oid_ {F} _.
Arguments resting_bid_oid_ {F} _.
Arguments resting_ask_oid_ {F} _.
Arguments last_bid_price_ {F} _.
Arguments last_ask_price_ {F} _.
Arguments last_bid_qty_ {F} _.
Arguments last_ask_qty_ {F} _.
Arguments live_ {F} _.
Arguments pnl_out_ {F} _.
Arguments num_fills_ {F} _.
Arguments num_requotes_ {F} _.

Section Setters.
Context {F : Type}.
Implicit Types (b : BacktestEngine F).

Definition set_engine (te : TradeEngine F (LFQueue MEClientRequest)) b : BacktestEngine F :=
  mkBacktestEngine (bt_ticker_id b) te (next_synth_oid_ b) (resting_bid_oid_ b) (resting_ask_oid_ b)
    (last_bid_price_ b) (last_ask_price_ b) (last_bid_qty_ b) (last_ask_qty_ b) (live_ b) (pnl_out_ b)
    (num_fills_ b) (num_requotes_ b).

Definition set_synth_oid (n : Z) b : BacktestEngine F :=
  mkBacktestEngine (bt_ticker_id b) (engine_ b) n (resting_bid_oid_ b) (resting_ask_oid_ b)
    (last_bid_price_ b) (last_ask_price_ b) (last_bid_qty_ b) (last_ask_qty_ b) (live_ b) (pnl_out_ b)
    (num_fills_ b) (num_requotes_ b).

Definition set_resting (side : Side) (oid : Z) b : BacktestEngine F :=
  mkBacktestEngine (bt_ticker_id b) (engine_ b) (next_synth_oid_ b)
    (if is_buy side then oid else resting_bid_oid_ b) (if is_buy side then resting_ask_oid_ b else oid)
    (last_bid_price_ b) (last_ask_price_ b) (last_bid_qty_ b) (last_ask_qty_ b) (live_ b) (pnl_out_ b)
    (num_fills_ b) (num_requotes_ b).

Definition set_last (side : Side) (price qty : Z) b : BacktestEngine F :=
  mkBacktestEngine (bt_ticker_id b) (engine_ b) (next_synth_oid_ b) (resting_bid_oid_ b) (resting_ask_oid_ b)
    (if is_buy side then price else last_bid_price_ b) (if is_buy side then last_ask_price_ b else price)
    (if is_buy side then qty else last_bid_qty_ b) (if is_buy side then last_ask_qty_ b else qty)
    (live_ b) (pnl_out_ b) (num_fills_ b) (num_requotes_ b).

Definition set_live (l : list (side_array LiveAlgoOrder)) b : BacktestEngine F :=
  mkBacktestEngine (bt_ticker_id b) (engine_ b) (next_synth_oid_ b) (resting_bid_oid_ b) (resting_ask_oid_ b)
    (last_bid_price_ b) (last_ask_price_ b) (last_bid_qty_ b) (last_ask_qty_ b) l (pnl_out_ b)
    (num_fills_ b) (num_requotes_ b).

Definition add_row (row : PnLRow F) b : BacktestEngine F :=
  mkBacktestEngine (bt_ticker_id b) (engine_ b) (next_synth_oid_ b) (resting_bid_oid_ b) (resting_ask_oid_ b)
    (last_bid_price_ b) (last_ask_price_ b) (last_bid_qty_ b) (last_ask_qty_ b) (live_ b) (pnl_out_ b ++ [row])
    (num_fills_ b) (num_requotes_ b).

Definition count_fill b : BacktestEngine F :=
  mkBacktestEngine (bt_ticker_id b) (engine_ b) (next_synth_oid_ b) (resting_bid_oid_ b) (resting_ask_oid_ b)
    (last_bid_price_ b) (last_ask_price_ b) (last_bid_qty_ b) (last_ask_qty_ b) (live_ b) (pnl_out_ b)
    (u64 (num_fills_ b + 1)) (num_requotes_ b).

Definition count_requote b : BacktestEngine F :=
  mkBacktestEngine (bt_ticker_id b) (engine_ b) (next_synth_oid_ b) (resting_bid_oid_ b) (resting_ask_oid_ b)
    (last_bid_price_ b) (last_ask_price_ b) (last_bid_qty_ b) (last_ask_qty_ b) (live_ b) (pnl_out_ b)
    (num_fills_ b) (u64 (num_requotes_ b + 1)).

(** [live_.at(tid).at(sideToIndex(side))]. *)
Definition live_slot (tid : Z) (side : Side) b : result LiveAlgoOrder :=
  match live_ b !! Z.to_nat tid with Some a => Ok (sa_get side a) | None => Err OutOfRange end.

Definition set_live_slot (tid : Z) (side : Side) (o : LiveAlgoOrder) b : BacktestEngine F :=
  set_live (alter (sa_set side o) (Z.to_nat tid) (live_ b)) b.

(** [nextSynthOid]. *)
Definition nextSynthOid b : Z * BacktestEngine F :=
  let oid := next_synth_oid_ b in
  let n := u64 (oid + 1) in
  (oid, set_synth_oid (if 900000 <=? n then 500000 else n) b).

(** [publishResponse]: into the queue the trade engine reads. *)
Definition publishResponse (r : MEClientResponse) b : BacktestEngine F :=
  set_engine (set_responses (enqueue r (incoming_ogw_responses_ (engine_ b))) (engine_ b)) b.
End Setters.

Section Backtest.
Context {F : Type} `{!Double F} `{!DoubleMath F} `{!DoubleCast F}.
Implicit Types (b : BacktestEngine F).

(** The constructor; [mem] is the uninitialised memory, [now] the session start. *)
Definition BacktestEngine_new (tid : Z) (cfg : TradeEngineCfg F) (mem : EngineMemory F) (now : Z)
    : result (BacktestEngine F) :=
  let ticker_cfg := replicate (Z.to_nat ME_MAX_TICKERS) TradeEngineCfg_default in
  if decide (Z.to_nat tid < length ticker_cfg)%nat then
    let* te := TradeEngine_new 1 MAKER (<[Z.to_nat tid := cfg]> ticker_cfg) mem now
                 (LFQueue_new ME_MAX_CLIENT_UPDATES) (LFQueue_new ME_MAX_CLIENT_UPDATES)
                 (LFQueue_new ME_MAX_MARKET_UPDATES) in
    let o := LiveAlgoOrder_default in
    Ok (mkBacktestEngine tid te 500000 OrderId_INVALID OrderId_INVALID Price_INVALID Price_INVALID 0 0
          (replicate (Z.to_nat ME_MAX_TICKERS) (mkSideArray o o o o)) [] 0 0)
  else Err OutOfRange.

(** [publishMarketUpdate] *)
Definition publishMarketUpdate (fuel : nat) (now : Z) (u : MEMarketUpdate) b : result (BacktestEngine F) :=
  match ticker_order_book_ (engine_ b) !! Z.to_nat (mu_ticker_id_ u) with
  | None => Err OutOfRange
  | Some mb => let* te := te_book_update fuel now u mb (engine_ b) in Ok (set_engine te b)
  end.

(** ** The fill simulator *)

Definition harness_response (type : ClientResponseType) (tid : Z) (side : Side) (oid price exec leaves : Z)
    : MEClientResponse := mkMEClientResponse type 1 tid oid oid side price exec leaves.

(** The part [sweepBid], [sweepAsk] and [matchAgainstTrade] share: a fill of the
    slot, reported and taken from the remaining quantity. *)
Definition fill_slot (tid : Z) (side : Side) (o : LiveAlgoOrder) (price fill_qty : Z) b : BacktestEngine F :=
  let leaves := u32 (lo_leaves o - fill_qty) in
  let rsp := harness_response FILLED tid side (lo_order_id o) price fill_qty leaves in
  let o := mkLiveAlgoOrder (lo_order_id o) (lo_price o) (lo_side o) leaves (lo_ahead o) (lo_created_ns o) in
  publishResponse rsp (count_fill (set_live_slot tid side (if leaves =? 0 then LiveAlgoOrder_default else o) b)).

(** [sweepBid] and [sweepAsk]: the touch of the other side is at [price]. *)
Definition sweepSlot (tid : Z) (side : Side) (o : LiveAlgoOrder) (price qty : Z) b : BacktestEngine F :=
  if 0 <? lo_ahead o then
    set_live_slot tid side LiveAlgoOrder_default
      (publishResponse (harness_response CANCELED tid side (lo_order_id o) (lo_price o) 0 0) b)
  else fill_slot tid side o price (Z.min (lo_leaves o) qty) b.

Definition matchAgainstBBO b : result (BacktestEngine F) :=
  let tid := bt_ticker_id b in
  let* bid_slot := live_slot tid BUY b in
  let b := if (0 <? lo_leaves bid_slot) && negb (last_ask_price_ b =? Price_INVALID)
              && (last_ask_price_ b <=? lo_price bid_slot)
           then sweepSlot tid BUY bid_slot (last_ask_price_ b) (last_ask_qty_ b) b else b in
  let* ask_slot := live_slot tid SELL b in
  Ok (if (0 <? lo_leaves ask_slot) && negb (last_bid_price_ b =? Price_INVALID)
         && (lo_price ask_slot <=? last_bid_price_ b)
      then sweepSlot tid SELL ask_slot (last_bid_price_ b) (last_bid_qty_ b) b else b).

(** One side of [matchAgainstTrade].  [eat] is a [double] in the code: the minimum
    of two 32-bit integers, which a double holds exactly. *)
Definition burn_and_fill (tid : Z) (side : Side) (o : LiveAlgoOrder) (qty : Z) b : BacktestEngine F :=
  let eat := Z.min (lo_ahead o) qty in
  let ahead := u32 (lo_ahead o - eat) in
  let o := mkLiveAlgoOrder (lo_order_id o) (lo_price o) (lo_side o) (lo_leaves o) ahead (lo_created_ns o) in
  let remaining := qty - eat in
  let b := set_live_slot tid side o b in
  if (0 <? remaining) && (ahead =? 0)
  then fill_slot tid side o (lo_price o) (Z.min (lo_leaves o) remaining) b else b.

Definition matchAgainstTrade (ev : TradeEvent) b : result (BacktestEngine F) :=
  let tid := bt_ticker_id b in
  match t_side ev with
  | BUY =>
      let* ask_slot := live_slot tid SELL b in
      Ok (if (0 <? lo_leaves ask_slot) && (lo_price ask_slot <=? t_price ev)
          then burn_and_fill tid SELL ask_slot (t_qty ev) b else b)
  | SELL =>
      let* bid_slot := live_slot tid BUY b in
      Ok (if (0 <? lo_leaves bid_slot) && (t_price ev <=? lo_price bid_slot)
          then burn_and_fill tid BUY bid_slot (t_qty ev) b else b)
  | _ => Ok b
  end.

(** ** Applying events *)

Definition side_changed (price qty last_price last_qty : Z) : bool :=
  negb (price =? last_price) || negb (qty =? last_qty).

(** Cancels the synthetic order of a side. *)
Definition cancel_synth (fuel : nat) (now : Z) (side : Side) (price qty : Z) b : result (BacktestEngine F) :=
  let oid := if is_buy side then resting_bid_oid_ b else resting_ask_oid_ b in
  if oid =? OrderId_INVALID then Ok b
  else
    let* b := publishMarketUpdate fuel now (mkMEMarketUpdate MU_CANCEL oid (bt_ticker_id b) side price qty 0) b in
    Ok (set_resting side OrderId_INVALID b).

(** Adds the synthetic order of a side and remembers price and quantity. *)
Definition add_synth (fuel : nat) (now : Z) (side : Side) (price qty : Z) b : result (BacktestEngine F) :=
  let* b := (if price =? Price_INVALID then Ok b
             else
               let (oid, b) := nextSynthOid b in
               let b := set_resting side oid b in
               publishMarketUpdate fuel now (mkMEMarketUpdate MU_ADD oid (bt_ticker_id b) side price qty 0) b) in
  Ok (set_last side price qty b).

Definition applyBookEvent (fuel : nat) (wall : nat → Z) (ev : BookTopEvent) b : result (BacktestEngine F) :=
  let bid_changed := side_changed (b_bid_price ev) (b_bid_qty ev) (last_bid_price_ b) (last_bid_qty_ b) in
  let ask_changed := side_changed (b_ask_price ev) (b_ask_qty ev) (last_ask_price_ b) (last_ask_qty_ b) in
  let* b := (if bid_changed then cancel_synth fuel (wall 0%nat) BUY (last_bid_price_ b) (last_bid_qty_ b) b else Ok b) in
  let* b := (if ask_changed then cancel_synth fuel (wall 1%nat) SELL (last_ask_price_ b) (last_ask_qty_ b) b else Ok b) in
  let* b := (if bid_changed then add_synth fuel (wall 2%nat) BUY (b_bid_price ev) (b_bid_qty ev) b else Ok b) in
  let* b := (if ask_changed then add_synth fuel (wall 3%nat) SELL (b_ask_price ev) (b_ask_qty ev) b else Ok b) in
  matchAgainstBBO b.

Definition applyTradeEvent (fuel : nat) (wall : nat → Z) (ev : TradeEvent) b : result (BacktestEngine F) :=
  let trade := mkMEMarketUpdate MU_TRADE OrderId_INVALID (bt_ticker_id b) (t_side ev) (t_price ev) (t_qty ev) 0 in
  let* b := publishMarketUpdate fuel (wall 0%nat) trade b in
  matchAgainstTrade ev b.

(** ** The queues between the harness and the trade engine *)

(** The body of [pumpClientRequests]: the response and the new slot. *)
Definition handle_request (now_ns : Z) (req : MEClientRequest) b : result (BacktestEngine F) :=
  let tid := req_ticker_id_ req in
  let side := req_side_ req in
  let* _ := live_slot tid side b in
  let rsp type := mkMEClientResponse type (req_client_id_ req) tid (req_order_id_ req) (req_order_id_ req) side
                    (req_price_ req) 0 (req_qty_ req) in
  if bool_decide (req_type_ req = Req_NEW) then
    let ahead := if is_buy side
                 then if req_price_ req =? last_bid_price_ b then last_bid_qty_ b else 0
                 else if req_price_ req =? last_ask_price_ b then last_ask_qty_ b else 0 in
    let o := mkLiveAlgoOrder (req_order_id_ req) (req_price_ req) side (req_qty_ req) ahead now_ns in
    Ok (publishResponse (rsp ACCEPTED) (count_requote (set_live_slot tid side o b)))
  else
    Ok (publishResponse (rsp CANCELED) (set_live_slot tid side LiveAlgoOrder_default b)).

Definition requests b : LFQueue MEClientRequest := outgoing_ogw_requests_ (te_trader (engine_ b)).

Definition set_requests (q : LFQueue MEClientRequest) b : BacktestEngine F :=
  let te := engine_ b in
  let t := te_trader te in
  set_engine (set_trader (mkTrader (tr_client_id_ t) (position_keeper_ t) (ticker_risk_ t) (order_manager_ t) q) te) b.

Fixpoint pumpClientRequests (n : nat) (now_ns : Z) b : result (BacktestEngine F) :=
  match getNextToRead (requests b) with
  | None => Ok b
  | Some req =>
      match n with
      | O => Err OutOfFuel
      | S n =>
          let* b := handle_request now_ns req b in
          let* q := updateReadIndex (requests b) in
          pumpClientRequests n now_ns (set_requests q b)
      end
  end.

(** The loop is the one of [TradeEngine::run]. *)
Definition pumpClientResponses (n : nat) b : result (BacktestEngine F) :=
  let* te := te_drain_responses n (engine_ b) in
  Ok (set_engine te b).

(** ** Profit and loss *)

Definition recordPnL (now_ns : Z) b : result (BacktestEngine F) :=
  let te := engine_ b in
  let* pos_info := positionInfo (bt_ticker_id b) te in
  let* mid := (if negb (last_bid_price_ b =? Price_INVALID) && negb (last_ask_price_ b =? Price_INVALID)
               then let* sum := int64 (last_bid_price_ b + last_ask_price_ b) in
                    Ok (d_of_Z 1 / d_of_Z 2 * d_of_Z sum)%D
               else Ok (d_of_Z 0)) in
  Ok (add_row (mkPnLRow now_ns mid (last_bid_price_ b) (last_ask_price_ b) (ps_position pos_info) (ps_real_pnl pos_info)
                 (ps_unreal_pnl pos_info) (ps_total_pnl pos_info) (ps_volume pos_info) (num_fills_ b) (num_requotes_ b)
                 (sigma_of (feature_engine_ te)) (ofi_of (feature_engine_ te))) b).

Definition kPnlSamplePeriodNs : Z := 50000000.

(** What follows every event: the two pumps and the sampling. *)
Definition after_event (now_ns last_pnl_ns : Z) b : result (BacktestEngine F * Z) :=
  let* b := pumpClientRequests (Z.to_nat (size_ (requests b))) now_ns b in
  let* b := pumpClientResponses (Z.to_nat (size_ (incoming_ogw_responses_ (engine_ b)))) b in
  let* d := int64 (now_ns - last_pnl_ns) in
  if kPnlSamplePeriodNs <=? d then let* b := recordPnL now_ns b in Ok (b, now_ns) else Ok (b, last_pnl_ns).

(** The end of [run] and [runLobster]. *)
Definition finish_run (last_pnl_ns : Z) b : result (BacktestEngine F) :=
  let* b := pumpClientResponses (Z.to_nat (size_ (incoming_ogw_responses_ (engine_ b)))) b in
  recordPnL last_pnl_ns b.

(** ** [run] on the tape *)

Context `{!DoubleLog F} `{!DoubleText F}.

Definition tape_step (fuel : nat) (wall : nat → Z) (ev : TapeEvent) b : result (BacktestEngine F) :=
  match ev with
  | BookTop e => applyBookEvent fuel wall e b
  | Trade e => applyTradeEvent fuel wall e b
  end.

(** [n] bounds the number of events. *)
Fixpoint run_tape (fuel n : nat) (wall : nat → nat → Z) (r : TapeReader F) (last_pnl_ns : Z) b
    : result (BacktestEngine F) :=
  match n with
  | O => Err OutOfFuel
  | S n =>
      let* (ev, r) := next r in
      match ev with
      | None => finish_run last_pnl_ns b
      | Some ev =>
          let* b := tape_step fuel (wall n) ev b in
          let* (b, last_pnl_ns) := after_event (event_ns ev) last_pnl_ns b in
          run_tape fuel n wall r last_pnl_ns b
      end
  end.

(** ** [runLobster] *)

Definition syncBBOFromBook b : result (BacktestEngine F) :=
  let* mb := orderBook (bt_ticker_id b) (engine_ b) in
  let bbo := bbo_ mb in
  let qty q := if q =? Qty_INVALID then 0 else q in
  Ok (set_last SELL (ask_price_ bbo) (qty (ask_qty_ bbo)) (set_last BUY (bid_price_ bbo) (qty (bid_qty_ bbo)) b)).

Definition lobster_step (fuel : nat) (wall : nat → Z) (now_ns : Z) (mu : MEMarketUpdate) b
    : result (BacktestEngine F) :=
  let* b := publishMarketUpdate fuel (wall 0%nat) mu b in
  let* b := syncBBOFromBook b in
  if bool_decide (mu_type_ mu = MU_TRADE)
  then matchAgainstTrade (mkTradeEvent now_ns (mu_price_ mu) (mu_qty_ mu) (mu_side_ mu)) b
  else matchAgainstBBO b.

Fixpoint runLobster `{!HashOrder} (fuel n : nat) (wall : nat → nat → Z) (r : LobsterReader) (last_pnl_ns : Z) b
    : result (BacktestEngine F) :=
  match n with
  | O => Err OutOfFuel
  | S n =>
      let* (ev, r) := lob_next (F:=F) r in
      match ev with
      | None => finish_run last_pnl_ns b
      | Some (now_ns, mu) =>
          let* b := lobster_step fuel (wall n) now_ns mu b in
          let* (b, last_pnl_ns) := after_event now_ns last_pnl_ns b in
          runLobster fuel n wall r last_pnl_ns b
      end
  end.
End Backtest.

(** ** The whole program *)

Section Run.
Context {F : Type} `{!Double F} `{!DoubleMath F} `{!DoubleCast F} `{!DoubleLog F} `{!DoubleText F} `{!HashOrder}.

(** The reader the constructor opens; the default of [levels] is 10. *)
Definition open_tape (tid : Z) (cfg : TapeConfig F) (path : string) (open : string → option string)
    : result (TapeReader F + LobsterReader) :=
  if bool_decide (format cfg = "lobster")
  then let* r := LobsterReader_new (mkLobsterConfig tid 10 (max_events cfg)) path open in Ok (inr r)
  else let* r := TapeReader_new cfg (open path) in Ok (inl r).

(** [run]. *)
Definition backtest_run (fuel n : nat) (wall : nat → nat → Z) (tape : TapeReader F + LobsterReader)
    (b : BacktestEngine F) : result (BacktestEngine F) :=
  match tape with
  | inl r => run_tape fuel n wall r 0 b
  | inr r => runLobster fuel n wall r 0 b
  end.
End Run.
