(* ===== verification/BacktestProofs.v ===== *)
(** * The harness and the trade engine stay in step.

    Lemmas on Backtest.v.  For every ticker and side the order of the order
    manager, the requests and responses still in the queues and the order the
    harness simulates agree ([slot_state]); every operation of the harness
    preserves that ([harness]), so that each simulated response is one the trade
    engine may receive, and the position limit carries over to the backtest. *)

From Stdlib Require Import Ascii String.
From stdpp Require Import numbers strings gmap sorting relations list.
From S2P Require Import Prelude Types MemPool LFQueue BookSpec MarketOrderBook MatchingEngine Double Logging Position OrderManager Features Strategy StrategySafety Parse Tape Lobster Backtest.

Open Scope Z_scope.

(** ** One slot *)

(** What a response does to the order of its slot. *)
Definition settle1 (r : MEClientResponse) (o : OMOrder) : OMOrder :=
  match resp_type_ r with
  | ACCEPTED => set_state LIVE o
  | CANCELED => set_state DEAD o
  | FILLED => let o := set_om_qty (resp_leaves_qty_ r) o in if om_qty_ o =? 0 then set_state DEAD o else o
  | CANCEL_REJECTED | Resp_INVALID => o
  end.

(** A response that fits the order. *)
Definition fits (r : MEClientResponse) (o : OMOrder) : Prop :=
  match resp_type_ r with
  | FILLED => is_working o ∧ 0 ≤ resp_exec_qty_ r ≤ om_qty_ o ∧ resp_leaves_qty_ r = om_qty_ o - resp_exec_qty_ r
  | ACCEPTED => order_state_ o = PENDING_NEW
  | CANCELED => True
  | CANCEL_REJECTED | Resp_INVALID => False
  end.

Definition settle (ps : list MEClientResponse) (o : OMOrder) : OMOrder := foldl (λ o r, settle1 r o) o ps.

Fixpoint fit_all (ps : list MEClientResponse) (o : OMOrder) : Prop :=
  match ps with
  | [] => True
  | r :: ps => fits r o ∧ fit_all ps (settle1 r o)
  end.

(** The order [o] of the order manager, the requests [rs] and responses [ps] in
    flight, and the quantity [leaves] the harness still has to simulate. *)
Record slot_state (ticker_id : Z) (side : Side) (o : OMOrder) (rs : list MEClientRequest)
    (ps : list MEClientResponse) (leaves : Z) : Prop := {
  st_fit : fit_all ps o;
  st_leaves : 0 ≤ leaves < 2 ^ 32;
  st_open : 0 < leaves → is_working (settle ps o) ∧ om_qty_ (settle ps o) = leaves;
  st_id : is_working o → om_ticker_id_ o = ticker_id ∧ om_side_ o = side;
  st_requests : match rs with
                | [] => is_working (settle ps o) → order_state_ (settle ps o) = LIVE ∧ om_qty_ (settle ps o) = leaves
                | [r] => match req_type_ r with
                         | Req_NEW => ps = [] ∧ order_state_ o = PENDING_NEW ∧ om_qty_ o = req_qty_ r
                                      ∧ 0 ≤ req_qty_ r < 2 ^ 32 ∧ leaves = 0
                         | Req_CANCEL => order_state_ o = PENDING_CANCEL
                         | Req_INVALID => False
                         end
                | _ => False
                end }.

Lemma settle_snoc ps r o : settle (ps ++ [r]) o = settle1 r (settle ps o).
Proof. unfold settle. by rewrite foldl_app. Qed.

Lemma fit_all_snoc ps r o : fit_all (ps ++ [r]) o ↔ fit_all ps o ∧ fits r (settle ps o).
Proof.
  revert o. induction ps as [|p ps IH]; intros o; simpl; [tauto|]. rewrite IH. unfold settle. simpl. tauto.
Qed.

Lemma is_working_settle1 r o : fits r o → is_working (settle1 r o) → is_working o.
Proof.
  unfold fits, settle1, is_working. destruct (resp_type_ r); simpl; [tauto| | |by intros []..].
  all: try naive_solver.
Qed.

Lemma working_dead o : ¬ is_working (set_state DEAD o).
Proof. unfold is_working. simpl. naive_solver. Qed.

Lemma working_leaves n o :
  0 ≤ n → is_working o → let o' := set_om_qty n o in
  let o'' := if om_qty_ o' =? 0 then set_state DEAD o' else o' in
  (0 < n → is_working o'' ∧ om_qty_ o'' = n ∧ order_state_ o'' = order_state_ o) ∧ (is_working o'' → 0 < n).
Proof.
  intros Hn Hw. simpl. destruct (Z.eqb_spec n 0) as [->|Hne].
  - split; [lia|]. by intros H%working_dead.
  - split; [done|lia].
Qed.

Section slot_steps.
Context (ticker_id : Z) (side : Side).
Implicit Types (o : OMOrder) (r : MEClientRequest) (p : MEClientResponse).

Abbreviation state := (slot_state ticker_id side).

(** The order manager sends a new order. *)
Lemma slot_new o o' rs r leaves :
  state o rs [] leaves → ¬ is_working o → req_type_ r = Req_NEW → order_state_ o' = PENDING_NEW →
  om_qty_ o' = req_qty_ r → om_ticker_id_ o' = ticker_id → om_side_ o' = side → 0 ≤ req_qty_ r < 2 ^ 32 →
  rs = [] ∧ state o' [r] [] leaves.
Proof.
  intros [_ Hl Ho _ Hr] Hw Ht Hst Hq Hid Hs Hpos. simpl in *.
  assert (leaves = 0) as -> by (destruct (decide (0 < leaves)) as [H|]; [by destruct (Ho H)|lia]).
  split.
  - destruct rs as [|r1 [|]]; [done| |done]. destruct (req_type_ r1); [done| |].
    + destruct Hr as (_ & E & _). destruct Hw. by left.
    + destruct Hw. right; by right.
  - split; simpl; try done; try lia. by rewrite Ht.
Qed.

(** It cancels a live order. *)
Lemma slot_cancel o rs r leaves :
  state o rs [] leaves → order_state_ o = LIVE → req_type_ r = Req_CANCEL →
  rs = [] ∧ state (set_state PENDING_CANCEL o) [r] [] leaves ∧ om_ticker_id_ o = ticker_id ∧ om_side_ o = side.
Proof.
  intros [_ Hl Ho Hi Hr] Hlive Ht. simpl in *. split; [|split].
  - destruct rs as [|r1 [|]]; [done| |done]. destruct (req_type_ r1); [done| |congruence].
    destruct Hr as (_ & E & _). congruence.
  - split; simpl; try done.
    + intros H. destruct (Ho H). split; [|done]. right; by right.
    + intros _. apply Hi. right; by left.
    + by rewrite Ht.
  - apply Hi. right; by left.
Qed.

(** The harness fills the order, or cancels it. *)
Lemma slot_fill o rs ps leaves p :
  state o rs ps leaves → 0 < leaves → resp_type_ p = FILLED → 0 ≤ resp_exec_qty_ p ≤ leaves →
  resp_leaves_qty_ p = leaves - resp_exec_qty_ p → state o rs (ps ++ [p]) (leaves - resp_exec_qty_ p).
Proof.
  intros [Hf Hl Ho Hi Hr] Hpos Ht Hq Hlv. destruct (Ho Hpos) as [Hw Hqty].
  pose proof (working_leaves (resp_leaves_qty_ p) _ ltac:(lia) Hw) as [Hw1 Hw2].
  assert (settle1 p (settle ps o) = let o' := set_om_qty (resp_leaves_qty_ p) (settle ps o) in
    if om_qty_ o' =? 0 then set_state DEAD o' else o') as Es by (unfold settle1; by rewrite Ht).
  split; rewrite ?settle_snoc, ?Es; [|lia| |done|].
  - apply fit_all_snoc. split; [done|]. unfold fits. rewrite Ht, Hqty. split_and!; [done|lia..].
  - intros H. destruct (Hw1 ltac:(lia)) as (H1 & H2 & _). split; [done|]. etrans; [exact H2|lia].
  - destruct rs as [|r1 [|]]; [|destruct (req_type_ r1); try done|done].
    + intros H. specialize (Hw2 H). destruct (Hw1 Hw2) as (H1 & H2 & H3). destruct (Hr Hw). split; [etrans; [exact H3|done]|etrans; [exact H2|lia]].
    + destruct Hr as (_ & _ & _ & _ & E). lia.
Qed.

Lemma slot_sweep_cancel o rs ps leaves p :
  state o rs ps leaves → 0 < leaves → resp_type_ p = CANCELED → state o rs (ps ++ [p]) 0.
Proof.
  intros [Hf Hl Ho Hi Hr] Hpos Ht.
  assert (settle1 p (settle ps o) = set_state DEAD (settle ps o)) as Es by (unfold settle1; by rewrite Ht).
  split; rewrite ?settle_snoc, ?Es; [|done|lia|done|].
  - apply fit_all_snoc. split; [done|]. unfold fits. by rewrite Ht.
  - destruct rs as [|r1 [|]]; [|destruct (req_type_ r1); try done|done].
    + by intros H%working_dead.
    + destruct Hr as (_ & _ & _ & _ & E). lia.
Qed.

(** The harness takes the request up. *)
Lemma slot_accept o r ps leaves p :
  state o [r] ps leaves → req_type_ r = Req_NEW → resp_type_ p = ACCEPTED → state o [] (ps ++ [p]) (req_qty_ r).
Proof.
  intros [Hf Hl Ho Hi Hr] Ht Hp. rewrite Ht in Hr. destruct Hr as (-> & Hst & Hq & Hpos & ->).
  assert (settle1 p o = set_state LIVE o) as Es by (unfold settle1; by rewrite Hp).
  split; simpl; rewrite ?Es; try done.
  - unfold fits. by rewrite Hp.
  - intros H. split; [right; by left|done].
Qed.

Lemma slot_canceled o r ps leaves p :
  state o [r] ps leaves → req_type_ r ≠ Req_NEW → resp_type_ p = CANCELED → state o [] (ps ++ [p]) 0.
Proof.
  intros [Hf Hl Ho Hi Hr] Ht Hp.
  assert (settle1 p (settle ps o) = set_state DEAD (settle ps o)) as Es by (unfold settle1; by rewrite Hp).
  split; rewrite ?settle_snoc, ?Es; try done.
  - apply fit_all_snoc. split; [done|]. unfold fits. by rewrite Hp.
  - by intros H%working_dead.
Qed.

(** The trade engine takes the response up. *)
Lemma slot_settle o rs p ps leaves : state o rs (p :: ps) leaves → rs = [] → state (settle1 p o) [] ps leaves.
Proof.
  intros [[Hf1 Hf2] Hl Ho Hi Hr] ->. split; try done. intros Hw%is_working_settle1; [|done].
  unfold settle1. destruct (Hi Hw). destruct (resp_type_ p); simpl; try done. by destruct (_ =? 0).
Qed.
End slot_steps.

(** ** All slots *)

Definition slot_key : Type := Z * Side.
Definition valid_key (k : slot_key) : Prop := 0 ≤ k.1 < ME_MAX_TICKERS ∧ proper_side k.2.
Definition req_key (r : MEClientRequest) : slot_key := (req_ticker_id_ r, req_side_ r).
Definition resp_key (r : MEClientResponse) : slot_key := (resp_ticker_id_ r, resp_side_ r).
Definition requests_of (k : slot_key) : list MEClientRequest → list MEClientRequest := filter (λ r, req_key r = k).
Definition responses_of (k : slot_key) : list MEClientResponse → list MEClientResponse := filter (λ r, resp_key r = k).

Definition all_keys : list slot_key :=
  ((λ n, (n, BUY)) <$> seqZ 0 ME_MAX_TICKERS) ++ ((λ n, (n, SELL)) <$> seqZ 0 ME_MAX_TICKERS).

Lemma elem_of_all_keys k : valid_key k → k ∈ all_keys.
Proof.
  destruct k as [n s]. intros [Hn [E|E]]; simpl in *; subst s; unfold all_keys; apply elem_of_app; [left|right];
    apply list_elem_of_fmap; exists n; (split; [done|]); apply elem_of_seqZ; lia.
Qed.

(** With at most one element per key there are at most as many as keys. *)
Lemma length_by_key {A K} `{EqDecision K} (key : A → K) (ks : list K) (l : list A) :
  (∀ k, k ∈ ks → (length (filter (λ x, key x = k) l) ≤ 1)%nat) → Forall (λ x, key x ∈ ks) l → (length l ≤ length ks)%nat.
Proof.
  revert l. induction ks as [|k ks IH]; intros l H1 Hl.
  { destruct l; [done|]. apply Forall_cons in Hl as [[]%elem_of_nil _]. }
  pose proof (H1 k ltac:(left)) as Hk.
  rewrite <- (filter_app_complement (λ x, key x = k) l), length_app. simpl.
  enough (length (filter (λ x, key x ≠ k) l) ≤ length ks)%nat by lia. apply IH.
  - intros k' Hk'. etrans; [|apply (H1 k'); by right]. apply sublist_length.
    rewrite list_filter_filter. rewrite (list_filter_iff _ (λ x, key x ≠ k ∧ key x = k') l); [|tauto].
    rewrite <- list_filter_filter. apply sublist_filter.
  - apply Forall_forall. intros x [Hne Hx]%list_elem_of_filter. rewrite Forall_forall in Hl.
    specialize (Hl x Hx). apply elem_of_cons in Hl as [?|?]; done.
Qed.

Lemma requests_of_snoc k rl r :
  requests_of k (rl ++ [r]) = requests_of k rl ++ (if decide (req_key r = k) then [r] else []).
Proof. unfold requests_of. rewrite filter_app. by f_equal. Qed.

Lemma responses_of_snoc k pl p :
  responses_of k (pl ++ [p]) = responses_of k pl ++ (if decide (resp_key p = k) then [p] else []).
Proof. unfold responses_of. rewrite filter_app. by f_equal. Qed.

Lemma om_slot_set n s n' s' o o0 om :
  0 ≤ n → 0 ≤ n' → om_slot n s om = Some o0 →
  om_slot n' s' (set_om_slot n s o om) = if decide ((n, s) = (n', s')) then Some o else om_slot n' s' om.
Proof.
  intros Hn Hn' Ho. unfold om_slot, set_om_slot in *. cbn [ticker_side_order_].
  destruct (decide (n = n')) as [<-|Hne].
  - rewrite list_lookup_alter_eq. destruct (ticker_side_order_ om !! Z.to_nat n) as [a|]; [|done]. simpl.
    case_decide as Hd; [injection Hd as <-; by destruct s|]. f_equal. by destruct s, s'.
  - rewrite list_lookup_alter_ne by lia. by rewrite decide_False by congruence.
Qed.

Section TraderSync.
Context {F : Type} `{!Double F}.
Implicit Types (t : Trader F (LFQueue MEClientRequest)) (lv : Z → Side → Z).
Implicit Types (rl : list MEClientRequest) (pl : list MEClientResponse).

Record trader_sync lv t rl pl : Prop := {
  ts_queue : lfq_rep (outgoing_ogw_requests_ t) rl;
  ts_size : q_size (outgoing_ogw_requests_ t) = ME_MAX_CLIENT_UPDATES;
  ts_keys : Forall (λ r, valid_key (req_key r)) rl;
  ts_slot : ∀ n s, valid_key (n, s) → ∃ o, om_slot n s (order_manager_ t) = Some o
    ∧ slot_state n s o (requests_of (n, s) rl) (responses_of (n, s) pl) (lv n s) }.

Lemma requests_bound lv t rl pl : trader_sync lv t rl pl → (length rl ≤ 16)%nat.
Proof.
  intros [_ _ Hk Hs]. change 16%nat with (length all_keys). apply (length_by_key req_key).
  - intros k Hin. assert (valid_key k) as Hv.
    { unfold all_keys in Hin. apply elem_of_app in Hin as [H|H]; apply list_elem_of_fmap in H as (n & -> & H);
        apply elem_of_seqZ in H; (split; [simpl; lia|]); [by left|by right]. }
    destruct k as [n s]. destruct (Hs n s Hv) as (o & _ & [_ _ _ _ Hr]). unfold requests_of in Hr.
    destruct (filter _ rl) as [|r1 [|]]; simpl; [lia..|done].
  - eapply Forall_impl; [exact Hk|]. intros r. apply elem_of_all_keys.
Qed.

(** Sending the request of a slot and changing its order. *)
Lemma sync_send lv t rl n s o0 o r om :
  trader_sync lv t rl [] → valid_key (n, s) → om_slot n s (order_manager_ t) = Some o0 → req_key r = (n, s) →
  ticker_side_order_ om = ticker_side_order_ (set_om_slot n s o (order_manager_ t)) →
  requests_of (n, s) rl = [] → slot_state n s o [r] [] (lv n s) →
  trader_sync lv (mkTrader (tr_client_id_ t) (position_keeper_ t) (ticker_risk_ t) om
                    (sendClientRequest_to r (outgoing_ogw_requests_ t))) (rl ++ [r]) [].
Proof.
  intros Hsync Hv Ho Hkey Hom Hnone Hst. pose proof (requests_bound _ _ _ _ Hsync) as Hlen.
  destruct Hsync as [Hq Hsz Hk Hs].
  destruct (enqueue_ok _ _ r Hq) as [Hq' Hsz']; [rewrite Hsz; unfold ME_MAX_CLIENT_UPDATES; lia|].
  split; cbn [outgoing_ogw_requests_ order_manager_]; [done|etrans; [exact Hsz'|done]| |].
  - apply Forall_app. split; [done|]. constructor; [by rewrite Hkey|constructor].
  - intros n' s' Hv'.
    assert (om_slot n' s' om = if decide ((n, s) = (n', s')) then Some o else om_slot n' s' (order_manager_ t)) as ->.
    { rewrite <- (om_slot_set n s n' s' o o0) by (done || apply Hv || apply Hv'). unfold om_slot. by rewrite Hom. }
    rewrite requests_of_snoc, Hkey. destruct (decide ((n, s) = (n', s'))) as [Hd|Hd].
    + rewrite !decide_True by done. injection Hd as <- <-. exists o. by rewrite Hnone.
    + rewrite !decide_False by done. destruct (Hs n' s' Hv') as (o' & Ho' & Hst'). exists o'. by rewrite app_nil_r.
Qed.

Lemma moveOrder_sync lv t t' rl n s price qty :
  trader_sync lv t rl [] → Forall cfg_ok (ticker_risk_ t) → valid_key (n, s) → 0 ≤ qty →
  moveOrder n price s qty t = Ok t' → ∃ rl', trader_sync lv t' rl' [].
Proof.
  intros Hsync Hcfg Hv Hq [|o Ho Hlive|o Ho Hw _ Hrisk]%moveOrder_outcome; [by eexists|..].
  - destruct (ts_slot _ _ _ _ Hsync n s Hv) as (o1 & E & Hst). rewrite Ho in E. injection E as <-.
    set (r := mkMEClientRequest Req_CANCEL (tr_client_id_ t) (om_ticker_id_ o) (om_order_id_ o) (om_side_ o)
                (om_price_ o) (om_qty_ o)).
    destruct (slot_cancel n s o _ r _ Hst Hlive eq_refl) as (Hnone & Hst' & Hid & Hside).
    exists (rl ++ [r]). apply (sync_send lv t rl n s o (set_state PENDING_CANCEL o) r); try done.
    unfold req_key, r. simpl. by rewrite Hid, Hside.
  - destruct (ts_slot _ _ _ _ Hsync n s Hv) as (o1 & E & Hst). rewrite Ho in E. injection E as <-.
    set (r := mkMEClientRequest Req_NEW (tr_client_id_ t) n (next_order_id_ (order_manager_ t)) s price qty).
    set (o' := mkOMOrder n (next_order_id_ (order_manager_ t)) s price qty PENDING_NEW).
    assert (0 ≤ qty < 2 ^ 32) as Hqty.
    { unfold risk_manager_check in Hrisk. destruct (ticker_risk_ t !! _) as [cfg|] eqn:Ec; [|done].
      destruct (ticker_position_ _ !! _) as [p|]; [|done]. pose proof (proj1 (Forall_lookup _ _) Hcfg _ _ Ec) as Hok.
      destruct (risk_allowed cfg p s qty Hok (proj2 Hv) Hq Hrisk) as (Hm & _). destruct Hok as [Hsz _]. lia. }
    destruct (slot_new n s o o' _ r _ Hst Hw) as (Hnone & Hst'); [done..|].
    exists (rl ++ [r]). by apply (sync_send lv t rl n s o o' r).
Qed.

Lemma cancel_if_live_sync lv t t' rl n s :
  trader_sync lv t rl [] → valid_key (n, s) → cancel_if_live n s t = Ok t' → ∃ rl', trader_sync lv t' rl' [].
Proof.
  intros Hsync Hv. unfold cancel_if_live. destruct (om_slot n s (order_manager_ t)) as [o|] eqn:Ho; [|done].
  intros [= <-]. case_bool_decide as Hlive; [|by eexists].
  destruct (ts_slot _ _ _ _ Hsync n s Hv) as (o1 & E & Hst). rewrite Ho in E. injection E as <-.
  set (r := mkMEClientRequest Req_CANCEL (tr_client_id_ t) (om_ticker_id_ o) (om_order_id_ o) (om_side_ o)
              (om_price_ o) (om_qty_ o)).
  destruct (slot_cancel n s o _ r _ Hst Hlive eq_refl) as (Hnone & Hst' & Hid & Hside).
  exists (rl ++ [r]). apply (sync_send lv t rl n s o (set_state PENDING_CANCEL o) r); try done.
  unfold req_key, r. simpl. by rewrite Hid, Hside.
Qed.
End TraderSync.

(** ** The trade engine's callbacks *)

Section EngineSync.
Context {F : Type} `{!Double F} `{!DoubleMath F} `{!DoubleCast F}.
Implicit Types (te : TradeEngine F (LFQueue MEClientRequest)) (t : Trader F (LFQueue MEClientRequest)).
Implicit Types (lv : Z → Side → Z) (rl : list MEClientRequest).

Lemma valid_key_intro n s : 0 ≤ n < ME_MAX_TICKERS → proper_side s → valid_key (n, s).
Proof. done. Qed.

Lemma moveOrder_risk t t' n price s qty : moveOrder n price s qty t = Ok t' → ticker_risk_ t' = ticker_risk_ t.
Proof. by intros [|o _ _|o _ _ _ _]%moveOrder_outcome. Qed.

Lemma moveOrders_sync lv t t' rl n bid ask clip :
  trader_sync lv t rl [] → Forall cfg_ok (ticker_risk_ t) → 0 ≤ n < ME_MAX_TICKERS → 0 ≤ clip →
  moveOrders n bid ask clip t = Ok t' → ∃ rl', trader_sync lv t' rl' [].
Proof.
  intros Hs Hc Hn Hq (t1 & H1 & H2)%bind_ok.
  destruct (moveOrder_sync lv t t1 rl n BUY bid clip Hs Hc (valid_key_intro n BUY Hn (or_introl eq_refl)) Hq H1) as [rl1 Hs1].
  eapply moveOrder_sync; [exact Hs1| |exact (valid_key_intro n SELL Hn (or_intror eq_refl))|exact Hq|exact H2].
  by rewrite (moveOrder_risk _ _ _ _ _ _ H1).
Qed.

Lemma cancelOrders_sync lv t t' rl n :
  trader_sync lv t rl [] → 0 ≤ n < ME_MAX_TICKERS → cancelOrders n t = Ok t' → ∃ rl', trader_sync lv t' rl' [].
Proof.
  intros Hs Hn (t1 & H1 & H2)%bind_ok.
  destruct (cancel_if_live_sync lv t t1 rl n BUY Hs (valid_key_intro n BUY Hn (or_introl eq_refl)) H1) as [rl1 Hs1].
  by eapply cancel_if_live_sync; [exact Hs1|exact (valid_key_intro n SELL Hn (or_intror eq_refl))|].
Qed.

Lemma maker_sync lv cfgs start now n bbo fe t t' rl :
  trader_sync lv t rl [] → Forall cfg_ok (ticker_risk_ t) → clips_ok cfgs → 0 ≤ n < ME_MAX_TICKERS →
  maker_onOrderBookUpdate cfgs start now n bbo fe t = Ok t' → ∃ rl', trader_sync lv t' rl' [].
Proof.
  intros Hs Hr Hc Hn. unfold maker_onOrderBookUpdate. destruct (_ && _); [|intros [= <-]; by eexists].
  destruct (cfgs !! _) as [cfg|] eqn:Ecfg; [|done]. intros (d & Ed & Ha)%bind_ok.
  destruct d as [|bid ask clip]; [by eapply cancelOrders_sync|].
  eapply moveOrders_sync; [exact Hs|done|done| |exact Ha]. by eapply maker_decide_clip; [eapply clips_ok_lookup|].
Qed.

Lemma taker_sync lv cfgs u bbo fe t t' rl :
  trader_sync lv t rl [] → Forall cfg_ok (ticker_risk_ t) → clips_ok cfgs → 0 ≤ mu_ticker_id_ u < ME_MAX_TICKERS →
  taker_onTradeUpdate cfgs u bbo fe t = Ok t' → ∃ rl', trader_sync lv t' rl' [].
Proof.
  intros Hs Hr Hc Hn. unfold taker_onTradeUpdate. destruct (_ && _); [|intros [= <-]; by eexists].
  destruct (cfgs !! _) as [cfg|] eqn:Ecfg; [|done]. pose proof (clips_ok_lookup _ _ _ Hc Ecfg).
  destruct (_ <=? _)%D; [|intros [= <-]; by eexists]. case_bool_decide; intros Hm; by eapply moveOrders_sync.
Qed.

Lemma set_keeper_sync lv t rl pl k : trader_sync lv t rl pl → trader_sync lv (set_keeper k t) rl pl.
Proof. by intros [H1 H2 H3 H4]. Qed.

(** An update of a book passes requests on; the response queue is left alone. *)
Lemma te_book_update_sync lv fuel now u mb te te' rl :
  te_ready te → trader_sync lv (te_trader te) rl [] → 0 ≤ mu_ticker_id_ u < ME_MAX_TICKERS →
  te_book_update fuel now u mb te = Ok te' →
  (∃ rl', trader_sync lv (te_trader te') rl' []) ∧ incoming_ogw_responses_ te' = incoming_ogw_responses_ te.
Proof.
  intros [_ Hc _ Hi] Hs Hn ([mb' notice] & Hu & H)%bind_ok. pose proof (ti_cfg _ Hi) as Hcfg.
  assert (notice = OnTradeUpdate u ∨ ∃ p s, notice = OnOrderBookUpdate (mu_ticker_id_ u) p s) as Hnote.
  { unfold onMarketUpdate in Hu. case_bool_decide; [injection Hu as <- <-; by left|].
    apply bind_ok in Hu as (b' & _ & (bbo & _ & [= <- <-])%bind_ok). right. by eexists _, _. }
  destruct Hnote as [-> | (p & s & ->)]; cbn zeta in H.
  - apply bind_ok in H as (fe & _ & H). cbn zeta in H. cbn [algo_ set_features set_order_books] in H.
    destruct (algo_ te); try (injection H as <-; split; [by eexists|done]).
    apply bind_ok in H as (t & Ht & [= <-]). split; [|done]. by eapply taker_sync.
  - apply bind_ok in H as (k & _ & H). cbn zeta in H. apply bind_ok in H as (fe & _ & H). cbn zeta in H.
    cbn [algo_ set_features set_order_books set_trader] in H.
    assert (trader_sync lv (set_keeper k (te_trader te)) rl []) as Hs' by by apply set_keeper_sync.
    destruct (algo_ te); try (injection H as <-; split; [by eexists|done]).
    apply bind_ok in H as (t & Ht & [= <-]). split; [|done]. by eapply maker_sync in Ht.
Qed.

(** A response settles the slot it is about. *)
Lemma onOrderUpdate_sync lv t t' p pl :
  trader_sync lv t [] (p :: pl) → valid_key (resp_key p) → onOrderUpdate p t = Ok t' → trader_sync lv t' [] pl.
Proof.
  intros [Hq Hsz Hk Hs] Hv (t1 & H1 & (om & H2 & [= <-])%bind_ok)%bind_ok.
  assert (order_manager_ t1 = order_manager_ t ∧ outgoing_ogw_requests_ t1 = outgoing_ogw_requests_ t) as [Eom Eout].
  { case_bool_decide; [|by injection H1 as <-]. by apply bind_ok in H1 as (k & _ & [= <-]). }
  destruct (Hs (resp_ticker_id_ p) (resp_side_ p) Hv) as (o & Ho & Hst).
  unfold responses_of in Hst. rewrite filter_cons_True in Hst by done.
  assert (om = set_om_slot (resp_ticker_id_ p) (resp_side_ p) (settle1 p o) (order_manager_ t)) as ->.
  { unfold om_onOrderUpdate in H2. rewrite Eom, Ho in H2. pose proof (st_fit _ _ _ _ _ _ Hst) as [Hfit _].
    injection H2 as <-. unfold settle1, fits in *. by destruct (resp_type_ p). }
  split; cbn [outgoing_ogw_requests_ order_manager_ set_order_manager]; rewrite ?Eout; try done.
  intros n s Hv'. rewrite (om_slot_set _ _ n s _ o) by (done || apply Hv || apply Hv').
  destruct (decide ((resp_ticker_id_ p, resp_side_ p) = (n, s))) as [Hd|Hd].
  - injection Hd as <- <-. eexists. split; [done|]. by eapply slot_settle in Hst.
  - destruct (Hs n s Hv') as (o' & Ho' & Hst'). exists o'. split; [done|].
    unfold responses_of in Hst'. by rewrite filter_cons_False in Hst' by done.
Qed.

(** Such a response is one the trade engine may receive. *)
Lemma sync_response_ok lv t rl p pl :
  trader_sync lv t rl (p :: pl) → valid_key (resp_key p) → response_ok p t.
Proof.
  intros [_ _ _ Hs] Hv. destruct (Hs (resp_ticker_id_ p) (resp_side_ p) Hv) as (o & Ho & [Hf _ _ _ _]).
  unfold responses_of in Hf. rewrite filter_cons_True in Hf by done. destruct Hf as [Hf _].
  destruct Hv as [Hn Hside]. simpl in *. split; [lia|]. unfold fits in Hf.
  destruct (resp_type_ p); try done; eexists; (split; [done|]); [done|done|]. destruct Hf as (H1 & H2 & H3). done.
Qed.
End EngineSync.

(** ** The invariant of the harness *)

Section Harness.
Context {F : Type} `{!Double F} `{!DoubleMath F} `{!DoubleCast F}.
Implicit Types (b : BacktestEngine F) (rl : list MEClientRequest) (pl : list MEClientResponse).

(** The limits the engine was started with. *)
Context (risks : list (RiskCfg F)).

(** What is left of the simulated order of a slot. *)
Definition leaves_of b (n : Z) (s : Side) : Z :=
  match live_slot n s b with Ok o => lo_leaves o | Err _ => 0 end.

(** [rl] and [pl] are the requests and responses in the queues. *)
Record harness b rl pl : Prop := {
  hv_ready : te_ready (engine_ b);
  hv_risks : ticker_risk_ (te_trader (engine_ b)) = risks;
  hv_ticker : 0 ≤ bt_ticker_id b < ME_MAX_TICKERS;
  hv_qty : 0 ≤ last_bid_qty_ b ∧ 0 ≤ last_ask_qty_ b;
  hv_live : length (live_ b) = Z.to_nat ME_MAX_TICKERS;
  hv_sync : trader_sync (leaves_of b) (te_trader (engine_ b)) rl pl;
  hv_responses : lfq_rep (incoming_ogw_responses_ (engine_ b)) pl;
  hv_rsize : q_size (incoming_ogw_responses_ (engine_ b)) = ME_MAX_CLIENT_UPDATES;
  hv_rkeys : Forall (λ p, valid_key (resp_key p)) pl }.

Lemma live_slot_some b n s :
  length (live_ b) = Z.to_nat ME_MAX_TICKERS → valid_key (n, s) →
  ∃ o, live_slot n s b = Ok o ∧ leaves_of b n s = lo_leaves o.
Proof.
  intros Hl [Hn _]. unfold leaves_of, live_slot. simpl in Hn.
  destruct (lookup_lt_is_Some_2 (live_ b) (Z.to_nat n)) as [a ->]; [lia|]. by eexists.
Qed.

Lemma leaves_of_set b n s o n' s' :
  length (live_ b) = Z.to_nat ME_MAX_TICKERS → valid_key (n, s) → valid_key (n', s') →
  leaves_of (set_live_slot n s o b) n' s' = if decide ((n, s) = (n', s')) then lo_leaves o else leaves_of b n' s'.
Proof.
  intros Hl [Hn _] [Hn' _]. simpl in *. unfold leaves_of, live_slot, set_live_slot. cbn [live_ set_live].
  destruct (decide (n = n')) as [<-|Hne].
  - rewrite list_lookup_alter_eq. destruct (lookup_lt_is_Some_2 (live_ b) (Z.to_nat n)) as [a Ha]; [lia|].
    rewrite Ha. simpl. case_decide as Hd; [injection Hd as <-; by destruct s|]. by destruct s, s'.
  - rewrite list_lookup_alter_ne by lia. by rewrite decide_False by congruence.
Qed.

(** The parts of the state the invariant is about. *)
Record same_core b b' : Prop := {
  sc_engine : engine_ b' = engine_ b;
  sc_ticker : bt_ticker_id b' = bt_ticker_id b;
  sc_live : live_ b' = live_ b }.

Lemma harness_core b b' rl pl :
  same_core b b' → 0 ≤ last_bid_qty_ b' → 0 ≤ last_ask_qty_ b' → harness b rl pl → harness b' rl pl.
Proof.
  intros [E1 E2 E3] Hb Ha [H1 H0 H2 H3 H4 H5 H6 H7 H8]. split; rewrite ?E1, ?E2, ?E3; try done.
  destruct H5 as [S1 S2 S3 S4]. split; try done. intros n s Hv. destruct (S4 n s Hv) as (o & Ho & Hst).
  exists o. split; [done|]. unfold leaves_of, live_slot. by rewrite E3.
Qed.

(** A market update. *)
Lemma publish_harness fuel now u b b' rl :
  harness b rl [] → mu_ticker_id_ u = bt_ticker_id b → publishMarketUpdate fuel now u b = Ok b' →
  ∃ rl', harness b' rl' []
    ∧ bt_ticker_id b' = bt_ticker_id b ∧ last_bid_qty_ b' = last_bid_qty_ b ∧ last_ask_qty_ b' = last_ask_qty_ b.
Proof.
  intros [H1 H0 H2 H3 H4 H5 H6 H7 H8] Hu. unfold publishMarketUpdate.
  destruct (ticker_order_book_ (engine_ b) !! _) as [mb|]; [|done]. intros (te & Ht & [= <-])%bind_ok.
  destruct (te_book_update_steps _ _ _ _ _ _ (tr_clips _ H1) Ht) as [Hst Hset].
  destruct (te_book_update_sync _ _ _ _ _ _ _ _ H1 H5 ltac:(by rewrite Hu) Ht) as [[rl' Hs] Hin].
  exists rl'. split; [|done]. split; cbn [engine_ set_engine]; rewrite ?Hin; try done; [by eapply te_ready_steps|].
  rewrite <- H0. by eapply trader_steps_risk, rtc_bsteps_2.
Qed.

(** A simulated response: the slot of its key changes with it. *)
Lemma respond_harness b rl pl n s o p :
  harness b rl pl → valid_key (n, s) → resp_key p = (n, s) → (length pl < 100)%nat →
  (∀ om, slot_state n s om (requests_of (n, s) rl) (responses_of (n, s) pl) (leaves_of b n s) →
     slot_state n s om (requests_of (n, s) rl) (responses_of (n, s) pl ++ [p]) (lo_leaves o)) →
  harness (publishResponse p (set_live_slot n s o b)) rl (pl ++ [p]).
Proof.
  intros [H1 H0 H2 H3 H4 H5 H6 H7 H8] Hv Hp Hlen Hslot.
  destruct (enqueue_ok _ _ p H6) as [Hq Hsz]; [rewrite H7; unfold ME_MAX_CLIENT_UPDATES; lia|].
  split; cbn [engine_ publishResponse set_engine bt_ticker_id last_bid_qty_ last_ask_qty_ live_ set_live_slot set_live
              incoming_ogw_responses_ set_responses te_trader]; try done.
  - destruct H1. by split.
  - by rewrite length_alter.
  - destruct H5 as [S1 S2 S3 S4]. split; try done. intros n' s' Hv'. destruct (S4 n' s' Hv') as (om & Hom & Hst).
    exists om. split; [done|].
    change (leaves_of _ n' s') with (leaves_of (set_live_slot n s o b) n' s').
    rewrite leaves_of_set, responses_of_snoc, Hp by done. destruct (decide ((n, s) = (n', s'))) as [Hd|Hd].
    + rewrite !decide_True by done. injection Hd as <- <-. by apply Hslot.
    + rewrite !decide_False by done. by rewrite app_nil_r.
  - apply Forall_app. split; [done|]. constructor; [by rewrite Hp|constructor].
Qed.

Lemma harness_count b rl pl : harness b rl pl → harness (count_fill b) rl pl ∧ harness (count_requote b) rl pl.
Proof. intros H. pose proof (hv_qty _ _ _ H) as [??]. split; (apply (harness_core b); [by split|done..]). Qed.

(** [sweepSlot] and [burn_and_fill] on an open slot. *)
Lemma fill_harness b rl pl n s o price q :
  harness b rl pl → valid_key (n, s) → (length pl < 100)%nat → leaves_of b n s = lo_leaves o → 0 < lo_leaves o →
  0 ≤ q ≤ lo_leaves o → ∃ p, harness (fill_slot n s o price q b) rl (pl ++ [p]).
Proof.
  intros Hh Hv Hlen Hlv Hpos Hq. unfold fill_slot. cbv zeta.
  assert (lo_leaves o < 2 ^ 32) as Hlt.
  { destruct (ts_slot _ _ _ _ (hv_sync _ _ _ Hh) n s Hv) as (om & _ & Hst). apply st_leaves in Hst. lia. }
  assert (u32 (lo_leaves o - q) = lo_leaves o - q) as -> by (unfold wrap; apply Z.mod_small; lia).
  set (p := harness_response FILLED n s (lo_order_id o) price q (lo_leaves o - q)). exists p.
  set (o' := if _ =? 0 then _ else _).
  assert (lo_leaves o' = lo_leaves o - q) as Ho'.
  { unfold o'. destruct (Z.eqb_spec (lo_leaves o - q) 0); [simpl; lia|done]. }
  change (count_fill (set_live_slot n s o' b)) with (set_live_slot n s o' (count_fill b)).
  apply respond_harness; [by apply harness_count|done|done|done|].
  intros om. rewrite Ho'. change (leaves_of (count_fill b) n s) with (leaves_of b n s). rewrite Hlv. intros Hst.
  by apply (slot_fill n s om _ _ (lo_leaves o) p).
Qed.

Lemma sweep_harness b rl pl n s o price q :
  harness b rl pl → valid_key (n, s) → (length pl < 100)%nat → leaves_of b n s = lo_leaves o → 0 < lo_leaves o →
  0 ≤ q → ∃ p, harness (sweepSlot n s o price q b) rl (pl ++ [p]).
Proof.
  intros Hh Hv Hlen Hlv Hpos Hq. unfold sweepSlot. destruct (0 <? lo_ahead o); [|apply fill_harness; (done || lia)].
  set (p := harness_response CANCELED n s (lo_order_id o) (lo_price o) 0 0). exists p.
  change (set_live_slot n s LiveAlgoOrder_default (publishResponse p b))
    with (publishResponse p (set_live_slot n s LiveAlgoOrder_default b)).
  apply respond_harness; try done. intros om. rewrite Hlv. intros Hst. simpl. by eapply slot_sweep_cancel.
Qed.

(** Updating the queue position leaves the invariant alone. *)
Lemma set_ahead_harness b rl pl n s o :
  harness b rl pl → valid_key (n, s) → leaves_of b n s = lo_leaves o → harness (set_live_slot n s o b) rl pl.
Proof.
  intros [H1 H0 H2 H3 H4 H5 H6 H7 H8] Hv Hlv. split; try done; [by cbn [live_ set_live_slot set_live]; rewrite length_alter|].
  destruct H5 as [S1 S2 S3 S4]. split; try done. intros n' s' Hv'. destruct (S4 n' s' Hv') as (om & Hom & Hst).
  exists om. split; [done|]. rewrite leaves_of_set by done. case_decide as Hd; [|done]. injection Hd as <- <-. by rewrite <- Hlv.
Qed.

Lemma burn_harness b rl pl n s o q :
  harness b rl pl → valid_key (n, s) → (length pl < 100)%nat → leaves_of b n s = lo_leaves o → 0 < lo_leaves o →
  ∃ pl', harness (burn_and_fill n s o q b) rl pl' ∧ (length pl' ≤ S (length pl))%nat.
Proof.
  intros Hh Hv Hlen Hlv Hpos. unfold burn_and_fill. cbv zeta. set (o' := mkLiveAlgoOrder _ _ _ _ _ _).
  assert (harness (set_live_slot n s o' b) rl pl) as Hh' by by apply set_ahead_harness.
  destruct (_ && _) eqn:Hc; [|exists pl; split; [done|lia]].
  apply andb_prop in Hc as [Hrem%Z.ltb_lt _].
  destruct (fill_harness (set_live_slot n s o' b) rl pl n s o' (lo_price o) (Z.min (lo_leaves o) (q - Z.min (lo_ahead o) q)))
    as [p Hp]; try done.
  - rewrite leaves_of_set by (done || by destruct Hh). by rewrite decide_True.
  - simpl. lia.
  - exists (pl ++ [p]). split; [done|]. rewrite length_app. simpl. lia.
Qed.

Lemma buy_key b rl pl : harness b rl pl → valid_key (bt_ticker_id b, BUY).
Proof. intros H. by split; [apply H|left]. Qed.

Lemma sell_key b rl pl : harness b rl pl → valid_key (bt_ticker_id b, SELL).
Proof. intros H. by split; [apply H|right]. Qed.

Lemma sweep_ticker n s o price q b : bt_ticker_id (sweepSlot n s o price q b) = bt_ticker_id b.
Proof. unfold sweepSlot. by destruct (0 <? lo_ahead o). Qed.

(** Matching against the best prices is total and adds at most two responses. *)
Lemma matchAgainstBBO_harness b rl :
  harness b rl [] → ∃ b' pl, matchAgainstBBO b = Ok b' ∧ harness b' rl pl ∧ (length pl ≤ 2)%nat.
Proof.
  intros Hh. unfold matchAgainstBBO. cbv zeta.
  destruct (live_slot_some b (bt_ticker_id b) BUY (hv_live _ _ _ Hh) (buy_key _ _ _ Hh)) as (o1 & -> & L1). cbn [rbind].
  set (b1 := if _ && _ then _ else b).
  assert (∃ pl, harness b1 rl pl ∧ (length pl ≤ 1)%nat ∧ bt_ticker_id b1 = bt_ticker_id b) as (pl1 & H1 & Hl1 & Ht).
  { unfold b1. destruct (_ && _) eqn:Hc; [|exists []; split_and!; [done|simpl; lia|done]].
    apply andb_prop in Hc as [[Hpos%Z.ltb_lt _]%andb_prop _].
    destruct (sweep_harness b rl [] (bt_ticker_id b) BUY o1 (last_ask_price_ b) (last_ask_qty_ b)) as [p Hp];
      [done|by eapply buy_key|simpl; lia|done|done|by apply Hh|].
    exists [p]. split_and!; [done|simpl; lia|apply sweep_ticker]. }
  rewrite <- Ht. clearbody b1.
  destruct (live_slot_some b1 (bt_ticker_id b1) SELL (hv_live _ _ _ H1) (sell_key _ _ _ H1)) as (o2 & -> & L2). cbn [rbind].
  destruct (_ && _) eqn:Hc; [|eexists _, pl1; split_and!; [done|done|lia]].
  apply andb_prop in Hc as [[Hpos%Z.ltb_lt _]%andb_prop _].
  destruct (sweep_harness b1 rl pl1 (bt_ticker_id b1) SELL o2 (last_bid_price_ b1) (last_bid_qty_ b1)) as [p Hp];
    [done|by eapply sell_key|lia|done|done|by apply H1|].
  eexists _, _. split_and!; [done|exact Hp|]. rewrite length_app. simpl. lia.
Qed.

Lemma matchAgainstTrade_harness ev b rl :
  harness b rl [] → ∃ b' pl, matchAgainstTrade ev b = Ok b' ∧ harness b' rl pl ∧ (length pl ≤ 2)%nat.
Proof.
  intros Hh. unfold matchAgainstTrade. cbv zeta.
  destruct (live_slot_some b (bt_ticker_id b) BUY (hv_live _ _ _ Hh) (buy_key _ _ _ Hh)) as (o1 & -> & L1).
  destruct (live_slot_some b (bt_ticker_id b) SELL (hv_live _ _ _ Hh) (sell_key _ _ _ Hh)) as (o2 & -> & L2). cbn [rbind].
  destruct (t_side ev); try (eexists _, []; split_and!; [done|done|simpl; lia]).
  all: destruct (_ && _) eqn:Hc; [|eexists _, []; split_and!; [done|done|simpl; lia]];
    apply andb_prop in Hc as [Hpos%Z.ltb_lt _].
  - destruct (burn_harness b rl [] (bt_ticker_id b) SELL o2 (t_qty ev)) as (pl & Hp & Hl);
      [done|by eapply sell_key|simpl; lia|done|done|]. eexists _, pl. split_and!; [done|done|simpl in Hl; lia].
  - destruct (burn_harness b rl [] (bt_ticker_id b) BUY o1 (t_qty ev)) as (pl & Hp & Hl);
      [done|by eapply buy_key|simpl; lia|done|done|]. eexists _, pl. split_and!; [done|done|simpl in Hl; lia].
Qed.

(** ** The pumps *)

Lemma responses_of_cons k p pl :
  responses_of k (p :: pl) = if decide (resp_key p = k) then p :: responses_of k pl else responses_of k pl.
Proof. unfold responses_of. by rewrite filter_cons. Qed.

Lemma requests_of_cons k r rl :
  requests_of k (r :: rl) = if decide (req_key r = k) then r :: requests_of k rl else requests_of k rl.
Proof. unfold requests_of. by rewrite filter_cons. Qed.

(** Taking up a request: the answer, the slot and the queue. *)
Lemma take_request b r rl pl o p :
  harness b (r :: rl) pl → (length pl < 100)%nat → resp_key p = req_key r →
  (∀ om, slot_state (req_ticker_id_ r) (req_side_ r) om [r] (responses_of (req_key r) pl)
           (leaves_of b (req_ticker_id_ r) (req_side_ r)) →
     slot_state (req_ticker_id_ r) (req_side_ r) om [] (responses_of (req_key r) pl ++ [p]) (lo_leaves o)) →
  ∃ q, updateReadIndex (requests b) = Ok q
    ∧ harness (set_requests q (publishResponse p (set_live_slot (req_ticker_id_ r) (req_side_ r) o b))) rl (pl ++ [p]).
Proof.
  intros [H1 H0 H2 H3 H4 [S1 S2 S3 S4] H6 H7 H8] Hlen Hp Hslot. apply Forall_cons in S3 as [Hv S3].
  destruct (updateReadIndex_ok _ _ _ S1) as (q & Hq & Hq1 & Hq2). exists q. split; [done|].
  destruct (enqueue_ok _ _ p H6) as [Hr Hsz]; [rewrite H7; unfold ME_MAX_CLIENT_UPDATES; lia|].
  split; cbn [engine_ set_requests publishResponse set_engine bt_ticker_id last_bid_qty_ last_ask_qty_ live_
              set_live_slot set_live incoming_ogw_responses_ set_responses te_trader set_trader]; try done.
  - destruct H1 as [R1 R2 R3 [R4 R5]]. by split.
  - by rewrite length_alter.
  - split; cbn [outgoing_ogw_requests_ order_manager_]; [done|by rewrite Hq2|done|].
    intros n s Hv'. destruct (S4 n s Hv') as (om & Hom & Hst). exists om. split; [done|].
    change (leaves_of _ n s) with (leaves_of (set_live_slot (req_ticker_id_ r) (req_side_ r) o b) n s).
    rewrite leaves_of_set, responses_of_snoc, Hp by done. rewrite requests_of_cons in Hst. unfold req_key in *.
    destruct (decide ((req_ticker_id_ r, req_side_ r) = (n, s))) as [Hd|Hd].
    + rewrite decide_True in Hst by done. rewrite !decide_True by done. injection Hd as <- <-.
      assert (requests_of (req_ticker_id_ r, req_side_ r) rl = []) as En.
      { apply st_requests in Hst as Hone. by destruct (requests_of _ rl). }
      rewrite En in *. by apply Hslot.
    + rewrite decide_False in Hst by done. rewrite !decide_False by done. by rewrite app_nil_r.
  - apply Forall_app. split; [done|]. constructor; [by rewrite Hp|constructor].
Qed.

Lemma handle_request_harness now_ns b r rl pl :
  harness b (r :: rl) pl → (length pl < 100)%nat →
  ∃ b1 q p, handle_request now_ns r b = Ok b1 ∧ updateReadIndex (requests b1) = Ok q
    ∧ harness (set_requests q b1) rl (pl ++ [p]).
Proof.
  intros Hh Hlen. assert (valid_key (req_key r)) as Hv
    by (pose proof (ts_keys _ _ _ _ (hv_sync _ _ _ Hh)) as Hk; by apply Forall_cons in Hk as [? _]).
  unfold handle_request. cbv zeta.
  destruct (live_slot_some b (req_ticker_id_ r) (req_side_ r) (hv_live _ _ _ Hh) Hv) as (o1 & -> & L1). cbn [rbind].
  case_bool_decide as Ht.
  - set (p := mkMEClientResponse ACCEPTED _ _ _ _ _ _ _ _). set (o := mkLiveAlgoOrder _ _ _ _ _ _).
    destruct (take_request (count_requote b) r rl pl o p) as (q & Hq & Hh'); [by apply harness_count|done|done| |].
    { intros om Hst. by eapply (slot_accept _ _ om r). }
    eexists _, q, p. split; [done|]. split; [exact Hq|exact Hh'].
  - set (p := mkMEClientResponse CANCELED _ _ _ _ _ _ _ _).
    destruct (take_request b r rl pl LiveAlgoOrder_default p) as (q & Hq & Hh'); [done|done|done| |].
    { intros om Hst. by eapply (slot_canceled _ _ om r). }
    eexists _, q, p. split; [done|]. split; [exact Hq|exact Hh'].
Qed.

(** Every request is answered. *)
Lemma pumpClientRequests_harness n now_ns b rl pl :
  harness b rl pl → (length rl ≤ n)%nat → (length pl + length rl < 100)%nat →
  ∃ b' pl', pumpClientRequests n now_ns b = Ok b' ∧ harness b' [] pl'.
Proof.
  revert b rl pl. induction n as [|n IH]; intros b rl pl Hh Hn Hlen.
  all: pose proof (getNextToRead_ok _ _ (ts_queue _ _ _ _ (hv_sync _ _ _ Hh))) as Hg; fold (requests b) in Hg.
  all: destruct rl as [|r rl]; simpl in *; rewrite Hg; simpl; try lia.
  1,2: by eexists _, pl.
  destruct (handle_request_harness now_ns b r rl pl Hh ltac:(lia)) as (b1 & q & p & -> & Hq & Hh'). cbn [rbind].
  rewrite Hq. cbn [rbind]. apply (IH _ rl (pl ++ [p])); [done|lia|]. rewrite length_app. simpl. lia.
Qed.

(** Every response is one the trade engine may receive. *)
Lemma te_onOrderUpdate_harness b p pl te :
  harness b [] (p :: pl) → te_onOrderUpdate p (engine_ b) = Ok te →
  ∃ q, updateReadIndex (incoming_ogw_responses_ te) = Ok q
    ∧ harness (set_engine (set_responses q te) b) [] pl.
Proof.
  intros [H1 H0 H2 H3 H4 H5 H6 H7 H8] Ht. apply Forall_cons in H8 as [Hv H8].
  assert (te_event (engine_ b) te) as Hev.
  { eapply ev_response; [by eapply sync_response_ok|by apply Hv|exact Ht]. }
  pose proof Ht as Ht'. unfold te_onOrderUpdate in Ht'. rewrite (tr_algo _ H1) in Ht'.
  apply bind_ok in Ht' as (t & Ht' & [= <-]). cbn [incoming_ogw_responses_ set_trader].
  destruct (updateReadIndex_ok _ _ _ H6) as (q & Hq & Hq1 & Hq2). exists q. split; [done|].
  pose proof (te_event_ready _ _ H1 Hev) as [R1 R2 R3 R4].
  split; cbn [engine_ set_engine te_trader set_responses set_trader incoming_ogw_responses_]; try done.
  - rewrite <- H0. exact (te_event_risk _ _ H1 Hev).
  - by eapply onOrderUpdate_sync.
  - by rewrite Hq2.
Qed.

(** Draining the responses empties both queues. *)
Lemma te_drain_harness n b pl te :
  harness b [] pl → te_drain_responses n (engine_ b) = Ok te → harness (set_engine te b) [] [].
Proof.
  revert b pl. induction n as [|n IH]; intros b pl Hh; simpl.
  all: pose proof (getNextToRead_ok _ _ (hv_responses _ _ _ Hh)) as Hg; rewrite Hg; destruct pl as [|p pl]; simpl; try done.
  1,2: intros [= <-]; by destruct b.
  intros (te1 & H1 & (q & H2 & H3)%bind_ok)%bind_ok.
  destruct (te_onOrderUpdate_harness b p pl te1 Hh H1) as (q' & E & Hh'). rewrite H2 in E. injection E as <-.
  by apply (IH (set_engine (set_responses q te1) b) pl).
Qed.

Lemma pumpClientResponses_harness n b b' pl :
  harness b [] pl → pumpClientResponses n b = Ok b' → harness b' [] [].
Proof. intros Hh (te & Ht & [= <-])%bind_ok. by eapply te_drain_harness. Qed.

(** ** Events *)

Lemma cancel_synth_harness fuel now side price qty b b' rl :
  harness b rl [] → cancel_synth fuel now side price qty b = Ok b' → ∃ rl', harness b' rl' [].
Proof.
  intros Hh. unfold cancel_synth. cbv zeta. destruct (_ =? _); [intros [= <-]; by eexists|].
  intros (b1 & H1 & [= <-])%bind_ok. apply publish_harness with (rl := rl) in H1 as (rl' & Hh' & _); [|done..].
  exists rl'. pose proof (hv_qty _ _ _ Hh') as [??]. by apply (harness_core b1); [by split|..].
Qed.

Lemma add_synth_harness fuel now side price qty b b' rl :
  harness b rl [] → 0 ≤ qty → add_synth fuel now side price qty b = Ok b' → ∃ rl', harness b' rl' [].
Proof.
  intros Hh Hq. unfold add_synth. intros (b1 & H1 & [= <-])%bind_ok.
  assert (∃ rl', harness b1 rl' []) as (rl' & Hh').
  { destruct (_ =? _); [injection H1 as <-; by eexists|]. destruct (nextSynthOid b) as [oid b2] eqn:En.
    cbn zeta in H1. unfold nextSynthOid in En. injection En as <- <-.
    apply publish_harness with (rl := rl) in H1 as (rl' & Hh' & _); [by eexists| |done].
    pose proof (hv_qty _ _ _ Hh) as [??]. by apply (harness_core b); [by split|..]. }
  exists rl'. pose proof (hv_qty _ _ _ Hh') as [??]. apply (harness_core b1); [by split|..|done];
    unfold set_last; simpl; by destruct (is_buy side).
Qed.

Definition event_qty_ok (ev : TapeEvent) : Prop :=
  match ev with BookTop e => 0 ≤ b_bid_qty e ∧ 0 ≤ b_ask_qty e | Trade e => 0 ≤ t_qty e end.

Lemma tape_step_harness fuel wall ev b b' rl :
  harness b rl [] → event_qty_ok ev → tape_step fuel wall ev b = Ok b' →
  ∃ rl' pl, harness b' rl' pl ∧ (length pl ≤ 2)%nat.
Proof.
  intros Hh Hq. destruct ev as [e|e]; cbn [tape_step].
  - destruct Hq as [Hqb Hqa]. unfold applyBookEvent. cbv zeta.
    intros (b1 & H1 & (b2 & H2 & (b3 & H3 & (b4 & H4 & H5)%bind_ok)%bind_ok)%bind_ok)%bind_ok.
    assert (∃ rl', harness b1 rl' []) as (rl1 & Hh1).
    { destruct (side_changed _ _ _ _); [eapply cancel_synth_harness; [exact Hh|exact H1]|injection H1 as <-; by eexists]. }
    assert (∃ rl', harness b2 rl' []) as (rl2 & Hh2).
    { destruct (side_changed _ _ (last_ask_price_ b) _); [eapply cancel_synth_harness; [exact Hh1|exact H2]|injection H2 as <-; by eexists]. }
    assert (∃ rl', harness b3 rl' []) as (rl3 & Hh3).
    { destruct (side_changed _ _ (last_bid_price_ b) _); [eapply add_synth_harness; [exact Hh2|exact Hqb|exact H3]|injection H3 as <-; by eexists]. }
    assert (∃ rl', harness b4 rl' []) as (rl4 & Hh4).
    { destruct (side_changed _ _ (last_ask_price_ b) _); [eapply add_synth_harness; [exact Hh3|exact Hqa|exact H4]|injection H4 as <-; by eexists]. }
    destruct (matchAgainstBBO_harness b4 rl4 Hh4) as (b5 & pl & E & Hh5 & Hl). rewrite E in H5. injection H5 as <-. eauto.
  - unfold applyTradeEvent. cbv zeta. intros (b1 & H1 & H2)%bind_ok.
    apply publish_harness with (rl := rl) in H1 as (rl1 & Hh1 & _); [|done..].
    destruct (matchAgainstTrade_harness e b1 rl1 Hh1) as (b5 & pl & E & Hh5 & Hl). rewrite E in H2. injection H2 as <-. eauto.
Qed.

Lemma recordPnL_harness now_ns b b' rl pl : harness b rl pl → recordPnL now_ns b = Ok b' → harness b' rl pl.
Proof.
  intros Hh. unfold recordPnL. cbv zeta. intros (pi & _ & H)%bind_ok. revert H. intros (mid & _ & [= <-])%bind_ok. pose proof (hv_qty _ _ _ Hh) as [??]. by apply (harness_core b); [by split|..].
Qed.

Lemma after_event_harness now_ns last b b' last' rl pl :
  harness b rl pl → (length pl ≤ 2)%nat → after_event now_ns last b = Ok (b', last') → harness b' [] [].
Proof.
  intros Hh Hl. unfold after_event. intros (b1 & H1 & (b2 & H2 & (d & _ & H3)%bind_ok)%bind_ok)%bind_ok.
  pose proof (requests_bound _ _ _ _ (hv_sync _ _ _ Hh)) as Hrl.
  pose proof (lfq_rep_size _ _ (ts_queue _ _ _ _ (hv_sync _ _ _ Hh))) as [Hsz _]. fold (requests b) in Hsz.
  destruct (pumpClientRequests_harness (Z.to_nat (size_ (requests b))) now_ns b rl pl Hh) as (b1' & pl' & E & Hh1); [lia..|].
  rewrite E in H1. injection H1 as <-. pose proof (pumpClientResponses_harness _ _ _ _ Hh1 H2) as Hh2.
  destruct (_ <=? _); [|by injection H3 as <- <-]. apply bind_ok in H3 as (b3 & H3 & [= <- <-]).
  by eapply recordPnL_harness.
Qed.

(** One turn of the loop of [run]. *)
Inductive bt_event (b : BacktestEngine F) : BacktestEngine F → Prop :=
| bt_tape fuel wall ev last b1 b2 last' :
    event_qty_ok ev → tape_step fuel wall ev b = Ok b1 → after_event (event_ns ev) last b1 = Ok (b2, last') →
    bt_event b b2.

Lemma bt_event_harness b b' : harness b [] [] → bt_event b b' → harness b' [] [].
Proof.
  intros Hh [fuel wall ev last b1 b2 last' Hq H1 H2].
  destruct (tape_step_harness _ _ _ _ _ _ Hh Hq H1) as (rl & pl & Hh1 & Hl). by eapply after_event_harness.
Qed.

Lemma bt_events_harness b b' : harness b [] [] → rtc bt_event b b' → harness b' [] [].
Proof. intros Hh H. revert Hh. induction H; eauto using bt_event_harness. Qed.

End Harness.

(** ** The harness at the start *)

Section Start.
Context {F : Type} `{!Double F} `{!DoubleMath F} `{!DoubleCast F}.
Implicit Types (b : BacktestEngine F).

(** The configuration the trade engine gets: every other ticker has the default. *)
Definition backtest_cfgs (tid : Z) (cfg : TradeEngineCfg F) : list (TradeEngineCfg F) :=
  <[Z.to_nat tid := cfg]> (replicate (Z.to_nat ME_MAX_TICKERS) TradeEngineCfg_default).

Lemma leaves_of_new b n s k :
  live_ b = replicate k (mkSideArray LiveAlgoOrder_default LiveAlgoOrder_default LiveAlgoOrder_default LiveAlgoOrder_default) →
  leaves_of b n s = 0.
Proof.
  intros E. unfold leaves_of, live_slot. rewrite E. destruct (replicate _ _ !! _) as [a|] eqn:Ea; [|done].
  apply lookup_replicate in Ea as [-> _]. by destruct s.
Qed.

Lemma BacktestEngine_new_harness tid cfg mem now b :
  BacktestEngine_new tid cfg mem now = Ok b → 0 ≤ tid → 0 ≤ clip_ cfg → cfg_ok (risk_cfg_ cfg) →
  harness (risk_cfg_ <$> backtest_cfgs tid cfg) b [] [] ∧ bt_ticker_id b = tid.
Proof.
  unfold BacktestEngine_new. cbv zeta. case_decide as Ht; [|done]. intros (te & Hte & [= <-])%bind_ok Hpos Hclip Hcfg.
  rewrite length_replicate in Ht. fold (backtest_cfgs tid cfg) in Hte. set (cfgs := backtest_cfgs tid cfg) in *.
  assert (clips_ok cfgs) as Hc.
  { apply Forall_insert; [apply Forall_replicate; simpl; lia|done]. }
  assert (Forall cfg_ok (risk_cfg_ <$> cfgs)) as Hr.
  { apply Forall_fmap, Forall_insert; [apply Forall_replicate|done]. split; unfold POSITION_SAFE; simpl; lia. }
  destruct (te_ready_new _ _ _ _ _ _ _ _ _ Hte) as (Hready & Hout & _ & Hrisk);
    [by left|by unfold cfgs, backtest_cfgs; rewrite length_insert, length_replicate|done|done|].
  assert (incoming_ogw_responses_ te = LFQueue_new ME_MAX_CLIENT_UPDATES) as Hin.
  { unfold TradeEngine_new in Hte. destruct (cfgs !! 0%nat); [|done]. by apply bind_ok in Hte as (om & _ & [= <-]). }
  assert (∀ n s, valid_key (n, s) → om_slot n s (order_manager_ (te_trader te)) = Some OMOrder_default) as Hslots.
  { unfold TradeEngine_new in Hte. destruct (cfgs !! 0%nat); [|done].
    apply bind_ok in Hte as (om & (Eo & _)%push_hysteresis_ok & [= <-]). intros n s [Hn _]. simpl in Hn.
    cbn [te_trader order_manager_ set_order_manager]. unfold om_slot. rewrite Eo.
    cbn [order_manager_ Trader_new ticker_side_order_]. rewrite lookup_replicate_2 by lia. by destruct s. }
  assert (0 < ME_MAX_CLIENT_UPDATES < 2 ^ 64) as Hcap by (unfold ME_MAX_CLIENT_UPDATES; lia).
  split; [|done]. split; cbn [engine_ bt_ticker_id last_bid_qty_ last_ask_qty_ live_]; rewrite ?Hin; try done.
  - unfold ME_MAX_TICKERS in *. lia.
  - split; rewrite ?Hout; try done; [by apply lfq_rep_new|]. intros n s Hv. exists OMOrder_default.
    split; [by apply Hslots|]. rewrite (leaves_of_new _ n s (Z.to_nat ME_MAX_TICKERS)) by (vm_compute; reflexivity). split; simpl; try lia; unfold is_working; simpl; naive_solver.
  - by apply lfq_rep_new.
Qed.

(** ** The run *)

(** The limits hold in every state between events. *)
Lemma harness_limit risks b n cfg p :
  harness risks b [] [] → risks !! n = Some cfg →
  ticker_position_ (position_keeper_ (te_trader (engine_ b))) !! n = Some p → Z.abs (position_ p) ≤ max_position_ cfg.
Proof.
  intros Hh Hcfg Hp. pose proof (hv_ready _ _ _ _ Hh) as [_ _ (L1 & L2 & L3 & L4) Hi].
  assert (is_Some (ticker_side_order_ (order_manager_ (te_trader (engine_ b))) !! n)) as [a Ha].
  { apply lookup_lt_is_Some. apply lookup_lt_Some in Hp. lia. }
  eapply ticker_ok_limit, (ti_ticker _ Hi n cfg p a); [by rewrite (hv_risks _ _ _ _ Hh)|done|done].
Qed.

Context `{!DoubleLog F} `{!DoubleText F}.

(** The readers deliver quantities that are not negative. *)
Lemma to_lots_nonneg (cfg : TapeConfig F) s q : to_lots cfg s = Ok q → 0 ≤ q.
Proof.
  unfold to_lots. case_bool_decide; [by intros [= <-]|]. intros (x & _ & Hx)%bind_ok. by apply cast_uint32_nonneg in Hx.
Qed.

Lemma parse_line_qty (cfg : TapeConfig F) line ev : parse_line cfg line = Ok (Some ev) → event_qty_ok ev.
Proof.
  unfold parse_line. do 2 (case_match; [done|]). destruct (take_fields 8 line) as [[fs ss]|]; [|done].
  do 8 (destruct fs as [|? fs]; [done|]). destruct fs; [|done].
  destruct (getline_or_empty COMMA ss) as [ibm ?]. intros (ts & _ & Hx)%bind_ok. destruct (bool_decide _) in Hx.
  - apply bind_ok in Hx as (bp & _ & (bq & Hb%to_lots_nonneg & (ap & _ & (aq & Ha%to_lots_nonneg & [= <-])%bind_ok)%bind_ok)%bind_ok).
    done.
  - destruct (bool_decide _) in Hx; [|done]. by apply bind_ok in Hx as (p & _ & (q & Hq%to_lots_nonneg & [= <-])%bind_ok).
Qed.

Lemma scan_lines_qty fuel (cfg : TapeConfig F) s ev rest : scan_lines fuel cfg s = Ok (Some ev, rest) → event_qty_ok ev.
Proof.
  revert s. induction fuel as [|fuel IH]; intros s; simpl; destruct (getline NEWLINE s) as [[line s']|]; try done.
  intros ([ev'|] & Hx & Hk)%bind_ok; [|by eapply IH]. injection Hk as -> _. by eapply parse_line_qty.
Qed.

Lemma u32_nonneg z : 0 ≤ u32 z.
Proof. apply Z.mod_pos_bound. lia. Qed.

Lemma nextSynth_qty (r r' : TapeReader F) ev : nextSynth r = Ok (Some ev, r') → event_qty_ok ev.
Proof.
  unfold nextSynth. case_match; [done|]. destruct (uniform _ _ _) as [u s0]. cbv zeta.
  intros (dt & _ & (ns & _ & ([m1 s1] & _ & ([m2 s2] & _ & (m3 & _ & Hx)%bind_ok)%bind_ok)%bind_ok)%bind_ok)%bind_ok.
  destruct (chance 55 100 s2) as [t s3]. destruct t.
  - destruct (chance 5 10 s3) as [buy s4]. apply bind_ok in Hx as (px & _ & Hx). unfold random_qty in Hx.
    destruct (rng s4) as [x s5]. injection Hx as <- _. simpl. apply u32_nonneg.
  - unfold random_qty in Hx. destruct (rng s3) as [x s4]. destruct (rng s4) as [y s5].
    apply bind_ok in Hx as (bid & _ & (ask & _ & [= <- _])%bind_ok). simpl. split; apply u32_nonneg.
Qed.

Lemma next_qty (r r' : TapeReader F) ev : next r = Ok (Some ev, r') → event_qty_ok ev.
Proof.
  unfold next. do 2 (case_match; [done|]). intros ([ev1 r1] & Hx & [= -> _])%bind_ok. destruct (is_binance _).
  - unfold nextBinance in Hx. apply bind_ok in Hx as ([ev2 s] & Hx & [= -> _]). by eapply scan_lines_qty.
  - by eapply nextSynth_qty.
Qed.

(** A run is a sequence of events and the final drain. *)
Lemma run_tape_events fuel n wall r last b b' :
  run_tape fuel n wall r last b = Ok b' → ∃ b1 last', rtc bt_event b b1 ∧ finish_run last' b1 = Ok b'.
Proof.
  revert r last b. induction n as [|n IH]; intros r last b; simpl; [done|].
  intros ([ev r1] & Hn & H)%bind_ok. destruct ev as [ev|]; [|by exists b, last].
  apply bind_ok in H as (b1 & H1 & ([b2 last2] & H2 & H3)%bind_ok). apply IH in H3 as (b3 & last3 & Hr & Hf).
  exists b3, last3. split; [|done]. eapply rtc_l; [|exact Hr]. econstructor; [by eapply next_qty|exact H1|exact H2].
Qed.

Lemma finish_run_harness risks last b b' : harness risks b [] [] → finish_run last b = Ok b' → harness risks b' [] [].
Proof.
  intros Hh (b1 & H1 & H2)%bind_ok. pose proof (pumpClientResponses_harness _ _ _ _ _ Hh H1) as Hh1.
  by eapply recordPnL_harness.
Qed.

Lemma run_tape_harness risks fuel n wall r last b b' :
  harness risks b [] [] → run_tape fuel n wall r last b = Ok b' → harness risks b' [] [].
Proof.
  intros Hh (b1 & last' & Hr & Hf)%run_tape_events. by eapply finish_run_harness; [eapply bt_events_harness|].
Qed.
End Start.
