(* ===== verification/BacktestBook.v ===== *)
(** * The book of the backtest.

    Lemmas on Backtest.v: replaying top-of-book events keeps the client's book at
    exactly the two synthetic orders of the last event ([applyBookEvent_book]),
    as long as the window of synthetic order ids is not used up. *)

From Stdlib Require Import Ascii String.
From stdpp Require Import numbers strings gmap sorting list.
From S2P Require Import Prelude Types MemPool LFQueue BookCore BookSpec BookRep BookRemove BookRefine MarketOrderBook MatchingEngine Double Logging Position OrderManager Features Strategy FeedPath Parse Tape Lobster Backtest.

Open Scope Z_scope.

(** ** What the trade engine does with its books *)

Section Books.
Context {F : Type} `{!Double F} `{!DoubleMath F} `{!DoubleCast F}.
Implicit Types (te : TradeEngine F (LFQueue MEClientRequest)) (b : BacktestEngine F).

(** The synthetic order of a side. *)
Definition synth_side (s : Side) (oid price qty : Z) : list MarketOrder :=
  if oid =? OrderId_INVALID then [] else [mkMarketOrder oid s price qty 0 None None].

Definition synth_book b : absbook MarketOrder :=
  mkAbs (synth_side BUY (resting_bid_oid_ b) (last_bid_price_ b) (last_bid_qty_ b))
        (synth_side SELL (resting_ask_oid_ b) (last_ask_price_ b) (last_ask_qty_ b)).

Definition book_is b (ab : absbook MarketOrder) : Prop :=
  ∃ mb, ticker_order_book_ (engine_ b) !! Z.to_nat (bt_ticker_id b) = Some mb ∧ mkt_rep mb ab.

(** A resting order has an id of the window that was handed out before. *)
Definition oid_ok b (oid price : Z) : Prop :=
  (oid = OrderId_INVALID ∧ price = Price_INVALID) ∨ (500000 ≤ oid < next_synth_oid_ b ∧ price ≠ Price_INVALID).

Record synth_ok b : Prop := {
  so_book : book_is b (synth_book b);
  so_next : 500000 ≤ next_synth_oid_ b;
  so_bid : oid_ok b (resting_bid_oid_ b) (last_bid_price_ b);
  so_ask : oid_ok b (resting_ask_oid_ b) (last_ask_price_ b) }.

(** Publishing an update that is valid on the book. *)
Lemma publish_book fuel now u b b' ab :
  book_is b ab → mu_ticker_id_ u = bt_ticker_id b → valid_update u ab → publishMarketUpdate fuel now u b = Ok b' →
  book_is b' (spec_update u ab) ∧ ∃ te, b' = set_engine te b.
Proof.
  intros (mb & Hmb & Hrep) Ht Hv. unfold publishMarketUpdate. rewrite Ht, Hmb.
  intros (te & (mb' & note & Hu & Hbs & _)%te_book_update_books & [= <-])%bind_ok. split; [|by eexists].
  destruct (onMarketUpdate_ok u mb ab Hrep Hv) as (mb2 & n2 & E & Hrep' & _). rewrite Hu in E. injection E as <- <-.
  exists mb'. split; [|done]. cbn [engine_ set_engine bt_ticker_id]. rewrite Hbs, Ht.
  apply list_lookup_insert_eq. by eapply lookup_lt_Some.
Qed.

Lemma oid_not_invalid oid : 500000 ≤ oid < 900000 → (oid =? OrderId_INVALID) = false.
Proof. intros H. apply Z.eqb_neq. unfold OrderId_INVALID. lia. Qed.

Definition resting_of (s : Side) b : Z := if is_buy s then resting_bid_oid_ b else resting_ask_oid_ b.

(** Cancelling the order of a side empties it. *)
Lemma cancel_synth_book fuel now s price qty b b' ab :
  proper_side s → book_is b ab → ab_side ab s = synth_side s (resting_of s b) price qty →
  resting_of s b = OrderId_INVALID ∨ 500000 ≤ resting_of s b < 900000 →
  cancel_synth fuel now s price qty b = Ok b' →
  book_is b' (set_ab_side ab s []) ∧ ∃ te, b' = set_resting s OrderId_INVALID (set_engine te b).
Proof.
  intros Hs Hbook Hside Hoid. unfold cancel_synth. cbv zeta. fold (resting_of s b). destruct Hoid as [E|Hr].
  - rewrite E, Z.eqb_refl. intros [= <-]. unfold synth_side in Hside. rewrite E in Hside. simpl in Hside. split.
    + by rewrite <- Hside, set_ab_side_same.
    + exists (engine_ b). destruct b; destruct Hs as [-> | ->]; unfold resting_of in E; simpl in *; by rewrite <- E.
  - rewrite oid_not_invalid by lia. intros (b1 & H1 & [= <-])%bind_ok.
    unfold synth_side in Hside. rewrite oid_not_invalid in Hside by lia.
    set (x := mkMarketOrder (resting_of s b) s price qty 0 None None) in Hside.
    apply publish_book with (ab := ab) in H1 as [Hb1 [te ->]]; [|done|done|].
    + split; [|by exists te]. destruct Hb1 as (mb & Hmb & Hrep). exists mb. split; [done|].
      destruct Hbook as (mb0 & _ & (Hr0 & _)). pose proof (rep_keys _ _ Hr0) as Hnd.
      rewrite <- (ab_remove_head ab s x [] Hs Hnd Hside). exact Hrep.
    + unfold valid_update. cbn [mu_type_ mu_side_ mu_order_id_ mu_price_]. exists x. rewrite Hside.
      split_and!; try done. left.
Qed.

(** The other side holds nothing that gets in the way of an order at [price]. *)
Definition clear_of b (ab : absbook MarketOrder) (s : Side) (price : Z) : Prop :=
  ∀ x, x ∈ ab_side ab (opposite s) →
    500000 ≤ mo_order_id_ x < next_synth_oid_ b ∧ priceToIndex (mo_price_ x) ≠ priceToIndex price.

Lemma add_synth_valid b ab s price qty :
  proper_side s → ab_side ab s = [] → (length (ab_side ab (opposite s)) ≤ 1)%nat → clear_of b ab s price →
  500000 ≤ next_synth_oid_ b < 900000 → 0 ≤ qty < 2 ^ 32 →
  valid_update (mkMEMarketUpdate MU_ADD (next_synth_oid_ b) (bt_ticker_id b) s price qty 0) ab.
Proof.
  intros Hs Hempty Hone Hclear Hn Hq. unfold valid_update. cbn [mu_type_ mu_side_ mu_order_id_ mu_price_ mu_qty_].
  assert (∀ x, x ∈ ab_all ab → x ∈ ab_side ab (opposite s)) as Hall.
  { intros x. rewrite (ab_all_split ab s Hs), Hempty. done. }
  assert (length (ab_all ab) ≤ 1)%nat as Hlen.
  { rewrite (ab_all_split ab s Hs), Hempty. done. }
  split_and!; try done; try lia.
  - unfold oid_in_range, ME_MAX_ORDER_IDS. by rewrite (proj2 (Z.leb_le _ _)), (proj2 (Z.ltb_lt _ _)) by lia.
  - intros (x & E & Hx%Hall)%list_elem_of_fmap. cbn [ord_key MarketOrder_node] in E. destruct (Hclear x Hx). lia.
  - intros s' x Hs' Hx E. assert (x ∈ ab_all ab) as Hx'%Hall by (apply elem_of_ab_all; eauto).
    by destruct (Hclear x Hx') as [_ Hne].
  - unfold has_room, ME_MAX_ORDER_IDS, ME_MAX_PRICE_LEVELS. split; [lia|].
    assert (∀ q : list MarketOrder, (num_levels q ≤ length q)%nat) as Hlv.
    { intros q. unfold num_levels. rewrite <- (length_fmap ord_price q).
      apply submseteq_length, NoDup_submseteq; [apply NoDup_remove_dups|]. intros x. by rewrite elem_of_remove_dups. }
    pose proof (Hlv (ab_bids ab)). pose proof (Hlv (ab_asks ab)). unfold ab_all in Hlen. rewrite length_app in Hlen. lia.
Qed.

(** Adding the order of an empty side. *)
Lemma add_synth_book fuel now s price qty b b' ab :
  proper_side s → book_is b ab → ab_side ab s = [] → (length (ab_side ab (opposite s)) ≤ 1)%nat →
  (price ≠ Price_INVALID → clear_of b ab s price) →
  500000 ≤ next_synth_oid_ b < 900000 → 0 ≤ qty < 2 ^ 32 → resting_of s b = OrderId_INVALID →
  add_synth fuel now s price qty b = Ok b' →
  ∃ te n oid, b' = set_last s price qty (set_resting s oid (set_synth_oid n (set_engine te b)))
    ∧ book_is b' (set_ab_side ab s (synth_side s oid price qty))
    ∧ ((price = Price_INVALID ∧ oid = OrderId_INVALID ∧ n = next_synth_oid_ b)
       ∨ (price ≠ Price_INVALID ∧ oid = next_synth_oid_ b ∧ (n = next_synth_oid_ b + 1 ∨ (n = 500000 ∧ oid = 899999)))).
Proof.
  intros Hs Hbook Hempty Hone Hclear Hn Hq Hrest. unfold add_synth. intros (b1 & H1 & [= <-])%bind_ok.
  destruct (Z.eqb_spec price Price_INVALID) as [Hp|Hp].
  - injection H1 as <-. exists (engine_ b), (next_synth_oid_ b), OrderId_INVALID. split_and!; [| |by left].
    + f_equal. destruct b; destruct Hs as [-> | ->]; unfold resting_of in Hrest; simpl in *; by rewrite <- Hrest.
    + unfold synth_side. simpl. rewrite <- Hempty, set_ab_side_same. done.
  - unfold nextSynthOid in H1. cbv zeta in H1.
    assert (u64 (next_synth_oid_ b + 1) = next_synth_oid_ b + 1) as Hu by (unfold wrap; apply Z.mod_small; lia).
    rewrite Hu in H1. set (n := if 900000 <=? _ then _ else _) in H1.
    set (b2 := set_resting s (next_synth_oid_ b) (set_synth_oid n b)) in H1.
    apply publish_book with (ab := ab) in H1 as [Hb1 [te ->]]; [|done|done|
      exact (add_synth_valid b ab s price qty Hs Hempty Hone (Hclear Hp) Hn Hq)].
    exists te, n, (next_synth_oid_ b). split_and!; [by destruct Hs as [-> | ->]| |].
    + destruct Hb1 as (mb & Hmb & Hrep). exists mb. split; [done|]. unfold synth_side. rewrite oid_not_invalid by lia.
      unfold spec_update in Hrep. cbn [mu_type_ mu_side_] in Hrep. rewrite Hempty in Hrep. exact Hrep.
    + right. split; [done|]. split; [done|]. unfold n. destruct (Z.leb_spec 900000 (next_synth_oid_ b + 1)); [right; lia|by left].
Qed.

(** Matching does not touch the book. *)
Record same_view b b' : Prop := {
  sv_books : ticker_order_book_ (engine_ b') = ticker_order_book_ (engine_ b);
  sv_ticker : bt_ticker_id b' = bt_ticker_id b;
  sv_next : next_synth_oid_ b' = next_synth_oid_ b;
  sv_rb : resting_bid_oid_ b' = resting_bid_oid_ b;
  sv_ra : resting_ask_oid_ b' = resting_ask_oid_ b;
  sv_bp : last_bid_price_ b' = last_bid_price_ b;
  sv_ap : last_ask_price_ b' = last_ask_price_ b;
  sv_bq : last_bid_qty_ b' = last_bid_qty_ b;
  sv_aq : last_ask_qty_ b' = last_ask_qty_ b }.

Lemma sweep_view n s o p q b : same_view b (sweepSlot n s o p q b).
Proof. unfold sweepSlot. by destruct (0 <? lo_ahead o). Qed.

Lemma matchAgainstBBO_view b b' : matchAgainstBBO b = Ok b' → same_view b b'.
Proof.
  unfold matchAgainstBBO. cbv zeta. intros (o1 & _ & (o2 & _ & [= <-])%bind_ok)%bind_ok.
  set (b1 := if _ && negb (last_ask_price_ b =? _) && _ then _ else b).
  assert (same_view b b1) as V1 by (unfold b1; destruct (_ && _); [apply sweep_view|done]). clearbody b1.
  destruct (_ && _); [|done]. pose proof (sweep_view (bt_ticker_id b) SELL o2 (last_bid_price_ b1) (last_bid_qty_ b1) b1) as V2.
  destruct V1, V2. split; congruence.
Qed.

(** A top-of-book event with distinct price indices and 32-bit quantities. *)
Record event_fits (ev : BookTopEvent) : Prop := {
  ef_bid : 0 ≤ b_bid_qty ev < 2 ^ 32;
  ef_ask : 0 ≤ b_ask_qty ev < 2 ^ 32;
  ef_apart : b_bid_price ev ≠ Price_INVALID → b_ask_price ev ≠ Price_INVALID →
             priceToIndex (b_bid_price ev) ≠ priceToIndex (b_ask_price ev) }.

(** The state between the cancels and the adds: a side that changes is empty. *)
Definition kept (changed : bool) (oid : Z) : Z := if changed then OrderId_INVALID else oid.

Lemma side_changed_false p q p' q' : side_changed p q p' q' = false → p = p' ∧ q = q'.
Proof. unfold side_changed. intros [H1 H2]%orb_false_elim. apply negb_false_iff, Z.eqb_eq in H1, H2. done. Qed.

Lemma oid_ok_range b oid price : oid_ok b oid price → next_synth_oid_ b ≤ 900000 → oid = OrderId_INVALID ∨ 500000 ≤ oid < 900000.
Proof. intros [[-> _]|[H _]] Hn; [by left|right; lia]. Qed.

Lemma cancels_book fuel now0 now1 bc ac b b1 b2 :
  synth_ok b → next_synth_oid_ b ≤ 900000 →
  (if bc : bool then cancel_synth fuel now0 BUY (last_bid_price_ b) (last_bid_qty_ b) b else Ok b) = Ok b1 →
  (if ac : bool then cancel_synth fuel now1 SELL (last_ask_price_ b1) (last_ask_qty_ b1) b1 else Ok b1) = Ok b2 →
  ∃ te, b2 = set_resting SELL (kept ac (resting_ask_oid_ b)) (set_resting BUY (kept bc (resting_bid_oid_ b)) (set_engine te b))
    ∧ book_is b2 (mkAbs (synth_side BUY (kept bc (resting_bid_oid_ b)) (last_bid_price_ b) (last_bid_qty_ b))
                        (synth_side SELL (kept ac (resting_ask_oid_ b)) (last_ask_price_ b) (last_ask_qty_ b))).
Proof.
  intros [Hbook Hnext Hbid Hask] Hn H1 H2.
  assert (∃ te, b1 = set_resting BUY (kept bc (resting_bid_oid_ b)) (set_engine te b)
    ∧ book_is b1 (mkAbs (synth_side BUY (kept bc (resting_bid_oid_ b)) (last_bid_price_ b) (last_bid_qty_ b))
                        (ab_asks (synth_book b)))) as (te1 & -> & Hb1).
  { destruct bc; [|injection H1 as <-; exists (engine_ b); by destruct b].
    apply cancel_synth_book with (ab := synth_book b) in H1 as [Hb [te ->]];
      [by exists te|by left|done|done|by eapply oid_ok_range]. }
  destruct ac; [|injection H2 as <-; exists te1; by destruct b].
  eapply cancel_synth_book in H2 as [Hb [te ->]]; [|by right|exact Hb1|done|by eapply oid_ok_range].
  exists te. split; [by destruct b|exact Hb].
Qed.

Lemma synth_side_length s oid p q : (length (synth_side s oid p q) ≤ 1)%nat.
Proof. unfold synth_side. destruct (_ =? _); simpl; lia. Qed.

(** A side after the adds: kept as it was or replaced. *)
Definition fresh_oid (lo hi oid price : Z) : Prop :=
  (oid = OrderId_INVALID ∧ price = Price_INVALID) ∨ (lo ≤ oid < hi ∧ price ≠ Price_INVALID).

(** The add of a side, if it changes; [other] is the resting order of the other
    side. *)
Lemma add_phase fuel now s (c : bool) price qty b b' ab oid0 other pother qother :
  proper_side s → book_is b ab → 500000 ≤ next_synth_oid_ b < 900000 → 0 ≤ qty < 2 ^ 32 →
  ab_side ab s = synth_side s (kept c oid0) price qty ∨ c = true ∧ ab_side ab s = [] →
  ab_side ab (opposite s) = synth_side (opposite s) other pother qother →
  fresh_oid 500000 (next_synth_oid_ b) other pother ∨ other = OrderId_INVALID →
  (price ≠ Price_INVALID → pother ≠ Price_INVALID → priceToIndex pother ≠ priceToIndex price) →
  resting_of s b = kept c oid0 → (c = false → fresh_oid 500000 (next_synth_oid_ b) oid0 price) →
  (if c then add_synth fuel now s price qty b else Ok b) = Ok b' →
  ∃ te n oid, b' = (if c then set_last s price qty else id) (set_resting s oid (set_synth_oid n (set_engine te b)))
    ∧ book_is b' (set_ab_side ab s (synth_side s oid price qty))
    ∧ ((n = next_synth_oid_ b ∨ n = next_synth_oid_ b + 1) ∧ fresh_oid 500000 n oid price
       ∨ next_synth_oid_ b = 899999 ∧ fresh_oid 500000 900000 oid price).
Proof.
  intros Hs Hbook Hn Hq Hside Hother Hfresh Hidx Hrest Hkeep. destruct c.
  - intros H. apply add_synth_book with (ab := ab) in H as (te & n & oid & -> & Hb & Hcase); try done.
    + exists te, n, oid. split; [done|]. split; [done|]. destruct Hcase as [(-> & -> & ->)|(Hp & -> & [-> | [-> E]])].
      * left. split; [by left|by left].
      * left. split; [by right|right; split; [lia|done]].
      * right. split; [done|]. right. split; [lia|done].
    + by destruct Hside as [Hside|[_ Hside]].
    + rewrite Hother. apply synth_side_length.
    + intros Hp x. rewrite Hother. unfold synth_side. destruct (Z.eqb_spec other OrderId_INVALID) as [|Hne]; [by intros []%elem_of_nil|].
      intros ->%list_elem_of_singleton. cbn [mo_order_id_ mo_price_]. destruct Hfresh as [[[? _]|[Hr Hpo]]|?]; [done| |done]. auto.
  - intros [= <-]. destruct Hside as [Hside|[? _]]; [|done]. unfold kept in *.
    exists (engine_ b), (next_synth_oid_ b), oid0. split; [|split].
    + unfold id. destruct b; destruct Hs as [-> | ->]; unfold resting_of in Hrest; simpl in *; by subst.
    + rewrite <- Hside, set_ab_side_same. done.
    + left. split; [by left|by apply Hkeep].
Qed.

Lemma fresh_oid_weaken lo hi hi' oid price : hi ≤ hi' → fresh_oid lo hi oid price → fresh_oid lo hi' oid price.
Proof. intros H [?|[? ?]]; [by left|right; split; [lia|done]]. Qed.

Lemma fresh_oid_invalid hi oid price :
  hi ≤ 900000 → fresh_oid 500000 hi oid price → oid = OrderId_INVALID ↔ price = Price_INVALID.
Proof. intros Hh [[-> ->]|[H1 H2]]; [done|]. unfold OrderId_INVALID. split; [lia|done]. Qed.

Lemma synth_side_kept s (c : bool) oid p q p' q' :
  (c = false → p' = p ∧ q' = q) → synth_side s (kept c oid) p q = synth_side s (kept c oid) p' q'.
Proof. destruct c; [done|]. intros H. by destruct (H eq_refl) as [-> ->]. Qed.

Lemma fresh_oid_kept b (c : bool) oid p p' :
  (c = false → p' = p) → oid_ok b oid p →
  fresh_oid 500000 (next_synth_oid_ b) (kept c oid) p' ∨ kept c oid = OrderId_INVALID.
Proof. destruct c; [by right|]. intros H Hok. rewrite (H eq_refl). by left. Qed.

(** The two adds: both sides show the event. *)
Lemma adds_book fuel now2 now3 (bc ac : bool) ev b b2 b3 b4 te :
  synth_ok b → event_fits ev → next_synth_oid_ b + 2 ≤ 900000 →
  (bc = false → b_bid_price ev = last_bid_price_ b ∧ b_bid_qty ev = last_bid_qty_ b) →
  (ac = false → b_ask_price ev = last_ask_price_ b ∧ b_ask_qty ev = last_ask_qty_ b) →
  b2 = set_resting SELL (kept ac (resting_ask_oid_ b)) (set_resting BUY (kept bc (resting_bid_oid_ b)) (set_engine te b)) →
  book_is b2 (mkAbs (synth_side BUY (kept bc (resting_bid_oid_ b)) (last_bid_price_ b) (last_bid_qty_ b))
                    (synth_side SELL (kept ac (resting_ask_oid_ b)) (last_ask_price_ b) (last_ask_qty_ b))) →
  (if bc then add_synth fuel now2 BUY (b_bid_price ev) (b_bid_qty ev) b2 else Ok b2) = Ok b3 →
  (if ac then add_synth fuel now3 SELL (b_ask_price ev) (b_ask_qty ev) b3 else Ok b3) = Ok b4 →
  ∃ te' n oid oid', b4 = set_last SELL (b_ask_price ev) (b_ask_qty ev) (set_last BUY (b_bid_price ev) (b_bid_qty ev)
      (set_resting SELL oid' (set_resting BUY oid (set_synth_oid n (set_engine te' b)))))
    ∧ book_is b4 (mkAbs (synth_side BUY oid (b_bid_price ev) (b_bid_qty ev)) (synth_side SELL oid' (b_ask_price ev) (b_ask_qty ev)))
    ∧ fresh_oid 500000 900000 oid (b_bid_price ev) ∧ fresh_oid 500000 900000 oid' (b_ask_price ev)
    ∧ (next_synth_oid_ b + 2 < 900000 →
       next_synth_oid_ b ≤ n ≤ next_synth_oid_ b + 2 ∧ fresh_oid 500000 n oid (b_bid_price ev) ∧ fresh_oid 500000 n oid' (b_ask_price ev)).
Proof.
  intros [_ Hnext Hbid Hask] [Eb Ea Eap] Hn Hbc Hac E2 Hb2 H3 H4.
  rewrite (synth_side_kept BUY bc _ _ _ (b_bid_price ev) (b_bid_qty ev) Hbc),
    (synth_side_kept SELL ac _ _ _ (b_ask_price ev) (b_ask_qty ev) Hac) in Hb2.
  assert (next_synth_oid_ b2 = next_synth_oid_ b) as En2 by by rewrite E2.
  eapply (add_phase fuel now2 BUY bc _ _ _ _ _ (resting_bid_oid_ b) (kept ac (resting_ask_oid_ b)) (b_ask_price ev) (b_ask_qty ev))
    in H3 as (te3 & n3 & oid & E3 & Hb3 & Hc3); [|by left|exact Hb2|lia|done|by left|done| |intros Hp Hq Ei; exact (Eap Hp Hq (eq_sym Ei))|by rewrite E2|].
  2: { rewrite En2. eapply fresh_oid_kept; [|exact Hask]. intros E. by destruct (Hac E). }
  2: { intros E. rewrite En2. destruct (Hbc E) as [-> _]. exact Hbid. }
  destruct Hc3 as [[Hn3 Hf3]|[? _]]; [|lia]. rewrite En2 in Hn3.
  assert (next_synth_oid_ b3 = n3) as En3 by (rewrite E3; by destruct bc).
  eapply (add_phase fuel now3 SELL ac _ _ _ _ _ (resting_ask_oid_ b) oid (b_bid_price ev) (b_bid_qty ev))
    in H4 as (te4 & n4 & oid' & E4 & Hb4 & Hc4); [|by right|exact Hb3|lia|done|by left|done|left; by rewrite En3|intros Hp Hq; exact (Eap Hq Hp)| |].
  2: { rewrite E3, E2. by destruct bc. }
  2: { intros E. rewrite En3. destruct (Hac E) as [-> _]. eapply fresh_oid_weaken; [|exact Hask]. lia. }
  exists te4, n4, oid, oid'. split_and!; [| exact Hb4 | eapply fresh_oid_weaken; [|exact Hf3]; lia | |].
  - clear - E4 E3 E2 Hbc Hac. rewrite E4, E3, E2. clear E4 E3 E2. destruct b.
    cbn in Hbc, Hac. destruct bc, ac; try destruct (Hbc eq_refl) as [-> ->]; try destruct (Hac eq_refl) as [-> ->]; reflexivity.
  - destruct Hc4 as [[Hn4 Hf4]|[_ Hf4]]; [|done]. eapply fresh_oid_weaken; [|exact Hf4]. lia.
  - intros Hlt. destruct Hc4 as [[Hn4 Hf4]|[? _]]; [|lia]. split; [lia|]. split; [|done].
    eapply fresh_oid_weaken; [|exact Hf3]. lia.
Qed.

Lemma book_is_view b b' ab : same_view b b' → book_is b ab → book_is b' ab.
Proof. intros [] (mb & H & Hr). exists mb. by rewrite sv_books0, sv_ticker0. Qed.

(** [applyBookEvent] moves the client's book to the event. *)
Lemma applyBookEvent_book fuel wall ev b b' :
  synth_ok b → event_fits ev → next_synth_oid_ b + 2 ≤ 900000 → applyBookEvent fuel wall ev b = Ok b' →
  book_is b' (synth_book b')
  ∧ last_bid_price_ b' = b_bid_price ev ∧ last_bid_qty_ b' = b_bid_qty ev
  ∧ last_ask_price_ b' = b_ask_price ev ∧ last_ask_qty_ b' = b_ask_qty ev
  ∧ (resting_bid_oid_ b' = OrderId_INVALID ↔ b_bid_price ev = Price_INVALID)
  ∧ (resting_ask_oid_ b' = OrderId_INVALID ↔ b_ask_price ev = Price_INVALID)
  ∧ (next_synth_oid_ b + 2 < 900000 → synth_ok b' ∧ next_synth_oid_ b' ≤ next_synth_oid_ b + 2).
Proof.
  intros Hok Hev Hn. unfold applyBookEvent. cbv zeta. set (bc := side_changed (b_bid_price ev) _ _ _). set (ac := side_changed (b_ask_price ev) _ _ _).
  intros (b1 & H1 & (b2 & H2 & (b3 & H3 & (b4 & H4 & Hm)%bind_ok)%bind_ok)%bind_ok)%bind_ok.
  destruct (cancels_book fuel _ _ bc ac b b1 b2 Hok ltac:(lia) H1 H2) as (te & E2 & Hb2).
  destruct (adds_book fuel _ _ bc ac ev b b2 b3 b4 te Hok Hev Hn
              (side_changed_false _ _ _ _) (side_changed_false _ _ _ _) E2 Hb2 H3 H4) as (te' & n & oid & oid' & E4 & Hb4 & Hf & Hf' & Hlt).
  apply matchAgainstBBO_view in Hm as V. apply (book_is_view _ _ _ V) in Hb4.
  assert (synth_book b' = mkAbs (synth_side BUY oid (b_bid_price ev) (b_bid_qty ev)) (synth_side SELL oid' (b_ask_price ev) (b_ask_qty ev))) as Eb.
  { unfold synth_book. destruct V. rewrite sv_rb0, sv_ra0, sv_bp0, sv_ap0, sv_bq0, sv_aq0, E4. done. }
  rewrite <- Eb in Hb4. pose proof (fresh_oid_invalid _ _ _ (Z.le_refl _) Hf). pose proof (fresh_oid_invalid _ _ _ (Z.le_refl _) Hf').
  destruct V. rewrite sv_rb0, sv_ra0, sv_bp0, sv_ap0, sv_bq0, sv_aq0, sv_next0, E4. simpl.
  split_and!; try done. intros Hl. destruct (Hlt Hl) as (Hr & Hg & Hg'). destruct Hok.
  split; [split; [done|rewrite sv_next0, E4; simpl; lia| |]|lia]; unfold oid_ok; rewrite ?sv_rb0, ?sv_ra0, ?sv_bp0, ?sv_ap0, sv_next0, E4; done.
Qed.

(** What the best-price record of the client's book then shows. *)
Definition bbo_side (price qty : Z) : Z * Z :=
  if price =? Price_INVALID then (Price_INVALID, Qty_INVALID) else (price, qty).

Definition shows b (ev : BookTopEvent) : Prop :=
  ∃ mb, ticker_order_book_ (engine_ b) !! Z.to_nat (bt_ticker_id b) = Some mb
    ∧ (bid_price_ (bbo_ mb), bid_qty_ (bbo_ mb)) = bbo_side (b_bid_price ev) (b_bid_qty ev)
    ∧ (ask_price_ (bbo_ mb), ask_qty_ (bbo_ mb)) = bbo_side (b_ask_price ev) (b_ask_qty ev).

Lemma synth_side_best s oid price qty :
  (oid = OrderId_INVALID ↔ price = Price_INVALID) → 0 ≤ qty < 2 ^ 32 →
  spec_best (synth_side s oid price qty) = bbo_side price qty.
Proof.
  intros Hiff Hq. unfold synth_side, bbo_side.
  destruct (Z.eqb_spec oid OrderId_INVALID), (Z.eqb_spec price Price_INVALID); try tauto.
  unfold spec_best. cbn [mo_price_]. f_equal.
  unfold at_price. rewrite filter_cons_True by done. cbn. unfold wrap. rewrite Z.add_0_r. by apply Z.mod_small.
Qed.

(** The harness state remembers the event and the book shows it. *)
Record at_event b (ev : BookTopEvent) : Prop := {
  ae_shows : shows b ev;
  ae_bid : last_bid_price_ b = b_bid_price ev ∧ last_bid_qty_ b = b_bid_qty ev;
  ae_ask : last_ask_price_ b = b_ask_price ev ∧ last_ask_qty_ b = b_ask_qty ev }.

Lemma applyBookEvent_at fuel wall ev b b' :
  synth_ok b → event_fits ev → next_synth_oid_ b + 2 ≤ 900000 → applyBookEvent fuel wall ev b = Ok b' → at_event b' ev.
Proof.
  intros Hok Hev Hn H. destruct (applyBookEvent_book _ _ _ _ _ Hok Hev Hn H) as ((mb & Hmb & _ & _ & Hb & Ha) & E1 & E2 & E3 & E4 & I1 & I2 & _).
  destruct Hev. split; [|done|done]. exists mb. split; [done|]. cbn [ab_side synth_book] in Hb, Ha. unfold ab_side, is_buy in Hb, Ha. simpl in Hb, Ha.
  rewrite Hb, Ha, E1, E2, E3, E4. split; apply synth_side_best; done.
Qed.

(** ** A whole replay *)

Lemma same_view_refl b : same_view b b.
Proof. done. Qed.

Lemma same_view_trans b1 b2 b3 : same_view b1 b2 → same_view b2 b3 → same_view b1 b3.
Proof. intros [] []. split; congruence. Qed.

Lemma same_view_engine te b : ticker_order_book_ te = ticker_order_book_ (engine_ b) → same_view b (set_engine te b).
Proof. intros H. by split. Qed.

Lemma synth_ok_view b b' : same_view b b' → synth_ok b → synth_ok b'.
Proof.
  intros V [H1 H2 H3 H4]. pose proof (book_is_view _ _ _ V H1) as H1'. destruct V.
  split; unfold oid_ok, synth_book; by rewrite ?sv_rb0, ?sv_ra0, ?sv_bp0, ?sv_ap0, ?sv_bq0, ?sv_aq0, ?sv_next0.
Qed.

Lemma at_event_view b b' ev : same_view b b' → at_event b ev → at_event b' ev.
Proof.
  intros [] [(mb & Hmb & Hs) Hb Ha]. split; [|congruence..]. exists mb. by rewrite sv_books0, sv_ticker0.
Qed.

Lemma fill_slot_view tid s o p q b : same_view b (fill_slot tid s o p q b).
Proof. by split. Qed.

Lemma matchAgainstTrade_view ev b b' : matchAgainstTrade ev b = Ok b' → same_view b b'.
Proof.
  assert (∀ tid s o q c, same_view c (burn_and_fill tid s o q c)) as Hburn.
  { intros. unfold burn_and_fill. cbv zeta. by destruct (_ && _). }
  unfold matchAgainstTrade. cbv zeta. destruct (t_side ev); try (by intros [= <-]);
    intros (o & _ & [= <-])%bind_ok; destruct (_ && _); done.
Qed.

(** A trade leaves the book as it is. *)
Lemma applyTradeEvent_synth fuel wall ev b b' :
  synth_ok b → applyTradeEvent fuel wall ev b = Ok b' →
  synth_ok b' ∧ next_synth_oid_ b' = next_synth_oid_ b ∧ (∀ e, at_event b e → at_event b' e).
Proof.
  intros Hok (b1 & H1 & H2)%bind_ok. apply matchAgainstTrade_view in H2 as V. destruct Hok as [Hbook Hn Hb Ha].
  pose proof Hbook as (mb0 & Hmb0 & _ & _ & B0).
  apply publish_book with (ab := synth_book b) in H1 as [Hb1 [te ->]]; [|done..]. unfold spec_update in Hb1. cbn [mu_type_] in Hb1.
  split_and!; [|by destruct V|].
  - eapply synth_ok_view; [exact V|]. by split.
  - intros e [(mb & Hmb & S1 & S2) E1 E2]. eapply at_event_view; [exact V|]. split; [|done..].
    rewrite Hmb0 in Hmb. injection Hmb as ->. destruct Hb1 as (mb1 & Hmb1 & _ & _ & B1). exists mb1. split; [done|].
    destruct B0 as [B0 B0'], B1 as [B1 B1']. by rewrite B1, B1', <- B0, <- B0'.
Qed.

Lemma handle_request_view now req b b' : handle_request now req b = Ok b' → same_view b b'.
Proof. unfold handle_request. cbv zeta. intros (o & _ & H)%bind_ok. by destruct (bool_decide _); injection H as <-. Qed.

Lemma pumpClientRequests_view n now b b' : pumpClientRequests n now b = Ok b' → same_view b b'.
Proof.
  revert b. induction n as [|n IH]; intros b; simpl; destruct (getNextToRead _); try done; try (by intros [= <-]).
  intros (b1 & H1%handle_request_view & (q & _ & H%IH)%bind_ok)%bind_ok.
  eapply same_view_trans; [exact H1|]. eapply same_view_trans; [|exact H]. by apply same_view_engine.
Qed.

Lemma pumpClientResponses_view n b b' : pumpClientResponses n b = Ok b' → same_view b b'.
Proof. intros (te & [H _]%te_drain_responses_frame & [= <-])%bind_ok. by apply same_view_engine. Qed.

Lemma recordPnL_view now b b' : recordPnL now b = Ok b' → same_view b b'.
Proof. unfold recordPnL. cbv zeta. by intros (pi & _ & (mid & _ & [= <-])%bind_ok)%bind_ok. Qed.

Lemma after_event_view now last b b' last' : after_event now last b = Ok (b', last') → same_view b b'.
Proof.
  intros (b1 & H1%pumpClientRequests_view & (b2 & H2%pumpClientResponses_view & (d & _ & H)%bind_ok)%bind_ok)%bind_ok.
  eapply same_view_trans; [exact H1|]. eapply same_view_trans; [exact H2|].
  destruct (_ <=? _); [|by injection H as <- <-]. by apply bind_ok in H as (b3 & H3%recordPnL_view & [= <- <-]).
Qed.

Lemma finish_run_view last b b' : finish_run last b = Ok b' → same_view b b'.
Proof.
  intros (b1 & H1%pumpClientResponses_view & H2%recordPnL_view)%bind_ok. by eapply same_view_trans.
Qed.

Definition tape_event_fits (ev : TapeEvent) : Prop := match ev with BookTop e => event_fits e | Trade _ => True end.

Definition last_top (evs : list TapeEvent) (acc : option BookTopEvent) : option BookTopEvent :=
  foldl (λ acc ev, match ev with BookTop e => Some e | Trade _ => acc end) acc evs.

Definition maybe_at b (o : option BookTopEvent) : Prop := match o with Some e => at_event b e | None => True end.

Context `{!DoubleLog F} `{!DoubleText F}.

Lemma run_tape_book fuel n wall r last b b' evs acc :
  synth_ok b → maybe_at b acc → read_tape n r = Ok evs → Forall tape_event_fits evs →
  next_synth_oid_ b + 2 * Z.of_nat (length evs) < 900000 →
  run_tape fuel n wall r last b = Ok b' → synth_ok b' ∧ maybe_at b' (last_top evs acc).
Proof.
  revert r last b evs acc. induction n as [|n IH]; intros r last b evs acc Hok Hacc; simpl; [done|].
  intros ([ev r1] & -> & H)%bind_ok Hfits Hlen. cbn [rbind]. destruct ev as [ev|].
  - apply bind_ok in H as (evs' & Hr & [= <-]). apply Forall_cons in Hfits as [Hf Hfits]. cbn [length] in Hlen.
    intros (b1 & H1 & ([b2 last2] & V%after_event_view & H3)%bind_ok)%bind_ok.
    assert (synth_ok b1 ∧ next_synth_oid_ b1 ≤ next_synth_oid_ b + 2 ∧ maybe_at b1 (last_top [ev] acc)) as (Hok1 & Hn1 & Hm1).
    { destruct ev as [e|e]; cbn [tape_step last_top foldl maybe_at] in *.
      - pose proof (applyBookEvent_at _ _ _ _ _ Hok Hf ltac:(lia) H1) as Hat.
        apply applyBookEvent_book in H1 as (_ & _ & _ & _ & _ & _ & _ & H1); [|done|done|lia]. destruct H1; [lia|done].
      - apply applyTradeEvent_synth in H1 as (H1 & E & Hat); [|done]. split_and!; [done|lia|].
        destruct acc; simpl in *; auto. }
    destruct (IH r1 last2 b2 evs' (last_top [ev] acc)) as [A B]; try done.
    + by eapply synth_ok_view.
    + destruct (last_top [ev] acc); [by eapply at_event_view|done].
    + destruct V. lia.
  - injection H as <-. intros V%finish_run_view. split; [by eapply synth_ok_view|].
    simpl. destruct acc; [by eapply at_event_view|done].
Qed.

Lemma BacktestEngine_new_synth tid cfg mem now b :
  0 ≤ tid → all_zeroed (em_books mem) → BacktestEngine_new tid cfg mem now = Ok b → synth_ok b ∧ next_synth_oid_ b = 500000.
Proof.
  intros H0 Hz. unfold BacktestEngine_new. cbv zeta. case_decide as Ht; [|done]. rewrite length_replicate in Ht.
  intros (te & Hte & [= <-])%bind_ok. split; [|done]. split; [|simpl; lia|by left|by left].
  assert (ticker_order_book_ te = market_books (em_books mem)) as Hb.
  { unfold TradeEngine_new in Hte. destruct (_ !! 0%nat); [|done]. by apply bind_ok in Hte as (om & _ & [= <-]). }
  exists (MarketOrderBook_new zeroed tid). split; [|exact (mkt_rep_new tid)]. cbn [engine_ bt_ticker_id]. rewrite Hb.
  rewrite market_books_lookup, Hz by lia. done.
Qed.
End Books.
