(* ===== verification/BacktestFills.v ===== *)
(** * The fill simulator of the backtest.

    Lemmas on Backtest.v: what a trade and a change of the best prices do to the
    algorithm's resting order.  [trade_exec] is the quantity a trade leaves for
    the order once everything queued in front of it has traded. *)

From Stdlib Require Import Ascii String.
From stdpp Require Import numbers strings gmap list.
From S2P Require Import Prelude Types MemPool LFQueue BookSpec MarketOrderBook MatchingEngine Double Logging Position OrderManager Features Strategy Parse Tape Lobster Backtest.

Open Scope Z_scope.

Section Fills.
Context {F : Type} `{!Double F} `{!DoubleMath F} `{!DoubleCast F}.
Implicit Types (b : BacktestEngine F) (o : LiveAlgoOrder).

(** The responses waiting for the trade engine. *)
Definition waiting b (rs : list MEClientResponse) : Prop := lfq_rep (incoming_ogw_responses_ (engine_ b)) rs.
Definition response_room b (rs : list MEClientResponse) (n : nat) : Prop :=
  Z.of_nat (length rs) + Z.of_nat n ≤ q_size (incoming_ogw_responses_ (engine_ b)).

Lemma waiting_publish r b rs :
  waiting b rs → response_room b rs 1 → waiting (publishResponse r b) (rs ++ [r]).
Proof. intros Hw Hr. apply enqueue_ok; [done|]. unfold response_room in Hr. lia. Qed.

Lemma live_slot_set tid s o b s' o' :
  proper_side s → proper_side s' → live_slot tid s' b = Ok o' →
  live_slot tid s' (set_live_slot tid s o b) = Ok (if decide (s' = s) then o else o').
Proof.
  unfold live_slot, set_live_slot. cbn [live_ set_live]. rewrite list_lookup_alter_eq.
  destruct (live_ b !! Z.to_nat tid) as [a|]; [|done]. cbn [fmap option_fmap option_map].
  intros [-> | ->] [-> | ->] [= <-]; by destruct a.
Qed.

(** An order of the algorithm as the simulator sees it. *)
Record live_order o : Prop := {
  lv_leaves : 0 < lo_leaves o < 2 ^ 32;
  lv_ahead : 0 ≤ lo_ahead o < 2 ^ 32 }.

Definition set_leaves_ahead o (leaves ahead : Z) : LiveAlgoOrder :=
  mkLiveAlgoOrder (lo_order_id o) (lo_price o) (lo_side o) leaves ahead (lo_created_ns o).

(** The slot after an execution: freed when nothing is left. *)
Definition executed o (exec ahead : Z) : LiveAlgoOrder :=
  if lo_leaves o - exec =? 0 then LiveAlgoOrder_default else set_leaves_ahead o (lo_leaves o - exec) ahead.

Lemma fill_slot_ok tid s o price exec b rs s' o' :
  proper_side s → proper_side s' → waiting b rs → response_room b rs 1 → 0 ≤ exec ≤ lo_leaves o → lo_leaves o < 2 ^ 32 →
  live_slot tid s' b = Ok o' →
  waiting (fill_slot tid s o price exec b)
    (rs ++ [harness_response FILLED tid s (lo_order_id o) price exec (lo_leaves o - exec)])
  ∧ live_slot tid s' (fill_slot tid s o price exec b) = Ok (if decide (s' = s) then executed o exec (lo_ahead o) else o').
Proof.
  intros Hs Hs' Hw Hr He Hl Hslot. unfold fill_slot. cbv zeta.
  assert (u32 (lo_leaves o - exec) = lo_leaves o - exec) as -> by (unfold wrap; apply Z.mod_small; lia). split.
  - by apply waiting_publish.
  - exact (live_slot_set _ _ _ _ _ _ Hs Hs' Hslot).
Qed.

(** ** Trades *)

(** What is left of a trade of [qty] for an order with [lo_ahead] in front. *)
Definition trade_exec o (qty : Z) : Z := Z.min (lo_leaves o) (Z.max 0 (qty - lo_ahead o)).
Definition ahead_after o (qty : Z) : Z := Z.max 0 (lo_ahead o - qty).

(** A trade by an aggressor of side [opposite s] reaches an order of side [s]. *)
Definition trade_reaches (s : Side) o (price : Z) : bool :=
  if is_buy s then price <=? lo_price o else lo_price o <=? price.

Definition after_trade o (qty : Z) : LiveAlgoOrder :=
  if trade_exec o qty =? 0 then set_leaves_ahead o (lo_leaves o) (ahead_after o qty)
  else executed o (trade_exec o qty) (ahead_after o qty).

Lemma burn_and_fill_ok tid s o qty b rs s' o' :
  proper_side s → proper_side s' → waiting b rs → response_room b rs 1 → live_order o → 0 ≤ qty < 2 ^ 32 →
  live_slot tid s' b = Ok o' →
  waiting (burn_and_fill tid s o qty b)
    (rs ++ if trade_exec o qty =? 0 then []
           else [harness_response FILLED tid s (lo_order_id o) (lo_price o) (trade_exec o qty)
                   (lo_leaves o - trade_exec o qty)])
  ∧ live_slot tid s' (burn_and_fill tid s o qty b) = Ok (if decide (s' = s) then after_trade o qty else o').
Proof.
  intros Hs Hs' Hw Hr [Hl Ha] Hq Hslot. unfold burn_and_fill. cbv zeta.
  assert (u32 (lo_ahead o - Z.min (lo_ahead o) qty) = ahead_after o qty) as ->.
  { unfold ahead_after, wrap. rewrite Z.mod_small; lia. }
  set (o1 := mkLiveAlgoOrder _ _ _ _ _ _). set (b1 := set_live_slot tid s o1 b).
  pose proof (live_slot_set tid s o1 b s' o' Hs Hs' Hslot) as H1. fold b1 in H1.
  unfold after_trade, trade_exec.
  destruct (Z.ltb_spec 0 (qty - Z.min (lo_ahead o) qty)) as [Hpos|Hpos].
  - assert ((ahead_after o qty =? 0) = true) as -> by (apply Z.eqb_eq; unfold ahead_after; lia). cbn [andb].
    replace (Z.max 0 (qty - lo_ahead o)) with (qty - Z.min (lo_ahead o) qty) by lia.
    set (exec := Z.min (lo_leaves o) _). rewrite (proj2 (Z.eqb_neq exec 0)) by lia.
    destruct (fill_slot_ok tid s o1 (lo_price o) exec b1 rs s' (if decide (s' = s) then o1 else o') Hs Hs' Hw Hr) as [H2 H3];
      [simpl; lia|simpl; lia|exact H1|].
    split; [exact H2|]. refine (eq_trans H3 _). by destruct (decide (s' = s)).
  - cbn [andb]. replace (Z.min (lo_leaves o) (Z.max 0 (qty - lo_ahead o))) with 0 by lia. cbn [Z.eqb]. by rewrite app_nil_r.
Qed.

Lemma matchAgainstTrade_ok ev s o b rs :
  proper_side s → t_side ev = opposite s → live_slot (bt_ticker_id b) s b = Ok o → live_order o →
  0 ≤ t_qty ev < 2 ^ 32 → waiting b rs → response_room b rs 1 →
  ∃ b', matchAgainstTrade ev b = Ok b'
    ∧ (trade_reaches s o (t_price ev) = false → b' = b)
    ∧ (trade_reaches s o (t_price ev) = true →
       waiting b' (rs ++ if trade_exec o (t_qty ev) =? 0 then []
                         else [harness_response FILLED (bt_ticker_id b) s (lo_order_id o) (lo_price o)
                                 (trade_exec o (t_qty ev)) (lo_leaves o - trade_exec o (t_qty ev))])
       ∧ live_slot (bt_ticker_id b) s b' = Ok (after_trade o (t_qty ev))
       ∧ live_slot (bt_ticker_id b) (opposite s) b' = live_slot (bt_ticker_id b) (opposite s) b).
Proof.
  intros Hs Ht Hslot Ho Hq Hw Hr. pose proof Ho as [Hl _].
  assert (∃ oo, live_slot (bt_ticker_id b) (opposite s) b = Ok oo) as [oo Hoo].
  { unfold live_slot in *. destruct (live_ b !! _); [by eexists|done]. }
  assert (proper_side (opposite s)) as Hos by (destruct Hs as [-> | ->]; [by right|by left]).
  pose proof (burn_and_fill_ok (bt_ticker_id b) s o (t_qty ev) b rs s o Hs Hs Hw Hr Ho Hq Hslot) as [H1 H2].
  pose proof (burn_and_fill_ok (bt_ticker_id b) s o (t_qty ev) b rs (opposite s) oo Hs Hos Hw Hr Ho Hq Hoo) as [_ H3].
  rewrite decide_True in H2 by done. rewrite decide_False in H3 by (by destruct Hs as [-> | ->]).
  assert (matchAgainstTrade ev b = Ok (if trade_reaches s o (t_price ev)
            then burn_and_fill (bt_ticker_id b) s o (t_qty ev) b else b)) as E.
  { unfold matchAgainstTrade, trade_reaches. rewrite Ht. cbv zeta.
    destruct Hs as [-> | ->]; cbn [opposite is_buy]; rewrite Hslot; cbn [rbind]; by rewrite (proj2 (Z.ltb_lt _ _)) by lia. }
  eexists. split; [exact E|]. split; [by intros ->|]. intros ->. split_and!; [exact H1|exact H2|by rewrite H3, Hoo].
Qed.

(** ** Best prices *)

(** The touch of the other side: price and quantity. *)
Definition touch (s : Side) b : Z * Z :=
  if is_buy s then (last_ask_price_ b, last_ask_qty_ b) else (last_bid_price_ b, last_bid_qty_ b).

(** The order of a side is through the touch of the other side. *)
Definition crossed (s : Side) o b : bool :=
  (0 <? lo_leaves o) && negb ((touch s b).1 =? Price_INVALID)
  && (if is_buy s then (touch s b).1 <=? lo_price o else lo_price o <=? (touch s b).1).

(** The response and the slot a crossed order gets. *)
Definition sweep_exec (s : Side) o b : Z := Z.min (lo_leaves o) (touch s b).2.
Definition sweep_response (s : Side) o b : MEClientResponse :=
  if 0 <? lo_ahead o then harness_response CANCELED (bt_ticker_id b) s (lo_order_id o) (lo_price o) 0 0
  else harness_response FILLED (bt_ticker_id b) s (lo_order_id o) (touch s b).1 (sweep_exec s o b)
         (lo_leaves o - sweep_exec s o b).
Definition sweep_responses (s : Side) o b : list MEClientResponse :=
  if crossed s o b then [sweep_response s o b] else [].
Definition after_sweep (s : Side) o b : LiveAlgoOrder :=
  if crossed s o b then if 0 <? lo_ahead o then LiveAlgoOrder_default else executed o (sweep_exec s o b) (lo_ahead o)
  else o.

Definition sweep_step (s : Side) o b : BacktestEngine F :=
  if crossed s o b then sweepSlot (bt_ticker_id b) s o (touch s b).1 (touch s b).2 b else b.

Lemma sweep_step_touch s o b s' :
  touch s' (sweep_step s o b) = touch s' b ∧ bt_ticker_id (sweep_step s o b) = bt_ticker_id b
  ∧ q_size (incoming_ogw_responses_ (engine_ (sweep_step s o b))) = q_size (incoming_ogw_responses_ (engine_ b)).
Proof. unfold sweep_step. destruct (crossed s o b); [|done]. unfold sweepSlot. by destruct (0 <? lo_ahead o). Qed.

Lemma sweep_step_ok s o b rs s' o' :
  proper_side s → proper_side s' → waiting b rs → response_room b rs 1 → lo_leaves o < 2 ^ 32 → 0 ≤ (touch s b).2 →
  live_slot (bt_ticker_id b) s' b = Ok o' →
  waiting (sweep_step s o b) (rs ++ sweep_responses s o b)
  ∧ (s' = s → o' = o → live_slot (bt_ticker_id b) s' (sweep_step s o b) = Ok (after_sweep s o b))
  ∧ (s' ≠ s → live_slot (bt_ticker_id b) s' (sweep_step s o b) = Ok o').
Proof.
  intros Hs Hs' Hw Hr Hl Hq Hslot. unfold sweep_step, sweep_responses, after_sweep.
  destruct (crossed s o b) eqn:Hc; [|rewrite app_nil_r; naive_solver]. unfold sweepSlot, sweep_response, sweep_exec.
  assert (0 < lo_leaves o) as Hpos.
  { unfold crossed in Hc. apply andb_prop in Hc as [[?%Z.ltb_lt _]%andb_prop _]. done. }
  destruct (0 <? lo_ahead o).
  - split; [by apply waiting_publish|].
    pose proof (live_slot_set (bt_ticker_id b) s LiveAlgoOrder_default
      (publishResponse (harness_response CANCELED (bt_ticker_id b) s (lo_order_id o) (lo_price o) 0 0) b) s' o' Hs Hs' Hslot) as H1.
    rewrite H1. split; intros; [by rewrite decide_True|by rewrite decide_False].
  - destruct (fill_slot_ok (bt_ticker_id b) s o (touch s b).1 (Z.min (lo_leaves o) (touch s b).2) b rs s' o' Hs Hs' Hw Hr)
      as [H1 H2]; [lia|lia|done|]. rewrite H2. split_and!; [done|..]; intros; [by rewrite decide_True|by rewrite decide_False].
Qed.

(** Both sides of [matchAgainstBBO]. *)
Lemma matchAgainstBBO_ok b rs bo ao :
  live_slot (bt_ticker_id b) BUY b = Ok bo → live_slot (bt_ticker_id b) SELL b = Ok ao →
  lo_leaves bo < 2 ^ 32 → lo_leaves ao < 2 ^ 32 → 0 ≤ last_bid_qty_ b → 0 ≤ last_ask_qty_ b →
  waiting b rs → response_room b rs 2 →
  ∃ b', matchAgainstBBO b = Ok b'
    ∧ waiting b' (rs ++ sweep_responses BUY bo b ++ sweep_responses SELL ao b)
    ∧ live_slot (bt_ticker_id b) BUY b' = Ok (after_sweep BUY bo b)
    ∧ live_slot (bt_ticker_id b) SELL b' = Ok (after_sweep SELL ao b).
Proof.
  intros Hb Ha Lb La Qb Qa Hw Hr. unfold response_room in Hr.
  destruct (sweep_step_ok BUY bo b rs BUY bo) as (W1 & B1 & _); [by left|by left|done|unfold response_room; lia|done..|].
  destruct (sweep_step_ok BUY bo b rs SELL ao) as (_ & _ & A1); [by left|by right|done|unfold response_room; lia|done..|].
  destruct (sweep_step_touch BUY bo b SELL) as (T1 & T2 & T3). set (b1 := sweep_step BUY bo b) in *.
  specialize (B1 eq_refl eq_refl). specialize (A1 ltac:(done)). rewrite <- T2 in A1, B1.
  assert (response_room b1 (rs ++ sweep_responses BUY bo b) 1) as Hr1.
  { unfold response_room. rewrite T3, length_app. unfold sweep_responses. destruct (crossed BUY bo b); simpl; lia. }
  assert (0 ≤ (touch SELL b1).2) as Q1 by by rewrite T1.
  destruct (sweep_step_ok SELL ao b1 (rs ++ sweep_responses BUY bo b) SELL ao) as (W2 & A2 & _); [by right|by right|exact W1|done..|].
  destruct (sweep_step_ok SELL ao b1 (rs ++ sweep_responses BUY bo b) BUY (after_sweep BUY bo b)) as (_ & _ & B2); [by right|by left|exact W1|done..|].
  specialize (A2 eq_refl eq_refl). specialize (B2 ltac:(done)).
  assert (sweep_responses SELL ao b1 = sweep_responses SELL ao b) as Er.
  { unfold sweep_responses, sweep_response, sweep_exec, crossed. by rewrite T1, T2. }
  assert (after_sweep SELL ao b1 = after_sweep SELL ao b) as Es by (unfold after_sweep, crossed, sweep_exec; by rewrite T1).
  exists (sweep_step SELL ao b1). rewrite Er in W2. rewrite Es, T2 in A2. rewrite T2 in B2.
  split_and!; [|by rewrite (assoc_L (++))|done|done].
  unfold matchAgainstBBO. cbv zeta. rewrite Hb. cbn [rbind]. change (if _ && _ then _ else b) with b1.
  rewrite <- T2, A1. cbn [rbind]. done.
Qed.

(** What a change of the best prices may do to the order [o] of side [s], when the
    touch of the other side is [qty] at [price]: the responses sent about it and the
    slot left.  The three cases exclude each other: the order is not through the
    touch (or there is no order, or no touch) and nothing happens; it is through
    with quantity still queued in front of it and is canceled; it is through with
    nothing in front and is filled against the touch, at the touch's price. *)
Inductive bbo_outcome (tid : Z) (s : Side) o (price qty : Z) : list MEClientResponse → LiveAlgoOrder → Prop :=
  | bbo_untouched :
      lo_leaves o ≤ 0 ∨ price = Price_INVALID ∨ (if is_buy s then lo_price o < price else price < lo_price o) →
      bbo_outcome tid s o price qty [] o
  | bbo_canceled :
      0 < lo_leaves o → price ≠ Price_INVALID → (if is_buy s then price ≤ lo_price o else lo_price o ≤ price) →
      0 < lo_ahead o →
      bbo_outcome tid s o price qty
        [mkMEClientResponse CANCELED 1 tid (lo_order_id o) (lo_order_id o) s (lo_price o) 0 0] LiveAlgoOrder_default
  | bbo_filled exec :
      0 < lo_leaves o → price ≠ Price_INVALID → (if is_buy s then price ≤ lo_price o else lo_price o ≤ price) →
      lo_ahead o ≤ 0 → exec = Z.min (lo_leaves o) qty →
      bbo_outcome tid s o price qty
        [mkMEClientResponse FILLED 1 tid (lo_order_id o) (lo_order_id o) s price exec (lo_leaves o - exec)]
        (if decide (exec = lo_leaves o) then LiveAlgoOrder_default else set_leaves_ahead o (lo_leaves o - exec) (lo_ahead o)).

Lemma executed_decide o exec ahead :
  executed o exec ahead =
  if decide (exec = lo_leaves o) then LiveAlgoOrder_default else set_leaves_ahead o (lo_leaves o - exec) ahead.
Proof. unfold executed. destruct (Z.eqb_spec (lo_leaves o - exec) 0), (decide (exec = lo_leaves o)); done || lia. Qed.

Lemma sweep_outcome s o b :
  bbo_outcome (bt_ticker_id b) s o (touch s b).1 (touch s b).2 (sweep_responses s o b) (after_sweep s o b).
Proof.
  unfold sweep_responses, after_sweep. destruct (crossed s o b) eqn:Hc.
  - apply andb_prop in Hc as [[Hl%Z.ltb_lt Hv]%andb_prop Hp]. apply negb_true_iff, Z.eqb_neq in Hv.
    assert (if is_buy s then (touch s b).1 ≤ lo_price o else lo_price o ≤ (touch s b).1) as Hp'
      by (destruct (is_buy s); by apply Z.leb_le).
    unfold sweep_response. destruct (Z.ltb_spec 0 (lo_ahead o)); [by constructor|].
    rewrite executed_decide. by constructor.
  - constructor. unfold crossed in Hc. apply andb_false_iff in Hc as [[Hl%Z.ltb_ge|Hv]%andb_false_iff|Hp]; [by left|..].
    + apply negb_false_iff, Z.eqb_eq in Hv. by right; left.
    + right; right. destruct (is_buy s); by apply Z.leb_gt.
Qed.
End Fills.
