(* ===== verification/BacktestLobster.v ===== *)
(** * The backtest on a LOBSTER sample.

    Lemmas on Backtest.v and Lobster.v: the invariant of the harness
    (BacktestProofs.v) along [runLobster], whatever the files hold: the reader
    only produces updates of its ticker with quantities that are not negative
    ([lob_next_updates]), and neither the book nor its best-bid-offer then holds
    a negative one. *)

From Stdlib Require Import Ascii String.
From stdpp Require Import numbers strings gmap list.
From S2P Require Import Prelude Types MemPool LFQueue BookCore BookSpec MarketOrderBook MarketBookQty MatchingEngine Double Logging Position OrderManager Features Strategy FeedPath StrategySafety Parse Tape Lobster LobsterProofs Backtest BacktestProofs BacktestBook.

Open Scope Z_scope.

(** ** What the reader produces *)

Section Reader.
Context {F : Type} `{!Double F} `{!DoubleCast F} `{!DoubleText F} `{!HashOrder} {Hlaws : HashOrderLaws}.
Implicit Types (r : LobsterReader).

Definition update_of (tid : Z) (p : Z * MEMarketUpdate) : Prop := mu_ticker_id_ p.2 = tid ∧ 0 ≤ mu_qty_ p.2.

Lemma diff_cancels_updates tid ts s base cur l : Forall (update_of tid) (diff_cancels tid ts s base cur l).
Proof.
  induction l as [|[px q] l IH]; simpl; [constructor|]. destruct (cur !! px); [done|]. by constructor.
Qed.

Lemma diff_adds_updates tid ts s base prev l prio :
  Forall (λ e, 0 ≤ e.2) l → Forall (update_of tid) (diff_adds tid ts s base prev l prio).1.
Proof.
  intros Hl. revert prio. induction Hl as [|[px q] l Hq Hl IH]; intros prio; simpl; [constructor|].
  destruct (prev !! px) as [q0|].
  - pose proof (IH prio) as Hi. destruct (diff_adds _ _ _ _ _ _ _) as [us prio']. cbn [fst] in *.
    destruct (q0 =? q); [done|]. by constructor.
  - pose proof (IH (u64 (prio + 1))) as Hi. destruct (diff_adds _ _ _ _ _ _ _) as [us prio']. cbn [fst] in *. by constructor.
Qed.

Lemma diffSide_updates tid ts s base n prev cur prio :
  map_Forall (λ _ q, 0 ≤ q < 2 ^ 32) cur → Forall (update_of tid) (diffSide tid ts s base n prev cur prio).1.
Proof.
  intros Hc. unfold diffSide. pose proof (diff_adds_updates tid ts s base prev (iterate (n + 1) cur) prio) as Ha.
  destruct (diff_adds _ _ _ _ _ _ _) as [adds prio']. cbn [fst] in *. apply Forall_app. split; [apply diff_cancels_updates|].
  apply Ha. rewrite (iterate_perm (n + 1) cur). apply Forall_forall. intros [p q] Hp%elem_of_map_to_list.
  by destruct (Hc p q Hp).
Qed.

Lemma process_rows_updates mline oline msg ob r r' :
  process_rows (F:=F) mline oline msg ob r = Ok r' →
  Forall (update_of (lob_ticker_id (lob_cfg_ r))) (pending_ r) →
  Forall (update_of (lob_ticker_id (lob_cfg_ r))) (pending_ r') ∧ lob_cfg_ r' = lob_cfg_ r.
Proof.
  unfold process_rows. cbv zeta. intros Hrun Hp.
  apply bind_ok in Hrun as ([[[[ts ty] msz] mpx] dir] & Hmsg & Hrun). apply bind_ok in Hrun as (v & Hv & Hrun).
  apply bind_ok in Hrun as ([cur_ask cur_bid] & Hlev & Hrun). apply read_values_length in Hv.
  destruct (read_levels_size (levels (lob_cfg_ r)) v ∅ ∅ cur_ask cur_bid 0 0 Hv Hlev) as (_ & _ & Ha & Hb);
    [by rewrite map_size_empty|by rewrite map_size_empty|apply map_Forall_empty|apply map_Forall_empty|].
  pose proof (diffSide_updates (lob_ticker_id (lob_cfg_ r)) ts BUY 0 (4 * u64 (lob_count_ r + 1)) (prev_bid_ r) cur_bid (next_priority_ r) Hb) as H1.
  destruct (diffSide _ _ BUY _ _ _ _ _) as [bids prio1]. cbn [fst] in H1.
  pose proof (diffSide_updates (lob_ticker_id (lob_cfg_ r)) ts SELL kAskOidOffset (4 * u64 (lob_count_ r + 1) + 2) (prev_ask_ r) cur_ask prio1 Ha) as H2.
  destruct (diffSide _ _ SELL _ _ _ _ _) as [asks prio2]. cbn [fst] in H2.
  injection Hrun as <-. cbn [pending_ lob_cfg_]. split; [|done]. rewrite !Forall_app. split_and!; try done.
  destruct (_ || _); [|constructor]. constructor; [|constructor]. split; [done|].
  unfold parse_message in Hmsg. do 6 (destruct (getline_or_empty COMMA _) in Hmsg).
  repeat (apply bind_ok in Hmsg as (? & _ & Hmsg)). injection Hmsg as _ _ <- _ _. simpl. apply Z.mod_pos_bound. lia.
Qed.

Lemma lob_next_updates r p r' :
  lob_next (F:=F) r = Ok (Some p, r') → Forall (update_of (lob_ticker_id (lob_cfg_ r))) (pending_ r) →
  update_of (lob_ticker_id (lob_cfg_ r)) p ∧ Forall (update_of (lob_ticker_id (lob_cfg_ r))) (pending_ r') ∧ lob_cfg_ r' = lob_cfg_ r.
Proof.
  unfold lob_next. generalize (S (String.length (msg_in_ r))) as n. intros n. revert r.
  induction n as [|n IH]; intros r; cbn [lob_refill]; destruct (pending_ r) as [|e l] eqn:E; try done.
  1,3: by intros [= <- <-] [H1 H2]%Forall_cons.
  intros ([more r1] & Hs & Hx)%bind_ok _. destruct more; [|done].
  assert (Forall (update_of (lob_ticker_id (lob_cfg_ r))) (pending_ r1) ∧ lob_cfg_ r1 = lob_cfg_ r) as [Hp Hc].
  { unfold fillStep in Hs. destruct (lob_eof_ r); [done|]. destruct (_ && _); [done|].
    destruct (getline NEWLINE (msg_in_ r)) as [[mline msg]|]; [|done].
    destruct (getline NEWLINE (ob_in_ r)) as [[oline ob]|]; [|done]. destruct (_ || _).
    - injection Hs as <-. cbn [lob_skip pending_ lob_cfg_]. by rewrite E.
    - apply bind_ok in Hs as (r2 & Hr & [= <-]). eapply process_rows_updates; [exact Hr|by rewrite E]. }
  destruct (IH r1 Hx) as (A & B & C); [by rewrite Hc|]. rewrite Hc in A, B. split_and!; [done|done|congruence].
Qed.
End Reader.

(** ** The harness along the replay *)

Section Run.
Context {F : Type} `{!Double F} `{!DoubleMath F} `{!DoubleCast F} `{!DoubleText F} `{!HashOrder} {Hlaws : HashOrderLaws}.
Context (risks : list (RiskCfg F)).
Implicit Types (b : BacktestEngine F).

Definition books_nonneg b : Prop := Forall book_nonneg (ticker_order_book_ (engine_ b)).

Lemma publish_nonneg fuel now u b b' :
  0 ≤ mu_qty_ u → books_nonneg b → publishMarketUpdate fuel now u b = Ok b' → books_nonneg b'.
Proof.
  intros Hq Hb. unfold publishMarketUpdate. destruct (_ !! _) as [mb|] eqn:Hmb; [|done].
  intros (te & (mb' & note & Hu & Hbs & _)%te_book_update_books & [= <-])%bind_ok. unfold books_nonneg. cbn [engine_ set_engine].
  rewrite Hbs. apply Forall_insert; [done|]. eapply onMarketUpdate_nonneg; [exact Hq| |exact Hu]. by eapply Forall_lookup_1.
Qed.

Lemma syncBBO_harness b b' rl :
  harness risks b rl [] → books_nonneg b → syncBBOFromBook b = Ok b' → harness risks b' rl [] ∧ books_nonneg b'.
Proof.
  intros Hh Hb. unfold syncBBOFromBook, orderBook. destruct (ticker_order_book_ (engine_ b) !! _) as [mb|] eqn:Hmb; [|done]. cbn [rbind]. cbv zeta. intros [= <-].
  destruct (Forall_lookup_1 _ _ _ _ Hb Hmb) as [_ H1 H2]. split; [|done].
  assert (∀ q, 0 ≤ q → 0 ≤ (if q =? Qty_INVALID then 0 else q)) as Hq by (intros q ?; by destruct (q =? Qty_INVALID)).
  apply (harness_core risks b); [by split|exact (Hq _ H1)|exact (Hq _ H2)|done].
Qed.

Lemma lobster_step_harness fuel wall now mu b b' rl :
  harness risks b rl [] → books_nonneg b → update_of (bt_ticker_id b) (now, mu) → lobster_step fuel wall now mu b = Ok b' →
  ∃ rl' pl, harness risks b' rl' pl ∧ (length pl ≤ 2)%nat ∧ books_nonneg b' ∧ bt_ticker_id b' = bt_ticker_id b.
Proof.
  intros Hh Hb [Ht Hq] (b1 & H1 & (b2 & H2 & H3)%bind_ok)%bind_ok. pose proof (publish_nonneg _ _ _ _ _ Hq Hb H1) as Hb1.
  apply publish_harness with (risks := risks) (rl := rl) in H1 as (rl1 & Hh1 & Et & _); [|done|done].
  destruct (syncBBO_harness _ _ _ Hh1 Hb1 H2) as [Hh2 Hb2].
  assert (bt_ticker_id b2 = bt_ticker_id b1) as Et2.
  { apply bind_ok in H2 as (mb & _ & H2). by injection H2 as <-. }
  destruct (bool_decide _).
  - apply matchAgainstTrade_view in H3 as V.
    destruct (matchAgainstTrade_harness risks (mkTradeEvent now (mu_price_ mu) (mu_qty_ mu) (mu_side_ mu)) b2 rl1 Hh2) as (b3 & pl & E & Hh3 & Hl).
    rewrite H3 in E. injection E as <-. exists rl1, pl. unfold books_nonneg. destruct V. rewrite sv_books, sv_ticker. split_and!; done || congruence.
  - apply matchAgainstBBO_view in H3 as V.
    destruct (matchAgainstBBO_harness risks b2 rl1 Hh2) as (b3 & pl & E & Hh3 & Hl).
    rewrite H3 in E. injection E as <-. exists rl1, pl. unfold books_nonneg. destruct V. rewrite sv_books, sv_ticker. split_and!; done || congruence.
Qed.

Lemma runLobster_harness fuel n wall r last b b' :
  harness risks b [] [] → books_nonneg b → lob_ticker_id (lob_cfg_ r) = bt_ticker_id b →
  Forall (update_of (lob_ticker_id (lob_cfg_ r))) (pending_ r) →
  runLobster fuel n wall r last b = Ok b' → harness risks b' [] [].
Proof.
  revert r last b. induction n as [|n IH]; intros r last b Hh Hb Ht Hp; simpl; [done|].
  intros ([ev r1] & Hn & Hx)%bind_ok. destruct ev as [[now mu]|]; [|by eapply finish_run_harness].
  apply lob_next_updates in Hn as (Hu & Hp1 & Hc); [|done]. rewrite Ht in Hu.
  apply bind_ok in Hx as (b1 & H1 & ([b2 last2] & H2 & H3)%bind_ok).
  destruct (lobster_step_harness _ _ _ _ _ _ _ Hh Hb Hu H1) as (rl & pl & Hh1 & Hl & Hb1 & Et).
  pose proof (after_event_harness risks _ _ _ _ _ _ _ Hh1 Hl H2) as Hh2. apply after_event_view in H2 as [].
  eapply (IH r1 last2 b2); [done|unfold books_nonneg; by rewrite sv_books|congruence|by rewrite Hc|exact H3].
Qed.
End Run.

Lemma BacktestEngine_new_nonneg {F : Type} `{!Double F} `{!DoubleMath F} `{!DoubleCast F} tid (cfg : TradeEngineCfg F) mem now b :
  BacktestEngine_new tid cfg mem now = Ok b → books_nonneg b.
Proof.
  unfold BacktestEngine_new. cbv zeta. case_decide; [|done]. intros (te & Hte & [= <-])%bind_ok.
  unfold books_nonneg. cbn [engine_]. unfold TradeEngine_new in Hte. destruct (_ !! 0%nat); [|done].
  apply bind_ok in Hte as (om & _ & [= <-]). cbn [ticker_order_book_]. unfold market_books.
  apply Forall_fmap, Forall_forall. intros i _. apply book_nonneg_new.
Qed.
