(* ===== verification/BacktestMain.v ===== *)
(** * The backtest executable.

    [main] of src/backtest/backtest_main.cpp: the configuration from the command
    line and the environment, the construction and the run.  [argv] is the list of
    arguments, whose last element is followed by a null pointer; giving that to
    [std::atof] or [std::atoi], or reading behind it, is undefined.  [std::atof]
    is an argument, [std::getenv] and the files are functions.

    And the files of a run: the name of the log of a trade engine ([engineLogPath] of
    src/trading/strategy/trade_engine.cpp), and the text the constructor and
    [recordPnL] of backtest_engine.cpp write to the P&L file, a header and a row per
    sample; [fixed2] is the text of a double with [std::fixed << std::setprecision(2)].
    [pnl_file_reads_back]: split into lines and fields again, the file has the columns
    of the header and the values of the rows. *)

From Stdlib Require Import Ascii String.
From stdpp Require Import numbers strings pretty gmap list.
From S2P Require Import Prelude Types MemPool LFQueue BookSpec MarketOrderBook MatchingEngine Double Logging Position OrderManager Features Strategy Parse Tape TapeProofs Lobster Backtest.

Open Scope Z_scope.

Class DoubleAtof (F : Type) := d_atof : string → F.

(** [BacktestEngine::Config]. *)
Record BacktestConfig (F : Type) := mkBacktestConfig {
  strategy_label : string;
  pnl_csv_path : string;
  bc_ticker_id : Z;
  bc_cfg : TradeEngineCfg F;
  bc_tape : TapeConfig F;
  bc_path : string }.
Arguments mkBacktestConfig {F} _ _ _ _ _ _.
Arguments strategy_label {F} _.
Arguments pnl_csv_path {F} _.
Arguments bc_ticker_id {F} _.
Arguments bc_cfg {F} _.
Arguments bc_tape {F} _.
Arguments bc_path {F} _.

Section Main.
Context {F : Type} `{!Double F} `{!DoubleMath F} `{!DoubleCast F} `{!DoubleLog F} `{!DoubleText F} `{!DoubleAtof F}.
Context `{!HashOrder}.
Context (argv : list string) (getenv : string → option string).

Definition arg (i : nat) : result string := match argv !! i with Some s => Ok s | None => Err Undefined end.
Definition arg_f (i : nat) : result F := let* s := arg i in Ok (d_atof s).
Definition arg_i (i : nat) : result Z := let* s := arg i in atoi s.
Definition arg_b (i : nat) : result bool := let* z := arg_i i in Ok (negb (z =? 0)).

(** An environment variable that is not set keeps the default. *)
Definition env_f (name : string) (v : F) : F := match getenv name with Some e => d_atof e | None => v end.
Definition env_z (name : string) (v : Z) : Z := match getenv name with Some e => strtoull e | None => v end.
Definition env_b (name : string) (v : bool) : result bool :=
  match getenv name with Some e => let* z := atoi e in Ok (negb (z =? 0)) | None => Ok v end.

(** No value: the usage text and [EXIT_FAILURE]. *)
Definition parse_args : result (option (BacktestConfig F)) :=
  if (length argv <? 20)%nat then Ok None else
  let* label := arg 1 in
  let* csv := arg 2 in
  let* path := arg 3 in
  let* format := arg 4 in
  let* tick := arg_f 5 in
  let* tid := arg_i 6 in
  let* clip := arg_i 7 in
  let* threshold := arg_f 8 in
  let* max_order := arg_i 9 in
  let* max_pos := arg_i 10 in
  let* max_loss := arg_f 11 in
  let* use_as := arg_b 12 in
  let* gamma := arg_f 13 in
  let* kappa := arg_f 14 in
  let* hours := arg_f 15 in
  let* use_ofi := arg_b 16 in
  let* beta := arg_f 17 in
  let* hysteresis := arg_i 18 in
  let* adaptive := arg_b 19 in
  let* sigma := arg_f 20 in
  let* max_ev := (if (22 <=? length argv)%nat then let* s := arg 21 in Ok (strtoull s) else Ok 0) in
  let d := TradeEngineCfg_default (F:=F) in
  let* kill := env_b "USE_KILLSWITCH" (use_killswitch_ d) in
  let* regime := env_b "USE_REGIME_GAMMA" (use_regime_gamma_ d) in
  let* stoikov := env_b "USE_STOIKOV_MICRO" (cfg_use_stoikov_micro_ d) in
  let* vpin := env_b "USE_VPIN" (cfg_use_vpin_ d) in
  Ok (Some (mkBacktestConfig label csv (u32 tid)
    (mkTradeEngineCfg F (u32 clip) threshold (mkRiskCfg (u32 max_order) (u32 max_pos) max_loss)
       use_as gamma kappa hours use_ofi beta hysteresis adaptive sigma
       (env_f "EWMA_DECAY" (cfg_ewma_decay_ d)) (env_f "OFI_DECAY" (cfg_ofi_decay_ d))
       (env_f "EWMA_DECAY_LONG" (cfg_ewma_decay_long_ d)) (env_z "VOL_BOOTSTRAP" (cfg_vol_bootstrap_ d))
       (env_f "MAKER_REBATE_BPS" (maker_rebate_bps_ d)) (env_f "SPREAD_WIDEN_OFI" (spread_widen_ofi_ d))
       kill (env_f "KILLSWITCH_OFI" (killswitch_ofi_ d))
       (env_f "KILLSWITCH_MICRO_TICKS" (killswitch_micro_ticks_ d))
       regime (env_f "REGIME_GAMMA_SCALE" (regime_gamma_scale_ d)) stoikov vpin
       (env_f "VPIN_BUCKET_SIZE" (vpin_bucket_size_ d)) (env_f "VPIN_THRESHOLD" (vpin_threshold_ d))
       (env_f "VPIN_WIDEN_MULT" (vpin_widen_mult_ d)) (env_f "VPIN_KILL_SCALE" (vpin_kill_scale_ d)))
    (mkTapeConfig format tick (d_of_Z 1) max_ev) path)).

(** The program, up to the texts on the standard error; the value is the engine
    at the end of the run. *)
Definition backtest_main (fuel n : nat) (wall : nat → nat → Z) (mem : EngineMemory F) (now : Z)
    (open : string → option string) : result (option (BacktestEngine F)) :=
  let* cfg := parse_args in
  match cfg with
  | None => Ok None
  | Some cfg =>
      let* b := BacktestEngine_new (bc_ticker_id cfg) (bc_cfg cfg) mem now in
      let* tape := open_tape (bc_ticker_id cfg) (bc_tape cfg) (bc_path cfg) open in
      let* b := backtest_run fuel n wall tape b in
      Ok (Some b)
  end.

(** [argc] is compared with 20, but 21 arguments are needed. *)
Lemma parse_args_20 : length argv = 20%nat → ∀ c, parse_args ≠ Ok (Some c).
Proof.
  intros Hl c. unfold parse_args. rewrite Hl. cbn [Nat.ltb Nat.leb].
  assert (arg_f 20 = Err Undefined) as E by (unfold arg_f, arg; by rewrite (lookup_ge_None_2 argv 20) by lia).
  rewrite E. intros Hx. repeat (apply bind_ok in Hx as (? & ? & Hx); try done).
Qed.

(** The risk limits are those of the command line. *)
Lemma parse_args_limits cfg :
  parse_args = Ok (Some cfg) →
  0 ≤ bc_ticker_id cfg ∧ 0 ≤ clip_ (bc_cfg cfg) ∧ 0 ≤ max_order_size_ (risk_cfg_ (bc_cfg cfg))
  ∧ ∃ z, arg_i 10 = Ok z ∧ max_position_ (risk_cfg_ (bc_cfg cfg)) = u32 z.
Proof.
  unfold parse_args. destruct (_ <? _)%nat; [done|]. cbv zeta. intros Hx.
  do 9 (apply bind_ok in Hx as (? & _ & Hx)). apply bind_ok in Hx as (z & Hz & Hx).
  repeat (apply bind_ok in Hx as (? & _ & Hx)). injection Hx as <-. cbn.
  split_and!; [apply Z.mod_pos_bound; lia..|]. by exists z.
Qed.
End Main.


(** ** The log of the engine *)

Definition engineLogPath (getenv : string → option string) (client_id : Z) : string :=
  match getenv "TRADING_ENGINE_LOG_PATH" with
  | Some e => e
  | None => "trading_engine_" +:+ pretty client_id +:+ ".log"
  end.

(** Two clients have different logs unless the environment names one. *)
Lemma engineLogPath_inj getenv c c' :
  getenv "TRADING_ENGINE_LOG_PATH" = None → engineLogPath getenv c = engineLogPath getenv c' → c = c'.
Proof.
  intros E. unfold engineLogPath. rewrite E. intros H%(inj (String.append _)).
  assert (∀ z : Z, split_at "." (pretty z +:+ ".log") = (pretty z, "log")) as Hs
    by (intros z; apply (split_at_field "." (pretty z) "log"), free_of_pretty; done).
  apply (f_equal (split_at ".")) in H. rewrite !Hs in H. injection H. apply (inj pretty).
Qed.

(** ** The P&L file *)

(** The fields of a line, separated by commas. *)
Fixpoint csv_line (fs : list string) : string :=
  match fs with
  | [] => EmptyString
  | [f] => f
  | f :: fs => field f +:+ csv_line fs
  end.

Definition end_line (s : string) : string := s +:+ String NEWLINE EmptyString.

Definition pnl_columns : list string :=
  ["ts_ns"; "mid"; "bid"; "ask"; "position"; "real_pnl"; "unreal_pnl"; "total_pnl"; "volume"; "num_fills"; "num_requotes"; "sigma"; "ofi"].

Definition pnl_header : string :=
  "ts_ns,mid,bid,ask,position,real_pnl,unreal_pnl,total_pnl,volume," +:+ end_line "num_fills,num_requotes,sigma,ofi".

Section Rows.
Context {F : Type} (fixed2 : F → string).
Implicit Types (r : PnLRow F).

Definition pnl_fields r : list string :=
  [pretty (row_ns r); fixed2 (row_mid r); pretty (row_bid r); pretty (row_ask r); pretty (row_position r); fixed2 (row_real r);
   fixed2 (row_unreal r); fixed2 (row_total r); pretty (row_volume r); pretty (row_fills r); pretty (row_requotes r);
   fixed2 (row_sigma r); fixed2 (row_ofi r)].

Definition pnl_row r : string := end_line (csv_line (pnl_fields r)).

(** The file when it is closed. *)
Definition pnl_file (b : BacktestEngine F) : string := pnl_header +:+ concat_strings (pnl_row <$> pnl_out_ b).
End Rows.

(** ** Reading the file *)

Fixpoint read_lines (n : nat) (s : string) : list string :=
  match n with
  | O => []
  | S n => match getline NEWLINE s with Some (line, s) => line :: read_lines n s | None => [] end
  end.

(** The fields of a line with [n] commas. *)
Definition read_fields (n : nat) (line : string) : option (list string) :=
  match take_fields n line with Some (fs, last) => Some (fs ++ [last]) | None => None end.

Definition clean (f : string) : bool := free_of COMMA f && free_of NEWLINE f.

Lemma csv_line_cons f fs : fs ≠ [] → csv_line (f :: fs) = field f +:+ csv_line fs.
Proof. by destruct fs. Qed.

Lemma read_csv_line fs : fs ≠ [] → forallb clean fs = true → read_fields (length fs - 1) (csv_line fs) = Some fs.
Proof.
  intros Hne Hc. destruct (exists_last Hne) as (init & l & ->). clear Hne. rewrite length_app. cbn [length]. replace (length init + 1 - 1)%nat with (length init) by lia.
  enough (take_fields (length init) (csv_line (init ++ [l])) = Some (init, l)) as E by (unfold read_fields; by rewrite E).
  induction init as [|f init IH]; [done|]. cbn in Hc. apply andb_prop in Hc as [[Hf _]%andb_prop Hc].
  cbn [app]. rewrite csv_line_cons by (by destruct init). cbn [length]. rewrite take_fields_cons by done. by rewrite (IH Hc).
Qed.

Lemma csv_line_clean fs : forallb clean fs = true → free_of NEWLINE (csv_line fs) = true.
Proof.
  induction fs as [|f fs IH]; [done|]. cbn [forallb]. intros [[_ Hf]%andb_prop Hc]%andb_prop.
  destruct fs as [|f' fs]; [done|]. rewrite csv_line_cons by done. unfold field. rewrite !free_of_app, Hf, (IH Hc). done.
Qed.

Lemma getline_end_line l s : free_of NEWLINE l = true → getline NEWLINE (end_line l +:+ s) = Some (l, s).
Proof. intros Hl. unfold end_line. rewrite <- (assoc_L String.append). by apply (getline_field NEWLINE l s). Qed.

Lemma read_lines_all ls : Forall (λ l, free_of NEWLINE l = true) ls → read_lines (length ls) (concat_strings (end_line <$> ls)) = ls.
Proof.
  induction 1 as [|l ls Hl _ IH]; [done|]. cbn [length fmap list_fmap concat_strings foldr read_lines].
  rewrite getline_end_line by done. by f_equal.
Qed.

(** The texts of the doubles have no commas and no line ends. *)
Lemma pnl_file_reads_back {F} (fixed2 : F → string) (b : BacktestEngine F) :
  (∀ x, clean (fixed2 x) = true) →
  read_fields 12 <$> read_lines (S (length (pnl_out_ b))) (pnl_file fixed2 b)
  = Some <$> (pnl_columns :: (pnl_fields fixed2 <$> pnl_out_ b)).
Proof.
  intros Hx. assert (∀ z : Z, clean (pretty z) = true) as Hz by (intros z; unfold clean; by rewrite comma_free, newline_free).
  set (rows := pnl_columns :: (pnl_fields fixed2 <$> pnl_out_ b)).
  assert (Forall (λ fs, fs ≠ [] ∧ length fs = 13%nat ∧ forallb clean fs = true) rows) as Hrows.
  { constructor; [done|]. apply Forall_fmap, Forall_true. intros r. unfold pnl_fields. cbn [compose]. split_and!; [done|done|].
    cbn [forallb]. by rewrite !Hx, !Hz. }
  assert (pnl_file fixed2 b = concat_strings (end_line <$> (csv_line <$> rows))) as ->.
  { unfold pnl_file, rows, pnl_row. cbn [fmap list_fmap concat_strings foldr]. rewrite <- !list_fmap_compose. reflexivity. }
  replace (S (length (pnl_out_ b))) with (length (csv_line <$> rows)) by (unfold rows; cbn; by rewrite !length_fmap).
  rewrite read_lines_all.
  - rewrite <- list_fmap_compose. apply list_fmap_ext. intros i fs Hi. destruct (proj1 (Forall_lookup _ _) Hrows _ _ Hi) as (Hne & Hl & Hc).
    cbn. rewrite <- (read_csv_line fs Hne Hc), Hl. reflexivity.
  - apply Forall_fmap. eapply Forall_impl; [exact Hrows|]. intros fs (_ & _ & Hc). by apply csv_line_clean.
Qed.
