(* ===== verification/TradingMain.v ===== *)
(** * The trading client executable.

    [main] of src/trading/trading_main.cpp up to the wait for a quiet market: the
    configuration of the tickers from the command line, the construction of the
    trade engine, and the orders the RANDOM strategy generates from the main
    thread.  [rand seed k] is the [k]-th value of [rand()] after [srand(seed)]; it
    is not negative, so [%] is the remainder of the Euclidean division.  While the main thread sleeps the other threads run: the gateway and the
    consumer write to the queues of the trade engine, which takes turns
    ([while_asleep]).

    [random_requests] is the closed form of what a RANDOM client sends
    ([random_loop_sends]), and [random_clients_plain]: the requests of all
    RANDOM clients together are a plain run in whatever order they arrive. *)

From Stdlib Require Import Ascii String.
From stdpp Require Import numbers strings pretty gmap list sorting.
From S2P Require Import Prelude Types MemPool LFQueue BookCore MEOrderBook MarketOrderBook MatchingEngine Requests Double Logging Position OrderManager Features Strategy Parse BacktestMain.

Open Scope Z_scope.
Local Coercion Z.of_nat : nat >-> Z.

(** What happens to the trade engine between two instants of a sleep. *)
Record turn_input := mkTurnInput {
  ti_responses : LFQueue MEClientResponse;
  ti_updates : LFQueue MEMarketUpdate;
  ti_fuel : nat; ti_n : nat; ti_m : nat;
  ti_clock : nat → Z }.

Section Main.
Context {F : Type} `{!Double F} `{!DoubleMath F} `{!DoubleCast F} `{!DoubleAtof F} {E : Type} `{!RequestSink E}.
Implicit Types (te : TradeEngine F E).

(** ** Configuration *)

Definition kV11Stride : nat := 14.
Definition kV10Stride : nat := 5.

Definition cfg_stride (argc : nat) : nat :=
  let kCfgArgs := (argc - 3)%nat in
  if bool_decide (0 < kCfgArgs)%nat && bool_decide (kCfgArgs `mod` kV11Stride = 0)%nat then kV11Stride else kV10Stride.

(** The body of the loop over the tickers. *)
Definition ticker_args (argv : list string) (stride i : nat) : result (TradeEngineCfg F) :=
  let d := TradeEngineCfg_default (F:=F) in
  let* clip := arg_i argv i in
  let* threshold := arg_f argv (i + 1) in
  let* max_order := arg_i argv (i + 2) in
  let* max_pos := arg_i argv (i + 3) in
  let* max_loss := arg_f argv (i + 4) in
  let cfg use_as gamma kappa hours use_ofi beta hysteresis adaptive sigma :=
    mkTradeEngineCfg F (u32 clip) threshold (mkRiskCfg (u32 max_order) (u32 max_pos) max_loss)
      use_as gamma kappa hours use_ofi beta hysteresis adaptive sigma
      (cfg_ewma_decay_ d) (cfg_ofi_decay_ d) (cfg_ewma_decay_long_ d) (cfg_vol_bootstrap_ d) (maker_rebate_bps_ d)
      (spread_widen_ofi_ d) (use_killswitch_ d) (killswitch_ofi_ d) (killswitch_micro_ticks_ d) (use_regime_gamma_ d)
      (regime_gamma_scale_ d) (cfg_use_stoikov_micro_ d) (cfg_use_vpin_ d) (vpin_bucket_size_ d) (vpin_threshold_ d)
      (vpin_widen_mult_ d) (vpin_kill_scale_ d) in
  if bool_decide (stride = kV11Stride) then
    let* use_as := arg_b argv (i + 5) in
    let* gamma := arg_f argv (i + 6) in
    let* kappa := arg_f argv (i + 7) in
    let* hours := arg_f argv (i + 8) in
    let* use_ofi := arg_b argv (i + 9) in
    let* beta := arg_f argv (i + 10) in
    let* hysteresis := arg_i argv (i + 11) in
    let* adaptive := arg_b argv (i + 12) in
    let* sigma := arg_f argv (i + 13) in
    Ok (cfg use_as gamma kappa hours use_ofi beta hysteresis adaptive sigma)
  else
    Ok (cfg (use_as_ d) (gamma_ d) (kappa_ d) (session_hours_ d) (use_ofi_ d) (beta_ofi_ d) (cfg_hysteresis_ticks_ d)
          (use_adaptive_clip_ d) (sigma_ref_ d)).

(** The loop; [more] tickers may follow. *)
Fixpoint parse_tickers (argv : list string) (stride more i next_ticker_id : nat) (cfgs : list (TradeEngineCfg F))
    : result (list (TradeEngineCfg F)) :=
  match more with
  | O => Ok cfgs
  | S more =>
      if bool_decide (i < length argv)%nat then
        let* cfg := ticker_args argv stride i in
        parse_tickers argv stride more (i + stride) (S next_ticker_id) (<[next_ticker_id := cfg]> cfgs)
      else Ok cfgs
  end.

Definition trading_cfgs (argv : list string) : result (list (TradeEngineCfg F)) :=
  parse_tickers argv (cfg_stride (length argv)) (Z.to_nat ME_MAX_TICKERS) 3 0
    (replicate (Z.to_nat ME_MAX_TICKERS) TradeEngineCfg_default).

(** ** The RANDOM strategy *)

(** The other threads during a sleep of the main thread. *)
Fixpoint while_asleep (acts : list turn_input) te : result (TradeEngine F E) :=
  match acts with
  | [] => Ok te
  | a :: acts =>
      let te := set_updates (ti_updates a) (set_responses (ti_responses a) te) in
      let* te := te_turn (ti_fuel a) (ti_n a) (ti_m a) (ti_clock a) te in
      while_asleep acts te
  end.

Definition te_send (r : MEClientRequest) te : TradeEngine F E := set_trader (sendClientRequest r (te_trader te)) te.

Definition base_prices (rand : nat → Z) : list Z :=
  (λ k, rand k `mod` 100 + 100) <$> seq 0 (Z.to_nat ME_MAX_TICKERS).

Definition as_cancel (r : MEClientRequest) : MEClientRequest :=
  mkMEClientRequest Req_CANCEL (req_client_id_ r) (req_ticker_id_ r) (req_order_id_ r) (req_side_ r) (req_price_ r)
    (req_qty_ r).

(** One round: [i] is the loop variable, [k] the number of values drawn so far. *)
Definition random_round (rand : nat → Z) (acts : nat → list turn_input) (client_id : Z) (base : list Z) (i k : nat)
    (order_id : Z) (vec : list MEClientRequest) te : result (Z * list MEClientRequest * TradeEngine F E) :=
  let ticker_id := rand k `mod` ME_MAX_TICKERS in
  match base !! Z.to_nat ticker_id with
  | None => Err Undefined
  | Some b =>
      let price := b + rand (k + 1)%nat `mod` 10 + 1 in
      let qty := 1 + rand (k + 2)%nat `mod` 100 + 1 in
      let side := if rand (k + 3)%nat `mod` 2 =? 0 then SELL else BUY in
      let new := mkMEClientRequest Req_NEW client_id ticker_id order_id side price qty in
      let te := te_send new te in
      let* te := while_asleep (acts (2 * i + 1)%nat) te in
      let vec := vec ++ [new] in
      let cxl_index := rand (k + 4)%nat `mod` Z.of_nat (length vec) in
      match vec !! Z.to_nat cxl_index with
      | None => Err Undefined
      | Some r =>
          let te := te_send (as_cancel r) te in
          let* te := while_asleep (acts (2 * i + 2)%nat) te in
          Ok (u64 (order_id + 1), vec, te)
      end
  end.

(** The rounds from [i] on, [n] of them. *)
Fixpoint random_loop (n : nat) (rand : nat → Z) (acts : nat → list turn_input) (client_id : Z) (base : list Z) (i k : nat)
    (order_id : Z) (vec : list MEClientRequest) te : result (TradeEngine F E) :=
  match n with
  | O => Ok te
  | S n =>
      let* r := random_round rand acts client_id base i k order_id vec te in
      let '(order_id, vec, te) := r in
      random_loop n rand acts client_id base (S i) (k + 5) order_id vec te
  end.

Definition kRandomOrders : nat := Z.to_nat 10000.

Definition random_strategy (rand : Z → nat → Z) (acts : nat → list turn_input) (client_id : Z) te
    : result (TradeEngine F E) :=
  random_loop kRandomOrders (rand client_id) acts client_id (base_prices (rand client_id)) 0 (Z.to_nat ME_MAX_TICKERS)
    (u32 (client_id * 1000)) [] te.

(** No value: the usage text and [EXIT_FAILURE].  [acts 0] is the warm-up. *)
Definition trading_main (rand : Z → nat → Z) (acts : nat → list turn_input) (argv : list string) (mem : EngineMemory F)
    (now : Z) (client_requests : E) : result (option (TradeEngine F E)) :=
  if bool_decide (length argv < 3)%nat then Ok None else
  let* cid := arg_i argv 1 in
  let client_id := u32 cid in
  let* name := arg argv 2 in
  let algo_type := stringToAlgoType name in
  let* ticker_cfg := trading_cfgs argv in
  let* te := TradeEngine_new client_id algo_type ticker_cfg mem now client_requests
               (LFQueue_new ME_MAX_CLIENT_UPDATES) (LFQueue_new ME_MAX_MARKET_UPDATES) in
  let* te := while_asleep (acts O) te in
  let* te := (if bool_decide (algo_type = RANDOM) then random_strategy rand acts client_id te else Ok te) in
  Ok (Some te).
End Main.

(** ** What a RANDOM client sends *)

Definition random_new (rand : nat → Z) (client_id : Z) (i : nat) : MEClientRequest :=
  let k := (8 + 5 * i)%nat in
  let ticker_id := rand k `mod` ME_MAX_TICKERS in
  mkMEClientRequest Req_NEW client_id ticker_id (client_id * 1000 + i)
    (if rand (k + 3)%nat `mod` 2 =? 0 then SELL else BUY)
    (rand (Z.to_nat ticker_id) `mod` 100 + 100 + rand (k + 1)%nat `mod` 10 + 1)
    (1 + rand (k + 2)%nat `mod` 100 + 1).

(** Round [i]: a new order, then the cancel of one of the orders so far. *)
Definition random_pair (rand : nat → Z) (client_id : Z) (i : nat) : list MEClientRequest :=
  [random_new rand client_id i;
   as_cancel (random_new rand client_id (Z.to_nat (rand (8 + 5 * i + 4)%nat `mod` (i + 1))))].

Definition random_requests (rand : Z → nat → Z) (client_id : Z) : list MEClientRequest :=
  seq 0 kRandomOrders ≫= random_pair (rand client_id) client_id.

Section Sends.
Context {F : Type} `{!Double F} `{!DoubleMath F} `{!DoubleCast F} `{!DoubleAtof F} {E : Type} `{!RequestSink E}.
Implicit Types (te : TradeEngine F E).

Definition sent te : E := outgoing_ogw_requests_ (te_trader te).

(** Without an algorithm the trade engine sends nothing. *)
Definition quiet te te' : Prop := algo_ te' = algo_ te ∧ sent te' = sent te.

Lemma quiet_trans te1 te2 te3 : quiet te1 te2 → quiet te2 te3 → quiet te1 te3.
Proof. intros [] []. split; congruence. Qed.

Lemma te_onOrderUpdate_quiet r te te' : has_algo te = false → te_onOrderUpdate r te = Ok te' → quiet te te'.
Proof.
  intros Ha. unfold te_onOrderUpdate. rewrite Ha. destruct (bool_decide _); [|by intros [= <-]].
  intros (k & _ & [= <-])%bind_ok. done.
Qed.

Lemma te_market_update_quiet fuel now u te te' :
  has_algo te = false → te_market_update fuel now u te = Ok te' → quiet te te'.
Proof.
  unfold has_algo. intros [Hm Ht]%orb_false_iff. rewrite bool_decide_eq_false in Hm, Ht. unfold te_market_update.
  intros (_ & _ & Hx)%bind_ok. destruct (_ !! _) as [mb|]; [|done]. unfold te_book_update in Hx.
  apply bind_ok in Hx as ([mb' notice] & _ & Hx). destruct notice.
  - unfold te_onTradeUpdate in Hx. apply bind_ok in Hx as (fe & _ & Hx).
    cbn [algo_ set_features set_order_books] in Hx. destruct (algo_ te) eqn:Ea; try done; by injection Hx as <-.
  - unfold te_onOrderBookUpdate in Hx. apply bind_ok in Hx as (k & _ & Hx). apply bind_ok in Hx as (fe & _ & Hx).
    cbn [algo_ set_features set_trader set_order_books] in Hx. destruct (algo_ te) eqn:Ea; try done; by injection Hx as <-.
Qed.

Lemma quiet_has_algo te te' : quiet te te' → has_algo te' = has_algo te.
Proof. intros [Ea _]. unfold has_algo. by rewrite Ea. Qed.

Lemma te_drain_responses_quiet n te te' : has_algo te = false → te_drain_responses n te = Ok te' → quiet te te'.
Proof.
  revert te. induction n as [|n IH]; intros te Ha; cbn [te_drain_responses]; destruct (getNextToRead _) as [r|]; try done;
    try (by intros [= <-]).
  intros (te1 & H1 & Hx)%bind_ok. apply bind_ok in Hx as (q & _ & Hx).
  pose proof (te_onOrderUpdate_quiet r te te1 Ha H1) as Hq. apply IH in Hx; [exact (quiet_trans _ _ _ Hq Hx)|].
  change (has_algo te1 = false). by rewrite (quiet_has_algo _ _ Hq).
Qed.

Lemma te_drain_updates_quiet fuel n clock te te' :
  has_algo te = false → te_drain_updates fuel n clock te = Ok te' → quiet te te'.
Proof.
  revert te. induction n as [|n IH]; intros te Ha; cbn [te_drain_updates]; destruct (getNextToRead _) as [u|]; try done;
    try (by intros [= <-]).
  intros (te1 & H1 & Hx)%bind_ok. apply bind_ok in Hx as (q & _ & Hx).
  pose proof (te_market_update_quiet fuel _ u te te1 Ha H1) as Hq. apply IH in Hx; [exact (quiet_trans _ _ _ Hq Hx)|].
  change (has_algo te1 = false). by rewrite (quiet_has_algo _ _ Hq).
Qed.

Lemma while_asleep_quiet acts te te' : has_algo te = false → while_asleep acts te = Ok te' → quiet te te'.
Proof.
  revert te. induction acts as [|a acts IH]; intros te Ha; cbn [while_asleep]; [by intros [= <-]|].
  intros (te1 & H1 & Hx)%bind_ok. unfold te_turn in H1. apply bind_ok in H1 as (te0 & H0 & H1).
  apply te_drain_responses_quiet in H0; [|done]. pose proof (quiet_has_algo _ _ H0) as E0.
  apply te_drain_updates_quiet in H1; [|by rewrite E0]. pose proof (quiet_has_algo _ _ H1) as E1.
  apply IH in Hx; [|by rewrite E1, E0]. exact (quiet_trans _ _ _ (quiet_trans _ _ _ H0 H1) Hx).
Qed.

Lemma te_send_algo r te : has_algo (te_send r te) = has_algo te ∧ sent (te_send r te) = sendClientRequest_to r (sent te).
Proof. done. Qed.

(** ** The loop sends the closed form *)

Context (rand : nat → Z) (acts : nat → list turn_input) (c : Z).

Lemma random_round_eq i te :
  0 ≤ c < ME_MAX_NUM_CLIENTS → (i < kRandomOrders)%nat →
  random_round rand acts c (base_prices rand) i (8 + 5 * i) (c * 1000 + i) (random_new rand c <$> seq 0 i) te
  = let* te := while_asleep (acts (2 * i + 1)%nat) (te_send (random_new rand c i) te) in
    let* te := while_asleep (acts (2 * i + 2)%nat)
      (te_send (as_cancel (random_new rand c (Z.to_nat (rand (8 + 5 * i + 4)%nat `mod` (i + 1))))) te) in
    Ok (c * 1000 + S i, random_new rand c <$> seq 0 (S i), te).
Proof.
  intros Hc Hi. unfold random_round. cbv zeta.
  pose proof (Z.mod_pos_bound (rand (8 + 5 * i)%nat) ME_MAX_TICKERS ltac:(done)) as Ht.
  assert (base_prices rand !! Z.to_nat (rand (8 + 5 * i)%nat `mod` ME_MAX_TICKERS)
    = Some (rand (Z.to_nat (rand (8 + 5 * i)%nat `mod` ME_MAX_TICKERS)) `mod` 100 + 100)) as ->.
  { unfold base_prices. rewrite list_lookup_fmap, lookup_seq_lt; [done|]. unfold ME_MAX_TICKERS in *. lia. }
  assert ((random_new rand c <$> seq 0 i) ++ [random_new rand c i] = random_new rand c <$> seq 0 (S i)) as Ev
    by (rewrite seq_S, fmap_app; done).
  change (mkMEClientRequest Req_NEW c _ _ _ _ _) with (random_new rand c i). rewrite Ev.
  rewrite length_fmap, length_seq, list_lookup_fmap. replace (Z.of_nat (S i)) with (i + 1) by lia.
  pose proof (Z.mod_pos_bound (rand (8 + 5 * i + 4)%nat) (i + 1) ltac:(lia)) as Hx.
  rewrite lookup_seq_lt by lia. cbn [fmap option_fmap option_map].
  assert (u64 (c * 1000 + i + 1) = c * 1000 + (i + 1)) as ->; [|done].
  unfold u64, wrap, ME_MAX_NUM_CLIENTS, kRandomOrders in *. rewrite Z.mod_small; lia.
Qed.

Lemma random_loop_sends n i te te' :
  0 ≤ c < ME_MAX_NUM_CLIENTS → (i + n ≤ kRandomOrders)%nat → has_algo te = false →
  random_loop n rand acts c (base_prices rand) i (8 + 5 * i) (c * 1000 + i) (random_new rand c <$> seq 0 i) te = Ok te' →
  sent te' = send_all (seq i n ≫= random_pair rand c) (sent te) ∧ has_algo te' = false.
Proof.
  intros Hc. revert i te. induction n as [|n IH]; intros i te Hi Ha; cbn [random_loop]; [by intros [= <-]|].
  rewrite random_round_eq by (done || lia). intros ([[oid vec] te2] & H1 & Hx)%bind_ok.
  apply bind_ok in H1 as (te0 & H0 & H1). apply bind_ok in H1 as (te1 & H1 & [= <- <- <-]).
  apply while_asleep_quiet in H0; [|done]. pose proof (quiet_has_algo _ _ H0) as E0.
  apply while_asleep_quiet in H1; [|by rewrite (proj1 (te_send_algo _ _)), E0]. pose proof (quiet_has_algo _ _ H1) as E1.
  replace (8 + 5 * i + 5)%nat with (8 + 5 * S i)%nat in Hx by lia.
  apply IH in Hx as [Hx Hx2]; [|lia|by rewrite E1, (proj1 (te_send_algo _ _)), E0]. split; [|done]. rewrite Hx.
  rewrite (proj2 H1), (proj2 (te_send_algo _ _)), (proj2 H0). done.
Qed.

End Sends.

Section Runs.
Context {F : Type} `{!Double F} `{!DoubleMath F} `{!DoubleCast F} `{!DoubleAtof F} {E : Type} `{!RequestSink E}.
Context (rand : Z → nat → Z) (c : Z) (Hc : 0 ≤ c < ME_MAX_NUM_CLIENTS).
Implicit Types (te : TradeEngine F E).

Lemma random_strategy_eq acts te :
  random_strategy rand acts c te
  = random_loop kRandomOrders (rand c) acts c (base_prices (rand c)) 0 (8 + 5 * 0) (c * 1000 + 0%nat)
      (random_new (rand c) c <$> seq 0 0) te.
Proof.
  unfold random_strategy. change (Z.to_nat ME_MAX_TICKERS) with (8 + 5 * 0)%nat.
  assert (u32 (c * 1000) = c * 1000 + 0%nat) as ->; [|done].
  unfold u32, wrap, ME_MAX_NUM_CLIENTS in *. rewrite Z.mod_small; lia.
Qed.

Lemma TradeEngine_new_sent client algo cfgs mem now (e : E) rs us te :
  TradeEngine_new (F:=F) client algo cfgs mem now e rs us = Ok te → algo_ te = algo ∧ sent te = e.
Proof.
  unfold TradeEngine_new. destruct (cfgs !! 0%nat); [|done]. cbv zeta.
  intros (om & _ & [= <-])%bind_ok. done.
Qed.

(** Whatever the other threads do, the requests are those of the closed form. *)
Lemma random_main_sends acts argv mem now (e : E) te :
  arg_i argv 1 = Ok c → arg argv 2 = Ok "RANDOM"%string →
  trading_main (F:=F) rand acts argv mem now e = Ok (Some te) →
  sent te = send_all (random_requests rand c) e ∧ has_algo te = false.
Proof.
  intros H1 H2. unfold trading_main. destruct (bool_decide _); [discriminate|]. rewrite H1, H2. cbn [rbind].
  assert (u32 c = c) as -> by (unfold u32, wrap, ME_MAX_NUM_CLIENTS in *; rewrite Z.mod_small; lia).
  change (stringToAlgoType "RANDOM") with RANDOM. rewrite bool_decide_true by done.
  intros (cfgs & _ & Hx)%bind_ok. apply bind_ok in Hx as (te0 & H0 & Hx). apply bind_ok in Hx as (te1 & Hs & Hx).
  apply bind_ok in Hx as (te2 & Hr & [= <-]). apply TradeEngine_new_sent in H0 as [Ha He].
  assert (has_algo te0 = false) as Hn by (unfold has_algo; by rewrite Ha).
  apply while_asleep_quiet in Hs; [|done]. pose proof (quiet_has_algo _ _ Hs) as Hq.
  rewrite random_strategy_eq in Hr. apply random_loop_sends in Hr as [Hr Hr2]; [|done|lia|by rewrite Hq].
  split; [|done]. rewrite Hr, (proj2 Hs), He. reflexivity.
Qed.

End Runs.

(** ** The requests of RANDOM clients are plain *)

Lemma random_new_plain rand c i :
  0 ≤ c < ME_MAX_NUM_CLIENTS → (i < kRandomOrders)%nat → plain_request (random_new rand c i).
Proof.
  intros Hc Hi. unfold random_new. set (k := (8 + 5 * i)%nat). cbv zeta.
  pose proof (Z.mod_pos_bound (rand k) ME_MAX_TICKERS ltac:(done)) as Ht.
  set (t := rand k `mod` ME_MAX_TICKERS) in *.
  pose proof (Z.mod_pos_bound (rand (Z.to_nat t)) 100 ltac:(done)).
  pose proof (Z.mod_pos_bound (rand (k + 1)%nat) 10 ltac:(done)).
  pose proof (Z.mod_pos_bound (rand (k + 2)%nat) 100 ltac:(done)).
  split; cbn [req_type_ req_ticker_id_ req_client_id_ req_order_id_ req_side_ req_price_ req_qty_]; [discriminate|done| |].
  - unfold cid_oid_in_range. cbn [fst snd]. unfold ME_MAX_NUM_CLIENTS, ME_MAX_ORDER_IDS, kRandomOrders in *. lia.
  - intros _. unfold price_band, ME_MAX_PRICE_LEVELS. split_and!; try lia.
    destruct (_ =? 0); [by right|by left].
Qed.

Lemma as_cancel_plain r : plain_request r → plain_request (as_cancel r).
Proof. intros [H1 H2 H3 _]. by split. Qed.

Lemma random_pair_plain rand c i :
  0 ≤ c < ME_MAX_NUM_CLIENTS → (i < kRandomOrders)%nat → Forall plain_request (random_pair rand c i).
Proof.
  intros Hc Hi. unfold random_pair. pose proof (Z.mod_pos_bound (rand (8 + 5 * i + 4)%nat) (i + 1) ltac:(lia)) as Hx.
  apply Forall_cons. split; [by apply random_new_plain|]. apply Forall_singleton, as_cancel_plain, random_new_plain; [done|lia].
Qed.

(** The keys of the new orders: the rounds of the clients. *)
Definition random_keys (rand : Z → nat → Z) (c : Z) : list (Z * Z * Z) :=
  (λ i, new_key (random_new (rand c) c i)) <$> seq 0 kRandomOrders.

Lemma new_keys_pairs rand c l :
  new_keys (l ≫= random_pair rand c) = (λ i, new_key (random_new rand c i)) <$> l.
Proof.
  induction l as [|i l IH]; [done|]. change ((i :: l) ≫= random_pair rand c) with (random_pair rand c i ++ (l ≫= random_pair rand c)).
  rewrite new_keys_app, IH. reflexivity.
Qed.

Lemma new_keys_clients rand cs :
  new_keys (cs ≫= random_requests rand) = cs ≫= random_keys rand.
Proof.
  induction cs as [|c cs IH]; [done|]. rewrite !bind_cons, new_keys_app, IH.
  unfold random_requests. rewrite new_keys_pairs. reflexivity.
Qed.

Lemma random_keys_client rand c k : k ∈ random_keys rand c → k.1.2 = c.
Proof. intros (i & -> & _)%list_elem_of_fmap. reflexivity. Qed.

Lemma random_keys_nodup rand cs : NoDup cs → NoDup (cs ≫= random_keys rand).
Proof.
  intros Hnd. apply NoDup_bind; [|intros c _|done].
  - intros c c' k _ _ <-%random_keys_client <-%random_keys_client. reflexivity.
  - unfold random_keys. apply NoDup_fmap_2_strong; [|apply NoDup_seq].
    intros i j _ _ E. injection E as _ E. lia.
Qed.

Lemma random_keys_length rand cs : length (cs ≫= random_keys rand) = (length cs * kRandomOrders)%nat.
Proof.
  induction cs as [|c cs IH]; [reflexivity|]. rewrite bind_cons, length_app, IH. unfold random_keys.
  rewrite length_fmap, length_seq. reflexivity.
Qed.

(** In whatever order the requests of up to 104 clients arrive. *)
Lemma random_clients_plain rand cs reqs :
  NoDup cs → Forall (λ c, 0 ≤ c < ME_MAX_NUM_CLIENTS) cs → (length cs ≤ 104)%nat →
  reqs ≡ₚ cs ≫= random_requests rand → plain_run reqs.
Proof.
  intros Hnd Hc Hl ->. split.
  - apply Forall_bind. eapply Forall_impl; [exact Hc|]. intros c Hcc. unfold random_requests.
    apply Forall_bind, Forall_seq. intros i Hi. apply random_pair_plain; [done|lia].
  - rewrite new_keys_clients. by apply random_keys_nodup.
  - rewrite new_keys_clients, random_keys_length. unfold kRandomOrders, ME_MAX_ORDER_IDS. lia.
Qed.

(** Arguments that are not a whole number of tickers are read past the end. *)
Lemma trading_cfgs_short {F} `{!Double F} `{!DoubleAtof F} (argv : list string) cfgs :
  length argv = 7%nat → trading_cfgs (F:=F) argv ≠ Ok cfgs.
Proof.
  intros Hl. unfold trading_cfgs. rewrite Hl. change (cfg_stride 7) with 5%nat.
  change (Z.to_nat ME_MAX_TICKERS) with 8%nat. cbn [parse_tickers]. rewrite Hl, bool_decide_true by lia.
  intros (cfg & Hx & _)%bind_ok. unfold ticker_args in Hx. do 4 (apply bind_ok in Hx as (? & _ & Hx)).
  apply bind_ok in Hx as (last_arg & Hx & _). unfold arg_f, arg in Hx.
  rewrite (lookup_ge_None_2 argv (3 + 4)) in Hx by lia. done.
Qed.
