(* ===== verification/Benchmarks.v ===== *)
(** * The benchmarks.

    src/benchmarks/: the programs that time the pools, the matching engine's book,
    the loggers and the jitter of the time stamp counter.  The readings of the
    counter and of the clock and the values of [rand] are arguments.

    [pool_benchmark_ok], [hash_benchmark_ok], [logging_benchmark_ok] and
    [jitter_loop_ok]: each program runs to its end, and reports the sum of the
    measured spans over the number of operations. *)

From Stdlib Require Import Qcanon.
From stdpp Require Import strings pretty numbers gmap list relations.
From S2P Require Import Prelude MemPool Types LFQueue Double Logging LoggerThread LatencyHistogram BookCore BookSpec MEOrderBook MESpec MERefine MEInv MatchingEngine MarketData Requests ThreadUtils Parse TradingMain.

Open Scope Z_scope.
Local Coercion Z.of_nat : nat >-> Z.

(** ** Time stamps *)

Section Spans.
(** The readings of the counter, in order. *)
Context (tsc : nat → Z).

(** [start = rdtsc(); ...; total_rdtsc += rdtsc() - start], as the [k]-th operation. *)
Definition add_span (k : nat) (total : Z) : Z := u64 (total + u64 (tsc (2 * k + 1)%nat - tsc (2 * k)%nat)).

(** The spans of the first [n] operations. *)
Fixpoint spans (n : nat) : Z :=
  match n with
  | O => 0
  | S n => spans n + (tsc (2 * n + 1)%nat - tsc (2 * n)%nat)
  end.

Lemma add_span_spans k : add_span k (u64 (spans k)) = u64 (spans (S k)).
Proof. unfold add_span, wrap. cbn [spans]. by rewrite Zplus_mod_idemp_l, Zplus_mod_idemp_r. Qed.

(** A counter that does not go backwards: the sum of the spans is at most the time
    of the whole run, and fits a word. *)
Lemma spans_bounds n :
  (∀ k, 0 ≤ tsc k ≤ tsc (S k) ∧ tsc (S k) < 2 ^ 64) → 0 ≤ spans n ≤ tsc (2 * n)%nat - tsc 0%nat ∧ u64 (spans n) = spans n.
Proof.
  intros H. assert (0 ≤ spans n ≤ tsc (2 * n)%nat - tsc 0%nat) as Hb.
  { induction n as [|n IH]; [cbn; lia|]. cbn [spans]. pose proof (H (2 * n)%nat) as [H1 _]. pose proof (H (2 * n + 1)%nat) as [H2 _].
    replace (2 * S n)%nat with (S (2 * n + 1)) by lia. replace (S (2 * n)) with (2 * n + 1)%nat in H1 by lia. lia. }
  split; [done|]. unfold wrap. apply Z.mod_small. destruct (H (2 * n)%nat) as [? ?]. destruct (H 0%nat) as [? ?]. lia.
Qed.
End Spans.

(** ** Pools *)

Section Pool.
(** The template's argument: one of the two pools. *)
Context {T : Type} `{!DefaultCtor T} (alloc : T → MemPool T → result (Z * MemPool T)) (dealloc : Z → MemPool T → result (MemPool T)).
Context (tsc : nat → Z).
Implicit Types (p : MemPool T) (k : nat).

(** The two inner loops: [n] more objects, and the ones that are left.  [k] is the
    number of operations so far. *)
Fixpoint alloc_objs (n : nat) (objs : list Z) k (total : Z) p : result (list Z * nat * Z * MemPool T) :=
  match n with
  | O => Ok (objs, k, total, p)
  | S n =>
      let* r := alloc default_ctor p in
      let '(obj, p) := r in
      alloc_objs n (objs ++ [obj]) (S k) (add_span tsc k total) p
  end.

Fixpoint free_objs (objs : list Z) k (total : Z) p : result (nat * Z * MemPool T) :=
  match objs with
  | [] => Ok (k, total, p)
  | obj :: objs =>
      let* p := dealloc obj p in
      free_objs objs (S k) (add_span tsc k total) p
  end.

Fixpoint pool_loop (objs_size n : nat) k (total : Z) p : result (nat * Z * MemPool T) :=
  match n with
  | O => Ok (k, total, p)
  | S n =>
      let* r := alloc_objs objs_size [] k total p in
      let '(objs, k, total, p) := r in
      let* r := free_objs objs k total p in
      let '(k, total, p) := r in
      pool_loop objs_size n k total p
  end.

Definition kLoopCount : nat := Z.to_nat 100000.
Definition kObjs : nat := 256.

Definition benchmarkMemPool p : result (Z * MemPool T) :=
  let* r := pool_loop kObjs kLoopCount 0 0 p in
  let '(_, total, p) := r in
  Ok (total `div` (kLoopCount * kObjs * 2), p).
End Pool.

(** [main] of release_benchmark.cpp: the two numbers it prints. *)
Definition release_benchmark (tsc1 tsc2 : nat → Z) : result (Z * Z) :=
  let* r := benchmarkMemPool (T := MDPMarketUpdate) allocate deallocate tsc1 (MemPool_new 512) in
  let* r' := benchmarkMemPool (T := MDPMarketUpdate) opt_allocate opt_deallocate tsc2 (MemPool_new 512) in
  Ok (r.1, r'.1).

Section PoolOk.
Context {T : Type} `{!DefaultCtor T} (alloc : T → MemPool T → result (Z * MemPool T)) (dealloc : Z → MemPool T → result (MemPool T)).
Context (tsc : nat → Z).
Hypothesis alloc_eq : ∀ x p r, pool_wf p → allocate x p = Ok r → alloc x p = Ok r.
Hypothesis dealloc_eq : ∀ i p r, pool_wf p → deallocate i p = Ok r → dealloc i p = Ok r.
Implicit Types (p : MemPool T) (k : nat).

Lemma alloc_objs_ok (n : nat) (objs : list Z) k p :
  pool_wf p → NoDup objs → used p = list_to_set objs → length objs + n + 1 ≤ store_size p →
  ∃ objs' p', alloc_objs alloc tsc n objs k (u64 (spans tsc k)) p = Ok (objs', (k + n)%nat, u64 (spans tsc (k + n)), p')
    ∧ length objs' = (length objs + n)%nat ∧ pool_wf p' ∧ NoDup objs' ∧ used p' = list_to_set objs' ∧ store_size p' = store_size p.
Proof.
  revert objs k p. induction n as [|n IH]; intros objs k p Hw Hnd Hu Hs; cbn [alloc_objs].
  { exists objs, p. by rewrite !Nat.add_0_r. }
  destruct (allocate_some default_ctor p Hw) as (p1 & E & Ha).
  { rewrite Hu, size_list_to_set by done. lia. }
  rewrite (alloc_eq _ _ _ Hw E). cbn [rbind]. rewrite add_span_spans.
  pose proof (used_allocated _ _ _ _ Ha) as Hu1. pose proof (al_size _ _ _ _ Ha) as Hsz.
  destruct (IH (objs ++ [next_free_index_ p]) (S k) p1) as (objs' & p' & -> & Hl & ?).
  - apply (al_wf _ _ _ _ Ha).
  - pose proof (used_next_disjoint p Hw) as Hd. rewrite Hu in Hd. apply NoDup_app. split_and!; [done|set_solver|apply NoDup_singleton].
  - rewrite Hu1, Hu. set_solver.
  - rewrite length_app, Hsz. cbn. lia.
  - exists objs', p'. rewrite Hl, length_app, Hsz in *. replace (S k + n)%nat with (k + S n)%nat by lia. split; [done|]. cbn. split; [lia|done].
Qed.

Lemma free_objs_ok (objs : list Z) k p :
  pool_wf p → NoDup objs → used p = list_to_set objs →
  ∃ p', free_objs dealloc tsc objs k (u64 (spans tsc k)) p = Ok ((k + length objs)%nat, u64 (spans tsc (k + length objs)), p')
    ∧ pool_wf p' ∧ used p' = ∅ ∧ store_size p' = store_size p.
Proof.
  revert k p. induction objs as [|obj objs IH]; intros k p Hw Hnd Hu; cbn [free_objs].
  { exists p. rewrite Nat.add_0_r. done. }
  apply NoDup_cons in Hnd as [Hn Hnd].
  destruct (deallocate_ok p obj Hw) as (p1 & E & Hw1 & Hs1 & Hu1 & _); [apply elem_of_used; rewrite Hu; set_solver|].
  rewrite (dealloc_eq _ _ _ Hw E). cbn [rbind]. rewrite add_span_spans.
  destruct (IH (S k) p1 Hw1 Hnd) as (p' & -> & ? & ? & Hs).
  { apply set_eq. intros j. rewrite elem_of_used, Hu1, <- elem_of_used, Hu. set_solver. }
  exists p'. rewrite Hs, Hs1. cbn [length]. by replace (S k + length objs)%nat with (k + S (length objs))%nat by lia.
Qed.

Lemma pool_loop_ok (size n : nat) k p :
  pool_wf p → used p = ∅ → size + 1 ≤ store_size p →
  ∃ p', pool_loop alloc dealloc tsc size n k (u64 (spans tsc k)) p
        = Ok ((k + n * (2 * size))%nat, u64 (spans tsc (k + n * (2 * size))), p')
    ∧ pool_wf p' ∧ used p' = ∅.
Proof.
  revert k p. induction n as [|n IH]; intros k p Hw Hu Hs; cbn [pool_loop].
  { exists p. by rewrite Nat.add_0_r. }
  destruct (alloc_objs_ok size [] k p Hw (NoDup_nil_2) Hu Hs) as (objs & p1 & -> & Hl & Hw1 & Hnd & Hu1 & Hs1). cbn [rbind].
  destruct (free_objs_ok objs (k + size) p1 Hw1 Hnd Hu1) as (p2 & -> & Hw2 & Hu2 & Hs2). cbn [rbind].
  destruct (IH (k + size + length objs)%nat p2 Hw2 Hu2) as (p' & -> & ?); [by rewrite Hs2, Hs1|].
  exists p'. rewrite Hl. cbn [length]. by replace (k + size + (0 + size) + n * (2 * size))%nat with (k + S n * (2 * size))%nat by lia.
Qed.

Lemma benchmarkMemPool_ok (n : Z) :
  kObjs + 1 ≤ n →
  ∃ p', benchmarkMemPool alloc dealloc tsc (MemPool_new n)
        = Ok (u64 (spans tsc (kLoopCount * (2 * kObjs))) `div` (kLoopCount * kObjs * 2), p') ∧ used p' = ∅.
Proof.
  intros Hn. unfold benchmarkMemPool.
  assert (used (MemPool_new (T := T) n) = ∅) as Hu by (apply set_eq; intros i; rewrite elem_of_used; pose proof (in_use_new (T := T) n i); set_solver).
  revert Hn. generalize kLoopCount as m, kObjs as size. intros m size Hn.
  destruct (pool_loop_ok size m 0 (MemPool_new n)) as (p' & E & _ & ?); [apply pool_wf_new; lia|done|done|].
  change (u64 (spans tsc 0)) with 0 in E. rewrite E. cbn [rbind]. exists p'. done.
Qed.
End PoolOk.

(** Both pools do the same work, and have given everything back. *)
Lemma pool_benchmark_ok {T} `{!DefaultCtor T} (tsc : nat → Z) (n : Z) :
  kObjs + 1 ≤ n →
  ∃ cycles p p', benchmarkMemPool (T := T) allocate deallocate tsc (MemPool_new n) = Ok (cycles, p)
    ∧ benchmarkMemPool (T := T) opt_allocate opt_deallocate tsc (MemPool_new n) = Ok (cycles, p')
    ∧ cycles = u64 (spans tsc (kLoopCount * (2 * kObjs))) `div` (kLoopCount * kObjs * 2) ∧ used p = ∅ ∧ used p' = ∅.
Proof.
  intros Hn. destruct (benchmarkMemPool_ok (T := T) allocate deallocate tsc ltac:(done) ltac:(done) n Hn) as (p & E & Hu).
  destruct (benchmarkMemPool_ok (T := T) opt_allocate opt_deallocate tsc) with (n := n) as (p' & E' & Hu'); [..|done|].
  - intros x q r Hw E1. by rewrite opt_allocate_equiv, E1.
  - intros i q r Hw E1. pose proof (deallocate_inv _ _ _ E1) as Hin. rewrite opt_deallocate_equiv; [done..|]. by apply (wf_range _ Hw).
  - eexists _, p, p'. split_and!; [exact E|exact E'|reflexivity|done|done].
Qed.

(** ** The book of the matching engine *)

Section Hash.
Context {E : Type} `{!EngineSink E} (tsc : nat → Z).

(** The operations are timed, [k] of them so far; other requests are skipped. *)
Fixpoint hash_loop (reqs : list MEClientRequest) (k : nat) (total : Z) (book : MEOrderBook) (e : E) : result (Z * MEOrderBook * E) :=
  match reqs with
  | [] => Ok (total, book, e)
  | req :: reqs =>
      match req_type_ req with
      | Req_NEW =>
          let* r := add (req_client_id_ req) (req_order_id_ req) (req_ticker_id_ req) (req_side_ req) (req_price_ req) (req_qty_ req) book e in
          hash_loop reqs (S k) (add_span tsc k total) r.1 r.2
      | Req_CANCEL =>
          let* r := cancel (req_client_id_ req) (req_order_id_ req) (req_ticker_id_ req) book e in
          hash_loop reqs (S k) (add_span tsc k total) r.1 r.2
      | _ => hash_loop reqs k total book e
      end
  end.

Definition benchmarkHashMap (book : MEOrderBook) (reqs : list MEClientRequest) (e : E) : result (Z * MEOrderBook * E) :=
  let* r := hash_loop reqs 0 0 book e in
  let '(total, book, e) := r in
  if Z.of_nat (length reqs) =? 0 then Err Undefined else Ok (total `div` length reqs, book, e).

(** The requests are made first: a new order and the cancel of one of the requests
    so far, until there are [limit] of them.  [k] values of [rand] have been used. *)
Fixpoint hash_requests_loop (fuel : nat) (rand : nat → Z) (limit base_price : Z) (k : nat) (order_id : Z) (reqs : list MEClientRequest)
    : result (list MEClientRequest) :=
  if limit <=? length reqs then Ok reqs else
  match fuel with
  | O => Err OutOfFuel
  | S fuel =>
      let price := base_price + rand k `mod` 10 + 1 in
      let qty := u32 (1 + rand (k + 1)%nat `mod` 100 + 1) in
      let side := if rand (k + 2)%nat `mod` 2 =? 0 then SELL else BUY in
      let neu := mkMEClientRequest Req_NEW 0 0 order_id side price qty in
      let reqs := reqs ++ [neu] in
      match reqs !! Z.to_nat (rand (k + 3)%nat `mod` length reqs) with
      | None => Err Undefined
      | Some cxl => hash_requests_loop fuel rand limit base_price (k + 4) (u64 (order_id + 1)) (reqs ++ [as_cancel cxl])
      end
  end.

Definition hash_requests (rand : nat → Z) : result (list MEClientRequest) :=
  hash_requests_loop kLoopCount rand (kLoopCount * 2) (rand 0%nat `mod` 100 + 100) 1 1000 [].

(** [main]: [rand] after [srand(0)], the book in memory [mem]. *)
Definition hash_benchmark (mem : IndexMemory (Z * Z)) (rand : nat → Z) (e : E) : result (Z * MEOrderBook * E) :=
  let* reqs := hash_requests rand in
  benchmarkHashMap (MEOrderBook_new mem 0) reqs e.
End Hash.

Section HashOk.
Context {E : Type} `{!EngineSink E} (tsc : nat → Z).

Lemma hash_loop_ok reqs k book (e : E) book' e' :
  Forall plain_request reqs → run_book (omap to_book_request reqs) book e = Ok (book', e') →
  hash_loop tsc reqs k (u64 (spans tsc k)) book e = Ok (u64 (spans tsc (k + length reqs)), book', e').
Proof.
  intros Hp. revert k book e. induction Hp as [|req reqs Hr Hp IH]; intros k book e H; cbn [hash_loop length].
  { cbn in H. injection H as -> ->. by rewrite Nat.add_0_r. }
  replace (k + S (length reqs))%nat with (S k + length reqs)%nat by lia.
  pose proof (pr_type _ Hr) as Ht. cbn [omap list_omap] in H. unfold to_book_request at 1 in H.
  destruct (req_type_ req); try done; cbn [run_book handle] in H;
    apply bind_ok in H as ([book1 e1] & -> & H); cbn [rbind fst snd]; rewrite add_span_spans; by apply IH.
Qed.

(** A run of the engine on one ticker is a run of its book. *)
Lemma engine_run_book reqs sp sps :
  Forall (λ r, req_ticker_id_ r = 0) reqs → valid_engine_run reqs (sp :: sps) → valid_run (omap to_book_request reqs) sp.
Proof.
  intros Ht. revert sp. induction Ht as [|req reqs Hr Ht IH]; intros sp; [done|].
  intros [(r & sp' & Hb & Hl & Hv) H]. rewrite Hr in Hl. cbn in Hl. injection Hl as <-.
  cbn [omap list_omap]. rewrite Hb. split; [done|]. apply IH.
  unfold engine_spec in H. rewrite Hb, Hr in H. change (Z.to_nat 0) with 0%nat in H. cbn [lookup list_lookup] in H.
  destruct (spec_handle r sp). exact H.
Qed.

Context (rand : nat → Z).

(** The requests so far. *)
Record generated (n : nat) (reqs : list MEClientRequest) : Prop := {
  ge_length : length reqs = (2 * n)%nat;
  ge_ticker : Forall (λ r, req_ticker_id_ r = 0) reqs;
  ge_plain : Forall plain_request reqs;
  ge_keys : new_keys reqs = (λ i : nat, (0, 0, 1000 + i)) <$> seq 0 n }.

Lemma generated_step n reqs neu cxl :
  generated n reqs → plain_request neu → new_key neu = (0, 0, 1000 + n) → req_type_ neu = Req_NEW → cxl ∈ reqs ++ [neu] →
  generated (S n) ((reqs ++ [neu]) ++ [as_cancel cxl]).
Proof.
  intros [H1 H2 H3 H4] Hn Hk Ht Hc.
  assert (req_ticker_id_ neu = 0) as Hnt by (unfold new_key in Hk; congruence).
  assert (Forall (λ r, req_ticker_id_ r = 0) (reqs ++ [neu])) as H2' by (apply Forall_app; split; [done|by apply Forall_singleton]).
  assert (Forall plain_request (reqs ++ [neu])) as H3' by (apply Forall_app; split; [done|by apply Forall_singleton]).
  pose proof (proj1 (Forall_forall _ _) H2' _ Hc) as Hc2. pose proof (proj1 (Forall_forall _ _) H3' _ Hc) as Hc3. split.
  - rewrite !length_app, H1. cbn. lia.
  - apply Forall_app. split; [done|by apply Forall_singleton].
  - apply Forall_app. split; [done|by apply Forall_singleton, as_cancel_plain].
  - assert (new_keys [neu] = [new_key neu]) as E1 by (unfold new_keys, new_request; rewrite filter_cons_True by (by rewrite Ht); done).
    assert (new_keys [as_cancel cxl] = []) as E2 by done. rewrite !new_keys_app, H4, E1, E2, app_nil_r, Hk. rewrite seq_S, fmap_app. reflexivity.
Qed.

Lemma generated_plain (n : nat) reqs : n < ME_MAX_ORDER_IDS → generated n reqs → plain_run reqs.
Proof.
  intros Hn [H1 H2 H3 H4]. split; [done|..]; rewrite H4.
  - apply NoDup_fmap_2; [|apply NoDup_seq]. intros i j H. injection H. lia.
  - by rewrite length_fmap, length_seq.
Qed.

Lemma hash_requests_loop_ok (fuel n m : nat) base_price k reqs :
  generated n reqs → (n + fuel = m)%nat → 0 ≤ base_price < 200 → 1000 + m < ME_MAX_ORDER_IDS →
  ∃ reqs', hash_requests_loop fuel rand (m * 2) base_price k (1000 + n) reqs = Ok reqs' ∧ generated m reqs'.
Proof.
  revert n k reqs. induction fuel as [|fuel IH]; intros n k reqs Hg Hm Hb Ho; cbn [hash_requests_loop]; rewrite (ge_length _ _ Hg).
  { rewrite (proj2 (Z.leb_le _ _)) by lia. exists reqs. split; [done|]. by replace m with n by lia. }
  rewrite (proj2 (Z.leb_gt _ _)) by lia. cbv zeta.
  set (neu := mkMEClientRequest Req_NEW 0 0 _ _ _ _).
  pose proof (Z.mod_pos_bound (rand (k + 3)%nat) (length (reqs ++ [neu])) ltac:(rewrite length_app; cbn; lia)) as Hx.
  destruct (lookup_lt_is_Some_2 (reqs ++ [neu]) (Z.to_nat (rand (k + 3)%nat `mod` length (reqs ++ [neu])))) as [cxl Hc]; [lia|].
  rewrite Hc. replace (u64 (1000 + n + 1)) with (1000 + S n) by (unfold wrap, ME_MAX_ORDER_IDS in *; rewrite Z.mod_small; lia).
  apply IH; [|lia|done|done]. apply generated_step; [done| |done|done|by eapply list_elem_of_lookup_2].
  pose proof (Z.mod_pos_bound (rand k) 10 ltac:(done)). pose proof (Z.mod_pos_bound (rand (k + 1)%nat) 100 ltac:(done)).
  split; cbn [neu req_type_ req_ticker_id_ req_client_id_ req_order_id_ req_side_ req_price_ req_qty_]; [done|done| |].
  - unfold cid_oid_in_range, ME_MAX_NUM_CLIENTS, ME_MAX_ORDER_IDS in *. cbn [fst snd]. lia.
  - intros _. unfold price_band, ME_MAX_PRICE_LEVELS. split_and!; [by destruct (_ =? 0); [right|left]|lia..| |].
    1, 2: unfold wrap; rewrite Z.mod_small; lia.
Qed.

(** Nothing aborts, the book follows its specification and every request is timed. *)
Lemma hash_benchmark_ok (e : E) :
  ∃ reqs book, hash_requests rand = Ok reqs ∧ length reqs = Z.to_nat 200000
    ∧ let '(sp, evs) := spec_run (omap to_book_request reqs) MESpec_new in
      hash_benchmark tsc zeroed rand e = Ok (u64 (spans tsc (length reqs)) `div` length reqs, book, emit_all evs e) ∧ me_rep book sp ∧ book_inv sp.
Proof.
  pose proof (Z.mod_pos_bound (rand 0%nat) 100 ltac:(done)) as Hb.
  destruct (hash_requests_loop_ok kLoopCount 0 kLoopCount (rand 0%nat `mod` 100 + 100) 1 []) as (reqs & Hreqs & Hg); [done|lia|lia| |].
  { unfold kLoopCount, ME_MAX_ORDER_IDS. lia. }
  assert (plain_run reqs) as Hpl by (apply (generated_plain kLoopCount); [unfold kLoopCount, ME_MAX_ORDER_IDS; lia|done]).
  change (1000 + 0%nat) with 1000 in Hreqs. fold (hash_requests rand) in Hreqs.
  assert (length reqs = Z.to_nat 200000) as Hl by (rewrite (ge_length _ _ Hg); unfold kLoopCount; lia).
  pose proof (engine_run_book reqs MESpec_new (replicate 7 MESpec_new) (ge_ticker _ _ Hg) (plain_run_valid reqs Hpl)) as Hv.
  pose proof (run_book_ok (omap to_book_request reqs) (MEOrderBook_new zeroed 0) MESpec_new e (me_rep_new 0) book_inv_new Hv) as Hr.
  destruct (spec_run (omap to_book_request reqs) MESpec_new) as [sp evs] eqn:Es. destruct Hr as (book & Er & Hm & Hi & _).
  exists reqs, book. split; [done|]. split; [done|]. rewrite Es. split; [|done]. unfold hash_benchmark, benchmarkHashMap. rewrite Hreqs. cbn [rbind].
  pose proof (hash_loop_ok reqs 0 _ e _ _ (pl_requests _ Hpl) Er) as Eh. change (u64 (spans tsc 0)) with 0 in Eh. rewrite Eh. cbn [rbind].
  rewrite (proj2 (Z.eqb_neq _ _)); [done|lia].
Qed.
End HashOk.

(** ** The loggers *)

Definition charset : string := "0123456789ABCDEFGHIJKLMNOPQRSTUVWXYZabcdefghijklmnopqrstuvwxyz".

(** [length] characters, from the [k]-th value of [rand] on; the index is below the
    size of the array less its terminator. *)
Fixpoint randomString (rand : nat → Z) (k length : nat) : string :=
  match length with
  | O => EmptyString
  | S n =>
      String (default NUL (String.list_ascii_of_string charset !! Z.to_nat (rand k `mod` String.length charset))) (randomString rand (S k) n)
  end.

Section LogBenchmark.
(** The template's argument, and how many statements the background thread executes
    after each line. *)
Context {F : Type} `{!DoubleText F} {L : Type} `{!DefaultCtor L}.
Context (log_line : string → list (log_arg F) → LFQueue L → result (LFQueue L)) (show : L → string) (checks_running : bool).
Context (tsc : nat → Z) (rand : nat → Z) (acts : nat → nat).
Implicit Types (g : logger L).

Definition line_format : string := "%" +:+ newline.

Definition log_round (i : nat) g : result (logger L) :=
  let s := randomString rand (128 * i) 128 in
  let* q := log_line line_format [ArgString s] (lg_queue_ g) in
  flusher_steps show checks_running (acts i) (mkLogger q (lg_file_ g) (lg_running_ g) (lg_flush g) (lg_dtor g)).

(** [n] lines from line [i] on. *)
Fixpoint log_loop (n i : nat) (total : Z) g : result (Z * logger L) :=
  match n with
  | O => Ok (total, g)
  | S n =>
      let* g := log_round i g in
      log_loop n (S i) (add_span tsc i total) g
  end.

Definition benchmarkLogging g : result (Z * logger L) :=
  let* r := log_loop kLoopCount 0 0 g in
  Ok (r.1 `div` kLoopCount, r.2).
End LogBenchmark.

(** [main] up to the destructors: the second logger's strings go on where the first
    one's ended. *)
Definition logger_benchmark {F} `{!DoubleText F} (tsc1 tsc2 rand : nat → Z) (acts1 acts2 : nat → nat) : result (Z * Z) :=
  let* r := benchmarkLogging (F := F) log show_element true tsc1 rand acts1 Logger_new in
  let* r' := benchmarkLogging (F := F) opt_log opt_show_element false tsc2 (λ k, rand (128 * kLoopCount + k)%nat) acts2 OptLogger_new in
  Ok (r.1, r'.1).

(** The calls of a benchmark. *)
Definition benchmark_calls {F} (rand : nat → Z) (n : nat) : list (string * list (log_arg F)) :=
  (λ i, (line_format, [ArgString (randomString rand (128 * i) 128)])) <$> seq 0 n.

(** ** The jitter of the counter *)

Section Jitter.
(** The readings of the counter and of the clock, and the platform. *)
Context {F : Type} `{!Double F} `{!DoubleCast F} `{!DoubleText F}.
Context (tsc nanos : nat → Z) (os : platform) (thread_policy_set : Z → Z).

(** From the [i]-th iteration on: reading [i + 1] of the counter, and at the [m]-th
    check of the time reading [m] of the clock. *)
Fixpoint jitter_loop (fuel i m : nat) (budget_ns prev iter : Z) (hist : LatencyHistogram) : result LatencyHistogram :=
  match fuel with
  | O => Err OutOfFuel
  | S fuel =>
      let now := tsc (S i) in
      let* hist := record (i64 (u64 (now - prev))) hist in
      let iter := u64 (iter + 1) in
      if Z.land iter (Z.shiftl 1 20 - 1) =? 0 then
        let* elapsed := int64 (nanos (S m) - nanos 0%nat) in
        if budget_ns <=? elapsed then Ok hist else jitter_loop fuel (S i) (S m) budget_ns now iter hist
      else jitter_loop fuel (S i) m budget_ns now iter hist
  end.

(** What the program leaves behind: its exit code, [stderr] and the file it wrote. *)
Record jitter_outcome := mkJitter { jo_code : Z; jo_stderr : string; jo_file : option (string * string) }.

Definition jitter_summary (mode : string) (hist : LatencyHistogram) : result string :=
  let* p50 := percentile (ratio 50 100) hist in
  let* p99 := percentile (ratio 99 100) hist in
  let* p999 := percentile (ratio 999 1000) hist in
  let* p9999 := percentile (ratio 9999 10000) hist in
  Ok ("[jitter] mode=" +:+ mode +:+ " count=" +:+ pretty (count hist) +:+ "  p50=" +:+ pretty p50 +:+ "  p99=" +:+ pretty p99
      +:+ "  p999=" +:+ pretty p999 +:+ "  p9999=" +:+ pretty p9999 +:+ "  max=" +:+ pretty (max_of hist) +:+ newline).

Definition jitter_benchmark (fuel : nat) (argv : list string) : result jitter_outcome :=
  let mode := default "unpinned" (argv !! 1%nat) in
  let* secs := match argv !! 2%nat with Some s => atoi s | None => Ok 5 end in
  let out := default (if bool_decide (mode = "pinned") then "jitter_pinned.hgrm" else "jitter_unpinned.hgrm") (argv !! 3%nat) in
  if negb (bool_decide (mode = "pinned")) && negb (bool_decide (mode = "unpinned")) then
    Ok (mkJitter 1 ("Unknown mode '" +:+ mode +:+ "' (want 'pinned' or 'unpinned')." +:+ newline) None)
  else
    let hint :=
      if bool_decide (mode = "pinned") then
        "[jitter] Darwin affinity hint: "
        +:+ (if pinCurrentThreadDarwinHint os thread_policy_set 1 then "applied" else "failed (continuing unpinned)") +:+ newline
      else "[jitter] no affinity hint applied" +:+ newline in
    let* hist := jitter_loop fuel 0 0 (secs * 1000 * 1000 * 1000) (tsc 0%nat) 0 (LatencyHistogram_new mode) in
    let* summary := jitter_summary mode hist in
    let* csv := dumpCsv hist in
    Ok (mkJitter 0 (hint +:+ summary +:+ "[jitter] wrote " +:+ out +:+ newline) (Some (out, csv))).
End Jitter.

(** *** What the loggers are given *)

Lemma charset_plain : Forall (λ c, c ≠ NUL) (String.list_ascii_of_string charset).
Proof. repeat (constructor; [discriminate|]). constructor. Qed.

Lemma randomString_ok rand k n : String.length (randomString rand k n) = n ∧ c_str (randomString rand k n) = randomString rand k n.
Proof.
  revert k. induction n as [|n IH]; intros k; [done|]. cbn [randomString String.length c_str]. destruct (IH (S k)) as [H1 H2].
  split; [by f_equal|]. rewrite bool_decide_false; [by rewrite H2|].
  pose proof (Z.mod_pos_bound (rand k) (String.length charset) ltac:(done)) as Hb.
  destruct (lookup_lt_is_Some_2 (String.list_ascii_of_string charset) (Z.to_nat (rand k `mod` String.length charset))) as [c Hc].
  { change (length (String.list_ascii_of_string charset)) with (String.length charset). lia. }
  rewrite Hc. apply (proj1 (Forall_lookup _ _) charset_plain _ _ Hc).
Qed.

Lemma length_list_ascii s : length (String.list_ascii_of_string s) = String.length s.
Proof. induction s as [|c s IH]; [done|]. cbn. by f_equal. Qed.

Section LogBenchmarkOk.
Context {F : Type} `{!DoubleText F} {L : Type} `{!DefaultCtor L}.
Context (log_line : string → list (log_arg F) → LFQueue L → result (LFQueue L)) (show : L → string) (checks_running capped : bool).
Context (tsc : nat → Z) (rand : nat → Z) (acts : nat → nat).
Context (elems : nat → list L) (per : nat).
Hypothesis log_line_ok : ∀ i q, log_line line_format [ArgString (randomString rand (128 * i) 128)] q = Ok (enqueue_all (elems i) q).
Hypothesis elems_length : ∀ i, length (elems i) = per.
Implicit Types (g : logger L).
Local Abbreviation at_ := (logger_at show capped).
Local Abbreviation step := (logger_step show checks_running capped).

Lemma flusher_step_size g g' : flusher_step show checks_running g = Ok g' → q_size (lg_queue_ g') = q_size (lg_queue_ g).
Proof.
  destruct g as [q f r pc d]. unfold flusher_step. cbn. destruct pc; intros H; try (by injection H as <-).
  apply bind_ok in H as (q' & H & [= <-]). unfold updateReadIndex, dec_elements in H. apply bind_ok in H as (_ & _ & [= <-]). done.
Qed.

Lemma flusher_steps_total n pushed printed l g :
  at_ pushed printed l g →
  ∃ g' printed' l', flusher_steps show checks_running n g = Ok g' ∧ at_ pushed printed' l' g'
    ∧ lg_dtor g' = lg_dtor g ∧ q_size (lg_queue_ g') = q_size (lg_queue_ g).
Proof.
  revert printed l g. induction n as [|n IH]; intros printed l g Ha; cbn [flusher_steps]; [by exists g, printed, l|].
  destruct (flusher_step_ok show checks_running capped _ _ _ _ Ha) as (g1 & p1 & l1 & E1 & H1 & _ & Hd & _). rewrite E1. cbn [rbind].
  destruct (IH _ _ _ H1) as (g' & p' & l' & E & H & Hd' & Hs). exists g', p', l'. rewrite Hd', Hs, Hd. by rewrite (flusher_step_size _ _ E1).
Qed.

Lemma logger_at_length pushed printed l g : at_ pushed printed l g → (length l ≤ length pushed)%nat.
Proof.
  intros Ha. pose proof (la_flush _ _ _ _ _ _ Ha) as Hf. destruct (lg_flush g) as [| |[]| | |]; cbn in Hf;
    first [rewrite Hf|destruct Hf as (p & e & l' & _ & _ & ->)|destruct Hf as [_ ->]]; rewrite length_app; lia.
Qed.

(** The queue has room for all lines at once: no line is lost whatever the background
    thread does. *)
Lemma log_loop_ok (n i : nat) pushed printed l g :
  at_ pushed printed l g → lg_dtor g = DNone → length pushed = (i * per)%nat → (i + n) * per ≤ q_size (lg_queue_ g) →
  ∃ g', log_loop log_line show checks_running tsc rand acts n i (u64 (spans tsc i)) g = Ok (u64 (spans tsc (i + n)), g')
    ∧ rtc step (pushed, g) (pushed ++ concat (elems <$> seq i n), g').
Proof.
  revert i pushed printed l g. induction n as [|n IH]; intros i pushed printed l g Ha Hd Hl Hr; cbn [log_loop].
  { exists g. rewrite Nat.add_0_r. cbn. by rewrite app_nil_r. }
  pose proof (logger_at_length _ _ _ _ Ha) as Hle. pose proof (la_queue _ _ _ _ _ _ Ha) as Hq.
  assert (length l + length (elems i) ≤ q_size (lg_queue_ g)) as Hroom by (rewrite elems_length; lia).
  pose proof (pushes_run show checks_running capped (elems i) pushed l g Hd Hq Hroom) as Hrun.
  unfold log_round. rewrite log_line_ok. cbn [rbind]. set (g1 := mkLogger _ _ _ _ _) in *.
  assert (logger_inv show capped (pushed ++ elems i, g1)) as (p1 & l1 & Ha1).
  { assert (logger_inv show capped (pushed, g)) as Hi by (by exists printed, l). revert Hi. clear -Hrun.
    remember (pushed, g) as s eqn:Es. remember (pushed ++ elems i, g1) as s' eqn:Es'. clear Es Es'.
    induction Hrun as [|s1 s2 s3 H _ IH]; [done|]. intros Hi. by apply IH, (logger_inv_step show checks_running capped s1). }
  cbn [fst snd] in Ha1. destruct (flusher_steps_total (acts i) _ _ _ _ Ha1) as (g2 & p2 & l2 & E2 & Ha2 & Hd2 & Hs2).
  rewrite E2. cbn [rbind]. rewrite add_span_spans.
  destruct (IH (S i) (pushed ++ elems i) p2 l2 g2 Ha2) as (g' & -> & Hrun').
  - by rewrite Hd2.
  - rewrite length_app, elems_length, Hl. lia.
  - rewrite Hs2. unfold g1. cbn [lg_queue_]. rewrite (proj2 (enqueue_all_ok _ _ _ Hq Hroom)). lia.
  - exists g'. replace (S i + n)%nat with (i + S n)%nat by lia. split; [done|].
    etrans; [exact Hrun|]. etrans; [by eapply flusher_steps_run|]. cbn [seq]. rewrite fmap_cons. cbn [concat]. by rewrite app_assoc.
Qed.
End LogBenchmarkOk.

Section LoggersRun.
Context {F : Type} `{!DoubleText F} (tsc : nat → Z) (rand : nat → Z).

(** A line is two elements of [OptLogger] and 129 of [Logger]. *)
Lemma line_elems i :
  let s := ArgString (randomString rand (128 * i) 128) in
  length (log_elems (F := F) line_format [s]) = 129%nat ∧ length (opt_log_elems (F := F) line_format [s]) = 2%nat.
Proof.
  cbv zeta. split; [|reflexivity]. destruct (randomString_ok rand (128 * i) 128) as [Hl Hc].
  change (log_elems line_format _) with ((LCHAR (F := F) <$> String.list_ascii_of_string (c_str (randomString rand (128 * i) 128))) ++ [LCHAR (Ascii.ascii_of_nat 10)]).
  rewrite length_app, length_fmap, Hc, length_list_ascii, Hl. reflexivity.
Qed.

Lemma opt_benchmark_elems n :
  opt_calls_elems (F := F) (benchmark_calls rand n)
  = concat ((λ i, opt_log_elems line_format [ArgString (randomString rand (128 * i) 128)]) <$> seq 0 n).
Proof. unfold opt_calls_elems, benchmark_calls. by rewrite <- list_fmap_compose. Qed.

(** The queue of [OptLogger] holds all lines: whatever its thread does meanwhile, the
    benchmark ends in a reachable state, so that no line is lost. *)
Lemma logging_benchmark_ok acts :
  ∃ g, benchmarkLogging (F := F) opt_log opt_show_element false tsc rand acts OptLogger_new
       = Ok (u64 (spans tsc kLoopCount) `div` kLoopCount, g)
    ∧ rtc OptLogger_step ([], OptLogger_new) (opt_calls_elems (benchmark_calls rand kLoopCount), g).
Proof.
  destruct (logger_inv_new (opt_show_element (F := F)) false OPT_LOG_QUEUE_SIZE ltac:(done)) as (printed & l & Ha).
  set (elems := λ i, opt_log_elems (F := F) line_format [ArgString (randomString rand (128 * i) 128)]).
  assert (∀ i q, opt_log line_format [ArgString (randomString rand (128 * i) 128)] q = Ok (enqueue_all (elems i) q)) as Hlog
    by (intros i q; by rewrite opt_log_ok, decide_True).
  cbn [fst snd] in Ha.
  destruct (log_loop_ok opt_log opt_show_element false false tsc rand acts elems 2 Hlog (λ i, proj2 (line_elems i)) kLoopCount 0 [] _ _ _ Ha eq_refl eq_refl)
    as (g & E & Hr).
  - unfold kLoopCount. cbn [lg_queue_ logger_new LFQueue_new q_size]. unfold OPT_LOG_QUEUE_SIZE. lia.
  - exists g. unfold benchmarkLogging. change (u64 (spans tsc 0)) with 0 in E. rewrite opt_benchmark_elems.
    unfold OptLogger_new. change (0 + kLoopCount)%nat with kLoopCount in E. rewrite E. cbn [rbind fst snd]. split; [reflexivity|].
    rewrite app_nil_l in Hr. exact Hr.
Qed.

(** The lines of the original logger do not fit its queue: it depends on its thread. *)
Lemma logging_benchmark_elems :
  length (calls_elems (F := F) (benchmark_calls rand kLoopCount)) = 12900000 :> Z ∧ LOG_QUEUE_SIZE < 12900000.
Proof.
  split; [|done]. enough (∀ n i, length (concat ((λ i, log_elems (F := F) line_format [ArgString (randomString rand (128 * i) 128)]) <$> seq i n)) = (n * 129)%nat) as H.
  { unfold calls_elems, benchmark_calls. rewrite <- list_fmap_compose. etransitivity; [apply (f_equal Z.of_nat), (H kLoopCount 0%nat)|]. unfold kLoopCount. lia. }
  intros n. induction n as [|n IH]; intros i; [done|]. cbn [seq]. rewrite fmap_cons. cbn [concat]. rewrite length_app, IH, (proj1 (line_elems i)). lia.
Qed.
End LoggersRun.

(** *** The jitter of the counter *)

Section JitterOk.
Context (tsc nanos : nat → Z) (budget_ns : Z) (checks : nat).

(** What the first [n] iterations record, the last one first. *)
Definition deltas (n : nat) : list Z := reverse ((λ i, Z.max 0 (i64 (u64 (tsc (S i) - tsc i)))) <$> seq 0 n).

Lemma deltas_S n : deltas (S n) = Z.max 0 (i64 (u64 (tsc (S n) - tsc n))) :: deltas n.
Proof. unfold deltas. rewrite seq_S, fmap_app. apply reverse_snoc. Qed.

Lemma length_deltas n : length (deltas n) = n.
Proof. unfold deltas. by rewrite length_reverse, length_fmap, length_seq. Qed.

(** The clock passes the budget at check number [checks], and not before. *)
Record clock_runs : Prop := {
  cr_range : ∀ m, 0 ≤ nanos m < 2 ^ 63;
  cr_before : ∀ m, (0 < m < checks)%nat → nanos m - nanos 0%nat < budget_ns;
  cr_passed : budget_ns ≤ nanos checks - nanos 0%nat;
  cr_few : 0 < checks < 2 ^ 43 }.

Lemma swrap_range z : - 2 ^ 63 ≤ i64 z < 2 ^ 63.
Proof. unfold swrap, wrap. change (64 - 1) with 63. pose proof (Z.mod_pos_bound (z + 2 ^ 63) (2 ^ 64) ltac:(done)). lia. Qed.

Lemma mask_20 z : Z.land z (Z.shiftl 1 20 - 1) = z `mod` 2 ^ 20.
Proof. change (Z.shiftl 1 20 - 1) with (Z.ones 20). by apply Z.land_ones. Qed.

Lemma next_check (i : nat) :
  if decide (S i `mod` 2 ^ 20 = 0) then S i `div` 2 ^ 20 = i `div` 2 ^ 20 + 1 else S i `div` 2 ^ 20 = i `div` 2 ^ 20.
Proof.
  pose proof (Z.div_mod i (2 ^ 20) ltac:(done)). pose proof (Z.mod_pos_bound i (2 ^ 20) ltac:(done)).
  pose proof (Z.div_mod (S i) (2 ^ 20) ltac:(done)). pose proof (Z.mod_pos_bound (S i) (2 ^ 20) ltac:(done)). case_decide; lia.
Qed.

Lemma jitter_loop_from (left fuel i : nat) hist :
  clock_runs → i + left = checks * 2 ^ 20 → (0 < left ≤ fuel)%nat → hist_rep hist (deltas i) →
  ∃ hist', jitter_loop tsc nanos fuel i (Z.to_nat (i `div` 2 ^ 20)) budget_ns (tsc i) i hist = Ok hist'
    ∧ hist_rep hist' (deltas (i + left)) ∧ lh_name_ hist' = lh_name_ hist.
Proof.
  intros [Hr Hb Hp Hf]. revert fuel i hist. induction left as [|left IH]; intros fuel i hist Hi Hl Hh; [lia|].
  destruct fuel as [|fuel]; [lia|]. cbn [jitter_loop]. cbv zeta.
  destruct (record_ok hist (deltas i) (i64 (u64 (tsc (S i) - tsc i))) Hh) as (h1 & -> & Hh1 & Hn1);
    [apply swrap_range|rewrite length_deltas; lia|]. rewrite <- deltas_S in Hh1. cbn [rbind].
  replace (u64 (i + 1)) with (Z.of_nat (S i)) by (unfold wrap; rewrite Z.mod_small; lia). rewrite mask_20.
  replace (i + S left)%nat with (S i + left)%nat by lia. pose proof (next_check i) as Hc.
  assert (0 ≤ i `div` 2 ^ 20) as H0 by (apply Z.div_pos; lia).
  destruct (Z.eqb_spec (S i `mod` 2 ^ 20) 0) as [Hm|Hm].
  - rewrite decide_True in Hc by done. pose proof (Hr (S (Z.to_nat (i `div` 2 ^ 20)))). pose proof (Hr 0%nat).
    rewrite int64_ok by lia. cbn [rbind]. assert (Z.of_nat (S i) = 2 ^ 20 * (S i `div` 2 ^ 20)) as Hd
      by (pose proof (Z.div_mod (S i) (2 ^ 20) ltac:(done)); lia).
    destruct left as [|left].
    + assert (S (Z.to_nat (i `div` 2 ^ 20)) = checks) as -> by lia. rewrite (proj2 (Z.leb_le _ _)) by lia. exists h1. by rewrite Nat.add_0_r.
    + rewrite (proj2 (Z.leb_gt _ _)) by (apply Hb; lia).
      replace (S (Z.to_nat (i `div` 2 ^ 20))) with (Z.to_nat (S i `div` 2 ^ 20)) by lia. rewrite <- Hn1. apply IH; [lia|lia|done].
  - rewrite decide_False in Hc by done. rewrite <- Hc. rewrite <- Hn1. apply IH; [lia| |done].
    destruct left as [|left]; [|lia]. destruct Hm. replace (Z.of_nat (S i)) with (checks * 2 ^ 20) by lia. by apply Z.mod_mul.
Qed.

Lemma jitter_loop_ok (fuel : nat) (mode : string) :
  clock_runs → checks * 2 ^ 20 ≤ fuel →
  ∃ hist, jitter_loop tsc nanos fuel 0 0 budget_ns (tsc 0%nat) 0 (LatencyHistogram_new mode) = Ok hist
    ∧ hist_rep hist (deltas (Z.to_nat (checks * 2 ^ 20))) ∧ lh_name_ hist = mode.
Proof.
  intros Hc Hf. pose proof (cr_few Hc). apply (jitter_loop_from (Z.to_nat (checks * 2 ^ 20)) fuel 0); [done|lia|lia|apply hist_rep_new].
Qed.
End JitterOk.

(** The whole program, over exact doubles: a file with the recorded spans. *)
Lemma jitter_benchmark_ok `{!DoubleText Qc} tsc nanos os policy (fuel : nat) (argv : list string) (secs : Z) (checks : nat) :
  let mode := default "unpinned" (argv !! 1%nat) in
  (∀ k, 0 ≤ tsc k ≤ tsc (S k) ∧ tsc (S k) < 2 ^ 62) →
  mode = "pinned" ∨ mode = "unpinned" →
  match argv !! 2%nat with Some s => atoi s | None => Ok 5 end = Ok secs →
  clock_runs nanos (secs * 1000 * 1000 * 1000) checks → checks * 2 ^ 20 ≤ fuel →
  ∃ err out hist csv, jitter_benchmark (F := Qc) tsc nanos os policy fuel argv = Ok (mkJitter 0 err (Some (out, csv)))
    ∧ hist_rep hist (deltas tsc (Z.to_nat (checks * 2 ^ 20))) ∧ lh_name_ hist = mode ∧ dumpCsv (F := Qc) hist = Ok csv.
Proof.
  intros mode Ht Hm Hs Hc Hf. unfold jitter_benchmark. fold mode. rewrite Hs. cbn [rbind].
  replace (negb (bool_decide (mode = "pinned")) && negb (bool_decide (mode = "unpinned"))) with false by by destruct Hm as [-> | ->].
  destruct (jitter_loop_ok tsc nanos (secs * 1000 * 1000 * 1000) checks fuel mode Hc Hf) as (hist & -> & Hh & Hn). cbn [rbind].
  assert (Forall (λ v, v < 2 ^ 62) (deltas tsc (Z.to_nat (checks * 2 ^ 20)))) as Hsmall.
  { unfold deltas. apply Forall_reverse, Forall_fmap, Forall_true. intros i. cbn. pose proof (Ht i) as [H1 H2].
    assert (i64 (u64 (tsc (S i) - tsc i)) = tsc (S i) - tsc i) as ->; [|lia].
    unfold swrap, wrap. change (64 - 1) with 63. rewrite !Z.mod_small; [lia..|]. rewrite Z.mod_small; lia. }
  unfold jitter_summary.
  do 4 (match goal with |- context [percentile ?p hist] => destruct (percentile_total hist _ p Hh Hsmall) as [? ->]; cbn [rbind] end).
  destruct (dumpCsv_total hist _ Hh Hsmall) as [csv Ecsv]. rewrite Ecsv. cbn [rbind]. eauto 10.
Qed.

(** A clock that gains a second between two checks: a budget of five seconds. *)
Example clock_of_seconds : clock_runs (λ m, Z.min (Z.of_nat m) 10 * 1000000000) (5 * 1000 * 1000 * 1000) 5.
Proof. split; try lia. Qed.
