(* ===== verification/Shutdown.v ===== *)
(** * How the trading client ends.

    The end of [main] of src/trading/trading_main.cpp and the functions it calls
    (src/trading/strategy/trade_engine.{h,cpp}): wait until the market has been
    quiet for 60 seconds, then stop the trade engine, which first waits until its
    two queues are empty.  Other threads run while the main thread sleeps
    ([while_asleep], TradingMain.v).

    [wait_silent_ends]: the wait ends once nothing happens any more, after at most
    seven more sleeps.  [te_stop_drained]: when [stop] returns, the responses and
    updates have all been consumed.

    The second half is about a RANDOM client from start to end, while the other
    threads deliver to the trade engine what the exchange sends ([delivers]), in
    whatever pieces and at whatever instants.  [orderly] is what the trade engine
    needs of it to get through, [watched] its state when it has processed some of
    it, and [random_program_ends]: the program then ends, having processed a
    beginning of what was delivered. *)

From Stdlib Require Import Ascii String.
From stdpp Require Import numbers strings pretty gmap list sorting.
From S2P Require Import Prelude TimeUtils Types MemPool LFQueue BookCore BookSpec BookRefine MarketOrderBook MEOrderBook MESpec MERefine MatchingEngine Requests MarketData Mirror Snapshot System Double Position RunEvents OrderManager Features Strategy Session FeedPath EngineRuns Parse BacktestMain TradingMain.

Open Scope Z_scope.
Local Coercion Z.of_nat : nat >-> Z.

(** Signed 64-bit, rounded towards zero. *)
Definition silentSeconds (now last_event_time : Z) : result Z :=
  let* d := int64 (now - last_event_time) in Ok (Z.quot d NANOS_TO_SECS).

Section Shutdown.
Context {F : Type} `{!Double F} `{!DoubleMath F} `{!DoubleCast F} {E : Type} `{!RequestSink E}.
Implicit Types (te : TradeEngine F E).

(** The loop of [main]: [now k] and [last k] are the clock and [last_event_time_]
    at the [k]-th test, [acts k] what the other threads do in the sleep after it. *)
Fixpoint wait_silent (n : nat) (now last : nat → Z) (acts : nat → list turn_input) (k : nat) te
    : result (nat * TradeEngine F E) :=
  match n with
  | O => Err OutOfFuel
  | S n =>
      let* s := silentSeconds (now k) (last k) in
      if s <? 60 then
        let* te := while_asleep (acts k) te in wait_silent n now last acts (S k) te
      else Ok (k, te)
  end.

(** [TradeEngine::stop]: the loop, then the positions are logged and the thread is
    told to end. *)
Fixpoint te_stop (n : nat) (acts : nat → list turn_input) (k : nat) te : result (TradeEngine F E) :=
  if (size_ (incoming_ogw_responses_ te) =? 0) && (size_ (incoming_md_updates_ te) =? 0) then Ok te
  else
    match n with
    | O => Err OutOfFuel
    | S n => let* te := while_asleep (acts k) te in te_stop n acts (S k) te
    end.

(** The clock over [n] tests: it stays in 63 bits and moves on by the ten seconds of
    a sleep, and nothing happens on the market after test [k0]. *)
Record clock_ok (n k0 : nat) (now last : nat → Z) : Prop := {
  ck_range : ∀ k, (k < n)%nat → 0 ≤ last k ≤ now k ∧ now k < 2 ^ 63;
  ck_sleep : ∀ k, (S k < n)%nat → now k + 10 * NANOS_TO_SECS ≤ now (S k);
  ck_silent : ∀ k, (k0 ≤ k < n)%nat → last k = last k0 }.

Lemma silent_after n k0 now last k s :
  clock_ok n k0 now last → (k < n)%nat → silentSeconds (now k) (last k) = Ok s → s < 60 → (k < k0 + 6)%nat.
Proof.
  intros [Hr Hs Hq] Hk. specialize (Hr k Hk) as Hck. unfold silentSeconds. rewrite int64_ok by lia. cbn [rbind]. intros [= <-] Hlt.
  destruct (decide (k < k0 + 6)%nat) as [|Hge]; [done|]. exfalso. apply Nat.nlt_ge in Hge.
  assert (∀ j : nat, (k0 + j < n)%nat → now k0 + 10 * NANOS_TO_SECS * j ≤ now (k0 + j)%nat) as Hj.
  { induction j as [|j IH]; [rewrite Nat.add_0_r; lia|]. intros Hj. specialize (Hs (k0 + j)%nat). rewrite Nat.add_succ_r in *.
    specialize (IH ltac:(lia)). specialize (Hs Hj). lia. }
  specialize (Hj (k - k0)%nat). replace (k0 + (k - k0))%nat with k in Hj by lia. specialize (Hj Hk).
  rewrite (Hq k) in Hlt, Hck by lia. specialize (Hr k0 ltac:(lia)).
  assert (60 ≤ Z.quot (now k - last k0) NANOS_TO_SECS); [|lia].
  apply Z.quot_le_lower_bound; [done|]. unfold NANOS_TO_SECS in *. nia.
Qed.

(** The wait ends, in a state that has whatever the turns of the other threads keep. *)
Lemma wait_silent_ends (P : nat → TradeEngine F E → Prop) n now last acts k0 te :
  clock_ok n k0 now last → (k0 + 7 ≤ n)%nat → P 0%nat te →
  (∀ k te, (k < n)%nat → P k te → ∃ te', while_asleep (acts k) te = Ok te' ∧ P (S k) te') →
  ∃ k te', wait_silent n now last acts 0 te = Ok (k, te') ∧ (k ≤ k0 + 6)%nat ∧ P k te'.
Proof.
  intros Hc Hn HP Hacts.
  assert (∀ m k te, (k + m = n)%nat → (k ≤ k0 + 6)%nat → P k te →
    ∃ k' te', wait_silent m now last acts k te = Ok (k', te') ∧ (k' ≤ k0 + 6)%nat ∧ P k' te') as H.
  { induction m as [|m IH]; intros k te1 Hkm Hk Hp; [lia|]. cbn [wait_silent]. destruct (ck_range _ _ _ _ Hc k) as [Hr1 Hr2]; [lia|].
    destruct (silentSeconds (now k) (last k)) as [s|] eqn:Es; [|unfold silentSeconds in Es; by rewrite int64_ok in Es by lia].
    cbn [rbind]. destruct (Z.ltb_spec s 60) as [Hs|Hs]; [|by exists k, te1].
    destruct (Hacts k te1) as (te2 & -> & Hp2); [lia|done|]. cbn [rbind].
    pose proof (silent_after n k0 now last k s Hc ltac:(lia) Es Hs). apply IH; [lia|lia|done]. }
  apply (H n 0%nat te); [done|lia|done].
Qed.

Lemma te_stop_drained n acts k te te' :
  te_stop n acts k te = Ok te' → size_ (incoming_ogw_responses_ te') = 0 ∧ size_ (incoming_md_updates_ te') = 0.
Proof.
  revert k te. induction n as [|n IH]; intros k te; cbn [te_stop]; destruct (_ && _) eqn:Hz.
  - intros [= <-]. lia.
  - done.
  - intros [= <-]. lia.
  - intros (te1 & _ & H)%bind_ok. by eapply IH.
Qed.
End Shutdown.

(** ** The whole program *)

Section Program.
Context {F : Type} `{!Double F} `{!DoubleMath F} `{!DoubleCast F} `{!DoubleAtof F} {E : Type} `{!RequestSink E}.
Implicit Types (te : TradeEngine F E).

(** [n] and [m] bound the two waits, [acts] is what the other threads do in each
    phase. *)
Definition trading_program (rand : Z → nat → Z) (acts wait_acts stop_acts : nat → list turn_input) (argv : list string)
    (mem : EngineMemory F) (start : Z) (client_requests : E) (n m : nat) (now last : nat → Z)
    : result (option (TradeEngine F E)) :=
  let* r := trading_main rand acts argv mem start client_requests in
  match r with
  | None => Ok None
  | Some te =>
      let* (_, te) := wait_silent n now last wait_acts 0 te in
      let* te := te_stop m stop_acts 0 te in
      Ok (Some te)
  end.

Lemma wait_silent_quiet n now last acts k te k' te' :
  has_algo te = false → wait_silent n now last acts k te = Ok (k', te') → quiet te te'.
Proof.
  revert k te. induction n as [|n IH]; intros k te Ha; cbn [wait_silent]; [done|].
  intros (s & _ & H)%bind_ok. destruct (s <? 60); [|by injection H as _ <-].
  apply bind_ok in H as (te1 & H1 & H2). apply while_asleep_quiet in H1; [|done].
  eapply quiet_trans; [exact H1|]. eapply IH; [|exact H2]. by rewrite (quiet_has_algo _ _ H1).
Qed.

Lemma te_stop_quiet n acts k te te' : has_algo te = false → te_stop n acts k te = Ok te' → quiet te te'.
Proof.
  revert k te. induction n as [|n IH]; intros k te Ha; cbn [te_stop]; (destruct (_ && _); [by intros [= <-]|]); [done|].
  intros (te1 & H1 & H2)%bind_ok. apply while_asleep_quiet in H1; [|done].
  eapply quiet_trans; [exact H1|]. eapply IH; [|exact H2]. by rewrite (quiet_has_algo _ _ H1).
Qed.

(** The RANDOM client from start to end: whatever the other threads do, what it has
    sent are the requests of the closed form, and its queues are empty. *)
Lemma random_program_sends rand c acts wait_acts stop_acts argv mem start (e : E) n m now last te :
  0 ≤ c < ME_MAX_NUM_CLIENTS → arg_i argv 1 = Ok c → arg argv 2 = Ok "RANDOM"%string →
  trading_program rand acts wait_acts stop_acts argv mem start e n m now last = Ok (Some te) →
  sent te = send_all (random_requests rand c) e
  ∧ size_ (incoming_ogw_responses_ te) = 0 ∧ size_ (incoming_md_updates_ te) = 0.
Proof.
  intros Hc H1 H2 (r & Hm & H)%bind_ok. destruct r as [te0|]; [|done].
  apply bind_ok in H as ([k te1] & Hw & H). apply bind_ok in H as (te2 & Hs & [= <-]).
  apply random_main_sends with (c := c) in Hm as [Hm Ha]; [|done..].
  apply wait_silent_quiet in Hw; [|done]. pose proof (te_stop_drained _ _ _ _ _ Hs) as Hd.
  apply te_stop_quiet in Hs; [|by rewrite (quiet_has_algo _ _ Hw)]. split; [|done].
  destruct Hw as [_ Hw], Hs as [_ Hs]. congruence.
Qed.
End Program.

(** ** What is delivered *)

(** The turns find, one after the other, the responses [rs] and the updates [us]. *)
Fixpoint delivers (acts : list turn_input) (rs : list MEClientResponse) (us : list MEMarketUpdate) : Prop :=
  match acts with
  | [] => rs = [] ∧ us = []
  | a :: acts => ∃ rs1 rs2 us1 us2, rs = rs1 ++ rs2 ∧ us = us1 ++ us2
      ∧ lfq_rep (ti_responses a) rs1 ∧ (length rs1 ≤ ti_n a)%nat
      ∧ lfq_rep (ti_updates a) us1 ∧ (length us1 ≤ ti_m a)%nat ∧ delivers acts rs2 us2
  end.

Lemma delivers_app acts1 acts2 rs us :
  delivers (acts1 ++ acts2) rs us →
  ∃ rs1 rs2 us1 us2, rs = rs1 ++ rs2 ∧ us = us1 ++ us2 ∧ delivers acts1 rs1 us1 ∧ delivers acts2 rs2 us2.
Proof.
  revert rs us. induction acts1 as [|a acts1 IH]; intros rs us; cbn [app delivers]; [intros H; by exists [], rs, [], us|].
  intros (r1 & r2 & u1 & u2 & -> & -> & Hr & Hn & Hu & Hm & Hd). destruct (IH _ _ Hd) as (r3 & r4 & u3 & u4 & -> & -> & H1 & H2).
  exists (r1 ++ r3), r4, (u1 ++ u3), u4. rewrite !(assoc_L (++)). split_and!; [done..| |done]. by exists r1, r3, u1, u3.
Qed.

(** Messages the trade engine gets through: tickers in range, positions that stay
    where their products fit 32 bits, and updates each book can apply. *)
Record orderly (rs : list MEClientResponse) (us : list MEMarketUpdate) : Prop := {
  or_tickers : Forall (λ r, 0 ≤ resp_ticker_id_ r < ME_MAX_TICKERS) rs;
  or_fills : ∀ t, 0 ≤ t < ME_MAX_TICKERS → fills_ok 0 (fills_on t rs);
  or_updates : Forall (λ u, 0 ≤ mu_ticker_id_ u < ME_MAX_TICKERS ∧ 0 ≤ mu_price_ u < price_band) us;
  or_feeds : ∀ t, 0 ≤ t < ME_MAX_TICKERS → ∃ ab, feeds (of_ticker t us) (mkAbs [] []) ab }.

Lemma fills_ok_app p rs1 rs2 : fills_ok p (rs1 ++ rs2) ↔ fills_ok p rs1 ∧ fills_ok (p + net_qty rs1) rs2.
Proof.
  revert p. induction rs1 as [|r rs1 IH]; intros p; cbn [app fills_ok].
  - change (net_qty []) with 0. rewrite Z.add_0_r. tauto.
  - rewrite IH. change (net_qty (r :: rs1)) with (signed_qty r + net_qty rs1). rewrite Z.add_assoc. tauto.
Qed.

Lemma fills_ok_end p rs : Z.abs p ≤ POSITION_SAFE → fills_ok p rs → Z.abs (p + net_qty rs) ≤ POSITION_SAFE.
Proof.
  revert p. induction rs as [|r rs IH]; intros p Hp; cbn [fills_ok]; [change (net_qty []) with 0; by rewrite Z.add_0_r|].
  intros [Hf Hfs]. change (net_qty (r :: rs)) with (signed_qty r + net_qty rs). rewrite Z.add_assoc.
  apply IH; [exact (fo_new _ _ Hf)|exact Hfs].
Qed.

Lemma orderly_app_inv rs1 rs2 us1 us2 : orderly (rs1 ++ rs2) (us1 ++ us2) → orderly rs1 us1.
Proof.
  intros [H1 H2 H3 H4]. apply Forall_app in H1 as [H1 _], H3 as [H3 _]. split; [done| |done|].
  - intros t Ht. specialize (H2 t Ht). rewrite fills_on_app, fills_ok_app in H2. apply H2.
  - intros t Ht. destruct (H4 t Ht) as [ab Hf]. rewrite of_ticker_app in Hf. apply feeds_split in Hf as (ab1 & Hf & _). by exists ab1.
Qed.

Lemma feeds_band us ab ab' :
  band_book ab → Forall (λ u, 0 ≤ mu_price_ u < price_band) us → feeds us ab ab' → band_book ab'.
Proof.
  intros Hb Hu. revert ab Hb. induction Hu as [|u us Hu _ IH]; intros ab Hb; cbn [feeds]; [by intros <-|].
  intros [Hv Hf]. eapply IH; [|exact Hf]. by apply spec_update_band.
Qed.

Section Watched.
Context {F : Type} `{!Double F} `{!DoubleMath F} `{!DoubleCast F} `{!DoubleAtof F} {E : Type} `{!RequestSink E}.
Implicit Types (te : TradeEngine F E).

(** The trade engine when it has processed [rs] and [us]. *)
Record watched (rs : list MEClientResponse) (us : list MEMarketUpdate) te : Prop := {
  wd_watching : watching te;
  wd_positions : ∀ t, 0 ≤ t → te_position t te = net_qty (fills_on t rs);
  wd_books : ∀ t mb, 0 ≤ t → ticker_order_book_ te !! Z.to_nat t = Some mb →
    ∃ ab, mkt_rep mb ab ∧ feeds (of_ticker t us) (mkAbs [] []) ab;
  wd_responses : lfq_rep (incoming_ogw_responses_ te) [];
  wd_updates : lfq_rep (incoming_md_updates_ te) [] }.

Lemma te_drain_responses_engine n te te' :
  te_drain_responses n te = Ok te' → feature_engine_ te' = feature_engine_ te ∧ algo_ te' = algo_ te.
Proof.
  revert te. induction n as [|n IH]; intros te; cbn [te_drain_responses]; destruct (getNextToRead _); try done; try (by intros [= <-]).
  intros (te1 & H1 & (q & _ & [-> ->]%IH)%bind_ok)%bind_ok. unfold te_onOrderUpdate in H1.
  destruct (has_algo te); [by apply bind_ok in H1 as (t & _ & [= <-])|].
  case_bool_decide; [by apply bind_ok in H1 as (k & _ & [= <-])|by injection H1 as <-].
Qed.

(** A turn processes what it finds. *)
Lemma te_turn_watched fuel n m clock rs us rs1 us1 te qr qu :
  watched rs us te → orderly (rs ++ rs1) (us ++ us1) → lfq_rep qr rs1 → (length rs1 ≤ n)%nat →
  lfq_rep qu us1 → (length us1 ≤ m)%nat →
  ∃ te', te_turn fuel n m clock (set_updates qu (set_responses qr te)) = Ok te' ∧ watched (rs ++ rs1) (us ++ us1) te'.
Proof.
  intros [Hw Hp Hb _ _] Ho Hqr Hn Hqu Hm. pose proof Ho as [O1 O2 O3 O4]. apply Forall_app in O1 as [_ O1].
  pose proof Hw as [W1 W2 W3 W4 W5]. set (te0 := set_updates qu (set_responses qr te)).
  destruct (te_drain_responses_ok rs1 n te0) as (te1 & E1 & Hsz & Hq1 & Hp1); [done..| |].
  { intros t Ht. specialize (O2 t Ht). rewrite fills_on_app, fills_ok_app in O2. change (te_position t te0) with (te_position t te).
    rewrite (Hp t) by lia. apply O2. }
  destruct (te_drain_responses_frame _ _ _ E1) as [Eb1 Eu1]. destruct (te_drain_responses_engine _ _ _ E1) as [Ef1 Ea1].
  assert (∀ t, 0 ≤ t → te_position t te1 = net_qty (fills_on t (rs ++ rs1))) as Hpos.
  { intros t Ht. rewrite Hp1, fills_on_app, net_qty_app by done. change (te_position t te0) with (te_position t te). by rewrite Hp. }
  assert (watching te1) as Hw1.
  { split; [unfold has_algo; rewrite Ea1; exact W1|by rewrite Ef1|done|by rewrite Eb1|].
    apply Forall_lookup. intros i p Hi. pose proof (lookup_lt_Some _ _ _ Hi) as Hlt. destruct Hsz as (_ & Hl & _). rewrite Hl in Hlt.
    specialize (O2 i ltac:(lia)). apply fills_ok_end in O2; [|unfold POSITION_SAFE; lia]. rewrite Z.add_0_l, <- Hpos in O2 by lia.
    unfold te_position in O2. rewrite Nat2Z.id, Hi in O2. cbn in O2. unfold POSITION_SAFE in O2. lia. }
  assert (∀ t mb, 0 ≤ t → ticker_order_book_ te1 !! Z.to_nat t = Some mb → ∃ ab ab', mkt_rep mb ab ∧ band_book ab
    ∧ feeds (of_ticker t us) (mkAbs [] []) ab ∧ feeds (of_ticker t us1) ab ab') as Hfed.
  { intros t mb Ht. rewrite Eb1. intros Hmb. destruct (Hb t mb Ht Hmb) as (ab & Hr & Hf).
    pose proof (lookup_lt_Some _ _ _ Hmb) as Hlt. change (ticker_order_book_ te0) with (ticker_order_book_ te) in Hlt. rewrite W4 in Hlt.
    destruct (O4 t ltac:(lia)) as [ab2 Hf2]. rewrite of_ticker_app in Hf2. destruct (feeds_split _ _ _ _ Hf2) as (ab1 & Hfa & Hfb).
    assert (ab1 = ab) as ->.
    { clear -Hf Hfa. revert Hf Hfa. generalize (mkAbs [] [] : absbook MarketOrder). induction (of_ticker t us) as [|u l IH]; intros a0; cbn [feeds];
        [congruence|]. intros [_ H1] [_ H2]. by eapply IH. }
    exists ab, ab2. split_and!; [done| |done|done]. eapply feeds_band; [| |exact Hf]; [by intros x ?%elem_of_nil|].
    apply Forall_app in O3 as [O3 _]. eapply Forall_sublist; [apply sublist_filter|]. eapply Forall_impl; [exact O3|]. by intros u []. }
  assert (lfq_rep (incoming_md_updates_ te1) us1) as Hqu1 by (by rewrite Eu1).
  apply Forall_app in O3 as [_ O3].
  destruct (te_drain_updates_total fuel m clock us1 te1 Hw1 Hqu1 Hm O3) as (te2 & E2 & Hw2 & Hq2).
  { intros t mb Ht Hmb. destruct (Hfed t mb Ht Hmb) as (ab & ab' & ? & ? & _ & ?). by exists ab, ab'. }
  destruct (te_drain_updates_run fuel m clock us1 te1 te2 Hqu1 E2) as (_ & _ & [_ T2 _ _ _ _] & Er).
  exists te2. unfold te_turn. rewrite E1. cbn [rbind]. split; [done|]. split; [done| | |by rewrite Er|done].
  - intros t Ht. rewrite <- Hpos by done. unfold positions in T2. unfold te_position. by rewrite <- !list_lookup_fmap, T2.
  - intros t mb2 Ht Hmb2. pose proof (lookup_lt_Some _ _ _ Hmb2) as Hlt. rewrite (wa_books _ Hw2), <- (wa_books _ Hw1) in Hlt.
    destruct (lookup_lt_is_Some_2 _ _ Hlt) as [mb Hmb]. destruct (Hfed t mb Ht Hmb) as (ab & ab' & Hr & _ & Hf & Hf1).
    destruct (te_drain_updates_books fuel m clock us1 te1 te2 t mb Hqu1) as (mb' & Em & Hmb'); try done.
    { eapply Forall_impl; [exact O3|]. intros u []. lia. }
    rewrite Hmb2 in Hmb'. injection Hmb' as <-. destruct (feeds_replay _ _ _ _ Hf1 Hr) as (mb3 & Em3 & Hr3).
    rewrite Em in Em3. injection Em3 as <-. exists ab'. split; [done|]. rewrite of_ticker_app. by eapply feeds_app.
Qed.

Lemma while_asleep_watched acts rs us rs1 us1 te :
  delivers acts rs1 us1 → watched rs us te → orderly (rs ++ rs1) (us ++ us1) →
  ∃ te', while_asleep acts te = Ok te' ∧ watched (rs ++ rs1) (us ++ us1) te'.
Proof.
  revert rs us rs1 us1 te. induction acts as [|a acts IH]; intros rs us rs1 us1 te; cbn [delivers while_asleep].
  - intros [-> ->] Hw _. rewrite !app_nil_r. by exists te.
  - intros (r1 & r2 & u1 & u2 & -> & -> & Hr & Hn & Hu & Hm & Hd) Hw Ho. rewrite !(assoc_L (++)) in Ho |- *.
    destruct (te_turn_watched (ti_fuel a) (ti_n a) (ti_m a) (ti_clock a) rs us r1 u1 te (ti_responses a) (ti_updates a))
      as (te1 & E1 & Hw1); [done|by eapply orderly_app_inv|done..|].
    rewrite E1. cbn [rbind]. by apply IH.
Qed.

(** Sending a request changes none of it. *)
Lemma te_send_watched r rs us te : watched rs us te → watched rs us (te_send r te).
Proof. intros [[W1 W2 (S1 & S2 & S3 & S4) W4 W5] Hp Hb Hr Hu]. split; [split; [done..|by split_and!|done|done]|done..]. Qed.

(** ** The program *)

Lemma watched_new client_id algo_type (cfgs : list (TradeEngineCfg F)) mem now (e : E) :
  length cfgs = Z.to_nat ME_MAX_TICKERS → algo_type ≠ MAKER → algo_type ≠ TAKER →
  Forall (λ cfg, cfg_use_vpin_ cfg = false) cfgs → all_zeroed (em_books mem) →
  ∃ te, TradeEngine_new client_id algo_type cfgs mem now e (LFQueue_new ME_MAX_CLIENT_UPDATES) (LFQueue_new ME_MAX_MARKET_UPDATES)
    = Ok te ∧ watched [] [] te.
Proof.
  intros Hl Hm Ht Hv Hz.
  destruct (TradeEngine_new_ok client_id algo_type cfgs mem now e (LFQueue_new ME_MAX_CLIENT_UPDATES) (LFQueue_new ME_MAX_MARKET_UPDATES) Hl)
    as (te & cfg0 & Ete & _ & _ & _ & Hb & Hu & Hr & Hp & _).
  exists te. split; [done|]. split; [by eapply watching_new| | |by rewrite Hr; apply lfq_rep_new|by rewrite Hu; apply lfq_rep_new].
  - intros t _. unfold te_position. rewrite Hp. change (net_qty (fills_on t [])) with 0.
    destruct (replicate _ _ !! _) as [p|] eqn:Ep; [|done]. by apply lookup_replicate in Ep as [-> _].
  - intros t mb H0. rewrite Hb, market_books_fresh by done. intros [_ ->]%market_books_lookup_inv; [|done].
    exists (mkAbs [] []). split; [apply mkt_rep_new|done].
Qed.

(** The rounds from [i] on. *)
Lemma random_loop_watched (rand : nat → Z) acts c n i rs us rs1 us1 te :
  0 ≤ c < ME_MAX_NUM_CLIENTS → (i + n ≤ kRandomOrders)%nat →
  delivers (concat (acts <$> seq (2 * i + 1) (2 * n))) rs1 us1 → watched rs us te → orderly (rs ++ rs1) (us ++ us1) →
  ∃ te', random_loop n rand acts c (base_prices rand) i (8 + 5 * i) (c * 1000 + i) (random_new rand c <$> seq 0 i) te = Ok te'
    ∧ watched (rs ++ rs1) (us ++ us1) te'.
Proof.
  intros Hc. revert i rs us rs1 us1 te. induction n as [|n IH]; intros i rs us rs1 us1 te Hi Hd Hw Ho; cbn [random_loop].
  { destruct Hd as [-> ->]. rewrite !app_nil_r. by exists te. }
  rewrite random_round_eq by (done || lia). replace (2 * S n)%nat with (S (S (2 * n))) in Hd by lia.
  change (seq (2 * i + 1) (S (S (2 * n)))) with ((2 * i + 1)%nat :: S (2 * i + 1) :: seq (S (S (2 * i + 1))) (2 * n)) in Hd.
  cbn [fmap list_fmap concat] in Hd. replace (S (2 * i + 1)) with (2 * i + 2)%nat in Hd by lia.
  replace (S (2 * i + 2)) with (2 * S i + 1)%nat in Hd by lia.
  apply delivers_app in Hd as (r1 & r' & u1 & u' & -> & -> & Hd1 & Hd).
  apply delivers_app in Hd as (r2 & r3 & u2 & u3 & -> & -> & Hd2 & Hd3). rewrite !(assoc_L (++)) in Ho |- *.
  destruct (while_asleep_watched (acts (2 * i + 1)%nat) rs us r1 u1 (te_send (random_new rand c i) te)) as (te1 & E1 & Hw1);
    [done|by apply te_send_watched|by eapply orderly_app_inv, orderly_app_inv|].
  rewrite E1. cbn [rbind].
  destruct (while_asleep_watched (acts (2 * i + 2)%nat) (rs ++ r1) (us ++ u1) r2 u2
    (te_send (as_cancel (random_new rand c (Z.to_nat (rand (8 + 5 * i + 4)%nat `mod` (i + 1))))) te1)) as (te2 & E2 & Hw2);
    [done|by apply te_send_watched|by eapply orderly_app_inv|].
  rewrite E2. cbn [rbind]. replace (8 + 5 * i + 5)%nat with (8 + 5 * S i)%nat by lia. apply IH; [lia|done..].
Qed.

Lemma random_main_runs rand c prog acts mem now (e : E) rs us :
  0 ≤ c < ME_MAX_NUM_CLIENTS → all_zeroed (em_books mem) → orderly rs us →
  delivers (concat (acts <$> seq 0 (2 * kRandomOrders + 1))) rs us →
  ∃ te, trading_main (F:=F) rand acts [prog; pretty c; "RANDOM"%string] mem now e = Ok (Some te) ∧ watched rs us te.
Proof.
  intros Hc Hz Ho Hd. unfold trading_main. rewrite bool_decide_false by (simpl; lia). unfold arg_i, arg.
  cbn [lookup list_lookup rbind]. unfold atoi. rewrite strtoll_pretty.
  assert ((- 2 ^ 31 <=? c) && (c <? 2 ^ 31) = true) as -> by (unfold ME_MAX_NUM_CLIENTS in *; lia). cbn [rbind].
  assert (u32 c = c) as -> by (unfold u32, wrap, ME_MAX_NUM_CLIENTS in *; rewrite Z.mod_small; lia).
  change (stringToAlgoType "RANDOM") with RANDOM. rewrite bool_decide_true by done.
  change (trading_cfgs _) with (Ok (replicate (Z.to_nat ME_MAX_TICKERS) (TradeEngineCfg_default (F:=F)))). cbn [rbind].
  destruct (watched_new c RANDOM (replicate (Z.to_nat ME_MAX_TICKERS) TradeEngineCfg_default) mem now e) as (te0 & -> & Hw);
    [apply length_replicate|done|done|by apply Forall_replicate|done|]. cbn [rbind].
  rewrite Nat.add_comm in Hd. change (seq 0 (1 + 2 * kRandomOrders)) with (0%nat :: seq 1 (2 * kRandomOrders)) in Hd.
  cbn [fmap list_fmap concat] in Hd. apply delivers_app in Hd as (r1 & r2 & u1 & u2 & -> & -> & Hd1 & Hd2).
  destruct (while_asleep_watched (acts 0%nat) [] [] r1 u1 te0 Hd1 Hw) as (te1 & -> & Hw1); [by eapply orderly_app_inv|]. cbn [rbind app] in *.
  rewrite random_strategy_eq by done.
  destruct (random_loop_watched (rand c) acts c kRandomOrders 0 r1 u1 r2 u2 te1 Hc) as (te2 & E2 & Hw2); [lia|done..|].
  rewrite E2. by exists te2.
Qed.

(** The wait and [stop] after it, which finds its queues empty. *)
Lemma random_program_ends rand c prog acts wait_acts stop_acts mem start (e : E) n m now last k0 rs us :
  0 ≤ c < ME_MAX_NUM_CLIENTS → all_zeroed (em_books mem) → orderly rs us → clock_ok n k0 now last → (k0 + 7 ≤ n)%nat →
  delivers (concat (acts <$> seq 0 (2 * kRandomOrders + 1)) ++ concat (wait_acts <$> seq 0 n)) rs us →
  ∃ te rs1 rs2 us1 us2,
    trading_program (F:=F) rand acts wait_acts stop_acts [prog; pretty c; "RANDOM"%string] mem start e n m now last = Ok (Some te)
    ∧ rs = rs1 ++ rs2 ∧ us = us1 ++ us2 ∧ watched rs1 us1 te.
Proof.
  intros Hc Hz Ho Hck Hn Hd. apply delivers_app in Hd as (r1 & r2 & u1 & u2 & -> & -> & Hd1 & Hd2).
  destruct (random_main_runs rand c prog acts mem start e r1 u1 Hc Hz) as (te1 & Em & Hw1); [by eapply orderly_app_inv|done|].
  unfold trading_program. rewrite Em. cbn [rbind].
  destruct (wait_silent_ends (λ k te, ∃ ra rb ua ub, r1 ++ r2 = ra ++ rb ∧ u1 ++ u2 = ua ++ ub ∧ watched ra ua te
    ∧ delivers (concat (wait_acts <$> seq k (n - k))) rb ub) n now last wait_acts k0 te1 Hck Hn) as (k & te2 & Ew & _ & ra & rb & ua & ub & Er & Eu & Hw2 & _).
  - rewrite Nat.sub_0_r. by exists r1, r2, u1, u2.
  - intros k te Hk (ra & rb & ua & ub & Er & Eu & Hw & Hd). replace (n - k)%nat with (S (n - S k)) in Hd by lia.
    cbn [seq fmap list_fmap concat] in Hd. apply delivers_app in Hd as (rc & rd & uc & ud & -> & -> & Hdc & Hdd).
    rewrite (assoc_L (++)) in Er. rewrite (assoc_L (++)) in Eu. rewrite Er, Eu in Ho.
    destruct (while_asleep_watched (wait_acts k) ra ua rc uc te Hdc Hw) as (te' & E' & Hw'); [by eapply orderly_app_inv|].
    exists te'. split; [done|]. by exists (ra ++ rc), rd, (ua ++ uc), ud.
  - rewrite Ew. cbn [rbind]. exists te2, ra, rb, ua, ub. split; [|done].
    assert (te_stop m stop_acts 0 te2 = Ok te2) as ->; [|done].
    pose proof (proj1 (lfq_rep_size _ _ (wd_responses _ _ _ Hw2))) as Z1. pose proof (proj1 (lfq_rep_size _ _ (wd_updates _ _ _ Hw2))) as Z2.
    cbn [length] in Z1, Z2. destruct m; cbn [te_stop]; by rewrite Z1, Z2.
Qed.
End Watched.

(** What the exchange sends to a client in a plain run is orderly, and so is every
    beginning of it. *)
Lemma exchange_orderly reqs c rs us :
  let spec := engine_spec_run reqs fresh_books in
  plain_run reqs → 1 + length reqs < ME_MAX_ORDER_IDS →
  rs `prefix_of` own c (privates spec.2) → us `prefix_of` publics spec.2 →
  (∀ t, 0 ≤ t < ME_MAX_TICKERS → positions_safe 0 (fills_on t rs)) → orderly rs us.
Proof.
  intros spec Hpl Hn [rs' Hrs] [us' Hus] Hsafe.
  pose proof (plain_run_privates reqs Hpl) as Hr. pose proof (plain_run_publics reqs Hpl) as Hu. fold fresh_books spec in Hr, Hu.
  assert (Forall response_plain (own c (privates spec.2))) as Ho by (eapply Forall_sublist; [apply sublist_filter|done]).
  rewrite Hrs in Ho. apply Forall_app in Ho as [Ho _]. rewrite Hus in Hu. apply Forall_app in Hu as [Hu _]. split.
  - eapply Forall_impl; [exact Ho|]. by intros r [].
  - intros t Ht. apply positions_safe_fills; [|by apply Hsafe]. apply Forall_forall. intros r [[Hf _] Hin]%list_elem_of_filter.
    rewrite Forall_forall in Ho. split; [by apply Ho|done].
  - eapply Forall_impl; [exact Hu|]. by intros u [].
  - intros t Ht. destruct (fresh_engine_feeds reqs (plain_run_valid _ Hpl) (plain_tickers _ Hpl) Hn) as [_ Hf]. specialize (Hf t Ht).
    fold spec in Hf. rewrite Hus, of_ticker_app in Hf. apply feeds_split in Hf as (ab & Hf & _). by exists ab.
Qed.
