(* ===== verification/Lifecycle.v ===== *)
(** * Starting and stopping.

    How the two processes start their components and take them down again: the
    [start] and [stop] members and the destructors of the components
    (src/exchange/, src/trading/), the startup and the end of the two [main]
    functions and their signal handlers.

    The main thread runs a program of instructions ([instr]); a component's thread
    looks at its flag [run_] at the latest [turn] milliseconds after it last did, and
    between two looks it may use its objects at any time.  Time passes, threads look
    and the main thread goes on in any order ([act_on]); a signal is taken by the main
    thread and replaces its program by the handler's, once.  A destructor frees its
    members together with the object ([Free]).

    [check_main] is an executable check of a program: it follows the states of the
    threads and how long ago they were told to stop.  [process_sound]: a program that
    passes the check never frees what a thread still uses, never touches a freed
    object, and ends with all threads gone. *)

From stdpp Require Import functions numbers list relations.
From S2P Require Import Prelude.

Open Scope Z_scope.

(** The components, as objects and as owners of a thread. *)
Inductive component :=
| MainLogger
| CMatchingEngine | CPublisher | CSynthesizer | COrderServer
| CTradeEngine | CConsumer | CGateway.

#[export] Instance component_eq_dec : EqDecision component.
Proof. solve_decision. Defined.

Definition components : list component :=
  [MainLogger; CMatchingEngine; CPublisher; CSynthesizer; COrderServer; CTradeEngine; CConsumer; CGateway].

Lemma in_components o : In o components.
Proof. destruct o; cbn; tauto. Qed.

(** The objects the thread of [t] uses: its own component, and the thread of the
    synthesizer the queue that is a member of the publisher. *)
Definition uses (t o : component) : bool :=
  bool_decide (t = o) || (bool_decide (t = CSynthesizer) && bool_decide (o = CPublisher)).

(** What the main thread does: a pointer is set, a thread is started, [run_] is
    reset, a sleep of some milliseconds, a wait for something else that involves an
    object, the members of an object are destroyed and its memory is freed, a
    pointer is reset, [exit]. *)
Inductive instr :=
| New (o : component)
| Start (t : component)
| Stop (t : component)
| Sleep (ms : Z)
| Wait (o : component)
| Free (o : component)
| Null (o : component)
| Exit.

(** ** The components *)

(** [createAndStartThread] sleeps for a second. *)
Definition start_thread (t : component) : list instr := [Start t; Sleep 1000].

Definition MatchingEngine_start : list instr := start_thread CMatchingEngine.
Definition MatchingEngine_stop : list instr := [Stop CMatchingEngine].
Definition MatchingEngine_dtor : list instr := [Stop CMatchingEngine; Sleep 1000].

Definition SnapshotSynthesizer_start : list instr := start_thread CSynthesizer.
Definition SnapshotSynthesizer_stop : list instr := [Stop CSynthesizer].
Definition SnapshotSynthesizer_dtor : list instr := SnapshotSynthesizer_stop.

Definition MarketDataPublisher_start : list instr := start_thread CPublisher ++ SnapshotSynthesizer_start.
Definition MarketDataPublisher_stop : list instr := [Stop CPublisher] ++ SnapshotSynthesizer_stop.
Definition MarketDataPublisher_dtor : list instr :=
  MarketDataPublisher_stop ++ [Sleep 5000] ++ SnapshotSynthesizer_dtor ++ [Free CSynthesizer; Null CSynthesizer].

Definition OrderServer_start : list instr := start_thread COrderServer.
Definition OrderServer_stop : list instr := [Stop COrderServer].
Definition OrderServer_dtor : list instr := OrderServer_stop ++ [Sleep 1000].

Definition TradeEngine_start : list instr := start_thread CTradeEngine.
(** The wait is for the two queues to drain. *)
Definition TradeEngine_stop : list instr := [Wait CTradeEngine; Stop CTradeEngine].
Definition TradeEngine_dtor : list instr := [Stop CTradeEngine; Sleep 1000].

Definition MarketDataConsumer_start : list instr := start_thread CConsumer.
Definition MarketDataConsumer_stop : list instr := [Stop CConsumer].
Definition MarketDataConsumer_dtor : list instr := MarketDataConsumer_stop ++ [Sleep 5000].

(** [connect] comes before the thread. *)
Definition OrderGateway_start : list instr := [Wait CGateway] ++ start_thread CGateway.
Definition OrderGateway_stop : list instr := [Stop CGateway].
Definition OrderGateway_dtor : list instr := OrderGateway_stop ++ [Sleep 5000].

(** ** The two processes *)

(** Code under [if (pointer)], and [delete pointer; pointer = nullptr]. *)
Definition when (set : component → bool) (o : component) (rest : list instr) : list instr := if set o then rest else [].
Definition delete_ (set : component → bool) (o : component) (dtor : list instr) : list instr :=
  when set o (dtor ++ [Free o]) ++ [Null o].

Definition exchange_startup : list instr :=
  [New MainLogger; New CMatchingEngine] ++ MatchingEngine_start
  ++ [New CSynthesizer; New CPublisher] ++ MarketDataPublisher_start
  ++ [New COrderServer] ++ OrderServer_start.

Definition exchange_signal_handler (set : component → bool) : list instr :=
  [Sleep 10000]
  ++ delete_ set MainLogger []
  ++ delete_ set CMatchingEngine MatchingEngine_dtor
  ++ delete_ set CPublisher MarketDataPublisher_dtor
  ++ delete_ set COrderServer OrderServer_dtor
  ++ [Sleep 10000; Exit].

Definition trading_startup : list instr :=
  [New MainLogger; New CTradeEngine] ++ TradeEngine_start
  ++ [New CGateway] ++ OrderGateway_start
  ++ [New CConsumer] ++ MarketDataConsumer_start
  ++ [Sleep 10000].

(** The wait for a quiet market, which asks the trade engine; the orders of the RANDOM
    strategy are in TradingMain.v and only touch the trade engine too. *)
Definition trading_session : list instr := [Wait CTradeEngine].

Definition trading_end : list instr :=
  let set := λ _ : component, true in
  TradeEngine_stop ++ MarketDataConsumer_stop ++ OrderGateway_stop
  ++ [Sleep 10000]
  ++ delete_ set MainLogger []
  ++ delete_ set CTradeEngine TradeEngine_dtor
  ++ delete_ set CConsumer MarketDataConsumer_dtor
  ++ delete_ set CGateway OrderGateway_dtor
  ++ [Sleep 10000; Exit].

Definition trading_signal_handler (set : component → bool) : list instr :=
  when set CTradeEngine TradeEngine_stop
  ++ when set CConsumer MarketDataConsumer_stop
  ++ when set CGateway OrderGateway_stop
  ++ [Sleep 2000]
  ++ delete_ set CTradeEngine TradeEngine_dtor
  ++ delete_ set CConsumer MarketDataConsumer_dtor
  ++ delete_ set CGateway OrderGateway_dtor
  ++ delete_ set MainLogger []
  ++ [Sleep 1000; Exit].

(** ** Running a process *)

(** [p_thread t] is when the thread of [t] last found [run_] set, if it is alive. *)
Record process := mkProcess {
  p_now : Z;
  p_run : component → bool;
  p_thread : component → option Z;
  p_set : component → bool;
  p_freed : list component;
  p_prog : list instr;
  p_handling : bool }.

Definition process_new (prog : list instr) : process :=
  mkProcess 0 (λ _, false) (λ _, None) (λ _, false) [] prog false.

Inductive choice := Tick (ms : Z) | Look (t : component) | Exec | Interrupt.

Definition sleep_down (ms : Z) (rest : list instr) : list instr :=
  match rest with
  | Sleep n :: rest => Sleep (Z.max 0 (n - ms)) :: rest
  | _ => rest
  end.

Definition touched (i : instr) : option component :=
  match i with Start o | Stop o | Wait o | Free o => Some o | _ => None end.

(** What is known of a thread: it does not run, it runs, or it was told to stop at
    least [k] milliseconds ago. *)
Inductive status := Idle | Active | Stopping (k : Z).

#[export] Instance status_eq_dec : EqDecision status.
Proof. solve_decision. Defined.

Section Process.
Context (turn : Z) (signals : bool) (handler : (component → bool) → list instr).
Implicit Types (p : process) (rest : list instr) (o t : component).

(** The next instruction of the main thread.  [exit] ends the process. *)
Definition exec (p : process) : option process :=
  let '(mkProcess now run thread set freed prog handling) := p in
  match prog with
  | New o :: rest => Some (mkProcess now run thread (<[o := true]> set) freed rest handling)
  | Start t :: rest => Some (mkProcess now (<[t := true]> run) (<[t := Some now]> thread) set freed rest handling)
  | Stop t :: rest => Some (mkProcess now (<[t := false]> run) thread set freed rest handling)
  | Sleep n :: rest => if 0 <? n then None else Some (mkProcess now run thread set freed rest handling)
  | Wait _ :: rest => Some (mkProcess now run thread set freed rest handling)
  | Free o :: rest => Some (mkProcess now run thread set (o :: freed) rest handling)
  | Null o :: rest => Some (mkProcess now run thread (<[o := false]> set) freed rest handling)
  | Exit :: _ | [] => None
  end.

Definition within_turn (now : Z) (thread : component → option Z) : bool :=
  forallb (λ t, match thread t with Some last => now <=? last + turn | None => true end) components.

Definition act_on (c : choice) (p : process) : option process :=
  let '(mkProcess now run thread set freed prog handling) := p in
  match c with
  | Tick ms =>
      if (0 <? ms) && within_turn (now + ms) thread
      then Some (mkProcess (now + ms) run thread set freed (sleep_down ms prog) handling) else None
  | Look t =>
      match thread t with
      | Some _ => Some (mkProcess now run (<[t := if run t then Some now else None]> thread) set freed prog handling)
      | None => None
      end
  | Exec => exec p
  | Interrupt =>
      if signals && negb handling then Some (mkProcess now run thread set freed (handler set) true) else None
  end.

Definition process_step (p p' : process) : Prop := ∃ c, act_on c p = Some p'.

Fixpoint drive (cs : list choice) (p : process) : option process :=
  match cs with
  | [] => Some p
  | c :: cs => match act_on c p with Some p => drive cs p | None => None end
  end.

Lemma drive_run cs p p' : drive cs p = Some p' → rtc process_step p p'.
Proof.
  revert p. induction cs as [|c cs IH]; intros p; cbn [drive]; [by intros [= ->]|].
  destruct (act_on c p) as [p1|] eqn:E; [|done]. intros H. eapply rtc_l; [by exists c|by apply IH].
Qed.

(** Nothing freed is used any more, and [exit] is called without threads. *)
Record process_ok (p : process) : Prop := {
  ok_threads : ∀ t o last, p_thread p t = Some last → uses t o = true → o ∉ p_freed p;
  ok_once : NoDup (p_freed p);
  ok_touch : ∀ i rest o, p_prog p = i :: rest → touched i = Some o → o ∉ p_freed p;
  ok_exit : ∀ rest t, p_prog p = Exit :: rest → p_thread p t = None }.

(** ** The check *)

Implicit Types (st : component → status).

Definition quiet (s : status) : bool := match s with Idle => true | Active => false | Stopping k => turn <? k end.
Definition slept (n : Z) (s : status) : status := match s with Stopping k => Stopping (k + n) | _ => s end.
Definition stopped (s : status) : status := match s with Active => Stopping 0 | _ => s end.

(** [extra] is checked at every point of the program. *)
Fixpoint check_with (extra : (component → status) → (component → bool) → list component → bool)
    st (set : component → bool) (freed : list component) (prog : list instr) : bool :=
  extra st set freed &&
  match prog with
  | [] => true
  | i :: rest =>
      match touched i with Some o => bool_decide (o ∉ freed) | None => true end &&
      match i with
      | New o => check_with extra st (<[o := true]> set) freed rest
      | Null o => check_with extra st (<[o := false]> set) freed rest
      | Start t =>
          bool_decide (st t = Idle) && forallb (λ o, negb (uses t o) || bool_decide (o ∉ freed)) components
          && check_with extra (<[t := Active]> st) set freed rest
      | Stop t => check_with extra (<[t := stopped (st t)]> st) set freed rest
      | Sleep n => check_with extra (λ t, slept (Z.max 0 n) (st t)) set freed rest
      | Wait _ => check_with extra st set freed rest
      | Free o =>
          forallb (λ t, negb (uses t o) || quiet (st t)) components && check_with extra st set (o :: freed) rest
      | Exit => forallb (λ t, quiet (st t)) components
      end
  end.

Definition check_prog st set freed prog : bool := check_with (λ _ _ _, true) st set freed prog.

(** A program that may be interrupted anywhere. *)
Definition check_main st set freed prog : bool :=
  check_with (λ st set freed, check_prog st set freed (handler set)) st set freed prog.

Definition check_process (prog : list instr) : bool :=
  (if signals then check_main else check_prog) (λ _, Idle) (λ _, false) [] prog.
End Process.

(** ** The check is sound *)

Section Sound.
Context (turn : Z) (signals : bool) (handler : (component → bool) → list instr).
Hypothesis turn_nonneg : 0 ≤ turn.
Implicit Types (p : process) (rest prog : list instr) (o t : component) (st : component → status).

Definition later (s s' : status) : Prop :=
  match s, s' with
  | Idle, Idle | Active, Active => True
  | Stopping k, Stopping k' => k ≤ k'
  | _, _ => False
  end.

Definition all_later st st' : Prop := ∀ t, later (st t) (st' t).

Lemma later_refl s : later s s.
Proof. destruct s; cbn; lia || done. Qed.

Lemma all_later_insert t s s' st st' : later s s' → all_later st st' → all_later (<[t := s]> st) (<[t := s']> st').
Proof.
  intros H1 H2 t'. destruct (decide (t' = t)) as [->|Hne]; [by rewrite !fn_lookup_insert|by rewrite !fn_lookup_insert_ne].
Qed.

Lemma quiet_later s s' : later s s' → quiet turn s = true → quiet turn s' = true.
Proof. destruct s, s'; cbn; rewrite ?Z.ltb_lt; try done; lia. Qed.

Definition grows (extra : (component → status) → (component → bool) → list component → bool) : Prop :=
  ∀ st st' set freed, all_later st st' → extra st set freed = true → extra st' set freed = true.

(** More time since the stops never hurts. *)
Lemma check_with_later extra st st' set freed prog :
  grows extra → all_later st st' → check_with turn extra st set freed prog = true → check_with turn extra st' set freed prog = true.
Proof.
  intros Hx. revert st st' set freed. induction prog as [|i rest IH]; intros st st' set freed Hl; cbn [check_with].
  { intros [H _]%andb_prop. by rewrite (Hx _ _ _ _ Hl H). }
  intros [H0 [H1 H2]%andb_prop]%andb_prop. rewrite (Hx _ _ _ _ Hl H0), H1. cbn [andb].
  assert (∀ f, forallb (λ t, f t || quiet turn (st t)) components = true → forallb (λ t, f t || quiet turn (st' t)) components = true) as Hq.
  { intros f. rewrite !forallb_forall. intros H t Ht. specialize (H t Ht). apply orb_true_iff in H as [->|H]; [done|].
    rewrite (quiet_later _ _ (Hl t) H). apply orb_true_r. }
  destruct i as [o|t|t|n|o|o|o|].
  - by eapply IH.
  - apply andb_prop in H2 as [[H2 H3]%andb_prop H4]. apply bool_decide_eq_true in H2. specialize (Hl t) as Hlt. rewrite H2 in Hlt.
    destruct (st' t) eqn:Et; try done. rewrite bool_decide_true, H3 by done. apply (IH (<[t := Active]> st)); [by apply all_later_insert|done].
  - apply (IH (<[t := stopped (st t)]> st)); [|done]. apply all_later_insert; [|done]. specialize (Hl t). destruct (st t), (st' t); try done; cbn; lia || done.
  - apply (IH (λ t, slept (Z.max 0 n) (st t))); [|done]. intros t. specialize (Hl t). destruct (st t), (st' t); try done. cbn in *. lia.
  - by eapply IH.
  - apply andb_prop in H2 as [H2 H3]. rewrite (Hq _ H2). by eapply IH.
  - by eapply IH.
  - exact (Hq (λ _, false) H2).
Qed.

Definition extra_of (p : process) : (component → status) → (component → bool) → list component → bool :=
  if signals && negb (p_handling p) then λ st set freed, check_prog turn st set freed (handler set) else λ _ _ _, true.

Lemma extra_grows p : grows (extra_of p).
Proof. unfold extra_of. destruct (_ && _); [|done]. intros st st' set freed Hl. by apply check_with_later. Qed.

(** [st] describes the threads of [p]. *)
Definition tracks st p : Prop :=
  ∀ t, match st t with
       | Idle => p_thread p t = None
       | Active => p_run p t = true ∧ ∀ last, p_thread p t = Some last → last ≤ p_now p ≤ last + turn
       | Stopping k => p_run p t = false ∧ ∀ last, p_thread p t = Some last → last + k ≤ p_now p ≤ last + turn
       end.

Lemma tracks_quiet st p t : tracks st p → quiet turn (st t) = true → p_thread p t = None.
Proof.
  intros H Hq. specialize (H t). destruct (st t) as [| |k]; [done|done|]. cbn in Hq. apply Z.ltb_lt in Hq.
  destruct H as [_ H]. destruct (p_thread p t) as [last|]; [|done]. specialize (H last eq_refl). lia.
Qed.

Record process_inv p st : Prop := {
  pi_tracks : tracks st p;
  pi_check : check_with turn (extra_of p) st (p_set p) (p_freed p) (p_prog p) = true;
  pi_threads : ∀ t o last, p_thread p t = Some last → uses t o = true → o ∉ p_freed p;
  pi_once : NoDup (p_freed p) }.

Lemma all_quiet st p (f : component → bool) t :
  tracks st p → forallb (λ t, f t || quiet turn (st t)) components = true → f t = false → p_thread p t = None.
Proof.
  intros Ht H Hf. rewrite forallb_forall in H. specialize (H t (in_components t)).
  rewrite Hf in H. by eapply tracks_quiet.
Qed.

Lemma process_inv_ok p st : process_inv p st → process_ok p.
Proof.
  intros [Ht Hc Hu Hn]. split; [done|done|..].
  - intros i rest o E Ho. rewrite E in Hc. cbn [check_with] in Hc. apply andb_prop in Hc as [_ [Hc _]%andb_prop]. rewrite Ho in Hc.
    by apply bool_decide_eq_true in Hc.
  - intros rest t E. rewrite E in Hc. cbn [check_with] in Hc. apply andb_prop in Hc as [_ [_ Hc]%andb_prop].
    by apply (all_quiet st p (λ _, false)).
Qed.

(** Time passes: what the main thread has slept counts. *)
Lemma tick_inv ms p p' st : process_inv p st → act_on turn signals handler (Tick ms) p = Some p' → ∃ st', process_inv p' st'.
Proof.
  intros [Ht Hc Hu Hn]. destruct p as [now run thread set freed prog handling]. cbn [act_on p_thread p_freed p_set p_prog] in *.
  destruct (0 <? ms) eqn:Hms; [|done]. apply Z.ltb_lt in Hms. destruct (within_turn turn (now + ms) thread) eqn:Hw; cbn [andb]; [|done]. intros [= <-].
  set (d := match prog with Sleep n :: _ => Z.max 0 (Z.min n ms) | _ => 0 end).
  assert (0 ≤ d ≤ ms) as Hd by (unfold d; destruct prog as [|[] ?]; lia).
  exists (λ t, slept d (st t)). split; cbn [p_thread p_freed p_set p_prog]; try done.
  - intros t. specialize (Ht t). unfold within_turn in Hw. rewrite forallb_forall in Hw.
    specialize (Hw t (in_components t)). cbn in Ht |- *.
    destruct (st t) as [| |k]; cbn; [done|..]; (destruct Ht as [Hrun Ht]; split; [done|]; intros last El; rewrite El in Hw;
      apply Z.leb_le in Hw; specialize (Ht last El); lia).
  - destruct (prog) as [|[o|t|t|n|o|o|o|] rest]; cbn [sleep_down];
      try (refine (check_with_later _ st _ _ _ _ (extra_grows (mkProcess now run thread set freed prog handling)) _ Hc);
           intros t'; unfold d; destruct (st t'); cbn; lia || done).
    cbn [check_with] in Hc |- *. apply andb_prop in Hc as [H0 [_ H2]%andb_prop].
    set (px := mkProcess now run thread set freed [] handling) in *.
    change (extra_of _) with (extra_of px) in *.
    rewrite (extra_grows px st _ _ _) by (done || intros t'; destruct (st t'); cbn; lia || done). cbn [andb touched].
    refine (check_with_later _ _ _ _ _ _ (extra_grows px) _ H2). intros t'. unfold d. destruct (st t'); cbn; lia || done.
Qed.

Lemma look_inv t p p' st : process_inv p st → act_on turn signals handler (Look t) p = Some p' → process_inv p' st.
Proof.
  intros [Ht Hc Hu Hn]. destruct p as [now run thread set freed prog handling]. cbn in *.
  destruct (thread t) as [last|] eqn:El; [|done]. intros [= <-]. split; cbn; try done.
  - intros t'. specialize (Ht t'). cbn in Ht |- *. destruct (decide (t' = t)) as [->|Hne]; [|by rewrite fn_lookup_insert_ne].
    rewrite fn_lookup_insert. destruct (st t) as [| |k]; [congruence|..].
    + destruct Ht as [Hrun Ht]. rewrite Hrun. split; [done|]. intros l [= <-]. lia.
    + destruct Ht as [Hrun Ht]. rewrite Hrun. by split.
  - intros t' o l. destruct (decide (t' = t)) as [->|Hne]; [|rewrite fn_lookup_insert_ne by done; by apply Hu].
    rewrite fn_lookup_insert. intros _. by apply (Hu t o last).
Qed.

Lemma interrupt_inv p p' st : process_inv p st → act_on turn signals handler Interrupt p = Some p' → process_inv p' st.
Proof.
  intros [Ht Hc Hu Hn]. destruct p as [now run thread set freed prog handling]. cbn in *.
  destruct (signals && negb handling) eqn:Hs; [|done]. intros [= <-]. split; cbn; try done.
  assert (extra_of (mkProcess now run thread set freed prog handling) st set freed = true) as He.
  { destruct prog; cbn [check_with] in Hc; by apply andb_prop in Hc as [Hc _]. }
  unfold extra_of in He |- *. cbn [p_handling] in *. rewrite Hs in He. by rewrite andb_false_r.
Qed.

(** The main thread executes an instruction. *)
Lemma exec_inv p p' st : process_inv p st → act_on turn signals handler Exec p = Some p' → ∃ st', process_inv p' st'.
Proof.
  intros [Ht Hc Hu Hn]. destruct p as [now run thread set freed prog handling]. cbn [act_on exec p_prog p_thread p_freed p_set] in *.
  set (px := mkProcess now run thread set freed prog handling) in *. destruct prog as [|i rest]; [done|].
  cbn [check_with] in Hc. apply andb_prop in Hc as [_ [H1 H2]%andb_prop]. destruct i as [o|t|t|n|o|o|o|]; cbn [touched] in H1.
  - intros [= <-]. by exists st.
  - intros [= <-]. apply andb_prop in H2 as [[H2 H3]%andb_prop H4]. apply bool_decide_eq_true in H2. exists (<[t := Active]> st). split; cbn; try done.
    + intros t'. specialize (Ht t'). cbn in *. destruct (decide (t' = t)) as [->|Hne]; [|by rewrite !fn_lookup_insert_ne].
      rewrite !fn_lookup_insert. split; [done|]. intros l [= <-]. lia.
    + intros t' o l. destruct (decide (t' = t)) as [->|Hne]; [|rewrite fn_lookup_insert_ne by done; by apply Hu].
      intros _ Ho. rewrite forallb_forall in H3. specialize (H3 o (in_components o)).
      rewrite Ho in H3. by apply bool_decide_eq_true in H3.
  - intros [= <-]. exists (<[t := stopped (st t)]> st). split; cbn; try done.
    intros t'. specialize (Ht t'). cbn in *. destruct (decide (t' = t)) as [->|Hne]; [|by rewrite !fn_lookup_insert_ne].
    rewrite !fn_lookup_insert. destruct (st t) as [| |k]; cbn; [done|..]; (destruct Ht as [_ Ht]; split; [done|]; intros l Hl; specialize (Ht l Hl); lia).
  - destruct (Z.ltb_spec 0 n); [done|]. intros [= <-]. exists (λ t, slept (Z.max 0 n) (st t)). split; cbn; try done.
    intros t. specialize (Ht t). cbn in *. rewrite Z.max_l by lia. destruct (st t); cbn; [done|done|]. by rewrite Z.add_0_r.
  - intros [= <-]. by exists st.
  - intros [= <-]. apply andb_prop in H2 as [H2 H3]. apply bool_decide_eq_true in H1. exists st. split; cbn; try done.
    + intros t o' l Hl Ho [->|Hin]%elem_of_cons; [|by eapply Hu].
      assert (thread t = None); [|congruence]. apply (all_quiet st px (λ t, negb (uses t o)) t Ht H2). by rewrite Ho.
    + by constructor.
  - intros [= <-]. by exists st.
  - done.
Qed.

Lemma process_inv_step p p' st : process_inv p st → process_step turn signals handler p p' → ∃ st', process_inv p' st'.
Proof.
  intros Hi [[ms|t| |] H]; [by eapply tick_inv|exists st; by eapply look_inv|by eapply exec_inv|exists st; by eapply interrupt_inv].
Qed.

Theorem process_sound prog p :
  check_process turn signals handler prog = true → rtc (process_step turn signals handler) (process_new prog) p → process_ok p.
Proof.
  intros Hc Hr. assert (∃ st, process_inv p st) as [st Hi]; [|by eapply process_inv_ok].
  assert (∃ st, process_inv (process_new prog) st) as H0.
  { exists (λ _, Idle). split; cbn; try done; [|constructor]. unfold check_process, check_main in Hc. unfold extra_of. cbn. by destruct signals. }
  revert H0. induction Hr as [|p1 p2 p3 H _ IH]; [done|]. intros [st Hi]. apply IH. by eapply process_inv_step.
Qed.

(** ** Programs run to their end *)

(** Every living thread looks at its flag. *)
Definition look_at (p : process) (t : component) : process :=
  match act_on turn signals handler (Look t) p with Some p => p | None => p end.

Lemma look_at_run p t : rtc (process_step turn signals handler) p (look_at p t).
Proof. unfold look_at. destruct (act_on _ _ _ _ _) as [p'|] eqn:E; [|done]. apply rtc_once. by exists (Look t). Qed.

Lemma look_at_eq p t :
  p_now (look_at p t) = p_now p ∧ p_prog (look_at p t) = p_prog p
  ∧ (∀ last, p_thread (look_at p t) t = Some last → last = p_now p)
  ∧ (∀ t', t' ≠ t → p_thread (look_at p t) t' = p_thread p t').
Proof.
  destruct p as [now run thread set freed prog handling]. unfold look_at. cbn. destruct (thread t) as [l|] eqn:E; cbn.
  - split_and!; [done|done| |intros t' Ht; by rewrite fn_lookup_insert_ne]. intros last. rewrite fn_lookup_insert. by destruct (run t); [intros [= <-]|].
  - split_and!; [done|done|congruence|done].
Qed.

Lemma looks_run (ts : list component) p :
  ∃ p', rtc (process_step turn signals handler) p p' ∧ p_now p' = p_now p ∧ p_prog p' = p_prog p
    ∧ (∀ t last, p_thread p' t = Some last → (t ∈ ts ∨ p_thread p t = Some (p_now p)) → last = p_now p)
    ∧ (∀ t, t ∉ ts → p_thread p' t = p_thread p t).
Proof.
  revert p. induction ts as [|t ts IH]; intros p.
  { exists p. split_and!; try done. intros t last Hl [H|H]; [by apply elem_of_nil in H|congruence]. }
  destruct (look_at_eq p t) as (E1 & E2 & E3 & E4). destruct (IH (look_at p t)) as (p' & Hr & I1 & I2 & I3 & I4).
  exists p'. split_and!; [by etrans; [apply look_at_run|]|congruence|congruence|..].
  - intros t' last Hl Ht. rewrite <- E1. apply (I3 t' last Hl). destruct (decide (t' ∈ ts)) as [|Hn]; [by left|right].
    rewrite (I4 t' Hn) in Hl. destruct (decide (t' = t)) as [->|Hne]; [by rewrite Hl, E1, (E3 _ Hl)|].
    destruct Ht as [Ht|Ht]; [by apply elem_of_cons in Ht as [?|?]|]. by rewrite (E4 t' Hne), E1.
  - intros t' Ht. apply not_elem_of_cons in Ht as [H1 H2]. by rewrite (I4 t' H2), (E4 t' H1).
Qed.

(** A millisecond passes. *)
Lemma tick_run p :
  0 < turn → ∃ p', rtc (process_step turn signals handler) p p' ∧ p_prog p' = sleep_down 1 (p_prog p).
Proof.
  intros Ht. destruct (looks_run components p) as (p1 & Hr & E1 & E2 & H1 & _). destruct p1 as [now run thread set freed prog handling].
  cbn in E1, E2, H1. assert (within_turn turn (now + 1) thread = true) as Hw.
  { unfold within_turn. apply forallb_forall. intros t _. destruct (thread t) as [last|] eqn:E; [|done].
    apply Z.leb_le. rewrite (H1 t last E), E1; [lia|]. left. apply list_elem_of_In, in_components. }
  eexists. split; [eapply rtc_r; [exact Hr|exists (Tick 1)]|].
  - cbn [act_on]. rewrite Hw. reflexivity.
  - cbn [p_prog]. by rewrite E2.
Qed.

Lemma sleep_run (n : nat) p rest :
  0 < turn → p_prog p = Sleep (Z.of_nat n) :: rest → ∃ p', rtc (process_step turn signals handler) p p' ∧ p_prog p' = rest.
Proof.
  intros Ht. revert p. induction n as [|n IH]; intros p Hp.
  - destruct p as [now run thread set freed prog handling]. cbn in Hp. subst prog. eexists. split; [apply rtc_once; by exists Exec|done].
  - destruct (tick_run p Ht) as (p1 & Hr & E). rewrite Hp in E. cbn [sleep_down] in E.
    replace (Z.max 0 (Z.of_nat (S n) - 1)) with (Z.of_nat n) in E by lia. destruct (IH p1 E) as (p2 & Hr2 & E2). exists p2. split; [by etrans|done].
Qed.

(** From every state the main thread gets to the [exit] of its program. *)
Lemma program_ends p :
  0 < turn → Exit ∈ p_prog p → ∃ p' rest, rtc (process_step turn signals handler) p p' ∧ p_prog p' = Exit :: rest.
Proof.
  intros Ht. remember (p_prog p) as prog eqn:E. revert p E. induction prog as [|i rest IH]; intros p E Hin; [by apply elem_of_nil in Hin|].
  assert (i = Exit ∨ ∃ p1, rtc (process_step turn signals handler) p p1 ∧ p_prog p1 = rest) as [->|(p1 & Hr & E1)].
  { destruct p as [now run thread set freed prog handling]. cbn in E. subst prog.
    destruct i as [o|t|t|n|o|o|o|]; [right|right|right|right|right|right|right|by left];
      try (eexists; split; [apply rtc_once; by exists Exec|done]).
    destruct (Z.ltb_spec 0 n) as [Hn|Hn].
    - apply (sleep_run (Z.to_nat n)); [done|]. by rewrite Z2Nat.id by lia.
    - eexists. split; [apply rtc_once; exists Exec; cbn; by rewrite (proj2 (Z.ltb_ge _ _))|done]. }
  - exists p, rest. split; [done|by symmetry].
  - apply elem_of_cons in Hin as [<-|Hin].
    + exists p, rest. split; [done|by symmetry].
    + destruct (IH p1 (eq_sym E1) Hin) as (p' & rest' & Hr' & E'). exists p', rest'. split; [by etrans|done].
Qed.

(** Every reachable state can go on to [exit], if necessary by a signal. *)
Lemma exit_reachable prog p :
  0 < turn → (∀ set, Exit ∈ handler set) → (Exit ∈ prog ∨ signals = true) →
  rtc (process_step turn signals handler) (process_new prog) p →
  ∃ p' rest, rtc (process_step turn signals handler) p p' ∧ p_prog p' = Exit :: rest.
Proof.
  intros Ht Hh H0 Hr. assert (Exit ∈ p_prog p ∨ signals = true ∧ p_handling p = false) as [Hin|[Hs Hn]].
  - revert p Hr. apply rtc_ind_r; [cbn; naive_solver|]. intros p1 p2 _ [c H] IH.
    destruct p1 as [now run thread set freed code handling]. destruct c as [ms|t| |]; cbn [act_on p_prog p_handling] in *.
    + destruct (_ && _); [|done]. injection H as <-. cbn. destruct IH as [IH|IH]; [left|by right].
      destruct code as [|[] code]; try done. cbn. apply elem_of_cons in IH as [IH|IH]; [done|]. by apply elem_of_cons; right.
    + destruct (thread t); [|done]. by injection H as <-.
    + destruct code as [|i code]; [done|]. destruct IH as [IH|IH]; [left|right].
      * destruct i; cbn in H; try destruct (0 <? _); try done; injection H as <-; cbn; by apply elem_of_cons in IH as [IH|IH].
      * destruct i; cbn in H; try destruct (0 <? _); try done; by injection H as <-.
    + destruct (_ && _); [|done]. injection H as <-. left. apply Hh.
  - by apply program_ends.
  - destruct p as [now run thread set freed code handling]. cbn in Hn. subst handling.
    destruct (program_ends (mkProcess now run thread set freed (handler set) true) Ht (Hh set)) as (p' & rest & Hr' & E).
    exists p', rest. split; [|done]. eapply rtc_l; [|exact Hr']. exists Interrupt. cbn. by rewrite Hs.
Qed.
End Sound.

(** A run with a shorter bound on the turns is a run with a longer one. *)
Lemma process_step_turn turn turn' signals handler p p' :
  turn ≤ turn' → process_step turn signals handler p p' → process_step turn' signals handler p p'.
Proof.
  intros Hle [c H]. exists c. destruct p as [now run thread set freed prog handling]. destruct c as [ms|t| |]; cbn [act_on] in *; try done.
  destruct (0 <? ms); [|done]. destruct (within_turn turn (now + ms) thread) eqn:Hw; cbn [andb] in *; [|done].
  assert (within_turn turn' (now + ms) thread = true) as ->; [|done]. unfold within_turn in *. rewrite forallb_forall in *.
  intros t Hin. specialize (Hw t Hin). destruct (thread t); [|done]. apply Z.leb_le in Hw. apply Z.leb_le. lia.
Qed.

Lemma process_sound_within bound turn signals handler prog p :
  0 ≤ turn ≤ bound → check_process bound signals handler prog = true →
  rtc (process_step turn signals handler) (process_new prog) p → process_ok p.
Proof.
  intros Ht Hc Hr. eapply (process_sound bound signals handler); [lia|exact Hc|].
  eapply rtc_subrel; [|exact Hr]. intros p1 p2. apply process_step_turn. lia.
Qed.
