(* ===== verification/CommonTheorems.v ===== *)
(** * What the shared containers guarantee.

    The properties of the object pools (MemPool.v), of the lock-free queue
    (LFQueue.v), of the wire format (Wire.v), of the loggers (Logging.v) and of
    the latency histogram (LatencyHistogram.v), each with a concrete instance of
    its hypotheses. *)

From Stdlib Require Import Ascii String QArith Qcanon.
From stdpp Require Import numbers gmap strings sorting list relations.
From S2P Require Import Prelude MemPool Types LFQueue Wire Double Logging LoggerThread LatencyHistogram.

Open Scope Z_scope.
Local Coercion Z.of_nat : nat >-> Z.

(** Concrete pools and queues of small integers for the instances. *)
#[local] Instance Z_ctor : DefaultCtor Z := 0.

Definition pool3 : MemPool Z := MemPool_new 3.
Definition queue2 : LFQueue Z := LFQueue_new 2.

(** ** Pools *)

(** C25. A pool of [n] blocks, after whatever sequence of allocations, writes
    through handed-out pointers and deallocations: its free index is in range and
    names a free block, and every block in use lies inside the store; with fewer
    than [n - 1] blocks in use an allocation returns a block that was free, with
    the constructed object, and changes no other block; the allocation that would
    fill the last block aborts, so a pool holds [n - 1] objects.  The
    assertion-free pool behaves the same: the same blocks, and FATAL where the
    checked pool asserts. *)
Theorem pool_contract {T} `{!DefaultCtor T} (n : Z) (x : T) (p : MemPool T) :
  0 < n → rtc pool_step (MemPool_new n) p →
  pool_wf p
  ∧ (size (used p) + 1 < store_size p →
     ∃ i p', allocate x p = Ok (i, p') ∧ ¬ in_use p i ∧ obj p' i = x
       ∧ used p' = {[i]} ∪ used p ∧ ∀ j, j ≠ i → block p' j = block p j)
  ∧ (Z.of_nat (size (used p)) + 1 = store_size p → allocate x p = Err AssertFailed)
  ∧ opt_allocate x p = match allocate x p with Err AssertFailed => Err FatalError | r => r end
  ∧ (∀ i, in_use p i → opt_deallocate i p = deallocate i p).
Proof.
  intros Hn Hs. pose proof (pool_wf_reachable n p Hn Hs) as Hwf.
  split_and!; [done| |by apply allocate_last|by apply opt_allocate_equiv|].
  2: { intros i Hi. apply opt_deallocate_equiv; [done|]. by apply (wf_range _ Hwf). }
  intros Hlt. destruct (allocate_some x p Hwf Hlt) as (p' & E & Ha).
  exists (next_free_index_ p), p'. split_and!; [done|apply (al_fresh _ _ _ _ Ha)|..].
  - rewrite (allocated_obj _ _ _ _ _ Ha). by rewrite decide_True.
  - by apply (used_allocated _ _ _ _ Ha).
  - intros j Hj. rewrite (al_block _ _ _ _ Ha). by rewrite decide_False.
Qed.

Lemma pool_contract_witness :
  (∃ i p', allocate 7 pool3 = Ok (i, p') ∧ obj p' i = 7 ∧ pool_wf p')
  ∧ allocate 5 (MemPool_new 1 : MemPool Z) = Err AssertFailed
  ∧ opt_allocate 5 (MemPool_new 1 : MemPool Z) = Err FatalError.
Proof.
  assert (allocate 5 (MemPool_new 1 : MemPool Z) = Err AssertFailed) as Hfull.
  { apply (pool_contract 1 5 (MemPool_new 1) ltac:(lia) (rtc_refl _ _)). vm_compute. done. }
  split_and!; [|exact Hfull|].
  - destruct (pool_contract 3 7 pool3 ltac:(lia) (rtc_refl _ _)) as (_ & H & _).
    destruct (H ltac:(vm_compute; done)) as (i & p' & E & _ & Ho & _).
    exists i, p'. split_and!; [exact E|exact Ho|].
    apply (pool_contract 3 7 p' ltac:(lia)). eapply rtc_once. by econstructor.
  - destruct (pool_contract 1 5 (MemPool_new 1) ltac:(lia) (rtc_refl _ _)) as (_ & _ & _ & Ho & _).
    rewrite Ho, Hfull. reflexivity.
Defined.

(** ** Queues *)

(** Seen from one thread the queue is a FIFO list of at most its capacity: a
    write appends, a peek shows the oldest unread value, a read removes it, and a
    read of an empty queue asserts.  A write to a full queue is not noticed: the
    new value takes the place of the oldest as the next one read, and the element
    count exceeds the capacity. *)
Theorem lfq_fifo {T} `{!DefaultCtor T} (q : LFQueue T) (l : list T) (v : T) :
  lfq_rep q l →
  getNextToRead q = head l ∧ size_ q = length l
  ∧ (length l < q_size q → lfq_rep (enqueue v q) (l ++ [v]))
  ∧ (Z.of_nat (length l) = q_size q → q_size q + 1 < 2 ^ 64 →
     getNextToRead (enqueue v q) = Some v ∧ size_ (enqueue v q) = q_size q + 1)
  ∧ match l with
    | [] => updateReadIndex q = Err AssertFailed
    | _ :: l' => ∃ q', updateReadIndex q = Ok q' ∧ lfq_rep q' l'
    end.
Proof.
  intros Hq. split_and!.
  - by apply getNextToRead_ok.
  - by apply lfq_rep_size.
  - intros Hl. by apply enqueue_ok.
  - by apply enqueue_full.
  - destruct l as [|x l']; [by apply updateReadIndex_empty|].
    destruct (updateReadIndex_ok q x l' Hq) as (q' & ? & ? & _). eauto.
Qed.

Lemma lfq_fifo_witness :
  getNextToRead queue2 = None ∧ lfq_rep (enqueue 7 queue2) [7] ∧ updateReadIndex queue2 = Err AssertFailed
  ∧ getNextToRead (enqueue 3 (enqueue_all [1; 2] queue2)) = Some 3.
Proof.
  destruct (lfq_fifo queue2 [] 7 (lfq_rep_new 2 ltac:(lia))) as (H1 & _ & H2 & _ & H3).
  destruct (lfq_fifo (enqueue_all [1; 2] queue2) [1; 2] 3
    (proj1 (enqueue_all_ok [1; 2] queue2 [] (lfq_rep_new 2 ltac:(lia)) ltac:(vm_compute; done))))
    as (_ & _ & _ & H4 & _).
  split_and!; [exact H1|apply H2; vm_compute; done|exact H3|apply H4; [done|vm_compute; done]].
Defined.

(** C11. Whatever the interleaving of a producer and a consumer at the level of the
    atomic members, as long as the producer only writes when the counter shows
    room, the values read are a prefix of the values written, in the same order,
    none lost or duplicated, and the consumer never reads a slot the producer has
    not published. *)
Theorem spsc_delivers_in_order {T} `{!DefaultCtor T} (n : Z) (s : spsc T) :
  0 < n < 2 ^ 64 → rtc spsc_step (spsc_init n) s →
  popped s `prefix_of` pushed s
  ∧ num_elements_ (s_queue s) = length (pushed s) - length (popped s)
  ∧ ∀ ptr, s_cons s = CHolding ptr → pushed s !! length (popped s) = Some (slot (s_queue s) ptr).
Proof.
  intros Hn Hs. destruct (spsc_inv_reachable n s Hn Hs) as [Hpre Hpos Hnum _ _ _ Hc].
  split_and!; [|done|].
  - rewrite Hpre. apply prefix_take.
  - intros ptr E. rewrite E in Hc. destruct Hc as [-> Hlt].
    apply (ps_vals _ _ _ _ Hpos). lia.
Qed.

Lemma spsc_delivers_in_order_witness :
  ∃ s, rtc spsc_step (spsc_init 2 : spsc Z) s ∧ pushed s = [7] ∧ popped s `prefix_of` pushed s.
Proof.
  assert (rtc spsc_step (spsc_init 2 : spsc Z)
    (mkSPSC (inc_elements (bump_write (getNextToWriteTo_assign 7 (LFQueue_new 2)))) PIdle CIdle [7] [])) as Hs.
  { eapply rtc_l; [apply (p_write _ _ _ _ 7); simpl; lia|].
    eapply rtc_l; [apply p_index|]. eapply rtc_l; [apply p_count|]. apply rtc_refl. }
  eexists. split; [exact Hs|]. split; [done|].
  exact (proj1 (spsc_delivers_in_order 2 _ ltac:(lia) Hs)).
Defined.

(** ** Wire format *)

(** A TCP stream of framed messages is decoded to exactly the messages sent,
    in order, however the bytes are split into reads; an incomplete last message
    stays in the buffer.  The three message types of the system are instances. *)
Theorem stream_roundtrip {M} `{!Wire M} `{!WireLaws M} (ms : list M) (rest : bytes) (chunks : list bytes) :
  Forall wire_wf ms → (length rest < wire_size (M := M))%nat →
  concat chunks = concat (encode <$> ms) ++ rest →
  feed_chunks [] chunks = (ms, rest).
Proof.
  intros Hms Hr Hc. rewrite feed_chunks_concat; [|simpl; apply wire_size_pos].
  simpl. rewrite Hc. by apply parse_stream_encode.
Qed.

(** A socket loses, duplicates and reorders nothing: what was sent is the bytes
    already written plus the bytes still buffered, whatever the kernel accepts,
    and the receive side appends what the kernel delivers, up to the buffer. *)
Theorem tcp_buffers_preserve_stream (s s1 : TCPSocket) (data avail : bytes) (n : Z) :
  tcp_send data s = Ok s1 →
  (let '(sent, s2) := tcp_flush n s1 in sent ++ outbound_data_ s2 = outbound_data_ s ++ data)
  ∧ (let '(_, rest, s2) := tcp_recv avail s1 in
     inbound_data_ s2 ++ rest = inbound_data_ s ++ avail
     ∧ (length (inbound_data_ s) ≤ TCPBufferSize → length (inbound_data_ s2) ≤ TCPBufferSize)).
Proof.
  intros E. pose proof (tcp_send_stream data s s1 E) as Eo.
  assert (inbound_data_ s1 = inbound_data_ s) as Ei.
  { revert E. unfold tcp_send. case_match; [done|]. by intros [= <-]. }
  split.
  - rewrite <- Eo. apply tcp_flush_stream.
  - rewrite <- Ei. pose proof (tcp_recv_stream avail s1) as Hr. unfold tcp_recv in *.
    split; [done|]. intros Hl. cbn [inbound_data_]. rewrite length_app, length_take. lia.
Qed.

(** ** Loggers *)

(** The two loggers on a queue [l] of waiting elements.  A call whose number of
    arguments differs from the number of [%] holes of its format ends the process
    in both.  Any other call that the queue has room for is printed by the next
    flush behind what was waiting: the format with its holes filled in order, the
    same text from both as long as no string argument is longer than 255
    characters, which [OptLogger] cuts. *)
Theorem loggers_print_format {F} `{!DoubleText F} (s : string) (args : list (log_arg F))
    (q : LFQueue (LogElement F)) (oq : LFQueue (OptLogElement F)) (l : list (LogElement F)) (file : string) :
  lfq_rep q l → lfq_rep oq (OPlain <$> l) →
  length l + length (log_elems s args) ≤ q_size q → length l + length (opt_log_elems s args) ≤ q_size oq →
  if decide (holes (parse_format s) = length args) then
    ∃ q1 q2 oq1 oq2, log s args q = Ok q1 ∧ opt_log s args oq = Ok oq1
      ∧ flushQueue (length l + length (log_elems s args)) q1 file
        = Ok (q2, (file +:+ concat_strings (show_element <$> l) +:+ log_text None s args)%string)
      ∧ opt_flushQueue (length l + length (opt_log_elems s args)) oq1 file
        = Ok (oq2, (file +:+ concat_strings (show_element <$> l) +:+ log_text (Some 255%nat) s args)%string)
      ∧ lfq_rep q2 [] ∧ lfq_rep oq2 []
      ∧ (Forall short_arg args → log_text (Some 255%nat) s args = log_text None s args)
  else log s args q = Err FatalError ∧ opt_log s args oq = Err FatalError.
Proof.
  intros Hq Hoq Hroom Horoom. case_decide as Hh.
  - destruct (log_flush_ok s args q l file Hq Hh Hroom) as (q1 & q2 & H1 & H2 & H3).
    destruct (opt_log_flush_ok s args oq (OPlain <$> l) file Hoq Hh) as (oq1 & oq2 & O1 & O2 & O3);
      [by rewrite length_fmap|]. rewrite length_fmap, <- list_fmap_compose in O2.
    exists q1, q2, oq1, oq2. split_and!; try done. apply log_text_short.
  - by rewrite log_ok, opt_log_ok, !decide_False.
Qed.

(** A text for doubles, for the instances only. *)
#[local] Instance plain_text : DoubleText Qc := {
  d_show q := "0";
  d_parse _ := None }.

Definition log_args : list (log_arg Qc) := [ArgString "qty"; ArgValue (LINTEGER (-7))].

Lemma loggers_print_format_witness :
  ∃ q1 q2, log "set % to %!" log_args (LFQueue_new 16) = Ok q1
    ∧ flushQueue 13 q1 "" = Ok (q2, "set qty to -7!")
    ∧ log "100%" log_args (LFQueue_new 16) = Err FatalError.
Proof.
  pose proof (loggers_print_format "set % to %!" log_args (LFQueue_new 16) (LFQueue_new 16) [] ""
    (lfq_rep_new 16 ltac:(lia)) (lfq_rep_new 16 ltac:(lia)) ltac:(vm_compute; done) ltac:(vm_compute; done)) as H1.
  pose proof (loggers_print_format "100%" log_args (LFQueue_new 16) (LFQueue_new 16) [] ""
    (lfq_rep_new 16 ltac:(lia)) (lfq_rep_new 16 ltac:(lia)) ltac:(vm_compute; done) ltac:(vm_compute; done)) as H2.
  rewrite decide_True in H1 by reflexivity. rewrite decide_False in H2 by (vm_compute; done).
  destruct H1 as (q1 & q2 & _ & _ & E1 & _ & E2 & _). exists q1, q2.
  assert (log_text None "set % to %!" log_args = "set qty to -7!") as Ht by (vm_compute; reflexivity).
  rewrite Ht in E2. split_and!; [exact E1|exact E2|exact (proj1 H2)].
Defined.

(** C39. The two loggers, their background thread, their destructor and the calls
    of the thread that logs interleaved in any order, the queue never overrun.  A
    call whose number of arguments differs from the number of [%] holes of its
    format ends the process; any other pushes the elements of the filled format.
    After some calls, in every reachable state, the file has a beginning of their
    text, and all of it when the queue is empty; the text is the same for both when
    no string argument is longer than 255 characters, which [OptLogger] cuts.  The
    background thread alone empties the queue in a bounded number of statements
    while [running_] is on, so the wait of the destructor ends, and returns in a
    bounded number once it is off, so the join ends.  A closed [OptLogger] has
    written everything; the wait of [Logger] is capped, so a closed one has written
    everything only if its queue was empty. *)
Theorem loggers_keep_every_line {F} `{!DoubleText F} (calls : list (string * list (log_arg F))) :
  (∀ s args (q : LFQueue (LogElement F)), log s args q
     = if decide (holes (parse_format s) = length args) then Ok (enqueue_all (log_elems s args) q) else FATAL)
  ∧ (∀ s args (q : LFQueue (OptLogElement F)), opt_log s args q
     = if decide (holes (parse_format s) = length args) then Ok (enqueue_all (opt_log_elems s args) q) else FATAL)
  ∧ (∀ g, rtc Logger_step ([], Logger_new) (calls_elems calls, g) →
       (∃ rest, calls_text None calls = lg_file_ g +:+ rest)
       ∧ (size_ (lg_queue_ g) = 0 → lg_file_ g = calls_text None calls)
       ∧ ∃ (k : nat) g', k ≤ 4 * size_ (lg_queue_ g) + 5 ∧ flusher_steps show_element true k g = Ok g'
           ∧ if lg_running_ g then size_ (lg_queue_ g') = 0 ∧ lg_file_ g' = calls_text None calls else lg_flush g' = FExit)
  ∧ (∀ g, rtc OptLogger_step ([], OptLogger_new) (opt_calls_elems calls, g) →
       (∃ rest, calls_text (Some 255%nat) calls = lg_file_ g +:+ rest)
       ∧ (size_ (lg_queue_ g) = 0 ∨ lg_dtor g = DClosed → lg_file_ g = calls_text (Some 255%nat) calls)
       ∧ ∃ (k : nat) g', k ≤ 4 * size_ (lg_queue_ g) + 5 ∧ flusher_steps opt_show_element false k g = Ok g'
           ∧ if lg_running_ g then size_ (lg_queue_ g') = 0 ∧ lg_file_ g' = calls_text (Some 255%nat) calls else lg_flush g' = FExit)
  ∧ (Forall (λ '(_, args), Forall short_arg args) calls → calls_text (Some 255%nat) calls = calls_text None calls).
Proof.
  split_and!; [apply log_ok|apply opt_log_ok| | |apply calls_text_short].
  - intros g Hr. destruct (logger_run_text show_element true true LOG_QUEUE_SIZE _ _ ltac:(done) Hr) as (H1 & H2 & _ & H3).
    by rewrite show_calls in H1, H2, H3.
  - intros g Hr. destruct (logger_run_text opt_show_element false false OPT_LOG_QUEUE_SIZE _ _ ltac:(done) Hr) as (H1 & H2 & H3 & H4).
    rewrite opt_show_calls in H1, H2, H3, H4. split_and!; [done| |done]. intros [H|H]; auto.
Qed.

(** A line logged to [OptLogger], printed, and the logger closed. *)
Definition line_calls : list (string * list (log_arg Qc)) := [("%!"%string, [ArgValue (LINTEGER (-7))])].

Lemma loggers_keep_every_line_witness :
  ∃ g, rtc OptLogger_step ([], OptLogger_new) (opt_calls_elems line_calls, g) ∧ lg_dtor g = DClosed ∧ lg_file_ g = "-7!"%string.
Proof.
  set (es := opt_calls_elems line_calls).
  assert (lfq_rep (lg_queue_ (OptLogger_new (F := Qc))) []) as H0 by (apply (lfq_rep_new OPT_LOG_QUEUE_SIZE); done).
  pose proof (pushes_run opt_show_element false false es [] [] OptLogger_new eq_refl H0 ltac:(vm_compute; done)) as H1.
  set (g1 := mkLogger _ _ _ _ _) in H1.
  assert (∃ g2 g3 g4 g5 g6, flusher_steps opt_show_element false 9 g1 = Ok g2 ∧ OptLogger_dtor g2 = Some g3
    ∧ OptLogger_dtor g3 = Some g4 ∧ flusher_steps opt_show_element false 4 g4 = Ok g5 ∧ OptLogger_dtor g5 = Some g6 ∧ lg_dtor g6 = DClosed)
    as (g2 & g3 & g4 & g5 & g6 & E2 & E3 & E4 & E5 & E6 & Hd) by (do 5 eexists; do 5 (split; [vm_compute; reflexivity|]); reflexivity).
  assert (rtc OptLogger_step ([], OptLogger_new) (es, g6)) as Hr.
  { unfold OptLogger_step. etrans; [exact H1|]. etrans; [by eapply flusher_steps_run|].
    eapply rtc_l; [by eapply ls_dtor with (expired := false)|]. eapply rtc_l; [by eapply ls_dtor with (expired := false)|]. etrans; [by eapply flusher_steps_run|]. eapply rtc_l; [by eapply ls_dtor with (expired := false)|done]. }
  exists g6. destruct (loggers_keep_every_line line_calls) as (_ & _ & _ & H & _). destruct (H g6 Hr) as (_ & Hf & _).
  split; [exact Hr|]. split; [exact Hd|]. rewrite (Hf (or_intror Hd)). vm_compute. reflexivity.
Defined.

(** ** Latency histogram *)

(** C37. The histogram after any observations of 64-bit values (negative ones count
    as zero): count, minimum and maximum are those of the observations, and the
    rows of the dump, each with a positive count, count the observations in
    [low, high) and together count all of them.  When the values are below 2^62,
    in exact arithmetic, [percentile p] returns, and its result is within a
    factor of two of the value of the rank [p] asks for; the values 0 and 1 share
    the bucket that reports 0. *)
Theorem histogram_percentile_accurate (name : string) (vs : list Z) (p : Qc) :
  Forall (λ v, - 2 ^ 63 ≤ v < 2 ^ 63) vs → length vs < 2 ^ 64 →
  let ws := Z.max 0 <$> vs in
  let k := rank_of p (length vs) in
  ∃ h, record_all vs (LatencyHistogram_new name) = Ok h
    ∧ count h = length vs ∧ lh_min_ h = list_min ws ∧ max_of h = list_max ws
    ∧ Forall (λ '(low, high, b), 0 < b ∧ b = length (filter (λ v, low ≤ v < high) ws)) (bucket_rows (buckets_ h) 0)
    ∧ list_sum (snd <$> bucket_rows (buckets_ h) 0) = length vs
    ∧ (vs ≠ [] → Forall (λ v, v < 2 ^ 62) vs →
       ∃ r, percentile p h = Ok r ∧ (k = 0 → r = 0)
         ∧ ∀ v, rank_value ws k v → if v <=? 1 then r = 0 else v < 2 * r ∧ r ≤ 2 * v).
Proof.
  intros Hvs Hlen ws k.
  destruct (record_all_ok vs [] _ (hist_rep_new name) Hvs ltac:(simpl; lia)) as (h & Hr & Hh). rewrite app_nil_r in Hh.
  apply (hist_rep_perm h _ ws) in Hh; [|apply reverse_Permutation]. assert (length ws = length vs) as Hl by apply length_fmap.
  exists h. destruct (dump_rows_ok h _ Hh) as [Hd1 Hd2]. pose proof Hh as []. unfold count, max_of. rewrite <- Hl.
  split_and!; try done. intros Hne Hs. subst k. rewrite <- Hl. apply percentile_ok; [done|by intros ?%fmap_nil_inv|].
  apply Forall_fmap. eapply Forall_impl; [exact Hs|]. intros v Hv. cbn in *. change (2 ^ 62) with 4611686018427387904. lia.
Qed.

Lemma histogram_percentile_accurate_witness :
  ∃ h r, record_all [5; -3; 900; 17] (LatencyHistogram_new "rtt") = Ok h
    ∧ percentile (F:=Qc) (Qc_of_Z 1) h = Ok r ∧ 900 < 2 * r ∧ r ≤ 1800.
Proof.
  destruct (histogram_percentile_accurate "rtt" [5; -3; 900; 17] (Qc_of_Z 1)) as (h & E & _ & _ & _ & _ & _ & Hp).
  - repeat (apply Forall_cons; split; [lia|]). constructor.
  - vm_compute. done.
  - destruct Hp as (r & Er & _ & Hv); [done|repeat (apply Forall_cons; split; [lia|]); constructor|].
    exists h, r. split_and!; [exact E|exact Er|..]; apply (Hv 900); exists [0; 5; 17; 900];
      (split_and!; [cbn; solve_Permutation|repeat constructor; lia|vm_compute; done|vm_compute; done]).
Defined.
