(* ===== verification/NetTheorems.v ===== *)
(** * What the socket layer guarantees.

    A TCP connection between two sockets (TcpLink.v) and the creation of sockets
    (SocketUtils.v), each with a concrete instance of its hypotheses. *)

From stdpp Require Import numbers strings pretty gmap list relations.
From S2P Require Import Prelude Types Wire TcpLink SocketUtils.

Open Scope Z_scope.
Local Coercion Z.of_nat : nat >-> Z.

(** ** Connections *)

(** C26. A connection that carries the messages of one type.  Whatever the order in
    which messages are staged, partial writes are accepted and pieces of the
    stream are delivered, nothing is lost, duplicated or reordered: the messages
    decoded so far are the first ones staged, the rest is exactly the bytes still
    buffered or under way, less than a message of them in the receive buffer; and
    when nothing is under way, all have been decoded. *)
Theorem tcp_link_delivers {M} `{!Wire M} `{!WireLaws M} (l : link M) :
  rtc link_step link_new l →
  ∃ pend, lk_sent l = lk_got l ++ pend
    ∧ inbound_data_ (lk_rx l) ++ lk_wire l ++ outbound_data_ (lk_tx l) = concat (encode <$> pend)
    ∧ (length (inbound_data_ (lk_rx l)) < wire_size (M := M))%nat
    ∧ (lk_wire l = [] → outbound_data_ (lk_tx l) = [] → lk_got l = lk_sent l ∧ inbound_data_ (lk_rx l) = []).
Proof.
  intros (pend & Hs & Hwf & Hb & Hl)%link_inv_reachable. exists pend. split_and!; [done..|]. intros Hw Ho.
  rewrite Hw, Ho, !app_nil_r in Hb. destruct pend as [|m pend]; [by rewrite Hs, app_nil_r|].
  rewrite fmap_cons in Hb. cbn [concat] in Hb. rewrite Hb, length_app, length_encode in Hl. lia.
Qed.

Definition link_request : OMClientRequest := mkOMClientRequest 1 (mkMEClientRequest Req_NEW 3 0 17 SELL (-5) 100).

(** A request is staged and written, and the kernel delivers its first 11 bytes. *)
Lemma tcp_link_delivers_witness :
  ∃ l : link OMClientRequest, rtc link_step link_new l ∧ lk_sent l = [link_request]
    ∧ ∃ pend, [link_request] = lk_got l ++ pend ∧ (length (inbound_data_ (lk_rx l)) < 38)%nat.
Proof.
  set (l := mkLink TCPSocket_new (drop 11 (encode link_request)) (mkTCPSocket [] (take 11 (encode link_request)))
    [link_request] []).
  assert (rtc link_step link_new l) as Hr.
  { eapply rtc_l; [apply (link_send link_request _ (mkTCPSocket (encode link_request) [])); vm_compute; done|].
    eapply rtc_l; [apply (link_flush 38 _ (encode link_request) TCPSocket_new); vm_compute; done|].
    rewrite app_nil_l, <- (take_drop 11 (encode link_request)).
    apply rtc_once. apply (link_deliver (take 11 (encode link_request)) (drop 11 (encode link_request)) TCPSocket_new
      TCPSocket_new true [] (mkTCPSocket [] (take 11 (encode link_request))) [] (mkTCPSocket [] (take 11 (encode link_request)))
      [link_request] []); [|vm_compute; done]. rewrite tcp_recv_fits by (vm_compute; done). done. }
  exists l. split; [exact Hr|]. split; [done|]. destruct (tcp_link_delivers l Hr) as (pend & Hs & _ & Hl & _). by exists pend.
Defined.

(** ** Sockets *)

(** C27. For any kernel that keeps a table of sockets as documented.  [createSocket]
    either fails an assertion or opens one more socket per address it was given,
    leaves the existing ones alone, and returns the last one, which is
    non-blocking, without Nagle delays on TCP, with the requested timestamps, and
    for a listener bound to the configured address, with address reuse and, on TCP,
    the backlog.  [TCPServer::poll] terminates once the waiting connections are
    accepted and appends exactly the new descriptors to both vectors; it never
    removes one. *)
Theorem sockets_as_configured {K} `{!Kernel K} `{!KernelLaws K} (cfg : SocketCfg) (s : TCPServer) (k : K)
    (waiting : K → nat) :
  (∀ fd k, 0 ≤ (sys (Sys_accept fd) k).1 → waiting k = S (waiting (sys (Sys_accept fd) k).2)) →
  (∀ fd k, waiting (sys (Sys_getfl fd) k).2 = waiting k) → (∀ fd fl k, waiting (sys (Sys_setfl fd fl) k).2 = waiting k) →
  (∀ fd o k, waiting (sys (Sys_setsockopt fd o) k).2 = waiting k) →
  wp (createSocket cfg) (λ fd k', (answer_of cfg k).1 = 0 ∧ opened cfg (answer_of cfg k).2 (-1) (table k) fd k') k
  ∧ wp (server_poll (waiting k) s) (λ s' k', ∃ fds,
      s' = mkTCPServer (listener_socket_ s) (receive_sockets_ s ++ fds) (send_sockets_ s ++ fds)
      ∧ Forall (λ fd, 0 ≤ fd) fds ∧ accepted fds (table k) (table k')) k.
Proof. intros H1 H2 H3 H4. split; [apply createSocket_spec|by apply (server_poll_spec waiting)]. Qed.

(** A kernel that takes the least free descriptor and has a queue of connections,
    on which every call succeeds; the flags are the non-blocking bit alone. *)
Record demo_kernel := mkDemoKernel { dk_table : sock_table; dk_queue : nat }.

Definition new_fd (T : sock_table) : Z := Z.of_nat (fresh (Z.to_nat <$> elements (dom T))).

Lemma new_fd_free T : 0 ≤ new_fd T ∧ T !! new_fd T = None.
Proof.
  unfold new_fd. set (l := Z.to_nat <$> elements (dom T)). split; [lia|]. apply not_elem_of_dom. intros Hin.
  apply (infinite_is_fresh l). rewrite <- (Nat2Z.id (fresh l)). unfold l at 1. apply list_elem_of_fmap.
  exists (Z.of_nat (fresh l)). split; [done|]. by apply elem_of_elements.
Qed.

#[local] Instance demo_Kernel : Kernel demo_kernel := {
  sys c k :=
    let '(mkDemoKernel T n) := k in
    match c with
    | Sys_socket _ _ _ => (new_fd T, mkDemoKernel (<[new_fd T := fresh_socket]> T) n)
    | Sys_getfl fd => (match T !! fd with Some st => if st_nonblocking st then 4 else 0 | None => -1 end, k)
    | Sys_setfl fd flags => (0, mkDemoKernel (alter (set_nonblocking (negb (Z.land flags 4 =? 0))) fd T) n)
    | Sys_setsockopt fd o => (0, mkDemoKernel (alter (add_opt o) fd T) n)
    | Sys_connect _ _ => (0, k)
    | Sys_bind fd a => (0, mkDemoKernel (alter (set_bound a) fd T) n)
    | Sys_listen fd b => (0, mkDemoKernel (alter (set_backlog b) fd T) n)
    | Sys_accept _ =>
        match n with
        | O => (-1, k)
        | S n => (new_fd T, mkDemoKernel (<[new_fd T := fresh_socket]> T) n)
        end
    | Sys_close fd => (0, mkDemoKernel (delete fd T) n)
    end;
  getifaddrs _ := Some [mkIfaddrs "lo0" (Some (AF_INET, "127.0.0.1"%string))];
  getaddrinfo ip port h _ :=
    (0, [mkAddrinfo (hint_family h) (hint_socktype h) (hint_protocol h) (mkSockaddr (Some ip) 12345)]);
  O_NONBLOCK := 4;
  is_linux := false;
  has_reuseport := true }.

#[local] Instance demo_KernelLaws : KernelLaws demo_kernel.
Proof.
  refine {| table := dk_table; O_NONBLOCK_pos := eq_refl |}.
  intros c [T n]. pose proof (new_fd_free T) as [H0 Hn].
  destruct c; cbn [sys demo_Kernel fst snd dk_table effect]; try (by left); try done.
  - destruct (Z.eqb_spec (new_fd T) (-1)); [lia|done].
  - split; [done|]. intros st ->. by destruct (st_nonblocking st).
  - destruct n; [done|]. cbn [fst snd dk_table]. destruct (Z.ltb_spec (new_fd T) 0); [lia|]. split; [done|]. by eexists.
Defined.

(** The order server's listener, and two connections waiting for it. *)
Definition demo_cfg : SocketCfg := mkSocketCfg "" "lo0" 12345 false true true.

Lemma sockets_as_configured_witness :
  (∃ fd k' st, createSocket demo_cfg (mkDemoKernel ∅ 2) = Ok (fd, k') ∧ table k' !! fd = Some st
     ∧ st_nonblocking st = true ∧ st_bound st = Some (mkSockaddr (Some "127.0.0.1"%string) 12345)
     ∧ st_backlog st = Some 1024)
  ∧ ∃ s' k', server_poll 2 TCPServer_new (mkDemoKernel ∅ 2) = Ok (s', k') ∧ length (receive_sockets_ s') = 2%nat.
Proof.
  destruct (sockets_as_configured demo_cfg TCPServer_new (mkDemoKernel ∅ 2) dk_queue) as [Hc Hp].
  - intros fd [T n]. destruct n; [by intros H|done].
  - by intros fd [T n].
  - by intros fd fl [T n].
  - by intros fd o [T n].
  - split.
    + unfold wp in Hc. destruct (createSocket demo_cfg (mkDemoKernel ∅ 2)) as [[fd k']|e] eqn:E; [|vm_compute in E; discriminate E].
      destruct Hc as (_ & _ & _ & _ & _ & st & Hst & [H1 _ _ H4 H5 _]). exists fd, k', st. split_and!; [done|exact Hst|exact H1|exact H4|exact H5].
    + unfold wp in Hp. change (dk_queue (mkDemoKernel ∅ 2)) with 2%nat in Hp.
      destruct (server_poll 2 TCPServer_new (mkDemoKernel ∅ 2)) as [[s' k']|e] eqn:E; [|vm_compute in E; discriminate E].
      exists s', k'. split; [done|]. destruct Hp as (fds & Hs & _). clear Hs. vm_compute in E. by injection E as <- _.
Defined.
