(* ===== verification/ExchangeTheorems.v ===== *)
(** * What the exchange guarantees.

    The properties of the order book (MEOrderBook.v), of the matching engine
    (MatchingEngine.v) and of the order server (OrderServer.v), each with a
    concrete instance of its hypotheses. *)

From stdpp Require Import gmap list sorting relations.
From S2P Require Import Prelude MemPool Types LFQueue Wire BookCore BookSpec BookRep BookRemove BookRefine BookDump MarketOrderBook MEOrderBook MESpec MERefine MEInv MatchingEngine OrderServer.

Open Scope Z_scope.
Local Coercion Z.of_nat : nat >-> Z.

(** A sink that records the messages, for the instances. *)
#[local] Instance trace_sink : EngineSink (list event) := {
  sendClientResponse r tr := tr ++ [Private r];
  sendMarketUpdate u tr := tr ++ [Public u] }.

(** Two sells of client 1 at 100 and 101, then a buy of client 2 that takes the
    first and part of the second, then a cancel. *)
Definition demo_run : list book_request :=
  [ NewOrder 1 1 0 SELL 100 10; NewOrder 1 2 0 SELL 101 5; NewOrder 2 1 0 BUY 101 12;
    CancelOrder 1 2 0 ].



(** ** Matching engine *)



(** ** Order book *)

(** C8. The two operations of a book that stores an abstract book.  On any valid
    new order [add] returns, sends exactly the messages of the specification in
    order (acceptance, fills, the resting residual) and leaves the pointer
    structure representing the specified book.  [cancel] removes a resting order
    and announces it (public CANCEL, then private CANCELED), rejects anything
    else without a change, and throws for an order id beyond the index array. *)
Theorem book_operations_refine {E} `{!EngineSink E} client_id oid ticker_id ob sp (e : E) :
  me_rep ob sp →
  (∀ side price qty, valid_new client_id oid side price qty (sp_book sp) →
     ∃ ob', add client_id oid ticker_id side price qty ob e
            = Ok (ob', emit_all (spec_add client_id oid ticker_id side price qty sp).2 e)
          ∧ me_rep ob' (spec_add client_id oid ticker_id side price qty sp).1)
  ∧ (0 ≤ oid < ME_MAX_ORDER_IDS →
     ∃ ob', cancel client_id oid ticker_id ob e
            = Ok (ob', emit_all (spec_cancel client_id oid ticker_id sp).2 e)
          ∧ me_rep ob' (spec_cancel client_id oid ticker_id sp).1)
  ∧ (client_id < ME_MAX_NUM_CLIENTS → ME_MAX_ORDER_IDS ≤ oid →
     cancel client_id oid ticker_id ob e = Err OutOfRange).
Proof.
  intros Hr. split_and!; [| |by apply cancel_out_of_range].
  - intros side price qty Hv. pose proof (add_ok client_id oid ticker_id side price qty ob sp e Hr Hv) as Ha.
    destruct (spec_add client_id oid ticker_id side price qty sp). destruct Ha as (ob' & ? & ? & _). eauto.
  - intros Ho. pose proof (cancel_ok client_id oid ticker_id ob sp e Hr Ho) as Hc.
    destruct (spec_cancel client_id oid ticker_id sp). destruct Hc as (ob' & ? & ? & _). eauto.
Qed.

Lemma book_operations_refine_witness :
  (∃ ob', add 1 1 0 SELL 100 10 (MEOrderBook_new zeroed 0) ([] : list event)
          = Ok (ob', emit_all (spec_add 1 1 0 SELL 100 10 MESpec_new).2 []))
  ∧ (∃ ob', cancel 1 1 0 (MEOrderBook_new zeroed 0) ([] : list event)
            = Ok (ob', emit_all (spec_cancel 1 1 0 MESpec_new).2 []))
  ∧ cancel 1 ME_MAX_ORDER_IDS 0 (MEOrderBook_new zeroed 0) ([] : list event) = Err OutOfRange.
Proof.
  destruct (book_operations_refine 1 1 0 (MEOrderBook_new zeroed 0) MESpec_new ([] : list event) (me_rep_new 0)) as (H1 & H2 & _).
  destruct (book_operations_refine 1 ME_MAX_ORDER_IDS 0 (MEOrderBook_new zeroed 0) MESpec_new ([] : list event) (me_rep_new 0))
    as (_ & _ & H3).
  split_and!; [| |apply H3; vm_compute; done].
  - destruct (H1 SELL 100 10) as (ob' & E & _); [apply valid_newb_sound; vm_compute; done|]. exists ob'. exact E.
  - destruct (H2 ltac:(vm_compute; done)) as (ob' & E & _). exists ob'. exact E.
Defined.

(** The heads of the level lists carry the best prices. *)
Lemma side_head_price (b : Book MEOrder (Z * Z)) ab s i :
  rep b ab → proper_side s → side_head b s = Some i →
  ∃ x, x ∈ ab_side ab s ∧ lvl_price_ (level b i) = price_ x.
Proof.
  intros Hr Hs Hh. destruct (ab_side ab s) as [|x q] eqn:Eq.
  - pose proof (rep_best _ _ s Hr Hs) as Hn. rewrite Eq in Hn. congruence.
  - destruct (rep_best_level _ _ s x q Hr Hs Eq) as (lp & j & os & Hh' & _ & Hp & _).
    rewrite Hh in Hh'. injection Hh' as ->. exists x. split; [by left|done].
Qed.

Lemma heads_uncrossed ob sp bid ask :
  me_rep ob sp → book_inv sp →
  bids_by_price_ (me_book ob) = Some bid → asks_by_price_ (me_book ob) = Some ask →
  lvl_price_ (level (me_book ob) bid) < lvl_price_ (level (me_book ob) ask).
Proof.
  intros (Hr & _) Hi Hb Ha.
  destruct (side_head_price _ _ BUY bid Hr (or_introl eq_refl) Hb) as (x & Hx & ->).
  destruct (side_head_price _ _ SELL ask Hr (or_intror eq_refl) Ha) as (y & Hy & ->).
  by apply (bi_uncrossed _ Hi).
Qed.

(** C6. From a new book whose index arrays lie in memory of zeros (the constructor
    does not initialise them), any run of valid requests succeeds and ends in a state
    that represents the specified book and satisfies the book invariant: positive
    32-bit quantities, bids below asks, price priority on each side, time
    priority (increasing priorities and ids) within a price, unique ids.  In the
    pointer structure the heads of the two level lists are uncrossed: the best
    bid price is strictly below the best ask price.  The textual dump of the
    result is the specified book, and its check that the levels are sorted passes
    for all prices but the two extreme 64-bit values. *)
Theorem book_run_invariant {E} `{!EngineSink E} ticker_id (rs : list book_request) (e : E) :
  valid_run rs MESpec_new →
  ∃ ob', run_book rs (MEOrderBook_new zeroed ticker_id) e = Ok (ob', emit_all (spec_run rs MESpec_new).2 e)
       ∧ me_rep ob' (spec_run rs MESpec_new).1 ∧ book_inv (spec_run rs MESpec_new).1
       ∧ (∀ bid ask, bids_by_price_ (me_book ob') = Some bid → asks_by_price_ (me_book ob') = Some ask →
           lvl_price_ (level (me_book ob') bid) < lvl_price_ (level (me_book ob') ask))
       ∧ ∀ detailed check,
           (check = true → Forall printable_price (ab_all (sp_book (spec_run rs MESpec_new).1))) →
           MEOrderBook_toString detailed check ob'
             = Ok (spec_dump (me_ticker_id_ ob') detailed (sp_book (spec_run rs MESpec_new).1)).
Proof.
  intros Hv. pose proof (run_book_ok rs _ _ e (me_rep_new ticker_id) book_inv_new Hv) as Hr.
  destruct (spec_run rs MESpec_new). destruct Hr as (ob' & ? & Hm & ? & _). exists ob'.
  split_and!; [done..| |].
  - intros bid ask. by eapply heads_uncrossed.
  - intros detailed check. apply dump_ok, Hm.
Qed.

Lemma checkForMatch_empty {E} `{!EngineSink E} client_id oid ticker_id side price qty moid b (e : E) :
  bids_by_price_ b = None → asks_by_price_ b = None →
  checkForMatch client_id oid ticker_id side price qty moid b e = Ok (qty, b, e).
Proof.
  intros Hb Ha. assert (∀ fuel opp, checkForMatch_loop fuel client_id oid ticker_id side opp price moid qty b e = Ok (qty, b, e)) as Hl.
  { intros [|fuel] opp; cbn [checkForMatch_loop]; (destruct (qty =? 0); [done|]); unfold side_head; rewrite Hb, Ha; by destruct (is_buy opp). }
  unfold checkForMatch. destruct (is_buy side); [rewrite Hl|]; cbn [rbind]; (destruct (is_sell side); [apply Hl|done]).
Qed.

(** What the zeros are needed for: where the price index of a new exchange or client
    book holds a stale pointer instead, the first order at a price of that slot finds
    a level without orders and follows its null pointer. *)
Theorem stale_index_stops_first_order {E} `{!EngineSink E} (mem : IndexMemory (Z * Z)) (mem' : IndexMemory Z)
    ticker_id client_id oid side price qty u (e : E) :
  is_Some (mem_prices mem !! priceToIndex price) → 0 < qty →
  is_Some (mem_prices mem' !! priceToIndex (mu_price_ u)) → mu_type_ u = MU_ADD →
  add client_id oid ticker_id side price qty (MEOrderBook_new mem ticker_id) e = Err NullDeref
  ∧ onMarketUpdate u (MarketOrderBook_new mem' ticker_id) = Err NullDeref.
Proof.
  intros [lp Hlp] Hq [lp' Hlp'] Ht. split.
  - unfold add. cbn [generateNewMarketOrderId MEOrderBook_new me_book]. rewrite checkForMatch_empty by done. cbn [rbind].
    rewrite (proj2 (Z.eqb_neq qty 0)) by lia. unfold getNextPriority, getOrdersAtPrice. cbn. by rewrite Hlp.
  - unfold onMarketUpdate, apply_update, mkt_addOrder. rewrite Ht. cbn [MarketOrderBook_new mkt_book]. rewrite bool_decide_eq_false_2 by done.
    destruct (allocate_some (mkt_order u) (order_pool_ (Book_new mem'))) as (p & -> & Ha);
      [by apply pool_wf_new|rewrite (size_used _ []); [done|constructor|]; intros i; split; [by intros ?%in_use_new|by intros ?%elem_of_nil]|].
    cbn [rbind]. unfold addOrder.
    set (i := next_free_index_ _) in *. assert (order (set_order_pool p (Book_new mem')) i = mkt_order u) as ->
      by (unfold order; simpl; rewrite (allocated_obj _ _ _ _ i Ha); by rewrite decide_True).
    unfold getOrdersAtPrice. cbn. by rewrite Hlp'.
Qed.

Lemma stale_index_stops_first_order_witness :
  add 1 1 0 SELL 100 3 (MEOrderBook_new (mkIndexMemory {[100 := 7]} ∅) 0) ([] : list event) = Err NullDeref.
Proof.
  refine (proj1 (stale_index_stops_first_order (mkIndexMemory {[100 := 7]} ∅) (mkIndexMemory {[100 := 7]} ∅) 0 1 1 SELL 100 3
    (mkMEMarketUpdate MU_ADD 1 0 BUY 100 10 1) ([] : list event) _ _ _ eq_refl)); [by eexists|lia|by eexists].
Defined.

Definition two_sided : list book_request := [NewOrder 1 1 0 SELL 101 10; NewOrder 2 1 0 BUY 100 4].

Lemma book_run_invariant_witness :
  (∃ ob', run_book demo_run (MEOrderBook_new zeroed 0) ([] : list event)
          = Ok (ob', emit_all (spec_run demo_run MESpec_new).2 [])
        ∧ book_inv (spec_run demo_run MESpec_new).1)
  ∧ ∃ ob bid ask, lvl_price_ (level (me_book ob) bid) < lvl_price_ (level (me_book ob) ask)
      ∧ ∃ text, MEOrderBook_toString true true ob = Ok text.
Proof.
  split.
  - destruct (book_run_invariant 0 demo_run ([] : list event)) as (ob' & E & _ & Hi & _).
    + apply valid_runb_sound. vm_compute. done.
    + exists ob'. split; [exact E|exact Hi].
  - destruct (run_book two_sided (MEOrderBook_new zeroed 0) ([] : list event)) as [[ob tr]|] eqn:E; [|by vm_compute in E].
    assert (bids_by_price_ (me_book ob) = Some 1 ∧ asks_by_price_ (me_book ob) = Some 0) as [Hb Ha].
    { vm_compute in E. injection E as <- _. done. }
    destruct (book_run_invariant 0 two_sided ([] : list event)) as (ob' & E' & _ & _ & Hx & Hd).
    + apply valid_runb_sound. vm_compute. done.
    + rewrite E in E'. injection E' as <- _. exists ob, 1, 0. split; [exact (Hx 1 0 Hb Ha)|].
      eexists. apply (Hd true true). intros _. apply (bool_decide_unpack _). vm_compute. done.
Defined.



(** A book with one sell of 3 at 100. *)
Definition resting_sell : MEOrder := mkMEOrder 0 1 1 1 SELL 100 3 1 None None.

Lemma one_ask : ∃ b, rep b (mkAbs [] [resting_sell]).
Proof.
  pose proof (add_ok 1 1 0 SELL 100 3 (MEOrderBook_new zeroed 0) MESpec_new ([] : list event) (me_rep_new 0)) as Ha.
  destruct Ha as (ob & _ & (Hr & _) & _); [apply valid_newb_sound; vm_compute; done|].
  exists (me_book ob). exact Hr.
Qed.

Lemma resting_sell_qty : Forall qty_ok (ab_all (mkAbs [] [resting_sell])).
Proof. apply Forall_singleton. by vm_compute. Qed.


(** The fills of an aggressor report its market order id truncated to 32 bits
    (the id travels through a parameter of type [Qty]): once 2^32 ids have been
    handed out, the acceptance and the fill of the same order disagree. *)
Theorem aggressor_fill_id_truncated (n : Z) (ob : MEOrderBook) (b : Book MEOrder (Z * Z)) :
  rep b (mkAbs [] [resting_sell]) → ob = mkMEOrderBook 0 b n → 0 ≤ n →
  ∃ ob' rest,
    add 2 1 0 BUY 100 3 ob ([] : list event) =
    Ok (ob', Private (mkMEClientResponse ACCEPTED 2 0 1 n BUY 100 0 3)
             :: Private (mkMEClientResponse FILLED 2 0 1 (n `mod` 2 ^ 32) BUY 100 3 0) :: rest).
Proof.
  intros Hb -> Hn.
  destruct (add_ok 2 1 0 BUY 100 3 (mkMEOrderBook 0 b n) (mkMESpec (mkAbs [] [resting_sell]) n) ([] : list event))
    as (ob' & E & _).
  - split_and!; [exact Hb|done|apply resting_sell_qty].
  - apply valid_newb_sound. vm_compute. done.
  - exists ob'. eexists. rewrite E. unfold emit_all. simpl. done.
Qed.

Lemma aggressor_fill_id_truncated_witness :
  ∃ b ob' rest, add 2 1 0 BUY 100 3 (mkMEOrderBook 0 b (2 ^ 32 + 5)) ([] : list event) =
    Ok (ob', Private (mkMEClientResponse ACCEPTED 2 0 1 (2 ^ 32 + 5) BUY 100 0 3)
             :: Private (mkMEClientResponse FILLED 2 0 1 5 BUY 100 3 0) :: rest).
Proof.
  destruct one_ask as [b Hb]. exists b.
  destruct (aggressor_fill_id_truncated (2 ^ 32 + 5) (mkMEOrderBook 0 b (2 ^ 32 + 5)) b Hb eq_refl ltac:(lia))
    as (ob' & rest & E).
  exists ob', rest. exact E.
Defined.

(** ** Order server *)

(** C12. Which requests reach the matching engine, for the messages decoded from socket
    [fd] (client ids in range, room in the batch).  A client id that has no socket is
    bound to this one by its first message, and a bound one keeps its socket.  What
    is staged of a client bound to this socket is exactly, and in order, each of its
    messages that carries the next expected sequence number when it is reached; the
    expected number advances by their number.  Nothing is staged of a client bound to
    another socket. *)
Theorem order_server_accepts fd rx_time ms os :
  Forall (λ m, cid_in_range (req_client_id_ (me_client_request_ m)) = true) ms →
  length (pending_client_requests_ os) + length ms ≤ ME_MAX_PENDING_REQUESTS →
  (∀ c, 0 ≤ seq_of (cid_next_exp_seq_num_ os) c
        ∧ seq_of (cid_next_exp_seq_num_ os) c + length ms < 2 ^ 64) →
  ∃ os' acc, recv_requests fd rx_time ms os = Ok os'
    ∧ pending_client_requests_ os' = pending_client_requests_ os ++ (stage rx_time <$> acc)
    ∧ acc `sublist_of` ms
    ∧ ∀ c, (∀ s, cid_tcp_socket_ os !! c = Some s → cid_tcp_socket_ os' !! c = Some s)
         ∧ (cid_tcp_socket_ os !! c = None → of_client c ms ≠ [] → cid_tcp_socket_ os' !! c = Some fd)
         ∧ (cid_tcp_socket_ os !! c = None → of_client c ms = [] → cid_tcp_socket_ os' !! c = None)
         ∧ (cid_tcp_socket_ os' !! c = Some fd →
              of_client c acc = in_sequence omreq_seq_num_ (seq_of (cid_next_exp_seq_num_ os) c) (of_client c ms))
         ∧ (cid_tcp_socket_ os' !! c ≠ Some fd → of_client c acc = [])
         ∧ omreq_seq_num_ <$> of_client c acc
             = seqZ (seq_of (cid_next_exp_seq_num_ os) c) (length (of_client c acc))
         ∧ seq_of (cid_next_exp_seq_num_ os') c
             = seq_of (cid_next_exp_seq_num_ os) c + length (of_client c acc).
Proof.
  intros Hms Hlen Hseq. pose proof (recv_requests_ok fd rx_time ms os Hms Hlen) as Hr.
  destruct (accept_run fd (cid_tcp_socket_ os) (cid_next_exp_seq_num_ os) ms) as [[bind exp] acc] eqn:Ea.
  exists (mkOrderServer (cid_next_outgoing_seq_num_ os) exp bind (sockets_ os)
    (pending_client_requests_ os ++ (stage rx_time <$> acc)) (os_incoming_requests_ os)
    (outgoing_responses_ os)), acc. cbn [cid_tcp_socket_ cid_next_exp_seq_num_].
  split_and!; [exact Hr|done|by eapply accept_run_sublist|]. intros c. destruct (Hseq c) as [H0 Hlt].
  destruct (accept_run_client fd c _ _ _ _ _ _ Ea) as [Hb Hacc]. unfold bound_after in Hb.
  split_and!; [| | |intros E; by rewrite decide_True in Hacc|intros E; by rewrite decide_False in Hacc|by apply (accept_run_seq fd c _ _ _ _ _ _ Ea)..].
  - intros s Es. by rewrite Hb, Es.
  - intros En Hne. rewrite Hb, En. by destruct (of_client c ms).
  - intros En He. by rewrite Hb, En, He.
Qed.

Definition demo_om (seq oid : Z) : OMClientRequest :=
  mkOMClientRequest seq (mkMEClientRequest Req_NEW 3 0 oid BUY 100 1).

(** The second message is a replay: the first and the third are staged. *)
Lemma order_server_accepts_witness :
  ∃ os', recv_requests 0 50 [demo_om 1 1; demo_om 1 1; demo_om 2 2]
           (OrderServer_new (LFQueue_new 4) (LFQueue_new 4)) = Ok os'
    ∧ ∃ acc, pending_client_requests_ os' = stage 50 <$> acc ∧ of_client 3 acc = [demo_om 1 1; demo_om 2 2]
    ∧ cid_tcp_socket_ os' !! 3 = Some 0.
Proof.
  destruct (order_server_accepts 0 50 [demo_om 1 1; demo_om 1 1; demo_om 2 2]
    (OrderServer_new (LFQueue_new 4) (LFQueue_new 4))) as (os' & acc & E & Hp & _ & Hc).
  - repeat (apply Forall_cons; split; [vm_compute; done|]). constructor.
  - vm_compute. done.
  - intros c. unfold OrderServer_new, seq_of. simpl. rewrite lookup_empty. simpl. lia.
  - destruct (Hc 3) as (_ & Hb & _ & Hacc & _). exists os'. split; [exact E|]. exists acc. split; [exact Hp|].
    assert (cid_tcp_socket_ os' !! 3 = Some 0) as Hs by (apply Hb; [reflexivity|vm_compute; discriminate]).
    split; [|exact Hs]. rewrite (Hacc Hs). vm_compute. reflexivity.
Defined.

(** A client id from the wire is used as an array index unchecked: a message
    with an id of 256 or more reads and writes outside the three tables. *)
Theorem order_server_client_id_unchecked fd rx_time ms os m :
  ME_MAX_NUM_CLIENTS ≤ req_client_id_ (me_client_request_ m) →
  recv_requests fd rx_time (m :: ms) os = Err Undefined.
Proof.
  intros Hm. simpl. rewrite recv_request_out_of_range; [done|].
  unfold cid_in_range. rewrite (proj2 (Z.ltb_ge _ _)) by lia. apply andb_false_r.
Qed.

Lemma order_server_client_id_unchecked_witness :
  recv_requests 0 50 [mkOMClientRequest 1 (mkMEClientRequest Req_NEW 256 0 1 BUY 100 1)]
    (OrderServer_new (LFQueue_new 4) (LFQueue_new 4)) = Err Undefined.
Proof. apply (order_server_client_id_unchecked 0 50 []). vm_compute. done. Defined.

(** C28. A round of the sequencer.  The arriving requests are staged in the order in
    which they are decoded, up to 1024 of them; one more aborts the process.
    Publishing a batch writes it to the matching engine's queue in the order of the
    receive times, earliest first, none lost or duplicated, behind what was there,
    and empties it; so requests that arrived at increasing times keep their order.
    The queue has room for the batch.  [std::sort] is only assumed to sort by whatever
    strict weak order it is given: that the source's [operator<] is one, and which
    order it is, is part of the proof. *)
Theorem sequencer_orders_by_time `{SORT : StdSort} arrivals q l :
  lfq_rep q l → length l + length arrivals ≤ q_size q →
  (ME_MAX_PENDING_REQUESTS < length arrivals → stage_all arrivals [] = Err FatalError)
  ∧ (length arrivals ≤ ME_MAX_PENDING_REQUESTS →
     ∃ pending batch q', stage_all arrivals [] = Ok pending ∧ sequenceAndPublish pending q = ([], q')
       ∧ lfq_rep q' (l ++ (request_ <$> batch))
       ∧ batch ≡ₚ arrivals ∧ StronglySorted (λ x y, recv_time_ x ≤ recv_time_ y) batch
       ∧ (StronglySorted (λ x y, recv_time_ x < recv_time_ y) arrivals → batch = arrivals)).
Proof.
  intros Hq Hroom. pose proof (stage_all_ok arrivals [] ltac:(done)) as Hst. cbn [length app] in Hst. split; intros Hn.
  - rewrite Hst, (proj2 (Z.leb_gt _ _)) by lia. done.
  - destruct (sequenceAndPublish_ok arrivals q l Hq Hroom) as (batch & q' & E & Hq' & Hp & Hs). exists arrivals, batch, q'.
    rewrite Hst, (proj2 (Z.leb_le _ _)) by lia. split_and!; try done. intros Ha. by apply sorted_arrivals_kept.
Qed.

(** Another sort the standard allows for [std::sort]: stable on the reversed input. *)
Definition reversing_sort : StdSort.
Proof.
  refine {| std_sort _ lt l := std_merge_sort lt (reverse l) |}.
  - intros A lt l _. unfold std_merge_sort. rewrite merge_sort_Permutation. apply reverse_Permutation.
  - intros A lt l. apply std_merge_sort_sorted.
Defined.

Definition demo_req (oid : Z) : MEClientRequest := mkMEClientRequest Req_NEW 3 0 oid BUY 100 1.

Lemma sequencer_orders_by_time_witness :
  ∃ pending q', stage_all [mkRecvTime 9 (demo_req 2); mkRecvTime 5 (demo_req 1)] [] = Ok pending
    ∧ sequenceAndPublish (SORT := stable_sort) pending (LFQueue_new 4) = ([], q')
    ∧ lfq_rep q' [demo_req 1; demo_req 2].
Proof.
  destruct (sequencer_orders_by_time (SORT := stable_sort)
    [mkRecvTime 9 (demo_req 2); mkRecvTime 5 (demo_req 1)] (LFQueue_new 4) []
    (lfq_rep_new 4 ltac:(lia)) ltac:(vm_compute; done)) as [_ H].
  destruct (H ltac:(vm_compute; discriminate)) as (pending & batch & q' & Es & E & Hq & Hp & Hs & _).
  exists pending, q'. split_and!; [exact Es|exact E|]. symmetry in Hp. apply Permutation_length_2_inv in Hp as [-> | ->]; [|exact Hq].
  apply StronglySorted_inv in Hs as [_ Hs]. apply Forall_inv in Hs. simpl in Hs. lia.
Defined.

(** The order of requests that arrived in one read is not protected: they carry
    the same receive time, and [std::sort] may exchange them, so a cancel can
    overtake the new order of the same client sent before it. *)
Theorem sequencer_may_reorder_equal_times (t : Z) (r1 r2 : MEClientRequest) (q : LFQueue MEClientRequest) :
  ∃ S : StdSort, sequenceAndPublish (SORT := S) [mkRecvTime t r1; mkRecvTime t r2] q
                 = ([], enqueue_all [r2; r1] q).
Proof.
  exists reversing_sort. unfold sequenceAndPublish. do 2 f_equal.
  unfold std_sort, reversing_sort, std_merge_sort. cbn.
  assert (∀ a b, recv_time_ a = recv_time_ b → unordered recv_time_lt a b) as Hu by (intros a b H; unfold unordered, recv_time_lt; lia).
  match goal with |- context [decide ?P] => destruct (decide P) as [_|[]]; [done|by apply Hu] end.
Qed.

(** Responses: draining the response queue sends every response to the socket
    its client is bound to, in order, framed with the client's next sequence
    numbers, which are consecutive per client; so a client that reads its socket
    decodes exactly those messages. *)
Theorem order_server_responds rs os fd :
  lfq_rep (outgoing_responses_ os) rs →
  Forall (λ r, cid_in_range (resp_client_id_ r) = true
             ∧ is_Some (cid_tcp_socket_ os !! resp_client_id_ r)) rs →
  (∀ fd, length (outbound_data_ (socket_of os fd)) + 50 * length rs ≤ TCPBufferSize) →
  (∀ c, 0 ≤ seq_of (cid_next_outgoing_seq_num_ os) c
        ∧ seq_of (cid_next_outgoing_seq_num_ os) c + length rs < 2 ^ 64) →
  ∃ os' framed, drain_responses (length rs) os = Ok os' ∧ lfq_rep (outgoing_responses_ os') []
    ∧ me_client_response_ <$> framed = rs
    ∧ outbound_data_ (socket_of os' fd) = outbound_data_ (socket_of os fd)
        ++ concat (encode <$> to_socket (cid_tcp_socket_ os) fd framed)
    ∧ ∀ c, omresp_seq_num_ <$> responses_of c framed
           = seqZ (seq_of (cid_next_outgoing_seq_num_ os) c) (length (responses_of c framed)).
Proof.
  intros Hq Hrs Hl Hseq. destruct (drain_responses_ok rs os Hq Hrs Hl) as (os' & E & Hq' & Hout).
  exists os', (frame_responses (cid_next_outgoing_seq_num_ os) rs).
  split_and!; [exact E|done|apply frame_responses_payload|apply Hout|].
  intros c. destruct (Hseq c). by apply frame_responses_seq.
Qed.

Definition demo_response : MEClientResponse := mkMEClientResponse ACCEPTED 3 0 1 1 BUY 100 0 1.

Definition demo_server : OrderServer :=
  mkOrderServer ∅ ∅ {[3 := 0]} ∅ [] (LFQueue_new 4) (enqueue_all [demo_response] (LFQueue_new 4)).

Lemma order_server_responds_witness :
  ∃ os' framed, drain_responses 1 demo_server = Ok os' ∧ me_client_response_ <$> framed = [demo_response].
Proof.
  destruct (order_server_responds [demo_response] demo_server 0) as (os' & framed & E & _ & Hp & _).
  - exact (proj1 (enqueue_all_ok [demo_response] (LFQueue_new 4) [] (lfq_rep_new 4 ltac:(lia))
      ltac:(vm_compute; done))).
  - apply Forall_singleton. split; [vm_compute; done|]. exists 0. vm_compute. done.
  - intros fd. unfold demo_server, socket_of. simpl. rewrite lookup_empty. vm_compute. done.
  - intros c. unfold demo_server, seq_of. simpl. rewrite lookup_empty. simpl. lia.
  - exists os', framed. split; [exact E|exact Hp].
Defined.
