(* ===== verification/FeedTheorems.v ===== *)
(** * What the public market-data feed guarantees.

    The publisher and the snapshot synthesizer (MarketData.v, Mirror.v, Snapshot.v,
    System.v), each property with a concrete instance of its hypotheses; the way
    on to the books of a client is in SessionTheorems.v. *)

From stdpp Require Import gmap list sorting.
From S2P Require Import Prelude TimeUtils MemPool Types LFQueue Wire BookCore BookSpec BookRep BookRemove BookRefine MarketOrderBook MEOrderBook MESpec MERefine MEInv MatchingEngine MarketData Mirror Snapshot System.

Open Scope Z_scope.
Local Coercion Z.of_nat : nat >-> Z.

(** Orders on two tickers, with a trade and a cancel. *)
Definition feed_requests : list MEClientRequest :=
  [ mkMEClientRequest Req_NEW 1 0 1 SELL 100 10; mkMEClientRequest Req_NEW 1 3 2 SELL 50 5;
    mkMEClientRequest Req_NEW 2 0 1 BUY 100 4; mkMEClientRequest Req_NEW 2 0 2 SELL 100 7;
    mkMEClientRequest Req_CANCEL 1 3 2 Side_INVALID Price_INVALID Qty_INVALID ].

Lemma feed_requests_valid :
  valid_engine_run feed_requests fresh_books ∧ tickers_ok feed_requests fresh_books
  ∧ ids_left (length feed_requests) fresh_books.
Proof.
  split_and!.
  - apply valid_engine_runb_sound. vm_compute. done.
  - apply (bool_decide_unpack (tickers_ok feed_requests fresh_books)). vm_compute. done.
  - apply (bool_decide_unpack (ids_left (length feed_requests) fresh_books)). vm_compute. done.
Qed.

(** ** Publisher *)

(** A turn of the publisher on [us] waiting updates: they leave the queue and
    are numbered consecutively; the same numbered updates, in the same order, go
    to the synthesizer's queue and, if the kernel takes the staged bytes, out on
    the incremental stream, from which a subscriber decodes exactly them. *)
Theorem publisher_numbers_feed (us : list MEMarketUpdate) (p : MarketDataPublisher) (n : Z) :
  lfq_rep (pub_outgoing_md_updates_ p) us → lfq_rep (snapshot_md_updates_ p) [] →
  length us ≤ q_size (snapshot_md_updates_ p) → mc_outbound (incremental_socket_ p) = [] →
  42 * length us ≤ McastBufferSize → Forall update_wf us →
  0 ≤ next_inc_seq_num_ p → next_inc_seq_num_ p + length us < 2 ^ 64 → n = 42 * length us →
  ∃ sent p', publisher_turn n p = Ok (sent, p')
    ∧ lfq_rep (pub_outgoing_md_updates_ p') []
    ∧ lfq_rep (snapshot_md_updates_ p') (number_updates (next_inc_seq_num_ p) us)
    ∧ next_inc_seq_num_ p' = next_inc_seq_num_ p + length us
    ∧ mc_outbound (incremental_socket_ p') = []
    ∧ parse_stream sent = (number_updates (next_inc_seq_num_ p) us, []).
Proof.
  intros Hq Hs Hr Ho Hl Hwf H0 Hlt Hn.
  destruct (publisher_turn_ok us p n Hq Hs Hr Ho Hl H0 Hlt Hn) as (sent & p' & E & H1 & H2 & H3 & H4 & ->).
  eexists _, p'. split_and!; [done..|]. rewrite <- (app_nil_r (concat _)).
  apply parse_stream_encode; [|simpl; lia]. by apply number_updates_wf.
Qed.

Definition feed_updates : list MEMarketUpdate :=
  [ mkMEMarketUpdate MU_ADD 1 0 SELL 100 10 1; mkMEMarketUpdate MU_CANCEL 1 0 SELL 100 0 1 ].

(** ** Snapshots *)

(** C14. Recovery: feed the synthesizer the numbered updates of a run of valid
    requests from fresh books, of at most 2^20 - 2 requests, with fewer than 2^20
    updates and with books that end with room for one more order and level; it
    accepts all of them (order ids beyond 2^20 - 1 it would refuse), and the ADDs of
    each ticker in the snapshot it would publish then, replayed on a new client book
    whose index arrays lie in memory of zeros, give back the exchange's book of that ticker with its price-time priority and its
    best-bid-offer; the snapshot is labelled with the number of the last update. *)
Theorem snapshot_rebuilds_exchange (reqs : list MEClientRequest) :
  let us := publics (engine_spec_run reqs fresh_books).2 in
  let sps := (engine_spec_run reqs fresh_books).1 in
  valid_engine_run reqs fresh_books → tickers_ok reqs fresh_books → 1 + length reqs < ME_MAX_ORDER_IDS →
  Z.of_nat (length us) < ME_MAX_ORDER_IDS → Forall (λ sp, has_room (sp_book sp)) sps →
  ∃ s, add_all_to_snapshot (number_updates 1 us) SnapshotSynthesizer_new = Ok s
    ∧ last_inc_seq_num_ s = length us
    ∧ ∀ t sp, 0 ≤ t → sps !! Z.to_nat t = Some sp →
        ∃ mb, mkt_replay (ticker_snapshot t s) (MarketOrderBook_new zeroed t) = Ok mb
          ∧ rep (mkt_book mb) (mirror (sp_book sp)) ∧ bbo_ok (bbo_ mb) (mirror (sp_book sp)).
Proof.
  intros us sps Hv Ht Hn Hl Hroom. destruct (fresh_synthesizer reqs Hv Ht Hn Hl) as (s & E & Hseq & Hs).
  destruct (fresh_books_inv reqs Hv Ht Hn) as [Hinv Hlen]. exists s. split_and!; [done|done|]. intros t sp H0 Hsp.
  pose proof (lookup_lt_Some _ _ _ Hsp) as Hlt. unfold sps in Hlt. rewrite Hlen in Hlt. destruct (Hs t) as [Htr [mb Hm]]; [lia|].
  unfold book_of in Htr, Hm. fold sps in Htr, Hm. rewrite Hsp in Htr, Hm. simpl in Htr, Hm.
  destruct (snapshot_rebuilds s t (mkt_book mb) _ Htr) as (mb' & E' & Hr' & _ & Hb2); [|by exists mb'].
  apply mirror_rebuildable; [done|exact (Forall_lookup_1 _ _ _ _ Hinv Hsp)|exact (Forall_lookup_1 _ _ _ _ Hroom Hsp)].
Qed.

Lemma snapshot_rebuilds_exchange_witness :
  ∃ s, add_all_to_snapshot (number_updates 1 (publics (engine_spec_run feed_requests fresh_books).2))
         SnapshotSynthesizer_new = Ok s ∧ last_inc_seq_num_ s = 6.
Proof.
  destruct feed_requests_valid as (Hv & Ht & _).
  destruct (snapshot_rebuilds_exchange feed_requests) as (s & E & Hs & _).
  - exact Hv.
  - exact Ht.
  - vm_compute. done.
  - vm_compute. done.
  - apply Forall_forall. intros sp Hsp. apply has_roomb_sound. revert sp Hsp. apply Forall_forall.
    apply (bool_decide_unpack (Forall (λ sp, Is_true (has_roomb (sp_book sp))) _)). vm_compute. done.
  - exists s. split; [exact E|]. rewrite Hs. vm_compute. done.
Defined.

(** A turn of the synthesizer on updates it accepts. *)
Lemma synthesizer_turn_ok us (th : SynthesizerThread) s accept now1 now2 :
  lfq_rep (syn_queue th) us → add_all_to_snapshot us (syn_state th) = Ok s →
  (∀ d, d ≠ [] → accept d = Z.of_nat (length d)) → mc_outbound (snapshot_socket_ th) = [] →
  42 * length (snapshot_frames s) ≤ McastBufferSize →
  ∃ sent th', synthesizer_turn accept now1 now2 th = Ok (sent, th')
    ∧ lfq_rep (syn_queue th') [] ∧ syn_state th' = s ∧ mc_outbound (snapshot_socket_ th') = []
    ∧ (if snapshot_due now1 (last_snapshot_time_ th)
       then concat sent = concat (encode <$> snapshot_messages s) ∧ last_snapshot_time_ th' = now2
       else sent = [] ∧ last_snapshot_time_ th' = last_snapshot_time_ th).
Proof.
  intros Hq Hs Hacc Ho Hl. pose proof (lfq_rep_size _ _ Hq) as [_ Hlen]. unfold synthesizer_turn.
  destruct (synthesizer_drain_ok us (Z.to_nat (q_size (syn_queue th))) (syn_queue th) (syn_state th) s Hq)
    as (q' & -> & Hq'); [lia|done|]. cbn [rbind]. destruct (snapshot_due _ _).
  - destruct (send_frames_ok accept 0 (snapshot_frames s) (snapshot_socket_ th) Hacc) as (sent & sock & E & Hc & Hout).
    { rewrite Ho. cbn [length]. lia. }
    unfold publishSnapshot. rewrite E. cbn [rbind]. do 2 eexists. split; [done|].
    assert (mc_outbound sock = []) as Hnil.
    { apply Hout. eexists. unfold snapshot_frames. rewrite (assoc_L (++)). apply last_snoc. }
    rewrite Hnil, Ho, app_nil_r, app_nil_l in Hc. done.
  - do 2 eexists. split; [done|]. done.
Qed.

(** What a snapshot shows of a resting order of ticker [t]. *)
Definition shown (t : Z) (x : MEOrder) : MEMarketUpdate :=
  mkMEMarketUpdate MU_ADD (market_order_id_ x) t (side_ x) (price_ x) (qty_ x) (priority_ x).

(** The messages of a snapshot that is labelled [label] and shows the orders
    [orders !! t] of every ticker [t]. *)
Definition snapshot_text (label : Z) (orders : list (list MEMarketUpdate)) : list MEMarketUpdate :=
  mkMEMarketUpdate MU_SNAPSHOT_START label TickerId_INVALID Side_INVALID Price_INVALID Qty_INVALID Priority_INVALID
  :: concat (imap (λ t os, mkMEMarketUpdate MU_CLEAR OrderId_INVALID (Z.of_nat t) Side_INVALID Price_INVALID Qty_INVALID Priority_INVALID :: os)
               orders)
  ++ [mkMEMarketUpdate MU_SNAPSHOT_END label TickerId_INVALID Side_INVALID Price_INVALID Qty_INVALID Priority_INVALID].

Lemma snapshot_messages_text s :
  snapshot_messages s
  = number_updates 0 (snapshot_text (last_inc_seq_num_ s) ((λ t, ticker_snapshot t s) <$> seqZ 0 ME_MAX_TICKERS)).
Proof.
  unfold snapshot_messages, snapshot_text. rewrite snapshot_frames_body. unfold snapshot_body. reflexivity.
Qed.

(** C23. A turn of the synthesizer, after a run of valid requests from fresh books (at
    most 2^20 - 2 of them, and fewer than 2^20 updates): some of the numbered updates
    of the run have been applied, the rest wait in its queue.  The turn succeeds and
    empties the queue.  If no more than 60 seconds have passed since the last
    snapshot, it sends nothing.  Otherwise it sends a snapshot, its messages numbered
    from 0: START, for every ticker a CLEAR and an ADD for each order that rests in
    the exchange's book of the ticker, by increasing order id, and END, both markers
    labelled with the number of the last update.  (The kernel is assumed to take the
    pending bytes at every flush.) *)
Theorem synthesizer_turn_publishes reqs applied waiting (th : SynthesizerThread) accept now1 now2 :
  let '(sps, evs) := engine_spec_run reqs fresh_books in
  valid_engine_run reqs fresh_books → tickers_ok reqs fresh_books → 1 + length reqs < ME_MAX_ORDER_IDS →
  Z.of_nat (length (publics evs)) < ME_MAX_ORDER_IDS →
  number_updates 1 (publics evs) = applied ++ waiting →
  add_all_to_snapshot applied SnapshotSynthesizer_new = Ok (syn_state th) → lfq_rep (syn_queue th) waiting →
  (∀ d, d ≠ [] → accept d = Z.of_nat (length d)) → mc_outbound (snapshot_socket_ th) = [] →
  ∃ sent th', synthesizer_turn accept now1 now2 th = Ok (sent, th')
    ∧ lfq_rep (syn_queue th') [] ∧ mc_outbound (snapshot_socket_ th') = []
    ∧ (now1 - last_snapshot_time_ th ≤ 60 * 10 ^ 9 → sent = [] ∧ last_snapshot_time_ th' = last_snapshot_time_ th)
    ∧ (60 * 10 ^ 9 < now1 - last_snapshot_time_ th →
       last_snapshot_time_ th' = now2
       ∧ ∃ orders, concat sent = concat (encode <$> number_updates 0 (snapshot_text (length (publics evs)) orders))
           ∧ length orders = length sps
           ∧ ∀ t sp os, sps !! t = Some sp → orders !! t = Some os →
               os ≡ₚ shown (Z.of_nat t) <$> ab_all (sp_book sp) ∧ StronglySorted (λ u v, mu_order_id_ u < mu_order_id_ v) os).
Proof.
  destruct (engine_spec_run reqs fresh_books) as [sps evs] eqn:Er. intros Hv Ht Hn Hl Hus Happ Hq Hacc Ho.
  pose proof (fresh_synthesizer reqs Hv Ht) as Hfs. rewrite Er in Hfs. destruct (Hfs Hn Hl) as (s & Es & Hseq & Hs).
  destruct (fresh_books_inv reqs Hv Ht Hn) as [_ Hlen]. rewrite Er in Hlen. cbn [fst snd] in *.
  pose proof (add_all_to_snapshot_size _ _ _ Es) as Hsz. rewrite length_number_updates in Hsz.
  cbn [ticker_orders_ SnapshotSynthesizer_new] in Hsz. rewrite map_size_empty in Hsz.
  pose proof (length_snapshot_frames s) as Hfl. rewrite Hus, add_all_to_snapshot_app, Happ in Es. cbn [rbind] in Es.
  destruct (synthesizer_turn_ok waiting th s accept now1 now2 Hq Es Hacc Ho) as (sent & th' & Et & Hq' & _ & Ho' & Hd).
  { unfold McastBufferSize, ME_MAX_TICKERS, ME_MAX_ORDER_IDS in *. lia. }
  exists sent, th'. split_and!; [done..| |]; unfold snapshot_due in Hd; change (60 * NANOS_TO_SECS) with (60 * 10 ^ 9) in Hd;
    intros Hdue.
  - by rewrite (proj2 (Z.ltb_ge _ _)) in Hd by done.
  - rewrite (proj2 (Z.ltb_lt _ _)) in Hd by done. destruct Hd as [Hc ->]. split; [done|].
    exists ((λ t, ticker_snapshot t s) <$> seqZ 0 ME_MAX_TICKERS). rewrite <- Hseq, <- snapshot_messages_text.
    split_and!; [done|by rewrite length_fmap, length_seqZ, Hlen|]. intros t sp os Hsp Hos.
    rewrite list_lookup_fmap in Hos. apply fmap_Some in Hos as (z & Hz & ->). apply lookup_seqZ in Hz as [-> Hz].
    destruct (Hs (0 + t)) as [Htr [mb (Hm & _)]]; [lia|]. unfold book_of in Htr, Hm. rewrite Z.add_0_l, Nat2Z.id, Hsp in Htr, Hm.
    destruct (ticker_snapshot_ok s (0 + t) (mkt_book mb) _ Htr Hm) as (xs & Hp & Hsrt & ->). cbn [default from_option] in Hp. split.
    + rewrite Hp, ab_all_mirror, <- list_fmap_compose. apply Permutation_refl'. by apply list_fmap_ext.
    + clear -Hsrt. induction Hsrt as [|x xs _ IH Hx]; [constructor|]. rewrite fmap_cons. constructor; [done|]. by apply Forall_fmap.
Qed.

(** The first two of the six updates of [feed_requests] have been applied. *)
Definition feed_numbered : list MDPMarketUpdate := number_updates 1 (publics (engine_spec_run feed_requests fresh_books).2).

Definition demo_synthesizer : result SynthesizerThread :=
  let* s := add_all_to_snapshot (take 2 feed_numbered) SnapshotSynthesizer_new in
  Ok (mkSynthesizerThread s (enqueue_all (drop 2 feed_numbered) (LFQueue_new 8)) (McastSocket_new (Some 5)) 0).

(** After 61 seconds the snapshot shows the two orders that rest in the book of ticker
    0 and none of ticker 3. *)
Lemma synthesizer_turn_publishes_witness :
  ∃ th sent th' orders, demo_synthesizer = Ok th
    ∧ synthesizer_turn (λ d, Z.of_nat (length d)) (61 * 10 ^ 9) (61 * 10 ^ 9) th = Ok (sent, th')
    ∧ concat sent = concat (encode <$> number_updates 0 (snapshot_text 6 orders))
    ∧ ∀ os, orders !! 0%nat = Some os → mu_order_id_ <$> os ≡ₚ [1; 3].
Proof.
  destruct feed_requests_valid as (Hv & Ht & _).
  destruct (add_all_to_snapshot (take 2 feed_numbered) SnapshotSynthesizer_new) as [s|] eqn:E; [|vm_compute in E; done].
  set (th := mkSynthesizerThread s (enqueue_all (drop 2 feed_numbered) (LFQueue_new 8)) (McastSocket_new (Some 5)) 0).
  assert (demo_synthesizer = Ok th) as Eth by (unfold demo_synthesizer; rewrite E; reflexivity).
  pose proof (synthesizer_turn_publishes feed_requests (take 2 feed_numbered) (drop 2 feed_numbered) th (λ d, Z.of_nat (length d))
    (61 * 10 ^ 9) (61 * 10 ^ 9)) as H.
  assert (lfq_rep (syn_queue th) (drop 2 feed_numbered)) as Hq
    by exact (proj1 (enqueue_all_ok (drop 2 feed_numbered) (LFQueue_new 8) [] (lfq_rep_new 8 ltac:(lia)) ltac:(vm_compute; done))).
  unfold feed_numbered in *. destruct (engine_spec_run feed_requests fresh_books) as [sps evs] eqn:Er.
  cbn [snd] in *. assert (length (publics evs) = 6%nat ∧ ∃ sp, sps !! 0%nat = Some sp ∧ market_order_id_ <$> ab_all (sp_book sp) = [1; 3]) as [Hl6 Hsp].
  { clear -Er. vm_compute in Er. injection Er as <- <-. split; [reflexivity|]. by eexists. }
  destruct H as (sent & th' & Et & _ & _ & _ & Hd).
  - exact Hv.
  - exact Ht.
  - vm_compute. done.
  - rewrite Hl6. vm_compute. done.
  - symmetry. apply take_drop.
  - exact E.
  - exact Hq.
  - done.
  - done.
  - destruct Hd as (_ & orders & Hc & Hlo & Hos); [vm_compute; done|]. exists th, sent, th', orders.
    rewrite Hl6 in Hc. split; [exact Eth|]. split; [exact Et|]. split; [exact Hc|]. intros os H0.
    destruct Hsp as (sp & Hsp & Hids). destruct (Hos 0%nat sp os Hsp H0) as [Hp _]. rewrite Hp, <- list_fmap_compose, <- Hids. reflexivity.
Defined.
