(* ===== verification/SessionTheorems.v ===== *)
(** * What a client sees of the exchange, end to end.

    The two ways from the matching engine to the trade engine of a client: the
    public feed (publisher, multicast, consumer, client books; FeedPath.v) and
    the private responses (order server, TCP, gateway, positions; Session.v). *)

From Stdlib Require Import Floats.
From stdpp Require Import numbers gmap list sorting.
From S2P Require Import Prelude MemPool Types LFQueue Wire BookCore BookSpec BookRefine MarketOrderBook MEOrderBook MESpec MERefine MEInv MatchingEngine Requests OrderServer OrderGateway MarketData Mirror Snapshot System MarketDataConsumer Double Position RunEvents OrderManager Features Strategy Session FeedPath.

Open Scope Z_scope.
Local Coercion Z.of_nat : nat >-> Z.

(** Queues of the sizes the executables give them. *)
Definition exchange_queues : EngineQueues :=
  mkEngineQueues (LFQueue_new ME_MAX_CLIENT_UPDATES) (LFQueue_new ME_MAX_MARKET_UPDATES).

(** ** Public feed *)

(** C3. The whole public path, from fresh books in memory of zeros: a run of plain
    requests through the matching engine, a turn of the publisher, the bytes cut
    into datagrams in any way, a round of the consumer, and the update loop of a new
    trade engine.  The run is shorter than the 2^20 order ids, and its responses and
    updates fit the engine's output queues together, since no other thread runs
    meanwhile.  If the kernel takes and delivers all bytes, no component fails, and
    whenever the trade engine's loop returns, the client's book of every ticker has
    the two sides of the engine's book, order by order in priority, and their top as
    its best-bid-offer, whatever the client's algorithm does meanwhile.  With RANDOM
    or no algorithm and without VPIN the loop does return. *)
Theorem client_mirrors_exchange {F} `{!Double F} `{!DoubleMath F} `{!DoubleCast F} {E} `{!RequestSink E}
    (mem : Z → IndexMemory (Z * Z)) (reqs : list MEClientRequest) requests :
  let evs := (engine_spec_run reqs fresh_books).2 in
  all_zeroed mem → plain_run reqs → 1 + length reqs < ME_MAX_ORDER_IDS → lfq_rep requests reqs → out_room exchange_queues [] [] evs →
  ∃ me' sent p', engine_run (length reqs) (MatchingEngine_new mem requests exchange_queues) = Ok me'
    ∧ publisher_turn (42 * length (publics evs)) (MarketDataPublisher_new (outgoing_md_updates_ (engine_queues me')))
      = Ok (sent, p')
    ∧ ∀ datagrams fd sfd, concat datagrams = sent → Forall (λ d, d ≠ []) datagrams →
      ∃ c', stream_round sfd Incremental datagrams (MarketDataConsumer_new (LFQueue_new ME_MAX_MARKET_UPDATES) fd) = Ok (c', [])
      ∧ ∀ client_id algo (cfgs : list (TradeEngineCfg F)) cmem now (e : E) responses te fuel clock,
        TradeEngine_new client_id algo cfgs cmem now e responses (MarketDataConsumer.incoming_md_updates_ c') = Ok te →
        all_zeroed (em_books cmem) → length cfgs = Z.to_nat ME_MAX_TICKERS →
        (∀ n te' t ob, te_drain_updates fuel n clock te = Ok te' → 0 ≤ t →
           MatchingEngine.ticker_order_book_ me' !! Z.to_nat t = Some ob →
           ∃ mb ab, ticker_order_book_ te' !! Z.to_nat t = Some mb
             ∧ rep (me_book ob) ab ∧ rep (mkt_book mb) (mirror ab) ∧ bbo_ok (bbo_ mb) (mirror ab))
        ∧ (algo ≠ MAKER → algo ≠ TAKER → Forall (λ cfg, cfg_use_vpin_ cfg = false) cfgs →
           ∃ te', te_drain_updates fuel (length (publics evs)) clock te = Ok te').
Proof.
  intros evs Hz Hpl Hn Hq Hroom. pose proof (plain_run_valid reqs Hpl) as Hv. pose proof (plain_tickers reqs Hpl) as Ht.
  pose proof (plain_run_publics reqs Hpl) as Hup. fold fresh_books in Hv, Hup.
  destruct (engine_run_drains reqs (MatchingEngine_new mem requests exchange_queues) fresh_books [] [] (books_rep_new _ _ _ Hz) Hq)
    as (me' & Eme & Hb & _ & _ & Hus); [split; by apply lfq_rep_new|done|done|]. rewrite app_nil_l in Hus.
  destruct (feed_delivered (outgoing_md_updates_ (engine_queues me')) (publics evs)) as (sent & p' & Ep & Hfeed);
    [done|apply Hroom|done|].
  exists me', sent, p'. split_and!; [done..|]. intros ds fd sfd Hds Hne.
  destruct (Hfeed ds fd sfd Hds Hne) as (c' & Ec & Hq'). exists c'. split; [done|].
  intros client_id algo cfgs cmem now e responses te fuel clock Ete Hzc Hl.
  destruct (TradeEngine_new_ok client_id algo cfgs cmem now e responses (MarketDataConsumer.incoming_md_updates_ c') Hl)
    as (te1 & cfg0 & E1 & _ & _ & _ & Hbk & Hin & _). rewrite Ete in E1. injection E1 as <-. rewrite <- Hin in Hq'.
  rewrite market_books_fresh in Hbk by done.
  split.
  - intros n te' t ob Hdr H0 Hob. by eapply fresh_run_mirrored.
  - intros Ha1 Ha2 Hvp. eapply fresh_run_watched; try done. by eapply watching_new.
Qed.

(** Orders on two tickers, with a trade and a cancel. *)
Definition session_requests : list MEClientRequest :=
  [ mkMEClientRequest Req_NEW 1 0 1 SELL 100 10; mkMEClientRequest Req_NEW 1 3 2 SELL 50 5;
    mkMEClientRequest Req_NEW 2 0 1 BUY 100 4; mkMEClientRequest Req_NEW 2 0 2 SELL 100 7;
    mkMEClientRequest Req_CANCEL 1 3 2 Side_INVALID Price_INVALID Qty_INVALID ].

Definition session_queue : LFQueue MEClientRequest := enqueue_all session_requests (LFQueue_new 16).

Lemma session_requests_plain : plain_run session_requests.
Proof.
  split.
  - repeat (apply Forall_cons; split); [..|constructor]; (split; [done|vm_compute; done|done|]);
      intros H; first [discriminate H|split_and!; try (vm_compute; done); (by left) || (by right)].
  - apply (bool_decide_unpack (NoDup (new_keys session_requests))). vm_compute. exact I.
  - vm_compute. done.
Qed.

Lemma session_queue_rep : lfq_rep session_queue session_requests.
Proof.
  exact (proj1 (enqueue_all_ok session_requests (LFQueue_new 16) [] (lfq_rep_new 16 ltac:(lia)) ltac:(vm_compute; done))).
Qed.

#[local] Instance session_math : DoubleMath float := float_math (λ x, x).

Definition session_memory : EngineMemory float :=
  mkEngineMemory (mkSideArray (float_of_Z 0) (float_of_Z 0) (float_of_Z 0) (float_of_Z 0)) (λ _, zeroed).

Definition session_cfgs : list (TradeEngineCfg float) := replicate (Z.to_nat ME_MAX_TICKERS) TradeEngineCfg_default.

Lemma client_mirrors_exchange_witness :
  ∃ me' sent p' c' (te te' : TradeEngine float (list MEClientRequest)),
    engine_run 5 (MatchingEngine_new (λ _, zeroed) session_queue exchange_queues) = Ok me'
    ∧ publisher_turn 252 (MarketDataPublisher_new (outgoing_md_updates_ (engine_queues me'))) = Ok (sent, p')
    ∧ stream_round None Incremental [sent] (MarketDataConsumer_new (LFQueue_new ME_MAX_MARKET_UPDATES) 7) = Ok (c', [])
    ∧ te_drain_updates 0 6 (λ _, 0) te = Ok te'
    ∧ ∀ ob, MatchingEngine.ticker_order_book_ me' !! 0%nat = Some ob →
        ∃ mb ab, ticker_order_book_ te' !! 0%nat = Some mb ∧ rep (me_book ob) ab ∧ rep (mkt_book mb) (mirror ab).
Proof.
  destruct (client_mirrors_exchange (F:=float) (E:=list MEClientRequest) (λ _, zeroed) session_requests session_queue
    (λ _, eq_refl) session_requests_plain ltac:(vm_compute; done) session_queue_rep ltac:(unfold out_room; vm_compute; done))
    as (me' & sent & p' & Em & Ep & Hf).
  destruct (Hf [sent] 7 None) as (c' & Ec & Ht); [apply app_nil_r| |].
  { apply Forall_singleton. intros ->. clear -Ep Em. vm_compute in Em. injection Em as <-. vm_compute in Ep. discriminate Ep. }
  destruct (TradeEngine_new_ok 3 RANDOM session_cfgs session_memory 0 ([] : list MEClientRequest)
    (LFQueue_new 4) (MarketDataConsumer.incoming_md_updates_ c') eq_refl) as (te & cfg0 & Ete & _).
  destruct (Ht 3 RANDOM session_cfgs session_memory 0 [] (LFQueue_new 4) te 0%nat (λ _, 0) Ete (λ _, eq_refl) eq_refl) as [Hm Hr].
  destruct Hr as [te' Er]; [done|done|repeat constructor|].
  exists me', sent, p', c', te, te'. split_and!; [exact Em|exact Ep|exact Ec|exact Er|].
  intros ob Hob. destruct (Hm _ te' 0 ob Er ltac:(lia) Hob) as (mb & ab & H1 & H2 & H3 & _). exists mb, ab. exact (conj H1 (conj H2 H3)).
Defined.

(** The stream between a publisher and a consumer in step, at any point of a
    session: a turn of the publisher empties its queue, numbers the updates
    consecutively and hands the same numbered updates to the synthesizer; however
    the bytes are cut into datagrams, a round of the consumer appends exactly the
    updates to the trade engine's queue, in order, stays out of recovery, and both
    sides expect the same next number. *)
Theorem feed_delivers_in_sequence us p c l sfd :
  lfq_rep (pub_outgoing_md_updates_ p) us → lfq_rep (snapshot_md_updates_ p) [] →
  length us ≤ q_size (snapshot_md_updates_ p) → mc_outbound (incremental_socket_ p) = [] →
  42 * length us ≤ McastBufferSize → Forall update_wf us →
  0 ≤ next_inc_seq_num_ p → next_inc_seq_num_ p + length us < 2 ^ 64 →
  next_exp_inc_seq_num_ c = next_inc_seq_num_ p → in_recovery_ c = false →
  is_Some (mc_fd (incremental_mcast_socket_ c)) →
  mc_fd (incremental_mcast_socket_ c) ≠ mc_fd (snapshot_mcast_socket_ c) → mc_inbound (incremental_mcast_socket_ c) = [] →
  lfq_rep (MarketDataConsumer.incoming_md_updates_ c) l →
  length l + length us ≤ q_size (MarketDataConsumer.incoming_md_updates_ c) →
  ∃ sent p', publisher_turn (42 * length us) p = Ok (sent, p')
    ∧ lfq_rep (pub_outgoing_md_updates_ p') []
    ∧ lfq_rep (snapshot_md_updates_ p') (number_updates (next_inc_seq_num_ p) us)
    ∧ ∀ datagrams, concat datagrams = sent → Forall (λ d, d ≠ []) datagrams →
      ∃ c', stream_round sfd Incremental datagrams c = Ok (c', [])
        ∧ lfq_rep (MarketDataConsumer.incoming_md_updates_ c') (l ++ us)
        ∧ next_exp_inc_seq_num_ c' = next_inc_seq_num_ p'
        ∧ mc_inbound (incremental_mcast_socket_ c') = [] ∧ in_recovery_ c' = false.
Proof.
  intros Hq Hs Hr Ho Hl Hwf H0 Hlt Hseq Hrec Hfd Hne Hin Hcq Hroom.
  destruct (publisher_turn_ok us p (42 * length us) Hq Hs Hr Ho Hl H0 Hlt eq_refl) as (sent & p' & E & P1 & P2 & P3 & _ & Es).
  exists sent, p'. split_and!; [done..|]. intros ds Hds Hnil. rewrite Es, <- Hseq in Hds.
  destruct (stream_round_forwards sfd us ds l c) as (c' & Ec & C1 & C2 & C3 & C4); try done; [lia..|].
  exists c'. rewrite C2, P3, Hseq. done.
Qed.

Definition session_updates : list MEMarketUpdate :=
  [ mkMEMarketUpdate MU_ADD 1 0 BUY 100 10 1; mkMEMarketUpdate MU_CANCEL 1 0 BUY 100 0 1 ].

Lemma feed_delivers_in_sequence_witness :
  ∃ sent p' c', publisher_turn 84 (MarketDataPublisher_new (enqueue_all session_updates (LFQueue_new 4))) = Ok (sent, p')
    ∧ stream_round None Incremental [take 50 sent; drop 50 sent] (MarketDataConsumer_new (LFQueue_new 4) 7) = Ok (c', [])
    ∧ lfq_rep (MarketDataConsumer.incoming_md_updates_ c') session_updates.
Proof.
  destruct (feed_delivers_in_sequence session_updates (MarketDataPublisher_new (enqueue_all session_updates (LFQueue_new 4)))
    (MarketDataConsumer_new (LFQueue_new 4) 7) [] None) as (sent & p' & E & _ & _ & Hc).
  - exact (proj1 (enqueue_all_ok session_updates (LFQueue_new 4) [] (lfq_rep_new 4 ltac:(lia)) ltac:(vm_compute; done))).
  - apply lfq_rep_new. vm_compute. done.
  - vm_compute. done.
  - done.
  - vm_compute. done.
  - repeat constructor; vm_compute; done.
  - vm_compute. done.
  - vm_compute. done.
  - done.
  - done.
  - by eexists.
  - done.
  - done.
  - apply lfq_rep_new. lia.
  - vm_compute. done.
  - destruct (Hc [take 50 sent; drop 50 sent]) as (c' & Ec & Hq & _).
    + simpl. by rewrite app_nil_r, take_drop.
    + clear -E. vm_compute in E. injection E as <- _. repeat constructor; discriminate.
    + exists sent, p', c'. split; [exact E|]. split; [exact Ec|exact Hq].
Defined.

(** ** Private responses *)

(** C13. The way back, and what it adds up to.  The matching engine, with fresh books in
    memory of zeros, serves a run of plain requests whose messages fit its output
    queues; the order server, which has a connection for every client that is
    answered and room in the send buffers, frames the responses and puts them on the
    clients' connections; the gateway of client [c], in step with the server and with
    room in its queue ([session_open]), gets the bytes in any pieces and its trade
    engine drains its queue.  Then no component fails, and the client's position in
    every ticker moves by exactly the net quantity of its own fills (as long as
    positions stay where their products fit 32 bits); and over all clients together
    the positions of every ticker move by nothing. *)
Theorem positions_reconcile {F} `{!Double F} `{!DoubleMath F} `{!DoubleCast F} {E} `{!RequestSink E}
    (mem : Z → IndexMemory (Z * Z)) (reqs : list MEClientRequest) requests os g c fd :
  let rs := privates (engine_spec_run reqs fresh_books).2 in
  all_zeroed mem → plain_run reqs → lfq_rep requests reqs → out_room exchange_queues [] [] (engine_spec_run reqs fresh_books).2 →
  session_open c fd (length rs) os g → Forall (λ r, is_Some (cid_tcp_socket_ os !! resp_client_id_ r)) rs →
  (∃ me' os', engine_run (length reqs) (MatchingEngine_new mem requests exchange_queues) = Ok me'
     ∧ drain_responses (length rs) (with_responses (outgoing_ogw_responses_ (engine_queues me')) os) = Ok os'
     ∧ ∀ chunks, concat chunks = outbound_data_ (socket_of os' fd) →
       ∃ g', gateway_turns chunks g = Ok g'
         ∧ ∀ te : TradeEngine F E, te_sized te →
           (∀ t, 0 ≤ t < ME_MAX_TICKERS → positions_safe (te_position t te) (fills_on t (own c rs))) →
           ∃ te', te_drain_responses (length rs) (set_responses (incoming_responses_ g') te) = Ok te'
             ∧ ∀ t, 0 ≤ t → te_position t te' = te_position t te + client_net t rs c)
  ∧ ∀ t, sumZ (client_net t rs <$> seqZ 0 ME_MAX_NUM_CLIENTS) = 0.
Proof.
  intros rs Hz Hpl Hq Hroom [H1 H2 H3 H4 H5 H6 H7 H8 H9 H10 H11] Hbound.
  pose proof (plain_run_valid reqs Hpl) as Hv. pose proof (plain_run_privates reqs Hpl) as Hrs. fold fresh_books rs in Hv, Hrs.
  split.
  - destruct (engine_run_drains reqs (MatchingEngine_new mem requests exchange_queues) fresh_books [] [] (books_rep_new _ _ _ Hz) Hq)
      as (me' & Eme & _ & _ & Hout & _); [split; by apply lfq_rep_new|done|done|]. rewrite app_nil_l in Hout. fold rs in Hout.
    assert (∀ chunks, _) as Hd by (intros chunks; exact (responses_delivered rs
      (with_responses (outgoing_ogw_responses_ (engine_queues me')) os) g c fd chunks
      Hrs Hout Hbound H1 H2 H11 H3 H4 H5 H6 H7 H8 H9 H10)).
    destruct (Hd []) as (os' & Eos & _). exists me', os'. split_and!; [done..|]. intros chunks Hch.
    destruct (Hd chunks) as (os2 & Eos2 & _ & Hg). rewrite Eos in Eos2. injection Eos2 as <-.
    destruct (Hg Hch) as (g' & Eg & Hg'). exists g'. split; [done|]. intros te Hsz Hsafe.
    assert (Forall response_plain (own c rs)) as Hown by (eapply Forall_sublist; [apply sublist_filter|done]).
    destruct (te_drain_responses_ok (own c rs) (length rs) (set_responses (incoming_responses_ g') te)) as (te' & Et & _ & _ & Hp).
    + done.
    + done.
    + apply length_filter.
    + eapply Forall_impl; [exact Hown|]. by intros r [].
    + intros t Ht. apply positions_safe_fills; [|by apply Hsafe]. apply Forall_forall. intros r [[Hf _] Hin]%list_elem_of_filter.
      rewrite Forall_forall in Hown. split; [by apply Hown|done].
    + exists te'. split; [done|]. intros t Ht. by rewrite Hp.
  - intros t. by apply plain_run_net.
Qed.

Definition session_server : OrderServer := mkOrderServer ∅ ∅ {[1 := 8; 2 := 9]} ∅ [] (LFQueue_new 4) (LFQueue_new 4).

Definition session_gateway : OrderGateway := OrderGateway_new 2 (LFQueue_new 4) (LFQueue_new 16).

(** Client 2 buys 4 of the 10 that client 1 offers. *)
Lemma positions_reconcile_witness :
  ∃ me' os' g' (te te' : TradeEngine float (list MEClientRequest)),
    engine_run 5 (MatchingEngine_new (λ _, zeroed) session_queue exchange_queues) = Ok me'
    ∧ drain_responses 7 (with_responses (outgoing_ogw_responses_ (engine_queues me')) session_server) = Ok os'
    ∧ gateway_turns [outbound_data_ (socket_of os' 9)] session_gateway = Ok g'
    ∧ te_drain_responses 7 (set_responses (incoming_responses_ g') te) = Ok te' ∧ te_position 0 te' = 4.
Proof.
  destruct (positions_reconcile (F:=float) (E:=list MEClientRequest) (λ _, zeroed) session_requests session_queue session_server session_gateway 2 9
    (λ _, eq_refl) session_requests_plain session_queue_rep ltac:(unfold out_room; vm_compute; done)) as [(me' & os' & Em & Eo & Hg) _].
  - split; try (vm_compute; done).
    + split; [apply lfq_rep_new; lia|done].
    + apply lfq_rep_new. lia.
  - vm_compute. repeat constructor; by eexists.
  - destruct (Hg [outbound_data_ (socket_of os' 9)]) as (g' & Eg & Ht); [apply app_nil_r|].
    destruct (TradeEngine_new_ok 2 RANDOM session_cfgs session_memory 0 ([] : list MEClientRequest)
      (LFQueue_new 4) (LFQueue_new 4) eq_refl) as (te & cfg0 & Ete & _ & _ & _ & _ & _ & _ & Hp & Hs).
    assert (∀ t, 0 ≤ t < ME_MAX_TICKERS → te_position t te = 0) as H0.
    { intros t Hr. unfold te_position. rewrite Hp, lookup_replicate_2 by lia. done. }
    destruct (Ht te Hs) as (te' & Et & Hpos).
    + intros t Hr. rewrite H0 by done. assert (t = 0 ∨ t = 1 ∨ t = 2 ∨ t = 3 ∨ t = 4 ∨ t = 5 ∨ t = 6 ∨ t = 7) as Hc
        by (unfold ME_MAX_TICKERS in Hr; lia). destruct_or! Hc; subst t; vm_compute; by split_and?.
    + exists me', os', g', te, te'. split_and!; [exact Em|exact Eo|exact Eg|exact Et|].
      assert (client_net 0 (privates (engine_spec_run session_requests fresh_books).2) 2 = 4) as Hn by (vm_compute; reflexivity).
      assert (∀ p x y : Z, x = p + y → p = 0 → y = 4 → x = 4) as Hfin by (clear; lia).
      exact (Hfin _ _ _ (Hpos 0 (Z.le_refl 0)) (H0 0 (conj (Z.le_refl 0) eq_refl)) Hn).
Defined.
