(* ===== verification/ClientTheorems.v ===== *)
(** * What the trading client's market view guarantees.

    The properties of the client's order book (MarketOrderBook.v,
    MarketBookClear.v), its market data consumer (MarketDataConsumer.v) and its
    order gateway (OrderGateway.v), each with a concrete instance of its
    hypotheses. *)

From stdpp Require Import gmap list sorting relations strings.
From S2P Require Import Prelude MemPool Types LFQueue LatencyHistogram Wire BookCore BookSpec BookRep BookRemove BookRefine BookDump MarketOrderBook MarketBookClear MatchingEngine MarketData MarketDataConsumer OrderServer OrderGateway.

Open Scope Z_scope.
Local Coercion Z.of_nat : nat >-> Z.

(** C20. Every incremental update of the exchange (ADD of a fresh order, MODIFY or
    CANCEL of a resting one, TRADE) is applied without error; the two sides
    change as the update says, the best-bid-offer is the price and the 32-bit
    total quantity of the best level of each side afterwards, and the trade
    engine is notified.  The textual dump shows the resulting book and its
    best-bid-offer, and its check that the levels are sorted passes for all
    prices but the two extreme 64-bit values. *)
Theorem market_book_tracks_updates u mb ab :
  mkt_rep mb ab → valid_update u ab →
  ∃ mb' note, onMarketUpdate u mb = Ok (mb', note)
    ∧ rep (mkt_book mb') (spec_update u ab) ∧ bbo_ok (bbo_ mb') (spec_update u ab)
    ∧ (note = if decide (mu_type_ u = MU_TRADE) then OnTradeUpdate u
             else OnOrderBookUpdate (mu_ticker_id_ u) (mu_price_ u) (mu_side_ u))
    ∧ ∀ detailed check, (check = true → Forall printable_price (ab_all (spec_update u ab))) →
        MarketOrderBook_toString detailed check mb'
          = Ok (spec_dump (mkt_ticker_id_ mb') detailed (spec_update u ab)
                +:+ newline +:+ BBO_toString (bbo_ mb') +:+ newline).
Proof.
  intros Hm Hv. destruct (onMarketUpdate_ok u mb ab Hm Hv) as (mb' & n & E & (Hr & _ & ?) & _ & Hn).
  exists mb', n. split_and!; [done..|]. intros detailed check Hp. unfold MarketOrderBook_toString.
  by rewrite (dump_ok _ _ _ _ _ Hr Hp).
Qed.

Definition demo_add : MEMarketUpdate := mkMEMarketUpdate MU_ADD 1 0 BUY 100 10 1.

Lemma demo_add_valid : valid_update demo_add (mkAbs [] []).
Proof.
  unfold valid_update, demo_add. simpl. split_and!; try done; try lia.
  - by left.
  - apply not_elem_of_nil.
  - intros s x Hs. unfold ab_side. simpl. destruct (is_buy s); by intros ?%elem_of_nil.
Qed.

Lemma market_book_tracks_updates_witness :
  ∃ mb' note, onMarketUpdate demo_add (MarketOrderBook_new zeroed 0) = Ok (mb', note)
    ∧ bbo_ok (bbo_ mb') (spec_update demo_add (mkAbs [] []))
    ∧ ∃ text, MarketOrderBook_toString true true mb' = Ok text.
Proof.
  destruct (market_book_tracks_updates demo_add (MarketOrderBook_new zeroed 0) (mkAbs [] []) (mkt_rep_new 0) demo_add_valid)
    as (mb' & n & E & _ & Hb & _ & Hd).
  exists mb', n. split_and!; [exact E|exact Hb|]. eexists. apply (Hd true true). intros _.
  apply (bool_decide_unpack _). vm_compute. done.
Defined.

Definition clear_update (ticker_id : Z) : MEMarketUpdate :=
  mkMEMarketUpdate MU_CLEAR OrderId_INVALID ticker_id Side_INVALID Price_INVALID Qty_INVALID Priority_INVALID.

(** C40. CLEAR frees every order and every level and empties both sides and the order
    index, but keeps the price index and the best-bid-offer.  So the first order
    that a snapshot re-adds at a price the book knew is put into the order index and
    linked, as the last of the ring, into the freed level that the price index still
    names, and both sides of the book stay empty. *)
Theorem clear_loses_known_prices mb ab ticker_id u x :
  mkt_rep mb ab → x ∈ ab_all ab → mu_type_ u = MU_ADD → mu_price_ u = mo_price_ x →
  oid_in_range (mu_order_id_ u) = true →
  ∃ mb1 mb2 n1 n2 lp i f, onMarketUpdate (clear_update ticker_id) mb = Ok (mb1, n1)
    ∧ (∀ i, ¬ in_use (order_pool_ (mkt_book mb1)) i) ∧ (∀ i, ¬ in_use (orders_at_price_pool_ (mkt_book mb1)) i)
    ∧ bids_by_price_ (mkt_book mb1) = None ∧ asks_by_price_ (mkt_book mb1) = None
    ∧ order_index_ (mkt_book mb1) = ∅
    ∧ price_orders_at_price_ (mkt_book mb1) = price_orders_at_price_ (mkt_book mb) ∧ bbo_ mb1 = bbo_ mb
    ∧ onMarketUpdate u mb1 = Ok (mb2, n2)
    ∧ price_orders_at_price_ (mkt_book mb1) !! priceToIndex (mu_price_ u) = Some lp
    ∧ order_index_ (mkt_book mb2) = {[mu_order_id_ u := i]}
    ∧ first_order_ (level (mkt_book mb2) lp) = Some f
    ∧ mo_prev_order_ (order (mkt_book mb2) f) = Some i ∧ mo_next_order_ (order (mkt_book mb2) i) = Some f
    ∧ ¬ in_use (orders_at_price_pool_ (mkt_book mb2)) lp
    ∧ bids_by_price_ (mkt_book mb2) = None ∧ asks_by_price_ (mkt_book mb2) = None.
Proof.
  intros (Hr & _ & _) Hx Ht Hp Hk. destruct (clear_book_ok _ _ Hr) as (b1 & Ec & Hcl).
  exists (mkMarketOrderBook (mkt_ticker_id_ mb) b1 (bbo_ mb)).
  destruct (clear_then_add _ ab b1 x (mkt_order u) Hr Hcl Hx Hp Hk)
    as (i & p & b2 & Eal & Ead & lp & [Hlp (f & Hf & Hprev & Hnext) Hix Hlv Hs]).
  assert (apply_update u b1 = Ok b2) as Eu.
  { unfold apply_update, mkt_addOrder. rewrite Ht.
    assert (allocate (mkt_order u) (order_pool_ b1) = Ok (i, p)) as -> by exact Eal. exact Ead. }
  assert (∀ ub ua bbo, ∃ bbo', updateBBO ub ua b2 bbo = Ok bbo') as Hbbo.
  { intros ub ua bbo. unfold updateBBO, best_of. rewrite (Hs BUY), (Hs SELL).
    destruct ub, ua; simpl; eauto. }
  destruct (Hbbo (touches_best u b1 BUY) (touches_best u b1 SELL) (bbo_ mb)) as [bbo' Eb].
  exists (mkMarketOrderBook (mkt_ticker_id_ mb) b2 bbo'). do 2 eexists. exists lp, i, f. cbn [mkt_book].
  rewrite (cl_order_index _ _ Hcl) in *. rewrite Hlv.
  split_and!; [|apply (cl_none_used _ _ Hcl)|apply (cl_no_levels _ _ Hcl)|exact (cl_sides _ _ Hcl BUY)|exact (cl_sides _ _ Hcl SELL)
    |done|apply (cl_price_index _ _ Hcl)|done| |exact Hlp|exact Hix|exact Hf|exact Hprev|exact Hnext|apply (cl_no_levels _ _ Hcl)
    |exact (Hs BUY)|exact (Hs SELL)].
  - unfold onMarketUpdate, touches_best, apply_update. simpl. rewrite Ec. done.
  - unfold onMarketUpdate. cbn [mkt_book bbo_ mkt_ticker_id_]. rewrite Ht, bool_decide_eq_false_2 by done.
    rewrite Eu. cbn [rbind]. rewrite Eb. done.
Qed.

Lemma clear_loses_known_prices_witness :
  ∃ mb mb1 mb2 n1 n2, onMarketUpdate (clear_update 0) mb = Ok (mb1, n1)
    ∧ onMarketUpdate demo_add mb1 = Ok (mb2, n2) ∧ bids_by_price_ (mkt_book mb2) = None.
Proof.
  destruct (onMarketUpdate_ok demo_add _ _ (mkt_rep_new 0) demo_add_valid) as (mb & n & _ & Hm & _).
  destruct (clear_loses_known_prices mb _ 0 demo_add (mkt_order demo_add) Hm)
    as (mb1 & mb2 & n1 & n2 & lp & i & f & E1 & _ & _ & _ & _ & _ & _ & _ & E2 & _ & _ & _ & _ & _ & _ & Hb & _).
  - vm_compute. by left.
  - done.
  - done.
  - vm_compute. done.
  - exists mb, mb1, mb2, n1, n2. split_and!; [exact E1|exact E2|exact Hb].
Defined.

(** ** Market data consumer *)

(** In sequence: when the bytes on the incremental stream are the messages
    numbered from the expected number on, followed by part of a message, the
    updates are all appended to the trade engine's queue in order, the expected
    number advances past them, the partial message stays in the buffer, and the
    consumer does not enter recovery. *)
Theorem consumer_forwards_in_sequence fd us rest l c :
  in_recovery_ c = false → mc_fd (incremental_mcast_socket_ c) ≠ mc_fd (snapshot_mcast_socket_ c) →
  mc_inbound (incremental_mcast_socket_ c)
    = concat (encode <$> number_updates (next_exp_inc_seq_num_ c) us) ++ rest →
  (length rest < 42)%nat → Forall update_wf us → 0 ≤ next_exp_inc_seq_num_ c →
  next_exp_inc_seq_num_ c + length us < 2 ^ 64 →
  lfq_rep (incoming_md_updates_ c) l → length l + length us ≤ q_size (incoming_md_updates_ c) →
  ∃ c', md_recvCallback fd Incremental c = Ok c'
    ∧ lfq_rep (incoming_md_updates_ c') (l ++ us)
    ∧ next_exp_inc_seq_num_ c' = next_exp_inc_seq_num_ c + length us
    ∧ mc_inbound (incremental_mcast_socket_ c') = rest ∧ in_recovery_ c' = false.
Proof. apply md_recvCallback_forwards. Qed.

(** C21. Recovery at the level of the messages: in recovery, the messages of a
    snapshot of the synthesizer, with the buffered incrementals that follow its
    label running without a gap, put on the trade engine's queue the CLEAR and
    the live orders of every ticker and then exactly the later incrementals;
    incrementals the snapshot already covers are dropped, the expected number is
    the one after the last incremental, and recovery ends. *)
Theorem recovery_merges_snapshot fd s incs old l c :
  in_recovery_ c = true → snapshot_queued_msgs_ c = [] →
  (∀ t, 0 ≤ t < ME_MAX_TICKERS → Forall (λ u, mu_type_ u = MU_ADD) (ticker_snapshot t s)) →
  2 + length (snapshot_body s) < 2 ^ 64 → Forall (λ u, is_marker u = false) incs →
  Forall (λ e : Z * MEMarketUpdate, e.1 ≤ last_inc_seq_num_ s) old →
  incremental_queued_msgs_ c = old ++ entries (last_inc_seq_num_ s + 1) incs →
  0 ≤ last_inc_seq_num_ s → last_inc_seq_num_ s + 1 + length incs < 2 ^ 64 →
  lfq_rep (incoming_md_updates_ c) l →
  length l + length (snapshot_body s ++ incs) ≤ q_size (incoming_md_updates_ c) →
  ∃ c', recv_messages fd true (snapshot_messages s) c = Ok c' ∧ in_recovery_ c' = false
    ∧ lfq_rep (incoming_md_updates_ c') (l ++ snapshot_body s ++ incs)
    ∧ next_exp_inc_seq_num_ c' = last_inc_seq_num_ s + 1 + length incs.
Proof.
  intros Hr Hq Hadd Hlen Hincs Hold Hinc H0 Hlt Hl Hroom.
  pose proof (recovery_merges fd s incs old c Hr Hq (snapshot_body_clean s Hadd) Hlen Hold Hinc H0 Hlt) as E.
  rewrite (body_clean incs Hincs) in E.
  destruct (enqueue_all_ok (snapshot_body s ++ incs) (incoming_md_updates_ c) l Hl Hroom) as [Hl' _].
  eexists. split_and!; [exact E|done|done|done].
Qed.

Definition recovering_consumer : MarketDataConsumer :=
  mkConsumer 1 (LFQueue_new 16) (McastSocket_new (Some 7)) (McastSocket_new (Some 8)) true []
    [(1, demo_add)].

Lemma recovery_merges_snapshot_witness :
  ∃ c', recv_messages None true (snapshot_messages SnapshotSynthesizer_new) recovering_consumer = Ok c'
    ∧ in_recovery_ c' = false ∧ next_exp_inc_seq_num_ c' = 2.
Proof.
  destruct (recovery_merges_snapshot None SnapshotSynthesizer_new [demo_add] [] [] recovering_consumer)
    as (c' & E & Hr & _ & Hn).
  - done.
  - done.
  - intros t _. assert (ticker_snapshot t SnapshotSynthesizer_new = []) as ->; [|constructor].
    unfold ticker_snapshot, ticker_oids. simpl. rewrite map_to_list_empty. done.
  - vm_compute. done.
  - repeat constructor.
  - constructor.
  - done.
  - vm_compute. done.
  - vm_compute. done.
  - apply lfq_rep_new. lia.
  - vm_compute. done.
  - exists c'. split_and!; [exact E|exact Hr|exact Hn].
Defined.

(** ** Order gateway *)

(** From the trade engine to the exchange: the gateway empties its request
    queue onto the socket; the order server, however the bytes of the session
    were cut by TCP, decodes the messages, accepts all of them on the socket the
    client is bound to, and stages the requests for sequencing in the order the
    trade engine issued them; the sequence numbers of both ends stay equal. *)
Theorem gateway_session_delivers rs chunks fd rx_time g os :
  lfq_rep (outgoing_requests_ g) rs → Forall (λ r, req_client_id_ r = gw_client_id_ g) rs → Forall req_wf rs →
  tcp_socket_ g = TCPSocket_new → 38 * length rs ≤ TCPBufferSize →
  next_outgoing_seq_num_ g = seq_of (cid_next_exp_seq_num_ os) (gw_client_id_ g) →
  0 ≤ next_outgoing_seq_num_ g → next_outgoing_seq_num_ g + length rs < 2 ^ 64 →
  cid_in_range (gw_client_id_ g) = true → cid_tcp_socket_ os !! gw_client_id_ g = Some fd →
  length (pending_client_requests_ os) + length rs ≤ ME_MAX_PENDING_REQUESTS →
  ∃ g', drain_requests (length rs) g = Ok g' ∧ lfq_rep (outgoing_requests_ g') []
    ∧ (concat chunks = outbound_data_ (tcp_socket_ g') →
       ∃ ms os', feed_chunks [] chunks = (ms, []) ∧ recv_requests fd rx_time ms os = Ok os'
         ∧ pending_client_requests_ os' = pending_client_requests_ os ++ (mkRecvTime rx_time <$> rs)
         ∧ next_outgoing_seq_num_ g' = seq_of (cid_next_exp_seq_num_ os') (gw_client_id_ g)).
Proof.
  intros Hq Hc Hwf Ht Hl Hseq H0 Hlt Hr Hb Hp.
  destruct (drain_requests_ok rs (length rs) g Hq) as (g' & E & Hq' & _ & _ & _ & Hs & Hsock);
    [done|rewrite Ht; simpl; lia|done|done|].
  exists g'. split_and!; [done|done|]. rewrite Hsock, Ht. cbn [outbound_data_ TCPSocket_new app]. intros Hch.
  set (ms := frame_requests (next_outgoing_seq_num_ g) rs) in *.
  assert (feed_chunks [] chunks = (ms, [])) as Ef.
  { rewrite feed_chunks_concat by (simpl; lia). simpl. rewrite Hch, <- (app_nil_r (concat _)).
    apply parse_stream_encode; [|simpl; lia]. by apply frame_requests_wf. }
  pose proof (recv_requests_ok fd rx_time ms os) as Hrec.
  destruct (accept_frames fd (gw_client_id_ g) (cid_tcp_socket_ os) (cid_next_exp_seq_num_ os) rs Hc Hb)
    as (exp' & Ea & Hexp); [lia|lia|]. rewrite <- Hseq in Ea, Hexp. fold ms in Ea. rewrite Ea in Hrec.
  eexists ms, _. split_and!; [done|apply Hrec|..].
  - unfold ms. apply Forall_forall. intros m Hm.
    assert (me_client_request_ m ∈ rs) as Hin.
    { rewrite <- (frame_requests_payload (next_outgoing_seq_num_ g) rs). by apply list_elem_of_fmap_2. }
    rewrite Forall_forall in Hc. by rewrite (Hc _ Hin).
  - unfold ms. by rewrite length_frame_requests.
  - cbn [pending_client_requests_]. f_equal. unfold ms.
    transitivity (mkRecvTime rx_time <$> (me_client_request_ <$> frame_requests (next_outgoing_seq_num_ g) rs)).
    + by rewrite <- list_fmap_compose.
    + by rewrite frame_requests_payload.
  - cbn [cid_next_exp_seq_num_]. by rewrite Hs, Hexp.
Qed.

Definition demo_requests : list MEClientRequest :=
  [ mkMEClientRequest Req_NEW 3 0 1 BUY 100 5; mkMEClientRequest Req_CANCEL 3 0 1 BUY 100 5 ].

Definition demo_gateway : OrderGateway :=
  OrderGateway_new 3 (enqueue_all demo_requests (LFQueue_new 4)) (LFQueue_new 4).

Definition demo_server : OrderServer :=
  mkOrderServer ∅ ∅ {[3 := 9]} ∅ [] (LFQueue_new 4) (LFQueue_new 4).

Lemma gateway_session_delivers_witness :
  ∃ g', drain_requests 2 demo_gateway = Ok g'
    ∧ ∃ ms os', feed_chunks [] [outbound_data_ (tcp_socket_ g')] = (ms, [])
        ∧ recv_requests 9 5 ms demo_server = Ok os'
        ∧ pending_client_requests_ os' = mkRecvTime 5 <$> demo_requests.
Proof.
  destruct (drain_requests 2 demo_gateway) as [g1|] eqn:Eg; [|vm_compute in Eg; done].
  destruct (gateway_session_delivers demo_requests [outbound_data_ (tcp_socket_ g1)] 9 5 demo_gateway demo_server)
    as (g' & E & _ & Hs).
  - exact (proj1 (enqueue_all_ok demo_requests (LFQueue_new 4) [] (lfq_rep_new 4 ltac:(lia))
      ltac:(vm_compute; done))).
  - repeat constructor.
  - repeat constructor; vm_compute; done.
  - done.
  - vm_compute. done.
  - done.
  - vm_compute. done.
  - vm_compute. done.
  - done.
  - vm_compute. done.
  - vm_compute. done.
  - assert (g' = g1) as -> by (simpl length in E; rewrite Eg in E; by injection E as <-).
    exists g1. split; [done|]. destruct Hs as (ms & os' & E1 & E2 & E3 & _); [by simpl; rewrite app_nil_r|].
    exists ms, os'. split_and!; [exact E1|exact E2|exact E3].
Defined.

(** And back: responses framed for this client with the next sequence numbers
    reach the trade engine's queue, all of them and in order, however TCP cut the
    bytes; a response for another client or out of sequence is dropped without
    any effect. *)
Theorem gateway_forwards_responses ms rest rs g :
  (∀ m, m ∈ ms → resp_client_id_ (me_client_response_ m) = gw_client_id_ g) →
  omresp_seq_num_ <$> ms = seqZ (next_exp_seq_num_ g) (length ms) → Forall wire_wf ms →
  inbound_data_ (tcp_socket_ g) = concat (encode <$> ms) ++ rest → (length rest < 50)%nat →
  0 ≤ next_exp_seq_num_ g → next_exp_seq_num_ g + length ms < 2 ^ 64 →
  lfq_rep (incoming_responses_ g) rs → length rs + length ms ≤ q_size (incoming_responses_ g) →
  let g' := gw_recvCallback g in
  lfq_rep (incoming_responses_ g') (rs ++ (me_client_response_ <$> ms))
  ∧ next_exp_seq_num_ g' = next_exp_seq_num_ g + length ms
  ∧ inbound_data_ (tcp_socket_ g') = rest
  ∧ (∀ m, resp_client_id_ (me_client_response_ m) ≠ gw_client_id_ g ∨ omresp_seq_num_ m ≠ next_exp_seq_num_ g →
       recv_response m g = g).
Proof.
  intros Hc Hseq Hwf Hin Hrest H0 Hlt Hq Hroom. unfold gw_recvCallback.
  rewrite Hin, parse_stream_encode by done.
  destruct (recv_responses_ok ms g rs Hc Hseq H0 Hlt Hq Hroom) as (H1 & H2 & _).
  split_and!; [exact H1|exact H2|done|]. intros m. apply recv_response_drops.
Qed.
