(* ===== verification/TradingTheorems.v ===== *)
(** * What the trading side guarantees.

    Properties of the trade engine: positions and limits, requests, the two
    algorithms, profit and loss, and the features (Position.v, OrderManager.v,
    Features.v, Strategy.v, StrategySafety.v), each with a concrete instance of
    its hypotheses. *)

From Stdlib Require Import Floats QArith Qcanon ZArith.
From stdpp Require Import strings pretty numbers gmap sorting relations list.
From S2P Require Import Prelude Types MemPool LFQueue BookSpec BookCore MarketOrderBook MatchingEngine Double Logging LatencyHistogram Position OrderManager Features Strategy Measured StrategySafety.

Open Scope Z_scope.

(** The examples run on binary64; the identity stands in for [log1p]. *)
#[local] Instance demo_math : DoubleMath float := float_math (λ x, x).

Definition demo_risk : RiskCfg float := mkRiskCfg 50 100 (float_of_Z (-1000)).

(** Clip 10, the given threshold, and the defaults of the other parameters but
    the killswitch. *)
Definition demo_cfg (threshold : float) (kill : bool) : TradeEngineCfg float :=
  let c := TradeEngineCfg_default in
  mkTradeEngineCfg float 10 threshold demo_risk (use_as_ c) (gamma_ c) (kappa_ c) (session_hours_ c) (use_ofi_ c)
    (beta_ofi_ c) 0 (use_adaptive_clip_ c) (sigma_ref_ c) (cfg_ewma_decay_ c) (cfg_ofi_decay_ c)
    (cfg_ewma_decay_long_ c) (cfg_vol_bootstrap_ c) (maker_rebate_bps_ c) (spread_widen_ofi_ c) kill
    (killswitch_ofi_ c) (killswitch_micro_ticks_ c) (use_regime_gamma_ c) (regime_gamma_scale_ c)
    (cfg_use_stoikov_micro_ c) (cfg_use_vpin_ c) (vpin_bucket_size_ c) (vpin_threshold_ c) (vpin_widen_mult_ c)
    (vpin_kill_scale_ c).

Definition demo_cfgs : list (TradeEngineCfg float) := replicate (Z.to_nat ME_MAX_TICKERS) (demo_cfg (float_of_Z 0) false).

Definition no_vwap : side_array float :=
  mkSideArray (float_of_Z 0) (float_of_Z 0) (float_of_Z 0) (float_of_Z 0).

Definition zero_memory : EngineMemory float := mkEngineMemory no_vwap (λ _, zeroed).

Definition demo_trader : Trader float (list MEClientRequest) :=
  Trader_new 7 (risk_cfg_ <$> demo_cfgs) (maker_rebate_bps_ <$> demo_cfgs) no_vwap [].

Definition demo_engine : result (TradeEngine float (list MEClientRequest)) :=
  TradeEngine_new 7 MAKER demo_cfgs zero_memory 0 [] (LFQueue_new 4) (LFQueue_new 4).

(** A bid and an offer arrive. *)
Definition demo_bid : MEMarketUpdate := mkMEMarketUpdate MU_ADD 1 0 BUY 99 10 1.
Definition demo_offer : MEMarketUpdate := mkMEMarketUpdate MU_ADD 2 0 SELL 101 10 1.

Lemma demo_risk_ok : Forall cfg_ok (risk_cfg_ <$> demo_cfgs).
Proof. unfold demo_cfgs. rewrite fmap_replicate. apply Forall_replicate. split; unfold POSITION_SAFE; simpl; lia. Qed.

Lemma demo_clips_ok : clips_ok demo_cfgs.
Proof. apply Forall_replicate. simpl. lia. Qed.

(** The maker quotes around the first two-sided market. *)
Lemma demo_events :
  ∃ te0 te1 te2, demo_engine = Ok te0 ∧ te_market_update 0 0 demo_bid te0 = Ok te1
    ∧ te_market_update 0 0 demo_offer te1 = Ok te2
    ∧ length (outgoing_ogw_requests_ (te_trader te2)) = 2%nat.
Proof.
  set (run := let* te0 := demo_engine in let* te1 := te_market_update 0 0 demo_bid te0 in
              te_market_update 0 0 demo_offer te1).
  assert (match run with Ok te2 => Nat.eqb (length (outgoing_ogw_requests_ (te_trader te2))) 2 | Err _ => false end
    = true) as Hrun by (vm_compute; reflexivity).
  destruct run as [te2|] eqn:E; [|done]. apply bind_ok in E as (te0 & E0 & (te1 & E1 & E2)%bind_ok).
  exists te0, te1, te2. split_and!; [done..|]. by apply Nat.eqb_eq.
Qed.

(** ** Limits *)

(** C16. The position limit holds in every state the trade engine reaches by
    responses of the exchange and market updates, in any order, whichever
    algorithm runs: for limits within [POSITION_SAFE], the position of each
    ticker never exceeds its limit in either direction, not even if all working
    orders fill; and booking a response about a working order never fails. *)
Theorem position_limit_enforced {F : Type} `{!Double F} `{!DoubleMath F} `{!DoubleCast F} {E : Type} `{!RequestSink E} client_id
    algo_type cfgs mem now (requests : E) responses updates (te0 te : TradeEngine F E) :
  TradeEngine_new client_id algo_type cfgs mem now requests responses updates = Ok te0 →
  algo_type = MAKER ∨ algo_type = TAKER → length cfgs = Z.to_nat ME_MAX_TICKERS → clips_ok cfgs →
  Forall cfg_ok (risk_cfg_ <$> cfgs) → rtc te_event te0 te →
  (∀ n cfg p a, cfgs !! n = Some cfg →
     ticker_position_ (position_keeper_ (te_trader te)) !! n = Some p →
     ticker_side_order_ (order_manager_ (te_trader te)) !! n = Some a →
     let limit := max_position_ (risk_cfg_ cfg) in
     Z.abs (position_ p) ≤ limit
     ∧ position_ p + working (at_BUY a) ≤ limit
     ∧ - limit ≤ position_ p - working (at_SELL a))
  ∧ (∀ r, response_ok r (te_trader te) → price_ok r → resp_ticker_id_ r < ME_MAX_TICKERS →
       ∃ te', te_onOrderUpdate r te = Ok te').
Proof.
  intros Hnew Ha Hl Hc Hr Hrun. destruct (te_ready_new _ _ _ _ _ _ _ _ _ Hnew Ha Hl Hc Hr) as (H0 & _ & _ & Hrisk).
  pose proof (te_run_risk te0 te H0 Hrun) as Erisk.
  destruct (te_ready_run te0 te H0 Hrun) as [Halgo _ Hs Hi]. split.
  - intros n cfg p a Hcfg Hp Hslot.
    assert (ticker_ok (risk_cfg_ cfg) p a) as Hk.
    { apply (ti_ticker _ Hi n); [|done..]. by rewrite Erisk, Hrisk, list_lookup_fmap, Hcfg. }
    split; [by eapply ticker_ok_limit|]. by destruct Hk.
  - intros r Hok Hpr Ht. unfold te_onOrderUpdate. rewrite Halgo.
    destruct (sized_covers _ _ (resp_ticker_id_ r) Hs) as (_ & [cfg Hcfg] & [p Hp] & [bps Hb] & [a Hslot]).
    { split; [by destruct Hok|]. unfold ME_MAX_TICKERS in *. lia. }
    destruct (decide (resp_type_ r = FILLED)) as [Ef|Ef].
    + destruct (onOrderUpdate_fill r _ cfg p a bps Hi Hok Hpr Ef Hcfg Hp Hb Hslot) as (t' & ->). by eexists.
    + destruct (onOrderUpdate_ack r _ cfg p a Hi Hok Ef Hcfg Hp Hslot) as (t' & -> & _). by eexists.
Qed.

Lemma position_limit_enforced_witness :
  ∃ te : TradeEngine float (list MEClientRequest), length (outgoing_ogw_requests_ (te_trader te)) = 2%nat
    ∧ ∀ p a, ticker_position_ (position_keeper_ (te_trader te)) !! 0%nat = Some p →
        ticker_side_order_ (order_manager_ (te_trader te)) !! 0%nat = Some a →
        position_ p + working (at_BUY a) ≤ 100.
Proof.
  destruct demo_events as (te0 & te1 & te2 & E0 & E1 & E2 & Hn). exists te2. split; [exact Hn|].
  intros p a H2 H3.
  refine (proj1 (proj2 (proj1 (position_limit_enforced 7 MAKER demo_cfgs zero_memory 0 [] (LFQueue_new 4) (LFQueue_new 4)
    te0 te2 E0 (or_introl eq_refl) eq_refl demo_clips_ok demo_risk_ok _) 0%nat (demo_cfg (float_of_Z 0) false) p a
    eq_refl H2 H3))).
  eapply rtc_l; [exact (ev_update _ 0 0 demo_bid te1 E1)|]. apply rtc_once. exact (ev_update _ 0 0 demo_offer te2 E2).
Defined.

(** C17. Quoting a ticker sends at most one request per side.  A NEW request only
    goes out if no order of that side is working, it carries the quoted price and
    the clip, which is within the order-size limit, it would leave the position
    within the position limit, and the loss limit is not broken; its order id is
    the next unused one.  A CANCEL only goes out for a live order. *)
Theorem quotes_pass_risk {F : Type} `{!Double F} (t t' : Trader F (list MEClientRequest)) ticker_id price side clip :
  trader_inv t → proper_side side → 0 ≤ clip → moveOrder ticker_id price side clip t = Ok t' →
  ∃ sent, outgoing_ogw_requests_ t' = outgoing_ogw_requests_ t ++ sent ∧ (length sent ≤ 1)%nat
    ∧ ∀ r, r ∈ sent →
        (req_type_ r = Req_NEW ∧ req_side_ r = side ∧ req_price_ r = price ∧ req_qty_ r = clip
         ∧ req_order_id_ r = next_order_id_ (order_manager_ t)
         ∧ (∃ o, om_slot ticker_id side (order_manager_ t) = Some o ∧ ¬ is_working o)
         ∧ ∃ cfg p, ticker_risk_ t !! Z.to_nat ticker_id = Some cfg
             ∧ ticker_position_ (position_keeper_ t) !! Z.to_nat ticker_id = Some p
             ∧ clip ≤ max_order_size_ cfg
             ∧ Z.abs (position_ p + sideToValue side * clip) ≤ max_position_ cfg
             ∧ (total_pnl_ p <? max_loss_ cfg)%D = false)
        ∨ (req_type_ r = Req_CANCEL
           ∧ ∃ o, om_slot ticker_id side (order_manager_ t) = Some o ∧ order_state_ o = LIVE
               ∧ req_order_id_ r = om_order_id_ o).
Proof.
  intros Hi Hside Hq [|o Eo Hst|o Eo Hw Hp Er]%moveOrder_outcome.
  - exists []. rewrite app_nil_r. split_and!; [done|simpl; lia|]. by intros r ?%elem_of_nil.
  - rewrite (proj1 (cancelOrder_out _ _ _ _)). eexists. split_and!; [done|simpl; lia|].
    intros r ->%list_elem_of_singleton. right. split; [done|]. eauto.
  - rewrite (proj1 (newOrder_out _ _ _ _ _)). eexists. split_and!; [done|simpl; lia|].
    intros r ->%list_elem_of_singleton. left. cbn [req_type_ req_side_ req_price_ req_qty_ req_order_id_].
    split_and!; try done; [eauto|]. unfold risk_manager_check in Er.
    destruct (ticker_risk_ t !! Z.to_nat ticker_id) as [cfg|] eqn:Hcfg; [|done].
    destruct (ticker_position_ _ !! Z.to_nat ticker_id) as [p|] eqn:Hpos; [|done].
    pose proof (proj1 (Forall_lookup _ _) (ti_cfg _ Hi) _ _ Hcfg) as Hok.
    destruct (risk_allowed cfg p side clip Hok Hside Hq Er) as (? & ? & ?). eauto 10.
Qed.

Lemma quotes_pass_risk_witness :
  ∃ t', moveOrder 0 99 BUY 10 demo_trader = Ok t' ∧ ∃ sent, outgoing_ogw_requests_ t' = [] ++ sent ∧ (length sent ≤ 1)%nat.
Proof.
  destruct (moveOrder 0 99 BUY 10 demo_trader) as [t'|] eqn:Em; [|vm_compute in Em; done].
  exists t'. split; [done|].
  destruct (quotes_pass_risk demo_trader t' 0 99 BUY 10 (trader_inv_new _ _ _ _ _ demo_risk_ok) (or_introl eq_refl)
    ltac:(lia) Em) as (sent & E & Hl & _).
  exists sent. split; [exact E|exact Hl].
Defined.

(** C31. Client order ids are never reused: in any run of [n] events of the trade
    engine the ids of the NEW requests that went out are strictly increasing; an
    event uses at most four ids, which bounds the run before the 64-bit counter
    could wrap. *)
Theorem client_order_ids_unique {F : Type} `{!Double F} `{!DoubleMath F} `{!DoubleCast F} client_id algo_type cfgs mem now responses
    updates n (te0 te : TradeEngine F (list MEClientRequest)) :
  TradeEngine_new client_id algo_type cfgs mem now [] responses updates = Ok te0 →
  algo_type = MAKER ∨ algo_type = TAKER → length cfgs = Z.to_nat ME_MAX_TICKERS → clips_ok cfgs →
  Forall cfg_ok (risk_cfg_ <$> cfgs) → nsteps te_event n te0 te → 4 * Z.of_nat n + 1 < 2 ^ 64 →
  StronglySorted Z.lt (new_ids (outgoing_ogw_requests_ (te_trader te))).
Proof.
  intros Hnew Ha Hl Hc Hr Hrun Hn. destruct (te_ready_new _ _ _ _ _ _ _ _ _ Hnew Ha Hl Hc Hr) as (H0 & Hout & Hid & _).
  apply (te_run_steps n te0 te H0), bsteps_nsteps in Hrun as (m & Hm & Hrun).
  eapply trader_steps_ids; [| |exact Hrun].
  - unfold ids_fresh. rewrite Hout, Hid. split_and!; [constructor|constructor|done].
  - rewrite Hid. lia.
Qed.

Lemma client_order_ids_unique_witness :
  ∃ te : TradeEngine float (list MEClientRequest), length (outgoing_ogw_requests_ (te_trader te)) = 2%nat
    ∧ StronglySorted Z.lt (new_ids (outgoing_ogw_requests_ (te_trader te))).
Proof.
  destruct demo_events as (te0 & te1 & te2 & E0 & E1 & E2 & Hn). exists te2. split; [exact Hn|].
  apply (client_order_ids_unique 7 MAKER demo_cfgs zero_memory 0 (LFQueue_new 4) (LFQueue_new 4) 2 te0 te2 E0
    (or_introl eq_refl) eq_refl demo_clips_ok demo_risk_ok); [|lia].
  eapply nsteps_l; [exact (ev_update _ 0 0 demo_bid te1 E1)|]. apply nsteps_once. exact (ev_update _ 0 0 demo_offer te2 E2).
Defined.

(** ** The algorithms *)

(** C18. The market maker never takes liquidity: with an uncrossed market, on either
    quoting path, every new order it sends is a bid strictly below the best ask
    or an ask strictly above the best bid. *)
Theorem maker_quotes_passive {F : Type} `{!Double F} `{!DoubleMath F} `{!DoubleCast F} cfgs start now ticker_id bbo fe
    (t t' : Trader F (list MEClientRequest)) :
  bid_price_ bbo < ask_price_ bbo → maker_onOrderBookUpdate cfgs start now ticker_id bbo fe t = Ok t' →
  ∃ sent, outgoing_ogw_requests_ t' = outgoing_ogw_requests_ t ++ sent
    ∧ ∀ r, r ∈ sent → req_type_ r = Req_CANCEL
        ∨ req_type_ r = Req_NEW ∧ req_ticker_id_ r = ticker_id
          ∧ (req_side_ r = BUY ∧ req_price_ r < ask_price_ bbo ∨ req_side_ r = SELL ∧ bid_price_ bbo < req_price_ r).
Proof.
  intros Hba Hm. unfold maker_onOrderBookUpdate in Hm.
  assert (outgoing_ogw_requests_ t = outgoing_ogw_requests_ t ++ []) as Hnil by (by rewrite app_nil_r).
  destruct (_ && _); [|injection Hm as <-; exists []; split; [done|by intros r ?%elem_of_nil]].
  destruct (cfgs !! _) as [cfg|]; [|done]. apply bind_ok in Hm as (d & Hd & Hact).
  destruct (maker_decide_passive _ _ _ _ _ _ _ Hd Hba) as [->|(bid & ask & clip & -> & Hb & Ha & _)].
  - apply cancelOrders_sent in Hact as (sent & Eo & Hs). exists sent. split; [done|].
    intros r Hr. left. by apply (proj1 (Forall_forall _ _) Hs).
  - apply moveOrders_sent in Hact as (sent & Eo & Hs). exists sent. split; [done|].
    intros r [?|(? & ? & _ & [(? & -> & _)|(? & -> & _)])]%Hs; auto 10.
Qed.

Definition demo_bbo : BBO := mkBBO 99 101 10 10.

Definition demo_features : FeatureEngine float :=
  match features_onOrderBookUpdate demo_bbo (FeatureEngine_new (demo_cfg (float_of_Z 0) false)) with
  | Ok fe => fe
  | Err _ => FeatureEngine_new (demo_cfg (float_of_Z 0) false)
  end.

Lemma maker_quotes_passive_witness :
  ∃ t' sent, maker_onOrderBookUpdate demo_cfgs 0 0 0 demo_bbo demo_features demo_trader = Ok t'
    ∧ outgoing_ogw_requests_ t' = [] ++ sent.
Proof.
  destruct (maker_onOrderBookUpdate demo_cfgs 0 0 0 demo_bbo demo_features demo_trader) as [t'|] eqn:E;
    [|vm_compute in E; done].
  destruct (maker_quotes_passive demo_cfgs 0 0 0 demo_bbo demo_features demo_trader t' eq_refl E) as (sent & Es & _).
  exists t', sent. split; [done|exact Es].
Defined.

(** C19. The killswitch: when it fires, the maker's callback always returns, sends
    nothing but cancels, and leaves no live order of the ticker on either side. *)
Theorem killswitch_pulls {F : Type} `{!Double F} `{!DoubleMath F} `{!DoubleCast F} cfgs cfg start now ticker_id bbo fe
    (t : Trader F (list MEClientRequest)) :
  cfgs !! Z.to_nat ticker_id = Some cfg → bbo_valid bbo = true → (mkt_price_ fe =? d_nan)%D = false →
  killed cfg bbo fe = Ok true → sized (Z.to_nat ME_MAX_TICKERS) t → 0 ≤ ticker_id < ME_MAX_TICKERS →
  ∃ t' sent, maker_onOrderBookUpdate cfgs start now ticker_id bbo fe t = Ok t'
    ∧ outgoing_ogw_requests_ t' = outgoing_ogw_requests_ t ++ sent ∧ Forall (λ r, req_type_ r = Req_CANCEL) sent
    ∧ ∀ side o, proper_side side → om_slot ticker_id side (order_manager_ t') = Some o → order_state_ o ≠ LIVE.
Proof.
  intros Hcfg Hv Hfair Hk Hs Ht. unfold maker_onOrderBookUpdate, maker_decide.
  rewrite Hv, Hfair, Hcfg, Hk. cbn [negb andb rbind act].
  apply (cancelOrders_spec t ticker_id _ Hs). unfold ME_MAX_TICKERS in *. lia.
Qed.

(** A bid of 99 is live when the order flow turns. *)
Definition live_trader : Trader float (list MEClientRequest) :=
  match (let* t := moveOrders 0 99 101 10 demo_trader in
         onOrderUpdate (mkMEClientResponse ACCEPTED 7 0 1 1 BUY 99 0 10) t) with
  | Ok t => t
  | Err _ => demo_trader
  end.

Definition toxic_features : FeatureEngine float :=
  mkFeatureEngine (float_of_Z 100) PrimFloat.nan (fe_vol demo_features) (ewma_decay_ demo_features)
    (ewma_decay_long_ demo_features) 50 false (mkOrderFlow demo_bbo (float_of_Z (-8))) (ofi_decay_ demo_features)
    (vpin_ demo_features) false.

Lemma killswitch_pulls_witness :
  ∃ t' sent, maker_onOrderBookUpdate (replicate 8 (demo_cfg (float_of_Z 0) true)) 0 0 0 demo_bbo toxic_features
      live_trader = Ok t'
    ∧ outgoing_ogw_requests_ t' = outgoing_ogw_requests_ live_trader ++ sent ∧ Forall (λ r, req_type_ r = Req_CANCEL) sent.
Proof.
  destruct (killswitch_pulls (replicate 8 (demo_cfg (float_of_Z 0) true)) (demo_cfg (float_of_Z 0) true) 0 0 0 demo_bbo
    toxic_features live_trader) as (t' & sent & E & Es & Hc & _); [vm_compute; done..|].
  exists t', sent. split; [exact E|]. split; [exact Es|exact Hc].
Defined.

(** C30. The taker only follows aggression above its threshold: a new order it sends
    has the configured clip, joins the aggressor's direction and is priced at the
    opposite touch. *)
Theorem taker_lifts_touch {F : Type} `{!Double F} `{!DoubleMath F} `{!DoubleCast F} cfgs u bbo fe
    (t t' : Trader F (list MEClientRequest)) :
  taker_onTradeUpdate cfgs u bbo fe t = Ok t' →
  ∃ sent, outgoing_ogw_requests_ t' = outgoing_ogw_requests_ t ++ sent
    ∧ ∀ r, r ∈ sent → req_type_ r = Req_CANCEL
        ∨ req_type_ r = Req_NEW ∧ req_ticker_id_ r = mu_ticker_id_ u
          ∧ (∃ cfg, cfgs !! Z.to_nat (mu_ticker_id_ u) = Some cfg ∧ req_qty_ r = clip_ cfg
               ∧ (threshold_ cfg <=? agg_trade_qty_ratio_ fe)%D = true)
          ∧ (mu_side_ u = BUY ∧ req_side_ r = BUY ∧ req_price_ r = ask_price_ bbo
             ∨ mu_side_ u ≠ BUY ∧ req_side_ r = SELL ∧ req_price_ r = bid_price_ bbo).
Proof.
  intros Hm. unfold taker_onTradeUpdate in Hm.
  assert (outgoing_ogw_requests_ t = outgoing_ogw_requests_ t ++ []) as Hnil by (by rewrite app_nil_r).
  destruct (_ && _); [|injection Hm as <-; exists []; split; [done|by intros r ?%elem_of_nil]].
  destruct (cfgs !! _) as [cfg|]; [|done].
  destruct (_ <=? _)%D eqn:Hth; [|injection Hm as <-; exists []; split; [done|by intros r ?%elem_of_nil]].
  case_bool_decide as Hside; apply moveOrders_sent in Hm as (sent & Eo & Hs); exists sent; (split; [done|]);
    intros r [?|(? & ? & ? & [(? & -> & ?)|(? & -> & ?)])]%Hs; [by left| |done|by left|done|]; right;
    (split; [done|]; split; [done|]; split; [by exists cfg|]; auto).
Qed.

Definition sweep : MEMarketUpdate := mkMEMarketUpdate MU_TRADE OrderId_INVALID 0 BUY 101 8 Priority_INVALID.

Definition sweep_features : FeatureEngine float :=
  match features_onTradeUpdate 1 sweep demo_bbo demo_features with Ok fe => fe | Err _ => demo_features end.

Lemma taker_lifts_touch_witness :
  ∃ t' sent, taker_onTradeUpdate demo_cfgs sweep demo_bbo sweep_features demo_trader = Ok t'
    ∧ outgoing_ogw_requests_ t' = [] ++ sent.
Proof.
  destruct (taker_onTradeUpdate demo_cfgs sweep demo_bbo sweep_features demo_trader) as [t'|] eqn:E;
    [|vm_compute in E; done].
  destruct (taker_lifts_touch demo_cfgs sweep demo_bbo sweep_features demo_trader t' E) as (sent & Es & _).
  exists t', sent. split; [done|exact Es].
Defined.

(** ** Features *)

(** C29. VPIN in exact arithmetic: a trade of at most [n] buckets' volume is worked
    off in at most [n + 1] rounds of the loop; its volume is conserved (it fills
    [k] buckets and part of the open one), the open bucket stays below its size,
    and the published value is between 0 and 1. *)
Theorem vpin_buckets_volume n (v : Vpin Qc) qty b :
  vpin_inv v → (0 <= qty)%Qc → (qty <= Qc_of_Z (Z.of_nat n) * bucket_size_ v)%Qc →
  ∃ v' (k : nat), vpin_onTrade (S n) qty b v = Ok v' ∧ vpin_inv v'
    ∧ (cur_filled_ v' + Qc_of_Z (Z.of_nat k) * bucket_size_ v = cur_filled_ v + qty)%Qc
    ∧ unit_interval (vpin_sum v' / d_of_Z kVpinWindow)%D.
Proof.
  intros Hv Hq Hn. destruct (vpin_onTrade_ok n v qty b Hv Hq Hn) as (v' & k & E & Hv' & _ & Hf).
  exists v', k. split_and!; [done|done|done|by apply vpin_sum_bound..].
Qed.

Lemma vpin_buckets_volume_witness :
  ∃ v' (k : nat), vpin_onTrade 4 (Qc_of_Z 25) true (setBucketSize (Qc_of_Z 10) Vpin_new) = Ok v'
    ∧ (cur_filled_ v' + Qc_of_Z (Z.of_nat k) * Qc_of_Z 10 = Qc_of_Z 0 + Qc_of_Z 25)%Qc.
Proof.
  destruct (vpin_buckets_volume 3 (setBucketSize (Qc_of_Z 10) Vpin_new) (Qc_of_Z 25) true) as (v' & k & E & _ & Hf & _).
  - apply vpin_inv_new. by apply (Qc_of_Z_lt 0 10).
  - by apply (Qc_of_Z_le 0 25).
  - change (bucket_size_ _) with (Qc_of_Z 10). rewrite <- Qc_of_Z_mul. apply Qc_of_Z_le. lia.
  - exists v', k. split; [exact E|exact Hf].
Defined.

(** The fair price in exact arithmetic: for a two-sided touch it lies inside
    the spread, and the two formulas the engine offers, the quantity-weighted
    price and the imbalance-shifted mid price, are the same number. *)
Theorem fair_price_inside_spread (bbo : BBO) :
  touch_ok bbo → bid_price_ bbo ≤ ask_price_ bbo →
  ∃ p : Qc, micro_price false bbo = Ok p ∧ micro_price true bbo = Ok p
    ∧ (Qc_of_Z (bid_price_ bbo) <= p)%Qc ∧ (p <= Qc_of_Z (ask_price_ bbo))%Qc.
Proof.
  intros Ht Hle. exists (weighted_price bbo). rewrite !micro_price_exact by done.
  split_and!; [done|done|by apply weighted_price_inside..].
Qed.

Lemma fair_price_inside_spread_witness :
  ∃ p : Qc, micro_price false demo_bbo = Ok p ∧ micro_price true demo_bbo = Ok p.
Proof.
  destruct (fair_price_inside_spread demo_bbo) as (p & E1 & E2 & _).
  - split; simpl; lia.
  - simpl. lia.
  - exists p. split; [exact E1|exact E2].
Defined.

(** ** Profit and loss *)

(** C24. Accounting identity, in exact arithmetic: after any sequence of fills that
    keeps the position within [POSITION_SAFE], starting flat with a zero cost
    array, the position is the net quantity bought, the total P&L is the cash
    received plus the position valued at the last fill's price plus the rebates,
    and only the side of the position carries an open cost. *)
Theorem pnl_accounting rs r bps :
  fills_ok 0 rs → last rs = Some r →
  ∃ p, add_fills rs bps (PositionInfo_new (mkSideArray 0%Qc 0%Qc 0%Qc 0%Qc)) = Ok p
    ∧ position_ p = net_qty rs ∧ one_sided (position_ p) (open_vwap_ p)
    ∧ (total_pnl_ p = net_cash rs + net_rebate bps rs + Qc_of_Z (resp_price_ r) * Qc_of_Z (net_qty rs))%Qc.
Proof.
  intros Hf Hl. destruct (add_fills_ok rs bps (PositionInfo_new (mkSideArray 0%Qc 0%Qc 0%Qc 0%Qc)) Hf)
    as (p & E & Hp & Hv & Hb & Ht); [done|].
  exists p. split_and!; [done|done|done|]. rewrite (Ht r Hl), Hb, Hp. unfold book_value, cost, PositionInfo_new.
  cbn [real_pnl_ open_vwap_ at_BUY at_SELL position_ d_of_Z Qc_Double]. rewrite Qc_of_Z_0, Z.add_0_l. ring.
Qed.

Definition fill (side : Side) (price qty : Z) : MEClientResponse :=
  mkMEClientResponse FILLED 7 0 1 1 side price qty 0.

(** Buy 10 at 100, sell 15 at 104 (a flip), buy 5 at 101. *)
Definition demo_fills : list MEClientResponse := [fill BUY 100 10; fill SELL 104 15; fill BUY 101 5].

Lemma pnl_accounting_witness :
  ∃ p, add_fills demo_fills 0%Qc (PositionInfo_new (mkSideArray 0%Qc 0%Qc 0%Qc 0%Qc)) = Ok p
    ∧ position_ p = 0 ∧ total_pnl_ p = Qc_of_Z 55.
Proof.
  destruct (pnl_accounting demo_fills (fill BUY 101 5) 0%Qc) as (p & E & Hp & _ & Ht).
  - repeat split; unfold POSITION_SAFE; vm_compute; solve [done|by left|by right].
  - done.
  - exists p. split; [exact E|]. split; [exact Hp|]. rewrite Ht. apply Qc_is_canon. vm_compute. done.
Defined.

(** Outside that range the bookkeeping is undefined: a sale out of a long
    position fails as soon as the product of the old and the new position leaves
    32 bits, which [position_ * old_position < 0] computes; 50000 held and one
    sold is enough. *)
Theorem position_product_overflows {F : Type} `{!Double F} r (bps : F) (p : PositionInfo F) :
  resp_side_ r = SELL → 0 ≤ resp_exec_qty_ r ≤ position_ p → position_ p < 2 ^ 31 →
  2 ^ 31 ≤ (position_ p - resp_exec_qty_ r) * position_ p →
  addFill r bps p = Err Undefined.
Proof. apply addFill_overflow. Qed.

Lemma position_product_overflows_witness :
  addFill (fill SELL 100 1) (float_of_Z 0)
    (mkPosition 50000 (float_of_Z 0) (float_of_Z 0) (float_of_Z 0) no_vwap 50000) = Err Undefined.
Proof. apply position_product_overflows; vm_compute; done. Defined.

(** The cost array of a position has no initialiser: whatever the memory held
    for the buy side is subtracted from the total P&L by the first purchase (in
    exact arithmetic; a purchase at its own price should be worth zero). *)
Theorem uninitialised_cost_leaks r v :
  resp_side_ r = BUY → 0 < resp_exec_qty_ r ≤ POSITION_SAFE → Z.abs (resp_price_ r) ≤ 2 ^ 40 →
  ∃ p, addFill r 0%Qc (PositionInfo_new v) = Ok p ∧ (total_pnl_ p = - at_BUY v)%Qc.
Proof. apply first_fill_garbage. Qed.

Lemma uninitialised_cost_leaks_witness :
  ∃ p, addFill (fill BUY 100 10) 0%Qc (PositionInfo_new (mkSideArray 0%Qc 0%Qc (Qc_of_Z 3) 0%Qc)) = Ok p
    ∧ total_pnl_ p = Qc_of_Z (-3).
Proof.
  destruct (uninitialised_cost_leaks (fill BUY 100 10) (mkSideArray 0%Qc 0%Qc (Qc_of_Z 3) 0%Qc)) as (p & E & Ht).
  - done.
  - unfold POSITION_SAFE. simpl. lia.
  - simpl. lia.
  - exists p. split; [exact E|]. rewrite Ht. apply Qc_is_canon. vm_compute. done.
Defined.

(** ** Measurements *)

(** How often a tag is measured for some responses and updates. *)
Definition events_of (t : Tag) (rs : list MEClientResponse) (us : list MEMarketUpdate) : nat :=
  match t with
  | pk_updateBBO | fe_obUpdate | algo_obUpdate => length (filter (λ u, mu_type_ u ≠ MU_TRADE) us)
  | fe_trUpdate | algo_trUpdate => length (filter (λ u, mu_type_ u = MU_TRADE) us)
  | pk_addFill => length (filter (λ r, resp_type_ r = FILLED) rs)
  | algo_ordUpdate => length rs
  end.

Lemma times_app t ts1 ts2 : times t (ts1 ++ ts2) = (times t ts1 + times t ts2)%nat.
Proof. unfold times. by rewrite filter_app, length_app. Qed.

Lemma times_responses t rs : times t (concat (response_tags <$> rs)) = events_of t rs [].
Proof.
  induction rs as [|r rs IH]; [by destruct t|]. cbn [fmap list_fmap concat]. rewrite times_app, IH. unfold response_tags.
  case_bool_decide as Hf; destruct t; cbn [events_of]; rewrite ?(filter_cons _ r rs); try case_decide; try contradiction; reflexivity.
Qed.

Lemma times_updates t us : times t (concat (update_tags <$> us)) = events_of t [] us.
Proof.
  induction us as [|u us IH]; [by destruct t|]. cbn [fmap list_fmap concat]. rewrite times_app, IH. unfold update_tags.
  case_bool_decide as Hf; destruct t; cbn [events_of]; rewrite ?(filter_cons _ u us); try case_decide; try contradiction; reflexivity.
Qed.

(** C38. A turn of the trade engine with its latency measurements, on waiting
    responses and updates, whatever the time stamp counter reads (also when it runs
    backwards): it does and returns what the turn without measurements does, errors
    included, and each histogram has one more observation per event it measures:
    the three of the order book per update that is not a trade, the two of trades
    per trade, the one of fills per fill and the one of responses per response.
    The files written at the end are one per histogram, named after client and
    tag. *)
Theorem measuring_is_transparent {F} `{!Double F} `{!DoubleMath F} `{!DoubleCast F} `{!DoubleText F} {E} `{!RequestSink E}
    (span : nat → Z * Z) fuel n k clock rs us (te : TradeEngine F E) m ts c :
  lfq_rep (incoming_ogw_responses_ te) rs → lfq_rep (incoming_md_updates_ te) us → profile m ts →
  Z.of_nat (length ts) + 3 * Z.of_nat (length rs) + 3 * Z.of_nat (length us) < 2 ^ 64 →
  match te_turn fuel n k clock te with
  | Ok te' => ∃ m', m_turn span fuel n k clock te m = Ok (te', m')
      ∧ (∀ t, count (m_hists m' t) = count (m_hists m t) + Z.of_nat (events_of t rs us))
      ∧ (latency_files (F := F) c m').*1 = (λ t, "latency_" +:+ pretty c +:+ "_" +:+ tag_name t +:+ ".hgrm")%string <$> all_tags
  | Err e => m_turn span fuel n k clock te m = Err e
  end.
Proof.
  intros Hr Hu Hm Hn. pose proof (m_turn_ok span fuel n k clock rs us te m ts Hr Hu Hm Hn) as H. unfold agrees in H.
  destruct (te_turn fuel n k clock te) as [te'|e]; [|done]. destruct H as (m' & Em & Hm'). exists m'. split; [done|]. split.
  - intros t. destruct (Hm t) as (vs & Hh & Hl & _). destruct (Hm' t) as (vs' & Hh' & Hl' & _). unfold count.
    rewrite (hr_count _ _ Hh), (hr_count _ _ Hh'), Hl, Hl', !times_app, times_responses, times_updates. destruct t; cbn; lia.
  - unfold latency_files, dumpLatencyHistograms. rewrite <- !list_fmap_compose. apply list_fmap_ext. intros i t _. cbn.
    destruct (Hm' t) as (_ & _ & _ & Hname). by rewrite Hname.
Qed.

#[local] Instance measured_text : DoubleText float := { d_show _ := "0"%string; d_parse _ := None }.

(** A RANDOM engine with one waiting response; the counter runs backwards. *)
Lemma measuring_is_transparent_witness :
  ∃ (te te' : TradeEngine float (list MEClientRequest)) m', m_turn (λ _, (7, 3)) 0 1 0 (λ _, 0) te Meter_new = Ok (te', m')
    ∧ count (m_hists m' algo_ordUpdate) = 1 ∧ count (m_hists m' pk_addFill) = 0.
Proof.
  set (r := mkMEClientResponse ACCEPTED 3 0 17 1 BUY 100 0 10). set (q := enqueue r (LFQueue_new 4)).
  assert (lfq_rep q [r]) as Hq by (apply (enqueue_ok (LFQueue_new 4) [] r); [by apply lfq_rep_new|done]).
  destruct (TradeEngine_new_ok 3 RANDOM (replicate (Z.to_nat ME_MAX_TICKERS) TradeEngineCfg_default)
    zero_memory 0 ([] : list MEClientRequest) q (LFQueue_new 4) eq_refl)
    as (te & cfg0 & _ & _ & Ha & _ & _ & Hu & Hr & _).
  assert (lfq_rep (incoming_md_updates_ te) []) as Hu0 by (rewrite Hu; by apply lfq_rep_new).
  rewrite <- Hr in Hq. destruct (updateReadIndex_ok _ _ _ Hq) as (q' & Eq & Hq' & _).
  assert (te_turn 0 1 0 (λ _, 0) te = Ok (set_responses q' te)) as Et.
  { unfold te_turn. cbn [te_drain_responses]. rewrite (getNextToRead_ok _ _ Hq). cbn [head]. unfold te_onOrderUpdate, has_algo. rewrite Ha, !bool_decide_false by done. cbn [orb rbind].
    rewrite Eq. cbn [rbind te_drain_responses]. change (incoming_ogw_responses_ (set_responses q' te)) with q'. rewrite (getNextToRead_ok _ _ Hq'). cbn [head rbind te_drain_updates].
    change (incoming_md_updates_ (set_responses q' te)) with (incoming_md_updates_ te). by rewrite (getNextToRead_ok _ _ Hu0). }
  pose proof (measuring_is_transparent (λ _, (7, 3)) 0 1 0 (λ _, 0) [r] [] te Meter_new [] 3 Hq Hu0 profile_new ltac:(cbn; lia)) as H.
  rewrite Et in H. destruct H as (m' & Em & Hc & _). exists te, (set_responses q' te), m'. split; [exact Em|]. split; [exact (Hc algo_ordUpdate)|exact (Hc pk_addFill)].
Defined.
