(* ===== verification/BacktestTheorems.v ===== *)
(** * What the backtest guarantees.

    Properties of the tape readers (Tape.v, Lobster.v), of the fill simulator and
    of the replay (Backtest.v) with the trade engine inside, each with a concrete
    instance of its hypotheses. *)

From Stdlib Require Import Ascii String Floats QArith Qcanon ZArith Lqa.
From stdpp Require Import numbers strings pretty gmap sorting relations list.
From S2P Require Import Prelude Types MemPool LFQueue BookCore BookSpec BookRep MarketOrderBook Mirror MatchingEngine Double Logging Position OrderManager Features Strategy StrategySafety Parse Tape TapeProofs Lobster LobsterProofs Backtest BacktestProofs BacktestBook BacktestFills BacktestLobster BacktestMain.

Open Scope Z_scope.

(** ** The readers *)

(** C36. The synthetic tape: for any logarithm with the documented bounds on
    [1e-9, 1], in exact arithmetic, reading it to the end succeeds after exactly
    as many events as configured (at most 200000).  Every event is well typed for
    the replay: a two-tick market of one to three lots a side or a trade of one
    to four lots on a proper side, prices at most 101 ticks from the anchor (the band
    of 100 and the half spread), and the times never go back. *)
Theorem synthetic_tape_wellformed `{!DoubleLog Qc} `{!DoubleText Qc} (cfg : TapeConfig Qc) file r :
  log_bounds d_log → is_binance cfg = false → 0 ≤ max_events cfg → TapeReader_new cfg file = Ok r →
  ∃ evs, read_tape (S (Z.to_nat (synth_limit cfg))) r = Ok evs
    ∧ Z.of_nat (length evs) = synth_limit cfg ∧ Forall synth_event_ok evs ∧ StronglySorted no_earlier evs.
Proof.
  intros Hlog Hb Hm. unfold TapeReader_new. rewrite Hb. intros [= <-].
  assert (0 ≤ synth_limit cfg) as Hl by (unfold synth_limit; destruct (_ =? 0); lia).
  destruct (read_synth_ok (Z.to_nat (synth_limit cfg)) (mkTapeReader cfg EmptyString false 0 12648430 100000 0))
    as (evs & Hr & Hn & Hok & _ & Hs); [done|done|split; simpl; unfold kAnchor, kBandHalf; lia|done|simpl; lia|].
  exists evs. split_and!; [exact Hr|lia|done|done].
Qed.

(** The tangent of the logarithm at 1, and integers as texts, for the instances. *)
#[local] Instance tangent_log : DoubleLog Qc := λ u, (u - 1)%Qc.
#[local] Instance integer_text : DoubleText Qc := {
  d_show _ := EmptyString;
  d_parse s := Qc_of_Z <$> strtoll s }.

Lemma tangent_bounds : log_bounds d_log.
Proof.
  intros u H1 H2. unfold d_log, tangent_log, Qcle in *.
  assert (this u <= 1)%Q as H3 by exact H2.
  assert (0 <= this u)%Q as H4 by (eapply Qle_trans; [|exact H1]; by vm_compute).
  assert (this (u - 1)%Qc == this u - 1)%Q as E.
  { cbn. rewrite !Qred_correct. cbn. reflexivity. }
  rewrite E. change (this (Qc_of_Z (-21))) with (-21 # 1)%Q. change (this 0%Qc) with 0%Q. split; lra.
Qed.

Definition synth_cfg : TapeConfig Qc := mkTapeConfig "synth" 1%Qc 1%Qc 3.

Lemma synthetic_tape_wellformed_witness :
  ∃ r evs, TapeReader_new synth_cfg None = Ok r ∧ read_tape 4 r = Ok evs ∧ Forall synth_event_ok evs.
Proof.
  eexists. destruct (synthetic_tape_wellformed synth_cfg None _ tangent_bounds eq_refl ltac:(simpl; lia) eq_refl)
    as (evs & Hr & _ & Hok & _).
  exists evs. split_and!; [reflexivity|exact Hr|exact Hok].
Defined.

(** C35. The tape format: a file in the layout of the merger script (header, nine
    columns with the empty ones, 1 or 0 for the maker flag, CR LF), with integers for
    its numbers, is read back.  With tick and lot size 1 and a [std::stod] that reads
    printed integers, the reader returns exactly the events, in order, then the end.
    And on any contents whatsoever the loop that skips lines ends: it returns an
    event, the end, or throws. *)
Theorem binance_tape_roundtrip `{!DoubleLog Qc} `{!DoubleText Qc} (cfg : TapeConfig Qc) evs text r :
  parses_integers → unit_steps cfg → is_binance cfg = true → max_events cfg = 0 → Forall printable evs →
  TapeReader_new cfg (Some text) = Ok r →
  (text = print_tape evs → read_tape (S (length evs)) r = Ok evs) ∧ fueled (nextBinance r).
Proof.
  intros Hp Hu Hb Hm Hevs. unfold TapeReader_new. rewrite Hb. intros [= <-]. split; [|apply nextBinance_fuel].
  intros ->. apply read_tape_roundtrip; try done. by right.
Qed.

Definition binance_cfg : TapeConfig Qc := mkTapeConfig "binance" 1%Qc 1%Qc 0.

Definition demo_tape : list TapeEvent :=
  [ BookTop (mkBookTopEvent 1000 99 5 101 7); Trade (mkTradeEvent 2000 101 3 BUY) ].

Lemma binance_tape_roundtrip_witness :
  ∃ r, TapeReader_new binance_cfg (Some (print_tape demo_tape)) = Ok r ∧ read_tape 3 r = Ok demo_tape.
Proof.
  eexists. split; [reflexivity|].
  apply (binance_tape_roundtrip binance_cfg demo_tape (print_tape demo_tape)); try reflexivity.
  - intros z. unfold d_parse, integer_text. by rewrite strtoll_pretty.
  - split; reflexivity.
  - repeat constructor; unfold price_fits, qty_fits; simpl; try lia; by left.
Defined.

(** C33. The LOBSTER replay: along any sequence of steps whose prices the index of
    the client's book tells apart, and in which no new level of a side is a level
    the other side still has, the client's book stays in step with the snapshots:
    its best bid and offer are the best levels of the last row read, with their
    quantities.  The book starts in zeroed memory: its constructor does not set the
    index arrays it reads.  The updates of a further step are exactly what the following
    calls of [next] return, whatever order the hash tables are visited in, and the
    client's book takes them without error.  On any contents [next] ends. *)
Theorem lobster_book_follows {F : Type} `{!Double F} `{!DoubleCast F} `{!DoubleText F} `{!HashOrder}
    {Hlaws : HashOrderLaws} cfg path (files : string → option string) r0 ticker_id r mb :
  LobsterReader_new cfg path files = Ok r0 → 3 * Z.of_nat (levels cfg) + 1 < ME_MAX_PRICE_LEVELS →
  rtc (lob_step (F:=F)) (r0, MarketOrderBook_new zeroed ticker_id) (r, mb) →
  best_level BUY (prev_bid_ r) (bid_price_ (bbo_ mb)) (bid_qty_ (bbo_ mb))
  ∧ best_level SELL (prev_ask_ r) (ask_price_ (bbo_ mb)) (ask_qty_ (bbo_ mb))
  ∧ (∀ r1, fillStep (F:=F) r = Ok (true, r1) → prices_fit (prev_bid_ r1) → prices_fit (prev_ask_ r1) → separated r r1 →
       ∃ mb1, mkt_replay (pending_ r1).*2 mb = Ok mb1 ∧ lob_step (F:=F) (r, mb) (drained r1, mb1)
         ∧ (pending_ r1 ≠ [] → lob_read (F:=F) (length (pending_ r1)) r = Ok (pending_ r1, drained r1)))
  ∧ fueled (lob_next (F:=F) r).
Proof.
  intros Hnew Hl Hrun. unfold LobsterReader_new in Hnew.
  destruct (files path) as [msg|], (files (deriveOrderbookPath path)) as [ob|]; try done. injection Hnew as <-.
  assert (lob_synced (mkLobsterReader cfg msg ob false 0 1 ∅ ∅ [], MarketOrderBook_new zeroed ticker_id)) as H0
    by (split; [done|by apply lob_client_new]).
  destruct (lob_steps_client _ _ H0 Hrun) as [Hp Hc]. simpl in Hp, Hc. destruct (lob_client_bbo r mb Hc) as [Hb Ha].
  split_and!; [exact Hb|exact Ha| |apply lob_next_fuel]. intros r1 Hs Pb Pa Sep.
  destruct (fillStep_client r r1 mb Hs Hp Hc Pb Pa Sep) as (mb1 & Hre & _). exists mb1.
  split_and!; [done|by constructor|by apply lob_read_step].
Qed.

#[local] Instance tree_order : HashOrder := λ _ m, map_to_list m.
#[local] Instance tree_order_laws : HashOrderLaws.
Proof. intros n m. reflexivity. Qed.

(** One message and one row of one level: ask 200 at 585.94, bid 18 at 585.33. *)
Definition lobster_files (path : string) : option string :=
  if bool_decide (path = "AMZN_message_1.csv") then Some "34200,1,16113575,18,5853300,1"
  else if bool_decide (path = "AMZN_orderbook_1.csv") then Some "5859400,200,5853300,18" else None.

Definition lobster_start : LobsterReader :=
  mkLobsterReader (mkLobsterConfig 0 1 0) "34200,1,16113575,18,5853300,1" "5859400,200,5853300,18" false 0 1 ∅ ∅ [].

Definition lobster_after : LobsterReader :=
  match fillStep (F:=Qc) lobster_start with Ok (_, r) => r | Err _ => lobster_start end.

Lemma lobster_after_step : fillStep (F:=Qc) lobster_start = Ok (true, lobster_after).
Proof.
  assert (match fillStep (F:=Qc) lobster_start with Ok (m, _) => m | Err _ => false end = true) as Hm
    by (vm_compute; reflexivity).
  unfold lobster_after. destruct (fillStep lobster_start) as [[[] r]|]; done.
Qed.

Lemma lobster_after_fits : prices_fit (prev_bid_ lobster_after) ∧ prices_fit (prev_ask_ lobster_after).
Proof. split; apply (bool_decide_unpack _); vm_compute; exact I. Qed.

Lemma lobster_after_separated : separated lobster_start lobster_after.
Proof.
  split; [done|]. intros p [q Hq] _. revert p q Hq.
  change (map_Forall (λ p _, prev_bid_ lobster_after !! p = None) (prev_ask_ lobster_after)).
  apply (bool_decide_unpack _). vm_compute. exact I.
Qed.

Lemma lobster_book_follows_witness :
  ∃ mb, mkt_replay (pending_ lobster_after).*2 (MarketOrderBook_new zeroed 0) = Ok mb
    ∧ best_level BUY {[58533 := 18]} (bid_price_ (bbo_ mb)) (bid_qty_ (bbo_ mb)).
Proof.
  assert (LobsterReader_new (mkLobsterConfig 0 1 0) "AMZN_message_1.csv" lobster_files = Ok lobster_start) as H0
    by (vm_compute; reflexivity).
  destruct (lobster_book_follows (F:=Qc) _ _ _ _ 0 lobster_start (MarketOrderBook_new zeroed 0) H0 ltac:(vm_compute; reflexivity)
    (rtc_refl _ _)) as (_ & _ & Hstep & _).
  destruct lobster_after_fits as [Hb Ha].
  destruct (Hstep lobster_after lobster_after_step Hb Ha lobster_after_separated) as (mb & Hre & Hs & _).
  exists mb. split; [exact Hre|].
  destruct (lobster_book_follows (F:=Qc) _ _ _ _ 0 (drained lobster_after) mb H0 ltac:(vm_compute; reflexivity)
    (rtc_once _ _ Hs)) as (Hbest & _).
  assert (prev_bid_ lobster_after = {[58533 := 18]}) as E by (vm_compute; reflexivity).
  cbn [drained prev_bid_] in Hbest. rewrite E in Hbest. exact Hbest.
Defined.

(** ** The fill simulator *)

(** C34. How the simulator fills an order [o] of the algorithm on side [s].  A trade
    of the other side at a price that does not reach the order changes nothing;
    one that does first uses up the quantity queued in front of the order and
    fills the order, at its own price, with what is left of the trade
    ([trade_exec]): one FILLED response with the executed and the remaining
    quantity, the slot is freed when nothing remains, and the order of the other
    side is untouched.  A change of the best prices sends, for each side, exactly
    what [bbo_outcome] says and nothing else: no response and no change for an order
    that is not through the other side's touch; one CANCELED for an order that is
    through it with quantity still queued in front; one FILLED at the touch's price,
    for the smaller of the remaining and the touch's quantity, for an order that is
    through it with nothing in front.  Quantities are 32-bit and the response queue
    has room for two. *)
Theorem fill_simulator_respects_queue {F : Type} `{!Double F} `{!DoubleMath F} `{!DoubleCast F} (b : BacktestEngine F)
    s o bo ao ev rs :
  proper_side s → live_slot (bt_ticker_id b) s b = Ok o → live_order o →
  live_slot (bt_ticker_id b) BUY b = Ok bo → live_slot (bt_ticker_id b) SELL b = Ok ao →
  lo_leaves bo < 2 ^ 32 → lo_leaves ao < 2 ^ 32 → 0 ≤ last_bid_qty_ b → 0 ≤ last_ask_qty_ b →
  t_side ev = opposite s → 0 ≤ t_qty ev < 2 ^ 32 → waiting b rs → response_room b rs 2 →
  (∃ b', matchAgainstTrade ev b = Ok b'
    ∧ (trade_reaches s o (t_price ev) = false → b' = b)
    ∧ (trade_reaches s o (t_price ev) = true →
       let exec := trade_exec o (t_qty ev) in
       waiting b' (rs ++ if exec =? 0 then []
                         else [harness_response FILLED (bt_ticker_id b) s (lo_order_id o) (lo_price o) exec
                                 (lo_leaves o - exec)])
       ∧ live_slot (bt_ticker_id b) s b' = Ok (after_trade o (t_qty ev))
       ∧ live_slot (bt_ticker_id b) (opposite s) b' = live_slot (bt_ticker_id b) (opposite s) b))
  ∧ ∃ b' bid_responses bo' ask_responses ao',
    matchAgainstBBO b = Ok b' ∧ waiting b' (rs ++ bid_responses ++ ask_responses)
    ∧ live_slot (bt_ticker_id b) BUY b' = Ok bo' ∧ live_slot (bt_ticker_id b) SELL b' = Ok ao'
    ∧ bbo_outcome (bt_ticker_id b) BUY bo (last_ask_price_ b) (last_ask_qty_ b) bid_responses bo'
    ∧ bbo_outcome (bt_ticker_id b) SELL ao (last_bid_price_ b) (last_bid_qty_ b) ask_responses ao'.
Proof.
  intros Hs Ho Hlive Hb Ha Lb La Qb Qa Ht Hq Hw Hr. split.
  - apply matchAgainstTrade_ok; try done. unfold response_room in *. lia.
  - destruct (matchAgainstBBO_ok b rs bo ao Hb Ha Lb La Qb Qa Hw Hr) as (b' & E & W & H1 & H2).
    exists b', (sweep_responses BUY bo b), (after_sweep BUY bo b), (sweep_responses SELL ao b), (after_sweep SELL ao b).
    split_and!; [exact E|exact W|exact H1|exact H2|exact (sweep_outcome BUY bo b)|exact (sweep_outcome SELL ao b)].
Qed.

(** ** The replay *)

(** The examples run on binary64; the identity stands in for [log1p] and [log]. *)
#[local] Instance demo_math : DoubleMath float := float_math (λ x, x).
#[local] Instance demo_log : DoubleLog float := λ x, x.
#[local] Instance float_text : DoubleText float := {
  d_show _ := EmptyString;
  d_parse s := float_of_Z <$> strtoll s }.

Definition replay_cfg : TradeEngineCfg float :=
  let c := TradeEngineCfg_default in
  mkTradeEngineCfg float 2 (float_of_Z 0) (mkRiskCfg 50 4 (float_of_Z (-1000))) (use_as_ c) (gamma_ c) (kappa_ c)
    (session_hours_ c) (use_ofi_ c)
    (beta_ofi_ c) 0 (use_adaptive_clip_ c) (sigma_ref_ c) (cfg_ewma_decay_ c) (cfg_ofi_decay_ c)
    (cfg_ewma_decay_long_ c) (cfg_vol_bootstrap_ c) (maker_rebate_bps_ c) (spread_widen_ofi_ c) (use_killswitch_ c)
    (killswitch_ofi_ c) (killswitch_micro_ticks_ c) (use_regime_gamma_ c) (regime_gamma_scale_ c)
    (cfg_use_stoikov_micro_ c) (cfg_use_vpin_ c) (vpin_bucket_size_ c) (vpin_threshold_ c) (vpin_widen_mult_ c)
    (vpin_kill_scale_ c).

(** A market, a sell that trades through the bid queue, another market. *)
Definition replay_tape : list TapeEvent :=
  [ BookTop (mkBookTopEvent 1000 99 5 101 7); Trade (mkTradeEvent 2000 99 6 SELL);
    BookTop (mkBookTopEvent 3000 98 4 101 7) ].

Definition replay_reader : TapeReader float :=
  mkTapeReader (mkTapeConfig "binance" (float_of_Z 1) (float_of_Z 1) 0) (print_tape replay_tape) false 0 12648430 100000 0.

(** The memory the engines' uninitialised members start with, here all zero. *)
Definition zero_memory : EngineMemory float :=
  mkEngineMemory (mkSideArray (float_of_Z 0) (float_of_Z 0) (float_of_Z 0) (float_of_Z 0)) (λ _, zeroed).

Definition replay_start : result (BacktestEngine float) :=
  BacktestEngine_new 0 replay_cfg zero_memory 0.

Definition replay : result (BacktestEngine float) :=
  let* b := replay_start in run_tape 10 4 (λ _ k, Z.of_nat k) replay_reader 0 b.

Lemma replay_start_ok : ∃ te, replay_start = Ok (mkBacktestEngine 0 te 500000 OrderId_INVALID OrderId_INVALID
  Price_INVALID Price_INVALID 0 0 (replicate (Z.to_nat ME_MAX_TICKERS)
    (mkSideArray LiveAlgoOrder_default LiveAlgoOrder_default LiveAlgoOrder_default LiveAlgoOrder_default)) [] 0 0).
Proof.
  unfold replay_start, BacktestEngine_new. cbv zeta. rewrite decide_True by (vm_compute; lia).
  match goal with |- context [TradeEngine_new ?c ?a ?g ?v ?n ?q ?r ?u] =>
    assert (match TradeEngine_new c a g v n q r u with Ok _ => true | Err _ => false end = true) as Hn
      by (vm_compute; reflexivity); destruct (TradeEngine_new c a g v n q r u) as [te|]; [|done] end.
  by exists te.
Qed.

Definition demo_order : LiveAlgoOrder := mkLiveAlgoOrder 1 99 BUY 2 5 0.

(** The same order at the front of its queue when the ask falls through it. *)
Definition front_order : LiveAlgoOrder := mkLiveAlgoOrder 1 99 BUY 2 0 0.

Definition ask_falls (b : BacktestEngine float) : BacktestEngine float :=
  mkBacktestEngine (bt_ticker_id b) (engine_ b) (next_synth_oid_ b) (resting_bid_oid_ b) (resting_ask_oid_ b)
    (last_bid_price_ b) 98 (last_bid_qty_ b) 1 (live_ b) (pnl_out_ b) (num_fills_ b) (num_requotes_ b).

(** Five lots are queued ahead of an order for two: a sell of six leaves it one.  At
    the front of the queue it is filled by the one lot offered a tick below it. *)
Lemma fill_simulator_respects_queue_witness :
  (∃ b b' : BacktestEngine float, matchAgainstTrade (mkTradeEvent 10 99 6 SELL) b = Ok b'
    ∧ waiting b' [harness_response FILLED 0 BUY 1 99 1 1]
    ∧ live_slot 0 BUY b' = Ok (mkLiveAlgoOrder 1 99 BUY 1 0 0))
  ∧ ∃ b b' : BacktestEngine float, matchAgainstBBO b = Ok b' ∧ waiting b' [harness_response FILLED 0 BUY 1 98 1 1].
Proof.
  destruct replay_start_ok as [te Hte].
  destruct (BacktestEngine_new_harness _ _ _ _ _ Hte) as [Hh _];
    [lia|simpl; lia|split; unfold POSITION_SAFE; simpl; lia|].
  match type of Hh with harness _ ?b0 _ _ =>
    set (b := set_live_slot 0 BUY demo_order b0) in *; set (c := ask_falls (set_live_slot 0 BUY front_order b0)) in * end.
  assert (response_room b [] 2 ∧ response_room c [] 2) as [Hrb Hrc].
  { unfold response_room. change (incoming_ogw_responses_ (engine_ b)) with (incoming_ogw_responses_ te).
    change (incoming_ogw_responses_ (engine_ c)) with (incoming_ogw_responses_ te).
    pose proof (hv_rsize _ _ _ _ Hh) as Hsz. cbn [engine_] in Hsz. rewrite Hsz. vm_compute. done. }
  split.
  - exists b.
    destruct (fill_simulator_respects_queue b BUY demo_order demo_order LiveAlgoOrder_default (mkTradeEvent 10 99 6 SELL) [])
      as [(b' & E & _ & Hf) _]; try reflexivity; try (simpl; lia); [by left|split; simpl; lia|exact (hv_responses _ _ _ _ Hh)|exact Hrb|].
    exists b'. destruct (Hf eq_refl) as (H1 & H2 & _). split_and!; [exact E|exact H1|exact H2].
  - exists c.
    destruct (fill_simulator_respects_queue c BUY front_order front_order LiveAlgoOrder_default (mkTradeEvent 10 99 6 SELL) [])
      as [_ (c' & rb & bo & ra & ao & E & Hw & _ & _ & Hb & Ha)]; try reflexivity; try (simpl; lia);
      [by left|split; simpl; lia|exact (hv_responses _ _ _ _ Hh)|exact Hrc|].
    exists c'. split; [exact E|].
    assert (ra = []) as -> by (inversion Ha; subst; simpl in *; done || lia).
    assert (rb = [harness_response FILLED 0 BUY 1 98 1 1]) as ->; [|exact Hw].
    inversion Hb as [Hno| |]; subst; simpl in *; [|lia|reflexivity].
    destruct Hno as [?|[?|?]]; [lia|done|lia].
Defined.

(** C9. The position limit of the command line holds through the whole backtest
    program: for a limit [z] (argument 10) and an order size within the safe
    ranges, whatever tape of either kind is read, in every state between two tape
    events and at the end of the program the position of the traded ticker is at
    most [z] in absolute value, and the queues between the simulator and the trade
    engine are empty, every request answered and every response booked. *)
Theorem backtest_position_limit {F : Type} `{!Double F} `{!DoubleMath F} `{!DoubleCast F} `{!DoubleLog F}
    `{!DoubleText F} `{!DoubleAtof F} `{!HashOrder} {Hlaws : HashOrderLaws} argv getenv (cfg : BacktestConfig F) z mem now :
  parse_args argv getenv = Ok (Some cfg) → arg_i argv 10 = Ok z →
  0 ≤ z ≤ POSITION_SAFE → max_order_size_ (risk_cfg_ (bc_cfg cfg)) < 2 ^ 31 →
  let limited (b : BacktestEngine F) :=
    (∀ p, ticker_position_ (position_keeper_ (te_trader (engine_ b))) !! Z.to_nat (bc_ticker_id cfg) = Some p →
       Z.abs (position_ p) ≤ z)
    ∧ lfq_rep (requests b) [] ∧ waiting b [] in
  (∀ b0 b, BacktestEngine_new (bc_ticker_id cfg) (bc_cfg cfg) mem now = Ok b0 → rtc bt_event b0 b → limited b)
  ∧ ∀ fuel n wall files b, backtest_main argv getenv fuel n wall mem now files = Ok (Some b) → limited b.
Proof.
  intros Hparse Hz Hsafe Hsize limited. destruct (parse_args_limits _ _ _ Hparse) as (Ht & Hc & Ho & z' & Hz' & Hmax).
  rewrite Hz in Hz'. injection Hz' as <-.
  assert (u32 z = z) as Ez by (unfold wrap; apply Z.mod_small; unfold POSITION_SAFE in Hsafe; lia). rewrite Ez in Hmax.
  assert (cfg_ok (risk_cfg_ (bc_cfg cfg))) as Hr by (split; lia).
  assert (∀ b0, BacktestEngine_new (bc_ticker_id cfg) (bc_cfg cfg) mem now = Ok b0 →
    harness (risk_cfg_ <$> backtest_cfgs (bc_ticker_id cfg) (bc_cfg cfg)) b0 [] [] ∧ bt_ticker_id b0 = bc_ticker_id cfg) as Hstart
    by (intros b0 Hnew; by apply BacktestEngine_new_harness with (mem := mem) (now := now)).
  assert (∀ b, bc_ticker_id cfg < ME_MAX_TICKERS →
    harness (risk_cfg_ <$> backtest_cfgs (bc_ticker_id cfg) (bc_cfg cfg)) b [] [] → limited b) as Hl.
  { intros b Hlt Hb. split_and!; [|exact (ts_queue _ _ _ _ (hv_sync _ _ _ _ Hb))|exact (hv_responses _ _ _ _ Hb)].
    rewrite <- Hmax. intros p. apply (harness_limit _ _ _ _ _ Hb). unfold backtest_cfgs.
    rewrite list_lookup_fmap, list_lookup_insert_eq; [done|]. rewrite length_replicate. lia. }
  split.
  - intros b0 b Hnew Hrun. destruct (Hstart b0 Hnew) as [Hh Et].
    apply Hl; [rewrite <- Et; apply (hv_ticker _ _ _ _ Hh)|by eapply bt_events_harness].
  - intros fuel n wall files b (c & Hc' & Hx)%bind_ok. rewrite Hparse in Hc'. injection Hc' as <-.
    apply bind_ok in Hx as (b0 & Hnew & (tape & Htape & (b1 & Hrun & [= <-])%bind_ok)%bind_ok).
    destruct (Hstart b0 Hnew) as [Hh Et]. apply Hl; [rewrite <- Et; apply (hv_ticker _ _ _ _ Hh)|].
    unfold open_tape in Htape. destruct (bool_decide _); apply bind_ok in Htape as (r & Hr' & [= <-]); cbn [backtest_run] in Hrun.
    + unfold LobsterReader_new in Hr'. destruct (files (bc_path cfg)), (files (deriveOrderbookPath (bc_path cfg))); try done. injection Hr' as <-.
      refine (runLobster_harness _ _ _ _ _ _ _ _ Hh (BacktestEngine_new_nonneg _ _ _ _ _ Hnew) _ _ Hrun); [by rewrite Et|constructor].
    + by eapply run_tape_harness.
Qed.

Lemma replay_runs : ∃ b0 b, replay_start = Ok b0 ∧ run_tape 10 4 (λ _ k, Z.of_nat k) replay_reader 0 b0 = Ok b
  ∧ position_ <$> ticker_position_ (position_keeper_ (te_trader (engine_ b))) !! 0%nat = Some 1.
Proof.
  assert (match replay with
          | Ok b => bool_decide (position_ <$> ticker_position_ (position_keeper_ (te_trader (engine_ b))) !! 0%nat = Some 1)
          | Err _ => false end = true) as Hrun by (vm_compute; reflexivity).
  unfold replay in Hrun. destruct replay_start as [b0|] eqn:E0; [|done]. cbn [rbind] in Hrun.
  destruct (run_tape _ _ _ _ _ b0) as [b|] eqn:E1; [|done]. apply bool_decide_eq_true in Hrun. exists b0, b. split_and!; [reflexivity|exact E1|exact Hrun].
Qed.

(** The same run from the command line. *)
#[local] Instance float_atof : DoubleAtof float := λ s, default (float_of_Z 0) (float_of_Z <$> strtoll s).

Definition replay_argv : list string :=
  ["backtest_main"; "demo"; "pnl.csv"; "tape.csv"; "binance"; "1"; "0"; "2"; "0"; "50"; "4"; "-1000"; "0"; "0"; "1"; "6"; "0"; "0"; "0";
   "0"; "1"].

Definition replay_files (path : string) : option string :=
  if bool_decide (path = "tape.csv") then Some (print_tape replay_tape) else None.

Definition no_env (name : string) : option string := None.

Definition replay_main : result (option (BacktestEngine float)) :=
  backtest_main replay_argv no_env 10 4 (λ _ k, Z.of_nat k)
    zero_memory 0 replay_files.

Lemma replay_main_runs : ∃ b, replay_main = Ok (Some b).
Proof.
  assert (match replay_main with Ok (Some b) => true | _ => false end = true) as Hrun by (vm_compute; reflexivity).
  destruct replay_main as [[b|]|]; [|done..]. by exists b.
Qed.

Lemma replay_argv_parsed :
  ∃ cfg, parse_args (F:=float) replay_argv no_env = Ok (Some cfg) ∧ max_order_size_ (risk_cfg_ (bc_cfg cfg)) = 50.
Proof.
  assert (match parse_args (F:=float) replay_argv no_env with
          | Ok (Some c) => max_order_size_ (risk_cfg_ (bc_cfg c)) =? 50 | _ => false end = true) as Hp by (vm_compute; reflexivity).
  destruct (parse_args replay_argv no_env) as [[c|]|]; [|done..]. exists c. split; [reflexivity|by apply Z.eqb_eq].
Qed.

Lemma backtest_position_limit_witness :
  ∃ b : BacktestEngine float, replay_main = Ok (Some b) ∧ lfq_rep (requests b) [] ∧ waiting b [].
Proof.
  destruct replay_argv_parsed as (cfg & Hc & Ho). destruct replay_main_runs as [b Hrun]. exists b. split; [exact Hrun|].
  unfold replay_main in Hrun.
  destruct (backtest_position_limit replay_argv no_env cfg 4 zero_memory
    0 Hc eq_refl ltac:(unfold POSITION_SAFE; lia) ltac:(rewrite Ho; lia)) as [_ Hmain].
  exact (proj2 (Hmain 10%nat 4%nat (λ _ k, Z.of_nat k) replay_files b Hrun)).
Defined.

(** C32. The book of the backtest shows the tape: after a run over the events
    [evs], fewer than 200000 of them, with 32-bit quantities and with bid and ask
    prices the index tells apart, and in a process whose uninitialised book indices
    happen to be zero, the client's book holds exactly the synthetic
    orders of the last top-of-book event, and the trade engine's best-bid-offer
    is that event's prices and quantities. *)
Theorem backtest_shows_tape {F : Type} `{!Double F} `{!DoubleMath F} `{!DoubleCast F} `{!DoubleLog F}
    `{!DoubleText F} tid (cfg : TradeEngineCfg F) mem now b0 fuel n wall r last b evs :
  BacktestEngine_new tid cfg mem now = Ok b0 → all_zeroed (em_books mem) → 0 ≤ tid →
  read_tape n r = Ok evs → Forall tape_event_fits evs → 2 * Z.of_nat (length evs) < 400000 →
  run_tape fuel n wall r last b0 = Ok b →
  book_is b (synth_book b) ∧ match last_top evs None with Some e => at_event b e | None => True end.
Proof.
  intros Hnew Hz Ht Hread Hfits Hlen Hrun. destruct (BacktestEngine_new_synth _ _ _ _ _ Ht Hz Hnew) as [Hok Hn].
  destruct (run_tape_book fuel n wall r last b0 b evs None Hok I Hread Hfits ltac:(lia) Hrun) as [Hok' Hat].
  split; [by destruct Hok'|exact Hat].
Qed.

Lemma backtest_shows_tape_witness :
  ∃ (b : BacktestEngine float), at_event b (mkBookTopEvent 3000 98 4 101 7).
Proof.
  destruct replay_runs as (b0 & b & E0 & E1 & _). exists b.
  refine (proj2 (backtest_shows_tape 0 replay_cfg _ 0 b0 10 4 _ replay_reader 0 b replay_tape E0 (λ _, eq_refl) ltac:(lia) _ _ _ E1)).
  - vm_compute. reflexivity.
  - repeat constructor; simpl; try lia; done.
  - vm_compute. reflexivity.
Defined.
