(* ===== verification/ExchangeRunTheorems.v ===== *)
(** * What the running exchange guarantees.

    The threads of the exchange process over their shared queues (Exchange.v); and how
    the exchange and the client start and stop (Lifecycle.v). *)

From stdpp Require Import functions numbers gmap list sorting relations.
From S2P Require Import Prelude Lifecycle MemPool Types LFQueue Wire SocketUtils BookCore BookSpec BookRefine MEOrderBook MESpec MERefine MEInv MatchingEngine Requests OrderServer ServerStreams MarketData Mirror Snapshot System Double Position RunEvents Exchange.

Open Scope Z_scope.
Local Coercion Z.of_nat : nat >-> Z.

(** C4. The exchange process, its threads interleaved in any order, started in memory
    where the index arrays of the books, which no constructor sets, are zeroed.  In
    every state that is reached with plain requests ([plain_run]: sides, ids and
    quantities in range, prices from 0 to two below the size of the price index, no
    order id used twice, fewer than [ME_MAX_ORDER_IDS] orders) and without overflowing a
    queue, a send buffer or a sequence number (the side conditions of
    [exchange_step]): the requests sequenced so far are those processed and those waiting;
    the books are the specified ones; the responses of the specification, in
    order, are those handed to connections and those waiting; its public updates
    are those published and those waiting; the published ones, numbered from 1, are
    what left the send buffer turn by turn (sent, or dropped by a turn whose [send]
    failed) and what is still in it; the synthesizer has applied a prefix of them
    and has the rest waiting; and every client that ever sent a request is bound to
    a connection.  From there each thread's next turn succeeds.  The receiving half:
    if the ids in the arriving requests are below the client limit and the requests
    pending fit the sequencer's batch of 1024 (beyond it the code aborts).  The
    matching engine: if its output queues have room.  The response loop finds a
    connection for every waiting response, if the send buffers have room.  The
    publisher: whether or not its [send] fails, if the snapshot queue, its buffer
    and its 64-bit counter have room.  The synthesizer: whether or not a snapshot is
    due and whatever the kernel takes of it, if fewer than [ME_MAX_ORDER_IDS]
    requests and updates have been seen (beyond that an order id is out of the
    synthesizer's range) and a full snapshot fits the send buffer. *)
Theorem exchange_runs_safely `{SORT : StdSort} (mem : Z → IndexMemory (Z * Z)) (listener now : Z) (h : history) (x : Exchange) :
  all_zeroed mem → rtc exchange_step (no_history, exchange_new mem listener now) (h, x) → plain_run (h_log h) →
  exchange_inv h x
  ∧ (∀ accepted io, NoDup (receive_sockets_ (tcp_server x) ++ accepted) →
       Forall id_in_range (round_ios accepted io x ≫= completed_on (server_of x)) →
       length (pending_client_requests_ (order_server x)) + length (round_ios accepted io x ≫= completed_on (server_of x))
         ≤ ME_MAX_PENDING_REQUESTS →
       ∃ batch reports x', receive_turn accepted io x = Ok (batch, reports, x'))
  ∧ (∀ req, getNextToRead (client_requests x) = Some req →
       room_for (client_responses x) (length (privates (engine_spec req (h_books h)).2)) →
       room_for (market_updates x) (length (publics (engine_spec req (h_books h)).2)) → ∃ x', match_turn x = Ok x')
  ∧ (∀ rs, lfq_rep (client_responses x) rs →
       (∀ fd, length (outbound_data_ (socket_of (server_of x) fd)) + 50 * length rs ≤ TCPBufferSize) →
       ∃ x', respond_turn x = Ok x')
  ∧ (∀ n, room_for (snapshot_updates x) (Z.to_nat (size_ (market_updates x))) →
       length (mc_outbound (incremental_socket_ (market_data_publisher x))) + 42 * size_ (market_updates x) ≤ McastBufferSize →
       next_inc_seq_num_ (market_data_publisher x) + size_ (market_updates x) < 2 ^ 64 →
       ∃ sent x', publish_turn n x = Ok (sent, x'))
  ∧ (∀ accept now1 now2, 1 + length (h_done h) < ME_MAX_ORDER_IDS → length (publics (h_events h)) < ME_MAX_ORDER_IDS →
       length (mc_outbound (snapshot_socket_ (snapshot_synthesizer x))) + 42 * (2 + ME_MAX_TICKERS + length (publics (h_events h)))
         ≤ McastBufferSize →
       ∃ sent x', snapshot_turn accept now1 now2 x = Ok (sent, x')).
Proof.
  intros Hz Hr Hpl. pose proof (exchange_inv_reachable mem listener now h x Hz Hr Hpl) as Hi. split_and!; [done|..].
  - intros accepted io. apply receive_turn_ok.
  - intros req Hn H1 H2. destruct (match_turn_ok req h x Hi Hpl Hn H1 H2) as (x' & E & _). by exists x'.
  - intros rs Hq Hl. by eapply respond_turn_ok.
  - intros n H1 H2 H3. destruct (publish_turn_ok n h x Hi H1 H2 H3) as (sent & x' & E & _). by exists sent, x'.
  - intros accept now1 now2 H1 H2 H3. by eapply snapshot_turn_ok.
Qed.

#[local] Existing Instance stable_sort.

(** The books' index arrays in zeroed memory. *)
Definition run_memory (ticker : Z) : IndexMemory (Z * Z) := zeroed.

Definition run_request : OMClientRequest := mkOMClientRequest 1 (mkMEClientRequest Req_NEW 3 0 17 SELL 100 10).

Lemma run_request_plain : plain_run [me_client_request_ run_request].
Proof.
  split; [|apply (bool_decide_unpack (NoDup (new_keys [me_client_request_ run_request]))); vm_compute; exact I|vm_compute; done].
  apply Forall_singleton. split; [discriminate|vm_compute; done|vm_compute; done|]. intros _.
  split; [right; reflexivity|]. split; vm_compute; done.
Qed.

(** One connection, on which a request has arrived. *)
Definition run_io (fd : Z) : bytes * Z * Z := (encode run_request, 5, 0).

Definition run_reports : list socket_report := [mkReport 9 (encode run_request) []].

Lemma run_received :
  ∃ x', receive_turn [9] run_io (exchange_new run_memory 4 0) = Ok ([me_client_request_ run_request], run_reports, x')
    ∧ cid_tcp_socket_ (server_of x') = {[3 := 9]}.
Proof.
  unfold receive_turn. cbn [exchange_new tcp_server receive_sockets_ listener_socket_ send_sockets_ app fmap list_fmap run_io].
  cbn [sockets_round]. unfold socket_sendAndRecv. cbn [io_avail io_fd io_time io_sent].
  rewrite tcp_recv_fits by (vm_compute; done). vm_compute. by eexists.
Qed.

(** The request is received and waits for the matching engine. *)
Lemma exchange_runs_safely_witness :
  ∃ h x, rtc exchange_step (no_history, exchange_new run_memory 4 0) (h, x) ∧ exchange_inv h x
    ∧ getNextToRead (client_requests x) = Some (me_client_request_ run_request).
Proof.
  destruct run_received as (x1 & E1 & _).
  assert (rtc exchange_step (no_history, exchange_new run_memory 4 0)
    (mkHistory [me_client_request_ run_request] [] [] [] run_reports, x1)) as H1.
  { apply rtc_once. apply (step_receive [9] run_io [me_client_request_ run_request] run_reports no_history _ x1 E1). vm_compute. done. }
  destruct (exchange_runs_safely run_memory 4 0 _ x1 (λ _, eq_refl) H1 run_request_plain) as (Hi & _).
  exists (mkHistory [me_client_request_ run_request] [] [] [] run_reports), x1. split; [exact H1|]. split; [exact Hi|].
  destruct (xi_requests _ _ Hi) as (todo & Et & Hq). rewrite (getNextToRead_ok _ _ Hq). cbn [h_log h_done app] in Et.
  by rewrite <- Et.
Defined.

(** ** Starting and stopping *)


(** Half-second steps in which the threads [ts] look at their flags. *)
Definition half_seconds (n : nat) (ts : list component) : list choice := concat (replicate n (Tick 500 :: (Look <$> ts))).

(** The client starts and ends, and is interrupted when its trade engine has been
    freed but the pointer is still set. *)
Definition interrupted_end : list choice :=
  let all := [CTradeEngine; CGateway; CConsumer] in
  [Exec; Exec; Exec] ++ half_seconds 2 [CTradeEngine] ++ [Exec]
  ++ [Exec; Exec; Exec] ++ half_seconds 2 [CTradeEngine; CGateway] ++ [Exec]
  ++ [Exec; Exec] ++ half_seconds 2 all ++ [Exec] ++ half_seconds 20 all ++ [Exec]
  ++ [Exec; Exec; Exec; Exec; Exec] ++ (Look <$> all) ++ [Tick 10000; Exec; Exec; Exec]
  ++ [Exec; Tick 1000; Exec; Exec; Interrupt]
  ++ [Exec; Exec; Exec; Exec; Tick 2000; Exec; Exec; Tick 1000; Exec; Exec].

(** [exit] is the last instruction of a program. *)
Ltac ends_in_exit := repeat (apply elem_of_app; right); apply list_elem_of_In; cbn; tauto.

(** C10. The two processes from their start, their threads and the passing of time
    interleaved in any order, a thread looking at its flag again within less than
    a second.  Wherever a signal interrupts the exchange, or the client up to its
    shutdown, and also when the client ends without a signal: no object is freed
    that a thread still uses, none is freed twice or touched after it was freed, and
    [exit] is called when all threads have returned; and [exit] can be reached from
    every state.  The exception: a signal during the final deletes of the client,
    before a pointer is reset, makes the handler free the same object again. *)
Theorem processes_shut_down_safely turn :
  0 < turn < 1000 →
  let full := trading_startup ++ trading_session ++ trading_end in
  let safely signals handler prog :=
    ∀ p, rtc (process_step turn signals handler) (process_new prog) p →
      process_ok p ∧ ∃ p' rest, rtc (process_step turn signals handler) p p' ∧ p_prog p' = Exit :: rest in
  safely true exchange_signal_handler exchange_startup
  ∧ safely true trading_signal_handler (trading_startup ++ trading_session)
  ∧ safely false trading_signal_handler full
  ∧ ∃ p, rtc (process_step 500 true trading_signal_handler) (process_new full) p ∧ ¬ NoDup (p_freed p).
Proof.
  intros Ht full safely.
  assert (∀ signals handler prog, check_process 999 signals handler prog = true → (∀ set, Exit ∈ handler set) → (Exit ∈ prog ∨ signals = true) →
    safely signals handler prog) as Hsafe.
  { intros signals handler prog Hc Hh Hp p Hr. split; [by apply (process_sound_within 999 turn signals handler prog); [lia|..]|].
    by apply (exit_reachable turn signals handler prog); [lia|..]. }
  assert (∀ set, Exit ∈ exchange_signal_handler set) as H1 by (intros set; unfold exchange_signal_handler; ends_in_exit).
  assert (∀ set, Exit ∈ trading_signal_handler set) as H2 by (intros set; unfold trading_signal_handler; ends_in_exit).
  split_and!.
  - apply Hsafe; [vm_compute; reflexivity|done|by right].
  - apply Hsafe; [vm_compute; reflexivity|done|by right].
  - apply Hsafe; [vm_compute; reflexivity|done|left]. unfold full, trading_end. ends_in_exit.
  - destruct (drive 500 true trading_signal_handler interrupted_end (process_new full)) as [p|] eqn:E; [|by vm_compute in E].
    exists p. split; [by eapply drive_run|]. vm_compute in E. injection E as <-. cbn. intros H. by apply NoDup_cons in H as [[] _]; set_solver.
Qed.

(** A turn of 200 milliseconds; the exchange is interrupted before anything has
    started. *)
Lemma processes_shut_down_safely_witness :
  ∃ p, p_prog p = exchange_signal_handler (λ _, false) ∧ process_ok p.
Proof.
  destruct (processes_shut_down_safely 200 ltac:(lia)) as (H & _).
  exists (mkProcess 0 (λ _, false) (λ _, None) (λ _, false) [] (exchange_signal_handler (λ _, false)) true).
  split; [reflexivity|]. apply H. apply rtc_once. exists Interrupt. reflexivity.
Defined.
