(* ===== verification/ConnectedTheorems.v ===== *)
(** * What the running client and the connected system guarantee.

    The threads of the client process over their shared queues (Client.v), and the
    client connected to the exchange (Connected.v). *)

From stdpp Require Import strings numbers gmap list sorting relations.
From Stdlib Require Import Floats.
From S2P Require Import Prelude MemPool Types LFQueue Wire TcpLink SocketUtils BookCore BookSpec BookRefine MarketOrderBook MEOrderBook MESpec MERefine MEInv MatchingEngine Requests OrderServer ServerStreams OrderGateway GatewayRuns MarketData Mirror Snapshot System MarketDataConsumer Double Logging Position RunEvents Exchange OrderManager Features Reports Strategy Session FeedPath EngineRuns Client ClientRuns Connected SessionTheorems ExchangeRunTheorems.

Open Scope Z_scope.
Local Coercion Z.of_nat : nat >-> Z.

(** C5. The client process, its threads interleaved in any order, started in memory
    where the index arrays of its books, which no constructor sets, are zeroed, and
    with a configuration for every ticker.  In every state that is reached without
    overflowing a queue, a receive buffer or a sequence number (the side conditions
    of [client_step]) on sane inputs ([sane_inputs]: what was read of the incremental
    stream is a beginning of the wire form of updates numbered from 1; the responses
    accepted have a non-negative ticker, and their fills a proper side and a quantity
    below 2^31): the requests issued are those framed and those waiting, and
    the bytes sent and buffered are the framed ones numbered from 1; the responses
    handed to the trade engine are those of the client with the next sequence
    numbers among the bytes read, and it has processed a beginning of them; the
    updates handed to it are those of the stream, in order, and its books are the
    replay of those it has processed; its positions are the net quantities of the
    fills it has processed; and the consumer is not in recovery.  From there
    neither the gateway nor the consumer fails while their buffers and queues have
    room and the stream continues in sequence, and a turn of the trade engine that
    completes sends only requests of its own client.  If the net quantities fit 32
    bits, the report of the positions, as [stop] logs it, has one line per ticker
    which begins with the net quantity of those fills. *)
Theorem client_runs_safely {F} `{!Double F} `{!DoubleMath F} `{!DoubleCast F} `{!DoubleText F} c algo (cfgs : list (TradeEngineCfg F)) mem now fd
    (x0 x : Client F) (h : client_history) :
  client_new c algo cfgs mem now fd = Ok x0 → all_zeroed (em_books mem) → length cfgs = Z.to_nat ME_MAX_TICKERS →
  rtc client_step (no_client_history, x0) (h, x) → sane_inputs c h →
  client_inv c h x
  ∧ (∀ avail n, length (outbound_data_ (tcp_socket_ (order_gateway x))) + 38 * size_ (cl_requests x) ≤ TCPBufferSize →
       next_outgoing_seq_num_ (order_gateway x) + size_ (cl_requests x) < 2 ^ 64 →
       ∃ unread sent x', order_turn avail n x = Ok (unread, sent, x'))
  ∧ (∀ sfd inc, sane_inputs c (mkClientHistory (ch_issued h) (ch_sent h) (ch_read h) (ch_feed h ++ concat inc) (ch_done h) (ch_seen h)) →
       Forall (λ d, d ≠ []) inc →
       length (mc_inbound (incremental_mcast_socket_ (market_data_consumer x))) + length (concat inc) ≤ McastBufferSize →
       room_for (cl_updates x) (length (feed_messages x (concat inc))) → ∃ x', data_turn sfd inc [] x = Ok x')
  ∧ (∀ fuel n m clock rs us x', trade_turn fuel n m clock x = Ok x' → lfq_rep (cl_responses x) rs → lfq_rep (cl_updates x) us →
       ∃ new, cl_requests x' = send_all new (cl_requests x) ∧ Forall (λ r, req_client_id_ r = c) new)
  ∧ (∀ bbos, (∀ t, Z.abs (net_qty (fills_on t (ch_done h))) < 2 ^ 31) →
       ∃ rests total, Z.of_nat (length rests) = ME_MAX_TICKERS
         ∧ PositionKeeper_toString bbos (position_keeper_ (te_trader (trade_engine x)))
           = Ok (concat_strings (zip_with (λ t rest, line_start t (net_qty (fills_on t (ch_done h))) +:+ rest) (seqZ 0 ME_MAX_TICKERS) rests)
                 +:+ total)%string).
Proof.
  intros Hn Hz Hl Hr Hi. pose proof (client_inv_reachable c algo cfgs mem now fd x0 h x Hn Hz Hl Hr Hi) as Hx. split_and!; [done|..].
  - intros avail n H1 H2. by eapply order_turn_ok.
  - intros sfd inc H1 H2 H3 H4. destruct (data_turn_ok c sfd inc h x Hx H1 H2 H3 H4) as (x' & E & _). by exists x'.
  - intros fuel n m clock rs us x' Ht Hrs Hus. by eapply trade_turn_sends.
  - intros bbos Hb. apply keeper_report; [done| |done]. by eapply client_positions.
Qed.

#[local] Instance connected_math : DoubleMath float := float_math (λ x, x).
#[local] Existing Instance stable_sort.

(** A text for doubles, for the instances only. *)
#[local] Instance connected_text : DoubleText float := { d_show _ := "0"%string; d_parse _ := None }.

(** With nothing to read and nothing queued a turn sends what is buffered. *)
Lemma gateway_turn_flushes n out g :
  tcp_socket_ g = mkTCPSocket out [] → lfq_rep (outgoing_requests_ g) [] → tcp_flush n (mkTCPSocket out []) = (out, TCPSocket_new) →
  gateway_turn [] n g = Ok ([], out, set_gw_socket TCPSocket_new g).
Proof.
  intros Es Hq Hf. unfold gateway_turn. rewrite Es, tcp_recv_fits by (unfold TCPBufferSize; cbn; lia).
  cbn [length Nat.eqb negb set_gw_socket tcp_socket_ outbound_data_ inbound_data_ app]. cbn. rewrite Hf.
  by rewrite drain_requests_idle.
Qed.

(** A RANDOM client with id 3 that issues one request, stages it and sends it. *)
Definition demo_history : client_history := mkClientHistory [me_client_request_ run_request] (encode run_request) [] [] [] [].

Lemma demo_client :
  ∃ x0 x : Client float, client_new 3 RANDOM session_cfgs session_memory 0 7 = Ok x0
    ∧ rtc client_step (no_client_history, x0) (demo_history, x) ∧ order_gateway x = mkOrderGateway 3 (outgoing_requests_ (order_gateway x)) (LFQueue_new ME_MAX_CLIENT_UPDATES) 2 1 TCPSocket_new ∧ size_ (cl_requests x) = 0.
Proof.
  set (r := me_client_request_ run_request).
  destruct (TradeEngine_new_ok 3 RANDOM session_cfgs session_memory 0 (LFQueue_new ME_MAX_CLIENT_UPDATES : LFQueue MEClientRequest)
    (LFQueue_new ME_MAX_CLIENT_UPDATES) (LFQueue_new ME_MAX_MARKET_UPDATES) eq_refl) as (te & cfg0 & Ete & _).
  set (x0 := mkClient (LFQueue_new ME_MAX_CLIENT_UPDATES) (LFQueue_new ME_MAX_CLIENT_UPDATES) (LFQueue_new ME_MAX_MARKET_UPDATES) te
    (OrderGateway_new 3 (LFQueue_new ME_MAX_CLIENT_UPDATES) (LFQueue_new ME_MAX_CLIENT_UPDATES))
    (MarketDataConsumer_new (LFQueue_new ME_MAX_MARKET_UPDATES) 7)). exists x0. assert (client_new 3 RANDOM session_cfgs session_memory 0 7 = Ok x0) as E0
    by (unfold client_new; rewrite Ete; reflexivity).
  set (x1 := main_send r x0).
  assert (lfq_rep (cl_requests x1) [r]) as Hq1 by (apply (enqueue_ok (LFQueue_new ME_MAX_CLIENT_UPDATES) [] r); [by apply lfq_rep_new|done]).
  destruct (drain_requests_ok [r] (Z.to_nat ME_MAX_CLIENT_UPDATES) (gateway_on x1) Hq1) as (g2 & Ed & Hq2 & D1 & D2 & D3 & D4 & D5);
    [cbn [length]; unfold ME_MAX_CLIENT_UPDATES; lia|cbn [length]; unfold TCPBufferSize; cbn; lia|cbn; lia|cbn; lia|].
  cbn [gateway_on x1 main_send x0 order_gateway cl_responses OrderGateway_new gw_client_id_ next_outgoing_seq_num_ next_exp_seq_num_ tcp_socket_
    incoming_responses_ outgoing_requests_ TCPSocket_new outbound_data_ inbound_data_] in D1, D2, D3, D4, D5.
  assert (order_turn [] 0 x1 = Ok ([], [], put_gateway g2 x1)) as E2.
  { unfold order_turn, gateway_turn. rewrite tcp_recv_fits by (unfold TCPBufferSize; cbn; lia).
    change ((let* y := (let* g := drain_requests (Z.to_nat ME_MAX_CLIENT_UPDATES) (gateway_on x1) in Ok ([] : bytes, [] : bytes, g)) in
      let '(unread, sent, g) := y in Ok (unread, sent, put_gateway g x1)) = Ok ([], [], put_gateway g2 x1)). by rewrite Ed. }
  set (x2 := put_gateway g2 x1) in *. set (g3 := set_gw_socket TCPSocket_new g2).
  assert (order_turn [] 38 x2 = Ok ([], encode run_request, put_gateway g3 x2)) as E3.
  { unfold order_turn. change (gateway_on x2) with (mkOrderGateway (gw_client_id_ g2) (outgoing_requests_ g2) (incoming_responses_ g2)
      (next_outgoing_seq_num_ g2) (next_exp_seq_num_ g2) (tcp_socket_ g2)). rewrite (gateway_turn_flushes 38 (encode run_request)); [reflexivity|exact D5|exact Hq2|vm_compute; reflexivity]. }
  exists (put_gateway g3 x2). split; [exact E0|]. split; [|split].
  - eapply rtc_l; [apply (cstep_main r); [done|done]|]. fold x1.
    eapply rtc_l; [apply (cstep_order [] 0 [] [] _ x1 x2 E2); [vm_compute; done|]|].
    { rewrite (proj1 (lfq_rep_size _ _ Hq1)). cbn. lia. }
    eapply rtc_l; [apply (cstep_order [] 38 [] (encode run_request) _ x2 _ E3)|apply rtc_refl].
    + unfold completed. cbn [gateway_on x2 put_gateway order_gateway tcp_socket_ gw_client_id_ next_exp_seq_num_ cl_responses]. rewrite D2, D3, D5. vm_compute. done.
    + cbn [x2 put_gateway order_gateway cl_requests]. rewrite D4, (proj1 (lfq_rep_size _ _ Hq2)). cbn. lia.
  - destruct g2. cbn in D1, D2, D3, D4 |- *. by subst.
  - exact (proj1 (lfq_rep_size _ _ Hq2)).
Qed.

Lemma demo_sane : sane_inputs 3 demo_history.
Proof. split; [exists []; split_and!; [done|constructor|done]|constructor]. Qed.

Lemma client_runs_safely_witness :
  ∃ x : Client float, client_inv 3 demo_history x ∧ ∃ unread sent x', order_turn [] 0 x = Ok (unread, sent, x').
Proof.
  destruct demo_client as (x0 & x & E0 & Hr & Eg & Es). exists x.
  destruct (client_runs_safely 3 RANDOM session_cfgs session_memory 0 7 x0 x demo_history E0 (λ _, eq_refl) eq_refl Hr demo_sane) as (Hi & Ho & _).
  split; [exact Hi|]. apply Ho; rewrite Es, Eg; [cbn; unfold TCPBufferSize; lia|cbn; lia].
Defined.


