(* ===== verification/ClientRunTheorems.v ===== *)
(** * The trading client's program against the exchange.

    The client executable with the RANDOM strategy (TradingMain.v), many of them
    against one matching engine (MatchingEngine.v, Requests.v); and the client process
    once its market data consumer is in recovery (ClientRuns.v). *)

From Stdlib Require Import Ascii String Floats.
From stdpp Require Import numbers strings pretty gmap list sorting relations.
From S2P Require Import Prelude MemPool Types LFQueue BookCore BookSpec BookRefine MEOrderBook MESpec MERefine MEInv MarketOrderBook MatchingEngine Requests Wire TimeUtils OrderGateway MarketData Mirror Snapshot System MarketDataConsumer Double Position RunEvents Exchange OrderManager Features Strategy Session Parse BacktestMain TradingMain Shutdown Client ClientRuns.

Open Scope Z_scope.
Local Coercion Z.of_nat : nat >-> Z.

(** C15. RANDOM clients against a fresh exchange, for any random numbers, in processes
    whose uninitialised book indices happen to be zero; [reqs] are their requests in
    whatever order they arrive, cancels before their orders included.  (1) The client
    program, started with a client id and RANDOM, ends: it gets through its 10000
    rounds, the wait for a silent market and [stop], while the other threads of the
    client hand its trade engine the updates of that run and the client's responses,
    or a beginning of them, in whatever pieces and at whatever sleeps; its positions
    are then the net quantities of the fills it was handed.  This is for fewer than
    [ME_MAX_ORDER_IDS] requests in all, positions that stay within [POSITION_SAFE]
    (beyond it the code's 32-bit products overflow), and a clock that moves by the
    length of the sleeps and sees no market event after some test [k0] of the wait.
    (2) Whatever the other threads do and whatever command line follows, when the
    program ends the requests it has sent are those of the closed form
    [random_requests], because without an algorithm the trade engine sends nothing,
    and every response and update queued has been consumed.  (3) The matching engine
    serves the requests of up to 104 such clients: none of them fails, the books end
    as specified and the messages sent are the specified ones. *)
Theorem random_clients_served {F} `{!Double F} `{!DoubleMath F} `{!DoubleCast F} `{!DoubleAtof F} {E} `{!RequestSink E}
    (rand : Z → nat → Z) (clients : list Z) (reqs : list MEClientRequest) (mem : EngineMemory F) (now : Z) (e : E)
    (xmem : Z → IndexMemory (Z * Z)) incoming queues :
  NoDup clients → Forall (λ c, 0 ≤ c < ME_MAX_NUM_CLIENTS) clients → length clients ≤ 104 →
  reqs ≡ₚ clients ≫= random_requests rand → all_zeroed (em_books mem) → all_zeroed xmem →
  let spec := engine_spec_run reqs fresh_books in
  (∀ c prog acts wait_acts stop_acts n m clock last k0 rs us, c ∈ clients → 1 + length reqs < ME_MAX_ORDER_IDS →
     rs `prefix_of` own c (privates spec.2) → us `prefix_of` publics spec.2 →
     (∀ t, 0 ≤ t < ME_MAX_TICKERS → positions_safe 0 (fills_on t rs)) →
     delivers (concat (acts <$> seq 0 (2 * kRandomOrders + 1)) ++ concat (wait_acts <$> seq 0 n)) rs us →
     clock_ok n k0 clock last → (k0 + 7 ≤ n)%nat →
     ∃ te handed, trading_program (F:=F) rand acts wait_acts stop_acts [prog; pretty c; "RANDOM"%string] mem now e n m clock last
         = Ok (Some te)
       ∧ handed `prefix_of` rs ∧ ∀ t, 0 ≤ t → te_position t te = net_qty (fills_on t handed))
  ∧ (∀ c acts wait_acts stop_acts argv n m clock last te, c ∈ clients → arg_i argv 1 = Ok c → arg argv 2 = Ok "RANDOM"%string →
       trading_program (F:=F) rand acts wait_acts stop_acts argv mem now e n m clock last = Ok (Some te) →
       sent te = send_all (random_requests rand c) e
       ∧ size_ (incoming_ogw_responses_ te) = 0 ∧ size_ (incoming_md_updates_ te) = 0)
  ∧ ∃ me', process_all reqs (MatchingEngine_new xmem incoming queues) = Ok me'
      ∧ books_rep (MatchingEngine.ticker_order_book_ me') spec.1
      ∧ engine_queues me' = emit_all spec.2 queues.
Proof.
  intros Hnd Hc Hl Hp Hz Hzx spec.
  assert (plain_run reqs) as Hpl by (eapply random_clients_plain; [done|done|lia|exact Hp]). split_and!.
  - intros c prog acts wa sa n m clock last k0 rs us Hin Hn Hrs Hus Hsafe Hd Hck Hk.
    destruct (random_program_ends rand c prog acts wa sa mem now e n m clock last k0 rs us) as (te & rs1 & rs2 & us1 & us2 & E1 & -> & _ & Hw);
      [by eapply Forall_forall in Hc|done|by eapply exchange_orderly|done..|].
    exists te, rs1. split_and!; [done|by eexists|exact (wd_positions _ _ _ Hw)].
  - intros c acts wa sa argv n m clock last te Hin. apply random_program_sends. by eapply Forall_forall in Hc.
  - eapply (process_all_ok reqs (MatchingEngine_new xmem incoming queues)); [by apply books_rep_new|by apply plain_run_valid].
Qed.

#[local] Instance client_math : DoubleMath float := float_math (λ x, x).
#[local] Instance client_atof : DoubleAtof float := λ s, default (float_of_Z 0) (float_of_Z <$> strtoll s).

(** The uninitialised members in zeroed memory. *)
Definition client_memory : EngineMemory float :=
  mkEngineMemory (mkSideArray (float_of_Z 0) (float_of_Z 0) (float_of_Z 0) (float_of_Z 0)) (λ _, zeroed).

(** Clients 1 and 2, each drawing its id all the time, the second one first. *)
Definition own_id (seed : Z) (k : nat) : Z := seed.

Definition both_clients : list MEClientRequest := random_requests own_id 2 ++ random_requests own_id 1 ++ [].

(** What the exchange sends for the first request: an acceptance and an update. *)
Definition first_response : MEClientResponse := mkMEClientResponse ACCEPTED 2 2 2000 1 SELL 105 0 4.
Definition first_update : MEMarketUpdate := mkMEMarketUpdate MU_ADD 1 2 SELL 105 4 1.

(** The other threads hand both to the trade engine in the sleep after the request. *)
Definition first_round (k : nat) : list turn_input :=
  match k with
  | 1%nat => [mkTurnInput (enqueue first_response (LFQueue_new 16)) (enqueue first_update (LFQueue_new 16)) 0 1 1 (λ _, 0)]
  | _ => []
  end.

Lemma first_round_delivers n :
  delivers (concat (first_round <$> seq 0 (2 * kRandomOrders + 1)) ++ concat ((λ _, []) <$> seq 0 n)) [first_response] [first_update].
Proof.
  assert (∀ (f : nat → list turn_input) n k, (∀ j, (k ≤ j)%nat → f j = []) → concat (f <$> seq k n) = []) as Hnil.
  { intros f n1. induction n1 as [|n1 IH]; intros k Hf; [done|]. cbn [seq fmap list_fmap concat]. rewrite Hf by lia. apply IH.
    intros j Hj. apply Hf. lia. }
  rewrite (Hnil (λ _, []) n 0%nat), app_nil_r by done. replace (2 * kRandomOrders + 1)%nat with (S (S (2 * kRandomOrders - 1))) by (unfold kRandomOrders; lia).
  cbn [seq fmap list_fmap concat]. rewrite (Hnil first_round _ 2%nat) by (by intros [|[|j]] Hj; [lia|lia|]). cbn [first_round app delivers].
  exists [first_response], [], [first_update], []. split_and!; try done.
  - apply (enqueue_ok (LFQueue_new 16) [] first_response); [by apply lfq_rep_new|done].
  - apply (enqueue_ok (LFQueue_new 16) [] first_update); [by apply lfq_rep_new|done].
Qed.

Lemma both_clients_first :
  ∃ rest, both_clients = random_new (own_id 2) 2 0 :: rest ∧ 1 + length both_clients < ME_MAX_ORDER_IDS.
Proof.
  assert (∀ c, length (random_requests own_id c) = (2 * kRandomOrders)%nat) as Hl.
  { intros c. unfold random_requests.
    cut (∀ k, length (seq k kRandomOrders ≫= random_pair (own_id c) c) = (2 * kRandomOrders)%nat); [intros H; apply H|].
    induction kRandomOrders as [|n IH]; intros k; [done|].
    cbn [seq]. rewrite bind_cons, length_app, IH. change (length (random_pair (own_id c) c k)) with 2%nat. lia. }
  unfold both_clients. rewrite !length_app, !Hl. cbn [length].
  unfold random_requests at 1. replace kRandomOrders with (S (kRandomOrders - 1)) by (unfold kRandomOrders; lia).
  cbn [seq]. rewrite bind_cons. eexists. split; [reflexivity|]. unfold kRandomOrders, ME_MAX_ORDER_IDS. lia.
Qed.

Lemma both_clients_sent :
  let spec := engine_spec_run both_clients fresh_books in
  [first_response] `prefix_of` own 2 (privates spec.2) ∧ [first_update] `prefix_of` publics spec.2.
Proof.
  destruct both_clients_first as (rest & -> & _). cbv zeta.
  change (random_new (own_id 2) 2 0 :: rest) with ([random_new (own_id 2) 2 0] ++ rest). rewrite engine_spec_run_app. cbn [snd].
  assert ((engine_spec_run [random_new (own_id 2) 2 0] fresh_books).2 = [Private first_response; Public first_update]) as ->
    by (vm_compute; reflexivity).
  rewrite privates_app, publics_app. unfold own. rewrite filter_app. split; by eexists.
Qed.

Definition ten_seconds (k : nat) : Z := 10 * 10 ^ 9 * (k + 1).

Lemma random_clients_served_witness :
  (∃ te : TradeEngine float (list MEClientRequest),
     trading_program own_id first_round (λ _, []) (λ _, []) ["trading_main"%string; pretty 2; "RANDOM"%string]
       client_memory 0 [] 7 0 ten_seconds (λ _, 0) = Ok (Some te)
     ∧ sent te = send_all (random_requests own_id 2) [])
  ∧ ∃ me', process_all both_clients
             (MatchingEngine_new (λ _, zeroed) (LFQueue_new 16) (mkEngineQueues (LFQueue_new 16) (LFQueue_new 16))) = Ok me'.
Proof.
  destruct (random_clients_served (F:=float) own_id [2; 1] both_clients client_memory 0 ([] : list MEClientRequest) (λ _, zeroed)
    (LFQueue_new 16) (mkEngineQueues (LFQueue_new 16) (LFQueue_new 16))) as (Hrun & Hsent & me' & Hm & _).
  - apply (bool_decide_unpack _). vm_compute. exact I.
  - apply (bool_decide_unpack _). vm_compute. exact I.
  - simpl. lia.
  - apply Permutation_refl.
  - intros t. reflexivity.
  - intros t. reflexivity.
  - split; [|exists me'; exact Hm].
    destruct both_clients_first as (_ & _ & Hlen). destruct both_clients_sent as [Hr Hu].
    destruct (Hrun 2 "trading_main"%string first_round (λ _, []) (λ _, []) 7%nat 0%nat ten_seconds (λ _, 0) 0%nat [first_response] [first_update])
      as (te & _ & Hte & _); [left|exact Hlen|exact Hr|exact Hu| |apply first_round_delivers| |simpl; lia|].
    + intros t _. split; [unfold POSITION_SAFE; lia|exact I].
    + split; intros k; unfold ten_seconds; change NANOS_TO_SECS with (10 ^ 9); intros; lia.
    + exists te. split; [exact Hte|]. apply (Hsent 2) in Hte as [Hs _]; [exact Hs|left|reflexivity..].
Defined.

(** ** Recovery *)

(** C22. A client whose market data consumer is in recovery, its threads running in
    any order and on any input: as long as nothing fails it stays in recovery, and
    the trade engine processes the updates that were already queued and nothing
    after them, so that every book stays what those updates made it.  The reason:
    [checkSnapshotSync] can only end recovery on the snapshot stream, it resets the
    receive index of the socket whose buffer the callback is walking, and the
    callback then computes a negative [memcpy] length; a read that completes the
    snapshot faults. *)
Theorem client_never_leaves_recovery {F} `{!Double F} `{!DoubleMath F} `{!DoubleCast F} (x : Client F) (us : list MEMarketUpdate) :
  consumer_inv (consumer_on x) → in_recovery_ (consumer_on x) = true →
  lfq_rep (cl_updates x) us → Forall (λ u, 0 ≤ mu_ticker_id_ u) us →
  (∀ x', rtc client_turn x x' →
     in_recovery_ (market_data_consumer x') = true
     ∧ ((lfq_rep (cl_updates x') us ∧ books x' = books x)
        ∨ (lfq_rep (cl_updates x') [] ∧ ∀ t mb, 0 ≤ t → books x !! Z.to_nat t = Some mb →
             ∃ mb', mkt_replay (of_ticker t us) mb = Ok mb' ∧ books x' !! Z.to_nat t = Some mb')))
  ∧ (∀ fd bs c', let c := set_inbound Snapshot bs (consumer_on x) in
       42 ≤ length bs → recv_messages fd true (parse_stream bs).1 c = Ok c' →
       in_recovery_ c' = false → md_recvCallback fd Snapshot c = Err Undefined).
Proof.
  intros Hi Hr Hq Hus. assert (recovering (cl_updates x) (consumer_on x)) as Hrec by done. split.
  - intros x' Hs. destruct (client_blind_reachable us x x' Hus Hrec Hq Hs) as [(_ & Hr' & _) Hb]. split; [exact Hr'|exact Hb].
  - intros fd bs c' c Hlen E Hend. apply (md_recvCallback_completes fd (cl_updates x) c c'); [|exact Hlen|exact E|exact Hend].
    by apply recovering_set_inbound.
Qed.

(** A new client reads update number 5 first, and then a snapshot labelled 4. *)
Definition late_update : MDPMarketUpdate := mkMDPMarketUpdate 5 (mkMEMarketUpdate MU_ADD 1 2 BUY 100 10 1).

Definition snapshot_4 : bytes :=
  concat (encode <$> snapshot_messages (mkSynthesizer ∅ (MemPool_new ME_MAX_ORDER_IDS) 4)).

Definition late_client : result (Client float) :=
  let* x := client_new 1 RANDOM (replicate 8 TradeEngineCfg_default) client_memory 0 7 in
  data_turn (Some 8) [encode late_update] [] x.

Lemma client_never_leaves_recovery_witness :
  ∃ x, late_client = Ok x
    ∧ (∀ x', rtc client_turn x x' → in_recovery_ (market_data_consumer x') = true)
    ∧ md_recvCallback None Snapshot (set_inbound Snapshot snapshot_4 (consumer_on x)) = Err Undefined.
Proof.
  destruct late_client as [x|] eqn:E; [|vm_compute in E; discriminate]. exists x. split; [reflexivity|].
  vm_compute in E. injection E as E.
  destruct (client_never_leaves_recovery x []) as [H1 H2].
  - subst x. by split.
  - subst x. reflexivity.
  - subst x. exact (lfq_rep_new (T := MEMarketUpdate) 262144 ltac:(lia)).
  - constructor.
  - split; [intros x' Hs; apply (H1 x' Hs)|].
    destruct (recv_messages None true (parse_stream snapshot_4).1
      (set_inbound Snapshot snapshot_4 (consumer_on x))) as [c'|] eqn:Ec;
      [|subst x; vm_compute in Ec; discriminate].
    eapply (H2 None _ c'); [vm_compute; discriminate|exact Ec|]. clear H1 H2. subst x. vm_compute in Ec. injection Ec as <-. reflexivity.
Defined.
